(* ===== verification/_CoqProject ===== *)
-Q . S2P
Prelude.v
Floats.v
Model.v
Bellman.v
Observe.v
Consistency.v
Original.v
Bitboard.v
BitboardOps.v
BitboardEnum.v
Active.v
Frontier.v
Stack.v
Block.v
Chaotic.v
Padded.v
Clamped.v
Wave.v
Par.v
Async.v
Schedule.v
Engine.v
ParUnsafe.v
Fused.v
FusedLayout.v
FusedSolve.v
Sparse.v
SparseSolve.v
MapSetup.v
Export.v
Distance.v
LocalPlanner.v
LocalSpec.v
LocalScan.v
Priority.v
PrioritySpec.v
Bridge.v
Solve.v
Answers.v
Planner.v
PlannerSpec.v
Plan.v
Core.v
Ctrl.v
CtrlSpec.v
Follow.v
Entry.v
CoreSpec.v
Invalidate.v
GlobalJob.v
LocalJob.v
Repair.v
RepairJob.v
RepairCommit.v
RepairPrepare.v
LocalRun.v
RepairInv.v
RepairLoop.v
RepairInputs.v
RepairOwner.v
RepairLocal.v
RepairSpec.v
EntrySpec.v
Prefetch.v
RepairApart.v
