(* ===== verification/Prelude.v ===== *)
(** * vi_rs: a verification library

    The value-iteration motion planner of vi_rs/vi_lib plans over cells
    (ix, iy, it) of a map and a heading.  A [ValueIterator] holds one [State] per
    cell (its value, penalties and policy) and the actions with their sampled
    transition tables; a map and a goal are loaded into it, a solver of
    solvers/mod.rs runs Bellman updates until nothing moves, and the result is
    exported, followed by a local planner, or rolled out as a path.  The core of
    vi_rs/vi_planner keeps one such field alive: while the robot drives, scans
    change its inputs, and two background workers repair it.  This library models
    both and proves what each part guarantees.  Paths below are relative to
    src/vi_rs/vi_lib/src; those of the core start with vi_planner/, for
    src/vi_rs/vi_planner/src.

    ** Reading the model

    A definition carries the name of the Rust function it translates, and helper
    definitions are the loops and blocks inside it.  A computation that can panic
    returns [res] (below): [Ok], [Panic] or [OutOfFuel]; functional state (the
    planner, the core, the observer, the boards) is passed explicitly.  Integers are
    [Z] kept at their width: [+], [-] and [*] wrap as in a release build, casts and
    saturating operations are written out.  A [Vec] is a list indexed by [Z] whose
    accesses out of range panic.  [f64] is the binary64 of [SpecFloat]; [cos] and
    [sin], which Rust leaves unspecified, are arguments of the definitions that
    call them.  An observer is a record of functions over a state of its own,
    threaded through the solve; it says whether a boundary call asks for the policy,
    and only then a solver with a layout of its own writes the planner.

    ** Files

    - Prelude, Floats, Model: outcomes, machine integers, vectors and loops; binary64;
      params.rs, msg.rs, state.rs, action.rs, state_transition.rs and the records of
      value_iterator.rs, with the invariant [wf_vi] and its checker.
    - Bellman: the per-cell update of value_iterator.rs.  Observe: solvers/observe.rs.
    - Consistency: the pending-cell invariant, which the in-place solvers instantiate.
    - Original: the full-sweep solver of solvers/original and the sweep orders.
    - Bitboard (definitions), BitboardOps, BitboardEnum: bitboard/.
    - Active, Frontier, Stack, Block: displacement and seeds of solvers/mod.rs, and
      frontier2d.rs, frontier3d.rs, stack.rs, block.rs, pyramid.rs.
    - Chaotic (theory), Padded, Clamped, Wave, Par: the padded layout of
      frontier2d_pad.rs, its backup as a monotone operator on valuations, and the
      Jacobi solver frontier2d_par.rs.
    - Async, Schedule: rounds of asynchronous workers as a step machine run by a
      schedule, and fair schedules.  Engine, ParUnsafe: [async_gs_engine] of
      solvers/mod.rs as such a machine, and frontier2d_par_unsafe.rs.
    - Fused, FusedLayout, FusedSolve: frontier2d_fused.rs.  Sparse, SparseSolve:
      frontier2d_sparse.rs as another machine, and the agreement of the four parallel
      solvers.
    - MapSetup, Export: map ingestion, transition sampling, goals; grid-map layers,
      occupancy rendering and status of value_iterator.rs and state.rs.
    - Distance, LocalPlanner, LocalSpec, LocalScan: local.rs.
    - Priority, PrioritySpec: solvers/priority.rs.
    - Bridge: bridge.rs.  Solve: the table and dispatch of solvers/mod.rs.  Answers:
      what a solve of the table answers to its observer.
    - Planner, PlannerSpec: planner.rs, and [RamSink] of
      solvers/frontier2d_sparse_compact.rs.
    - Plan: the composition of a parallel solve with the rollout and the sink.
    - Core, CoreSpec: the state of a core (vi_planner/core/mod.rs, core/global.rs) and
      its queue of cells to repair.  Invalidate: core/global/invalidate.rs.
    - Ctrl, CtrlSpec: ctrl.rs.  Follow: the decision of a control tick and the images of
      the field (vi_planner/core/follow.rs, core/value_grid.rs, core/mod.rs).
    - Entry, EntrySpec: preparing a goal and planning (vi_planner/core/mod.rs).
      Prefetch: vi_planner/core/prefetch.rs.
    - GlobalJob, LocalJob: the jobs of the two workers, the ownership of the window and
      the calls of a control tick (core/global.rs and core/global/{job,local,ownership}.rs,
      core/mod.rs).
    - Repair (the promise), RepairJob, RepairCommit, RepairPrepare: what a global job
      computes, publishes and is made from.  LocalRun: the passes of a local job.
    - RepairInv (the invariant), RepairLoop, RepairInputs, RepairOwner, RepairLocal:
      each call keeps the invariant, grouped by global worker, tick, window and local
      worker.  RepairSpec, RepairApart: the calls as a step relation, and the theorems
      about everything it reaches.

    ** Interfaces

    A machine of asynchronous rounds is the step of its worker, and a padded or fused
    layout meets it through the class [GsCells]; a repaint of the local window meets the class [Retouch]; a rollout
    reads a [PolicyView], whose laws are [PolicyLaws] and whose equivalence is
    [same_view]; the controllers read a view that meets [ViewLaws] and a cost map that
    meets [CostLaws]; the core calls a prefetcher through [Prefetching], whose laws
    [PrefetchLaws] the prefetcher of Prefetch and the absence of one satisfy.  The
    clients' theorems use the interface only, and the implementations discharge it.
    The repair rests on two relations: [sees], which
    carries a backup from a snapshot to the live field, and [touched], which bounds
    what a tick may do to it.

    ** Theorems

    - The update: cost as a rounded expectation, first strict minimum, monotonicity,
      preservation of [wf_vi], and the wrap-around at unreached successors.
    - Solvers: a solve returns for every observer, differs from its input in values and
      policies only, and, when it reports convergence, leaves every cell equal to its
      own backup wherever anything was reached.  For the parallel solvers this holds for
      every split over threads and every schedule; they return the same planner.
      The priority solvers terminate within their pop cap; label correcting reaches a
      fixed point except at states that some relaxation raised.  A solve stops or is
      cancelled only on the answer to its last boundary call, and after a stop it
      returns the field that call showed ([Answers]).
    - Bitboards: set and test, dilation as a box, enumeration of exactly the set cells.
    - Setup and exports: safety penalties, transition tables that sum to [PROB_BASE],
      goal cells, layers; the local window in the map, exact distances, scan updates,
      pooling.
    - Rollout: it returns a walk of the policy with the reason it ended; it reaches the
      goal when values fall along the policy; the compact sink gives the same rollouts
      as the dense planner.
    - Composition: the policy a converged parallel solve stores never leaves the free
      reached cells and has a chain to the goal from every reached cell; its field meets
      the conditions under which the compact sink is faithful.
    - Entry points: what a plan answers on every path and what core it leaves; the field
      of an early start leads the robot to the goal, and the repair completes it
      ([EntrySpec]); a field adopted from the prefetcher is the one asked for and solved
      to the end, in every interleaving ([Prefetch]).
    - Control: the decision of a tick on every branch, greedy or by the dynamic window
      ([Follow]); the sampling controller and the reflex of a lost robot ([CtrlSpec]).
    - Repair: every state that is not consistent lies near a queued cell, among the
      candidates, in the job that is out, in the window of an uncertified local
      worker, or in a cell that was left behind ([repair_inv]); each call of the workers
      and of the tick keeps this.  A cell is left behind when a commit publishes it
      beside a cell that the window has taken over since the job was made, with other
      costs than the job found for it: the published cell was computed from those.  It
      no longer is once a cell near it is queued.  So when the core takes the mark of an
      unfinished field off, the field is a fixed point of the solver except at the cells
      left behind, which a history beside the run names ([RepairSpec.watched_step]); and
      a run of the two workers shows that such a cell can remain
      ([RepairSpec.overtaking_script]).  The workers never write each other's cells
      ([RepairApart]), draining the queue of cost increases clears exactly the actions
      that rest on a raised cell ([Invalidate]), and the parallel local pass does not
      depend on its threads ([LocalRun]).

    ** Bounds, fuel and assumptions

    Rust loops over a range or a slice are structural.  The loops without a bound in
    the code (rounds until an empty frontier, pops of a heap, lazy enumerations) take
    fuel, and the theorems give an amount that is enough: [max_iter] rounds, the pop
    cap, the number of words and bits of a board.  [wf_vi] asks for fewer than 2^31
    states, as the [i32] indices of the code do.  The parallel results ask for
    penalties and transition weights within [Chaotic.dom], where no accumulator wraps.
    A relaxed load returns the value a cell had at the start of the round or the one it
    has now: one writer per cell and round, and a barrier between rounds.  That a round
    of asynchronous workers ends needs a fair schedule ([Schedule.fair_pass]).  The
    sparse solver keeps one bit per heading, so its guarantees ask for at most 64 of
    them; VI_SNAP_DROP_STATES is its argument [drop_states], false in the table.
    The calls of the core happen under its lock, so the repair is a sequence of them;
    jobs run outside it on their own snapshots.  The repair theorems ask that the
    64-bit counters of the manager do not wrap (the number of steps is below 2^64) and
    that transitions reach at least one and fewer than 64 cells, as the code asserts;
    the calls come in any order, and a job may be committed late, after the window has
    moved.  The callers and the worker of the prefetcher interleave by critical
    sections, and its condition variable is the freedom of that interleaving.

    ** Not modelled

    - solvers/original: the multithreaded sweep races on unsynchronised memory by
      design; it is an argument of [run_value_iteration].
    - The solver of frontier2d_sparse_compact.rs, which streams the field to a sink, and
      solvers/schur.rs, a precomputed graph of portals between tiles, are arguments of
      the dispatch in Solve and of Entry; MmapSink and the snapshots of frontier2d_sparse.rs
      (VI_SNAP_DIR) are file I/O, and its [prefetch] only warms the cache.
    - vi_planner/core: the out-of-core field of core/compact.rs with its patch, penalty
      table and repair tiles, which replace it on maps that do not fit in memory: the
      core, its entry points, the prefetcher and the control ticks are modelled on the
      dense path, where these are absent.  [refine_for], which runs until a clock ends
      it and which the local jobs have replaced.
    - solvers/ordered.rs is an experiment outside the table; belief.rs and localize/
      estimate the pose in floating point, and the core takes their pose as an argument.
    - frontier_gpu.rs and schur_gpu.rs call the CUDA driver; vi_planner's nodes, vi_bench
      and src/bin are glue and measurement; solvers/conformance.rs holds tests; vi_fpga,
      vi_matlab, vi_ml and vi_compare are in other languages. *)

From Stdlib Require Import ZArith Lia.
From stdpp Require Import base tactics list list_numbers numbers option.

#[global] Open Scope Z_scope.

(** ** Outcomes of a Rust computation

    [Ok] is a normal result, [Panic] a Rust panic (index out of bounds,
    division by zero, failed assertion), [OutOfFuel] the artificial outcome of
    a loop whose fuel ran out: the theorems exclude it. *)

Inductive res (A : Type) : Type :=
| Ok (a : A)
| Panic
| OutOfFuel.
Arguments Ok {A} a.
Arguments Panic {A}.
Arguments OutOfFuel {A}.

#[global] Instance res_ret : MRet res := fun _ a => Ok a.
#[global] Instance res_bind : MBind res := fun _ _ f m =>
  match m with Ok a => f a | Panic => Panic | OutOfFuel => OutOfFuel end.
#[global] Instance res_fmap : FMap res := fun _ _ f m =>
  match m with Ok a => Ok (f a) | Panic => Panic | OutOfFuel => OutOfFuel end.

Definition of_option {A} (o : option A) : res A :=
  match o with Some a => Ok a | None => Panic end.

(** [assert!(b)] *)
Definition rassert (b : bool) : res () := if b then Ok () else Panic.

Lemma bind_ok {A B} (m : res A) (f : A → res B) b :
  (m ≫= f) = Ok b ↔ ∃ a, m = Ok a ∧ f a = Ok b.
Proof.
  destruct m; cbn; split; try done; [eauto|by intros (? & [= ->] & ?)| |];
    by intros (? & ? & _).
Qed.

Lemma ok_bind {A B} (a : A) (f : A → res B) : (Ok a ≫= f) = f a.
Proof. reflexivity. Qed.

(** ** Machine integers *)

Definition wrap_u (w z : Z) : Z := z mod 2 ^ w.
Definition wrap_s (w z : Z) : Z := (z + 2 ^ (w - 1)) mod 2 ^ w - 2 ^ (w - 1).

Definition U64_MAX : Z := 2 ^ 64 - 1.
Definition U32_MAX : Z := 2 ^ 32 - 1.

(** [u64::wrapping_add] and friends; also plain [+] in a release build. *)
Definition u64_add (a b : Z) : Z := wrap_u 64 (a + b).
Definition u64_sub (a b : Z) : Z := wrap_u 64 (a - b).
Definition u64_mul (a b : Z) : Z := wrap_u 64 (a * b).
Definition u64_shl (a s : Z) : Z := wrap_u 64 (Z.shiftl a s).
Definition u64_sat_add (a b : Z) : Z := Z.min U64_MAX (a + b).
Definition u64_sat_mul (a b : Z) : Z := Z.min U64_MAX (a * b).
Definition u32_add (a b : Z) : Z := wrap_u 32 (a + b).
Definition u32_mul (a b : Z) : Z := wrap_u 32 (a * b).
Definition u32_sat_add (a b : Z) : Z := Z.min U32_MAX (a + b).
Definition u32_sat_sub (a b : Z) : Z := Z.max 0 (a - b).
Definition i32_add (a b : Z) : Z := wrap_s 32 (a + b).
Definition i32_sub (a b : Z) : Z := wrap_s 32 (a - b).
Definition i32_mul (a b : Z) : Z := wrap_s 32 (a * b).

(** [x as u64], [x as u32], [x as i32], [x as i64], [x as i8], [x as u8] *)
Definition as_u64 (z : Z) : Z := wrap_u 64 z.
Definition as_u32 (z : Z) : Z := wrap_u 32 z.
Definition as_u8 (z : Z) : Z := wrap_u 8 z.
Definition as_i32 (z : Z) : Z := wrap_s 32 z.
Definition as_i64 (z : Z) : Z := wrap_s 64 z.
Definition as_i8 (z : Z) : Z := wrap_s 8 z.

(** [a.div_ceil(b)] on unsigned integers *)
Definition div_ceil (a b : Z) : Z := (a + b - 1) / b.

Definition in_i32 (z : Z) : Prop := - 2 ^ 31 ≤ z < 2 ^ 31.
Definition in_u64 (z : Z) : Prop := 0 ≤ z < 2 ^ 64.
Definition in_u32 (z : Z) : Prop := 0 ≤ z < 2 ^ 32.

Lemma wrap_u_small w z : 0 ≤ z < 2 ^ w → wrap_u w z = z.
Proof. intros. by apply Z.mod_small. Qed.

Lemma wrap_u_range w z : 0 ≤ w → 0 ≤ wrap_u w z < 2 ^ w.
Proof. intros. apply Z.mod_pos_bound. lia. Qed.

Lemma wrap_s32_small z : in_i32 z → wrap_s 32 z = z.
Proof.
  unfold in_i32, wrap_s. intros. rewrite Z.mod_small; lia.
Qed.

Lemma wrap_s32_range z : in_i32 (wrap_s 32 z).
Proof.
  unfold in_i32, wrap_s.
  pose proof (Z.mod_pos_bound (z + 2 ^ (32 - 1)) (2 ^ 32) ltac:(lia)). lia.
Qed.

Lemma wrap_s64_small z : - 2 ^ 63 ≤ z < 2 ^ 63 → wrap_s 64 z = z.
Proof. unfold wrap_s. intros. rewrite Z.mod_small; lia. Qed.

Lemma i32_add_small a b : in_i32 (a + b) → i32_add a b = a + b.
Proof. apply wrap_s32_small. Qed.
Lemma i32_sub_small a b : in_i32 (a - b) → i32_sub a b = a - b.
Proof. apply wrap_s32_small. Qed.
Lemma i32_mul_small a b : in_i32 (a * b) → i32_mul a b = a * b.
Proof. apply wrap_s32_small. Qed.
Lemma u64_add_small a b : in_u64 (a + b) → u64_add a b = a + b.
Proof. apply wrap_u_small. Qed.
Lemma u64_mul_small a b : in_u64 (a * b) → u64_mul a b = a * b.
Proof. apply wrap_u_small. Qed.
Lemma u32_add_small a b : in_u32 (a + b) → u32_add a b = a + b.
Proof. apply wrap_u_small. Qed.
Lemma u32_mul_small a b : in_u32 (a * b) → u32_mul a b = a * b.
Proof. apply wrap_u_small. Qed.
Lemma as_u64_small a : in_u64 a → as_u64 a = a.
Proof. apply wrap_u_small. Qed.

Lemma as_u32_small z : 0 ≤ z < 2 ^ 31 → as_u32 z = z.
Proof. intros. apply wrap_u_small. lia. Qed.

Lemma as_i32_small z : 0 ≤ z < 2 ^ 31 → as_i32 z = z.
Proof. intros. apply wrap_s32_small. unfold in_i32. lia. Qed.

Lemma div_ceil_bounds a b : 0 < b → b * (div_ceil a b - 1) < a ≤ b * div_ceil a b.
Proof.
  intros. unfold div_ceil.
  pose proof (Z.div_mod (a + b - 1) b ltac:(lia)).
  pose proof (Z.mod_pos_bound (a + b - 1) b ltac:(lia)). lia.
Qed.

(** Mixed-radix digits are unique. *)
Lemma digit_eq m q q' r r' :
  0 ≤ r < m → 0 ≤ r' < m → q * m + r = q' * m + r' → q = q' ∧ r = r'.
Proof.
  intros ?? E. assert (q = q') as ->; [|lia].
  destruct (Z.lt_trichotomy q q') as [?|[?|?]]; [nia|done|nia].
Qed.

(** ** Vectors indexed by machine integers

    A [Vec<T>] is a list.  Indexing takes a [Z]: a negative [i32] cast to
    [usize] is larger than any length, so it panics like any index out of
    range. *)

Definition zlen {A} (l : list A) : Z := Z.of_nat (length l).

Definition zget {A} (l : list A) (i : Z) : option A :=
  if decide (0 ≤ i) then l !! Z.to_nat i else None.

Definition vget {A} (l : list A) (i : Z) : res A := of_option (zget l i).

Definition zset {A} (l : list A) (i : Z) (x : A) : list A :=
  if decide (0 ≤ i) then <[Z.to_nat i := x]> l else l.

Definition vset {A} (l : list A) (i : Z) (x : A) : res (list A) :=
  if decide (0 ≤ i < zlen l) then Ok (zset l i x) else Panic.

(** [vec![x; n]] *)
Definition vec_repeat {A} (x : A) (n : Z) : list A := replicate (Z.to_nat n) x.

Section zget.
Context {A : Type}.
Implicit Types (l : list A) (x : A) (i j : Z).

Lemma zget_Some_lt l i x : zget l i = Some x → 0 ≤ i < zlen l.
Proof.
  unfold zget, zlen. case_decide; [|done].
  intros ?%lookup_lt_Some. lia.
Qed.

Lemma zget_lt l i : 0 ≤ i < zlen l → ∃ x, zget l i = Some x.
Proof.
  unfold zget, zlen. intros. rewrite decide_True by lia.
  apply lookup_lt_is_Some_2. lia.
Qed.

Lemma zget_ge l i : zlen l ≤ i → zget l i = None.
Proof.
  unfold zget, zlen. intros. case_decide; [|done].
  apply lookup_ge_None_2. lia.
Qed.

Lemma zget_zset_eq l i x : 0 ≤ i < zlen l → zget (zset l i x) i = Some x.
Proof.
  unfold zget, zset, zlen. intros. rewrite !decide_True by lia.
  apply list_lookup_insert_eq. lia.
Qed.

Lemma zget_zset_ne l i j x : i ≠ j → zget (zset l i x) j = zget l j.
Proof.
  unfold zget, zset. intros. repeat case_decide; try done.
  apply list_lookup_insert_ne. lia.
Qed.

Lemma zget_zset l i j x :
  0 ≤ i < zlen l →
  zget (zset l i x) j = if decide (i = j) then Some x else zget l j.
Proof.
  intros. case_decide; subst; [by apply zget_zset_eq|by apply zget_zset_ne].
Qed.

Lemma zlen_zset l i x : zlen (zset l i x) = zlen l.
Proof. unfold zlen, zset. case_decide; [|done]. by rewrite length_insert. Qed.

Lemma zlen_nonneg l : 0 ≤ zlen l.
Proof. unfold zlen. lia. Qed.

Lemma vget_ok l i x : vget l i = Ok x ↔ zget l i = Some x.
Proof. unfold vget. destruct (zget l i); cbn; split; congruence. Qed.

Lemma vset_ok l i x : 0 ≤ i < zlen l → vset l i x = Ok (zset l i x).
Proof. intros. unfold vset. by rewrite decide_True. Qed.

Lemma vset_ok_inv l i x l' : vset l i x = Ok l' → 0 ≤ i < zlen l ∧ l' = zset l i x.
Proof. unfold vset. case_decide; [intros [= <-]; auto|done]. Qed.

Lemma zlen_repeat x n : 0 ≤ n → zlen (vec_repeat x n) = n.
Proof. intros. unfold zlen, vec_repeat. rewrite length_replicate. lia. Qed.

Lemma zget_repeat x n i : 0 ≤ i < n → zget (vec_repeat x n) i = Some x.
Proof.
  intros. unfold zget, vec_repeat. rewrite decide_True by lia.
  apply lookup_replicate_2. lia.
Qed.

Lemma zget_ext l k :
  zlen l = zlen k → (∀ i, 0 ≤ i < zlen l → zget l i = zget k i) → l = k.
Proof.
  intros Hl H. apply list_eq. intros i.
  destruct (decide (i < length l)%nat) as [Hi|Hi].
  - specialize (H (Z.of_nat i)). unfold zget, zlen in H.
    rewrite !decide_True, Nat2Z.id in H by lia. apply H. lia.
  - unfold zlen in Hl. rewrite !lookup_ge_None_2 by lia. done.
Qed.

Lemma elem_of_zget_1 l i x : zget l i = Some x → x ∈ l.
Proof. unfold zget. case_decide; [|done]. apply list_elem_of_lookup_2. Qed.

Lemma zget_cons x l i : 0 < i → zget (x :: l) i = zget l (i - 1).
Proof.
  intros. unfold zget. rewrite !decide_True by lia.
  replace (Z.to_nat i) with (S (Z.to_nat (i - 1))) by lia. done.
Qed.

Lemma zlen_app l k : zlen (l ++ k) = zlen l + zlen k.
Proof. unfold zlen. rewrite length_app. lia. Qed.

Lemma zget_app_l l k i : i < zlen l → zget (l ++ k) i = zget l i.
Proof.
  unfold zget, zlen. intros. case_decide; [|done]. apply lookup_app_l. lia.
Qed.

Lemma zget_app_r l k i : zlen l ≤ i → zget (l ++ k) i = zget k (i - zlen l).
Proof.
  unfold zget, zlen. intros. rewrite !decide_True by lia.
  rewrite lookup_app_r by lia. f_equal. lia.
Qed.
End zget.

Lemma zget_fmap {A B} (f : A → B) (l : list A) i : zget (f <$> l) i = f <$> zget l i.
Proof. unfold zget. case_decide; [apply list_lookup_fmap|done]. Qed.

Lemma zlen_fmap {A B} (f : A → B) (l : list A) : zlen (f <$> l) = zlen l.
Proof. unfold zlen. by rewrite length_fmap. Qed.

Lemma elem_of_zget {A} (l : list A) x : x ∈ l ↔ ∃ i, zget l i = Some x.
Proof.
  unfold zget. split.
  - intros [i Hi]%list_elem_of_lookup_1. exists (Z.of_nat i).
    rewrite decide_True by lia. by rewrite Nat2Z.id.
  - intros [i Hi]. case_decide; [|done]. by eapply list_elem_of_lookup_2.
Qed.

Lemma list_bind_ext_mem {A B} (f g : A → list B) (l : list A) :
  (∀ x, x ∈ l → f x = g x) → (l ≫= f) = (l ≫= g).
Proof.
  induction l as [|x l IH]; intros H; [done|]. rewrite !bind_cons.
  rewrite (H x) by left. rewrite IH; [done|]. intros y Hy. apply H. by right.
Qed.

Lemma list_fmap_bind_r {A B C} (f : A → list B) (g : B → C) (l : list A) :
  g <$> (l ≫= f) = (l ≫= fun x => g <$> f x).
Proof.
  induction l as [|x l IH]; [done|]. by rewrite !bind_cons, fmap_app, IH.
Qed.

Lemma list_filter_ext_mem {A} (P Q : A → Prop) `{∀ x, Decision (P x), ∀ x, Decision (Q x)}
    (l : list A) :
  (∀ x, x ∈ l → P x ↔ Q x) → filter P l = filter Q l.
Proof.
  induction l as [|x l IH]; intros HPQ; [done|]. rewrite !filter_cons.
  rewrite IH by (intros y Hy; apply HPQ; by right).
  destruct (HPQ x ltac:(left)) as [H1 H2]. repeat case_decide; tauto || done.
Qed.

(** Numbers in mixed radix, most significant digit first. *)
Lemma seqZ_mul a b :
  0 ≤ a → 0 ≤ b → (y ← seqZ 0 a; Z.add (y * b) <$> seqZ 0 b) = seqZ 0 (a * b).
Proof.
  intros Ha Hb. revert a Ha. apply natlike_ind; [done|].
  intros a Ha IH. replace (Z.succ a) with (a + 1) by lia.
  rewrite seqZ_app, bind_app by lia. rewrite IH. rewrite Z.mul_add_distr_r.
  rewrite seqZ_app by lia. f_equal. rewrite Z.add_0_l, Z.mul_1_l.
  rewrite (seqZ_cons a 1) by lia. cbn. rewrite app_nil_r, fmap_add_seqZ. f_equal. lia.
Qed.

Lemma list_bind_assoc {A B C} (f : A → list B) (g : B → list C) (l : list A) :
  ((l ≫= f) ≫= g) = (l ≫= fun x => f x ≫= g).
Proof. induction l as [|x l IH]; [done|]. by rewrite !bind_cons, bind_app, IH. Qed.

Lemma list_filter_bind {A B} (P : B → Prop) `{∀ x, Decision (P x)} (f : A → list B) (l : list A) :
  filter P (l ≫= f) = (l ≫= fun x => filter P (f x)).
Proof. induction l as [|x l IH]; [done|]. by rewrite !bind_cons, list.filter_app, IH. Qed.

Lemma list_filter_fmap' {A B} (P : B → Prop) `{∀ x, Decision (P x)} (f : A → B) (l : list A) :
  filter P (f <$> l) = f <$> filter (fun x => P (f x)) l.
Proof.
  induction l as [|x l IH]; [done|]. rewrite fmap_cons, !list.filter_cons, IH.
  by case_decide.
Qed.

(** ** Loops *)

(** [for x in l { body }] *)
Fixpoint for_each {A B} (l : list B) (body : B → A → res A) (a : A) : res A :=
  match l with
  | [] => Ok a
  | x :: l' => a' ← body x a; for_each l' body a'
  end.

(** [for i in lo..hi { body }] *)
Definition for_range {A} (lo hi : Z) (body : Z → A → res A) (a : A) : res A :=
  for_each (seqZ lo (hi - lo)) body a.

(** [for i in lo..=hi { body }] *)
Definition for_incl {A} (lo hi : Z) (body : Z → A → res A) (a : A) : res A :=
  for_range lo (hi + 1) body a.

(** [iter.map(f).collect()] for an [f] that may panic *)
Fixpoint map_res {A B} (f : A → res B) (l : list A) : res (list B) :=
  match l with
  | [] => Ok []
  | x :: l' => y ← f x; ys ← map_res f l'; Ok (y :: ys)
  end.

Section loops.
Context {A B : Type}.

Lemma for_each_app (l k : list B) (body : B → A → res A) a :
  for_each (l ++ k) body a = (a' ← for_each l body a; for_each k body a').
Proof.
  revert a. induction l as [|x l IH]; intros a; [done|].
  cbn. destruct (body x a); cbn; auto.
Qed.

(** The invariant rule: [P k] holds after [k] iterations. *)
Lemma for_each_inv (P : nat → A → Prop) (l : list B) body a :
  P 0%nat a →
  (∀ k x a, l !! k = Some x → P k a → ∃ a', body x a = Ok a' ∧ P (S k) a') →
  ∃ a', for_each l body a = Ok a' ∧ P (length l) a'.
Proof.
  revert P a. induction l as [|x l IH]; intros P a H0 HS; cbn; [eauto|].
  destruct (HS 0%nat x a eq_refl H0) as (a1 & -> & H1). cbn.
  apply (IH (fun k => P (S k))); [done|].
  intros k y b Hk. apply (HS (S k)). done.
Qed.

(** Partial-correctness version. *)
Lemma for_each_ok_inv (P : nat → A → Prop) (l : list B) body a a' :
  for_each l body a = Ok a' →
  P 0%nat a →
  (∀ k x a a', l !! k = Some x → P k a → body x a = Ok a' → P (S k) a') →
  P (length l) a'.
Proof.
  revert P a. induction l as [|x l IH]; intros P a; cbn; [naive_solver|].
  intros (a1 & Hb & Hl)%bind_ok H0 HS.
  apply (IH (fun k => P (S k)) a1); [done|by eapply (HS 0%nat)|].
  intros k y b b' Hk. by apply (HS (S k)).
Qed.
(** Accumulating loops: what an iteration establishes survives the later ones. *)
Lemma for_each_mono (I : A → Prop) (le : A → A → Prop) (P : B → A → Prop) (l : list B) body a :
  PreOrder le → (∀ x a a', P x a → le a a' → P x a') → I a →
  (∀ x a, x ∈ l → I a → ∃ a', body x a = Ok a' ∧ I a' ∧ le a a' ∧ P x a') →
  ∃ a', for_each l body a = Ok a' ∧ I a' ∧ le a a' ∧ ∀ x, x ∈ l → P x a'.
Proof.
  intros Hpre HP. revert a. induction l as [|x l IH]; intros a Ha HS.
  { exists a. split; [done|]. split; [done|]. split; [reflexivity|]. by intros x ?%elem_of_nil. }
  destruct (HS x a ltac:(left) Ha) as (a1 & E & Ha1 & Hle & HPx). cbn. rewrite E, ok_bind.
  destruct (IH a1 Ha1) as (a2 & E2 & Ha2 & Hle2 & HPl).
  { intros y b Hy. apply HS. by right. }
  exists a2. split; [done|]. split; [done|]. split; [by etransitivity|].
  intros y [->|Hy]%elem_of_cons; [by eapply HP|by apply HPl].
Qed.

(** Nested loops are one loop over the flattened list. *)
Lemma for_each_bind {C} (f : C → list B) (l : list C) (body : B → A → res A) a :
  for_each l (fun x => for_each (f x) body) a = for_each (l ≫= f) body a.
Proof.
  revert a. induction l as [|x l IH]; intros a; [done|].
  rewrite bind_cons, for_each_app. cbn. destruct (for_each (f x) body a); cbn; auto.
Qed.

Lemma for_each_fmap {C} (f : C → B) (l : list C) (body : B → A → res A) a :
  for_each (f <$> l) body a = for_each l (fun x => body (f x)) a.
Proof.
  revert a. induction l as [|x l IH]; intros a; [done|].
  cbn. destruct (body (f x) a); cbn; auto.
Qed.

Lemma for_each_ext (l : list B) (body body' : B → A → res A) a :
  (∀ x a, x ∈ l → body x a = body' x a) → for_each l body a = for_each l body' a.
Proof.
  revert a. induction l as [|x l IH]; intros a H; [done|]. cbn. rewrite H by left.
  destruct (body' x a); cbn; [|done..]. apply IH. intros. apply H. by right.
Qed.
End loops.

Lemma for_range_inv {A} (P : Z → A → Prop) lo hi body a :
  lo ≤ hi →
  P lo a →
  (∀ i a, lo ≤ i < hi → P i a → ∃ a', body i a = Ok a' ∧ P (i + 1) a') →
  ∃ a', for_range lo hi body a = Ok a' ∧ P hi a'.
Proof.
  intros Hle H0 HS. unfold for_range.
  destruct (for_each_inv (fun k => P (lo + Z.of_nat k)) (seqZ lo (hi - lo)) body a)
    as (a' & Ha & HP).
  - by rewrite Z.add_0_r.
  - intros k x b [-> Hk]%lookup_seqZ HPk.
    destruct (HS (lo + Z.of_nat k) b ltac:(lia) HPk) as (b' & -> & Hb).
    exists b'. split; [done|].
    replace (lo + Z.of_nat (S k)) with (lo + Z.of_nat k + 1) by lia. done.
  - exists a'. split; [done|]. rewrite length_seqZ in HP.
    by replace (lo + Z.of_nat (Z.to_nat (hi - lo))) with hi in HP by lia.
Qed.

Lemma for_range_empty {A} lo hi (body : Z → A → res A) a :
  hi ≤ lo → for_range lo hi body a = Ok a.
Proof.
  intros. unfold for_range. destruct (seqZ lo (hi - lo)) as [|x l] eqn:E; [done|].
  apply (f_equal length) in E. rewrite length_seqZ in E. cbn in E. lia.
Qed.

Lemma for_range_ok_inv {A} (P : Z → A → Prop) lo hi body a a' :
  lo ≤ hi →
  for_range lo hi body a = Ok a' →
  P lo a →
  (∀ i a a', lo ≤ i < hi → P i a → body i a = Ok a' → P (i + 1) a') →
  P hi a'.
Proof.
  intros Hle Hr H0 HS. unfold for_range in Hr.
  apply (for_each_ok_inv (fun k => P (lo + Z.of_nat k))) in Hr.
  - rewrite length_seqZ in Hr.
    by replace (lo + Z.of_nat (Z.to_nat (hi - lo))) with hi in Hr by lia.
  - by rewrite Z.add_0_r.
  - intros k x b b' [-> Hk]%lookup_seqZ HPk Hb.
    replace (lo + Z.of_nat (S k)) with (lo + Z.of_nat k + 1) by lia.
    eapply HS; eauto. lia.
Qed.

Lemma map_res_ok {A B} (f : A → res B) l ys :
  map_res f l = Ok ys ↔ Forall2 (fun x y => f x = Ok y) l ys.
Proof.
  revert ys. induction l as [|x l IH]; intros ys; cbn.
  - split; [intros [= <-]; constructor|by inversion 1].
  - rewrite bind_ok. split.
    + intros (y & Hy & (ys' & Hys & [= <-])%bind_ok). constructor; [done|by apply IH].
    + inversion_clear 1. eexists. split; [done|]. apply bind_ok.
      eexists. split; [by apply IH|done].
Qed.

Lemma map_res_pure {A B} (f : A → res B) (g : A → B) l :
  (∀ x, x ∈ l → f x = Ok (g x)) → map_res f l = Ok (g <$> l).
Proof.
  induction l as [|x l IH]; intros H; [done|]. cbn.
  rewrite (H x) by left. rewrite ok_bind, IH by (intros; apply H; by right). done.
Qed.

(** Mapping a total [f]: the results satisfy [Q] position by position. *)
Lemma map_res_spec {A B} (f : A → res B) (Q : A → B → Prop) l :
  (∀ x, x ∈ l → ∃ y, f x = Ok y ∧ Q x y) →
  ∃ ys, map_res f l = Ok ys ∧ zlen ys = zlen l ∧
    ∀ i x, zget l i = Some x → ∃ y, zget ys i = Some y ∧ Q x y.
Proof.
  induction l as [|x l IH]; intros H.
  { exists []. split; [done|]. split; [done|]. intros i x Hi.
    apply zget_Some_lt in Hi. unfold zlen in Hi. cbn in Hi. lia. }
  destruct (H x ltac:(left)) as (y & Hy & HQ).
  destruct IH as (ys & E & Hl & Hys); [intros; apply H; by right|].
  exists (y :: ys). cbn. rewrite Hy, ok_bind, E, ok_bind. split; [done|]. split.
  - unfold zlen in *. cbn [length]. lia.
  - intros i z Hz. pose proof (zget_Some_lt _ _ _ Hz).
    destruct (decide (i = 0)) as [->|].
    + injection Hz as <-. by exists y.
    + rewrite zget_cons in Hz by lia. rewrite (zget_cons y) by lia. by apply Hys.
Qed.

(** A loop that pushes onto a vector. *)
Lemma for_each_append {A B} (f : B → list A) (l : list B) body out :
  (∀ x out, x ∈ l → body x out = Ok (out ++ f x)) →
  for_each l body out = Ok (out ++ (l ≫= f)).
Proof.
  revert out. induction l as [|x l IH]; intros out H; [by rewrite app_nil_r|].
  cbn [for_each]. rewrite H, ok_bind by left. rewrite IH by (intros; apply H; by right).
  by rewrite bind_cons, app_assoc.
Qed.

(** ** Chunks

    [slice.chunks(k)]: consecutive pieces of [k] elements, the last one shorter. *)

Fixpoint chunks_from {A} (fuel : nat) (k : nat) (l : list A) : list (list A) :=
  match fuel, l with
  | S fuel, _ :: _ => take k l :: chunks_from fuel k (drop k l)
  | _, _ => []
  end.

Definition chunks {A} (k : Z) (l : list A) : list (list A) :=
  chunks_from (length l) (Z.to_nat k) l.

Lemma mjoin_chunks {A} k (l : list A) : 0 < k → mjoin (chunks k l) = l.
Proof.
  intros Hk. unfold chunks.
  assert (∀ fuel (l : list A), (length l ≤ fuel)%nat → mjoin (chunks_from fuel (Z.to_nat k) l) = l) as H.
  { clear l. induction fuel as [|fuel IH]; intros [|x l] Hl; cbn in Hl; try done; [lia|].
    cbn [chunks_from mjoin list_join]. rewrite IH; [by rewrite take_drop|].
    rewrite length_drop. cbn. lia. }
  by apply H.
Qed.

(** Work split over chunks and joined in order is the work on the whole. *)
Lemma chunks_bind {A B} k (f : A → list B) (l : list A) :
  0 < k → (chunks k l ≫= fun part => part ≫= f) = l ≫= f.
Proof.
  intros Hk. rewrite <- (mjoin_chunks k l Hk) at 2. generalize (chunks k l) as c.
  induction c as [|p c IH]; [done|]. rewrite bind_cons.
  change (mjoin (p :: c)) with (p ++ mjoin c). rewrite bind_app, <- IH. done.
Qed.

Lemma elem_of_chunks {A} k (l part : list A) x : 0 < k → part ∈ chunks k l → x ∈ part → x ∈ l.
Proof.
  intros Hk Hp Hx. rewrite <- (mjoin_chunks k l Hk). apply list_elem_of_join. by exists part.
Qed.

(** ** Tactics *)

(** Decide the first [if] or [match] of the goal, or of a hypothesis. *)
Ltac split_ifs :=
  repeat match goal with
  | |- context [if decide ?P then _ else _] => destruct (decide P)
  | |- context [if ?b then _ else _] => destruct b eqn:?
  end.

(** Turn boolean comparisons in the context into propositions. *)
Ltac bool_to_prop :=
  repeat match goal with
  | H : (_ && _)%bool = true |- _ => apply andb_prop in H; destruct H
  | H : (_ && _)%bool = false |- _ => apply andb_false_iff in H
  | H : (_ || _)%bool = true |- _ => apply orb_prop in H
  | H : (_ || _)%bool = false |- _ => apply orb_false_elim in H; destruct H
  | H : negb _ = true |- _ => apply negb_true_iff in H
  | H : negb _ = false |- _ => apply negb_false_iff in H
  | H : (_ <? _) = true |- _ => apply Z.ltb_lt in H
  | H : (_ <? _) = false |- _ => apply Z.ltb_ge in H
  | H : (_ <=? _) = true |- _ => apply Z.leb_le in H
  | H : (_ <=? _) = false |- _ => apply Z.leb_gt in H
  | H : (_ >=? _) = true |- _ => rewrite Z.geb_leb in H; apply Z.leb_le in H
  | H : (_ >=? _) = false |- _ => rewrite Z.geb_leb in H; apply Z.leb_gt in H
  | H : (_ >? _) = true |- _ => rewrite Z.gtb_ltb in H; apply Z.ltb_lt in H
  | H : (_ >? _) = false |- _ => rewrite Z.gtb_ltb in H; apply Z.ltb_ge in H
  | H : (_ =? _) = true |- _ => apply Z.eqb_eq in H
  | H : (_ =? _) = false |- _ => apply Z.eqb_neq in H
  end.

(** Invert a successful monadic computation in a hypothesis. *)
Ltac inv_ok :=
  repeat match goal with
  | H : (_ ≫= _) = Ok _ |- _ => apply bind_ok in H; destruct H as (? & ? & ?)
  | H : vget _ _ = Ok _ |- _ => apply vget_ok in H
  | H : vset _ _ _ = Ok _ |- _ => apply vset_ok_inv in H; destruct H as [? ->]
  | H : Ok _ = Ok _ |- _ => injection H as H; subst
  | H : Panic = Ok _ |- _ => discriminate H
  | H : OutOfFuel = Ok _ |- _ => discriminate H
  end.

Create HintDb vi.
Create Rewrite HintDb vi.
#[export] Hint Resolve zlen_nonneg : vi.
#[export] Hint Rewrite @zlen_zset @zlen_app @zlen_fmap : vi.
