(* ===== verification/Floats.v ===== *)
(** * IEEE-754 binary64

    The [f64] of the sources: the executable specification of binary64 from
    the Standard Library ([SpecFloat], precision 53, maximal exponent 1024,
    round to nearest even), with Rust's conversions and comparisons.  [cos],
    [sin] and the other libm functions have no specified result in Rust; the
    definitions that call them take them as arguments. *)

From Stdlib Require Import ZArith Lia SpecFloat.
From stdpp Require Import base numbers.
From S2P Require Import Prelude.

Definition f64 : Type := spec_float.

Definition fadd (a b : f64) : f64 := SFadd 53 1024 a b.
Definition fsub (a b : f64) : f64 := SFsub 53 1024 a b.
Definition fmul (a b : f64) : f64 := SFmul 53 1024 a b.
Definition fdiv (a b : f64) : f64 := SFdiv 53 1024 a b.
Definition fabs (a : f64) : f64 := SFabs a.
Definition fneg (a : f64) : f64 := SFopp a.

(** [a < b], [a <= b], [a >= b], [a == b] on [f64]: false on NaN *)
Definition flt (a b : f64) : bool := SFltb a b.
Definition fle (a b : f64) : bool := SFleb a b.
Definition fge (a b : f64) : bool := SFleb b a.
Definition feq (a b : f64) : bool := SFeqb a b.

Definition is_nan (a : f64) : bool :=
  match a with S754_nan => true | _ => false end.

(** [f64::max], [f64::min]: a NaN operand is ignored *)
Definition fmax (a b : f64) : f64 :=
  if is_nan a then b else if is_nan b then a else if flt a b then b else a.
Definition fmin (a b : f64) : f64 :=
  if is_nan a then b else if is_nan b then a else if flt b a then b else a.

(** [z as f64] for an integer [z] *)
Definition f64_of_Z (z : Z) : f64 := binary_normalize 53 1024 z 0 false.

(** A literal, as mantissa and binary exponent. *)
Definition lit (m : positive) (e : Z) : f64 := S754_finite false m e.

Definition f0 : f64 := S754_zero false.
Definition f0_5 : f64 := lit 4503599627370496 (-53).
Definition f1 : f64 := lit 4503599627370496 (-52).
Definition f0_1 : f64 := lit 7205759403792794 (-56).
Definition f0_3 : f64 := lit 5404319552844595 (-54).
Definition f0_9 : f64 := lit 8106479329266893 (-53).
Definition f180 : f64 := lit 6333186975989760 (-45).
Definition f360 : f64 := lit 6333186975989760 (-44).
Definition PI : f64 := lit 7074237752028440 (-51).
Definition INFINITY : f64 := S754_infinity false.

(** Magnitude rounded toward zero. *)
Definition mag_trunc (m : positive) (e : Z) : Z :=
  if 0 <=? e then Zpos m * 2 ^ e else Zpos m / 2 ^ (- e).

(** [x as iN] / [x as uN]: truncation, saturating at the bounds, NaN to 0 *)
Definition f64_as_int (lo hi : Z) (x : f64) : Z :=
  match x with
  | S754_nan | S754_zero _ => 0
  | S754_infinity s => if s then lo else hi
  | S754_finite s m e =>
      let t := if s then - mag_trunc m e else mag_trunc m e in
      Z.max lo (Z.min hi t)
  end.

Definition f64_as_i32 (x : f64) : Z := f64_as_int (- 2 ^ 31) (2 ^ 31 - 1) x.
Definition f64_as_u16 (x : f64) : Z := f64_as_int 0 (2 ^ 16 - 1) x.
Definition f64_as_u32 (x : f64) : Z := f64_as_int 0 U32_MAX x.
Definition f64_as_u64 (x : f64) : Z := f64_as_int 0 U64_MAX x.

(** Largest integer below / smallest integer above a finite value. *)
Definition floor_Z (s : bool) (m : positive) (e : Z) : Z :=
  if 0 <=? e then (if s then - (Zpos m * 2 ^ e) else Zpos m * 2 ^ e)
  else if s then - div_ceil (Zpos m) (2 ^ (- e)) else Zpos m / 2 ^ (- e).

Definition ceil_Z (s : bool) (m : positive) (e : Z) : Z :=
  - floor_Z (negb s) m e.

(** [x.floor()], [x.ceil()] *)
Definition ffloor (x : f64) : f64 :=
  match x with
  | S754_finite s m e => binary_normalize 53 1024 (floor_Z s m e) 0 s
  | _ => x
  end.

Definition fceil (x : f64) : f64 :=
  match x with
  | S754_finite s m e => binary_normalize 53 1024 (ceil_Z s m e) 0 s
  | _ => x
  end.

(** ** Facts *)

Lemma f64_as_int_range lo hi x :
  lo ≤ 0 ≤ hi → lo ≤ f64_as_int lo hi x ≤ hi.
Proof. intros. unfold f64_as_int. destruct x as [| [] | |]; lia. Qed.

Lemma f64_as_i32_range x : in_i32 (f64_as_i32 x).
Proof.
  unfold in_i32, f64_as_i32.
  pose proof (f64_as_int_range (- 2 ^ 31) (2 ^ 31 - 1) x ltac:(lia)). lia.
Qed.

Lemma f64_as_u64_range x : in_u64 (f64_as_u64 x).
Proof.
  unfold in_u64, f64_as_u64.
  pose proof (f64_as_int_range 0 U64_MAX x ltac:(unfold U64_MAX; lia)).
  unfold U64_MAX in *. lia.
Qed.

(** ** The order *)

(** The position of a number in the order of the floats. *)
Definition fkey (x : f64) : option (Z * Z * Z) :=
  match x with
  | S754_nan => None
  | S754_zero _ => Some (0, 0, 0)
  | S754_infinity s => Some (if s then -2 else 2, 0, 0)
  | S754_finite s m e => Some (if s then (-1, - e, Zneg m) else (1, e, Zpos m))
  end.

Definition key_lt (a b : Z * Z * Z) : Prop :=
  a.1.1 < b.1.1 ∨ a.1.1 = b.1.1 ∧ (a.1.2 < b.1.2 ∨ a.1.2 = b.1.2 ∧ a.2 < b.2).

Lemma flt_key a b :
  flt a b = true ↔ match fkey a, fkey b with Some x, Some y => key_lt x y | _, _ => False end.
Proof.
  unfold flt, SFltb, SFcompare, key_lt. destruct a as [|[]| |[] m e], b as [|[]| |[] m' e']; cbn; try lia.
  all: try (split; [done|lia]).
  all: change (PosDef.Pos.compare_cont Eq m m') with (m ?= m')%positive.
  all: destruct (Z.compare_spec e e'); destruct (Pos.compare_spec m m'); cbn; (split; [intros|done || intros ?; exfalso]); first [done|lia].
Qed.

Lemma fle_key a b :
  fle a b = true ↔ match fkey a, fkey b with Some x, Some y => ¬ key_lt y x | _, _ => False end.
Proof.
  unfold fle, SFleb, SFcompare, key_lt. destruct a as [|[]| |[] m e], b as [|[]| |[] m' e']; cbn; try lia.
  all: try (split; [done|lia]).
  all: change (PosDef.Pos.compare_cont Eq m m') with (m ?= m')%positive.
  all: destruct (Z.compare_spec e e'); destruct (Pos.compare_spec m m'); cbn; (split; [intros|done || intros ?; exfalso]); first [done|lia].
Qed.

Lemma flt_irrefl a : flt a a = false.
Proof. apply not_true_iff_false. rewrite flt_key. unfold key_lt. destruct (fkey a); lia. Qed.

Lemma flt_trans a b c : flt a b = true → flt b c = true → flt a c = true.
Proof. rewrite !flt_key. unfold key_lt. destruct (fkey a), (fkey b), (fkey c); try done; lia. Qed.

Lemma flt_le_trans a b c : flt a b = true → flt c b = false → is_nan c = false → flt a c = true.
Proof.
  intros H1 H2 Hn. assert (¬ (flt c b = true)) as H3 by congruence. clear H2. rewrite flt_key in *. unfold key_lt in *.
  destruct (fkey a), (fkey b), (fkey c) eqn:E; try done; [lia|]. by destruct c.
Qed.

Lemma fle_flt a b : fle a b = true → flt b a = false.
Proof. intros H%fle_key. apply not_true_iff_false. rewrite flt_key. destruct (fkey a), (fkey b); tauto. Qed.

Example f0_1_is_tenth : fdiv f1 (f64_of_Z 10) = f0_1.
Proof. reflexivity. Qed.
Example f0_3_value : fdiv (f64_of_Z 3) (f64_of_Z 10) = f0_3.
Proof. reflexivity. Qed.
Example f0_9_value : fdiv (f64_of_Z 9) (f64_of_Z 10) = f0_9.
Proof. reflexivity. Qed.
Example f180_value : f64_of_Z 180 = f180 ∧ f64_of_Z 360 = f360.
Proof. split; reflexivity. Qed.
Example floor_neg : ffloor (fneg f0_5) = f64_of_Z (-1).
Proof. reflexivity. Qed.
Example trunc_neg : f64_as_i32 (fneg (fdiv (f64_of_Z 7) (f64_of_Z 2))) = -3.
Proof. reflexivity. Qed.
