(* ===== verification/Model.v ===== *)
(** * Data of the planner (vi_lib: params, msg, state, action, state_transition,
    value_iterator, solvers/original/sweep_status)

    The records and constants shared by every component, with the field
    updates the code performs. *)

From Stdlib Require Import ZArith Lia.
From stdpp Require Import base gmap strings list numbers.
From S2P Require Import Prelude Floats.

(** ** params.rs *)

Definition RESOLUTION_XY_BIT : Z := 6.
Definition RESOLUTION_T_BIT : Z := 6.
Definition PROB_BASE_BIT : Z := RESOLUTION_XY_BIT * 2 + RESOLUTION_T_BIT.
Definition PROB_BASE : Z := Z.shiftl 1 PROB_BASE_BIT.
Definition MAX_COST : Z := 1000000000 * PROB_BASE.

Lemma PROB_BASE_eq : PROB_BASE = 262144.
Proof. reflexivity. Qed.
Lemma MAX_COST_eq : MAX_COST = 262144000000000.
Proof. reflexivity. Qed.
Lemma PROB_BASE_BIT_eq : PROB_BASE_BIT = 18.
Proof. reflexivity. Qed.

(** Replace the cost constants by their values. *)
Ltac consts := rewrite ?MAX_COST_eq, ?PROB_BASE_eq, ?PROB_BASE_BIT_eq in *.

(** ** msg.rs *)

Record Quaternion : Type := { q_x : f64; q_y : f64; q_z : f64; q_w : f64 }.
Definition quat_default : Quaternion := {| q_x := f0; q_y := f0; q_z := f0; q_w := f0 |}.

Record OccupancyGrid : Type := {
  og_width : Z; og_height : Z;
  og_resolution : f64; og_origin_x : f64; og_origin_y : f64;
  og_origin_quat : Quaternion;
  og_data : list Z (* i8 *)
}.

Record LaserScan : Type := {
  ls_angle_min : f64; ls_angle_increment : f64; ls_ranges : list f64
}.

(** ** state_transition.rs *)

Record StateTransition : Type := { dix : Z; diy : Z; dit : Z; prob : Z }.

(** ** action.rs *)

Record Action : Type := {
  a_name : string;
  a_delta_fw : f64;
  a_delta_rot : f64;
  a_id : Z;
  a_state_transitions : list (list StateTransition)
}.

Definition action_new (name : string) (fw rot : f64) (id : Z) : Action :=
  {| a_name := name; a_delta_fw := fw; a_delta_rot := rot; a_id := id;
     a_state_transitions := [] |}.

Definition with_transitions (a : Action) (t : list (list StateTransition)) : Action :=
  {| a_name := a_name a; a_delta_fw := a_delta_fw a; a_delta_rot := a_delta_rot a;
     a_id := a_id a; a_state_transitions := t |}.

(** ** state.rs *)

Record State : Type := mkState {
  s_total_cost : Z;
  s_penalty : Z;
  s_local_penalty : Z;
  s_ix : Z; s_iy : Z; s_it : Z;
  s_free : bool;
  s_final_state : bool;
  s_optimal_action : option Z
}.

Definition policy_invalidated (s : State) : bool :=
  s_free s && negb (s_final_state s) && (s_total_cost s <? MAX_COST)
  && match s_optimal_action s with None => true | Some _ => false end.

(** [s.total_cost = v; s.optimal_action = a] *)
Definition with_value (s : State) (v : Z) (a : option Z) : State :=
  mkState v (s_penalty s) (s_local_penalty s) (s_ix s) (s_iy s) (s_it s)
    (s_free s) (s_final_state s) a.
Definition with_total_cost (s : State) (v : Z) : State :=
  with_value s v (s_optimal_action s).
Definition with_penalty (s : State) (p : Z) : State :=
  mkState (s_total_cost s) p (s_local_penalty s) (s_ix s) (s_iy s) (s_it s)
    (s_free s) (s_final_state s) (s_optimal_action s).
Definition with_local_penalty (s : State) (p : Z) : State :=
  mkState (s_total_cost s) (s_penalty s) p (s_ix s) (s_iy s) (s_it s)
    (s_free s) (s_final_state s) (s_optimal_action s).
Definition with_free (s : State) (b : bool) : State :=
  mkState (s_total_cost s) (s_penalty s) (s_local_penalty s) (s_ix s) (s_iy s) (s_it s)
    b (s_final_state s) (s_optimal_action s).
Definition with_final (s : State) (b : bool) : State :=
  mkState (s_total_cost s) (s_penalty s) (s_local_penalty s) (s_ix s) (s_iy s) (s_it s)
    (s_free s) b (s_optimal_action s).

(** ** solvers/original/sweep_status.rs *)

Record SweepWorkerStatus : Type := {
  sw_finished : bool; sw_sweep_step : Z; sw_delta : f64
}.

Definition sweep_status_default : SweepWorkerStatus :=
  {| sw_finished := false; sw_sweep_step := 0; sw_delta := f64_of_Z MAX_COST |}.

(** ** value_iterator.rs *)

Record ValueIterator : Type := mkVI {
  vi_states : list State;
  vi_actions : list Action;
  vi_sweep_orders : list (list Z);
  vi_thread_status : gmap Z SweepWorkerStatus;
  vi_status : string;
  vi_goal_x : f64; vi_goal_y : f64; vi_goal_margin_radius : f64;
  vi_goal_t : Z; vi_goal_margin_theta : Z; vi_thread_num : Z;
  vi_xy_resolution : f64; vi_t_resolution : f64;
  vi_cell_num_x : Z; vi_cell_num_y : Z; vi_cell_num_t : Z;
  vi_map_origin_x : f64; vi_map_origin_y : f64; vi_map_origin_quat : Quaternion
}.

(** [vi.states = st] *)
Definition with_states (vi : ValueIterator) (st : list State) : ValueIterator :=
  mkVI st (vi_actions vi) (vi_sweep_orders vi) (vi_thread_status vi) (vi_status vi)
    (vi_goal_x vi) (vi_goal_y vi) (vi_goal_margin_radius vi) (vi_goal_t vi)
    (vi_goal_margin_theta vi) (vi_thread_num vi) (vi_xy_resolution vi) (vi_t_resolution vi)
    (vi_cell_num_x vi) (vi_cell_num_y vi) (vi_cell_num_t vi)
    (vi_map_origin_x vi) (vi_map_origin_y vi) (vi_map_origin_quat vi).

Definition with_actions (vi : ValueIterator) (acts : list Action) : ValueIterator :=
  mkVI (vi_states vi) acts (vi_sweep_orders vi) (vi_thread_status vi) (vi_status vi)
    (vi_goal_x vi) (vi_goal_y vi) (vi_goal_margin_radius vi) (vi_goal_t vi)
    (vi_goal_margin_theta vi) (vi_thread_num vi) (vi_xy_resolution vi) (vi_t_resolution vi)
    (vi_cell_num_x vi) (vi_cell_num_y vi) (vi_cell_num_t vi)
    (vi_map_origin_x vi) (vi_map_origin_y vi) (vi_map_origin_quat vi).

Definition with_sweep_orders (vi : ValueIterator) (o : list (list Z)) : ValueIterator :=
  mkVI (vi_states vi) (vi_actions vi) o (vi_thread_status vi) (vi_status vi)
    (vi_goal_x vi) (vi_goal_y vi) (vi_goal_margin_radius vi) (vi_goal_t vi)
    (vi_goal_margin_theta vi) (vi_thread_num vi) (vi_xy_resolution vi) (vi_t_resolution vi)
    (vi_cell_num_x vi) (vi_cell_num_y vi) (vi_cell_num_t vi)
    (vi_map_origin_x vi) (vi_map_origin_y vi) (vi_map_origin_quat vi).

Definition with_thread_status (vi : ValueIterator) (m : gmap Z SweepWorkerStatus)
    : ValueIterator :=
  mkVI (vi_states vi) (vi_actions vi) (vi_sweep_orders vi) m (vi_status vi)
    (vi_goal_x vi) (vi_goal_y vi) (vi_goal_margin_radius vi) (vi_goal_t vi)
    (vi_goal_margin_theta vi) (vi_thread_num vi) (vi_xy_resolution vi) (vi_t_resolution vi)
    (vi_cell_num_x vi) (vi_cell_num_y vi) (vi_cell_num_t vi)
    (vi_map_origin_x vi) (vi_map_origin_y vi) (vi_map_origin_quat vi).

Definition with_status (vi : ValueIterator) (st : string) : ValueIterator :=
  mkVI (vi_states vi) (vi_actions vi) (vi_sweep_orders vi) (vi_thread_status vi) st
    (vi_goal_x vi) (vi_goal_y vi) (vi_goal_margin_radius vi) (vi_goal_t vi)
    (vi_goal_margin_theta vi) (vi_thread_num vi) (vi_xy_resolution vi) (vi_t_resolution vi)
    (vi_cell_num_x vi) (vi_cell_num_y vi) (vi_cell_num_t vi)
    (vi_map_origin_x vi) (vi_map_origin_y vi) (vi_map_origin_quat vi).

Definition with_goal (vi : ValueIterator) (gx gy : f64) (gt : Z) : ValueIterator :=
  mkVI (vi_states vi) (vi_actions vi) (vi_sweep_orders vi) (vi_thread_status vi) (vi_status vi)
    gx gy (vi_goal_margin_radius vi) gt
    (vi_goal_margin_theta vi) (vi_thread_num vi) (vi_xy_resolution vi) (vi_t_resolution vi)
    (vi_cell_num_x vi) (vi_cell_num_y vi) (vi_cell_num_t vi)
    (vi_map_origin_x vi) (vi_map_origin_y vi) (vi_map_origin_quat vi).

(** ** Well-formed fields

    [index nx nt ix iy it] is the row-major position of a state; a well-formed
    field stores at every position the state of that cell, with values within
    the cost bound and penalties within [u64]. *)

Definition index (nx nt ix iy it : Z) : Z := it + ix * nt + iy * (nt * nx).

Record dims_ok (nx ny nt : Z) : Prop := {
  dims_x : 0 < nx; dims_y : 0 < ny; dims_t : 0 < nt;
  dims_total : nx * ny * nt < 2 ^ 31
}.

Record state_ok (nx ny nt i : Z) (s : State) : Prop := {
  so_ix : 0 ≤ s_ix s < nx; so_iy : 0 ≤ s_iy s < ny; so_it : 0 ≤ s_it s < nt;
  so_index : i = index nx nt (s_ix s) (s_iy s) (s_it s);
  so_cost : 0 ≤ s_total_cost s ≤ MAX_COST;
  so_pen : in_u64 (s_penalty s);
  so_lpen : in_u64 (s_local_penalty s)
}.

Record wf_states (nx ny nt : Z) (st : list State) : Prop := {
  ws_len : zlen st = nx * ny * nt;
  ws_state : ∀ i s, zget st i = Some s → state_ok nx ny nt i s
}.

Record wf_trans (nt : Z) (tr : StateTransition) : Prop := {
  wt_dix : - 2 ^ 31 < dix tr < 2 ^ 31; wt_diy : - 2 ^ 31 < diy tr < 2 ^ 31;
  wt_dit : 0 ≤ dit tr ∧ dit tr + nt < 2 ^ 31;
  wt_prob : 0 ≤ prob tr < 2 ^ 31
}.

Record wf_action (nt : Z) (a : Action) : Prop := {
  wa_len : zlen (a_state_transitions a) = nt;
  wa_trans : ∀ t trs tr,
    zget (a_state_transitions a) t = Some trs → tr ∈ trs → wf_trans nt tr
}.

Record wf_vi (vi : ValueIterator) : Prop := {
  wv_dims : dims_ok (vi_cell_num_x vi) (vi_cell_num_y vi) (vi_cell_num_t vi);
  wv_states : wf_states (vi_cell_num_x vi) (vi_cell_num_y vi) (vi_cell_num_t vi) (vi_states vi);
  wv_actions : Forall (wf_action (vi_cell_num_t vi)) (vi_actions vi)
}.

(** The part of a state a Bellman update leaves alone. *)
Definition static_part (s : State) : Z * Z * Z * Z * Z * bool * bool :=
  (s_penalty s, s_local_penalty s, s_ix s, s_iy s, s_it s, s_free s, s_final_state s).

Definition same_static (st st' : list State) : Prop :=
  ∀ i, static_part <$> zget st i = static_part <$> zget st' i.

#[global] Instance same_static_equiv : Equivalence same_static.
Proof.
  split.
  - intros ? ?; done.
  - intros ? ? H i. by rewrite (H i).
  - intros ? ? ? H1 H2 i. by rewrite (H1 i).
Qed.

Lemma index_bounds nx ny nt ix iy it :
  0 ≤ ix < nx → 0 ≤ iy < ny → 0 ≤ it < nt →
  0 ≤ index nx nt ix iy it < nx * ny * nt.
Proof.
  unfold index. intros.
  pose proof (Z.mul_le_mono_nonneg_r ix (nx - 1) nt ltac:(lia) ltac:(lia)).
  pose proof (Z.mul_nonneg_nonneg ix nt ltac:(lia) ltac:(lia)).
  pose proof (Z.mul_nonneg_nonneg nt nx ltac:(lia) ltac:(lia)).
  pose proof (Z.mul_le_mono_nonneg_r iy (ny - 1) (nt * nx) ltac:(lia) ltac:(lia)).
  pose proof (Z.mul_nonneg_nonneg iy (nt * nx) ltac:(lia) ltac:(lia)).
  lia.
Qed.

Lemma digit_inj m q q' r r' :
  0 ≤ r < m → 0 ≤ r' < m → r + q * m = r' + q' * m → q = q' ∧ r = r'.
Proof.
  intros ?? E. assert (q = q') as ->; [|lia].
  destruct (Z.lt_trichotomy q q') as [?|[?|?]]; [nia|done|nia].
Qed.

Lemma index_inj nx ny nt ix iy it ix' iy' it' :
  0 ≤ ix < nx → 0 ≤ iy < ny → 0 ≤ it < nt →
  0 ≤ ix' < nx → 0 ≤ iy' < ny → 0 ≤ it' < nt →
  index nx nt ix iy it = index nx nt ix' iy' it' → ix = ix' ∧ iy = iy' ∧ it = it'.
Proof.
  unfold index. intros Hx Hy Ht Hx' Hy' Ht' E.
  pose proof (Z.mul_le_mono_nonneg_r ix (nx - 1) nt ltac:(lia) ltac:(lia)).
  pose proof (Z.mul_le_mono_nonneg_r ix' (nx - 1) nt ltac:(lia) ltac:(lia)).
  pose proof (Z.mul_nonneg_nonneg ix nt ltac:(lia) ltac:(lia)).
  pose proof (Z.mul_nonneg_nonneg ix' nt ltac:(lia) ltac:(lia)).
  destruct (digit_inj (nt * nx) iy iy' (it + ix * nt) (it' + ix' * nt)) as [-> E1];
    [lia..|].
  by destruct (digit_inj nt ix ix' it it') as [-> ->].
Qed.

(** Every position is the index of a cell. *)
Lemma index_surj nx ny nt i :
  0 < nx → 0 < nt → 0 ≤ i < nx * ny * nt →
  ∃ ix iy it, 0 ≤ ix < nx ∧ 0 ≤ iy < ny ∧ 0 ≤ it < nt ∧ i = index nx nt ix iy it.
Proof.
  intros Hx Ht Hi. unfold index.
  exists ((i / nt) mod nx), (i / (nt * nx)), (i mod nt).
  assert (0 < nt * nx) by nia.
  pose proof (Z.mod_pos_bound i nt Ht). pose proof (Z.mod_pos_bound (i / nt) nx Hx).
  pose proof (Z.div_mod i nt ltac:(lia)). pose proof (Z.div_mod (i / nt) nx ltac:(lia)).
  rewrite Z.div_div in * by lia.
  assert (0 ≤ i / (nt * nx)) by (apply Z.div_pos; lia).
  assert (i / (nt * nx) < ny) by (apply Z.div_lt_upper_bound; lia).
  repeat split; lia.
Qed.

Lemma ws_get nx ny nt st ix iy it :
  wf_states nx ny nt st → 0 < nx → 0 < nt →
  0 ≤ ix < nx → 0 ≤ iy < ny → 0 ≤ it < nt →
  ∃ s, zget st (index nx nt ix iy it) = Some s ∧ s_ix s = ix ∧ s_iy s = iy ∧ s_it s = it.
Proof.
  intros [Hlen Hst] ?? Hx Hy Ht.
  pose proof (index_bounds nx ny nt ix iy it Hx Hy Ht) as Hb.
  destruct (zget_lt st (index nx nt ix iy it)) as [s Hs]; [lia|].
  destruct (Hst _ _ Hs) as [? ? ? E _ _ _].
  apply (index_inj nx ny) in E as (-> & -> & ->); try done. by exists s.
Qed.

(** ** A checker for the field invariant

    Concrete fields are shown well formed by evaluating [check_vi]. *)

Definition in_range_b (lo x hi : Z) : bool := (lo <=? x) && (x <? hi).

Definition check_state (nx ny nt i : Z) (s : State) : bool :=
  in_range_b 0 (s_ix s) nx && in_range_b 0 (s_iy s) ny && in_range_b 0 (s_it s) nt
  && (i =? index nx nt (s_ix s) (s_iy s) (s_it s))
  && in_range_b 0 (s_total_cost s) (MAX_COST + 1)
  && in_range_b 0 (s_penalty s) (2 ^ 64) && in_range_b 0 (s_local_penalty s) (2 ^ 64).

Definition check_trans (nt : Z) (tr : StateTransition) : bool :=
  in_range_b (- 2 ^ 31 + 1) (dix tr) (2 ^ 31) && in_range_b (- 2 ^ 31 + 1) (diy tr) (2 ^ 31)
  && in_range_b 0 (dit tr) (2 ^ 31 - nt) && in_range_b 0 (prob tr) (2 ^ 31).

Definition check_action (nt : Z) (a : Action) : bool :=
  (zlen (a_state_transitions a) =? nt)
  && forallb (forallb (check_trans nt)) (a_state_transitions a).

Fixpoint check_states_from (nx ny nt i : Z) (st : list State) : bool :=
  match st with
  | [] => true
  | s :: st' => check_state nx ny nt i s && check_states_from nx ny nt (i + 1) st'
  end.

Definition check_vi (vi : ValueIterator) : bool :=
  let '(nx, ny, nt) := (vi_cell_num_x vi, vi_cell_num_y vi, vi_cell_num_t vi) in
  (0 <? nx) && (0 <? ny) && (0 <? nt) && (nx * ny * nt <? 2 ^ 31)
  && (zlen (vi_states vi) =? nx * ny * nt)
  && check_states_from nx ny nt 0 (vi_states vi)
  && forallb (check_action nt) (vi_actions vi).

Lemma in_range_ok lo x hi : in_range_b lo x hi = true → lo ≤ x < hi.
Proof. unfold in_range_b. intros. bool_to_prop. lia. Qed.

Lemma check_state_ok nx ny nt i s : check_state nx ny nt i s = true → state_ok nx ny nt i s.
Proof.
  unfold check_state. rewrite !andb_true_iff. intros [[[[[[H1 H2] H3] H4] H5] H6] H7].
  apply in_range_ok in H1, H2, H3, H5, H6, H7. apply Z.eqb_eq in H4.
  split; unfold in_u64; first [done|lia].
Qed.

Lemma check_states_from_ok nx ny nt i st :
  check_states_from nx ny nt i st = true →
  ∀ j s, zget st j = Some s → state_ok nx ny nt (i + j) s.
Proof.
  revert i. induction st as [|s st IH]; intros i; cbn; intros H j s' Hj.
  { unfold zget in Hj. case_decide; [by rewrite lookup_nil in Hj|done]. }
  apply andb_prop in H as [Hs Hst].
  pose proof (zget_Some_lt _ _ _ Hj) as [? _].
  destruct (decide (j = 0)) as [->|].
  - cbn in Hj. injection Hj as <-. rewrite Z.add_0_r. by apply check_state_ok.
  - rewrite zget_cons in Hj by lia. replace (i + j) with ((i + 1) + (j - 1)) by lia.
    by apply IH.
Qed.

Lemma check_action_ok nt a : check_action nt a = true → wf_action nt a.
Proof.
  unfold check_action. intros [Hl Hf]%andb_prop. split; [by apply Z.eqb_eq|].
  rewrite forallb_forall in Hf.
  intros t trs tr Ht Htr. unfold zget in Ht. case_decide; [|done].
  assert (In trs (a_state_transitions a)) as Hin
    by (apply list_elem_of_In; by eapply list_elem_of_lookup_2).
  specialize (Hf _ Hin). rewrite forallb_forall in Hf.
  apply list_elem_of_In in Htr. specialize (Hf _ Htr). unfold check_trans in Hf.
  rewrite !andb_true_iff in Hf. destruct Hf as [[[H1 H2] H3] H4].
  apply in_range_ok in H1, H2, H3, H4. split; lia.
Qed.

Lemma check_vi_ok vi : check_vi vi = true → wf_vi vi.
Proof.
  unfold check_vi. rewrite !andb_true_iff. intros [[[[[[H1 H2] H3] H4] H5] H6] H7].
  bool_to_prop. split.
  - by split.
  - split; [done|]. intros i s Hi.
    by apply (check_states_from_ok _ _ _ _ _ H6 i s) in Hi.
  - apply Forall_forall. intros a Ha. apply check_action_ok.
    rewrite forallb_forall in H7. apply H7. first [done | by apply list_elem_of_In].
Qed.

#[export] Hint Resolve check_vi_ok : vi.

(** ** Sample fields

    Small concrete fields on which the theorems are evaluated: a corridor of
    [n] cells whose goal is at [x = 0], one heading, and the given actions. *)

Definition sample_cell (cost ix : Z) (fin : bool) : State :=
  mkState cost PROB_BASE 0 ix 0 0 true fin None.

Definition corridor_states (n : Z) : list State :=
  (fun ix => sample_cell (if ix =? 0 then 0 else MAX_COST) ix (ix =? 0)) <$> seqZ 0 n.

Definition sample_action (id : Z) (trs : list StateTransition) : Action :=
  with_transitions (action_new "sample" f0 f0 id) [trs].

(** One cell toward the goal, and one cell away from it. *)
Definition step_back : Action :=
  sample_action 0 [{| dix := -1; diy := 0; dit := 0; prob := PROB_BASE |}].
Definition step_away : Action :=
  sample_action 1 [{| dix := 1; diy := 0; dit := 0; prob := PROB_BASE |}].

Definition sample_vi (nx ny nt : Z) (acts : list Action) (st : list State) : ValueIterator :=
  mkVI st acts [] ∅ "init" f0 f0 f0 0 0 1 f1 f360 nx ny nt f0 f0 quat_default.

Definition corridor (n : Z) : ValueIterator :=
  sample_vi n 1 1 [step_back; step_away] (corridor_states n).
