(* ===== verification/Bellman.v ===== *)
(** * The per-cell Bellman update (vi_lib/src/value_iterator.rs)

    [to_index_raw], [action_cost_raw], [min_action_cost] and
    [value_iteration_raw], the update every solver of the crate runs, with
    their machine arithmetic. *)

From Stdlib Require Import ZArith Lia.
From stdpp Require Import base list numbers.
From S2P Require Import Prelude Floats Model.

(** [it + ix * cell_num_t + iy * (cell_num_t * cell_num_x)] on [i32] *)
Definition to_index_raw (ix iy it cell_num_x cell_num_t : Z) : Z :=
  i32_add (i32_add it (i32_mul ix cell_num_t))
          (i32_mul iy (i32_mul cell_num_t cell_num_x)).

Definition to_index (vi : ValueIterator) (ix iy it : Z) : Z :=
  to_index_raw ix iy it (vi_cell_num_x vi) (vi_cell_num_t vi).

Definition in_map_area (vi : ValueIterator) (ix iy : Z) : bool :=
  (0 <=? ix) && (ix <? vi_cell_num_x vi) && (0 <=? iy) && (iy <? vi_cell_num_y vi).

(** Rust's [%] on [i32]: panics on a zero divisor and on [MIN % -1]. *)
Definition i32_rem (a b : Z) : res Z :=
  if b =? 0 then Panic
  else if (a =? - 2 ^ 31) && (b =? -1) then Panic
  else Ok (Z.rem a b).

(** Division of [i32]: truncating, and a panic by zero or on overflow. *)
Definition i32_div (a b : Z) : res Z :=
  if (b =? 0) || ((a =? - 2 ^ 31) && (b =? -1)) then Panic else Ok (Z.quot a b).

(** The loop of [actionCost] over the transitions, with its early returns. *)
Fixpoint action_cost_loop (states : list State) (s : State) (nx ny nt : Z)
    (cost : Z) (trans : list StateTransition) : res Z :=
  match trans with
  | [] => Ok (Z.shiftr cost PROB_BASE_BIT)
  | tran :: rest =>
      let ix := i32_add (s_ix s) (dix tran) in
      if (ix <? 0) || (ix >=? nx) then Ok MAX_COST else
      let iy := i32_add (s_iy s) (diy tran) in
      if (iy <? 0) || (iy >=? ny) then Ok MAX_COST else
      it ← i32_rem (i32_add (dit tran) nt) nt;
      after ← vget states (to_index_raw ix iy it nx nt);
      if negb (s_free after) then Ok MAX_COST else
      action_cost_loop states s nx ny nt
        (u64_add cost
          (u64_mul (u64_add (u64_add (s_total_cost after) (s_penalty after))
                            (s_local_penalty after))
                   (as_u64 (prob tran))))
        rest
  end.

Definition action_cost_raw (states : list State) (a : Action) (s : State)
    (nx ny nt : Z) : res Z :=
  trans ← vget (a_state_transitions a) (s_it s);
  action_cost_loop states s nx ny nt 0 trans.

(** The argmin loop: [actions.iter().enumerate()] from index [ai]. *)
Fixpoint min_action_loop (states : list State) (s : State) (nx ny nt : Z)
    (ai : Z) (actions : list Action) (best : Z * option Z) : res (Z * option Z) :=
  match actions with
  | [] => Ok best
  | a :: rest =>
      c ← action_cost_raw states a s nx ny nt;
      min_action_loop states s nx ny nt (ai + 1) rest
        (if c <? best.1 then (c, Some ai) else best)
  end.

Definition min_action_cost (states : list State) (actions : list Action)
    (idx nx ny nt : Z) : res (option (Z * option Z)) :=
  s ← vget states idx;
  if negb (s_free s) || s_final_state s then Ok None else
  r ← min_action_loop states s nx ny nt 0 actions (MAX_COST, None);
  Ok (Some r).

(** Writes the minimum and returns [|min_cost as i64 - old as i64|]. *)
Definition value_iteration_raw (states : list State) (actions : list Action)
    (idx nx ny nt : Z) : res (list State * Z) :=
  m ← min_action_cost states actions idx nx ny nt;
  match m with
  | None => Ok (states, 0)
  | Some (min_cost, min_action) =>
      s ← vget states idx;
      let delta := wrap_s 64 (as_i64 min_cost - as_i64 (s_total_cost s)) in
      states' ← vset states idx (with_value s min_cost min_action);
      Ok (states', Z.abs delta)
  end.

(** The methods of [ValueIterator] over the raw functions. *)
Definition action_cost (vi : ValueIterator) (s : State) (a : Action) : res Z :=
  action_cost_raw (vi_states vi) a s
    (vi_cell_num_x vi) (vi_cell_num_y vi) (vi_cell_num_t vi).

Definition bellman_update (vi : ValueIterator) (idx : Z) : res (option (Z * option Z)) :=
  min_action_cost (vi_states vi) (vi_actions vi) idx
    (vi_cell_num_x vi) (vi_cell_num_y vi) (vi_cell_num_t vi).

Definition value_iteration_at (vi : ValueIterator) (idx : Z) : res (ValueIterator * Z) :=
  r ← value_iteration_raw (vi_states vi) (vi_actions vi) idx
        (vi_cell_num_x vi) (vi_cell_num_y vi) (vi_cell_num_t vi);
  Ok (with_states vi r.1, r.2).

(** ** Index arithmetic *)

Lemma to_index_raw_small nx ny nt ix iy it :
  dims_ok nx ny nt → 0 ≤ ix < nx → 0 ≤ iy < ny → 0 ≤ it < nt →
  to_index_raw ix iy it nx nt = index nx nt ix iy it.
Proof.
  intros [Hx Hy Ht Htot] Hix Hiy Hit.
  pose proof (index_bounds nx ny nt ix iy it Hix Hiy Hit) as Hb.
  unfold to_index_raw, index in *.
  assert (0 ≤ ix * nt) by nia. assert (0 < nt * nx) by nia.
  assert (0 ≤ iy * (nt * nx)) by nia. assert (nt * nx ≤ nx * ny * nt) by nia.
  rewrite (i32_mul_small nt nx), (i32_mul_small ix nt) by (unfold in_i32; lia).
  rewrite (i32_add_small it), (i32_mul_small iy) by (unfold in_i32; lia).
  apply i32_add_small. unfold in_i32. lia.
Qed.

(** An overflowing coordinate sum is rejected by the same bounds test. *)
Lemma i32_add_guard nx x d :
  0 ≤ x < 2 ^ 31 → - 2 ^ 31 < d < 2 ^ 31 → nx < 2 ^ 31 →
  (i32_add x d <? 0) || (i32_add x d >=? nx) = (x + d <? 0) || (x + d >=? nx).
Proof.
  intros. destruct (decide (x + d < 2 ^ 31)).
  - rewrite i32_add_small by (unfold in_i32; lia). done.
  - assert (i32_add x d = x + d - 2 ^ 32) as ->.
    { unfold i32_add, wrap_s. rewrite <- (Z_mod_plus_full _ (-1)), Z.mod_small; lia. }
    destruct (Z.ltb_spec (x + d - 2 ^ 32) 0); [|lia].
    symmetry. apply orb_true_iff. right. rewrite Z.geb_leb. apply Z.leb_le. lia.
Qed.

(** Wrapping at every step is wrapping once at the end. *)
Lemma u64_accumulate c a b d p :
  u64_add c (u64_mul (u64_add (u64_add a b) d) (as_u64 p))
  = wrap_u 64 (c + (a + b + d) * p).
Proof.
  unfold u64_add, u64_mul, as_u64, wrap_u.
  rewrite Zplus_mod_idemp_r, Zplus_mod_idemp_l.
  rewrite <- (Zplus_mod_idemp_r (_ * (p mod _))), Zmult_mod_idemp_l, Zmult_mod_idemp_r.
  by rewrite Zplus_mod_idemp_r.
Qed.

(** ** The cost of an action as a closed form

    [target] is the successor a transition reads, [blocked] the early returns,
    [backup_sum] the unreduced accumulator. *)

Section closed_form.
Context (nx ny nt : Z).

Definition target (s : State) (tr : StateTransition) : Z :=
  index nx nt (s_ix s + dix tr) (s_iy s + diy tr) (Z.rem (dit tr + nt) nt).

Definition inside (s : State) (tr : StateTransition) : bool :=
  (0 <=? s_ix s + dix tr) && (s_ix s + dix tr <? nx)
  && (0 <=? s_iy s + diy tr) && (s_iy s + diy tr <? ny).

Definition blocked (st : list State) (s : State) (tr : StateTransition) : bool :=
  negb (inside s tr)
  || match zget st (target s tr) with Some a => negb (s_free a) | None => true end.

(** What a successor contributes, before it is weighted. *)
Definition entry_cost (a : State) : Z :=
  s_total_cost a + s_penalty a + s_local_penalty a.

Definition succ_cost (st : list State) (s : State) (tr : StateTransition) : Z :=
  match zget st (target s tr) with Some a => entry_cost a | None => 0 end.

Fixpoint backup_sum (st : list State) (s : State) (trs : list StateTransition) : Z :=
  match trs with
  | [] => 0
  | tr :: rest => succ_cost st s tr * prob tr + backup_sum st s rest
  end.

Definition backup (st : list State) (s : State) (trs : list StateTransition) : Z :=
  if existsb (blocked st s) trs then MAX_COST
  else Z.shiftr (wrap_u 64 (backup_sum st s trs)) PROB_BASE_BIT.

Lemma target_theta tr : 0 < nt → wf_trans nt tr → 0 ≤ Z.rem (dit tr + nt) nt < nt.
Proof. intros ? [_ _ ? _]. apply Z.rem_bound_pos; lia. Qed.

Lemma target_bounds s tr :
  0 < nt → wf_trans nt tr → inside s tr = true →
  0 ≤ target s tr < nx * ny * nt.
Proof.
  intros ? Hw Hi. unfold inside in Hi. bool_to_prop.
  apply index_bounds; [lia..|by apply target_theta].
Qed.

(** One iteration of the loop. *)
Lemma action_cost_loop_cons st s cost tr rest :
  dims_ok nx ny nt → wf_states nx ny nt st →
  0 ≤ s_ix s < nx → 0 ≤ s_iy s < ny → wf_trans nt tr →
  action_cost_loop st s nx ny nt cost (tr :: rest) =
    if blocked st s tr then Ok MAX_COST
    else action_cost_loop st s nx ny nt
           (wrap_u 64 (cost + succ_cost st s tr * prob tr)) rest.
Proof.
  intros Hd Hst Hix Hiy Hw. pose proof Hd as [? ? ? ?].
  assert (nx < 2 ^ 31) by nia. assert (ny < 2 ^ 31) by nia. assert (nt < 2 ^ 31) by nia.
  pose proof Hw as [Hdx Hdy Hdt Hp]. cbn [action_cost_loop].
  rewrite !i32_add_guard by lia.
  unfold blocked, inside.
  destruct (Z.ltb_spec (s_ix s + dix tr) 0); cbn [orb].
  { by destruct (Z.leb_spec 0 (s_ix s + dix tr)); [lia|]. }
  rewrite Z.geb_leb. destruct (Z.leb_spec nx (s_ix s + dix tr)); cbn [orb].
  { by destruct (Z.ltb_spec (s_ix s + dix tr) nx); [lia|]; rewrite andb_false_r. }
  destruct (Z.ltb_spec (s_iy s + diy tr) 0); cbn [orb].
  { by destruct (Z.leb_spec 0 (s_iy s + diy tr)); [lia|]; rewrite andb_false_r. }
  rewrite Z.geb_leb. destruct (Z.leb_spec ny (s_iy s + diy tr)); cbn [orb].
  { by destruct (Z.ltb_spec (s_iy s + diy tr) ny); [lia|]; rewrite andb_false_r. }
  assert (inside s tr = true) as Hin.
  { unfold inside. by rewrite !andb_true_iff, !Z.leb_le, !Z.ltb_lt. }
  fold (inside s tr). rewrite Hin. cbn [negb orb].
  rewrite !(i32_add_small (s_ix s)), !(i32_add_small (s_iy s)), (i32_add_small (dit tr))
    by (unfold in_i32; lia).
  unfold i32_rem. destruct (Z.eqb_spec nt 0); [lia|].
  destruct (Z.eqb_spec nt (-1)); [lia|]. rewrite andb_false_r, ok_bind.
  rewrite (to_index_raw_small nx ny) by (try done; try lia; by apply target_theta).
  fold (target s tr).
  destruct (zget_lt st (target s tr)) as [a Ha].
  { rewrite (ws_len _ _ _ _ Hst). by apply target_bounds. }
  unfold vget, succ_cost. rewrite Ha. cbn [of_option]. rewrite ok_bind.
  destruct (s_free a); cbn [negb]; [|done]. f_equal.
  apply u64_accumulate.
Qed.

Lemma action_cost_loop_eq st s c0 trs :
  dims_ok nx ny nt → wf_states nx ny nt st →
  0 ≤ s_ix s < nx → 0 ≤ s_iy s < ny → (∀ tr, tr ∈ trs → wf_trans nt tr) →
  action_cost_loop st s nx ny nt (wrap_u 64 c0) trs =
    Ok (if existsb (blocked st s) trs then MAX_COST
        else Z.shiftr (wrap_u 64 (c0 + backup_sum st s trs)) PROB_BASE_BIT).
Proof.
  intros Hd Hst Hix Hiy. revert c0. induction trs as [|tr trs IH]; intros c0 Hw.
  { cbn. by rewrite Z.add_0_r. }
  rewrite action_cost_loop_cons by (try done; apply Hw; left).
  cbn [existsb backup_sum]. destruct (blocked st s tr); [done|]. cbn [orb].
  assert (∀ x, wrap_u 64 (wrap_u 64 c0 + x) = wrap_u 64 (c0 + x)) as ->
    by (intros; apply Zplus_mod_idemp_l).
  rewrite IH by (intros; apply Hw; by right). by rewrite Z.add_assoc.
Qed.
End closed_form.

(** The transitions an action has for the heading of [s]. *)
Definition trans_of (a : Action) (s : State) : list StateTransition :=
  default [] (zget (a_state_transitions a) (s_it s)).

Lemma trans_of_get nt a s :
  wf_action nt a → 0 ≤ s_it s < nt →
  zget (a_state_transitions a) (s_it s) = Some (trans_of a s).
Proof.
  intros [Hl _] Hs. unfold trans_of.
  by destruct (zget_lt (a_state_transitions a) (s_it s)) as [t ->]; [lia|].
Qed.

Lemma trans_of_wf nt a s tr : wf_action nt a → tr ∈ trans_of a s → wf_trans nt tr.
Proof.
  intros [_ Hw]. unfold trans_of.
  destruct (zget _ _) as [t|] eqn:E; cbn; [eauto|by intros ?%elem_of_nil].
Qed.

(** ** Argmin over the actions *)

Fixpoint argmin_from (ai : Z) (costs : list Z) (best : Z * option Z) : Z * option Z :=
  match costs with
  | [] => best
  | c :: rest => argmin_from (ai + 1) rest (if c <? best.1 then (c, Some ai) else best)
  end.

(** [(m, o)] is the first strict minimum of [costs] below [bound]. *)
Definition is_argmin (bound : Z) (costs : list Z) (m : Z) (o : option Z) : Prop :=
  m ≤ bound ∧ (∀ c, c ∈ costs → m ≤ c) ∧
  match o with
  | None => m = bound
  | Some k => zget costs k = Some m ∧ m < bound
              ∧ ∀ j c, j < k → zget costs j = Some c → m < c
  end.

Lemma argmin_from_app ai cs1 cs2 best :
  argmin_from ai (cs1 ++ cs2) best =
  argmin_from (ai + zlen cs1) cs2 (argmin_from ai cs1 best).
Proof.
  revert ai best. induction cs1 as [|c cs1 IH]; intros ai best; cbn.
  - by rewrite Z.add_0_r.
  - rewrite IH. f_equal. unfold zlen. cbn [length]. lia.
Qed.

Lemma argmin_from_spec bound cs :
  let r := argmin_from 0 cs (bound, None) in is_argmin bound cs r.1 r.2.
Proof.
  induction cs as [|c cs IH] using rev_ind; cbn.
  { split; [done|]. split; [by intros ? ?%elem_of_nil|done]. }
  rewrite argmin_from_app. cbn [argmin_from].
  destruct (argmin_from 0 cs (bound, None)) as [m o]. cbn in *.
  destruct IH as (Hb & Hle & Ho). destruct (Z.ltb_spec c m); cbn.
  - split; [lia|]. split.
    { intros c' [Hc|Hc]%elem_of_app; [specialize (Hle _ Hc); lia|].
      apply list_elem_of_singleton in Hc. lia. }
    assert (∀ j c', j < zlen cs → zget (cs ++ [c]) j = Some c' → c < c') as Hlt.
    { intros j c' Hj. rewrite zget_app_l by lia. intros Hget.
      enough (m ≤ c') by lia. apply Hle. apply list_elem_of_lookup.
      unfold zget in Hget. case_decide; [eauto|done]. }
    split; [|split; [lia|exact Hlt]].
    rewrite zget_app_r by lia. by rewrite Z.sub_diag.
  - split; [done|]. split.
    { intros c' [Hc|Hc]%elem_of_app; [by apply Hle|].
      apply list_elem_of_singleton in Hc. lia. }
    destruct o as [k|]; [|done]. destruct Ho as (Hk & Hlt & Hfirst).
    pose proof (zget_Some_lt _ _ _ Hk). rewrite zget_app_l by lia.
    split; [done|]. split; [done|]. intros j c' Hj. rewrite zget_app_l by lia. eauto.
Qed.

(** ** The update under the field invariant *)

Section update.
Context (nx ny nt : Z) (acts : list Action).
Context (Hd : dims_ok nx ny nt) (Ha : Forall (wf_action nt) acts).

Definition action_costs (st : list State) (s : State) : list Z :=
  (fun a => backup nx ny nt st s (trans_of a s)) <$> acts.

(** The result of the minimisation as a pure function of the field. *)
Definition bellman (st : list State) (s : State) : Z * option Z :=
  argmin_from 0 (action_costs st s) (MAX_COST, None).

(** States a Bellman update rewrites. *)
Definition updatable (s : State) : bool := s_free s && negb (s_final_state s).

Lemma action_cost_raw_eq st a s i :
  wf_states nx ny nt st → wf_action nt a → state_ok nx ny nt i s →
  action_cost_raw st a s nx ny nt = Ok (backup nx ny nt st s (trans_of a s)).
Proof.
  intros Hst Hw Hs. unfold action_cost_raw, vget.
  rewrite (trans_of_get nt) by (done || apply Hs). cbn [of_option]. rewrite ok_bind.
  change 0 with (wrap_u 64 0). rewrite action_cost_loop_eq by
    (done || apply Hs || (intros; by eapply trans_of_wf)).
  by rewrite Z.add_0_l.
Qed.

Lemma min_action_loop_eq st s i ai l best :
  wf_states nx ny nt st → Forall (wf_action nt) l → state_ok nx ny nt i s →
  min_action_loop st s nx ny nt ai l best =
  Ok (argmin_from ai ((fun a => backup nx ny nt st s (trans_of a s)) <$> l) best).
Proof.
  intros Hst Hl Hs. revert ai best. induction Hl as [|a l Hw Hl IH]; intros ai best; [done|].
  cbn. rewrite (action_cost_raw_eq st a s i) by done. cbn. by rewrite IH.
Qed.

Lemma min_action_cost_eq st i s :
  wf_states nx ny nt st → zget st i = Some s →
  min_action_cost st acts i nx ny nt =
  Ok (if updatable s then Some (bellman st s) else None).
Proof.
  intros Hst Hi. unfold min_action_cost, vget, updatable. rewrite Hi. cbn [of_option].
  rewrite ok_bind. destruct (s_free s), (s_final_state s); try done. cbn [negb orb andb].
  rewrite (min_action_loop_eq st s i); [done..|]. by apply Hst.
Qed.

Lemma bellman_range st s : wf_states nx ny nt st → 0 ≤ (bellman st s).1 ≤ MAX_COST.
Proof.
  intros Hst. destruct (argmin_from_spec MAX_COST (action_costs st s)) as (? & Hle & Ho).
  fold (bellman st s) in *. split; [|done].
  destruct (bellman st s).2 as [k|]; [|consts; lia].
  destruct Ho as (Hk & _ & _). unfold action_costs in Hk. rewrite zget_fmap in Hk.
  destruct (zget acts k) as [a|]; [|done]. cbn in Hk. injection Hk as <-.
  unfold backup. destruct (existsb _ _); [consts; lia|].
  apply Z.shiftr_nonneg, wrap_u_range. lia.
Qed.

(** The write of [value_iteration_raw], as a pure function. *)
Definition update (st : list State) (i : Z) : list State :=
  match zget st i with
  | Some s => if updatable s
              then zset st i (with_value s (bellman st s).1 (bellman st s).2) else st
  | None => st
  end.

(** The returned [|delta|]. *)
Definition delta (st : list State) (i : Z) : Z :=
  match zget st i with
  | Some s => if updatable s then Z.abs ((bellman st s).1 - s_total_cost s) else 0
  | None => 0
  end.

Lemma value_iteration_raw_eq st i :
  wf_states nx ny nt st → 0 ≤ i < zlen st →
  value_iteration_raw st acts i nx ny nt = Ok (update st i, delta st i).
Proof.
  intros Hst Hi. destruct (zget_lt st i Hi) as [s Hs].
  unfold value_iteration_raw. rewrite (min_action_cost_eq st i s) by done.
  rewrite ok_bind. unfold update, delta. rewrite Hs.
  destruct (updatable s); [|done].
  pose proof (bellman_range st s Hst). pose proof (so_cost _ _ _ _ _ (ws_state _ _ _ _ Hst _ _ Hs)).
  destruct (bellman st s) as [m o]. cbn [fst snd] in *.
  unfold vget. rewrite Hs. cbn [of_option]. rewrite ok_bind, vset_ok by done.
  rewrite ok_bind. consts. unfold as_i64.
  rewrite (wrap_s64_small m), (wrap_s64_small (s_total_cost s)) by lia.
  by rewrite wrap_s64_small by lia.
Qed.

Lemma zlen_update st i : zlen (update st i) = zlen st.
Proof. unfold update. destruct (zget st i) as [s|]; [|done]. destruct (updatable s); [|done]. apply zlen_zset. Qed.

Lemma update_other st i j : i ≠ j → zget (update st i) j = zget st j.
Proof.
  intros. unfold update. destruct (zget st i) as [s|]; [|done].
  destruct (updatable s); [|done]. by apply zget_zset_ne.
Qed.

Lemma update_self st i s :
  zget st i = Some s →
  zget (update st i) i =
    Some (if updatable s then with_value s (bellman st s).1 (bellman st s).2 else s).
Proof.
  intros Hs. unfold update. rewrite Hs. destruct (updatable s); [|done].
  apply zget_zset_eq. by eapply zget_Some_lt.
Qed.

Lemma update_static st i : same_static (update st i) st.
Proof.
  intros j. destruct (decide (i = j)) as [->|Hne]; [|by rewrite update_other].
  destruct (zget st j) as [s|] eqn:Hs.
  - rewrite (update_self _ _ s) by done. by destruct (updatable s).
  - unfold update. by rewrite Hs, Hs.
Qed.

Lemma update_wf st i : wf_states nx ny nt st → wf_states nx ny nt (update st i).
Proof.
  intros Hst. split; [rewrite zlen_update; apply Hst|].
  intros j s' Hj. destruct (decide (i = j)) as [->|Hne].
  2: { rewrite update_other in Hj by done. by apply Hst. }
  destruct (zget st j) as [s|] eqn:Hs.
  - rewrite (update_self _ _ s) in Hj by done. injection Hj as <-.
    pose proof (ws_state _ _ _ _ Hst _ _ Hs) as [? ? ? ? ? ? ?].
    destruct (updatable s); [|done]. split; try done. cbn. by apply bellman_range.
  - unfold update in Hj. rewrite Hs, Hs in Hj. done.
Qed.
End update.

(** ** Exactness: the expected cost, rounded down *)

Section expectation.
Context (nx ny nt : Z) (st : list State) (s : State).

Definition prob_total (trs : list StateTransition) : Z := foldr (fun tr z => prob tr + z) 0 trs.

(** Every successor costs between [lo] and [hi]. *)
Definition succ_within (lo hi : Z) (trs : list StateTransition) : Prop :=
  ∀ tr, tr ∈ trs → lo ≤ succ_cost nx nt st s tr ≤ hi ∧ 0 ≤ prob tr.

Lemma backup_sum_bounds lo hi trs :
  succ_within lo hi trs →
  lo * prob_total trs ≤ backup_sum nx nt st s trs ≤ hi * prob_total trs.
Proof.
  induction trs as [|tr trs IH]; intros Hw; cbn; [lia|].
  destruct (Hw tr ltac:(left)) as [[Hlo Hhi] Hp].
  specialize (IH ltac:(intros ? ?; apply Hw; by right)).
  pose proof (Z.mul_le_mono_nonneg_r _ _ (prob tr) Hp Hlo).
  pose proof (Z.mul_le_mono_nonneg_r _ _ (prob tr) Hp Hhi).
  unfold prob_total in IH. lia.
Qed.

Lemma backup_exact lo hi trs :
  existsb (blocked nx ny nt st s) trs = false →
  succ_within lo hi trs → 0 ≤ lo → hi < 2 ^ 46 → prob_total trs = PROB_BASE →
  backup nx ny nt st s trs = backup_sum nx nt st s trs / PROB_BASE
  ∧ lo ≤ backup_sum nx nt st s trs / PROB_BASE ≤ hi.
Proof.
  intros Hb Hw Hlo Hhi Hp. pose proof (backup_sum_bounds lo hi trs Hw) as [H1 H2].
  rewrite Hp in H1, H2. consts. unfold backup. rewrite Hb, wrap_u_small by lia.
  rewrite Z.shiftr_div_pow2 by (consts; lia). consts.
  change (2 ^ 18) with 262144. split; [done|].
  split; [apply Z.div_le_lower_bound; lia|].
  enough (backup_sum nx nt st s trs / 262144 < hi + 1) by lia.
  apply Z.div_lt_upper_bound; lia.
Qed.
End expectation.

(** Successor reads depend only on the costs once the static parts agree. *)
Lemma same_static_get st1 st2 i s1 :
  same_static st1 st2 → zget st1 i = Some s1 →
  ∃ s2, zget st2 i = Some s2 ∧ static_part s1 = static_part s2.
Proof.
  intros H H1. specialize (H i). rewrite H1 in H. cbn in H.
  destruct (zget st2 i) as [s2|]; [|done]. injection H as H. eexists. split; [done|].
  unfold static_part. congruence.
Qed.

Lemma same_static_zlen st1 st2 : same_static st1 st2 → zlen st1 = zlen st2.
Proof.
  intros H. pose proof (zlen_nonneg st1). pose proof (zlen_nonneg st2).
  destruct (Z.lt_trichotomy (zlen st1) (zlen st2)) as [Hl|[?|Hl]]; [|done|].
  - destruct (zget_lt st2 (zlen st1) ltac:(lia)) as [s Hs].
    symmetry in H. destruct (same_static_get _ _ _ _ H Hs) as (s' & Hs' & _).
    apply zget_Some_lt in Hs'. lia.
  - destruct (zget_lt st1 (zlen st2) ltac:(lia)) as [s Hs].
    destruct (same_static_get _ _ _ _ H Hs) as (s' & Hs' & _).
    apply zget_Some_lt in Hs'. lia.
Qed.

Lemma blocked_static nx ny nt st1 st2 s tr :
  same_static st1 st2 → blocked nx ny nt st1 s tr = blocked nx ny nt st2 s tr.
Proof.
  intros H. unfold blocked. f_equal. specialize (H (target nx nt s tr)).
  destruct (zget st1 _), (zget st2 _); try done. cbn in H. unfold static_part in H. congruence.
Qed.

(** A backup depends on the cell only through its coordinates. *)
Lemma backup_cell nx ny nt st s s' trs :
  s_ix s' = s_ix s → s_iy s' = s_iy s → backup nx ny nt st s trs = backup nx ny nt st s' trs.
Proof.
  intros Hx Hy. unfold backup.
  assert (existsb (blocked nx ny nt st s) trs = existsb (blocked nx ny nt st s') trs) as ->.
  { induction trs as [|tr trs IH]; [done|]. cbn. rewrite IH. f_equal.
    unfold blocked, inside, target. by rewrite Hx, Hy. }
  assert (backup_sum nx nt st s trs = backup_sum nx nt st s' trs) as ->; [|done].
  induction trs as [|tr trs IH]; [done|]. cbn. rewrite IH. f_equal. f_equal.
  unfold succ_cost, target. by rewrite Hx, Hy.
Qed.

Lemma backup_mono nx ny nt st1 st2 s trs hi :
  same_static st1 st2 →
  (∀ i s1 s2, zget st1 i = Some s1 → zget st2 i = Some s2 →
              s_total_cost s1 ≤ s_total_cost s2) →
  succ_within nx nt st1 s 0 hi trs → succ_within nx nt st2 s 0 hi trs →
  hi < 2 ^ 46 → prob_total trs = PROB_BASE →
  backup nx ny nt st1 s trs ≤ backup nx ny nt st2 s trs.
Proof.
  intros Hst Hle Hw1 Hw2 Hhi Hp.
  assert (existsb (blocked nx ny nt st1 s) trs = existsb (blocked nx ny nt st2 s) trs) as Hb.
  { clear -Hst. induction trs as [|tr trs IH]; [done|]. cbn.
    by rewrite IH, (blocked_static nx ny nt st1 st2) by done. }
  destruct (existsb (blocked nx ny nt st2 s) trs) eqn:Eb.
  { unfold backup. by rewrite Hb, Eb. }
  destruct (backup_exact nx ny nt st1 s 0 hi trs) as [-> _]; [done..|].
  destruct (backup_exact nx ny nt st2 s 0 hi trs) as [-> _]; [done..|].
  apply Z.div_le_mono; [consts; lia|]. clear Hp Hb Eb.
  induction trs as [|tr trs IH]; cbn; [lia|].
  enough (succ_cost nx nt st1 s tr ≤ succ_cost nx nt st2 s tr).
  { destruct (Hw1 tr ltac:(left)) as [_ Hp].
    specialize (IH ltac:(intros ??; apply Hw1; by right) ltac:(intros ??; apply Hw2; by right)).
    pose proof (Z.mul_le_mono_nonneg_r _ _ _ Hp H). lia. }
  unfold succ_cost. destruct (zget st1 _) as [s1|] eqn:E1.
  - destruct (same_static_get _ _ _ _ Hst E1) as (s2 & E2 & Hs). rewrite E2.
    specialize (Hle _ _ _ E1 E2). unfold static_part in Hs. unfold entry_cost.
    injection Hs. lia.
  - specialize (Hst (target nx nt s tr)). rewrite E1 in Hst.
    by destruct (zget st2 _).
Qed.

(** ** Properties *)

(** C2: the cost of an action on a well-formed field.  It is [MAX_COST] when
    some transition leaves the map or enters an occupied cell; otherwise, when
    the successors cost at most [hi < 2^46] and the transition counts add up
    to [PROB_BASE], no [u64] operation wraps and the result is the expected
    successor cost rounded down, which lies between the cheapest and the most
    expensive successor. *)
Theorem action_cost_expectation (vi : ValueIterator) a s i lo hi :
  let '(nx, ny, nt) := (vi_cell_num_x vi, vi_cell_num_y vi, vi_cell_num_t vi) in
  let trs := trans_of a s in
  wf_vi vi → a ∈ vi_actions vi → zget (vi_states vi) i = Some s →
  succ_within nx nt (vi_states vi) s lo hi trs → 0 ≤ lo → hi < 2 ^ 46 →
  prob_total trs = PROB_BASE →
  action_cost vi s a =
    Ok (if existsb (blocked nx ny nt (vi_states vi) s) trs then MAX_COST
        else backup_sum nx nt (vi_states vi) s trs / PROB_BASE)
  ∧ lo ≤ backup_sum nx nt (vi_states vi) s trs / PROB_BASE ≤ hi.
Proof.
  intros [Hd Hst Ha] Hin Hs Hw Hlo Hhi Hp. unfold action_cost.
  rewrite List.Forall_forall in Ha. specialize (Ha a (proj1 (list_elem_of_In _ _) Hin)).
  rewrite (action_cost_raw_eq _ _ _ Hd _ a s i)
    by first [done | by apply (ws_state _ _ _ _ Hst)].
  pose proof (backup_sum_bounds _ _ _ _ lo hi _ Hw) as [H1 H2]. rewrite Hp in H1, H2.
  split.
  - f_equal. destruct (existsb _ _) eqn:Eb; [unfold backup; by rewrite Eb|].
    eapply backup_exact; done.
  - consts. split; [apply Z.div_le_lower_bound; lia|].
    apply Z.lt_succ_r, Z.div_lt_upper_bound; lia.
Qed.

Lemma action_cost_expectation_witness :
  action_cost (corridor 3) (sample_cell MAX_COST 1 false) step_back = Ok PROB_BASE.
Proof.
  edestruct (action_cost_expectation (corridor 3) step_back (sample_cell MAX_COST 1 false)
    1 0 (2 ^ 45)) as [-> _].
  - apply check_vi_ok. reflexivity.
  - left.
  - reflexivity.
  - intros tr ->%list_elem_of_singleton. vm_compute. repeat split; discriminate.
  - lia.
  - lia.
  - reflexivity.
  - reflexivity.
Defined.

(** C1: a Bellman update is an argmin.  On a free non-goal cell
    [value_iteration_at] stores the first action whose cost is the strict
    minimum below [MAX_COST] (or [MAX_COST] and no action when there is none)
    and changes nothing else; on any other cell it changes nothing. *)
Theorem value_iteration_at_argmin (vi : ValueIterator) i s costs :
  wf_vi vi → zget (vi_states vi) i = Some s →
  Forall2 (fun a c => action_cost vi s a = Ok c) (vi_actions vi) costs →
  ∃ vi' d, value_iteration_at vi i = Ok (vi', d) ∧
    (if s_free s && negb (s_final_state s)
     then ∃ m o, is_argmin MAX_COST costs m o ∧
            vi' = with_states vi (zset (vi_states vi) i (with_value s m o))
     else vi' = with_states vi (vi_states vi) ∧ d = 0).
Proof.
  intros [Hd Hst Ha] Hs Hc. unfold value_iteration_at.
  rewrite (value_iteration_raw_eq _ _ _ _ Hd Ha) by (done || by eapply zget_Some_lt).
  rewrite ok_bind. eexists _, _. split; [done|]. cbn.
  assert (action_costs (vi_cell_num_x vi) (vi_cell_num_y vi) (vi_cell_num_t vi)
            (vi_actions vi) (vi_states vi) s = costs) as Hcosts.
  { unfold action_costs. clear -Hd Hst Hs Hc Ha. revert Ha.
    induction Hc as [|a c acts cs Hac Hc IH]; intros Ha; [done|].
    inversion_clear Ha. cbn. rewrite IH by done. f_equal.
    unfold action_cost in Hac. erewrite action_cost_raw_eq in Hac; [|done..|].
    - by injection Hac.
    - by apply (ws_state _ _ _ _ Hst). }
  unfold update, delta. rewrite Hs. fold (updatable s). destruct (updatable s); [|done].
  eexists _, _. split; [|done]. rewrite <- Hcosts. apply argmin_from_spec.
Qed.

Lemma value_iteration_at_argmin_witness :
  ∃ vi' d, value_iteration_at (corridor 3) 1 = Ok (vi', d) ∧
  ∃ m o, is_argmin MAX_COST [PROB_BASE; 194693633 * PROB_BASE] m o ∧
    vi' = with_states (corridor 3)
            (zset (vi_states (corridor 3)) 1 (with_value (sample_cell MAX_COST 1 false) m o)).
Proof.
  apply (value_iteration_at_argmin (corridor 3) 1 (sample_cell MAX_COST 1 false)
           [PROB_BASE; 194693633 * PROB_BASE]).
  - apply check_vi_ok. reflexivity.
  - reflexivity.
  - repeat constructor.
Defined.

(** C28: a Bellman update is safe.  On a well-formed planner no update of a
    cell of the field panics; it preserves well-formedness, leaves every other
    cell and every penalty, flag and coordinate alone, keeps the geometry and
    the actions, and returns 0 exactly when the stored value did not move. *)
Theorem value_iteration_at_safe (vi : ValueIterator) i :
  wf_vi vi → 0 ≤ i < zlen (vi_states vi) →
  ∃ vi' d, value_iteration_at vi i = Ok (vi', d) ∧ wf_vi vi' ∧
    vi' = with_states vi (vi_states vi') ∧
    same_static (vi_states vi') (vi_states vi) ∧
    (∀ j, j ≠ i → zget (vi_states vi') j = zget (vi_states vi) j) ∧
    (d = 0 ↔ s_total_cost <$> zget (vi_states vi') i = s_total_cost <$> zget (vi_states vi) i).
Proof.
  intros [Hd Hst Ha] Hi. unfold value_iteration_at.
  rewrite (value_iteration_raw_eq _ _ _ _ Hd Ha) by done. rewrite ok_bind.
  eexists _, _. split; [done|]. cbn. split; [|split; [done|split; [|split]]].
  - split; cbn; try done. by apply update_wf.
  - apply update_static.
  - intros j Hj. by apply update_other.
  - destruct (zget_lt _ _ Hi) as [s Hs]. rewrite (update_self _ _ _ _ _ _ s Hs), Hs.
    unfold delta. rewrite Hs. destruct (updatable s); cbn; [|done].
    rewrite Z.abs_0_iff. split; [intros; f_equal; lia|intros [= ?]; lia].
Qed.

Lemma value_iteration_at_safe_witness :
  ∃ vi' d, value_iteration_at (corridor 3) 2 = Ok (vi', d) ∧ wf_vi vi'.
Proof.
  destruct (value_iteration_at_safe (corridor 3) 2) as (vi' & d & H1 & H2 & _).
  - apply check_vi_ok. reflexivity.
  - vm_compute. split; [discriminate|reflexivity].
  - exists vi', d. split; assumption.
Defined.

(** The Bellman operator is monotone as long as no accumulator wraps.  Two
    fields that differ only in values and policies, the first below the
    second, with every successor of the cell cheaper than [2^46] and action
    counts adding up to [PROB_BASE]: the minimum over the first is at most the
    minimum over the second. *)
Theorem min_action_cost_monotone nx ny nt acts st1 st2 i s1 s2 hi :
  dims_ok nx ny nt → Forall (wf_action nt) acts →
  wf_states nx ny nt st1 → wf_states nx ny nt st2 → same_static st1 st2 →
  (∀ j a b, zget st1 j = Some a → zget st2 j = Some b → s_total_cost a ≤ s_total_cost b) →
  zget st1 i = Some s1 → zget st2 i = Some s2 → updatable s1 = true →
  (∀ a, a ∈ acts → succ_within nx nt st1 s1 0 hi (trans_of a s1)
                 ∧ succ_within nx nt st2 s1 0 hi (trans_of a s1)
                 ∧ prob_total (trans_of a s1) = PROB_BASE) →
  hi < 2 ^ 46 →
  ∃ m1 o1 m2 o2,
    min_action_cost st1 acts i nx ny nt = Ok (Some (m1, o1)) ∧
    min_action_cost st2 acts i nx ny nt = Ok (Some (m2, o2)) ∧ m1 ≤ m2.
Proof.
  intros Hd Ha Hst1 Hst2 Hss Hle Hs1 Hs2 Hup Hno Hhi.
  assert (updatable s2 = true ∧ s_ix s2 = s_ix s1 ∧ s_iy s2 = s_iy s1 ∧ s_it s2 = s_it s1)
    as (Hup2 & Hx & Hy & Ht).
  { specialize (Hss i). rewrite Hs1, Hs2 in Hss. unfold static_part in Hss. cbn in Hss.
    unfold updatable in *. injection Hss as ? ? ? ? ? Hf Hfin. by rewrite <- Hf, <- Hfin. }
  rewrite (min_action_cost_eq _ _ _ _ Hd Ha st1 i s1) by done.
  rewrite (min_action_cost_eq _ _ _ _ Hd Ha st2 i s2) by done.
  rewrite Hup, Hup2.
  eexists _, _, _, _. rewrite <- !surjective_pairing. split; [done|]. split; [done|].
  pose proof (argmin_from_spec MAX_COST (action_costs nx ny nt acts st1 s1)) as (Hb1 & Hmin1 & _).
  pose proof (argmin_from_spec MAX_COST (action_costs nx ny nt acts st2 s2)) as (_ & _ & Ho2).
  fold (bellman nx ny nt acts st1 s1) (bellman nx ny nt acts st2 s2) in *.
  destruct (bellman nx ny nt acts st2 s2) as [m2 [k|]]; cbn in *; [|lia].
  destruct Ho2 as (Hk & _ & _). unfold action_costs in Hk. rewrite zget_fmap in Hk.
  destruct (zget acts k) as [a|] eqn:Ea; [|done]. injection Hk as Hk.
  assert (a ∈ acts) as Hin.
  { unfold zget in Ea. case_decide; [|done]. by eapply list_elem_of_lookup_2. }
  transitivity (backup nx ny nt st1 s1 (trans_of a s1)).
  { apply Hmin1. unfold action_costs. apply list_elem_of_fmap. by exists a. }
  subst m2. rewrite <- (backup_cell nx ny nt st2 s1 s2) by done.
  unfold trans_of in *. rewrite Ht.
  destruct (Hno a Hin) as (? & ? & ?). by eapply backup_mono.
Qed.

Lemma min_action_cost_monotone_witness :
  ∃ m1 o1 m2 o2,
    min_action_cost [sample_cell 0 0 true; sample_cell 7 1 false] [step_back] 1 2 1 1
      = Ok (Some (m1, o1)) ∧
    min_action_cost [sample_cell 5 0 true; sample_cell 9 1 false] [step_back] 1 2 1 1
      = Ok (Some (m2, o2)) ∧ m1 ≤ m2.
Proof.
  set (st1 := [sample_cell 0 0 true; sample_cell 7 1 false]).
  set (st2 := [sample_cell 5 0 true; sample_cell 9 1 false]).
  assert (wf_vi (sample_vi 2 1 1 [step_back] st1)) as [Hd Hst1 Ha] by by apply check_vi_ok.
  assert (wf_vi (sample_vi 2 1 1 [step_back] st2)) as [_ Hst2 _] by by apply check_vi_ok.
  apply (min_action_cost_monotone 2 1 1 [step_back] st1 st2 1
           (sample_cell 7 1 false) (sample_cell 9 1 false) (2 ^ 20)); try assumption.
  - intros j. unfold zget. case_decide; [|done].
    destruct (Z.to_nat j) as [|[|?]]; reflexivity.
  - intros j a b. unfold zget. case_decide; [|done].
    destruct (Z.to_nat j) as [|[|?]]; intros [= <-] [= <-]; vm_compute; discriminate.
  - reflexivity.
  - reflexivity.
  - reflexivity.
  - intros a ->%list_elem_of_singleton.
    split; [|split; [|reflexivity]]; intros tr ->%list_elem_of_singleton;
      vm_compute; repeat split; discriminate.
  - lia.
Defined.

(** C29: the [u64] accumulator does wrap.  When every successor of a free cell
    is unreached ([MAX_COST], base penalty), the cost of the action is not
    [MAX_COST] but [194693633 * PROB_BASE], a finite value below [MAX_COST]:
    an unreached cell takes a value and a policy from unreached neighbours. *)
Theorem action_cost_unreached (vi : ValueIterator) a s i :
  let '(nx, ny, nt) := (vi_cell_num_x vi, vi_cell_num_y vi, vi_cell_num_t vi) in
  let trs := trans_of a s in
  wf_vi vi → a ∈ vi_actions vi → zget (vi_states vi) i = Some s →
  existsb (blocked nx ny nt (vi_states vi) s) trs = false →
  (∀ tr, tr ∈ trs → succ_cost nx nt (vi_states vi) s tr = MAX_COST + PROB_BASE) →
  prob_total trs = PROB_BASE →
  action_cost vi s a = Ok (194693633 * PROB_BASE) ∧ 194693633 * PROB_BASE < MAX_COST.
Proof.
  intros [Hd Hst Ha] Hin Hs Hb Hu Hp. unfold action_cost.
  rewrite List.Forall_forall in Ha. specialize (Ha a (proj1 (list_elem_of_In _ _) Hin)).
  rewrite (action_cost_raw_eq _ _ _ Hd _ a s i)
    by first [done | by apply (ws_state _ _ _ _ Hst)].
  split; [|consts; lia]. f_equal. unfold backup. rewrite Hb.
  assert (∀ l, (∀ tr, tr ∈ l → succ_cost (vi_cell_num_x vi) (vi_cell_num_t vi)
                                 (vi_states vi) s tr = MAX_COST + PROB_BASE) →
    backup_sum (vi_cell_num_x vi) (vi_cell_num_t vi) (vi_states vi) s l
      = (MAX_COST + PROB_BASE) * prob_total l) as Hsum.
  { induction l as [|tr l IH]; intros Hl; cbn; [lia|].
    rewrite IH by (intros; apply Hl; by right). rewrite Hl by left. unfold prob_total. lia. }
  rewrite (Hsum _ Hu), Hp. reflexivity.
Qed.

Lemma action_cost_unreached_witness :
  action_cost (corridor 3) (sample_cell MAX_COST 2 false) step_back
    = Ok (194693633 * PROB_BASE).
Proof.
  apply (action_cost_unreached (corridor 3) step_back (sample_cell MAX_COST 2 false) 2).
  - apply check_vi_ok. reflexivity.
  - left.
  - reflexivity.
  - reflexivity.
  - intros tr ->%list_elem_of_singleton. reflexivity.
  - reflexivity.
Defined.
