(* ===== verification/Observe.v ===== *)
(** * Observing and stopping a solve (vi_lib/src/solvers/observe.rs)

    The observer trait as a record of operations over a state of its own, the
    outcome of a solve, the pacer that spaces the boundary calls and the
    wrapper that shifts the reported progress of a later phase. *)

From Stdlib Require Import ZArith Lia.
From stdpp Require Import base list numbers.
From S2P Require Import Prelude Floats Model.

Inductive SolveFlow : Type := Continue | Stop | Cancel.

#[global] Instance SolveFlow_eq_dec : EqDecision SolveFlow.
Proof. solve_decision. Defined.

(** What a boundary call may look at. *)
Record SolveProbe : Type := {
  p_iters : Z; p_updates : Z; p_policy : ValueIterator
}.

Definition with_policy (pr : SolveProbe) (v : ValueIterator) : SolveProbe :=
  {| p_iters := p_iters pr; p_updates := p_updates pr; p_policy := v |}.

(** [&mut dyn SolveObserver]: the state of the observer is threaded.  [ob_looks]
    says whether the call asks for [policy()], which writes the field of a solver
    with a layout of its own; a call that does not cannot depend on the field. *)
Record SolveObserver (S : Type) : Type := {
  ob_interval : S → Z;
  ob_looks : S → Z → Z → bool;
  ob_boundary : S → SolveProbe → S * SolveFlow;
  ob_blind : ∀ o pr v, ob_looks o (p_iters pr) (p_updates pr) = false →
    ob_boundary o (with_policy pr v) = ob_boundary o pr
}.
Arguments ob_interval {S} _ _.
Arguments ob_looks {S} _ _ _ _.
Arguments ob_boundary {S} _ _ _.
Arguments ob_blind {S} _ _ _ _ _.

Definition NullObserver : SolveObserver unit :=
  {| ob_interval := fun _ => U32_MAX; ob_looks := fun _ _ _ => false;
     ob_boundary := fun o _ => (o, Continue); ob_blind := fun _ _ _ _ => eq_refl |}.

Record SolveOutcome : Type := {
  so_iters : Z; so_updates : Z; so_converged : bool; so_stopped : bool; so_cancelled : bool
}.

Definition running (iters updates : Z) (converged : bool) : SolveOutcome :=
  {| so_iters := iters; so_updates := updates; so_converged := converged;
     so_stopped := false; so_cancelled := false |}.
Definition stopped (iters updates : Z) : SolveOutcome :=
  {| so_iters := iters; so_updates := updates; so_converged := false;
     so_stopped := true; so_cancelled := false |}.
Definition cancelled (iters updates : Z) : SolveOutcome :=
  {| so_iters := iters; so_updates := updates; so_converged := false;
     so_stopped := false; so_cancelled := true |}.

(** ** BoundaryPacer *)

Record BoundaryPacer : Type := mkPacer { bp_next : Z; bp_interval : Z }.

Definition pacer_new {S} (obs : SolveObserver S) (o : S) : BoundaryPacer :=
  let interval := as_u64 (Z.max (ob_interval obs o) 1) in mkPacer interval interval.

Definition due (p : BoundaryPacer) (iters : Z) : bool * BoundaryPacer :=
  if iters >=? bp_next p
  then (true, mkPacer (u64_sat_add iters (bp_interval p)) (bp_interval p))
  else (false, p).

(** The boundary block every in-place solver ends a round with:
    [if pacer.due(iters) { match obs.boundary(&mut probe) { .. } }].  [None]
    means the solve goes on. *)
Definition at_boundary {S} (obs : SolveObserver S) (vi : ValueIterator)
    (iters updates : Z) (p : BoundaryPacer) (o : S)
    : BoundaryPacer * S * option SolveOutcome :=
  let '(d, p') := due p iters in
  if d then
    let '(o', flow) := ob_boundary obs o
      {| p_iters := iters; p_updates := updates; p_policy := vi |} in
    (p', o', match flow with
             | Continue => None
             | Stop => Some (stopped iters updates)
             | Cancel => Some (cancelled iters updates)
             end)
  else (p', o, None).

(** ** OffsetObserver *)

Definition OffsetObserver {S} (inner : SolveObserver S) (iters_offset updates_offset : Z)
    : SolveObserver S :=
  {| ob_interval := ob_interval inner;
     ob_boundary := fun o probe =>
       ob_boundary inner o
         {| p_iters := u32_sat_add (p_iters probe) iters_offset;
            p_updates := u64_sat_add (p_updates probe) updates_offset;
            p_policy := p_policy probe |};
     ob_looks := fun o iters updates =>
       ob_looks inner o (u32_sat_add iters iters_offset) (u64_sat_add updates updates_offset);
     ob_blind := fun o probe v H =>
       ob_blind inner o {| p_iters := u32_sat_add (p_iters probe) iters_offset;
                           p_updates := u64_sat_add (p_updates probe) updates_offset;
                           p_policy := p_policy probe |} v H |}.

(** ** MaterializeProbe *)

(** The boundary of a solver that keeps its values in a layout of its own: the
    planner is written only when the observer asks for the policy. *)
Definition materialize_boundary {S} (obs : SolveObserver S) (materialize : ValueIterator → res ValueIterator)
    (iters updates : Z) (b : ValueIterator * S) : res ((ValueIterator * S) * SolveFlow) :=
  let '(vi, o) := b in
  vi ← (if ob_looks obs o iters updates then materialize vi else Ok vi);
  let '(o, flow) := ob_boundary obs o {| p_iters := iters; p_updates := updates; p_policy := vi |} in
  Ok ((vi, o), flow).

(** ** Lemmas *)

(** The answer is the one to the field [policy()] shows, asked for or not. *)
Lemma materialize_shown {S} (obs : SolveObserver S) materialize iters updates vi o v o1 flow :
  materialize_boundary obs materialize iters updates (vi, o) = Ok ((v, o1), flow) →
  (materialize vi = Ok v ∨ v = vi) ∧
  ∀ shown, materialize vi = Ok shown →
    ob_boundary obs o {| p_iters := iters; p_updates := updates; p_policy := shown |} = (o1, flow).
Proof.
  unfold materialize_boundary. destruct (ob_looks _ _ _ _) eqn:El.
  - intros (w & Ew & H)%bind_ok. destruct (ob_boundary _ _ _) as [o2 f2] eqn:Eb. injection H as <- <- <-.
    split; [by left|]. intros shown Es. rewrite Ew in Es. by injection Es as <-.
  - rewrite ok_bind. set (pr := {| p_iters := iters; p_updates := updates; p_policy := vi |}).
    destruct (ob_boundary obs o pr) as [o2 f2] eqn:Eb. intros H. injection H as <- <- <-.
    split; [by right|]. intros shown _. rewrite <- Eb. exact (ob_blind obs o pr shown El).
Qed.

(** When the layout can be written, the call returns. *)
Lemma materialize_returns {S} (obs : SolveObserver S) materialize iters updates vi o shown :
  materialize vi = Ok shown →
  ∃ v o1 flow, materialize_boundary obs materialize iters updates (vi, o) = Ok ((v, o1), flow) ∧
    (v = shown ∨ v = vi).
Proof.
  intros E. unfold materialize_boundary.
  destruct (ob_looks _ _ _ _); rewrite ?E, ok_bind; destruct (ob_boundary _ _ _) as [o1 flow];
    eexists _, o1, flow; (split; [done|]); [by left|by right].
Qed.

(** The answers of the pacer over a sequence of iteration counters. *)
Fixpoint due_trace (p : BoundaryPacer) (iters : list Z) : list bool :=
  match iters with
  | [] => []
  | i :: rest => let '(d, p') := due p i in d :: due_trace p' rest
  end.

Lemma due_trace_from k c n m :
  0 < k → 0 ≤ c → 0 ≤ m → c * k ≤ n < (c + 1) * k → n + m + k < 2 ^ 64 →
  due_trace (mkPacer ((c + 1) * k) k) (seqZ (n + 1) m) =
  (fun i => i mod k =? 0) <$> seqZ (n + 1) m.
Proof.
  intros Hk Hc Hm. revert c n Hc. pattern m. apply natlike_ind; [done| |done].
  clear m Hm. intros m Hm IH c n Hc Hn Hb.
  rewrite seqZ_cons by lia. rewrite Z.pred_succ. cbn [due_trace fmap list_fmap].
  unfold due. cbn [bp_next bp_interval]. rewrite Z.geb_leb.
  destruct (Z.leb_spec ((c + 1) * k) (n + 1)) as [Hle|Hlt].
  - assert (n + 1 = (c + 1) * k) as En by lia.
    assert ((n + 1) mod k = 0) as -> by (rewrite En; apply Z.mod_mul; lia).
    cbn. f_equal.
    replace (u64_sat_add (n + 1) k) with ((c + 1 + 1) * k)
      by (unfold u64_sat_add, U64_MAX; lia).
    apply (IH (c + 1) (n + 1)); lia.
  - rewrite <- (Z.mod_unique (n + 1) k c (n + 1 - c * k)) by lia.
    destruct (Z.eqb_spec (n + 1 - c * k) 0); [lia|]. f_equal.
    apply (IH c (n + 1)); lia.
Qed.

Lemma due_fields p i :
  (due p i).1 = (i >=? bp_next p) ∧ bp_interval (due p i).2 = bp_interval p.
Proof. unfold due. by destruct (i >=? bp_next p). Qed.

(** ** Properties *)

(** A solver that counts its rounds 1, 2, 3, ... reaches a boundary exactly
    at the multiples of the observer's interval (an interval of 0 counts as 1). *)
Theorem pacer_schedule {S} (obs : SolveObserver S) o n :
  0 ≤ ob_interval obs o < 2 ^ 32 → 0 ≤ n < 2 ^ 32 →
  due_trace (pacer_new obs o) (seqZ 1 n)
  = (fun i => i mod Z.max (ob_interval obs o) 1 =? 0) <$> seqZ 1 n.
Proof.
  intros Ho Hn. unfold pacer_new. rewrite as_u64_small by (unfold in_u64; lia).
  pose proof (due_trace_from (Z.max (ob_interval obs o) 1) 0 0 n) as H.
  rewrite Z.mul_1_l in H. apply H; lia.
Qed.

Definition every_third : SolveObserver unit :=
  {| ob_interval := fun _ => 3; ob_looks := fun _ _ _ => false;
     ob_boundary := fun o _ => (o, Continue); ob_blind := fun _ _ _ _ => eq_refl |}.

Lemma pacer_schedule_witness :
  due_trace (pacer_new every_third ()) (seqZ 1 7)
  = [false; false; true; false; false; true; false].
Proof.
  rewrite (pacer_schedule every_third () 7); cbn.
  - reflexivity.
  - lia.
  - lia.
Defined.
