(* ===== verification/Consistency.v ===== *)
(** * Bellman consistency of a field under asynchronous updates

    The argument every solver of the crate rests on: a cell is stale only
    while some cell it reads has moved since it was last updated.  A solver
    that re-evaluates every reader of a moved cell and stops when nothing
    moves leaves every cell equal to its own backup.  [pending_inv] states
    this for one update at a time; the sweeping solver (Original.v) and the
    active-set solvers (Frontier.v, Stack.v, Block.v) instantiate it. *)

From Stdlib Require Import ZArith Lia.
From stdpp Require Import base list numbers.
From S2P Require Import Prelude Floats Model Bellman.

Section consistency.
Context (nx ny nt : Z) (acts : list Action).
Context (Hd : dims_ok nx ny nt) (Ha : Forall (wf_action nt) acts).

(** The cells an update of [s] reads the value of. *)
Definition reads (st : list State) (s : State) : list Z :=
  acts ≫= fun a => if existsb (blocked nx ny nt st s) (trans_of a s) then []
                   else target nx nt s <$> trans_of a s.

Lemma elem_of_reads st s j :
  j ∈ reads st s ↔ ∃ a tr, a ∈ acts ∧ tr ∈ trans_of a s ∧ j = target nx nt s tr
                     ∧ existsb (blocked nx ny nt st s) (trans_of a s) = false.
Proof.
  unfold reads. rewrite list_elem_of_bind. split.
  - intros (a & Hj & Hin). destruct (existsb _ _) eqn:E; [by apply elem_of_nil in Hj|].
    apply list_elem_of_fmap in Hj as (tr & -> & Htr). eauto 8.
  - intros (a & tr & Hin & Htr & -> & E). exists a. rewrite E. split; [|done].
    by apply list_elem_of_fmap_2.
Qed.

Definition cost_at (st : list State) (j : Z) : option Z := s_total_cost <$> zget st j.

(** The stored value and action are the ones a new update would store. *)
Definition consistent (st : list State) (s : State) : Prop :=
  bellman nx ny nt acts st s = (s_total_cost s, s_optimal_action s).

Lemma existsb_blocked_static st1 st2 s trs :
  same_static st1 st2 →
  existsb (blocked nx ny nt st1 s) trs = existsb (blocked nx ny nt st2 s) trs.
Proof.
  intros H. induction trs as [|tr trs IH]; [done|]. cbn.
  by rewrite IH, (blocked_static nx ny nt st1 st2) by done.
Qed.

Lemma reads_static st1 st2 s : same_static st1 st2 → reads st1 s = reads st2 s.
Proof.
  intros H. unfold reads. clear Ha; induction acts as [|a l IH]; [done|].
  rewrite !bind_cons, IH, (existsb_blocked_static st1 st2); done.
Qed.

Lemma succ_cost_agree st1 st2 s tr :
  same_static st1 st2 →
  cost_at st1 (target nx nt s tr) = cost_at st2 (target nx nt s tr) →
  succ_cost nx nt st1 s tr = succ_cost nx nt st2 s tr.
Proof.
  intros H Hc. unfold succ_cost, cost_at in *. specialize (H (target nx nt s tr)).
  destruct (zget st1 _), (zget st2 _); try done. cbn in *. unfold entry_cost.
  injection Hc as ->. unfold static_part in H. injection H. lia.
Qed.

(** A backup depends on the field only through the values it reads. *)
Lemma bellman_local st1 st2 s :
  same_static st1 st2 →
  (∀ j, j ∈ reads st1 s → cost_at st1 j = cost_at st2 j) →
  bellman nx ny nt acts st1 s = bellman nx ny nt acts st2 s.
Proof.
  intros H Hr. unfold bellman. f_equal. unfold action_costs.
  apply list_fmap_ext. intros k a Hk%list_elem_of_lookup_2. unfold backup.
  rewrite <- (existsb_blocked_static st1 st2) by done.
  destruct (existsb _ _) eqn:Eb; [done|]. do 2 f_equal.
  assert (∀ l, (∀ tr, tr ∈ l → tr ∈ trans_of a s) →
    backup_sum nx nt st1 s l = backup_sum nx nt st2 s l) as Hsum; [|by apply Hsum].
  induction l as [|tr l IH]; intros Hl; [done|]. cbn.
  rewrite IH by (intros; apply Hl; by right). f_equal. f_equal.
  apply succ_cost_agree; [done|]. apply Hr, elem_of_reads. exists a, tr.
  split; [done|]. split; [apply Hl; by left|done].
Qed.

(** The values and the coordinates are all a backup looks at. *)
Lemma bellman_cell st s s' :
  static_part s = static_part s' → bellman nx ny nt acts st s = bellman nx ny nt acts st s'.
Proof.
  unfold static_part. intros [= ? ? Hx Hy Ht ? ?]. unfold bellman, action_costs. f_equal.
  apply list_fmap_ext. intros k a _. unfold trans_of. rewrite Ht.
  by apply backup_cell.
Qed.

Lemma reads_cell st s s' : static_part s = static_part s' → reads st s = reads st s'.
Proof.
  unfold static_part. intros [= ? ? Hx Hy Ht ? ?]. unfold reads.
  assert (∀ l, existsb (blocked nx ny nt st s) l = existsb (blocked nx ny nt st s') l) as Hb.
  { induction l as [|t l IH]; [done|]. cbn. rewrite IH. f_equal.
    unfold blocked, inside, target. by rewrite Hx, Hy. }
  clear Ha; induction acts as [|a l IH]; [done|]. rewrite !bind_cons, IH. f_equal.
  unfold trans_of. rewrite Ht, Hb. destruct (existsb _ _); [done|].
  apply list_fmap_ext. intros ? ? _. unfold target. by rewrite Hx, Hy.
Qed.

(** ** One update *)

Lemma cost_update_ne st i j : i ≠ j → cost_at (update nx ny nt acts st i) j = cost_at st j.
Proof. intros. unfold cost_at. by rewrite update_other. Qed.

Lemma updatable_static s s' : static_part s = static_part s' → updatable s = updatable s'.
Proof. unfold static_part, updatable. by intros [= _ _ _ _ _ -> ->]. Qed.

Lemma with_value_static s v o : static_part (with_value s v o) = static_part s.
Proof. done. Qed.

(** [delta] is 0 exactly when the stored cost did not move. *)
Lemma delta_zero st i :
  delta nx ny nt acts st i = 0 ↔
  cost_at (update nx ny nt acts st i) i = cost_at st i.
Proof.
  unfold cost_at, delta. destruct (zget st i) as [s|] eqn:Hs.
  - rewrite (update_self _ _ _ _ _ _ s Hs). destruct (updatable s); cbn; [|done].
    rewrite Z.abs_0_iff. split; [intros; f_equal; lia|intros [= ?]; lia].
  - unfold update. by rewrite Hs, Hs.
Qed.

Lemma delta_nonneg st i : 0 ≤ delta nx ny nt acts st i.
Proof. unfold delta. destruct (zget st i) as [s|]; [|done]. destruct (updatable s); lia. Qed.

(** The cell of [st] at [i] after an update of any cell. *)
Lemma update_get st k i s' :
  zget (update nx ny nt acts st k) i = Some s' →
  ∃ s, zget st i = Some s ∧ static_part s' = static_part s ∧ (i ≠ k → s' = s).
Proof.
  destruct (decide (k = i)) as [->|Hne].
  - destruct (zget st i) as [s|] eqn:Hs.
    + rewrite (update_self _ _ _ _ _ _ s Hs). intros [= <-]. exists s.
      split; [done|]. split; [by destruct (updatable s)|done].
    + unfold update. rewrite Hs, Hs. done.
  - rewrite update_other by done. intros Hs. by exists s'.
Qed.

(** ** The active-set invariant

    [start] is the field the solver started from, [moved] the cells recorded
    as moved in the current round, [todo] the cells this round has still to
    visit because of the cells [prev] moved in the previous one. *)

(** Never evaluated, and reading unreached cells only. *)
Definition fresh (start st : list State) (i : Z) (s : State) : Prop :=
  zget start i = Some s ∧ ∀ j, j ∈ reads st s → cost_at st j = Some MAX_COST.

Definition pending_inv (start st : list State) (prev todo moved : Z → Prop) : Prop :=
  ∀ i s, zget st i = Some s → updatable s = true →
    consistent st s
    ∨ (∃ j, j ∈ reads st s ∧ moved j)
    ∨ (todo i ∧ ∃ j, j ∈ reads st s ∧ prev j)
    ∨ fresh start st i s.

Lemma pending_inv_weaken start st (prev todo moved prev' todo' moved' : Z → Prop) :
  pending_inv start st prev todo moved →
  (∀ j, moved j → moved' j) → (∀ i, todo i → todo' i) → (∀ j, prev j → prev' j) →
  pending_inv start st prev' todo' moved'.
Proof.
  intros H Hm Ht Hp i s Hs Hu. destruct (H i s Hs Hu) as [?|[(j & ? & ?)|[(? & j & ? & ?)|?]]].
  - by left.
  - right; left. eauto.
  - right; right; left. eauto 6.
  - by do 3 right.
Qed.

(** Updating cell [k] and recording it when its value moved. *)
Lemma pending_inv_update start st (prev todo todo' moved moved' : Z → Prop) k :
  pending_inv start st prev todo moved →
  (∀ i, todo i → i = k ∨ todo' i) →
  (∀ j, moved j → moved' j) →
  (delta nx ny nt acts st k ≠ 0 → moved' k) →
  pending_inv start (update nx ny nt acts st k) prev todo' moved'.
Proof.
  intros Hinv Htodo Hmoved Hk i s' Hi Hu.
  pose proof (update_static nx ny nt acts st k) as Hstat.
  set (st' := update nx ny nt acts st k) in *.
  destruct (update_get st k i s' Hi) as (s & Hs & Hss & Heq).
  assert (updatable s = true) as Hus by (by rewrite <- (updatable_static s' s)).
  assert (reads st' s' = reads st s) as Hreads.
  { rewrite (reads_cell st' s' s) by done. by apply reads_static. }
  assert ((k ∈ reads st s ∧ moved' k) ∨ ∀ j, j ∈ reads st s → cost_at st j = cost_at st' j)
    as [[Hr Hm]|Hsame].
  { destruct (decide (delta nx ny nt acts st k = 0)) as [H0|H0].
    - right. intros j _. destruct (decide (k = j)) as [->|].
      + symmetry. by apply delta_zero.
      + symmetry. by apply cost_update_ne.
    - destruct (decide (k ∈ reads st s)) as [?|Hno]; [by left; auto|].
      right. intros j Hj. symmetry. apply cost_update_ne. by intros ->. }
  { right; left. exists k. by rewrite Hreads. }
  assert (bellman nx ny nt acts st' s' = bellman nx ny nt acts st s) as Hbel.
  { rewrite (bellman_cell st' s' s) by done. symmetry. by apply bellman_local. }
  destruct (decide (i = k)) as [->|Hik].
  { left. unfold consistent. rewrite Hbel. unfold st' in Hi.
    rewrite (update_self _ _ _ _ _ _ s Hs), Hus in Hi. injection Hi as <-.
    cbn. by destruct (bellman nx ny nt acts st s). }
  rewrite (Heq Hik) in *. clear Heq.
  destruct (Hinv i s Hs Hu) as [Hc|[(j & Hr & Hm)|[(Ht & j & Hr & Hp)|[Hf1 Hf2]]]].
  - left. unfold consistent. by rewrite Hbel.
  - right; left. exists j. rewrite Hreads. auto.
  - right; right; left. rewrite Hreads. split; [by destruct (Htodo i Ht)|]. eauto.
  - do 3 right. split; [done|]. intros j Hr. rewrite Hreads in Hr.
    rewrite <- Hsame by done. by apply Hf2.
Qed.
End consistency.
