(* ===== verification/Original.v ===== *)
(** * The reference solver (vi_lib/src/solvers/original, stream.rs, and
    [set_sweep_orders] of value_iterator.rs)

    Full Gauss-Seidel sweeps in a precomputed order, repeated until no
    reachable cell moves.  A sweep is a fold of single-cell updates; a solve
    that reports convergence leaves every cell whose successors are reached
    equal to its own Bellman backup. *)

From Stdlib Require Import ZArith Lia.
From stdpp Require Import base gmap strings list numbers.
From S2P Require Import Prelude Floats Model Bellman Observe Consistency.

(** ** Sweep orders *)

Definition set_sweep_orders (vi : ValueIterator) : ValueIterator :=
  match vi_sweep_orders vi with
  | _ :: _ => vi
  | [] =>
      let '(nx, ny, nt) := (vi_cell_num_x vi, vi_cell_num_y vi, vi_cell_num_t vi) in
      let o0 := y ← seqZ 0 ny; x ← seqZ 0 nx; (fun t => to_index vi x y t) <$> seqZ 0 nt in
      let o1 := x ← seqZ 0 nx; y ← seqZ 0 ny; (fun t => to_index vi x y t) <$> seqZ 0 nt in
      let half := (length o0 / 2)%nat in
      with_sweep_orders vi
        [o0; o1; reverse o0; reverse o1;
         take half o0 ++ drop half o0 ++ drop half o1;
         take half o1]
  end.

(** ** worker.rs: [value_iteration_worker], [finished], [run_value_iteration] *)

Definition with_sweep_step (st : SweepWorkerStatus) (j : Z) : SweepWorkerStatus :=
  {| sw_finished := sw_finished st; sw_sweep_step := j; sw_delta := sw_delta st |}.
Definition with_delta (st : SweepWorkerStatus) (d : f64) : SweepWorkerStatus :=
  {| sw_finished := sw_finished st; sw_sweep_step := sw_sweep_step st; sw_delta := d |}.
Definition with_finished (st : SweepWorkerStatus) : SweepWorkerStatus :=
  {| sw_finished := true; sw_sweep_step := sw_sweep_step st; sw_delta := sw_delta st |}.

Definition alter_status (f : SweepWorkerStatus → SweepWorkerStatus) (id : Z)
    (vi : ValueIterator) : ValueIterator :=
  with_thread_status vi (alter f id (vi_thread_status vi)).

(** One pass over an order; returns the largest [|delta|]. *)
Definition sweep (order : list Z) (vi : ValueIterator) : res (ValueIterator * Z) :=
  for_each order (fun i acc =>
    r ← value_iteration_at acc.1 i;
    Ok (r.1, Z.max acc.2 r.2)) (vi, 0).

Definition interrupted (vi : ValueIterator) : bool :=
  bool_decide (vi_status vi = "canceled"%string) || bool_decide (vi_status vi = "goal"%string).

(** [for j in j0..times], with [n] iterations left *)
Fixpoint worker_loop (n : nat) (j : Z) (id : Z) (order : list Z) (vi : ValueIterator)
    : res ValueIterator :=
  match n with
  | O => Ok vi
  | S n =>
      r ← sweep order (alter_status (fun st => with_sweep_step st (j + 1)) id vi);
      let vi' := alter_status
        (fun st => with_delta st (f64_of_Z (Z.shiftr r.2 PROB_BASE_BIT))) id r.1 in
      if interrupted vi' then Ok vi' else worker_loop n (j + 1) id order vi'
  end.

Definition value_iteration_worker (vi : ValueIterator) (times id : Z) : res ValueIterator :=
  let vi := with_thread_status vi (<[id := sweep_status_default]> (vi_thread_status vi)) in
  if zlen (vi_sweep_orders vi) =? 0 then Panic else
  order ← vget (vi_sweep_orders vi) (as_u64 id mod zlen (vi_sweep_orders vi));
  vi' ← worker_loop (Z.to_nat times) 0 id order vi;
  Ok (alter_status with_finished id vi').

(** [entry(t).or_default()] on every thread, and the aggregate. *)
Definition finished (vi : ValueIterator)
    : res (ValueIterator * (list Z * list f64 * bool)) :=
  if vi_thread_num vi <? 0 then Panic else
  let ids := seqZ 0 (vi_thread_num vi) in
  let m := foldl (fun m t => match m !! t with
                             | Some _ => m
                             | None => <[t := sweep_status_default]> m end)
             (vi_thread_status vi) ids in
  let get t := default sweep_status_default (m !! t) in
  Ok (with_thread_status vi m,
   ((fun t => as_u32 (sw_sweep_step (get t))) <$> ids,
    (fun t => sw_delta (get t)) <$> ids,
    forallb (fun t => sw_finished (get t)) ids)).

(** ** solve.rs: [original_solve_observed] *)

Definition REACH_THRESH : Z := 1000000 * PROB_BASE.

(** The scan for a reachable cell that moved; [prev[i]] panics out of range. *)
Fixpoint scan_changed (states : list State) (prev : list Z) (changed : bool) : res bool :=
  match states, prev with
  | [], _ => Ok changed
  | s :: states', p :: prev' =>
      scan_changed states' prev'
        (if (s_total_cost s <? REACH_THRESH) && negb (s_total_cost s =? p) then true else changed)
  | _ :: _, [] => Panic
  end.

Section solve.
Context {S : Type} (obs : SolveObserver S) (max_iter : Z).

Fixpoint original_loop (fuel : nat) (vi : ValueIterator) (prev : list Z) (iters : Z)
    (pacer : BoundaryPacer) (o : S) : res (ValueIterator * S * SolveOutcome) :=
  match fuel with
  | O => OutOfFuel
  | Datatypes.S fuel =>
      vi' ← value_iteration_worker vi 1 0;
      let iters' := u32_add iters 1 in
      changed ← scan_changed (vi_states vi') prev false;
      let prev' := s_total_cost <$> vi_states vi' in
      if negb changed then Ok (vi', o, running iters' 0 true)
      else if iters' >=? max_iter then Ok (vi', o, running iters' 0 false)
      else match at_boundary obs vi' iters' 0 pacer o with
           | (_, o', Some out) => Ok (vi', o', out)
           | (pacer', o', None) => original_loop fuel vi' prev' iters' pacer' o'
           end
  end.

Definition original_solve_observed (vi : ValueIterator) (o : S)
    : res (ValueIterator * S * SolveOutcome) :=
  original_loop (Datatypes.S (Z.to_nat max_iter)) vi (s_total_cost <$> vi_states vi) 0
    (pacer_new obs o) o.

(** stream.rs: row streaming is the same full sweep. *)
Definition stream_mimic_solve_observed (vi : ValueIterator) (o : S)
    : res (ValueIterator * S * SolveOutcome) :=
  original_solve_observed vi o.
End solve.

(** [run_value_iteration] on one thread; [multi] stands for the racing
    multi-threaded run, which the model does not describe. *)
Definition run_value_iteration (multi : ValueIterator → Z → res ValueIterator)
    (vi : ValueIterator) (times : Z) : res ValueIterator :=
  if vi_thread_num vi <=? 1 then value_iteration_worker vi times 0 else multi vi times.

(** ** A sweep is a fold of updates *)

Section sweeps.
Context (nx ny nt : Z) (acts : list Action).
Context (Hd : dims_ok nx ny nt) (Ha : Forall (wf_action nt) acts).

Definition updates (st : list State) (order : list Z) : list State :=
  foldl (update nx ny nt acts) st order.

Lemma updates_static st order : same_static (updates st order) st.
Proof.
  revert st. induction order as [|i order IH]; intros st; [reflexivity|].
  cbn. etransitivity; [apply IH|apply update_static].
Qed.

Lemma updates_zlen st order : zlen (updates st order) = zlen st.
Proof. apply same_static_zlen, updates_static. Qed.

Lemma updates_wf st order : wf_states nx ny nt st → wf_states nx ny nt (updates st order).
Proof.
  revert st. induction order as [|i order IH]; intros st Hst; [done|].
  cbn. by apply IH, update_wf.
Qed.

Lemma updates_other st order j : j ∉ order → zget (updates st order) j = zget st j.
Proof.
  revert st. induction order as [|i order IH]; intros st Hj; [done|].
  apply not_elem_of_cons in Hj as [??]. cbn. rewrite IH by done. by apply update_other.
Qed.

(** After a pass that visits [i] once, [i] is consistent when no cell it reads
    moved during the pass. *)
Lemma updates_consistent st order i s :
  NoDup order → i ∈ order →
  let st' := updates st order in
  zget st' i = Some s → updatable s = true →
  (∀ j, j ∈ reads nx ny nt acts st' s → cost_at st' j = cost_at st j) →
  consistent nx ny nt acts st' s.
Proof.
  intros Hnd Hin. cbn. intros Hs Hu Hr.
  apply list_elem_of_split in Hin as (l1 & l2 & ->).
  apply list.NoDup_app in Hnd as (_ & Hdis & Hnd). apply list.NoDup_cons in Hnd as [Hi2 _].
  assert (i ∉ l1) as Hi1 by (intros Hc; apply (Hdis i Hc); left).
  unfold updates in *. rewrite foldl_app in *. cbn [foldl] in *.
  set (st1 := foldl (update nx ny nt acts) st l1) in *.
  set (st2 := update nx ny nt acts st1 i) in *.
  fold (updates st l1) in st1. fold (updates st2 l2) in Hs, Hr |- *.
  pose proof (updates_static st2 l2) as Hs2.
  pose proof (update_static nx ny nt acts st1 i) as Hs1. fold st2 in Hs1.
  rewrite updates_other in Hs by done.
  destruct (update_get nx ny nt acts st1 i i s Hs) as (s1 & Hg1 & Hss & _).
  assert (updatable s1 = true) as Hu1 by (by rewrite <- (updatable_static s s1)).
  unfold consistent. rewrite (bellman_cell _ _ _ _ _ s s1) by done.
  rewrite (bellman_local _ _ _ _ _ st1).
  - unfold st2 in Hs. rewrite (update_self _ _ _ _ _ _ s1 Hg1), Hu1 in Hs.
    injection Hs as <-. cbn. by destruct (bellman _ _ _ _ st1 s1).
  - by etransitivity.
  - intros j Hj. rewrite <- (reads_cell _ _ _ _ _ s s1) in Hj by done.
    destruct (decide (j ∈ l1)) as [Hj1|Hj1].
    + assert (j ∉ i :: l2) as [? ?]%not_elem_of_cons by by apply Hdis.
      unfold cost_at. rewrite updates_other by done. unfold st2.
      by rewrite update_other by done.
    + rewrite (Hr j Hj). unfold cost_at, st1. by rewrite updates_other.
Qed.
End sweeps.

(** The updates of a pass over the field of [vi]. *)
Definition vi_updates (vi : ValueIterator) (order : list Z) : list State :=
  updates (vi_cell_num_x vi) (vi_cell_num_y vi) (vi_cell_num_t vi) (vi_actions vi)
    (vi_states vi) order.

Definition in_field (vi : ValueIterator) (order : list Z) : Prop :=
  Forall (fun i => 0 ≤ i < zlen (vi_states vi)) order.

Lemma value_iteration_at_eq vi i :
  wf_vi vi → 0 ≤ i < zlen (vi_states vi) →
  value_iteration_at vi i =
  Ok (with_states vi (update (vi_cell_num_x vi) (vi_cell_num_y vi) (vi_cell_num_t vi)
                        (vi_actions vi) (vi_states vi) i),
      delta (vi_cell_num_x vi) (vi_cell_num_y vi) (vi_cell_num_t vi)
        (vi_actions vi) (vi_states vi) i).
Proof.
  intros [Hd Hst Ha] Hi. unfold value_iteration_at.
  by rewrite (value_iteration_raw_eq _ _ _ _ Hd Ha).
Qed.

Lemma sweep_from order vi m :
  wf_vi vi → in_field vi order → 0 ≤ m →
  ∃ md, 0 ≤ md ∧
    for_each order (fun i acc => r ← value_iteration_at acc.1 i; Ok (r.1, Z.max acc.2 r.2))
      (vi, m) = Ok (with_states vi (vi_updates vi order), md).
Proof.
  revert vi m. induction order as [|i order IH]; intros vi m [Hd Hst Ha] Ho Hm.
  - exists m. split; [done|]. by destruct vi.
  - inversion_clear Ho as [|?? Hi Ho']. cbn [for_each fst snd].
    rewrite value_iteration_at_eq by done. rewrite !ok_bind. cbn [fst snd].
    pose proof (delta_nonneg (vi_cell_num_x vi) (vi_cell_num_y vi) (vi_cell_num_t vi)
                  (vi_actions vi) (vi_states vi) i).
    match goal with |- context [for_each order _ (?v, ?m')] =>
      destruct (IH v m') as (md & Hmd & Hfe) end.
    + split; cbn; try done. by apply update_wf.
    + unfold in_field. cbn. by rewrite zlen_update.
    + lia.
    + exists md. split; [done|]. exact Hfe.
Qed.

(** The monadic sweep computes [updates]. *)
Lemma sweep_eq order vi :
  wf_vi vi → in_field vi order →
  ∃ md, sweep order vi = Ok (with_states vi (vi_updates vi order), md).
Proof.
  intros H Ho. destruct (sweep_from order vi 0 H Ho ltac:(lia)) as (md & _ & E). eauto.
Qed.

(** ** The solve loop *)

(** Everything of a planner but its values and its thread status. *)
Definition framed (vi vi' : ValueIterator) : Prop :=
  same_static (vi_states vi') (vi_states vi) ∧
  ∃ m, vi' = with_thread_status (with_states vi (vi_states vi')) m.

Lemma framed_refl vi : framed vi vi.
Proof. split; [reflexivity|]. exists (vi_thread_status vi). by destruct vi. Qed.

Lemma framed_trans v1 v2 v3 : framed v1 v2 → framed v2 v3 → framed v1 v3.
Proof.
  intros [H1 [m1 E1]] [H2 [m2 E2]]. split; [by etransitivity|].
  exists m2. rewrite E2, E1. reflexivity.
Qed.

(** Well formed, with a sweep order 0 that visits every cell once. *)
Record ready (vi : ValueIterator) : Prop := {
  rd_wf : wf_vi vi;
  rd_order : ∃ order rest, vi_sweep_orders vi = order :: rest ∧ NoDup order ∧
               ∀ i, i ∈ order ↔ 0 ≤ i < zlen (vi_states vi)
}.

(** Stored values equal their backups wherever all successors are reached. *)
Definition settled (vi : ValueIterator) : Prop :=
  ∀ i s, zget (vi_states vi) i = Some s → updatable s = true →
    (∀ j c, j ∈ reads (vi_cell_num_x vi) (vi_cell_num_y vi) (vi_cell_num_t vi)
                  (vi_actions vi) (vi_states vi) s →
            cost_at (vi_states vi) j = Some c → c < REACH_THRESH) →
    consistent (vi_cell_num_x vi) (vi_cell_num_y vi) (vi_cell_num_t vi)
      (vi_actions vi) (vi_states vi) s.

Lemma worker_once vi order rest :
  wf_vi vi → vi_sweep_orders vi = order :: rest → in_field vi order →
  ∃ m, value_iteration_worker vi 1 0
       = Ok (with_thread_status (with_states vi (vi_updates vi order)) m).
Proof.
  intros Hwf Hord Hin. unfold value_iteration_worker. cbn -[sweep].
  rewrite Hord. cbn -[sweep].
  change (as_u64 0) with 0. rewrite Zmod_0_l.
  assert ((zlen (order :: rest) =? 0) = false) as -> by (apply Z.eqb_neq; unfold zlen; cbn; lia).
  change (vget (order :: rest) 0) with (Ok order). rewrite ok_bind.
  change (Z.to_nat 1) with 1%nat. cbn -[sweep].
  match goal with |- context [sweep order ?v] =>
    destruct (sweep_eq order v) as [md E] end.
  - by destruct Hwf.
  - done.
  - rewrite E. cbn -[sweep]. destruct (interrupted _); cbn; eexists; reflexivity.
Qed.

Lemma scan_changed_true states prev :
  length states = length prev → scan_changed states prev true = Ok true.
Proof.
  revert prev. induction states as [|s st IH]; intros [|p pr] Hl; try done. cbn.
  injection Hl as Hl.
  destruct (_ && _); by apply IH.
Qed.

Lemma scan_changed_spec states prev :
  length states = length prev →
  ∃ b, scan_changed states prev false = Ok b ∧
    (b = false → ∀ i s p, zget states i = Some s → zget prev i = Some p →
                 s_total_cost s < REACH_THRESH → s_total_cost s = p).
Proof.
  revert prev. induction states as [|s st IH]; intros [|p pr] Hl; try done; cbn in Hl.
  { exists false. split; [done|]. intros _ i s' p' H.
    apply zget_Some_lt in H. unfold zlen in H. cbn in H. lia. }
  injection Hl as Hl.
  destruct ((s_total_cost s <? REACH_THRESH) && negb (s_total_cost s =? p)) eqn:Ec; cbn; rewrite Ec.
  { exists true. split; [by apply scan_changed_true|done]. }
  destruct (IH pr Hl) as (b & Hb & Hspec). exists b. split; [done|].
  intros -> i s' p' Hi Hp Hlt. destruct (decide (i = 0)) as [->|].
  - injection Hi as <-. injection Hp as <-. bool_to_prop. destruct Ec as [?|?]; bool_to_prop; lia.
  - pose proof (zget_Some_lt _ _ _ Hi). rewrite zget_cons in Hi by lia. rewrite zget_cons in Hp by lia. by eapply Hspec.
Qed.

Lemma ready_framed vi vi' : ready vi → framed vi vi' → wf_vi vi' → ready vi'.
Proof.
  intros [Hwf (order & rest & Ho & Hnd & Hin)] [Hs [m E]] Hwf'. split; [done|].
  exists order, rest. rewrite E. cbn. split; [done|]. split; [done|].
  rewrite (same_static_zlen _ _ Hs). done.
Qed.

(** One sweep that moves no reached cell leaves the field settled. *)
Lemma sweep_settled vi order rest m b :
  ready vi → vi_sweep_orders vi = order :: rest →
  let vi' := with_thread_status (with_states vi (vi_updates vi order)) m in
  scan_changed (vi_states vi') (s_total_cost <$> vi_states vi) false = Ok b → b = false →
  settled vi'.
Proof.
  intros [[Hd Hst Ha] (order' & rest' & Ho & Hnd & Hin)] Hord. cbn. intros Hscan ->.
  rewrite Hord in Ho. injection Ho as -> ->.
  destruct (scan_changed_spec (vi_updates vi order') (s_total_cost <$> vi_states vi))
    as (b & Hb & Hspec).
  { rewrite length_fmap. pose proof (updates_zlen (vi_cell_num_x vi) (vi_cell_num_y vi)
      (vi_cell_num_t vi) (vi_actions vi) (vi_states vi) order') as Hz.
    unfold zlen, vi_updates in *. lia. }
  rewrite Hscan in Hb. injection Hb as <-.
  intros i s Hi Hu Hr. cbn in *. unfold vi_updates in *.
  eapply updates_consistent; try done.
  { apply Hin. apply zget_Some_lt in Hi. by rewrite updates_zlen in Hi. }
  intros j Hj. unfold cost_at in *.
  assert (0 ≤ j < zlen (vi_states vi)) as Hjr.
  { apply elem_of_reads in Hj as (a & tr & _ & Htr & -> & Hbl).
    assert (blocked (vi_cell_num_x vi) (vi_cell_num_y vi) (vi_cell_num_t vi)
      (updates (vi_cell_num_x vi) (vi_cell_num_y vi) (vi_cell_num_t vi) (vi_actions vi)
         (vi_states vi) order') s tr = false) as Hb1.
    { destruct (blocked _ _ _ _ s tr) eqn:Eb; [|done].
      rewrite <- Hbl. symmetry. apply existsb_exists. exists tr. split; [|done].
      by apply list_elem_of_In. }
    unfold blocked in Hb1. destruct (zget _ (target _ _ s tr)) eqn:Eg;
      [|by rewrite orb_true_r in Hb1].
    apply zget_Some_lt in Eg. by rewrite updates_zlen in Eg. }
  destruct (zget_lt (vi_states vi) j Hjr) as [p Hp].
  rewrite <- (updates_zlen (vi_cell_num_x vi) (vi_cell_num_y vi)
      (vi_cell_num_t vi) (vi_actions vi) (vi_states vi) order') in Hjr.
  destruct (zget_lt _ _ Hjr) as [q Hq].
  rewrite Hq, Hp in *. cbn. f_equal. eapply (Hspec eq_refl j q); try done.
  - by rewrite zget_fmap, Hp.
  - eapply (Hr j). done. by rewrite Hq.
Qed.

Lemma wf_vi_updates vi order m :
  wf_vi vi → wf_vi (with_thread_status (with_states vi (vi_updates vi order)) m).
Proof.
  intros [Hd Hst Ha]. split; cbn; [done| |done].
  unfold vi_updates. apply updates_wf; assumption.
Qed.

Lemma framed_updates vi order m :
  framed vi (with_thread_status (with_states vi (vi_updates vi order)) m).
Proof.
  split.
  - cbn. unfold vi_updates. apply updates_static.
  - exists m. reflexivity.
Qed.

Section solve_spec.
Context {S : Type} (obs : SolveObserver S) (max_iter : Z).
Context (Hmax : 0 ≤ max_iter < 2 ^ 32).

Lemma original_loop_spec fuel vi iters p o :
  ready vi → 0 ≤ iters → (iters = 0 ∨ iters < max_iter) →
  max_iter < Z.of_nat fuel + iters →
  ∃ vi' o' out,
    original_loop obs max_iter fuel vi (s_total_cost <$> vi_states vi) iters p o
      = Ok (vi', o', out) ∧
    wf_vi vi' ∧ framed vi vi' ∧ so_iters out ≤ Z.max 1 max_iter ∧
    (so_converged out = true → settled vi').
Proof.
  revert vi iters p o. induction fuel as [|fuel IH]; intros vi iters p o Hready Hit Hit2 Hfuel.
  { lia. }
  pose proof Hready as [Hwf (order & rest & Hord & Hnd & Hin)].
  destruct (worker_once vi order rest Hwf Hord) as [m E].
  { apply Forall_forall. intros i Hi. apply Hin. by apply list_elem_of_In. }
  cbn [original_loop]. rewrite E, ok_bind.
  set (vi1 := with_thread_status (with_states vi (vi_updates vi order)) m) in *.
  assert (wf_vi vi1) as Hwf1.
  { by apply wf_vi_updates. }
  assert (framed vi vi1) as Hfr1 by apply framed_updates.
  rewrite u32_add_small by (unfold in_u32; lia).
  destruct (scan_changed_spec (vi_states vi1) (s_total_cost <$> vi_states vi))
    as (b & Hb & _).
  { rewrite length_fmap. pose proof (same_static_zlen _ _ (proj1 Hfr1)). unfold zlen in *. lia. }
  rewrite Hb, ok_bind. destruct b; cbn [negb].
  2: { do 3 eexists. split; [done|]. split; [done|]. split; [done|]. cbn.
       split; [lia|]. intros _. by eapply sweep_settled. }
  rewrite Z.geb_leb. destruct (Z.leb_spec max_iter (iters + 1)).
  { do 3 eexists. split; [done|]. split; [done|]. split; [done|]. cbn. split; [lia|done]. }
  unfold at_boundary. destruct (due p (iters + 1)) as [d p'].
  destruct (ob_boundary obs o _) as [o' flow]. destruct d, flow;
    try (do 3 eexists; split; [done|]; split; [done|]; split; [done|]; cbn; split; [lia|done]).
  all: match goal with |- context [original_loop _ _ _ _ _ _ ?q ?r] =>
      destruct (IH vi1 (iters + 1) q r) as (vi' & o2 & out & -> & ? & Hfr & ? & ?);
      [by eapply ready_framed|lia|lia|lia|] end.
  all: do 3 eexists; split; [done|]; split; [done|]; split; [by eapply framed_trans|done].
Qed.
End solve_spec.

(** ** The sweep orders as permutations *)

Section orders.
Context (vi : ValueIterator).
Let nx := vi_cell_num_x vi.
Let ny := vi_cell_num_y vi.
Let nt := vi_cell_num_t vi.
Context (Hd : dims_ok nx ny nt).

Definition rows_first : list Z :=
  y ← seqZ 0 ny; x ← seqZ 0 nx; (fun t => to_index vi x y t) <$> seqZ 0 nt.
Definition columns_first : list Z :=
  x ← seqZ 0 nx; y ← seqZ 0 ny; (fun t => to_index vi x y t) <$> seqZ 0 nt.

Lemma to_index_eq x y t :
  0 ≤ x < nx → 0 ≤ y < ny → 0 ≤ t < nt → to_index vi x y t = index nx nt x y t.
Proof. intros. by apply (to_index_raw_small nx ny nt). Qed.

(** Row-major order is the order of the positions themselves. *)
Lemma rows_first_eq : rows_first = seqZ 0 (nx * ny * nt).
Proof.
  destruct Hd as [? ? ? ?].
  assert (∀ y, 0 ≤ y < ny →
    (x ← seqZ 0 nx; (fun t => to_index vi x y t) <$> seqZ 0 nt)
    = Z.add (y * (nx * nt)) <$> seqZ 0 (nx * nt)) as Hrow.
  { intros y Hy. rewrite <- (seqZ_mul nx nt), list_fmap_bind_r by lia.
    apply list_bind_ext_mem. intros x Hx%elem_of_seqZ. rewrite <- list_fmap_compose.
    apply list_fmap_ext. intros k t [-> Hk]%lookup_seqZ. rewrite to_index_eq by lia.
    unfold index. cbn. lia. }
  unfold rows_first. replace (nx * ny * nt) with (ny * (nx * nt)) by lia.
  rewrite <- (seqZ_mul ny (nx * nt)) by lia.
  apply list_bind_ext_mem. intros y Hy%elem_of_seqZ. apply Hrow. lia.
Qed.

Lemma elem_of_columns_first i : i ∈ columns_first ↔ 0 ≤ i < nx * ny * nt.
Proof.
  destruct Hd as [? ? ? ?]. unfold columns_first. rewrite list_elem_of_bind. split.
  - intros (x & (y & (t & -> & Ht)%list_elem_of_fmap & Hy)%list_elem_of_bind & Hx).
    rewrite elem_of_seqZ in *. rewrite to_index_eq by lia. apply index_bounds; lia.
  - intros Hi. destruct (index_surj nx ny nt i) as (x & y & t & ? & ? & ? & ->); [done..|].
    exists x. rewrite elem_of_seqZ. split; [|lia]. apply list_elem_of_bind.
    exists y. rewrite elem_of_seqZ. split; [|lia]. apply list_elem_of_fmap.
    exists t. rewrite elem_of_seqZ. split; [|lia]. symmetry. apply to_index_eq; lia.
Qed.

Lemma columns_first_NoDup : NoDup columns_first.
Proof.
  destruct Hd as [? ? ? ?]. unfold columns_first. apply NoDup_bind; [| |apply NoDup_seqZ].
  - intros x x' i Hx Hx' (y & (t & -> & Ht)%list_elem_of_fmap & Hy)%list_elem_of_bind
      (y' & (t' & E & Ht')%list_elem_of_fmap & Hy')%list_elem_of_bind.
    rewrite elem_of_seqZ in *. rewrite !to_index_eq in E by lia.
    apply (index_inj nx ny nt) in E; lia.
  - intros x Hx. apply NoDup_bind; [| |apply NoDup_seqZ].
    + intros y y' i Hy Hy' (t & -> & Ht)%list_elem_of_fmap (t' & E & Ht')%list_elem_of_fmap.
      rewrite elem_of_seqZ in *. rewrite !to_index_eq in E by lia.
      apply (index_inj nx ny nt) in E; lia.
    + intros y Hy. apply NoDup_fmap_2_strong; [|apply NoDup_seqZ].
      intros t t' Ht Ht' E. rewrite elem_of_seqZ in *. rewrite !to_index_eq in E by lia.
      apply (index_inj nx ny nt) in E; lia.
Qed.

Lemma columns_first_perm : columns_first ≡ₚ seqZ 0 (nx * ny * nt).
Proof.
  apply NoDup_Permutation; [apply columns_first_NoDup|apply NoDup_seqZ|].
  intros i. rewrite elem_of_columns_first, elem_of_seqZ. lia.
Qed.
End orders.

(** ** Properties *)

(** The sweep orders of a planner that has none yet.  With
    [n = nx * ny * nt]: order 0 is [0, .., n-1] itself, order 1 (columns first)
    a permutation of it, orders 2 and 3 their reversals; order 4 is order 0
    followed by the second half of order 1, and order 5 the first half of
    order 1 only, so thread 5 sweeps half of the map. *)
Theorem set_sweep_orders_spec vi :
  let n := vi_cell_num_x vi * vi_cell_num_y vi * vi_cell_num_t vi in
  dims_ok (vi_cell_num_x vi) (vi_cell_num_y vi) (vi_cell_num_t vi) →
  vi_sweep_orders vi = [] →
  ∃ o1, o1 ≡ₚ seqZ 0 n ∧
    set_sweep_orders vi = with_sweep_orders vi
      [seqZ 0 n; o1; reverse (seqZ 0 n); reverse o1;
       seqZ 0 n ++ drop (Z.to_nat (n / 2)) o1; take (Z.to_nat (n / 2)) o1].
Proof.
  intros n Hd Hnil. exists (columns_first vi). split; [by apply columns_first_perm|].
  unfold set_sweep_orders. rewrite Hnil.
  fold (rows_first vi) (columns_first vi). rewrite (rows_first_eq vi Hd). fold n.
  rewrite length_seqZ, app_assoc, take_drop.
  assert (0 ≤ n) by (destruct Hd; subst n; lia).
  replace (Z.to_nat n / 2)%nat with (Z.to_nat (n / 2)); [done|].
  rewrite Z2Nat.inj_div by lia. done.
Qed.

Lemma set_sweep_orders_spec_witness :
  ∃ o1, o1 ≡ₚ seqZ 0 3 ∧
    set_sweep_orders (corridor 3) = with_sweep_orders (corridor 3)
      [seqZ 0 3; o1; reverse (seqZ 0 3); reverse o1;
       seqZ 0 3 ++ drop (Z.to_nat (3 / 2)) o1; take (Z.to_nat (3 / 2)) o1].
Proof.
  apply (set_sweep_orders_spec (corridor 3)).
  - split; reflexivity.
  - reflexivity.
Defined.

(** The corridor with its sweep orders. *)
Definition sample_ready (n : Z) : ValueIterator := set_sweep_orders (corridor n).

Lemma sample_ready_ok : ready (sample_ready 3).
Proof.
  split; [apply check_vi_ok; reflexivity|].
  exists [0; 1; 2]. eexists. split; [reflexivity|].
  split; [by apply NoDup_seqZ with (m := 0) (n := 3)|].
  intros i. rewrite !elem_of_cons, elem_of_nil. change (zlen _) with 3. lia.
Qed.

Lemma original_solve_spec {S} (obs : SolveObserver S) max_iter vi o :
  ready vi → 0 ≤ max_iter < 2 ^ 32 →
  ∃ vi' o' out, original_solve_observed obs max_iter vi o = Ok (vi', o', out) ∧
    wf_vi vi' ∧ framed vi vi' ∧ so_iters out ≤ Z.max 1 max_iter ∧
    (so_converged out = true →
     let '(nx, ny, nt) := (vi_cell_num_x vi', vi_cell_num_y vi', vi_cell_num_t vi') in
     ∀ i s, zget (vi_states vi') i = Some s → updatable s = true →
       (∀ j c, j ∈ reads nx ny nt (vi_actions vi') (vi_states vi') s →
               cost_at (vi_states vi') j = Some c → c < REACH_THRESH) →
       min_action_cost (vi_states vi') (vi_actions vi') i nx ny nt
         = Ok (Some (s_total_cost s, s_optimal_action s))).
Proof.
  intros Hr Hmax.
  destruct (original_loop_spec obs max_iter Hmax (Datatypes.S (Z.to_nat max_iter)) vi 0
    (pacer_new obs o) o Hr ltac:(lia) ltac:(lia) ltac:(lia))
    as (vi' & o' & out & E & Hwf & Hfr & Hit & Hset).
  exists vi', o', out. split; [exact E|]. split; [done|]. split; [done|]. split; [done|].
  intros Hc i s Hs Hu Hreach. destruct Hwf as [Hd Hst Ha].
  rewrite (min_action_cost_eq _ _ _ _ Hd Ha _ i s) by done. rewrite Hu.
  do 2 f_equal. by apply (Hset Hc i).
Qed.

(** C3: the reference solver terminates and, when it reports convergence,
    returns a Bellman fixed point.  On a ready planner
    [original_solve_observed] returns after at most [max 1 max_iter] sweeps,
    whatever the observer answers, with a well-formed planner that differs
    only in values, policies and thread status; if it reports convergence,
    every cell all of whose successors are reached (below [REACH_THRESH])
    stores exactly the value and the action a new update would store. *)
Theorem original_solve_fixed_point {S} (obs : SolveObserver S) max_iter vi o :
  ready vi → 0 ≤ max_iter < 2 ^ 32 →
  ∃ vi' o' out, original_solve_observed obs max_iter vi o = Ok (vi', o', out) ∧
    wf_vi vi' ∧ framed vi vi' ∧ so_iters out ≤ Z.max 1 max_iter ∧
    (so_converged out = true →
     let '(nx, ny, nt) := (vi_cell_num_x vi', vi_cell_num_y vi', vi_cell_num_t vi') in
     ∀ i s, zget (vi_states vi') i = Some s → updatable s = true →
       (∀ j c, j ∈ reads nx ny nt (vi_actions vi') (vi_states vi') s →
               cost_at (vi_states vi') j = Some c → c < REACH_THRESH) →
       min_action_cost (vi_states vi') (vi_actions vi') i nx ny nt
         = Ok (Some (s_total_cost s, s_optimal_action s))).
Proof. apply original_solve_spec. Qed.

Lemma original_solve_fixed_point_witness :
  ∃ vi' o' out, original_solve_observed NullObserver 10 (sample_ready 3) () = Ok (vi', o', out)
    ∧ so_converged out = true ∧ s_total_cost <$> vi_states vi' = [0; PROB_BASE; 2 * PROB_BASE].
Proof.
  destruct (original_solve_fixed_point NullObserver 10 (sample_ready 3) ())
    as (vi' & o' & out & E & _).
  - exact sample_ready_ok.
  - lia.
  - exists vi', o', out. split; [exact E|].
    assert (original_solve_observed NullObserver 10 (sample_ready 3) () = Ok (vi', o', out))
      as E' by exact E.
    vm_compute in E'. injection E' as <- <- <-. split; reflexivity.
Defined.
