(* ===== verification/Bitboard.v ===== *)
(** * Bitboards (vi_lib/src/bitboard/mod.rs, ops.rs, enumerate.rs)

    Binary grids packed 64 cells to a word: allocation, set and test,
    population count, the row shift, the box dilations (periodic in the
    heading) and the lazy enumeration of the set cells. *)

From Stdlib Require Import ZArith Lia.
From stdpp Require Import base list numbers.
From S2P Require Import Prelude.

(** ** mod.rs *)

Definition words_per_row (map_x : Z) : Z := div_ceil map_x 64.

Definition row_mask (map_x : Z) : res (list Z) :=
  let nw := words_per_row map_x in
  let mask := vec_repeat U64_MAX nw in
  let rem := map_x mod 64 in
  if negb (rem =? 0) then vset mask (nw - 1) (u64_shl 1 rem - 1) else Ok mask.

Record Bitboard2D : Type := mkBB2 {
  b2_data : list Z; b2_map_x : Z; b2_map_y : Z; b2_wpr : Z
}.

Definition bb2_new (map_x map_y : Z) : Bitboard2D :=
  let wpr := words_per_row map_x in
  mkBB2 (vec_repeat 0 (u32_mul map_y wpr)) map_x map_y wpr.

Definition bb2_with_data (bb : Bitboard2D) (d : list Z) : Bitboard2D :=
  mkBB2 d (b2_map_x bb) (b2_map_y bb) (b2_wpr bb).

Definition bb2_index (bb : Bitboard2D) (ix iy : Z) : Z :=
  u32_add (u32_mul iy (b2_wpr bb)) (ix / 64).

Definition bb2_set (bb : Bitboard2D) (ix iy : Z) : res Bitboard2D :=
  let idx := bb2_index bb ix iy in
  w ← vget (b2_data bb) idx;
  d ← vset (b2_data bb) idx (Z.lor w (u64_shl 1 (ix mod 64)));
  Ok (bb2_with_data bb d).

Definition bb2_test (bb : Bitboard2D) (ix iy : Z) : res bool :=
  w ← vget (b2_data bb) (bb2_index bb ix iy);
  Ok (negb (Z.land w (u64_shl 1 (ix mod 64)) =? 0)).

Record Bitboard3D : Type := mkBB3 {
  b3_data : list Z; b3_map_x : Z; b3_map_y : Z; b3_n_theta : Z; b3_wpr : Z
}.

Definition bb3_new (map_x map_y n_theta : Z) : Bitboard3D :=
  let wpr := words_per_row map_x in
  mkBB3 (vec_repeat 0 (u32_mul (u32_mul n_theta map_y) wpr)) map_x map_y n_theta wpr.

Definition bb3_with_data (bb : Bitboard3D) (d : list Z) : Bitboard3D :=
  mkBB3 d (b3_map_x bb) (b3_map_y bb) (b3_n_theta bb) (b3_wpr bb).

Definition bb3_index (bb : Bitboard3D) (ix iy it : Z) : Z :=
  u32_add (u32_add (u32_mul (u32_mul it (b3_map_y bb)) (b3_wpr bb))
                   (u32_mul iy (b3_wpr bb))) (ix / 64).

Definition bb3_set (bb : Bitboard3D) (ix iy it : Z) : res Bitboard3D :=
  let idx := bb3_index bb ix iy it in
  w ← vget (b3_data bb) idx;
  d ← vset (b3_data bb) idx (Z.lor w (u64_shl 1 (ix mod 64)));
  Ok (bb3_with_data bb d).

Definition bb3_test (bb : Bitboard3D) (ix iy it : Z) : res bool :=
  w ← vget (b3_data bb) (bb3_index bb ix iy it);
  Ok (negb (Z.land w (u64_shl 1 (ix mod 64)) =? 0)).

Definition layer_stride (bb : Bitboard3D) : Z := u32_mul (b3_map_y bb) (b3_wpr bb).

(** ** ops.rs *)

(** The positions of the set bits of a word, lowest first. *)
Definition word_bits (w : Z) : list Z := filter (fun i => Z.testbit w i = true) (seqZ 0 64).

(** [u64::count_ones] *)
Definition count_ones (w : Z) : Z := zlen (word_bits w).

Definition popcount_slice (data : list Z) : Z := foldr (fun w n => count_ones w + n) 0 data.

Definition bb2_popcount (bb : Bitboard2D) : Z := popcount_slice (b2_data bb).
Definition bb3_popcount (bb : Bitboard3D) : Z := popcount_slice (b3_data bb).

(** [a.iter_mut().zip(b)]: the tail of the longer [a] stays. *)
Fixpoint zip_mut (f : Z → Z → Z) (a b : list Z) : list Z :=
  match a, b with
  | x :: a', y :: b' => f x y :: zip_mut f a' b'
  | _, _ => a
  end.
Definition and_slice : list Z → list Z → list Z := zip_mut Z.land.
Definition or_slice : list Z → list Z → list Z := zip_mut Z.lor.

Definition and_inplace (a b : Bitboard2D) : Bitboard2D :=
  bb2_with_data a (and_slice (b2_data a) (b2_data b)).
Definition or_inplace (a b : Bitboard2D) : Bitboard2D :=
  bb2_with_data a (or_slice (b2_data a) (b2_data b)).

(** [for w in 0..n { dst[ds + w] |= src[ss + w]; }] *)
Definition or_words (dst src : list Z) (ds ss n : Z) : res (list Z) :=
  for_range 0 n (fun w dst =>
    a ← vget dst (ds + w); b ← vget src (ss + w); vset dst (ds + w) (Z.lor a b)) dst.

(** [for w in 0..n { dst[ds + w] &= rmask[w]; }] *)
Definition mask_words (dst rmask : list Z) (ds n : Z) : res (list Z) :=
  for_range 0 n (fun w dst =>
    a ← vget dst (ds + w); b ← vget rmask w; vset dst (ds + w) (Z.land a b)) dst.

(** Writes the shifted, masked row into [out]. *)
Definition shift_row (out row : list Z) (sx : Z) (rmask : list Z) : res (list Z) :=
  let nw := zlen row in
  if sx =? 0 then
    for_range 0 nw (fun i out =>
      r ← vget row i; m ← vget rmask i; vset out i (Z.land r m)) out
  else
    out1 ←
      (if 0 <? sx then
         let s := as_u32 sx in
         for_range 0 nw (fun i out =>
           r ← vget row i;
           out ← vset out i (u64_shl r (s mod 64));
           if 0 <? i then
             p ← vget row (i - 1);
             o ← vget out i;
             vset out i (Z.lor o (Z.shiftr p ((64 - s) mod 64)))
           else Ok out) out
       else
         let n := as_u32 (- sx) in
         for_range 0 nw (fun i out =>
           r ← vget row i;
           out ← vset out i (Z.shiftr r (n mod 64));
           if i + 1 <? nw then
             p ← vget row (i + 1);
             o ← vget out i;
             vset out i (Z.lor o (u64_shl p ((64 - n) mod 64)))
           else Ok out) out);
    mask_words out1 rmask 0 nw.

Record RowLayout : Type := { rl_map_y : Z; rl_wpr : Z; rl_rmask : list Z }.

(** Rows OR-ed into their neighbours up to [dy] away, reading [src] only. *)
Definition y_pass (dst src : list Z) (map_y wpr dy : Z) : res (list Z) :=
  for_incl 1 dy (fun sy dst =>
    for_range 0 map_y (fun r dst =>
      dst ← (if r + sy <? map_y
             then or_words dst src ((r + sy) * wpr) (r * wpr) wpr else Ok dst);
      if sy <=? r then or_words dst src ((r - sy) * wpr) (r * wpr) wpr else Ok dst) dst) dst.

(** [scratch.neg] is overwritten by [shift_row] before every read, so the
    buffer starts as zeros of the row's length. *)
Definition x_pass_row (dst pos rmask : list Z) (row_start wpr dx : Z) : res (list Z) :=
  for_incl 1 dx (fun sx dst =>
    neg ← shift_row (vec_repeat 0 wpr) pos sx rmask;
    dst ← or_words dst neg row_start 0 wpr;
    neg ← shift_row neg pos (- sx) rmask;
    or_words dst neg row_start 0 wpr) dst.

(** [dst[a..a + n]]: panics when the range leaves the slice. *)
Definition sub_slice (l : list Z) (a n : Z) : res (list Z) :=
  if (a + n <=? zlen l) then Ok (take (Z.to_nat n) (drop (Z.to_nat a) l)) else Panic.

Definition x_pass (dst rmask : list Z) (map_y wpr dx : Z) : res (list Z) :=
  for_range 0 map_y (fun iy dst =>
    let row_start := iy * wpr in
    pos ← sub_slice dst row_start wpr;
    dst ← x_pass_row dst pos rmask row_start wpr dx;
    mask_words dst rmask row_start wpr) dst.

Definition dilate2d_into (dst src : list Z) (layout : RowLayout) (dx dy : Z) : res (list Z) :=
  let '(map_y, wpr, rmask) := (rl_map_y layout, rl_wpr layout, rl_rmask layout) in
  _ ← rassert (dx <? 64);
  _ ← rassert (zlen dst =? zlen src);
  dst ← y_pass src src map_y wpr dy;
  if dx =? 0 then
    for_range 0 map_y (fun iy dst => mask_words dst rmask (iy * wpr) wpr) dst
  else x_pass dst rmask map_y wpr dx.

Definition dilate2d (bb : Bitboard2D) (dx dy : Z) : res Bitboard2D :=
  rmask ← row_mask (b2_map_x bb);
  let layout := {| rl_map_y := b2_map_y bb; rl_wpr := b2_wpr bb; rl_rmask := rmask |} in
  d ← dilate2d_into (vec_repeat 0 (b2_map_y bb * b2_wpr bb)) (b2_data bb) layout dx dy;
  Ok (bb2_with_data bb d).

(** [temp[a..a + n].copy_from_slice(x)] *)
Definition splice (l : list Z) (a : Z) (x : list Z) : list Z :=
  take (Z.to_nat a) l ++ x ++ drop (Z.to_nat (a + zlen x)) l.

Definition dilate3d (bb : Bitboard3D) (dx dy dt : Z) : res Bitboard3D :=
  let '(n_theta, stride) := (b3_n_theta bb, layer_stride bb) in
  let src := b3_data bb in
  rmask ← row_mask (b3_map_x bb);
  let layout := {| rl_map_y := b3_map_y bb; rl_wpr := b3_wpr bb; rl_rmask := rmask |} in
  temp ← for_range 0 n_theta (fun it temp =>
    let layer_start := it * stride in
    src_layer ← sub_slice src layer_start stride;
    dst_layer ← sub_slice temp layer_start stride;
    d ← dilate2d_into dst_layer src_layer layout dx dy;
    Ok (splice temp layer_start d)) (vec_repeat 0 (zlen src));
  if dt =? 0 then Ok (bb3_with_data bb temp) else
  out ← for_incl 1 dt (fun st out =>
    for_range 0 n_theta (fun it out =>
      let idx_plus := (it + st) mod n_theta in
      let idx_minus := as_u64 (it + n_theta - st) mod n_theta in
      for_range 0 stride (fun w out =>
        o ← vget out (it * stride + w);
        p ← vget temp (idx_plus * stride + w);
        m ← vget temp (idx_minus * stride + w);
        vset out (it * stride + w) (Z.lor o (Z.lor p m))) out) out) temp;
  Ok (bb3_with_data bb out).

(** ** enumerate.rs *)

(** [u64::trailing_zeros] *)
Definition trailing_zeros (w : Z) : Z := default 64 (head (word_bits w)).

Record Iter2D : Type := mkIter2 { i2_iy : Z; i2_wi : Z; i2_word : Z }.

Definition iter2_new (bb : Bitboard2D) : res Iter2D :=
  if (0 <? b2_map_y bb) && (0 <? b2_wpr bb)
  then w ← vget (b2_data bb) 0; Ok (mkIter2 0 0 w)
  else Ok (mkIter2 0 0 0).

(** The loop of [advance]. *)
Fixpoint advance2 (fuel : nat) (bb : Bitboard2D) (it : Iter2D) : res Iter2D :=
  match fuel with
  | O => OutOfFuel
  | S fuel =>
      let wi := u32_add (i2_wi it) 1 in
      let wrap := wi >=? b2_wpr bb in
      let '(iy, wi) := if wrap then (u32_add (i2_iy it) 1, 0) else (i2_iy it, wi) in
      if wrap && (iy >=? b2_map_y bb) then Ok (mkIter2 iy wi 0) else
      w ← vget (b2_data bb) (u32_add (u32_mul iy (b2_wpr bb)) wi);
      if negb (w =? 0) then Ok (mkIter2 iy wi w) else advance2 fuel bb (mkIter2 iy wi w)
  end.

(** [next]: the inner loop skips empty words, the outer one retries when a bit
    lies beyond the row. *)
Fixpoint next2 (fuel : nat) (bb : Bitboard2D) (it : Iter2D) : res (Iter2D * option (Z * Z)) :=
  match fuel with
  | O => OutOfFuel
  | S fuel' =>
      if i2_word it =? 0 then
        if i2_iy it >=? b2_map_y bb then Ok (it, None) else
        it' ← advance2 fuel bb it;
        if i2_iy it' >=? b2_map_y bb then Ok (it', None) else next2 fuel' bb it'
      else
        let bit := trailing_zeros (i2_word it) in
        let ix := u32_add (u32_mul (i2_wi it) 64) bit in
        let it' := mkIter2 (i2_iy it) (i2_wi it)
                     (Z.land (i2_word it) (u64_sub (i2_word it) 1)) in
        if ix <? b2_map_x bb then Ok (it', Some (ix, i2_iy it')) else next2 fuel' bb it'
  end.

(** [for (ix, iy) in bb.enumerate()], collected. *)
Fixpoint collect2 (fuel : nat) (bb : Bitboard2D) (it : Iter2D) : res (list (Z * Z)) :=
  match fuel with
  | O => OutOfFuel
  | S fuel' =>
      r ← next2 fuel bb it;
      match r.2 with
      | None => Ok []
      | Some c => cs ← collect2 fuel' bb r.1; Ok (c :: cs)
      end
  end.

(** More steps than the board has bits and words. *)
Definition enum_fuel (data : list Z) : nat := (65 * length data + 2)%nat.

Definition enumerate2 (bb : Bitboard2D) : res (list (Z * Z)) :=
  it ← iter2_new bb; collect2 (enum_fuel (b2_data bb)) bb it.

Record Iter3D : Type := mkIter3 { i3_it : Z; i3_iy : Z; i3_wi : Z; i3_word : Z }.

Definition iter3_new (bb : Bitboard3D) : res Iter3D :=
  if (0 <? b3_n_theta bb) && (0 <? b3_map_y bb) && (0 <? b3_wpr bb)
  then w ← vget (b3_data bb) 0; Ok (mkIter3 0 0 0 w)
  else Ok (mkIter3 0 0 0 0).

Fixpoint advance3 (fuel : nat) (bb : Bitboard3D) (st : Iter3D) : res Iter3D :=
  match fuel with
  | O => OutOfFuel
  | S fuel =>
      let wi := u32_add (i3_wi st) 1 in
      let wrap_row := wi >=? b3_wpr bb in
      let '(iy, wi) := if wrap_row then (u32_add (i3_iy st) 1, 0) else (i3_iy st, wi) in
      let wrap_layer := wrap_row && (iy >=? b3_map_y bb) in
      let '(it, iy) := if wrap_layer then (u32_add (i3_it st) 1, 0) else (i3_it st, iy) in
      if wrap_layer && (it >=? b3_n_theta bb) then Ok (mkIter3 it iy wi 0) else
      w ← vget (b3_data bb)
            (u32_add (u32_add (u32_mul (u32_mul it (b3_map_y bb)) (b3_wpr bb))
                              (u32_mul iy (b3_wpr bb))) wi);
      if negb (w =? 0) then Ok (mkIter3 it iy wi w) else advance3 fuel bb (mkIter3 it iy wi w)
  end.

Fixpoint next3 (fuel : nat) (bb : Bitboard3D) (st : Iter3D)
    : res (Iter3D * option (Z * Z * Z)) :=
  match fuel with
  | O => OutOfFuel
  | S fuel' =>
      if i3_word st =? 0 then
        if i3_it st >=? b3_n_theta bb then Ok (st, None) else
        st' ← advance3 fuel bb st;
        if i3_it st' >=? b3_n_theta bb then Ok (st', None) else next3 fuel' bb st'
      else
        let bit := trailing_zeros (i3_word st) in
        let ix := u32_add (u32_mul (i3_wi st) 64) bit in
        let st' := mkIter3 (i3_it st) (i3_iy st) (i3_wi st)
                     (Z.land (i3_word st) (u64_sub (i3_word st) 1)) in
        if ix <? b3_map_x bb then Ok (st', Some (ix, i3_iy st', i3_it st'))
        else next3 fuel' bb st'
  end.

Fixpoint collect3 (fuel : nat) (bb : Bitboard3D) (st : Iter3D) : res (list (Z * Z * Z)) :=
  match fuel with
  | O => OutOfFuel
  | S fuel' =>
      r ← next3 fuel bb st;
      match r.2 with
      | None => Ok []
      | Some c => cs ← collect3 fuel' bb r.1; Ok (c :: cs)
      end
  end.

Definition enumerate3 (bb : Bitboard3D) : res (list (Z * Z * Z)) :=
  st ← iter3_new bb; collect3 (enum_fuel (b3_data bb)) bb st.
