(* ===== verification/BitboardOps.v ===== *)
(** * Correctness of the bitboard operations

    A board is read as a set of cells through its flat bits ([rbit]); set and
    test, the row shift and the box dilations are characterised on cells. *)

From Stdlib Require Import ZArith Lia.
From stdpp Require Import base list numbers.
From S2P Require Import Prelude Bitboard.

(** ** Words *)

(** Word [i] of a buffer; 0 outside of it. *)
Definition wd (l : list Z) (i : Z) : Z := default 0 (zget l i).

(** Bit [p] of a buffer read as one long integer. *)
Definition rbit (l : list Z) (p : Z) : bool := Z.testbit (wd l (p / 64)) (p mod 64).

Definition words_ok (l : list Z) : Prop := ∀ i, in_u64 (wd l i).

Lemma in_u64_bits w : in_u64 w ↔ 0 ≤ w ∧ ∀ k, 64 ≤ k → Z.testbit w k = false.
Proof.
  unfold in_u64. split.
  - intros [H1 H2]. split; [done|]. intros k Hk.
    destruct (decide (w = 0)) as [->|]; [apply Z.testbit_0_l|].
    apply Z.bits_above_log2; [done|]. apply Z.log2_lt_pow2; [lia|].
    eapply Z.lt_le_trans; [exact H2|]. apply Z.pow_le_mono_r; lia.
  - intros [H1 H2]. split; [done|].
    assert (w = w mod 2 ^ 64) as ->; [|apply Z.mod_pos_bound; lia].
    apply Z.bits_inj'. intros k Hk. destruct (decide (k < 64)).
    + by rewrite Z.mod_pow2_bits_low.
    + rewrite Z.mod_pow2_bits_high by lia. apply H2. lia.
Qed.

Lemma in_u64_0 : in_u64 0.
Proof. split; [done|reflexivity]. Qed.

Lemma in_u64_lor a b : in_u64 a → in_u64 b → in_u64 (Z.lor a b).
Proof.
  rewrite !in_u64_bits. intros [Ha Ha'] [Hb Hb']. split; [by apply Z.lor_nonneg|].
  intros k Hk. by rewrite Z.lor_spec, Ha', Hb'.
Qed.

Lemma in_u64_land a b : in_u64 a → in_u64 b → in_u64 (Z.land a b).
Proof.
  rewrite !in_u64_bits. intros [Ha Ha'] [Hb Hb']. split; [apply Z.land_nonneg; by left|].
  intros k Hk. by rewrite Z.land_spec, Ha', Hb'.
Qed.

Lemma in_u64_shiftr a n : 0 ≤ n → in_u64 a → in_u64 (Z.shiftr a n).
Proof.
  rewrite !in_u64_bits. intros Hn [Ha Ha']. split; [by apply Z.shiftr_nonneg|].
  intros k Hk. rewrite Z.shiftr_spec by lia. apply Ha'. lia.
Qed.

Lemma in_u64_shl a n : in_u64 (u64_shl a n).
Proof. unfold in_u64, u64_shl. apply wrap_u_range. lia. Qed.

Lemma u64_shl_spec a n k :
  0 ≤ k → Z.testbit (u64_shl a n) k = (k <? 64) && Z.testbit a (k - n).
Proof.
  intros Hk. unfold u64_shl, wrap_u. destruct (Z.ltb_spec k 64).
  - rewrite Z.mod_pow2_bits_low, Z.shiftl_spec by lia. done.
  - rewrite Z.mod_pow2_bits_high by lia. done.
Qed.

Lemma zget_wd l i : 0 ≤ i < zlen l → zget l i = Some (wd l i).
Proof. intros H. unfold wd. by destruct (zget_lt l i H) as [x ->]. Qed.

Lemma vget_wd l i : 0 ≤ i < zlen l → vget l i = Ok (wd l i).
Proof. intros H. apply vget_ok. by apply zget_wd. Qed.

Lemma wd_out l i : i < 0 ∨ zlen l ≤ i → wd l i = 0.
Proof.
  intros H. unfold wd. destruct (zget l i) eqn:E; [|done].
  apply zget_Some_lt in E. lia.
Qed.

Lemma wd_zset l i j x :
  0 ≤ i < zlen l → wd (zset l i x) j = if decide (i = j) then x else wd l j.
Proof. intros H. unfold wd. rewrite zget_zset by done. by case_decide. Qed.

Lemma wd_repeat n i : wd (vec_repeat 0 n) i = 0.
Proof.
  unfold wd. destruct (zget _ i) as [x|] eqn:E; [|done]. unfold zget, vec_repeat in E.
  case_decide; [|done]. apply lookup_replicate in E as [-> _]. done.
Qed.

Lemma words_ok_zset l i x : words_ok l → in_u64 x → 0 ≤ i < zlen l → words_ok (zset l i x).
Proof. intros H Hx Hi j. rewrite wd_zset by done. by case_decide. Qed.

Lemma words_ok_repeat n : words_ok (vec_repeat 0 n).
Proof. intros i. rewrite wd_repeat. apply in_u64_0. Qed.

Lemma divmod64 i k : 0 ≤ k < 64 → (64 * i + k) / 64 = i ∧ (64 * i + k) mod 64 = k.
Proof.
  intros Hk. split.
  - symmetry. apply (Z.div_unique _ _ _ k); lia.
  - symmetry. apply (Z.mod_unique _ _ i); lia.
Qed.

Lemma rbit_word l i k : 0 ≤ k < 64 → rbit l (64 * i + k) = Z.testbit (wd l i) k.
Proof. intros Hk. unfold rbit. by destruct (divmod64 i k Hk) as [-> ->]. Qed.

Lemma rbit_out l p : p < 0 ∨ 64 * zlen l ≤ p → rbit l p = false.
Proof.
  intros H. unfold rbit. rewrite wd_out; [apply Z.testbit_0_l|].
  pose proof (Z.div_mod p 64 ltac:(lia)). pose proof (Z.mod_pos_bound p 64 ltac:(lia)). lia.
Qed.

(** A statement about all bits is one about the bits of every word. *)
Lemma rbit_ind (P : Z → Prop) :
  (∀ i k, 0 ≤ k < 64 → P (64 * i + k)) → ∀ p, P p.
Proof.
  intros H p. rewrite (Z.div_mod p 64) by lia. apply H. apply Z.mod_pos_bound. lia.
Qed.

(** ** The word loops *)

Lemma or_words_spec dst src ds ss n :
  0 ≤ n → 0 ≤ ds → ds + n ≤ zlen dst → 0 ≤ ss → ss + n ≤ zlen src →
  ∃ dst', or_words dst src ds ss n = Ok dst' ∧ zlen dst' = zlen dst ∧
    ∀ i, wd dst' i = if decide (ds ≤ i < ds + n) then Z.lor (wd dst i) (wd src (ss + (i - ds)))
                     else wd dst i.
Proof.
  intros Hn Hds Hd Hss Hs. unfold or_words.
  apply (for_range_inv (fun w d => zlen d = zlen dst ∧
    ∀ i, wd d i = if decide (ds ≤ i < ds + w) then Z.lor (wd dst i) (wd src (ss + (i - ds)))
                  else wd dst i) 0 n); [done| |].
  { split; [done|]. intros i. by rewrite decide_False by lia. }
  intros w d Hw [Hl Hd']. rewrite vget_wd by lia. cbn. rewrite vget_wd by lia. cbn.
  rewrite vset_ok by lia. eexists. split; [done|]. split; [by rewrite zlen_zset|].
  intros i. rewrite wd_zset by lia. destruct (decide (ds + w = i)) as [<-|].
  - rewrite decide_True by lia. rewrite Hd', decide_False by lia. by rewrite Z.add_simpl_l.
  - rewrite Hd'. destruct (decide (ds ≤ i < ds + w)).
    + by rewrite decide_True by lia.
    + by rewrite decide_False by lia.
Qed.

Lemma mask_words_spec dst m ds n :
  0 ≤ n → 0 ≤ ds → ds + n ≤ zlen dst → n ≤ zlen m →
  ∃ dst', mask_words dst m ds n = Ok dst' ∧ zlen dst' = zlen dst ∧
    ∀ i, wd dst' i = if decide (ds ≤ i < ds + n) then Z.land (wd dst i) (wd m (i - ds))
                     else wd dst i.
Proof.
  intros Hn Hds Hd Hm. unfold mask_words.
  apply (for_range_inv (fun w d => zlen d = zlen dst ∧
    ∀ i, wd d i = if decide (ds ≤ i < ds + w) then Z.land (wd dst i) (wd m (i - ds))
                  else wd dst i) 0 n); [done| |].
  { split; [done|]. intros i. by rewrite decide_False by lia. }
  intros w d Hw [Hl Hd']. rewrite vget_wd by lia. cbn. rewrite vget_wd by lia. cbn.
  rewrite vset_ok by lia. eexists. split; [done|]. split; [by rewrite zlen_zset|].
  intros i. rewrite wd_zset by lia. destruct (decide (ds + w = i)) as [<-|].
  - rewrite decide_True by lia. rewrite Hd', decide_False by lia. by rewrite Z.add_simpl_l.
  - rewrite Hd'. destruct (decide (ds ≤ i < ds + w)).
    + by rewrite decide_True by lia.
    + by rewrite decide_False by lia.
Qed.

(** ** The row shift *)

(** [wd] after a loop that rewrites word [i] from the old row. *)
Lemma word_loop (f : Z → Z) body (out : list Z) n :
  0 ≤ n ≤ zlen out →
  (∀ i o, 0 ≤ i < n → zlen o = zlen out → ∃ o', body i o = Ok o' ∧ zlen o' = zlen out ∧
     ∀ j, wd o' j = if decide (i = j) then f i else wd o j) →
  ∃ o', for_range 0 n body out = Ok o' ∧ zlen o' = zlen out ∧
    ∀ i, wd o' i = if decide (0 ≤ i < n) then f i else wd out i.
Proof.
  intros Hn Hb.
  apply (for_range_inv (fun w o => zlen o = zlen out ∧
    ∀ i, wd o i = if decide (0 ≤ i < w) then f i else wd out i) 0 n); [lia| |].
  { split; [done|]. intros i. by rewrite decide_False by lia. }
  intros w o Hw [Hl Ho]. destruct (Hb w o Hw Hl) as (o' & -> & Hl' & Ho').
  exists o'. split; [done|]. split; [done|]. intros i. rewrite Ho', Ho.
  destruct (decide (w = i)) as [<-|]; [by rewrite decide_True by lia|].
  destruct (decide (0 ≤ i < w)); [by rewrite decide_True by lia|].
  by rewrite decide_False by lia.
Qed.

(** The word a shift by [sx] stores at [i], before masking. *)
Definition shifted_word (row : list Z) (sx i : Z) : Z :=
  if 0 <? sx then Z.lor (u64_shl (wd row i) sx) (Z.shiftr (wd row (i - 1)) (64 - sx))
  else Z.lor (Z.shiftr (wd row i) (- sx)) (u64_shl (wd row (i + 1)) (64 + sx)).

Lemma shifted_word_bit row sx i k :
  words_ok row → - 64 < sx < 64 → sx ≠ 0 → 0 ≤ k < 64 →
  Z.testbit (shifted_word row sx i) k = rbit row (64 * i + k - sx).
Proof.
  intros Hok Hsx Hne Hk. unfold shifted_word. destruct (Z.ltb_spec 0 sx).
  - rewrite Z.lor_spec, u64_shl_spec, Z.shiftr_spec by lia.
    destruct (Z.ltb_spec k 64); [|lia]. cbn [andb].
    destruct (decide (sx ≤ k)).
    + replace (64 * i + k - sx) with (64 * i + (k - sx)) by lia. rewrite rbit_word by lia.
      rewrite (proj2 (proj1 (in_u64_bits _) (Hok (i - 1)))) by lia. by rewrite orb_false_r.
    + replace (64 * i + k - sx) with (64 * (i - 1) + (k + (64 - sx))) by lia.
      rewrite rbit_word by lia. by rewrite Z.testbit_neg_r by lia.
  - rewrite Z.lor_spec, u64_shl_spec, Z.shiftr_spec by lia.
    destruct (Z.ltb_spec k 64); [|lia]. cbn [andb].
    destruct (decide (k - sx < 64)).
    + replace (64 * i + k - sx) with (64 * i + (k - sx)) by lia. rewrite rbit_word by lia.
      rewrite (Z.testbit_neg_r _ (k - (64 + sx))) by lia.
      rewrite orb_false_r. done.
    + replace (64 * i + k - sx) with (64 * (i + 1) + (k - (64 + sx))) by lia.
      rewrite rbit_word by lia.
      rewrite (proj2 (proj1 (in_u64_bits _) (Hok i))) by lia. done.
Qed.

Lemma shift_row_words out row sx rmask :
  - 64 < sx < 64 → zlen out = zlen row → zlen rmask = zlen row →
  ∃ out', shift_row out row sx rmask = Ok out' ∧ zlen out' = zlen row ∧
    ∀ i, 0 ≤ i < zlen row → wd out' i =
      Z.land (if sx =? 0 then wd row i else shifted_word row sx i) (wd rmask i).
Proof.
  intros Hsx Hlo Hlm. pose proof (zlen_nonneg row). unfold shift_row.
  destruct (Z.eqb_spec sx 0) as [->|Hne].
  { destruct (word_loop (fun i => Z.land (wd row i) (wd rmask i))
      (fun i out => r ← vget row i; m ← vget rmask i; vset out i (Z.land r m)) out (zlen row))
      as (o' & -> & Hl & Ho); [lia| |].
    - intros i o Hi Ho. rewrite !vget_wd by lia. cbn. rewrite vset_ok by lia.
      eexists. split; [done|]. split; [by rewrite zlen_zset|]. intros j. apply wd_zset. lia.
    - eexists. split; [done|]. split; [lia|]. intros i Hi. by rewrite Ho, decide_True. }
  assert (∀ body, (∀ i o, 0 ≤ i < zlen row → zlen o = zlen out →
     ∃ o', body i o = Ok o' ∧ zlen o' = zlen out ∧
       ∀ j, wd o' j = if decide (i = j) then shifted_word row sx i else wd o j) →
     ∃ out', (o1 ← for_range 0 (zlen row) body out; mask_words o1 rmask 0 (zlen row)) = Ok out'
       ∧ zlen out' = zlen row ∧
       ∀ i, 0 ≤ i < zlen row → wd out' i = Z.land (shifted_word row sx i) (wd rmask i)) as Hgo.
  { intros body Hbody.
    destruct (word_loop (shifted_word row sx) body out (zlen row)) as (o1 & -> & Hl1 & Ho1);
      [lia|done|]. rewrite ok_bind.
    destruct (mask_words_spec o1 rmask 0 (zlen row)) as (o2 & -> & Hl2 & Ho2); [lia..|].
    exists o2. split; [done|]. split; [lia|]. intros i Hi.
    rewrite Ho2, decide_True by lia. rewrite Ho1, decide_True by lia. by rewrite Z.sub_0_r. }
  destruct (Z.ltb_spec 0 sx); apply Hgo; intros i o Hi Ho;
    rewrite (vget_wd row i) by lia; rewrite ok_bind;
    rewrite vset_ok by lia; rewrite ok_bind.
  - assert (as_u32 sx = sx) as -> by (apply wrap_u_small; lia).
    rewrite (Z.mod_small sx), (Z.mod_small (64 - sx)) by lia.
    unfold shifted_word. destruct (Z.ltb_spec 0 sx); [|lia].
    destruct (Z.ltb_spec 0 i).
    + rewrite (vget_wd row (i - 1)), ok_bind by lia.
      rewrite vget_wd, ok_bind by (rewrite zlen_zset; lia).
      rewrite vset_ok by (rewrite zlen_zset; lia).
      eexists. split; [done|]. split; [by rewrite !zlen_zset|]. intros j.
      rewrite !wd_zset by (rewrite ?zlen_zset; lia).
      destruct (decide (i = j)) as [->|]; [by rewrite decide_True by done|done].
    + eexists. split; [done|]. split; [by rewrite !zlen_zset|]. intros j.
      rewrite wd_zset by lia. rewrite (wd_out row (i - 1)) by lia.
      by rewrite Z.shiftr_0_l, Z.lor_0_r.
  - assert (as_u32 (- sx) = - sx) as -> by (apply wrap_u_small; lia).
    rewrite (Z.mod_small (- sx)), (Z.mod_small (64 - - sx)) by lia.
    replace (64 - - sx) with (64 + sx) by lia.
    unfold shifted_word. destruct (Z.ltb_spec 0 sx); [lia|].
    destruct (Z.ltb_spec (i + 1) (zlen row)).
    + rewrite (vget_wd row (i + 1)), ok_bind by lia.
      rewrite vget_wd, ok_bind by (rewrite zlen_zset; lia).
      rewrite vset_ok by (rewrite zlen_zset; lia).
      eexists. split; [done|]. split; [by rewrite !zlen_zset|]. intros j.
      rewrite !wd_zset by (rewrite ?zlen_zset; lia).
      destruct (decide (i = j)) as [->|]; [by rewrite decide_True by done|done].
    + eexists. split; [done|]. split; [by rewrite !zlen_zset|]. intros j.
      rewrite wd_zset by lia. rewrite (wd_out row (i + 1)) by lia.
      change (u64_shl 0 (64 + sx)) with (wrap_u 64 (Z.shiftl 0 (64 + sx))).
      by rewrite Z.shiftl_0_l, Z.lor_0_r.
Qed.

(** On bits: a shift moves bit [p - sx] to [p] and keeps what the mask keeps. *)
Lemma shift_row_bits out row sx rmask :
  words_ok row → - 64 < sx < 64 → zlen out = zlen row → zlen rmask = zlen row →
  ∃ out', shift_row out row sx rmask = Ok out' ∧ zlen out' = zlen row ∧
    ∀ p, 0 ≤ p < 64 * zlen row → rbit out' p = rbit rmask p && rbit row (p - sx).
Proof.
  intros Hok Hsx Hlo Hlm.
  destruct (shift_row_words out row sx rmask Hsx Hlo Hlm) as (o' & -> & Hl & Ho).
  exists o'. split; [done|]. split; [done|]. apply (rbit_ind (fun p => 0 ≤ p < _ → _)).
  intros i k Hk Hp. rewrite !rbit_word by lia. rewrite Ho, Z.land_spec by lia.
  rewrite andb_comm. f_equal. destruct (Z.eqb_spec sx 0) as [->|].
  - by rewrite Z.sub_0_r, rbit_word.
  - by apply shifted_word_bit.
Qed.

(** ** The loops on bits *)

(** A buffer of [n] 64-bit words. *)
Definition buf (n : Z) (l : list Z) : Prop := zlen l = n ∧ words_ok l.

Lemma buf_len n l : buf n l → zlen l = n.
Proof. by intros []. Qed.

Lemma buf_nonneg n l : buf n l → 0 ≤ n.
Proof. intros [<- _]. apply zlen_nonneg. Qed.

Lemma or_words_bits dst src nd ns ds ss n :
  buf nd dst → buf ns src → 0 ≤ n → 0 ≤ ds → ds + n ≤ nd → 0 ≤ ss → ss + n ≤ ns →
  ∃ dst', or_words dst src ds ss n = Ok dst' ∧ buf nd dst' ∧
    ∀ q, rbit dst' q = rbit dst q
           || bool_decide (64 * ds ≤ q < 64 * (ds + n)) && rbit src (q - 64 * ds + 64 * ss).
Proof.
  intros [Hld Hd] [Hls Hs] ? ? ? ? ?.
  destruct (or_words_spec dst src ds ss n) as (d' & E & Hl & Hw); [lia..|].
  exists d'. split; [done|]. split.
  { split; [lia|]. intros i. rewrite Hw. case_decide; [by apply in_u64_lor|done]. }
  apply rbit_ind. intros i k Hk. rewrite !rbit_word, Hw by done.
  case_decide; case_bool_decide; try lia.
  - rewrite Z.lor_spec. cbn. f_equal. rewrite <- rbit_word by done. f_equal. lia.
  - by rewrite orb_false_r.
Qed.

Lemma mask_words_bits dst m nd nm ds n :
  buf nd dst → buf nm m → 0 ≤ n → 0 ≤ ds → ds + n ≤ nd → n ≤ nm →
  ∃ dst', mask_words dst m ds n = Ok dst' ∧ buf nd dst' ∧
    ∀ q, rbit dst' q = rbit dst q
           && (negb (bool_decide (64 * ds ≤ q < 64 * (ds + n))) || rbit m (q - 64 * ds)).
Proof.
  intros [Hld Hd] [Hlm Hm] ? ? ? ?.
  destruct (mask_words_spec dst m ds n) as (d' & E & Hl & Hw); [lia..|].
  exists d'. split; [done|]. split.
  { split; [lia|]. intros i. rewrite Hw. case_decide; [by apply in_u64_land|done]. }
  apply rbit_ind. intros i k Hk. rewrite !rbit_word, Hw by done.
  case_decide; case_bool_decide; try lia.
  - rewrite Z.land_spec. cbn. f_equal. rewrite <- rbit_word by done. f_equal. lia.
  - by rewrite andb_true_r.
Qed.

Lemma shift_row_buf out row sx rmask n :
  buf n out → buf n row → buf n rmask → - 64 < sx < 64 →
  ∃ out', shift_row out row sx rmask = Ok out' ∧ buf n out' ∧
    ∀ p, rbit out' p = rbit rmask p && rbit row (p - sx).
Proof.
  intros [Hlo Ho] [Hlr Hr] [Hlm Hm] Hsx.
  destruct (shift_row_words out row sx rmask) as (o' & E & Hl & Hw); [lia..|].
  destruct (shift_row_bits out row sx rmask) as (o2 & E2 & _ & Hb); [done|lia..|].
  rewrite E in E2. injection E2 as <-.
  assert (words_ok o') as Hok.
  { intros i. destruct (decide (0 ≤ i < zlen row)).
    - rewrite Hw by done. apply in_u64_land; [|done].
      destruct (sx =? 0); [done|]. unfold shifted_word. destruct (0 <? sx) eqn:?; bool_to_prop;
        apply in_u64_lor; first [apply in_u64_shl|apply in_u64_shiftr; [lia|done]].
    - rewrite wd_out by lia. apply in_u64_0. }
  exists o'. split; [done|]. split; [split; [lia|done]|].
  intros p. destruct (decide (0 ≤ p < 64 * zlen row)); [by apply Hb|].
  rewrite (rbit_out o'), (rbit_out rmask) by lia. done.
Qed.

(** ** Slices *)

Lemma wd_take_drop l a n i :
  0 ≤ a → 0 ≤ i < n → wd (take (Z.to_nat n) (drop (Z.to_nat a) l)) i = wd l (a + i).
Proof.
  intros Ha Hi. unfold wd, zget. rewrite !decide_True by lia. f_equal.
  rewrite lookup_take_lt by lia. rewrite lookup_drop. f_equal. lia.
Qed.

Lemma sub_slice_spec l a n m :
  buf m l → 0 ≤ a → 0 ≤ n → a + n ≤ m →
  ∃ l', sub_slice l a n = Ok l' ∧ buf n l' ∧ ∀ i, 0 ≤ i < n → wd l' i = wd l (a + i).
Proof.
  intros [Hl Hok] Ha Hn Hm. unfold sub_slice. destruct (Z.leb_spec (a + n) (zlen l)); [|lia].
  eexists. split; [done|].
  assert (zlen (take (Z.to_nat n) (drop (Z.to_nat a) l)) = n) as Hz.
  { unfold zlen in *. rewrite length_take, length_drop. lia. }
  assert (∀ i, 0 ≤ i < n → wd (take (Z.to_nat n) (drop (Z.to_nat a) l)) i = wd l (a + i)) as Hw.
  { intros. by apply wd_take_drop. }
  split; [|done]. split; [done|]. intros i. destruct (decide (0 ≤ i < n)).
  - by rewrite Hw.
  - rewrite wd_out by lia. apply in_u64_0.
Qed.

Lemma splice_spec l a x n m :
  buf m l → buf n x → 0 ≤ a → a + n ≤ m →
  buf m (splice l a x) ∧
  ∀ i, wd (splice l a x) i = if decide (a ≤ i < a + n) then wd x (i - a) else wd l i.
Proof.
  intros [Hl Hok] [Hx Hokx] Ha Hm. unfold splice.
  pose proof (zlen_nonneg x).
  assert (zlen (take (Z.to_nat a) l) = a) as Ht
    by (unfold zlen in *; rewrite length_take; lia).
  assert (zlen (take (Z.to_nat a) l ++ x ++ drop (Z.to_nat (a + zlen x)) l) = m) as Hz.
  { rewrite !zlen_app, Ht. unfold zlen in *. rewrite length_drop. lia. }
  assert (∀ i, wd (take (Z.to_nat a) l ++ x ++ drop (Z.to_nat (a + zlen x)) l) i
    = if decide (a ≤ i < a + n) then wd x (i - a) else wd l i) as Hw.
  { intros i. destruct (decide (i < 0)).
    { rewrite !wd_out by lia. by rewrite decide_False by lia. }
    unfold wd. case_decide.
    - rewrite zget_app_r, zget_app_l by lia. by rewrite Ht.
    - destruct (decide (i < a)).
      + rewrite zget_app_l by lia. unfold zget. rewrite !decide_True by lia.
        rewrite lookup_take_lt by lia. done.
      + rewrite zget_app_r, zget_app_r by lia. unfold zget. rewrite !decide_True by lia.
        rewrite lookup_drop. do 2 f_equal. lia. }
  split; [|done]. split; [done|]. intros i. rewrite Hw. case_decide; [apply Hokx|apply Hok].
Qed.

Section passes.
Context (map_y wpr : Z) (Hy : 0 ≤ map_y) (Hw : 0 ≤ wpr).

(** The cell at column [p] of row [y]. *)
Definition cell (l : list Z) (y p : Z) : bool := rbit l (64 * (y * wpr) + p).

Lemma row_in_range y : 0 ≤ y < map_y → 0 ≤ y * wpr ∧ y * wpr + wpr ≤ map_y * wpr.
Proof. intros. nia. Qed.

(** Two rows do not overlap. *)
Lemma row_unique y y' p :
  0 ≤ p < 64 * wpr →
  64 * (y' * wpr) ≤ 64 * (y * wpr) + p < 64 * (y' * wpr + wpr) ↔ y = y'.
Proof.
  intros Hp. split; [|intros ->; lia]. intros H.
  destruct (Z.lt_trichotomy y y') as [Hl|[?|Hl]]; [|done|]; exfalso.
  - pose proof (Z.mul_le_mono_nonneg_r (y + 1) y' wpr). lia.
  - pose proof (Z.mul_le_mono_nonneg_r (y' + 1) y wpr). lia.
Qed.

(** OR-ing row [r] of [src] into row [r + d] of [dst]. *)
Lemma or_row dst src r d :
  buf (map_y * wpr) dst → buf (map_y * wpr) src →
  0 ≤ r < map_y → 0 ≤ r + d < map_y →
  ∃ dst', or_words dst src ((r + d) * wpr) (r * wpr) wpr = Ok dst' ∧ buf (map_y * wpr) dst' ∧
    ∀ y p, 0 ≤ p < 64 * wpr →
      cell dst' y p = cell dst y p || bool_decide (y = r + d) && cell src r p.
Proof.
  intros Hd Hs Hr Hrd. pose proof (row_in_range _ Hr). pose proof (row_in_range _ Hrd).
  destruct (or_words_bits dst src _ _ ((r + d) * wpr) (r * wpr) wpr Hd Hs) as (d' & -> & Hb & Hbits);
    [lia..|].
  exists d'. split; [done|]. split; [done|]. intros y p Hp. unfold cell. rewrite Hbits.
  f_equal. rewrite (bool_decide_ext _ _ (row_unique y (r + d) p Hp)).
  case_bool_decide as E; [|done]. cbn. f_equal. subst y. lia.
Qed.

(** The two conditional ORs of row [r] at distance [sy]. *)
Definition y_row (src : list Z) (sy r : Z) (dst : list Z) : res (list Z) :=
  dst ← (if r + sy <? map_y
         then or_words dst src ((r + sy) * wpr) (r * wpr) wpr else Ok dst);
  if sy <=? r then or_words dst src ((r - sy) * wpr) (r * wpr) wpr else Ok dst.

Lemma or_row_if (b : bool) dst src r d :
  buf (map_y * wpr) dst → buf (map_y * wpr) src → 0 ≤ r < map_y →
  b = bool_decide (0 ≤ r + d < map_y) →
  ∃ dst', (if b then or_words dst src ((r + d) * wpr) (r * wpr) wpr else Ok dst) = Ok dst' ∧
    buf (map_y * wpr) dst' ∧
    ∀ y p, 0 ≤ y < map_y → 0 ≤ p < 64 * wpr →
      cell dst' y p = cell dst y p || bool_decide (y = r + d) && cell src r p.
Proof.
  intros Hd Hs Hr ->. case_bool_decide.
  - destruct (or_row dst src r d) as (d1 & ? & ? & ?); [done..|]. eauto.
  - exists dst. split; [done|]. split; [done|]. intros y p Hyy _.
    rewrite bool_decide_eq_false_2 by lia. by rewrite orb_false_r.
Qed.

Lemma y_row_spec src sy r d :
  buf (map_y * wpr) src → buf (map_y * wpr) d → 1 ≤ sy → 0 ≤ r < map_y →
  ∃ d', y_row src sy r d = Ok d' ∧ buf (map_y * wpr) d' ∧
    ∀ y p, 0 ≤ y < map_y → 0 ≤ p < 64 * wpr →
      (cell d' y p = true ↔ cell d y p = true ∨ (Z.abs (y - r) = sy ∧ cell src r p = true)).
Proof.
  intros Hs Hbd Hsy Hr. unfold y_row.
  destruct (or_row_if (r + sy <? map_y) d src r sy) as (d1 & -> & Hb1 & Hc1); [done..| |].
  { destruct (Z.ltb_spec (r + sy) map_y); symmetry;
      [apply bool_decide_eq_true_2|apply bool_decide_eq_false_2]; lia. }
  rewrite ok_bind.
  destruct (or_row_if (sy <=? r) d1 src r (- sy)) as (d2 & E & Hb2 & Hc2); [done..| |].
  { destruct (Z.leb_spec sy r); symmetry;
      [apply bool_decide_eq_true_2|apply bool_decide_eq_false_2]; lia. }
  replace (r + - sy) with (r - sy) in E by lia. rewrite E.
  exists d2. split; [done|]. split; [done|]. intros y p Hyy Hp.
  rewrite Hc2, Hc1, !orb_true_iff, !andb_true_iff, !bool_decide_eq_true by done.
  split.
  - intros [[?|[? ?]]|[? ?]]; [by left|right; split; [lia|done]..].
  - intros [?|[? ?]]; [by do 2 left|].
    destruct (decide (y = r + sy)); [by left; right|]. right. split; [lia|done].
Qed.

(** All rows at one distance. *)
Lemma y_shift_spec src sy dst :
  buf (map_y * wpr) src → buf (map_y * wpr) dst → 1 ≤ sy →
  ∃ d, for_range 0 map_y (y_row src sy) dst = Ok d ∧ buf (map_y * wpr) d ∧
    ∀ y p, 0 ≤ y < map_y → 0 ≤ p < 64 * wpr →
      (cell d y p = true ↔ cell dst y p = true ∨
       ∃ y', 0 ≤ y' < map_y ∧ Z.abs (y - y') = sy ∧ cell src y' p = true).
Proof.
  intros Hs Hb Hsy.
  apply (for_range_inv (fun r d => buf (map_y * wpr) d ∧
    ∀ y p, 0 ≤ y < map_y → 0 ≤ p < 64 * wpr →
      (cell d y p = true ↔ cell dst y p = true ∨
       ∃ y', 0 ≤ y' < r ∧ Z.abs (y - y') = sy ∧ cell src y' p = true)) 0 map_y); [lia| |].
  { split; [done|]. intros y p _ _. split; [by left|]. intros [?|(y' & ? & _)]; [done|lia]. }
  intros r d Hr [Hbd Hcd].
  destruct (y_row_spec src sy r d) as (d' & -> & Hb' & Hc'); [done..|].
  exists d'. split; [done|]. split; [done|]. intros y p Hyy Hp.
  rewrite (Hc' y p Hyy Hp), (Hcd y p Hyy Hp). split.
  - intros [[?|(y' & ? & ? & ?)]|[? ?]]; [by left|right..].
    + exists y'. repeat split; try done; lia.
    + exists r. repeat split; try done; lia.
  - intros [?|(y' & ? & ? & ?)]; [by do 2 left|].
    destruct (decide (y' = r)) as [->|]; [by right|].
    left. right. exists y'. repeat split; try done; lia.
Qed.

Lemma y_pass_spec src dy :
  buf (map_y * wpr) src → 0 ≤ dy →
  ∃ dst, y_pass src src map_y wpr dy = Ok dst ∧ buf (map_y * wpr) dst ∧
    ∀ y p, 0 ≤ y < map_y → 0 ≤ p < 64 * wpr →
      (cell dst y p = true ↔ ∃ y', 0 ≤ y' < map_y ∧ Z.abs (y - y') ≤ dy ∧ cell src y' p = true).
Proof.
  intros Hs Hdy. unfold y_pass, for_incl.
  destruct (for_range_inv (fun sy dst => buf (map_y * wpr) dst ∧
    ∀ y p, 0 ≤ y < map_y → 0 ≤ p < 64 * wpr →
      (cell dst y p = true ↔
       ∃ y', 0 ≤ y' < map_y ∧ Z.abs (y - y') < sy ∧ cell src y' p = true)) 1 (dy + 1)
    (fun sy => for_range 0 map_y (y_row src sy)) src) as (dst & E & Hb & Hc).
  - lia.
  - split; [done|]. intros y p Hyy Hp. split.
    + intros H. exists y. repeat split; try done; lia.
    + intros (y' & ? & ? & H). by replace y with y' by lia.
  - intros sy dst Hsy [Hb Hc].
    destruct (y_shift_spec src sy dst) as (d' & -> & Hb' & Hc'); [done..|lia|].
    exists d'. split; [done|]. split; [done|]. intros y p Hyy Hp.
    rewrite (Hc' y p Hyy Hp), (Hc y p Hyy Hp). split.
    + intros [(y' & ? & ? & ?)|(y' & ? & ? & ?)]; exists y'; repeat split; try done; lia.
    + intros (y' & ? & ? & ?). destruct (decide (Z.abs (y - y') = sy)).
      * right. exists y'. done.
      * left. exists y'. repeat split; try done; lia.
  - exists dst. split; [exact E|]. split; [done|]. intros y p Hyy Hp. rewrite (Hc y p Hyy Hp).
    split; intros (y' & ? & ? & ?); exists y'; repeat split; try done; lia.
Qed.

(** ** The row pass *)

(** OR-ing a row buffer into row [y]. *)
Lemma or_buffer dst neg y :
  buf (map_y * wpr) dst → buf wpr neg → 0 ≤ y < map_y →
  ∃ dst', or_words dst neg (y * wpr) 0 wpr = Ok dst' ∧ buf (map_y * wpr) dst' ∧
    ∀ y' p, 0 ≤ p < 64 * wpr →
      cell dst' y' p = cell dst y' p || bool_decide (y' = y) && rbit neg p.
Proof.
  intros Hd Hn Hyy. pose proof (row_in_range _ Hyy).
  destruct (or_words_bits dst neg _ _ (y * wpr) 0 wpr Hd Hn) as (d' & -> & Hb & Hbits); [lia..|].
  exists d'. split; [done|]. split; [done|]. intros y' p Hp. unfold cell. rewrite Hbits.
  f_equal. rewrite (bool_decide_ext _ _ (row_unique y' y p Hp)).
  case_bool_decide as E; [|done]. cbn. f_equal. subst y'. lia.
Qed.

Lemma x_pass_row_spec dst pos rmask y dx :
  buf (map_y * wpr) dst → buf wpr pos → buf wpr rmask → 0 ≤ y < map_y → 0 ≤ dx < 64 →
  ∃ dst', x_pass_row dst pos rmask (y * wpr) wpr dx = Ok dst' ∧ buf (map_y * wpr) dst' ∧
    ∀ y' p, 0 ≤ p < 64 * wpr →
      (cell dst' y' p = true ↔ cell dst y' p = true ∨
       (y' = y ∧ rbit rmask p = true ∧ ∃ a, 1 ≤ Z.abs a ≤ dx ∧ rbit pos (p + a) = true)).
Proof.
  intros Hd Hp Hm Hyy Hdx. unfold x_pass_row, for_incl.
  assert (buf wpr (vec_repeat 0 wpr)) as Hz
    by (split; [by apply zlen_repeat|apply words_ok_repeat]).
  destruct (for_range_inv (fun sx d => buf (map_y * wpr) d ∧
    ∀ y' p, 0 ≤ p < 64 * wpr →
      (cell d y' p = true ↔ cell dst y' p = true ∨
       (y' = y ∧ rbit rmask p = true ∧ ∃ a, 1 ≤ Z.abs a < sx ∧ rbit pos (p + a) = true)))
    1 (dx + 1)
    (fun sx dst =>
      neg ← shift_row (vec_repeat 0 wpr) pos sx rmask;
      dst ← or_words dst neg (y * wpr) 0 wpr;
      neg ← shift_row neg pos (- sx) rmask;
      or_words dst neg (y * wpr) 0 wpr) dst) as (d & -> & Hb & Hc).
  - lia.
  - split; [done|]. intros y' p _. split; [by left|]. intros [?|(_ & _ & a & ? & _)]; [done|lia].
  - intros sx d Hsx [Hb Hc].
    destruct (shift_row_buf (vec_repeat 0 wpr) pos sx rmask wpr) as (n1 & -> & Hn1 & Hr1);
      [done..|lia|]. rewrite ok_bind.
    destruct (or_buffer d n1 y) as (d1 & -> & Hb1 & Hc1); [done..|]. rewrite ok_bind.
    destruct (shift_row_buf n1 pos (- sx) rmask wpr) as (n2 & -> & Hn2 & Hr2);
      [done..|lia|]. rewrite ok_bind.
    destruct (or_buffer d1 n2 y) as (d2 & -> & Hb2 & Hc2); [done..|].
    exists d2. split; [done|]. split; [done|]. intros y' p Hpp.
    rewrite Hc2, Hc1, Hr1, Hr2, !orb_true_iff, !andb_true_iff, !bool_decide_eq_true by done.
    rewrite (Hc y' p Hpp). split.
    + intros [[[?|(? & ? & a & ? & ?)]|(? & ? & ?)]|(? & ? & ?)]; [by left|right..].
      * split; [done|]. split; [done|]. exists a. split; [lia|done].
      * split; [done|]. split; [done|]. exists (- sx). split; [lia|done].
      * split; [done|]. split; [done|]. exists sx. split; [lia|].
        by replace (p + sx) with (p - - sx) by lia.
    + intros [?|(-> & ? & a & ? & ?)]; [by do 3 left|].
      destruct (decide (a = sx)) as [->|].
      { right. repeat split; try done. by replace (p - - sx) with (p + sx) by lia. }
      destruct (decide (a = - sx)) as [->|].
      { left. right. repeat split; try done. }
      left. left. right. repeat split; try done. exists a. split; [lia|done].
  - exists d. split; [done|]. split; [done|]. intros y' p Hpp. rewrite (Hc y' p Hpp).
    split; (intros [?|(? & ? & a & ? & ?)]; [by left|right; repeat split; try done;
      exists a; split; [lia|done]]).
Qed.

(** ** The whole 2-D dilation *)

(** Column [p] of row [y], false outside the words of the row. *)
Definition rowbit (l : list Z) (y p : Z) : bool :=
  bool_decide (0 ≤ p < 64 * wpr) && cell l y p.

Lemma rbit_buf_row l l' y :
  buf (map_y * wpr) l → buf wpr l' → 0 ≤ y < map_y →
  (∀ i, 0 ≤ i < wpr → wd l' i = wd l (y * wpr + i)) →
  ∀ p, rbit l' p = rowbit l y p.
Proof.
  intros Hl Hl' Hyy Hw' p. unfold rowbit. case_bool_decide as Hp; cbn.
  2: { apply rbit_out. rewrite (buf_len _ _ Hl'). lia. }
  unfold cell. revert p Hp. apply (rbit_ind (fun p => 0 ≤ p < _ → _)). intros i k Hk Hp.
  replace (64 * (y * wpr) + (64 * i + k)) with (64 * (y * wpr + i) + k) by lia.
  rewrite !rbit_word, Hw' by lia. done.
Qed.

(** What the final mask and the dilation leave of row [y]. *)
Definition dilated_row (rmask l : list Z) (dx y p : Z) : Prop :=
  rbit rmask p = true ∧ ∃ a, Z.abs a ≤ dx ∧ rowbit l y (p + a) = true.

Lemma x_pass_spec dst rmask dx :
  buf (map_y * wpr) dst → buf wpr rmask → 0 ≤ dx < 64 →
  ∃ d, x_pass dst rmask map_y wpr dx = Ok d ∧ buf (map_y * wpr) d ∧
    ∀ y p, 0 ≤ y < map_y → 0 ≤ p < 64 * wpr →
      (cell d y p = true ↔ dilated_row rmask dst dx y p).
Proof.
  intros Hd Hm Hdx. unfold x_pass.
  destruct (for_range_inv (fun r d => buf (map_y * wpr) d ∧
    ∀ y p, 0 ≤ y < map_y → 0 ≤ p < 64 * wpr →
      (y < r → cell d y p = true ↔ dilated_row rmask dst dx y p) ∧
      (r ≤ y → cell d y p = cell dst y p)) 0 map_y
    (fun iy dst =>
      let row_start := iy * wpr in
      pos ← sub_slice dst row_start wpr;
      dst ← x_pass_row dst pos rmask row_start wpr dx;
      mask_words dst rmask row_start wpr) dst) as (d & E & Hb & Hc).
  - lia.
  - split; [done|]. intros y p ? _. split; [lia|done].
  - intros r d Hr [Hb Hc]. cbv zeta. pose proof (row_in_range _ Hr).
    destruct (sub_slice_spec d (r * wpr) wpr _ Hb) as (pos & -> & Hbp & Hpos); [lia..|].
    rewrite ok_bind.
    pose proof (rbit_buf_row d pos r Hb Hbp Hr Hpos) as Hpb.
    destruct (x_pass_row_spec d pos rmask r dx) as (d1 & -> & Hb1 & Hc1); [done..|].
    rewrite ok_bind.
    destruct (mask_words_bits d1 rmask _ _ (r * wpr) wpr Hb1 Hm) as (d2 & -> & Hb2 & Hc2);
      [lia..|].
    exists d2. split; [done|]. split; [done|]. intros y p Hyy Hp.
    assert (cell d2 y p = cell d1 y p && (negb (bool_decide (y = r)) || rbit rmask p)) as E2.
    { unfold cell. rewrite Hc2. f_equal.
      rewrite (bool_decide_ext _ _ (row_unique y r p Hp)).
      case_bool_decide as E; [|done]. cbn. f_equal. subst y. lia. }
    rewrite E2. clear E2. destruct (decide (y = r)) as [->|Hne].
    + rewrite bool_decide_eq_true_2 by done. cbn. split; [intros _|lia].
      rewrite andb_true_iff, (Hc1 r p Hp). unfold dilated_row.
      assert (∀ q, rowbit d r q = rowbit dst r q) as Hrow.
      { intros q. unfold rowbit. case_bool_decide; [|done]. cbn. by apply (Hc r q). }
      split.
      * intros [[?|(_ & _ & a & ? & Ha)] ?]; (split; [done|]).
        -- exists 0. split; [lia|]. rewrite Z.add_0_r, <- Hrow. unfold rowbit.
           by rewrite bool_decide_eq_true_2.
        -- exists a. split; [lia|]. by rewrite <- Hrow, <- Hpb.
      * intros [? (a & ? & Ha)]. split; [|done]. rewrite <- Hrow in Ha.
        destruct (decide (a = 0)) as [->|].
        -- left. rewrite Z.add_0_r in Ha. unfold rowbit in Ha. by apply andb_prop in Ha as [_ ?].
        -- right. split; [done|]. split; [done|]. exists a. rewrite Hpb. split; [lia|done].
    + rewrite bool_decide_eq_false_2 by done. cbn. rewrite andb_true_r.
      assert (cell d1 y p = cell d y p) as ->.
      { apply eq_bool_prop_intro. rewrite !Is_true_true, (Hc1 y p Hp). tauto. }
      split; intros ?; apply Hc; lia.
  - exists d. split; [exact E|]. split; [done|]. intros y p Hyy Hp. apply Hc; [done..|lia].
Qed.

Lemma mask_rows_spec dst rmask :
  buf (map_y * wpr) dst → buf wpr rmask →
  ∃ d, for_range 0 map_y (fun iy dst => mask_words dst rmask (iy * wpr) wpr) dst = Ok d
    ∧ buf (map_y * wpr) d ∧
    ∀ y p, 0 ≤ y < map_y → 0 ≤ p < 64 * wpr → cell d y p = cell dst y p && rbit rmask p.
Proof.
  intros Hd Hm.
  destruct (for_range_inv (fun r d => buf (map_y * wpr) d ∧
    ∀ y p, 0 ≤ y < map_y → 0 ≤ p < 64 * wpr →
      cell d y p = cell dst y p && (bool_decide (r ≤ y) || rbit rmask p)) 0 map_y
    (fun iy dst => mask_words dst rmask (iy * wpr) wpr) dst) as (d & -> & Hb & Hc).
  - lia.
  - split; [done|]. intros y p ? _. rewrite bool_decide_eq_true_2 by lia. by rewrite andb_true_r.
  - intros r d Hr [Hb Hc]. pose proof (row_in_range _ Hr).
    destruct (mask_words_bits d rmask _ _ (r * wpr) wpr Hb Hm) as (d2 & -> & Hb2 & Hc2); [lia..|].
    exists d2. split; [done|]. split; [done|]. intros y p Hyy Hp.
    assert (cell d2 y p = cell d y p && (negb (bool_decide (y = r)) || rbit rmask p)) as ->.
    { unfold cell. rewrite Hc2. f_equal. rewrite (bool_decide_ext _ _ (row_unique y r p Hp)).
      case_bool_decide as E; [|done]. cbn. f_equal. subst y. lia. }
    rewrite Hc by done. repeat case_bool_decide; try lia; cbn;
      destruct (cell dst y p), (rbit rmask p); done.
  - exists d. split; [done|]. split; [done|]. intros y p Hyy Hp. rewrite Hc by done.
    by rewrite bool_decide_eq_false_2 by lia.
Qed.

Lemma dilate2d_into_spec dst src rmask dx dy :
  buf (map_y * wpr) src → zlen dst = zlen src → buf wpr rmask → 0 ≤ dx < 64 → 0 ≤ dy →
  ∃ d, dilate2d_into dst src {| rl_map_y := map_y; rl_wpr := wpr; rl_rmask := rmask |} dx dy
         = Ok d ∧ buf (map_y * wpr) d ∧
    ∀ y p, 0 ≤ y < map_y → 0 ≤ p < 64 * wpr →
      (cell d y p = true ↔ rbit rmask p = true ∧
         ∃ y' p', 0 ≤ y' < map_y ∧ 0 ≤ p' < 64 * wpr ∧
           Z.abs (y - y') ≤ dy ∧ Z.abs (p - p') ≤ dx ∧ cell src y' p' = true).
Proof.
  intros Hs Hl Hm Hdx Hdy. unfold dilate2d_into. cbn [rl_map_y rl_wpr rl_rmask].
  destruct (Z.ltb_spec dx 64); [|lia]. rewrite Hl, Z.eqb_refl. cbn [rassert]. rewrite !ok_bind.
  destruct (y_pass_spec src dy Hs Hdy) as (d1 & -> & Hb1 & Hc1). rewrite ok_bind.
  destruct (Z.eqb_spec dx 0) as [->|].
  - destruct (mask_rows_spec d1 rmask Hb1 Hm) as (d2 & -> & Hb2 & Hc2).
    exists d2. split; [done|]. split; [done|]. intros y p Hyy Hp.
    rewrite Hc2, andb_true_iff, Hc1 by done. split.
    + intros [(y' & ? & ? & ?) ?]. split; [done|]. exists y', p. repeat split; try done; lia.
    + intros [? (y' & p' & ? & ? & ? & ? & ?)]. split; [|done]. exists y'.
      replace p with p' by lia. done.
  - destruct (x_pass_spec d1 rmask dx Hb1 Hm Hdx) as (d2 & -> & Hb2 & Hc2).
    exists d2. split; [done|]. split; [done|]. intros y p Hyy Hp.
    rewrite (Hc2 y p Hyy Hp). unfold dilated_row. split.
    + intros [? (a & ? & Ha)]. split; [done|]. unfold rowbit in Ha.
      apply andb_prop in Ha as [Ha1 Ha2]. apply bool_decide_eq_true in Ha1.
      rewrite Hc1 in Ha2 by done. destruct Ha2 as (y' & ? & ? & ?).
      exists y', (p + a). repeat split; try done; lia.
    + intros [? (y' & p' & ? & ? & ? & ? & ?)]. split; [done|]. exists (p' - p).
      split; [lia|]. replace (p + (p' - p)) with p' by lia. unfold rowbit.
      rewrite bool_decide_eq_true_2 by done. cbn. rewrite Hc1 by done.
      exists y'. done.
Qed.
End passes.

(** ** Boards *)

Lemma words_per_row_bounds map_x :
  0 ≤ map_x → 0 ≤ words_per_row map_x ∧ map_x ≤ 64 * words_per_row map_x < map_x + 64.
Proof.
  intros H. unfold words_per_row. pose proof (div_ceil_bounds map_x 64 ltac:(lia)). lia.
Qed.

Lemma row_mask_spec map_x :
  0 ≤ map_x →
  ∃ m, row_mask map_x = Ok m ∧ buf (words_per_row map_x) m ∧
    ∀ p, rbit m p = bool_decide (0 ≤ p < map_x).
Proof.
  intros Hx. pose proof (words_per_row_bounds map_x Hx) as [Hw Hb].
  set (nw := words_per_row map_x) in *. unfold row_mask. fold nw.
  pose proof (Z.div_mod map_x 64 ltac:(lia)) as Hdm.
  pose proof (Z.mod_pos_bound map_x 64 ltac:(lia)) as Hmod.
  assert (∀ i, 0 ≤ i < nw → wd (vec_repeat U64_MAX nw) i = U64_MAX) as Hrep.
  { intros i Hi. unfold wd. by rewrite zget_repeat. }
  assert (∀ k, 0 ≤ k < 64 → Z.testbit U64_MAX k = true) as Hones.
  { intros k Hk. change U64_MAX with (Z.ones 64). by apply Z.ones_spec_low. }
  assert (in_u64 U64_MAX) as HU by (split; [done|reflexivity]).
  destruct (Z.eqb_spec (map_x mod 64) 0) as [E0|E0]; cbn [negb].
  - exists (vec_repeat U64_MAX nw). split; [done|].
    assert (64 * nw = map_x) as Hnw by lia.
    split.
    { split; [by apply zlen_repeat|]. intros i. destruct (decide (0 ≤ i < nw)).
      - by rewrite Hrep.
      - rewrite wd_out by (rewrite zlen_repeat; lia). apply in_u64_0. }
    intros p. case_bool_decide as Hp.
    + revert p Hp. apply (rbit_ind (fun p => 0 ≤ p < _ → _)). intros i k Hk Hp.
      rewrite rbit_word, Hrep by lia. by apply Hones.
    + apply rbit_out. rewrite zlen_repeat; lia.
  - assert (0 < nw) by lia. assert (map_x = 64 * (nw - 1) + map_x mod 64) as Hnw by lia.
    rewrite vset_ok by (rewrite zlen_repeat; lia). eexists. split; [done|].
    assert (u64_shl 1 (map_x mod 64) - 1 = Z.ones (map_x mod 64)) as ->.
    { unfold u64_shl. rewrite Z.shiftl_1_l, wrap_u_small, Z.ones_equiv; [lia|].
      split; [apply Z.pow_nonneg; lia|]. apply Z.pow_lt_mono_r; lia. }
    assert (in_u64 (Z.ones (map_x mod 64))) as Hin.
    { rewrite Z.ones_equiv. unfold in_u64.
      pose proof (Z.pow_lt_mono_r 2 (map_x mod 64) 64). 
      pose proof (Z.pow_pos_nonneg 2 (map_x mod 64)). lia. }
    split.
    { split; [by rewrite zlen_zset, zlen_repeat|]. intros i.
      rewrite wd_zset by (rewrite zlen_repeat; lia). case_decide; [done|].
      destruct (decide (0 ≤ i < nw)).
      - by rewrite Hrep.
      - rewrite wd_out by (rewrite zlen_repeat; lia). apply in_u64_0. }
    apply rbit_ind. intros i k Hk. rewrite rbit_word by done.
    rewrite wd_zset by (rewrite zlen_repeat; lia). case_decide as Ei.
    + subst i. rewrite Z.testbit_ones_nonneg by lia.
      case_bool_decide; destruct (Z.ltb_spec k (map_x mod 64)); lia.
    + destruct (decide (0 ≤ i < nw)).
      * rewrite Hrep, Hones by done. symmetry. apply bool_decide_eq_true_2. lia.
      * rewrite wd_out by (rewrite zlen_repeat; lia). rewrite Z.testbit_0_l.
        symmetry. apply bool_decide_eq_false_2. lia.
Qed.

Record wf2 (bb : Bitboard2D) : Prop := {
  w2_x : 0 ≤ b2_map_x bb < 2 ^ 31;
  w2_y : 0 ≤ b2_map_y bb;
  w2_wpr : b2_wpr bb = words_per_row (b2_map_x bb);
  w2_size : b2_map_y bb * b2_wpr bb < 2 ^ 31;
  w2_buf : buf (b2_map_y bb * b2_wpr bb) (b2_data bb);
  w2_mask : ∀ y p, 0 ≤ y < b2_map_y bb → b2_map_x bb ≤ p < 64 * b2_wpr bb →
              cell (b2_wpr bb) (b2_data bb) y p = false
}.

(** The cells of a board. *)
Definition has2 (bb : Bitboard2D) (x y : Z) : bool := cell (b2_wpr bb) (b2_data bb) y x.

Definition in2 (bb : Bitboard2D) (x y : Z) : Prop :=
  0 ≤ x < b2_map_x bb ∧ 0 ≤ y < b2_map_y bb.

Definition same_dims2 (a b : Bitboard2D) : Prop :=
  b2_map_x a = b2_map_x b ∧ b2_map_y a = b2_map_y b.

Lemma wf2_wpr bb : wf2 bb → 0 ≤ b2_wpr bb ∧ b2_map_x bb ≤ 64 * b2_wpr bb.
Proof.
  intros H. rewrite (w2_wpr _ H). pose proof (w2_x _ H).
  pose proof (words_per_row_bounds (b2_map_x bb)). lia.
Qed.

Lemma cell_word wpr l y x : 0 ≤ x → cell wpr l y x = Z.testbit (wd l (y * wpr + x / 64)) (x mod 64).
Proof.
  intros Hx. unfold cell. pose proof (Z.div_mod x 64 ltac:(lia)) as E.
  pose proof (Z.mod_pos_bound x 64 ltac:(lia)).
  rewrite <- rbit_word by done. f_equal. lia.
Qed.

Lemma bb2_index_eq bb x y :
  wf2 bb → in2 bb x y →
  bb2_index bb x y = y * b2_wpr bb + x / 64 ∧
  0 ≤ y * b2_wpr bb + x / 64 < b2_map_y bb * b2_wpr bb.
Proof.
  intros H [Hx Hy]. pose proof (wf2_wpr bb H) as [Hw Hxw]. pose proof (w2_size _ H).
  pose proof (row_in_range (b2_map_y bb) (b2_wpr bb) (w2_y _ H) Hw y Hy).
  assert (0 ≤ x / 64 < b2_wpr bb)
    by (split; [apply Z.div_pos; lia|apply Z.div_lt_upper_bound; lia]).
  unfold bb2_index. rewrite u32_mul_small, u32_add_small by (unfold in_u32; lia). lia.
Qed.

Lemma bit_mask_shl k : 0 ≤ k < 64 → u64_shl 1 k = 2 ^ k.
Proof.
  intros Hk. unfold u64_shl. rewrite Z.shiftl_1_l. apply wrap_u_small.
  split; [apply Z.pow_nonneg; lia|apply Z.pow_lt_mono_r; lia].
Qed.

Lemma testbit_land_pow2 w k : 0 ≤ k → negb (Z.land w (2 ^ k) =? 0) = Z.testbit w k.
Proof.
  intros Hk. destruct (Z.testbit w k) eqn:E.
  - destruct (Z.eqb_spec (Z.land w (2 ^ k)) 0) as [H|]; [|done].
    assert (Z.testbit (Z.land w (2 ^ k)) k = false) as Hf by (rewrite H; apply Z.testbit_0_l).
    rewrite Z.land_spec, E, Z.pow2_bits_true in Hf by lia. done.
  - destruct (Z.eqb_spec (Z.land w (2 ^ k)) 0) as [|H]; [done|]. exfalso. apply H.
    apply Z.bits_inj'. intros j Hj. rewrite Z.land_spec, Z.testbit_0_l.
    destruct (decide (j = k)) as [->|]; [by rewrite E|].
    rewrite (Z.pow2_bits_false k j) by lia. apply andb_false_r.
Qed.

Lemma bb2_test_eq bb x y : wf2 bb → in2 bb x y → bb2_test bb x y = Ok (has2 bb x y).
Proof.
  intros H Hin. destruct (bb2_index_eq bb x y H Hin) as [E Hr]. unfold bb2_test.
  rewrite E, vget_wd by (rewrite (buf_len _ _ (w2_buf _ H)); lia). rewrite ok_bind.
  pose proof (Z.mod_pos_bound x 64 ltac:(lia)).
  rewrite bit_mask_shl, testbit_land_pow2 by lia. unfold has2.
  rewrite cell_word; [done|]. destruct Hin. lia.
Qed.

Lemma cell_zset wpr l n y x y' x' w :
  buf n l → 0 ≤ wpr → 0 ≤ x < 64 * wpr → 0 ≤ x' < 64 * wpr → 0 ≤ y * wpr + x / 64 < n →
  w = Z.lor (wd l (y * wpr + x / 64)) (2 ^ (x mod 64)) →
  cell wpr (zset l (y * wpr + x / 64) w) y' x'
  = cell wpr l y' x' || bool_decide (x' = x ∧ y' = y).
Proof.
  intros [Hl _] Hw Hx Hx' Hr ->. rewrite !cell_word by lia. rewrite wd_zset by lia.
  pose proof (Z.mod_pos_bound x 64 ltac:(lia)). pose proof (Z.mod_pos_bound x' 64 ltac:(lia)).
  pose proof (Z.div_mod x 64 ltac:(lia)). pose proof (Z.div_mod x' 64 ltac:(lia)).
  assert (y * wpr + x / 64 = y' * wpr + x' / 64 → y = y' ∧ x / 64 = x' / 64) as Huniq.
  { intros E. destruct (digit_eq wpr y y' (x / 64) (x' / 64)); [lia..|done]. }
  case_decide as E.
  - apply Huniq in E as [-> E]. rewrite Z.lor_spec. rewrite E. f_equal.
    destruct (decide (x mod 64 = x' mod 64)) as [Em|Em].
    + rewrite Em, Z.pow2_bits_true by lia. symmetry. apply bool_decide_eq_true_2. lia.
    + rewrite Z.pow2_bits_false by lia. symmetry. apply bool_decide_eq_false_2. lia.
  - rewrite bool_decide_eq_false_2; [by rewrite orb_false_r|]. intros [-> ->]. lia.
Qed.

Lemma bb2_set_eq bb x y :
  wf2 bb → in2 bb x y →
  ∃ bb', bb2_set bb x y = Ok bb' ∧ wf2 bb' ∧ same_dims2 bb' bb ∧
    ∀ x' y', in2 bb x' y' → has2 bb' x' y' = has2 bb x' y' || bool_decide (x' = x ∧ y' = y).
Proof.
  intros H Hin. destruct (bb2_index_eq bb x y H Hin) as [E Hr]. unfold bb2_set.
  pose proof (w2_buf _ H) as Hbuf. pose proof (wf2_wpr bb H) as [Hw Hxw].
  rewrite E, vget_wd by (rewrite (buf_len _ _ Hbuf); lia). rewrite ok_bind.
  rewrite vset_ok by (rewrite (buf_len _ _ Hbuf); lia). rewrite ok_bind.
  pose proof (Z.mod_pos_bound x 64 ltac:(lia)). rewrite bit_mask_shl by lia.
  pose proof Hin as [Hx Hy]. eexists. split; [done|].
  assert (∀ x' y', 0 ≤ x' < 64 * b2_wpr bb →
    cell (b2_wpr bb) (zset (b2_data bb) (y * b2_wpr bb + x / 64)
      (Z.lor (wd (b2_data bb) (y * b2_wpr bb + x / 64)) (2 ^ (x mod 64)))) y' x'
    = cell (b2_wpr bb) (b2_data bb) y' x' || bool_decide (x' = x ∧ y' = y)) as Hcell.
  { intros x' y' Hx'. by eapply cell_zset; try exact Hbuf; try lia. }
  split; [|split; [done|]].
  - destruct H as [H1 H2 H3 H4 H5 H6]. split; cbn; try done.
    + destruct Hbuf as [Hl Hok]. split; [by rewrite zlen_zset|].
      apply words_ok_zset; [done| |lia]. apply in_u64_lor; [done|].
      rewrite <- bit_mask_shl by lia. apply in_u64_shl.
    + intros y' p Hy' Hp. rewrite Hcell by lia. rewrite H6 by done. cbn.
      apply bool_decide_eq_false_2. lia.
  - intros x' y' [Hx' Hy']. unfold has2. cbn. apply Hcell. lia.
Qed.

Lemma cell_repeat wpr n y p : cell wpr (vec_repeat 0 n) y p = false.
Proof. unfold cell, rbit. rewrite wd_repeat. apply Z.testbit_0_l. Qed.

Lemma bb2_new_wf map_x map_y :
  0 ≤ map_x < 2 ^ 31 → 0 ≤ map_y → map_y * words_per_row map_x < 2 ^ 31 →
  wf2 (bb2_new map_x map_y) ∧ ∀ x y, has2 (bb2_new map_x map_y) x y = false.
Proof.
  intros Hx Hy Hs. pose proof (words_per_row_bounds map_x ltac:(lia)) as [Hw _].
  pose proof (Z.mul_nonneg_nonneg map_y (words_per_row map_x) Hy Hw).
  split; [|intros; apply cell_repeat].
  split; cbn; try done.
  - rewrite u32_mul_small by (unfold in_u32; lia).
    split; [by apply zlen_repeat|apply words_ok_repeat].
  - intros. apply cell_repeat.
Qed.

(** The 2-D dilation adds the cells of the [(2 dx + 1) x (2 dy + 1)] box. *)
Lemma dilate2d_eq bb dx dy :
  wf2 bb → 0 ≤ dx < 64 → 0 ≤ dy →
  ∃ bb', dilate2d bb dx dy = Ok bb' ∧ wf2 bb' ∧ same_dims2 bb' bb ∧
    ∀ x y, in2 bb x y →
      (has2 bb' x y = true ↔ ∃ x' y', in2 bb x' y' ∧ Z.abs (x - x') ≤ dx ∧ Z.abs (y - y') ≤ dy
                                ∧ has2 bb x' y' = true).
Proof.
  intros H Hdx Hdy. pose proof (wf2_wpr bb H) as [Hw Hxw]. pose proof H as [Hx Hy Hwpr Hs Hb Hm].
  unfold dilate2d. destruct (row_mask_spec (b2_map_x bb)) as (m & -> & Hbm & Hmask); [lia|].
  rewrite <- Hwpr in Hbm. rewrite ok_bind.
  pose proof (buf_nonneg _ _ Hb).
  destruct (dilate2d_into_spec (b2_map_y bb) (b2_wpr bb) Hy Hw
    (vec_repeat 0 (b2_map_y bb * b2_wpr bb)) (b2_data bb) m dx dy) as (d & -> & Hbd & Hc);
    [done|rewrite zlen_repeat, (buf_len _ _ Hb); lia|done..|].
  rewrite ok_bind. eexists. split; [done|]. split; [|split; [done|]].
  - split; cbn; try done. intros y p Hyy Hp.
    apply not_true_iff_false. rewrite (Hc y p Hyy) by lia. rewrite Hmask.
    rewrite bool_decide_eq_false_2 by lia. by intros [? _].
  - intros x y [Hxx Hyy]. unfold has2. cbn. rewrite (Hc y x Hyy) by lia.
    rewrite Hmask, bool_decide_eq_true_2 by lia. split.
    + intros [_ (y' & x' & ? & Hx' & ? & ? & Ht)]. exists x', y'.
      destruct (decide (x' < b2_map_x bb)); [split; [split; lia|]; repeat split; done|].
      rewrite Hm in Ht by lia. done.
    + intros (x' & y' & [? ?] & ? & ? & ?). split; [done|]. exists y', x'.
      repeat split; try done; lia.
Qed.

(** ** 3-D boards: the layers are [map_y] consecutive rows each *)

Record wf3 (bb : Bitboard3D) : Prop := {
  w3_x : 0 ≤ b3_map_x bb < 2 ^ 31;
  w3_y : 0 ≤ b3_map_y bb;
  w3_t : 0 ≤ b3_n_theta bb;
  w3_wpr : b3_wpr bb = words_per_row (b3_map_x bb);
  w3_size : b3_n_theta bb * b3_map_y bb * b3_wpr bb < 2 ^ 31;
  w3_sizes : b3_n_theta bb * b3_map_y bb < 2 ^ 31 ∧ b3_map_y bb * b3_wpr bb < 2 ^ 31;
  w3_buf : buf (b3_n_theta bb * b3_map_y bb * b3_wpr bb) (b3_data bb);
  w3_mask : ∀ r p, 0 ≤ r < b3_n_theta bb * b3_map_y bb → b3_map_x bb ≤ p < 64 * b3_wpr bb →
              cell (b3_wpr bb) (b3_data bb) r p = false
}.

Definition row3 (bb : Bitboard3D) (y t : Z) : Z := t * b3_map_y bb + y.
Definition has3 (bb : Bitboard3D) (x y t : Z) : bool :=
  cell (b3_wpr bb) (b3_data bb) (row3 bb y t) x.

Definition in3 (bb : Bitboard3D) (x y t : Z) : Prop :=
  0 ≤ x < b3_map_x bb ∧ 0 ≤ y < b3_map_y bb ∧ 0 ≤ t < b3_n_theta bb.

Definition same_dims3 (a b : Bitboard3D) : Prop :=
  b3_map_x a = b3_map_x b ∧ b3_map_y a = b3_map_y b ∧ b3_n_theta a = b3_n_theta b.

Lemma wf3_wpr bb : wf3 bb → 0 ≤ b3_wpr bb ∧ b3_map_x bb ≤ 64 * b3_wpr bb.
Proof.
  intros H. rewrite (w3_wpr _ H). pose proof (w3_x _ H).
  pose proof (words_per_row_bounds (b3_map_x bb)). lia.
Qed.

Lemma row3_range bb y t :
  wf3 bb → 0 ≤ y < b3_map_y bb → 0 ≤ t < b3_n_theta bb →
  0 ≤ row3 bb y t < b3_n_theta bb * b3_map_y bb.
Proof. intros H Hy Ht. unfold row3. nia. Qed.

Lemma row3_inj bb y t y' t' :
  0 ≤ y < b3_map_y bb → 0 ≤ y' < b3_map_y bb → row3 bb y t = row3 bb y' t' → y = y' ∧ t = t'.
Proof.
  unfold row3. intros ?? E. apply digit_eq in E; [|lia..]. lia.
Qed.

Lemma bb3_index_eq bb x y t :
  wf3 bb → in3 bb x y t →
  bb3_index bb x y t = row3 bb y t * b3_wpr bb + x / 64 ∧
  0 ≤ row3 bb y t * b3_wpr bb + x / 64 < b3_n_theta bb * b3_map_y bb * b3_wpr bb.
Proof.
  intros H (Hx & Hy & Ht). pose proof (wf3_wpr bb H) as [Hw Hxw]. pose proof (w3_size _ H).
  pose proof (w3_sizes _ H) as [? ?]. pose proof (row3_range bb y t H Hy Ht) as Hr.
  pose proof (row_in_range (b3_n_theta bb * b3_map_y bb) (b3_wpr bb) ltac:(lia) Hw _ Hr).
  assert (0 ≤ x / 64 < b3_wpr bb)
    by (split; [apply Z.div_pos; lia|apply Z.div_lt_upper_bound; lia]).
  unfold row3 in *.
  assert (0 ≤ t * b3_map_y bb) by (apply Z.mul_nonneg_nonneg; lia).
  assert (0 ≤ y * b3_wpr bb) by (apply Z.mul_nonneg_nonneg; lia).
  assert (0 ≤ t * b3_map_y bb * b3_wpr bb) by (apply Z.mul_nonneg_nonneg; lia).
  unfold bb3_index. rewrite (u32_mul_small t), (u32_mul_small (t * _)), (u32_mul_small y)
    by (unfold in_u32; lia).
  rewrite (u32_add_small (_ * _)), u32_add_small by (unfold in_u32; lia). lia.
Qed.

Lemma bb3_test_eq bb x y t : wf3 bb → in3 bb x y t → bb3_test bb x y t = Ok (has3 bb x y t).
Proof.
  intros H Hin. destruct (bb3_index_eq bb x y t H Hin) as [E Hr]. unfold bb3_test.
  rewrite E, vget_wd by (rewrite (buf_len _ _ (w3_buf _ H)); lia). rewrite ok_bind.
  pose proof (Z.mod_pos_bound x 64 ltac:(lia)).
  rewrite bit_mask_shl, testbit_land_pow2 by lia. unfold has3.
  rewrite cell_word; [done|]. destruct Hin. lia.
Qed.

Lemma bb3_set_eq bb x y t :
  wf3 bb → in3 bb x y t →
  ∃ bb', bb3_set bb x y t = Ok bb' ∧ wf3 bb' ∧ same_dims3 bb' bb ∧
    ∀ x' y' t', in3 bb x' y' t' →
      has3 bb' x' y' t' = has3 bb x' y' t' || bool_decide (x' = x ∧ y' = y ∧ t' = t).
Proof.
  intros H Hin. destruct (bb3_index_eq bb x y t H Hin) as [E Hr]. unfold bb3_set.
  pose proof (w3_buf _ H) as Hbuf. pose proof (wf3_wpr bb H) as [Hw Hxw].
  rewrite E, vget_wd by (rewrite (buf_len _ _ Hbuf); lia). rewrite ok_bind.
  rewrite vset_ok by (rewrite (buf_len _ _ Hbuf); lia). rewrite ok_bind.
  pose proof (Z.mod_pos_bound x 64 ltac:(lia)). rewrite bit_mask_shl by lia.
  pose proof Hin as (Hx & Hy & Ht). eexists. split; [done|].
  assert (∀ x' r, 0 ≤ x' < 64 * b3_wpr bb →
    cell (b3_wpr bb) (zset (b3_data bb) (row3 bb y t * b3_wpr bb + x / 64)
      (Z.lor (wd (b3_data bb) (row3 bb y t * b3_wpr bb + x / 64)) (2 ^ (x mod 64)))) r x'
    = cell (b3_wpr bb) (b3_data bb) r x' || bool_decide (x' = x ∧ r = row3 bb y t)) as Hcell.
  { intros x' r Hx'. by eapply cell_zset; try exact Hbuf; try lia. }
  split; [|split; [done|]].
  - destruct H as [H1 H2 H3 H4 H5 H6 H7 H8]. split; cbn; try done.
    + destruct Hbuf as [Hl Hok]. split; [by rewrite zlen_zset|].
      apply words_ok_zset; [done| |lia]. apply in_u64_lor; [done|].
      rewrite <- bit_mask_shl by lia. apply in_u64_shl.
    + intros r p Hrr Hp. rewrite Hcell by lia. rewrite H8 by done. cbn.
      apply bool_decide_eq_false_2. lia.
  - intros x' y' t' (Hx' & Hy' & Ht'). unfold has3. cbn.
    change (row3 (bb3_with_data bb _) y' t') with (row3 bb y' t'). rewrite Hcell by lia. f_equal. apply bool_decide_ext. split.
    + intros [-> Er]. by apply row3_inj in Er as [-> ->].
    + by intros (-> & -> & ->).
Qed.

Lemma bb3_new_wf map_x map_y nt :
  0 ≤ map_x < 2 ^ 31 → 0 ≤ map_y → 0 ≤ nt → nt * map_y < 2 ^ 31 →
  map_y * words_per_row map_x < 2 ^ 31 → nt * map_y * words_per_row map_x < 2 ^ 31 →
  wf3 (bb3_new map_x map_y nt) ∧ ∀ x y t, has3 (bb3_new map_x map_y nt) x y t = false.
Proof.
  intros Hx Hy Ht H1 H2 H3. pose proof (words_per_row_bounds map_x ltac:(lia)) as [Hw _].
  pose proof (Z.mul_nonneg_nonneg nt map_y Ht Hy).
  pose proof (Z.mul_nonneg_nonneg (nt * map_y) (words_per_row map_x) ltac:(lia) Hw).
  split; [|intros; apply cell_repeat].
  split; cbn; try done.
  - rewrite (u32_mul_small nt), u32_mul_small by (unfold in_u32; lia).
    split; [by apply zlen_repeat|apply words_ok_repeat].
  - intros. apply cell_repeat.
Qed.

(** Bits of a slice taken at a row boundary, and of a splice. *)
Lemma cell_slice wpr l l' r0 rows y p :
  0 ≤ wpr → (∀ i, 0 ≤ i < rows * wpr → wd l' i = wd l (r0 * wpr + i)) →
  0 ≤ y < rows → 0 ≤ p < 64 * wpr → cell wpr l' y p = cell wpr l (r0 + y) p.
Proof.
  intros Hw Hl Hy Hp. rewrite !cell_word by lia.
  assert (0 ≤ p / 64 < wpr)
    by (split; [apply Z.div_pos; lia|apply Z.div_lt_upper_bound; lia]).
  rewrite Hl by nia. do 2 f_equal. lia.
Qed.

Section layers.
Context (map_y wpr nt : Z) (Hy : 0 ≤ map_y) (Hw : 0 ≤ wpr) (Hnt : 0 ≤ nt).

(** The cell of layer [t]. *)
Definition lcell (l : list Z) (t y p : Z) : bool := cell wpr l (t * map_y + y) p.

Lemma layer_range t : 0 ≤ t < nt →
  0 ≤ t * (map_y * wpr) ∧ t * (map_y * wpr) + map_y * wpr ≤ nt * map_y * wpr.
Proof.
  intros Ht. pose proof (Z.mul_nonneg_nonneg map_y wpr Hy Hw).
  pose proof (Z.mul_le_mono_nonneg_r (t + 1) nt (map_y * wpr)). nia.
Qed.

Lemma lcell_splice temp d t t' y p :
  buf (nt * map_y * wpr) temp → buf (map_y * wpr) d → 0 ≤ t < nt → 0 ≤ t' < nt →
  0 ≤ y < map_y → 0 ≤ p < 64 * wpr →
  lcell (splice temp (t * (map_y * wpr)) d) t' y p
  = if decide (t' = t) then cell wpr d y p else lcell temp t' y p.
Proof.
  intros Ht Hd Htt Htt' Hyy Hp. pose proof (layer_range t Htt).
  destruct (splice_spec temp (t * (map_y * wpr)) d (map_y * wpr) (nt * map_y * wpr)) as [_ Hs];
    [done..|lia|lia|].
  unfold lcell. rewrite !cell_word by lia. rewrite Hs.
  assert (0 ≤ p / 64 < wpr)
    by (split; [apply Z.div_pos; lia|apply Z.div_lt_upper_bound; lia]).
  assert (0 ≤ y * wpr + p / 64 < map_y * wpr) by nia.
  replace ((t' * map_y + y) * wpr + p / 64) with (t' * (map_y * wpr) + (y * wpr + p / 64)) by lia.
  destruct (decide (t' = t)) as [->|Hne].
  - rewrite decide_True by lia. do 2 f_equal. lia.
  - rewrite decide_False; [done|]. intros Hr.
    destruct (digit_eq (map_y * wpr) t' t (y * wpr + p / 64)
      (t' * (map_y * wpr) + (y * wpr + p / 64) - t * (map_y * wpr))); lia.
Qed.

(** Step 1 of [dilate3d]: every layer dilated in the plane. *)
Lemma layers_spec src rmask dx dy :
  buf (nt * map_y * wpr) src → buf wpr rmask → 0 ≤ dx < 64 → 0 ≤ dy →
  ∃ temp, for_range 0 nt (fun it temp =>
      src_layer ← sub_slice src (it * (map_y * wpr)) (map_y * wpr);
      dst_layer ← sub_slice temp (it * (map_y * wpr)) (map_y * wpr);
      d ← dilate2d_into dst_layer src_layer
            {| rl_map_y := map_y; rl_wpr := wpr; rl_rmask := rmask |} dx dy;
      Ok (splice temp (it * (map_y * wpr)) d)) (vec_repeat 0 (zlen src)) = Ok temp ∧
    buf (nt * map_y * wpr) temp ∧
    ∀ t y p, 0 ≤ t < nt → 0 ≤ y < map_y → 0 ≤ p < 64 * wpr →
      (lcell temp t y p = true ↔ rbit rmask p = true ∧
         ∃ y' p', 0 ≤ y' < map_y ∧ 0 ≤ p' < 64 * wpr ∧
           Z.abs (y - y') ≤ dy ∧ Z.abs (p - p') ≤ dx ∧ lcell src t y' p' = true).
Proof.
  intros Hs Hm Hdx Hdy. pose proof (Z.mul_nonneg_nonneg map_y wpr Hy Hw).
  apply (for_range_inv (fun n temp => buf (nt * map_y * wpr) temp ∧
    ∀ t y p, 0 ≤ t < n → 0 ≤ y < map_y → 0 ≤ p < 64 * wpr →
      (lcell temp t y p = true ↔ rbit rmask p = true ∧
         ∃ y' p', 0 ≤ y' < map_y ∧ 0 ≤ p' < 64 * wpr ∧
           Z.abs (y - y') ≤ dy ∧ Z.abs (p - p') ≤ dx ∧ lcell src t y' p' = true)) 0 nt); [lia| |].
  { split; [|lia]. pose proof (buf_nonneg _ _ Hs). rewrite (buf_len _ _ Hs).
    split; [by apply zlen_repeat|apply words_ok_repeat]. }
  intros it temp Hit [Hb Hc]. pose proof (layer_range it Hit).
  destruct (sub_slice_spec src (it * (map_y * wpr)) (map_y * wpr) _ Hs) as (sl & -> & Hsl & Hsw);
    [lia..|]. rewrite ok_bind.
  destruct (sub_slice_spec temp (it * (map_y * wpr)) (map_y * wpr) _ Hb) as (dl & -> & Hdl & _);
    [lia..|]. rewrite ok_bind.
  destruct (dilate2d_into_spec map_y wpr Hy Hw dl sl rmask dx dy) as (d & -> & Hbd & Hcd);
    [done|by rewrite (buf_len _ _ Hsl), (buf_len _ _ Hdl)|done..|].
  rewrite ok_bind. eexists. split; [done|]. split.
  { eapply splice_spec; [done..|lia|lia]. }
  intros t y p Ht Hyy Hp. rewrite lcell_splice by (done || lia).
  case_decide as E; [subst t|apply Hc; [lia|done..]].
  rewrite (Hcd y p Hyy Hp).
  assert (∀ y' p', 0 ≤ y' < map_y → 0 ≤ p' < 64 * wpr →
    cell wpr sl y' p' = lcell src it y' p') as Hsc.
  { intros y' p' Hy' Hp'. unfold lcell. apply (cell_slice wpr src sl (it * map_y) map_y);
      try done. intros i Hi. rewrite Hsw by done. f_equal. lia. }
  split; intros [? (y' & p' & ? & ? & ? & ? & Ht')]; (split; [done|]); exists y', p';
    [rewrite <- Hsc by done|rewrite Hsc by done]; repeat split; first [done|lia].
Qed.

(** ** Step 2 of [dilate3d]: the periodic heading *)

(** OR-ing layers [j] and [k] of [temp] into layer [t] of [out]. *)
Definition or_layers (temp : list Z) (t j k : Z) (out : list Z) : res (list Z) :=
  for_range 0 (map_y * wpr) (fun w out =>
    o ← vget out (t * (map_y * wpr) + w);
    p ← vget temp (j * (map_y * wpr) + w);
    m ← vget temp (k * (map_y * wpr) + w);
    vset out (t * (map_y * wpr) + w) (Z.lor o (Z.lor p m))) out.

Lemma or_layers_words temp t j k out :
  zlen temp = nt * map_y * wpr → zlen out = nt * map_y * wpr →
  0 ≤ t < nt → 0 ≤ j < nt → 0 ≤ k < nt →
  ∃ out', or_layers temp t j k out = Ok out' ∧ zlen out' = zlen out ∧
    ∀ i, wd out' i = if decide (t * (map_y * wpr) ≤ i < t * (map_y * wpr) + map_y * wpr)
      then Z.lor (wd out i) (Z.lor (wd temp (j * (map_y * wpr) + (i - t * (map_y * wpr))))
                                   (wd temp (k * (map_y * wpr) + (i - t * (map_y * wpr)))))
      else wd out i.
Proof.
  intros Hlt Hlo Ht Hj Hk. unfold or_layers.
  pose proof (layer_range t Ht). pose proof (layer_range j Hj). pose proof (layer_range k Hk).
  pose proof (Z.mul_nonneg_nonneg map_y wpr Hy Hw).
  set (S := map_y * wpr) in *.
  apply (for_range_inv (fun n o => zlen o = zlen out ∧
    ∀ i, wd o i = if decide (t * S ≤ i < t * S + n)
      then Z.lor (wd out i) (Z.lor (wd temp (j * S + (i - t * S))) (wd temp (k * S + (i - t * S))))
      else wd out i) 0 S); [lia| |].
  { split; [done|]. intros i. by rewrite decide_False by lia. }
  intros w o Hww [Hl Ho].
  rewrite (vget_wd o), ok_bind by lia. rewrite (vget_wd temp (j * S + w)), ok_bind by lia.
  rewrite (vget_wd temp (k * S + w)), ok_bind by lia. rewrite vset_ok by lia.
  eexists. split; [done|]. split; [by rewrite zlen_zset|]. intros i.
  rewrite wd_zset by lia. destruct (decide (t * S + w = i)) as [<-|].
  - rewrite decide_True by lia. rewrite Ho, decide_False by lia. by rewrite Z.add_simpl_l.
  - rewrite Ho. destruct (decide (t * S ≤ i < t * S + w)).
    + by rewrite decide_True by lia.
    + by rewrite decide_False by lia.
Qed.

Lemma or_layers_spec temp t j k out :
  buf (nt * map_y * wpr) temp → buf (nt * map_y * wpr) out →
  0 ≤ t < nt → 0 ≤ j < nt → 0 ≤ k < nt →
  ∃ out', or_layers temp t j k out = Ok out' ∧ buf (nt * map_y * wpr) out' ∧
    ∀ t' y p, 0 ≤ t' < nt → 0 ≤ y < map_y → 0 ≤ p < 64 * wpr →
      lcell out' t' y p
      = lcell out t' y p || bool_decide (t' = t) && (lcell temp j y p || lcell temp k y p).
Proof.
  intros [Hlt Hkt] [Hlo Hko] Ht Hj Hk.
  destruct (or_layers_words temp t j k out) as (o & E & Hl & Ho); [done..|].
  exists o. split; [done|]. split.
  { split; [lia|]. intros i. rewrite Ho. case_decide; [|done].
    apply in_u64_lor; [done|]. by apply in_u64_lor. }
  intros t' y p Ht' Hyy Hp. unfold lcell. rewrite !cell_word by lia. rewrite Ho.
  assert (0 ≤ p / 64 < wpr)
    by (split; [apply Z.div_pos; lia|apply Z.div_lt_upper_bound; lia]).
  assert (0 ≤ y * wpr + p / 64 < map_y * wpr) by nia.
  assert (∀ u, (u * map_y + y) * wpr + p / 64 = u * (map_y * wpr) + (y * wpr + p / 64)) as Hpos
    by lia.
  rewrite !Hpos. destruct (decide (t' = t)) as [->|Hne].
  - rewrite decide_True by lia. rewrite bool_decide_eq_true_2 by done. cbn.
    rewrite !Z.lor_spec. do 2 f_equal; f_equal; f_equal; lia.
  - rewrite bool_decide_eq_false_2 by done. rewrite decide_False; [by rewrite orb_false_r|].
    intros Hr. destruct (digit_eq (map_y * wpr) t' t (y * wpr + p / 64)
      (t' * (map_y * wpr) + (y * wpr + p / 64) - t * (map_y * wpr))); lia.
Qed.

(** One distance [st], all layers. *)
Lemma theta_shift_spec temp st out :
  buf (nt * map_y * wpr) temp → buf (nt * map_y * wpr) out → 1 ≤ st ≤ nt → nt < 2 ^ 31 →
  ∃ out', for_range 0 nt (fun it =>
      or_layers temp it ((it + st) mod nt) (as_u64 (it + nt - st) mod nt)) out = Ok out' ∧
    buf (nt * map_y * wpr) out' ∧
    ∀ t y p, 0 ≤ t < nt → 0 ≤ y < map_y → 0 ≤ p < 64 * wpr →
      lcell out' t y p = lcell out t y p || (lcell temp ((t + st) mod nt) y p
                                             || lcell temp ((t - st) mod nt) y p).
Proof.
  intros Ht Ho Hst Hnt31.
  destruct (for_range_inv (fun n o => buf (nt * map_y * wpr) o ∧
    ∀ t y p, 0 ≤ t < nt → 0 ≤ y < map_y → 0 ≤ p < 64 * wpr →
      lcell o t y p = lcell out t y p || bool_decide (t < n) &&
        (lcell temp ((t + st) mod nt) y p || lcell temp ((t - st) mod nt) y p)) 0 nt
    (fun it => or_layers temp it ((it + st) mod nt) (as_u64 (it + nt - st) mod nt)) out)
    as (o' & E & Hb & Hc).
  - lia.
  - split; [done|]. intros t y p ? _ _. rewrite bool_decide_eq_false_2 by lia.
    by rewrite orb_false_r.
  - intros it o Hit [Hb Hc].
    rewrite as_u64_small by (unfold in_u64; lia).
    replace (it + nt - st) with (it - st + 1 * nt) by lia. rewrite Z_mod_plus_full.
    destruct (or_layers_spec temp it ((it + st) mod nt) ((it - st) mod nt) o)
      as (o' & -> & Hb' & Hc'); [done..|apply Z.mod_pos_bound; lia|apply Z.mod_pos_bound; lia|].
    exists o'. split; [done|]. split; [done|]. intros t y p Htt Hyy Hp.
    rewrite Hc', Hc by done.
    destruct (decide (t = it)) as [->|].
    + rewrite bool_decide_eq_false_2 by lia. rewrite !bool_decide_eq_true_2 by lia.
      cbn. by rewrite orb_false_r.
    + rewrite (bool_decide_eq_false_2 (t = it)) by done. rewrite andb_false_l, orb_false_r.
      f_equal. f_equal. apply bool_decide_ext. lia.
  - exists o'. split; [done|]. split; [done|]. intros t y p Htt Hyy Hp.
    rewrite Hc by done. by rewrite bool_decide_eq_true_2 by lia.
Qed.

Lemma theta_pass_spec temp dt :
  buf (nt * map_y * wpr) temp → 0 ≤ dt ≤ nt → nt < 2 ^ 31 →
  ∃ out, for_incl 1 dt (fun st => for_range 0 nt (fun it =>
      or_layers temp it ((it + st) mod nt) (as_u64 (it + nt - st) mod nt))) temp = Ok out ∧
    buf (nt * map_y * wpr) out ∧
    ∀ t y p, 0 ≤ t < nt → 0 ≤ y < map_y → 0 ≤ p < 64 * wpr →
      (lcell out t y p = true ↔ ∃ d, Z.abs d ≤ dt ∧ lcell temp ((t + d) mod nt) y p = true).
Proof.
  intros Ht Hdt Hnt31. unfold for_incl.
  destruct (for_range_inv (fun st o => buf (nt * map_y * wpr) o ∧
    ∀ t y p, 0 ≤ t < nt → 0 ≤ y < map_y → 0 ≤ p < 64 * wpr →
      (lcell o t y p = true ↔ ∃ d, Z.abs d < st ∧ lcell temp ((t + d) mod nt) y p = true))
    1 (dt + 1)
    (fun st => for_range 0 nt (fun it =>
      or_layers temp it ((it + st) mod nt) (as_u64 (it + nt - st) mod nt))) temp)
    as (o & E & Hb & Hc).
  - lia.
  - split; [done|]. intros t y p Htt _ _. split.
    + intros H. exists 0. split; [lia|]. rewrite Z.add_0_r, Z.mod_small; done.
    + intros (d & ? & H). replace d with 0 in H by lia. by rewrite Z.add_0_r, Z.mod_small in H.
  - intros st o Hst [Hb Hc].
    destruct (theta_shift_spec temp st o) as (o' & -> & Hb' & Hc'); [done..|lia|done|].
    exists o'. split; [done|]. split; [done|]. intros t y p Htt Hyy Hp.
    rewrite Hc', !orb_true_iff, (Hc t y p Htt Hyy Hp) by done. split.
    + intros [(d & ? & ?)|[?|?]]; [exists d|exists st|exists (- st)]; (split; [lia|done]).
    + intros (d & ? & ?). destruct (decide (d = st)) as [->|]; [by right; left|].
      destruct (decide (d = - st)) as [->|]; [by right; right|].
      left. exists d. split; [lia|done].
  - exists o. split; [done|]. split; [done|]. intros t y p Htt Hyy Hp.
    rewrite (Hc t y p Htt Hyy Hp). split; intros (d & ? & ?); exists d; (split; [lia|done]).
Qed.
End layers.

(** The 3-D dilation adds the box in the plane, periodically in the heading. *)
Lemma dilate3d_eq bb dx dy dt :
  wf3 bb → 0 ≤ dx < 64 → 0 ≤ dy → 0 ≤ dt ≤ b3_n_theta bb → b3_n_theta bb < 2 ^ 31 →
  ∃ bb', dilate3d bb dx dy dt = Ok bb' ∧ wf3 bb' ∧ same_dims3 bb' bb ∧
    ∀ x y t, in3 bb x y t →
      (has3 bb' x y t = true ↔ ∃ x' y' d, in3 bb x' y' ((t + d) mod b3_n_theta bb) ∧
         Z.abs (x - x') ≤ dx ∧ Z.abs (y - y') ≤ dy ∧ Z.abs d ≤ dt ∧
         has3 bb x' y' ((t + d) mod b3_n_theta bb) = true).
Proof.
  intros H Hdx Hdy Hdt Hnt31. pose proof (wf3_wpr bb H) as [Hw Hxw].
  pose proof H as [Hx Hy Hnt Hwpr Hs [Hss0 Hss] Hb Hm].
  pose proof (Z.mul_nonneg_nonneg (b3_map_y bb) (b3_wpr bb) Hy Hw).
  unfold dilate3d. destruct (row_mask_spec (b3_map_x bb)) as (m & -> & Hbm & Hmask); [lia|].
  rewrite <- Hwpr in Hbm. rewrite ok_bind.
  assert (layer_stride bb = b3_map_y bb * b3_wpr bb) as ->.
  { unfold layer_stride. rewrite u32_mul_small; [done|]. unfold in_u32. lia. }
  destruct (layers_spec (b3_map_y bb) (b3_wpr bb) (b3_n_theta bb) Hy Hw Hnt
    (b3_data bb) m dx dy Hb Hbm Hdx Hdy) as (temp & E & Hbt & Hct).
  cbv zeta. rewrite E, ok_bind. clear E.
  (* what the final board must satisfy, whichever branch builds it *)
  assert (∀ out, buf (b3_n_theta bb * b3_map_y bb * b3_wpr bb) out →
    (∀ t y p, 0 ≤ t < b3_n_theta bb → 0 ≤ y < b3_map_y bb → 0 ≤ p < 64 * b3_wpr bb →
      (lcell (b3_map_y bb) (b3_wpr bb) out t y p = true ↔
       ∃ d, Z.abs d ≤ dt ∧ lcell (b3_map_y bb) (b3_wpr bb) temp
              ((t + d) mod b3_n_theta bb) y p = true)) →
    wf3 (bb3_with_data bb out) ∧ same_dims3 (bb3_with_data bb out) bb ∧
    ∀ x y t, in3 bb x y t →
      (has3 (bb3_with_data bb out) x y t = true ↔
       ∃ x' y' d, in3 bb x' y' ((t + d) mod b3_n_theta bb) ∧
         Z.abs (x - x') ≤ dx ∧ Z.abs (y - y') ≤ dy ∧ Z.abs d ≤ dt ∧
         has3 bb x' y' ((t + d) mod b3_n_theta bb) = true)) as Hfinal.
  { intros out Hbo Hco. split; [|split; [done|]].
    - split; cbn; try done. intros r p Hr Hp. apply not_true_iff_false.
      assert (0 < b3_map_y bb) as Hy0 by nia.
      assert (r = r / b3_map_y bb * b3_map_y bb + r mod b3_map_y bb) as Er
        by (rewrite (Z.div_mod r (b3_map_y bb)) at 1; lia).
      pose proof (Z.mod_pos_bound r (b3_map_y bb) Hy0).
      assert (0 ≤ r / b3_map_y bb < b3_n_theta bb)
        by (split; [apply Z.div_pos; lia|apply Z.div_lt_upper_bound; lia]).
      rewrite Er. fold (lcell (b3_map_y bb) (b3_wpr bb) out (r / b3_map_y bb) (r mod b3_map_y bb) p).
      rewrite Hco by lia. intros (d & _ & Hd). rewrite Hct in Hd by (lia || apply Z.mod_pos_bound; lia).
      rewrite Hmask, bool_decide_eq_false_2 in Hd by lia. by destruct Hd.
    - intros x y t (Hxx & Hyy & Htt). unfold has3. cbn. unfold row3.
      fold (lcell (b3_map_y bb) (b3_wpr bb) out t y x). cbn. rewrite (Hco t y x Htt Hyy) by lia.
      split.
      + intros (d & Hd & Hc).
        pose proof (Z.mod_pos_bound (t + d) (b3_n_theta bb) ltac:(lia)) as Hmod.
        rewrite Hct in Hc by lia. destruct Hc as [_ (y' & x' & ? & Hx' & ? & ? & Hsrc)].
        exists x', y', d. unfold lcell in Hsrc. unfold row3.
        destruct (decide (x' < b3_map_x bb)).
        * split; [split; [lia|done]|]. repeat split; first [done|lia].
        * rewrite Hm in Hsrc; [done| |lia]. nia.
      + intros (x' & y' & d & (? & ? & ?) & ? & ? & ? & Hsrc). exists d. split; [done|].
        rewrite Hct by lia. rewrite Hmask, bool_decide_eq_true_2 by lia. split; [done|].
        exists y', x'. repeat split; first [done|lia]. }
  destruct (Z.eqb_spec dt 0) as [->|].
  - eexists. split; [done|]. apply Hfinal; [done|]. intros t y p Htt _ _. split.
    + intros Hc. exists 0. split; [lia|]. by rewrite Z.add_0_r, Z.mod_small.
    + intros (d & ? & Hc). replace d with 0 in Hc by lia. by rewrite Z.add_0_r, Z.mod_small in Hc.
  - destruct (theta_pass_spec (b3_map_y bb) (b3_wpr bb) (b3_n_theta bb) Hy Hw Hnt temp dt)
      as (out & E & Hbo & Hco); [done..|].
    exists (bb3_with_data bb out). split; [|by apply Hfinal].
    match goal with |- (?m ≫= _) = _ => assert (m = Ok out) as -> by exact E end. done.
Qed.
