(* ===== verification/BitboardEnum.v ===== *)
(** * Correctness of the bitboard enumeration

    The lazy iterators terminate and yield exactly the set cells, row by row
    and from low to high columns; the 3-D iterator is the 2-D one over the
    stacked layers. *)

From Stdlib Require Import ZArith Lia.
From stdpp Require Import base list numbers.
From S2P Require Import Prelude Bitboard BitboardOps.

(** ** Bits of one word *)

Lemma elem_of_word_bits w k : k ∈ word_bits w ↔ 0 ≤ k < 64 ∧ Z.testbit w k = true.
Proof. unfold word_bits. rewrite list_elem_of_filter, elem_of_seqZ. split; (intros [? ?]; split; [|done || lia]); first [done|lia]. Qed.

Lemma word_bits_nil w : in_u64 w → (word_bits w = [] ↔ w = 0).
Proof.
  intros Hw. split; [|by intros ->]. intros H. apply Z.bits_inj_0. intros k.
  destruct (decide (0 ≤ k)); [|by apply Z.testbit_neg_r; lia].
  destruct (decide (k < 64)); [|by apply (proj2 (proj1 (in_u64_bits _) Hw)); lia].
  apply not_true_iff_false. intros Hb.
  assert (k ∈ word_bits w) as Hk by (apply elem_of_word_bits; split; [lia|done]).
  rewrite H in Hk. by apply elem_of_nil in Hk.
Qed.

(** Removing the lowest set bit: [w & (w - 1)]. *)
Lemma clear_lowest w t :
  0 < w → Z.testbit w t = true → 0 ≤ t → (∀ k, 0 ≤ k < t → Z.testbit w k = false) →
  ∀ k, Z.testbit (Z.land w (w - 1)) k = Z.testbit w k && negb (k =? t).
Proof.
  intros Hw Ht Ht0 Hlow k. rewrite Z.land_spec.
  destruct (decide (0 ≤ k)) as [Hk|]; [|by rewrite !Z.testbit_neg_r by lia].
  pose proof (Z.pow_pos_nonneg 2 t ltac:(lia) Ht0) as Hpow.
  assert (w mod 2 ^ t = 0) as Hmod.
  { apply Z.bits_inj_0. intros j. destruct (decide (0 ≤ j)); [|by apply Z.testbit_neg_r; lia].
    destruct (decide (j < t)).
    - rewrite Z.mod_pow2_bits_low by lia. apply Hlow. lia.
    - apply Z.mod_pow2_bits_high. lia. }
  pose proof (Z.div_mod w (2 ^ t) ltac:(lia)) as Hdm. rewrite Hmod, Z.add_0_r in Hdm.
  set (m := w / 2 ^ t) in *.
  assert (Z.odd m = true) as Hodd.
  { rewrite <- Z.bit0_odd. unfold m. rewrite Z.div_pow2_bits by lia. by rewrite Z.add_0_l. }
  destruct (Z.eqb_spec k t) as [->|Hne]; cbn; [|rewrite andb_true_r].
  - rewrite andb_false_r. apply andb_false_iff. right.
    assert (w - 1 = (2 ^ t - 1) + (m - 1) * 2 ^ t) as -> by lia.
    assert (∀ a, Z.testbit a t = Z.testbit (a / 2 ^ t) 0) as ->
      by (intros a; by rewrite Z.div_pow2_bits, Z.add_0_l by lia).
    rewrite Z.div_add, (Z.div_small (2 ^ t - 1)), Z.add_0_l by lia.
    rewrite Z.bit0_odd, Z.odd_sub, Hodd. done.
  - destruct (decide (k < t)); [by rewrite Hlow by lia|].
    destruct (Z.testbit w k) eqn:E; [|done]. cbn.
    assert (w - 1 = (2 ^ t - 1) + (m - 1) * 2 ^ t) as -> by lia.
    replace k with ((k - t) + t) by lia. rewrite <- Z.div_pow2_bits by lia.
    rewrite Z.div_add, (Z.div_small (2 ^ t - 1)), Z.add_0_l by lia.
    replace k with ((k - t) + t) in E by lia. rewrite <- Z.div_pow2_bits in E by lia.
    fold m in E. assert (m = 2 * (m / 2) + 1) as Em.
    { pose proof (Z.div_mod m 2 ltac:(lia)). rewrite Zmod_odd, Hodd in *. lia. }
    replace (k - t) with (Z.succ (k - t - 1)) in E |- * by lia.
    rewrite Em in E. rewrite Z.testbit_odd_succ in E by lia.
    rewrite Em. replace (2 * (m / 2) + 1 - 1) with (2 * (m / 2)) by lia.
    by rewrite Z.testbit_even_succ by lia.
Qed.

Lemma word_bits_step w :
  in_u64 w → w ≠ 0 →
  word_bits w = trailing_zeros w :: word_bits (Z.land w (w - 1)) ∧
  0 ≤ trailing_zeros w < 64 ∧ Z.testbit w (trailing_zeros w) = true.
Proof.
  intros Hw Hne. unfold trailing_zeros.
  destruct (word_bits w) as [|t l] eqn:E; [by apply word_bits_nil in E|]. cbn.
  assert (t ∈ word_bits w) as Ht by (rewrite E; left).
  apply elem_of_word_bits in Ht as [Ht Hbit]. split; [|done]. f_equal.
  unfold word_bits in E.
  assert (∃ l1 l2, seqZ 0 64 = l1 ++ t :: l2 ∧
    filter (fun i => Z.testbit w i = true) l1 = [] ∧
    filter (fun i => Z.testbit w i = true) l2 = l) as (l1 & l2 & Hs & Hl1 & Hl2).
  { revert E. generalize (seqZ 0 64). induction l0 as [|x l0 IH]; [done|].
    rewrite list.filter_cons. case_decide.
    - intros [= -> <-]. by exists [], l0.
    - intros H'. destruct (IH H') as (l1 & l2 & -> & H1 & H2). exists (x :: l1), l2.
      split; [done|]. split; [|done]. rewrite list.filter_cons. by rewrite decide_False. }
  assert (∀ k, k ∈ l1 → 0 ≤ k < t) as Hk1.
  { intros k Hk. apply list_elem_of_lookup_1 in Hk as [i Hi].
    assert (seqZ 0 64 !! i = Some k) as Hk by (rewrite Hs; by apply lookup_app_l_Some).
    assert (seqZ 0 64 !! (length l1) = Some t) as Htl
      by (rewrite Hs; rewrite lookup_app_r, Nat.sub_diag by lia; done).
    apply lookup_lt_Some in Hi. apply lookup_seqZ in Hk, Htl. lia. }
  assert (∀ k, 0 ≤ k < t → Z.testbit w k = false) as Hlow.
  { intros k Hk. apply not_true_iff_false. intros Hb.
    assert (k ∈ seqZ 0 64) as Hin by (apply elem_of_seqZ; lia).
    assert (k ∈ filter (fun i => Z.testbit w i = true) (seqZ 0 64)) as Hf
      by (by apply list_elem_of_filter).
    rewrite Hs in Hf. rewrite list.filter_app, Hl1, list.filter_cons, decide_True in Hf by done.
    apply elem_of_cons in Hf as [->|Hf]; [lia|].
    rewrite list_elem_of_filter in Hf. destruct Hf as [_ Hf].
    apply list_elem_of_lookup_1 in Hf as [i Hi].
    assert (seqZ 0 64 !! (length l1 + S i)%nat = Some k) as Hki.
    { rewrite Hs, lookup_app_r by lia.
      by replace (length l1 + S i - length l1)%nat with (S i) by lia. }
    assert (seqZ 0 64 !! (length l1) = Some t) as Htl
      by (rewrite Hs; rewrite lookup_app_r, Nat.sub_diag by lia; done).
    apply lookup_seqZ in Hki, Htl. lia. }
  pose proof (clear_lowest w t ltac:(unfold in_u64 in *; lia) Hbit ltac:(lia) Hlow) as Hclear.
  unfold word_bits. rewrite Hs, list.filter_app, list.filter_cons.
  rewrite decide_False by (rewrite Hclear, Z.eqb_refl, andb_false_r; done).
  rewrite <- Hl2. symmetry.
  assert (filter (fun i => Z.testbit (Z.land w (w - 1)) i = true) l1 = []) as ->.
  { apply elem_of_nil_inv. intros k [Hb Hk]%list_elem_of_filter.
    rewrite Hclear, Hlow in Hb by (by apply Hk1). done. }
  cbn. apply list_filter_ext_mem. intros k Hk. rewrite Hclear.
  destruct (Z.eqb_spec k t) as [->|]; [|by rewrite andb_true_r].
  exfalso. assert (NoDup (seqZ 0 64)) as Hnd by apply NoDup_seqZ.
  rewrite Hs in Hnd. apply list.NoDup_app in Hnd as (_ & _ & Hnd).
  by apply list.NoDup_cons in Hnd as [? _].
Qed.

(** ** The 2-D iterator *)

Section iter2.
Context (bb : Bitboard2D) (Hwf : wf2 bb) (Hpos : 0 < b2_map_x bb).
Let wpr := b2_wpr bb.
Let map_y := b2_map_y bb.
Let words := map_y * wpr.
Let word (r : Z) : Z := wd (b2_data bb) r.

(** The set cells of the flat word [r] among the bits [w]. *)
Definition cells_of (r w : Z) : list (Z * Z) :=
  (fun b => (64 * (r mod wpr) + b, r / wpr)) <$> word_bits w.

(** What an iterator at word [r] with the bits [w] left has still to yield. *)
Definition rest (r w : Z) : list (Z * Z) :=
  cells_of r w ++ (seqZ (r + 1) (words - 1 - r) ≫= fun r' => cells_of r' (word r')).

Lemma wpr_pos : 0 < wpr.
Proof. pose proof (wf2_wpr bb Hwf). unfold wpr. lia. Qed.

Lemma flat_div_mod y i : 0 ≤ i < wpr → (y * wpr + i) / wpr = y ∧ (y * wpr + i) mod wpr = i.
Proof.
  intros Hi. pose proof wpr_pos. split.
  - symmetry. apply (Z.div_unique _ _ _ i); lia.
  - symmetry. apply (Z.mod_unique _ _ y); lia.
Qed.

Lemma flat_range r : 0 ≤ r < words → 0 ≤ r / wpr < map_y ∧ 0 ≤ r mod wpr < wpr.
Proof.
  intros Hr. pose proof wpr_pos. pose proof (Z.mod_pos_bound r wpr ltac:(lia)).
  split; [|done]. split; [apply Z.div_pos; lia|apply Z.div_lt_upper_bound; unfold words in *; lia].
Qed.

(** The iterator positioned at the flat word [r]. *)
Definition at_word (r w : Z) : Iter2D := mkIter2 (r / wpr) (r mod wpr) w.
Definition at_end : Iter2D := mkIter2 map_y 0 0.

Lemma words_small : 0 ≤ words < 2 ^ 31 ∧ 0 ≤ map_y ∧ wpr < 2 ^ 31 ∧ zlen (b2_data bb) = words.
Proof.
  pose proof wpr_pos. pose proof Hwf as [Hx Hy Hw Hs [Hl _] _].
  pose proof (words_per_row_bounds (b2_map_x bb) ltac:(lia)).
  unfold words, map_y, wpr in *.
  pose proof (Z.mul_nonneg_nonneg (b2_map_y bb) (b2_wpr bb) Hy ltac:(lia)).
  repeat split; first [done|lia].
Qed.

(** One step of the loop of [advance]. *)
Lemma advance2_step fuel r w :
  0 ≤ r < words →
  advance2 (S fuel) bb (at_word r w) =
    if r + 1 =? words then Ok at_end
    else if word (r + 1) =? 0 then advance2 fuel bb (at_word (r + 1) (word (r + 1)))
    else Ok (at_word (r + 1) (word (r + 1))).
Proof.
  intros Hr. destruct (flat_range r Hr) as [Hy Hi]. pose proof wpr_pos.
  destruct words_small as (Hws & Hmy & Hwpr & Hlen).
  pose proof (Z.div_mod r wpr ltac:(lia)) as Er.
  cbn [advance2 at_word i2_wi i2_iy]. fold wpr map_y. rewrite Z.geb_leb.
  rewrite u32_add_small by (unfold in_u32; lia).
  assert (map_y ≤ words) by (unfold words; nia).
  destruct (Z.leb_spec wpr (r mod wpr + 1)) as [Hwrap|Hno].
  - rewrite u32_add_small by (unfold in_u32; lia). rewrite Z.geb_leb. cbn [andb].
    destruct (Z.leb_spec map_y (r / wpr + 1)) as [Hend|Hcont].
    + destruct (Z.eqb_spec (r + 1) words) as [_|Hne].
      * unfold at_end. f_equal. f_equal. lia.
      * exfalso. apply Hne. unfold words. nia.
    + destruct (Z.eqb_spec (r + 1) words) as [E|_].
      { exfalso. unfold words in E. nia. }
      assert (r + 1 = (r / wpr + 1) * wpr + 0) as Er1 by nia.
      destruct (flat_div_mod (r / wpr + 1) 0 ltac:(lia)) as [Ed Em].
      rewrite <- Er1 in Ed, Em.
      rewrite u32_mul_small, u32_add_small by (unfold in_u32, words in *; nia).
      rewrite vget_wd by nia. rewrite ok_bind.
      replace ((r / wpr + 1) * wpr + 0) with (r + 1) by lia.
      unfold at_word. rewrite Ed, Em. fold (word (r + 1)).
      by destruct (word (r + 1) =? 0).
  - cbn [andb]. destruct (Z.eqb_spec (r + 1) words) as [E|_].
    { exfalso. unfold words in E. nia. }
    assert (r + 1 = (r / wpr) * wpr + (r mod wpr + 1)) as Er1 by nia.
    destruct (flat_div_mod (r / wpr) (r mod wpr + 1) ltac:(lia)) as [Ed Em].
    rewrite <- Er1 in Ed, Em.
    rewrite u32_mul_small, u32_add_small by (unfold in_u32, words in *; nia).
    rewrite vget_wd by nia. rewrite ok_bind.
    replace (r / wpr * wpr + (r mod wpr + 1)) with (r + 1) by lia.
    unfold at_word. rewrite Ed, Em. fold (word (r + 1)).
    by destruct (word (r + 1) =? 0).
Qed.

Lemma rest_end r : r = words - 1 → rest r 0 = [].
Proof. intros ->. unfold rest, cells_of. cbn. by rewrite seqZ_nil by lia. Qed.

Lemma rest_next r : 0 ≤ r → r + 1 < words → rest r 0 = rest (r + 1) (word (r + 1)).
Proof.
  intros Hr Hn. unfold rest at 1. cbn. rewrite (seqZ_cons (r + 1)) by lia. rewrite bind_cons.
  unfold rest. replace (Z.succ (r + 1)) with (r + 1 + 1) by lia.
  by replace (Z.pred (words - 1 - r)) with (words - 1 - (r + 1)) by lia.
Qed.

(** [advance] reaches the next non-empty word, or the end. *)
Lemma advance2_spec fuel r w :
  0 ≤ r < words → words ≤ r + Z.of_nat fuel →
  (rest r 0 = [] ∧ advance2 fuel bb (at_word r w) = Ok at_end) ∨
  (∃ r', r < r' < words ∧ word r' ≠ 0 ∧ rest r 0 = rest r' (word r') ∧
     advance2 fuel bb (at_word r w) = Ok (at_word r' (word r'))).
Proof.
  revert r w. induction fuel as [|fuel IH]; intros r w Hr Hf; [lia|].
  rewrite advance2_step by done. destruct (Z.eqb_spec (r + 1) words) as [E|Hne].
  { left. split; [apply rest_end; lia|done]. }
  rewrite rest_next by lia. destruct (Z.eqb_spec (word (r + 1)) 0) as [E0|H0].
  - rewrite E0. destruct (IH (r + 1) 0) as [[? ?]|(r' & ? & ? & ? & ?)]; [lia|lia|by left|].
    right. exists r'. repeat split; try done; lia.
  - right. exists (r + 1). repeat split; try done; lia.
Qed.

(** The bits left are bits of the word the iterator stands on. *)
Definition sub_word (r w : Z) : Prop :=
  in_u64 w ∧ ∀ k, Z.testbit w k = true → Z.testbit (word r) k = true.

Lemma sub_word_full r : sub_word r (word r).
Proof. split; [|done]. apply (w2_buf _ Hwf). Qed.

(** A non-empty word yields its lowest bit. *)
Lemma next2_word fuel r w :
  0 ≤ r < words → sub_word r w → w ≠ 0 →
  ∃ c, next2 (S fuel) bb (at_word r w) = Ok (at_word r (Z.land w (w - 1)), Some c) ∧
    rest r w = c :: rest r (Z.land w (w - 1)) ∧ sub_word r (Z.land w (w - 1)).
Proof.
  intros Hr [Hw Hsub] Hne. destruct (word_bits_step w Hw Hne) as (Hbits & Ht & Htb).
  destruct (flat_range r Hr) as [Hy Hi]. destruct words_small as (Hws & Hmy & Hwpr & Hlen).
  pose proof Hwf as [Hx _ Hwx _ _ Hmask].
  pose proof (words_per_row_bounds (b2_map_x bb) ltac:(lia)) as Hb. rewrite <- Hwx in Hb.
  fold wpr in Hb. set (t := trailing_zeros w) in *.
  exists (64 * (r mod wpr) + t, r / wpr). cbn [next2 at_word i2_word i2_wi i2_iy].
  destruct (Z.eqb_spec w 0); [done|]. fold t.
  rewrite u32_mul_small, u32_add_small by (unfold in_u32; lia).
  assert (u64_sub w 1 = w - 1) as ->.
  { unfold u64_sub. apply wrap_u_small. unfold in_u64 in Hw. lia. }
  assert (r mod wpr * 64 + t < b2_map_x bb) as Hlt.
  { destruct (decide (r mod wpr * 64 + t < b2_map_x bb)); [done|]. exfalso.
    specialize (Hmask (r / wpr) (r mod wpr * 64 + t) Hy).
    rewrite cell_word in Hmask by lia.
    replace (r mod wpr * 64 + t) with (64 * (r mod wpr) + t) in * by lia.
    destruct (divmod64 (r mod wpr) t Ht) as [Ed Em]. rewrite Ed, Em in Hmask.
    fold wpr in Hmask. replace (r / wpr * wpr + r mod wpr) with r in Hmask
      by (pose proof (Z.div_mod r wpr); lia).
    change (wd (b2_data bb) r) with (word r) in Hmask. rewrite (Hsub t Htb) in Hmask.
    discriminate Hmask. lia. }
  destruct (Z.ltb_spec (r mod wpr * 64 + t) (b2_map_x bb)); [|lia].
  split; [do 2 f_equal; f_equal; f_equal; lia|]. split.
  - unfold rest, cells_of. rewrite Hbits. done.
  - split.
    + apply in_u64_land; [done|]. unfold in_u64 in *. lia.
    + intros k Hk. apply Hsub. rewrite Z.land_spec in Hk. by apply andb_prop in Hk as [? _].
Qed.

(** [next] pops the head of what is left. *)
Lemma next2_spec fuel r w :
  0 ≤ r < words → sub_word r w → words ≤ r + Z.of_nat (S fuel) →
  (rest r w = [] ∧ ∃ it, next2 (S (S fuel)) bb (at_word r w) = Ok (it, None)) ∨
  (∃ c r' w', r ≤ r' < words ∧ sub_word r' w' ∧ rest r w = c :: rest r' w' ∧
     next2 (S (S fuel)) bb (at_word r w) = Ok (at_word r' w', Some c)).
Proof.
  intros Hr Hsub Hf. destruct (decide (w = 0)) as [->|Hne].
  - destruct (flat_range r Hr) as [Hy _].
    assert (next2 (S (S fuel)) bb (at_word r 0) =
      (it' ← advance2 (S (S fuel)) bb (at_word r 0);
       if i2_iy it' >=? map_y then Ok (it', None) else next2 (S fuel) bb it')) as ->.
    { change (next2 (S (S fuel)) bb (at_word r 0)) with
        (if r / wpr >=? map_y then Ok (at_word r 0, None) else
         it' ← advance2 (S (S fuel)) bb (at_word r 0);
         if i2_iy it' >=? map_y then Ok (it', None) else next2 (S fuel) bb it').
      rewrite Z.geb_leb. by destruct (Z.leb_spec map_y (r / wpr)); [lia|]. }
    destruct (advance2_spec (S (S fuel)) r 0) as [[Hrest ->]|(r' & Hr' & Hnz & Hrest & ->)];
      [done|lia| |]; rewrite ok_bind, Z.geb_leb; cbn [at_end at_word i2_iy].
    + left. split; [done|]. rewrite Z.leb_refl. eauto.
    + right. destruct (flat_range r' ltac:(lia)) as [Hy' _].
      destruct (Z.leb_spec map_y (r' / wpr)); [lia|].
      destruct (next2_word fuel r' (word r')) as (c & E & Hc & Hs);
        [lia|apply sub_word_full|done|].
      exists c, r', (Z.land (word r') (word r' - 1)).
      split; [lia|]. split; [done|]. split; [congruence|done].
  - right. destruct (next2_word (S fuel) r w Hr Hsub Hne) as (c & E & Hc & Hs).
    exists c, r, (Z.land w (w - 1)). split; [lia|]. done.
Qed.

Lemma collect2_spec fuel r w :
  0 ≤ r < words → sub_word r w → zlen (rest r w) + (words - r) + 1 < Z.of_nat fuel →
  collect2 fuel bb (at_word r w) = Ok (rest r w).
Proof.
  revert r w. induction fuel as [|fuel IH]; intros r w Hr Hsub Hf.
  { pose proof (zlen_nonneg (rest r w)). lia. }
  pose proof (zlen_nonneg (rest r w)).
  destruct fuel as [|fuel]; [lia|].
  change (collect2 (S (S fuel)) bb (at_word r w)) with
    (p ← next2 (S (S fuel)) bb (at_word r w);
     match p.2 with None => Ok [] | Some c => cs ← collect2 (S fuel) bb p.1; Ok (c :: cs) end).
  destruct (next2_spec fuel r w) as [[Hrest [it ->]]|(c & r' & w' & Hr' & Hs & Hrest & ->)];
    [done|done|lia| |]; rewrite ok_bind; cbn [fst snd].
  - by rewrite Hrest.
  - rewrite (IH r' w'); [by rewrite Hrest|lia|done|].
    rewrite Hrest in Hf. unfold zlen in *. cbn [length] in Hf. lia.
Qed.

Lemma zlen_cells_of r w : zlen (cells_of r w) ≤ 64.
Proof.
  unfold cells_of. rewrite zlen_fmap. unfold word_bits, zlen.
  pose proof (length_filter (fun i => Z.testbit w i = true) (seqZ 0 64)).
  rewrite length_seqZ in *. lia.
Qed.

Lemma zlen_bind_cells l : zlen (l ≫= fun r => cells_of r (word r)) ≤ 64 * zlen l.
Proof.
  induction l as [|r l IH]; [done|]. rewrite bind_cons, zlen_app.
  pose proof (zlen_cells_of r (word r)). unfold zlen in *. cbn [length]. lia.
Qed.

(** The words of the board, in storage order. *)
Lemma enumerate2_words :
  enumerate2 bb = Ok (seqZ 0 words ≫= fun r => cells_of r (word r)).
Proof.
  destruct words_small as (Hws & Hmy & Hwpr & Hlen). pose proof wpr_pos.
  unfold enumerate2, iter2_new. fold map_y wpr. destruct (Z.ltb_spec 0 wpr); [|lia].
  destruct (Z.ltb_spec 0 map_y) as [Hy0|Hy0]; cbn [andb].
  - assert (0 < words) by (unfold words; nia).
    rewrite vget_wd by lia. fold (word 0). rewrite !ok_bind.
    replace (mkIter2 0 0 (word 0)) with (at_word 0 (word 0))
      by (unfold at_word; by rewrite Z.div_0_l, Z.mod_0_l by lia).
    assert (rest 0 (word 0) = seqZ 0 words ≫= fun r => cells_of r (word r)) as <-.
    { rewrite (seqZ_cons 0 words) by lia. rewrite bind_cons. unfold rest.
      replace (Z.succ 0) with (0 + 1) by lia.
      by replace (Z.pred words) with (words - 1 - 0) by lia. }
    apply collect2_spec; [lia|apply sub_word_full|].
    unfold rest. rewrite zlen_app. pose proof (zlen_cells_of 0 (word 0)).
    pose proof (zlen_bind_cells (seqZ (0 + 1) (words - 1 - 0))) as Hz.
    unfold zlen at 2 in Hz. rewrite length_seqZ in Hz.
    unfold enum_fuel. unfold zlen in Hlen. lia.
  - assert (words = 0) as -> by (unfold words; nia). rewrite seqZ_nil by lia. cbn.
    unfold enum_fuel. rewrite !Nat.add_succ_r. cbn. fold map_y.
    rewrite Z.geb_leb. by destruct (Z.leb_spec map_y 0); [|lia].
Qed.
End iter2.

(** The set cells, row by row. *)
Definition cells2 (bb : Bitboard2D) : list (Z * Z) :=
  y ← seqZ 0 (b2_map_y bb);
  (fun x => (x, y)) <$> filter (fun x => has2 bb x y = true) (seqZ 0 (b2_map_x bb)).

Lemma elem_of_cells2 bb x y : (x, y) ∈ cells2 bb ↔ in2 bb x y ∧ has2 bb x y = true.
Proof.
  unfold cells2, in2. rewrite list_elem_of_bind. split.
  - intros (y' & (x' & [= -> ->] & Hx)%list_elem_of_fmap & Hy).
    rewrite list_elem_of_filter, elem_of_seqZ in *. intuition lia.
  - intros [[? ?] ?]. exists y. rewrite elem_of_seqZ. split; [|lia].
    apply list_elem_of_fmap. exists x. split; [done|].
    rewrite list_elem_of_filter, elem_of_seqZ. split; [done|lia].
Qed.

Lemma NoDup_cells2 bb : NoDup (cells2 bb).
Proof.
  unfold cells2. apply NoDup_bind; [| |apply NoDup_seqZ].
  - intros y y' c _ _ (x & -> & _)%list_elem_of_fmap (x' & [= _ ->] & _)%list_elem_of_fmap. done.
  - intros y _. apply NoDup_fmap_2; [by intros ?? [=]|]. apply list.NoDup_filter, NoDup_seqZ.
Qed.

(** The columns of a row, word by word. *)
Lemma row_cells bb y :
  wf2 bb → 0 ≤ y < b2_map_y bb →
  (w ← seqZ 0 (b2_wpr bb);
     (fun b => 64 * w + b) <$> word_bits (wd (b2_data bb) (y * b2_wpr bb + w)))
  = filter (fun x => has2 bb x y = true) (seqZ 0 (b2_map_x bb)).
Proof.
  intros Hwf Hy. pose proof (wf2_wpr bb Hwf) as [Hw Hxw]. pose proof Hwf as [Hx _ _ _ _ Hmask].
  transitivity (filter (fun x => has2 bb x y = true) (seqZ 0 (b2_wpr bb * 64))).
  - rewrite <- seqZ_mul by lia. rewrite list_filter_bind. apply list_bind_ext_mem.
    intros w Hin%elem_of_seqZ. rewrite list_filter_fmap'. unfold word_bits.
    assert (filter (fun x => has2 bb (w * 64 + x) y = true) (seqZ 0 64)
      = filter (fun i => Z.testbit (wd (b2_data bb) (y * b2_wpr bb + w)) i = true) (seqZ 0 64)) as ->.
    { apply list_filter_ext_mem. intros b Hb%elem_of_seqZ. unfold has2.
      rewrite cell_word by lia. replace (w * 64 + b) with (64 * w + b) by lia.
      destruct (divmod64 w b ltac:(lia)) as [-> ->]. done. }
    apply list_fmap_ext. intros _ b _. lia.
  - replace (b2_wpr bb * 64) with (b2_map_x bb + (b2_wpr bb * 64 - b2_map_x bb)) by lia.
    rewrite seqZ_app by lia. rewrite list.filter_app.
    assert (filter (fun x => has2 bb x y = true)
      (seqZ (0 + b2_map_x bb) (b2_wpr bb * 64 - b2_map_x bb)) = []) as ->; [|by rewrite app_nil_r].
    apply elem_of_nil_inv. intros x [Ht Hin%elem_of_seqZ]%list_elem_of_filter.
    unfold has2 in Ht. rewrite Hmask in Ht by lia. done.
Qed.

Lemma enumerate2_eq bb : wf2 bb → 0 < b2_map_x bb → enumerate2 bb = Ok (cells2 bb).
Proof.
  intros Hwf Hpos. rewrite enumerate2_words by done. f_equal.
  pose proof (wf2_wpr bb Hwf) as [Hw _]. rewrite <- seqZ_mul by (done || apply Hwf).
  rewrite list_bind_assoc. apply list_bind_ext_mem. intros y Hy%elem_of_seqZ.
  rewrite <- (row_cells bb y) by (done || lia).
  rewrite list_fmap_bind_r, list_fmap_bind. apply list_bind_ext_mem.
  intros w Hin%elem_of_seqZ. unfold cells_of. cbn.
  destruct (flat_div_mod bb Hwf Hpos y w ltac:(lia)) as [-> ->].
  by rewrite <- list_fmap_compose.
Qed.

(** ** The 3-D iterator is the 2-D one over the stacked layers *)

Definition stacked (bb : Bitboard3D) : Bitboard2D :=
  mkBB2 (b3_data bb) (b3_map_x bb) (b3_n_theta bb * b3_map_y bb) (b3_wpr bb).

Lemma stacked_wf bb : wf3 bb → wf2 (stacked bb).
Proof.
  intros [? ? ? ? ? ? ? ?]. split; cbn; try done. apply Z.mul_nonneg_nonneg; lia.
Qed.

Section iter3.
Context (bb : Bitboard3D) (Hwf : wf3 bb) (Hpos : 0 < b3_map_x bb) (Hy0 : 0 < b3_map_y bb).

(** A 3-D iterator and the 2-D one over the stack. *)
Definition flat (st : Iter3D) : Iter2D :=
  mkIter2 (i3_it st * b3_map_y bb + i3_iy st) (i3_wi st) (i3_word st).

Definition iter3_ok (st : Iter3D) : Prop :=
  0 ≤ i3_iy st < b3_map_y bb ∧ 0 ≤ i3_it st ≤ b3_n_theta bb ∧
  0 ≤ i3_wi st ∧ i3_wi st ≤ b3_wpr bb ∧ (i3_it st = b3_n_theta bb → i3_iy st = 0).

(** A computation on the stack and one on the layers. *)
Definition sim {A B} (R : A → B → Prop) (m3 : res A) (m2 : res B) : Prop :=
  match m3, m2 with
  | Ok a, Ok b => R a b
  | Panic, Panic => True
  | OutOfFuel, OutOfFuel => True
  | _, _ => False
  end.

Definition iter_sim (s3 : Iter3D) (s2 : Iter2D) : Prop := s2 = flat s3 ∧ iter3_ok s3.

Lemma sizes3 :
  0 < b3_wpr bb < 2 ^ 31 ∧ 0 ≤ b3_n_theta bb ∧ b3_n_theta bb * b3_map_y bb < 2 ^ 31 ∧
  b3_map_y bb * b3_wpr bb < 2 ^ 31 ∧ b3_n_theta bb * b3_map_y bb * b3_wpr bb < 2 ^ 31.
Proof.
  pose proof (wf3_wpr bb Hwf). pose proof Hwf as [? ? ? Hw ? [? ?] ? ?].
  pose proof (words_per_row_bounds (b3_map_x bb) ltac:(lia)). rewrite <- Hw in *. lia.
Qed.

Lemma sim_end st : iter3_ok st →
  (i3_it st >=? b3_n_theta bb) = (i2_iy (flat st) >=? b2_map_y (stacked bb)).
Proof.
  intros (Hy & Ht & _ & _ & Hend). cbn. rewrite !Z.geb_leb. pose proof sizes3.
  destruct (Z.leb_spec (b3_n_theta bb) (i3_it st)); symmetry.
  - apply Z.leb_le. assert (i3_it st = b3_n_theta bb) as E by lia.
    rewrite E, (Hend E). lia.
  - apply Z.leb_gt. nia.
Qed.

Lemma advance_sim fuel st :
  iter3_ok st → i3_it st < b3_n_theta bb →
  sim iter_sim (advance3 fuel bb st) (advance2 fuel (stacked bb) (flat st)).
Proof.
  revert st. induction fuel as [|fuel IH]; intros [it iy wi w] Hok Hlt; [done|].
  destruct Hok as (Hy & Ht & Hwi & Hwi2 & _). destruct sizes3 as (? & ? & ? & ? & ?).
  cbn in Hy, Ht, Hwi, Hwi2, Hlt. cbn [advance3 advance2 flat stacked i3_wi i3_iy i3_it i2_wi i2_iy
    b2_wpr b2_map_y b2_data].
  assert (0 ≤ it * b3_map_y bb + iy < b3_n_theta bb * b3_map_y bb) by nia.
  rewrite (u32_add_small wi 1) by (unfold in_u32; lia).
  (* the word both iterators load next *)
  assert (∀ it' iy' wi', 0 ≤ it' < b3_n_theta bb → 0 ≤ iy' < b3_map_y bb → 0 ≤ wi' ≤ b3_wpr bb →
    u32_add (u32_add (u32_mul (u32_mul it' (b3_map_y bb)) (b3_wpr bb))
               (u32_mul iy' (b3_wpr bb))) wi'
    = u32_add (u32_mul (it' * b3_map_y bb + iy') (b3_wpr bb)) wi') as Hidx.
  { intros it' iy' wi' ? ? ?. assert (0 ≤ it' * b3_map_y bb) by nia.
    assert (0 ≤ iy' * b3_wpr bb) by nia.
    assert (it' * b3_map_y bb * b3_wpr bb + iy' * b3_wpr bb + b3_wpr bb
            ≤ b3_n_theta bb * b3_map_y bb * b3_wpr bb).
    { pose proof (Z.mul_le_mono_nonneg_r (it' * b3_map_y bb + iy' + 1)
        (b3_n_theta bb * b3_map_y bb) (b3_wpr bb)). nia. }
    assert (0 ≤ it' * b3_map_y bb * b3_wpr bb) by nia.
    rewrite (u32_mul_small it'), (u32_mul_small (it' * _)), (u32_mul_small iy'),
      (u32_mul_small (_ + _)) by (unfold in_u32; nia).
    rewrite (u32_add_small (_ * _) (_ * _)) by (unfold in_u32; lia). f_equal. lia. }
  assert (∀ it' iy' wi', 0 ≤ it' < b3_n_theta bb → 0 ≤ iy' < b3_map_y bb → 0 ≤ wi' ≤ b3_wpr bb →
    sim iter_sim
      (w ← vget (b3_data bb) (u32_add (u32_add (u32_mul (u32_mul it' (b3_map_y bb)) (b3_wpr bb))
               (u32_mul iy' (b3_wpr bb))) wi');
       if negb (w =? 0) then Ok (mkIter3 it' iy' wi' w) else advance3 fuel bb (mkIter3 it' iy' wi' w))
      (w ← vget (b3_data bb) (u32_add (u32_mul (it' * b3_map_y bb + iy') (b3_wpr bb)) wi');
       if negb (w =? 0) then Ok (mkIter2 (it' * b3_map_y bb + iy') wi' w)
       else advance2 fuel (stacked bb) (mkIter2 (it' * b3_map_y bb + iy') wi' w))) as Hload.
  { intros it' iy' wi' ? ? ?. rewrite Hidx by done.
    destruct (vget _ _) as [w'| |]; cbn [mbind res_bind sim]; [|done|done].
    assert (iter3_ok (mkIter3 it' iy' wi' w')) as Hok' by (repeat split; cbn; lia).
    destruct (w' =? 0); cbn [negb].
    - apply (IH (mkIter3 it' iy' wi' w')); [done|cbn; lia].
    - cbn [sim]. by split. }
  rewrite !Z.geb_leb. destruct (Z.leb_spec (b3_wpr bb) (wi + 1)); cbn [andb].
  2: { apply Hload; lia. }
  rewrite (u32_add_small iy 1), (u32_add_small (_ + iy) 1) by (unfold in_u32; nia).
  rewrite !Z.geb_leb.
  destruct (Z.leb_spec (b3_map_y bb) (iy + 1)); cbn [andb].
  - rewrite (u32_add_small it 1) by (unfold in_u32; nia). rewrite !Z.geb_leb.
    replace (it * b3_map_y bb + iy + 1) with ((it + 1) * b3_map_y bb + 0) by nia.
    destruct (Z.leb_spec (b3_n_theta bb) (it + 1)); cbn [andb].
    + destruct (Z.leb_spec (b3_n_theta bb * b3_map_y bb) ((it + 1) * b3_map_y bb + 0)); [|nia].
      cbn [sim]; split; [unfold flat; cbn; f_equal; lia|]. repeat split; cbn; lia.
    + destruct (Z.leb_spec (b3_n_theta bb * b3_map_y bb) ((it + 1) * b3_map_y bb + 0)); [nia|].
      apply Hload; lia.
  - destruct (Z.leb_spec (b3_n_theta bb * b3_map_y bb) (it * b3_map_y bb + iy + 1)); [nia|].
    replace (it * b3_map_y bb + iy + 1) with (it * b3_map_y bb + (iy + 1)) by lia.
    apply Hload; lia.
Qed.

(** A cell of the stack as a cell of the layers. *)
Definition unstack (c : Z * Z) : Z * Z * Z :=
  (c.1, c.2 mod b3_map_y bb, c.2 / b3_map_y bb).

Lemma unstack_row x y t : 0 ≤ y < b3_map_y bb → unstack (x, t * b3_map_y bb + y) = (x, y, t).
Proof.
  intros H. unfold unstack. cbn. f_equal; [f_equal|].
  - symmetry. apply (Z.mod_unique _ _ t); lia.
  - symmetry. apply (Z.div_unique _ _ _ y); lia.
Qed.

Definition next_sim (p3 : Iter3D * option (Z * Z * Z)) (p2 : Iter2D * option (Z * Z)) : Prop :=
  p3.2 = unstack <$> p2.2 ∧ (is_Some p2.2 → iter_sim p3.1 p2.1).

Lemma next_sim_ok fuel st :
  iter3_ok st → sim next_sim (next3 fuel bb st) (next2 fuel (stacked bb) (flat st)).
Proof.
  revert st. induction fuel as [|fuel IH]; intros st Hok; [done|].
  assert (∀ w, iter3_ok (mkIter3 (i3_it st) (i3_iy st) (i3_wi st) w)) as Hok' by (intros; exact Hok).
  cbn [next3 next2]. change (i2_word (flat st)) with (i3_word st).
  rewrite <- (sim_end st Hok). destruct (i3_word st =? 0).
  - rewrite Z.geb_leb. destruct (Z.leb_spec (b3_n_theta bb) (i3_it st)) as [|Hlt].
    { split; [done|]. cbn. by intros [? ?]. }
    pose proof (advance_sim (S fuel) st Hok Hlt) as Hadv.
    destruct (advance3 (S fuel) bb st) as [st'| |],
      (advance2 (S fuel) (stacked bb) (flat st)) as [st2| |]; cbn [sim] in Hadv; try done.
    destruct Hadv as [-> Hok2]. rewrite !ok_bind. rewrite <- (sim_end st' Hok2).
    destruct (i3_it st' >=? b3_n_theta bb); [|by apply IH].
    split; [done|]. cbn. by intros [? ?].
  - change (i2_wi (flat st)) with (i3_wi st). change (i2_iy (flat st)) with
      (i3_it st * b3_map_y bb + i3_iy st). change (b2_map_x (stacked bb)) with (b3_map_x bb).
    destruct (_ <? b3_map_x bb).
    + split; [|by split]. cbn [fst snd i3_iy i3_it i2_iy].
      change (unstack <$> Some ?c) with (Some (unstack c)).
      by rewrite unstack_row by apply Hok.
    + apply (IH (mkIter3 (i3_it st) (i3_iy st) (i3_wi st) _)), Hok'.
Qed.

Lemma collect_sim fuel st :
  iter3_ok st →
  sim (fun l3 l2 => l3 = unstack <$> l2) (collect3 fuel bb st)
    (collect2 fuel (stacked bb) (flat st)).
Proof.
  revert st. induction fuel as [|fuel IH]; intros st Hok; [done|].
  cbn [collect3 collect2]. pose proof (next_sim_ok (S fuel) st Hok) as Hn.
  destruct (next3 (S fuel) bb st) as [[st3 o3]| |],
    (next2 (S fuel) (stacked bb) (flat st)) as [[st2 o2]| |]; cbn [sim] in Hn; try done.
  destruct Hn as [Ho Hs]. cbn [fst snd] in *. rewrite !ok_bind. subst o3. cbn [fst snd].
  destruct o2 as [c|]; [|done]. cbn [fmap option_fmap option_map].
  destruct (Hs ltac:(by eexists)) as [-> Hok3]. specialize (IH st3 Hok3).
  destruct (collect3 fuel bb st3), (collect2 fuel (stacked bb) (flat st3)); cbn [sim] in IH;
    try done. by subst.
Qed.

Lemma enumerate3_stacked : enumerate3 bb = Ok (unstack <$> cells2 (stacked bb)).
Proof.
  pose proof sizes3 as (? & ? & ? & ? & ?).
  assert (enumerate2 (stacked bb) = Ok (cells2 (stacked bb))) as E
    by (apply enumerate2_eq; [by apply stacked_wf|done]).
  assert (sim (fun l3 l2 => l3 = unstack <$> l2) (enumerate3 bb) (enumerate2 (stacked bb))) as Hs.
  2: { rewrite E in Hs. destruct (enumerate3 bb); cbn in Hs; [by subst|done|done]. }
  unfold enumerate2, enumerate3, iter2_new, iter3_new. cbn [stacked b2_map_y b2_wpr b2_data].
  assert ((0 <? b3_n_theta bb) && (0 <? b3_map_y bb) && (0 <? b3_wpr bb)
    = (0 <? b3_n_theta bb * b3_map_y bb) && (0 <? b3_wpr bb)) as ->.
  { f_equal. rewrite (proj2 (Z.ltb_lt 0 (b3_map_y bb)) Hy0), andb_true_r.
    destruct (Z.ltb_spec 0 (b3_n_theta bb)), (Z.ltb_spec 0 (b3_n_theta bb * b3_map_y bb));
      first [done|nia]. }
  assert (∀ w, iter3_ok (mkIter3 0 0 0 w)) as Hok by (intros w; repeat split; cbn; lia).
  destruct (_ && _).
  - destruct (vget (b3_data bb) 0) as [w| |]; cbn [mbind res_bind]; [|done|done].
    apply (collect_sim _ (mkIter3 0 0 0 w)), Hok.
  - apply (collect_sim _ (mkIter3 0 0 0 0)), Hok.
Qed.
End iter3.

(** The 3-D enumeration, as a duplicate-free list of the set cells. *)
Lemma enumerate3_eq bb :
  wf3 bb → 0 < b3_map_x bb → 0 < b3_map_y bb →
  ∃ l, enumerate3 bb = Ok l ∧ NoDup l ∧
    ∀ x y t, (x, y, t) ∈ l ↔ in3 bb x y t ∧ has3 bb x y t = true.
Proof.
  intros Hwf Hx Hy. eexists. split; [by apply enumerate3_stacked|]. split.
  - apply NoDup_fmap_2_strong; [|apply NoDup_cells2].
    intros [x r] [x' r'] [Hin _]%elem_of_cells2 [Hin' _]%elem_of_cells2.
    unfold unstack. cbn. intros [= -> Hm Hd]. f_equal.
    rewrite (Z.div_mod r (b3_map_y bb)), (Z.div_mod r' (b3_map_y bb)) by lia. lia.
  - intros x y t. rewrite list_elem_of_fmap. split.
    + intros ([x' r] & E & [Hin Hh]%elem_of_cells2). unfold unstack in E. cbn in E.
      injection E as -> -> ->. destruct Hin as [Hx' Hr]. cbn in Hx', Hr.
      pose proof (Z.mod_pos_bound r (b3_map_y bb) Hy). pose proof (Z.div_mod r (b3_map_y bb)).
      split.
      * split; [done|]. split; [done|].
        split; [apply Z.div_pos; lia|apply Z.div_lt_upper_bound; lia].
      * unfold has3, row3. unfold has2 in Hh. cbn in Hh. rewrite <- Hh. f_equal. lia.
    + intros [(Hx' & Hy' & Ht) Hh]. exists (x, t * b3_map_y bb + y).
      split; [symmetry; by apply unstack_row|]. apply elem_of_cells2. split.
      * split; [done|]. cbn. apply (row3_range bb y t Hwf Hy' Ht).
      * unfold has2. cbn. exact Hh.
Qed.

(** ** Population counts *)

Lemma popcount_words data :
  popcount_slice data = zlen (seqZ 0 (zlen data) ≫= fun r => word_bits (wd data r)).
Proof.
  assert (∀ d0 d1, data = d0 ++ d1 → popcount_slice d1 =
    zlen (seqZ (zlen d0) (zlen d1) ≫= fun r => word_bits (wd data r))) as H;
    [|by apply (H [])].
  intros d0 d1. revert d0. induction d1 as [|w d1 IH]; intros d0 E; [done|].
  pose proof (zlen_nonneg d1). assert (zlen (w :: d1) = zlen d1 + 1) as ->
    by (unfold zlen; cbn [length]; lia).
  rewrite seqZ_cons by lia. rewrite bind_cons, zlen_app. cbn [popcount_slice foldr].
  fold (popcount_slice d1). rewrite (IH (d0 ++ [w])) by (by rewrite <- app_assoc).
  rewrite zlen_app. change (zlen [w]) with 1.
  replace (Z.pred (zlen d1 + 1)) with (zlen d1) by lia.
  replace (Z.succ (zlen d0)) with (zlen d0 + 1) by lia. f_equal.
  unfold count_ones. f_equal. f_equal. unfold wd. rewrite E.
  rewrite zget_app_r by lia. by rewrite Z.sub_diag.
Qed.

Lemma popcount_cells bb : wf2 bb → 0 < b2_map_x bb → bb2_popcount bb = zlen (cells2 bb).
Proof.
  intros Hwf Hpos. pose proof (enumerate2_eq bb Hwf Hpos) as E.
  rewrite enumerate2_words in E by done. injection E as <-.
  unfold bb2_popcount. rewrite popcount_words, (buf_len _ _ (w2_buf _ Hwf)).
  generalize (seqZ 0 (b2_map_y bb * b2_wpr bb)). intros l.
  induction l as [|r l IH]; [done|]. rewrite !bind_cons, !zlen_app, IH.
  unfold cells_of. by rewrite zlen_fmap.
Qed.

Lemma popcount2_pos bb :
  wf2 bb → 0 < b2_map_x bb →
  (0 < bb2_popcount bb ↔ ∃ x y, in2 bb x y ∧ has2 bb x y = true).
Proof.
  intros Hwf Hpos. rewrite popcount_cells by done. split.
  - intros H. destruct (cells2 bb) as [|[x y] l] eqn:E; [done|].
    exists x, y. apply elem_of_cells2. rewrite E. left.
  - intros (x & y & H). apply elem_of_cells2 in H.
    destruct (cells2 bb); [by apply elem_of_nil in H|]. unfold zlen. cbn [length]. lia.
Qed.

Lemma popcount3_pos bb :
  wf3 bb → 0 < b3_map_x bb → 0 < b3_map_y bb →
  (0 < bb3_popcount bb ↔ ∃ x y t, in3 bb x y t ∧ has3 bb x y t = true).
Proof.
  intros Hwf Hx Hy. change (bb3_popcount bb) with (bb2_popcount (stacked bb)).
  rewrite popcount2_pos by (done || by apply stacked_wf). split.
  - intros (x & r & H). apply elem_of_cells2 in H.
    destruct (enumerate3_eq bb Hwf Hx Hy) as (l & E & _ & Hl).
    rewrite enumerate3_stacked in E by done. injection E as <-.
    destruct (unstack bb (x, r)) as [[x' y'] t'] eqn:Eu.
    exists x', y', t'. apply Hl. rewrite <- Eu. by apply list_elem_of_fmap_2.
  - intros (x & y & t & (? & ? & ?) & Hh). exists x, (row3 bb y t). split; [|exact Hh].
    split; [done|]. by apply (row3_range bb).
Qed.

(** ** Properties *)

Definition sample_board : Bitboard2D :=
  match bb2_set (bb2_new 70 3) 65 1 with Ok b => b | _ => bb2_new 0 0 end.
Definition sample_board3 : Bitboard3D :=
  match bb3_set (bb3_new 70 3 4) 65 1 3 with Ok b => b | _ => bb3_new 0 0 0 end.

Lemma sample_board_wf : wf2 sample_board.
Proof.
  destruct (bb2_new_wf 70 3) as [Hwf _]; [lia|lia|reflexivity|].
  destruct (bb2_set_eq (bb2_new 70 3) 65 1 Hwf) as (bb' & E & Hwf' & _); [cbn; unfold in2; cbn; lia|].
  unfold sample_board. by rewrite E.
Qed.

Lemma sample_board3_wf : wf3 sample_board3.
Proof.
  destruct (bb3_new_wf 70 3 4) as [Hwf _]; [lia|lia|lia|reflexivity..|].
  destruct (bb3_set_eq (bb3_new 70 3 4) 65 1 3 Hwf) as (bb' & E & Hwf' & _);
    [cbn; unfold in3; cbn; lia|].
  unfold sample_board3. by rewrite E.
Qed.

(** C30: setting a cell of a board changes the answer of [test] at that cell
    only, and neither operation panics inside the board. *)
Theorem bitboard_set_test bb x y :
  wf2 bb → in2 bb x y →
  ∃ bb', bb2_set bb x y = Ok bb' ∧ wf2 bb' ∧ same_dims2 bb' bb ∧
    ∀ x' y', in2 bb x' y' → ∃ b, bb2_test bb x' y' = Ok b ∧
      bb2_test bb' x' y' = Ok (b || bool_decide (x' = x ∧ y' = y)).
Proof.
  intros H Hin. destruct (bb2_set_eq bb x y H Hin) as (bb' & E & Hwf & Hd & Hh).
  exists bb'. split; [done|]. split; [done|]. split; [done|]. intros x' y' Hin'.
  exists (has2 bb x' y'). split; [by apply bb2_test_eq|].
  rewrite bb2_test_eq; [|done|unfold in2; by destruct Hd as [-> ->]].
  by rewrite Hh.
Qed.

Lemma bitboard_set_test_witness :
  ∃ bb', bb2_set sample_board 2 0 = Ok bb' ∧ bb2_test bb' 2 0 = Ok true ∧
    bb2_test bb' 65 1 = Ok true ∧ bb2_test bb' 66 1 = Ok false.
Proof.
  destruct (bitboard_set_test sample_board 2 0) as (bb' & E & _).
  - exact sample_board_wf.
  - split; split; vm_compute; congruence.
  - exists bb'. split; [exact E|]. vm_compute in E. injection E as <-. repeat split.
Defined.

(** The 2-D dilation is the [L]-infinity box: for [dx < 64] it never panics
    and a cell is set in the result exactly when some cell of the board within
    [dx] columns and [dy] rows is set; no bit beyond the map appears. *)
Theorem dilate2d_box bb dx dy :
  wf2 bb → 0 ≤ dx < 64 → 0 ≤ dy →
  ∃ bb', dilate2d bb dx dy = Ok bb' ∧ wf2 bb' ∧ same_dims2 bb' bb ∧
    ∀ x y, in2 bb x y →
      (bb2_test bb' x y = Ok true ↔
       ∃ x' y', in2 bb x' y' ∧ Z.abs (x - x') ≤ dx ∧ Z.abs (y - y') ≤ dy ∧
                bb2_test bb x' y' = Ok true).
Proof.
  intros H Hdx Hdy. destruct (dilate2d_eq bb dx dy H Hdx Hdy) as (bb' & E & Hwf & Hd & Hh).
  exists bb'. split; [done|]. split; [done|]. split; [done|]. intros x y Hin.
  rewrite bb2_test_eq; [|done|unfold in2; by destruct Hd as [-> ->]].
  transitivity (has2 bb' x y = true); [by split; [intros [= ?]|intros ->]|].
  rewrite (Hh x y Hin). split.
  - intros (x' & y' & ? & ? & ? & Ht). exists x', y'. rewrite bb2_test_eq by done.
    by rewrite Ht.
  - intros (x' & y' & ? & ? & ? & Ht). exists x', y'. rewrite bb2_test_eq in Ht by done.
    by injection Ht.
Qed.

Lemma dilate2d_box_witness :
  ∃ bb', dilate2d sample_board 2 1 = Ok bb' ∧ bb2_test bb' 63 0 = Ok true ∧
    bb2_test bb' 62 0 = Ok false.
Proof.
  destruct (dilate2d_box sample_board 2 1) as (bb' & E & _).
  - exact sample_board_wf.
  - lia.
  - lia.
  - exists bb'. split; [exact E|]. vm_compute in E. injection E as <-. repeat split.
Defined.

(** The 3-D dilation is the same box in the plane and periodic in the
    heading: a cell is set exactly when some set cell lies within [dx] columns,
    [dy] rows and [dt] headings around the circle. *)
Theorem dilate3d_box bb dx dy dt :
  wf3 bb → 0 ≤ dx < 64 → 0 ≤ dy → 0 ≤ dt ≤ b3_n_theta bb → b3_n_theta bb < 2 ^ 31 →
  ∃ bb', dilate3d bb dx dy dt = Ok bb' ∧ wf3 bb' ∧ same_dims3 bb' bb ∧
    ∀ x y t, in3 bb x y t →
      (bb3_test bb' x y t = Ok true ↔
       ∃ x' y' d, in3 bb x' y' ((t + d) mod b3_n_theta bb) ∧
         Z.abs (x - x') ≤ dx ∧ Z.abs (y - y') ≤ dy ∧ Z.abs d ≤ dt ∧
         bb3_test bb x' y' ((t + d) mod b3_n_theta bb) = Ok true).
Proof.
  intros H Hdx Hdy Hdt Hnt.
  destruct (dilate3d_eq bb dx dy dt H Hdx Hdy Hdt Hnt) as (bb' & E & Hwf & Hd & Hh).
  exists bb'. split; [done|]. split; [done|]. split; [done|]. intros x y t Hin.
  rewrite bb3_test_eq; [|done|unfold in3; by destruct Hd as (-> & -> & ->)].
  transitivity (has3 bb' x y t = true); [by split; [intros [= ?]|intros ->]|].
  rewrite (Hh x y t Hin). split.
  - intros (x' & y' & d & ? & ? & ? & ? & Ht). exists x', y', d. rewrite bb3_test_eq by done.
    by rewrite Ht.
  - intros (x' & y' & d & ? & ? & ? & ? & Ht). exists x', y', d. rewrite bb3_test_eq in Ht by done.
    by injection Ht.
Qed.

Lemma dilate3d_box_witness :
  ∃ bb', dilate3d sample_board3 2 1 1 = Ok bb' ∧ bb3_test bb' 63 0 0 = Ok true ∧
    bb3_test bb' 63 0 1 = Ok false.
Proof.
  destruct (dilate3d_box sample_board3 2 1 1) as (bb' & E & _).
  - exact sample_board3_wf.
  - lia.
  - lia.
  - vm_compute. split; discriminate.
  - reflexivity.
  - exists bb'. split; [exact E|]. vm_compute in E. injection E as <-. repeat split.
Defined.

(** The lazy enumeration terminates within the fuel, yields every set cell
    exactly once, row by row with increasing columns, and the population count
    is the number of cells it yields. *)
Theorem enumerate2_cells bb :
  wf2 bb → 0 < b2_map_x bb →
  enumerate2 bb = Ok (cells2 bb) ∧ NoDup (cells2 bb) ∧
  bb2_popcount bb = zlen (cells2 bb) ∧
  ∀ x y, (x, y) ∈ cells2 bb ↔ in2 bb x y ∧ bb2_test bb x y = Ok true.
Proof.
  intros H Hp. split; [by apply enumerate2_eq|]. split; [apply NoDup_cells2|].
  split; [by apply popcount_cells|]. intros x y. rewrite elem_of_cells2. split.
  - intros [Hin Ht]. split; [done|]. rewrite bb2_test_eq by done. by rewrite Ht.
  - intros [Hin Ht]. split; [done|]. rewrite bb2_test_eq in Ht by done. by injection Ht.
Qed.

Lemma enumerate2_cells_witness : enumerate2 sample_board = Ok [(65, 1)].
Proof.
  destruct (enumerate2_cells sample_board) as [E _].
  - exact sample_board_wf.
  - reflexivity.
  - rewrite E. reflexivity.
Defined.

(** The 3-D enumeration yields every set cell exactly once. *)
Theorem enumerate3_cells bb :
  wf3 bb → 0 < b3_map_x bb → 0 < b3_map_y bb →
  ∃ l, enumerate3 bb = Ok l ∧ NoDup l ∧
    ∀ x y t, (x, y, t) ∈ l ↔ in3 bb x y t ∧ bb3_test bb x y t = Ok true.
Proof.
  intros H Hx Hy. destruct (enumerate3_eq bb H Hx Hy) as (l & E & Hnd & Hl).
  exists l. split; [done|]. split; [done|]. intros x y t. rewrite Hl. split.
  - intros [Hin Ht]. split; [done|]. rewrite bb3_test_eq by done. by rewrite Ht.
  - intros [Hin Ht]. split; [done|]. rewrite bb3_test_eq in Ht by done. by injection Ht.
Qed.

Lemma enumerate3_cells_witness : ∃ l, enumerate3 sample_board3 = Ok l ∧ NoDup l.
Proof.
  destruct (enumerate3_cells sample_board3) as (l & E & Hnd & _).
  - exact sample_board3_wf.
  - reflexivity.
  - reflexivity.
  - exists l. split; assumption.
Defined.

(** Enumerating an empty-width board with two rows or more reads word 0 of an
    empty buffer: the loop of [advance] does not guard against
    [words_per_row = 0]. *)
Lemma enumerate2_zero_width_panics : enumerate2 (bb2_new 0 2) = Panic.
Proof. reflexivity. Qed.
