(* ===== verification/Active.v ===== *)
(** * Active-set rounds

    What the in-place active-set solvers share: the dilation radius
    [displacement] of solvers/mod.rs, the outcome of a round, and the
    preservation of the pending-cell invariant by one update when moves are
    recorded per region (a cell, a column of headings, a block). *)

From Stdlib Require Import ZArith Lia.
From stdpp Require Import base gmap strings list numbers.
From S2P Require Import Prelude Floats Model Bellman Observe Consistency.

(** ** [displacement] *)

(** [i32::abs] wraps on the minimum. *)
Definition i32_abs (z : Z) : Z := if z =? - 2 ^ 31 then z else Z.abs z.

(** [i32::rem_euclid] *)
Definition i32_rem_euclid (a b : Z) : res Z :=
  if b =? 0 then Panic
  else if (a =? - 2 ^ 31) && (b =? -1) then Panic
  else Ok (a mod Z.abs b).

(** [iter().enumerate()] *)
Definition enumerated {A} (l : list A) : list (Z * A) := zip (seqZ 0 (zlen l)) l.

(** The innermost loop body: one transition [st] taken from heading [t]. *)
Definition disp_step (nt t : Z) (st : StateTransition) (m : Z * Z * Z) : res (Z * Z * Z) :=
  let '(mx, my, mt) := m in
  raw ← i32_rem_euclid (i32_sub (dit st) (as_i32 t)) nt;
  let circ := Z.min raw (i32_sub nt raw) in
  Ok (Z.max mx (i32_abs (dix st)), Z.max my (i32_abs (diy st)), Z.max mt circ).

Definition disp_action (nt : Z) (a : Action) (m : Z * Z * Z) : res (Z * Z * Z) :=
  for_each (enumerated (a_state_transitions a))
    (fun tt m => for_each tt.2 (disp_step nt tt.1) m) m.

Definition displacement (vi : ValueIterator) : res (Z * Z * Z) :=
  m ← for_each (vi_actions vi) (disp_action (vi_cell_num_t vi)) (0, 0, 0);
  let '(mx, my, mt) := m in Ok (Z.max mx 1, Z.max my 1, mt).

(** [m] bounds the moves of [st] taken from heading [t]. *)
Definition covers (nt : Z) (m : Z * Z * Z) (t : Z) (st : StateTransition) : Prop :=
  Z.abs (dix st) ≤ m.1.1 ∧ Z.abs (diy st) ≤ m.1.2 ∧
  ∃ d, Z.abs d ≤ m.2 ∧ dit st mod nt = (t + d) mod nt.

Definition disp_le (m m' : Z * Z * Z) : Prop :=
  m.1.1 ≤ m'.1.1 ∧ m.1.2 ≤ m'.1.2 ∧ m.2 ≤ m'.2.

Lemma covers_le nt m m' t st : covers nt m t st → disp_le m m' → covers nt m' t st.
Proof.
  intros (? & ? & d & ? & ?) (? & ? & ?). split; [lia|]. split; [lia|].
  exists d. split; [lia|done].
Qed.

#[global] Instance disp_le_preorder : PreOrder disp_le.
Proof. split; unfold disp_le; [intros ?; lia|intros ? ? ?; lia]. Qed.

Lemma elem_of_enumerated {A} (l : list A) t x :
  (t, x) ∈ enumerated l ↔ zget l t = Some x.
Proof.
  unfold enumerated, zget. rewrite elem_of_lookup_zip_with. split.
  - intros (i & t' & x' & [= -> ->] & [-> Hi]%lookup_seqZ & Hx).
    rewrite decide_True by lia. by rewrite Z.add_0_l, Nat2Z.id.
  - case_decide; [|done]. intros Hx. exists (Z.to_nat t), t, x.
    split; [done|]. split; [|done]. apply lookup_seqZ.
    apply lookup_lt_Some in Hx. unfold zlen. lia.
Qed.

(** A fold that only grows its accumulator covers what each step covers. *)
Lemma for_each_cover {B} (l : list B) (body : B → Z * Z * Z → res (Z * Z * Z))
    (Q : B → Z * Z * Z → Prop) (I : Z * Z * Z → Prop) m :
  I m → (∀ x m m', Q x m → disp_le m m' → Q x m') →
  (∀ x m, x ∈ l → I m → ∃ m', body x m = Ok m' ∧ I m' ∧ disp_le m m' ∧ Q x m') →
  ∃ m', for_each l body m = Ok m' ∧ I m' ∧ disp_le m m' ∧ ∀ x, x ∈ l → Q x m'.
Proof.
  intros HI Hmono. revert m HI. induction l as [|x l IH]; intros m HI Hb.
  { exists m. split; [done|]. split; [done|]. split; [done|]. by intros x ?%elem_of_nil. }
  cbn. destruct (Hb x m ltac:(left) HI) as (m1 & -> & HI1 & Hle1 & HQ). rewrite ok_bind.
  destruct (IH m1 HI1) as (m2 & -> & HI2 & Hle2 & HQ2).
  { intros y m' Hy. apply Hb. by right. }
  exists m2. split; [done|]. split; [done|]. split; [by etransitivity|].
  intros y [->|Hy]%elem_of_cons; [by eapply Hmono|by apply HQ2].
Qed.

(** Accumulators within the bounds of the field. *)
Definition disp_ok (nt : Z) (m : Z * Z * Z) : Prop :=
  0 ≤ m.1.1 < 2 ^ 31 ∧ 0 ≤ m.1.2 < 2 ^ 31 ∧ 0 ≤ m.2 ≤ nt.

Lemma disp_step_spec nt t st m :
  0 ≤ t < nt → nt < 2 ^ 31 → wf_trans nt st → disp_ok nt m →
  ∃ m', disp_step nt t st m = Ok m' ∧ disp_ok nt m' ∧ disp_le m m' ∧ covers nt m' t st.
Proof.
  destruct m as [[mx my] mt]. intros Ht Hnt [Hdx Hdy Hdt _] (Hmx & Hmy & Hmt).
  cbn in Hmx, Hmy, Hmt. unfold disp_step.
  assert (as_i32 t = t) as -> by (apply wrap_s32_small; unfold in_i32; lia).
  rewrite i32_sub_small by (unfold in_i32; lia).
  unfold i32_rem_euclid. destruct (Z.eqb_spec nt 0); [lia|].
  destruct (Z.eqb_spec nt (-1)); [lia|]. rewrite andb_false_r, ok_bind.
  rewrite Z.abs_eq by lia. pose proof (Z.mod_pos_bound (dit st - t) nt ltac:(lia)) as Hraw.
  rewrite i32_sub_small by (unfold in_i32; lia).
  assert (∀ z, - 2 ^ 31 < z → i32_abs z = Z.abs z) as Habs.
  { intros z Hz. unfold i32_abs. by destruct (Z.eqb_spec z (- 2 ^ 31)); [lia|]. }
  rewrite !Habs by lia. eexists. split; [done|]. split; [unfold disp_ok; cbn; lia|].
  split; [unfold disp_le; cbn; lia|]. unfold covers. cbn. split; [lia|]. split; [lia|].
  pose proof (Z.div_mod (dit st - t) nt ltac:(lia)) as Hdm.
  destruct (Z.le_gt_cases ((dit st - t) mod nt) (nt - (dit st - t) mod nt)).
  - exists ((dit st - t) mod nt). split; [lia|]. rewrite Zplus_mod_idemp_r. f_equal. lia.
  - exists ((dit st - t) mod nt - nt). split; [lia|].
    replace (t + ((dit st - t) mod nt - nt)) with (t + (dit st - t) mod nt + (-1) * nt) by lia.
    rewrite Z_mod_plus_full, Zplus_mod_idemp_r. f_equal. lia.
Qed.

(** What an action's table contributes. *)
Definition action_covered (nt : Z) (a : Action) (m : Z * Z * Z) : Prop :=
  ∀ t trs st, zget (a_state_transitions a) t = Some trs → st ∈ trs → covers nt m t st.

Lemma disp_action_spec nt a m :
  nt < 2 ^ 31 → wf_action nt a → disp_ok nt m →
  ∃ m', disp_action nt a m = Ok m' ∧ disp_ok nt m' ∧ disp_le m m' ∧ action_covered nt a m'.
Proof.
  intros Hnt Ha HI.
  destruct (for_each_cover (enumerated (a_state_transitions a))
    (fun tt m => for_each tt.2 (disp_step nt tt.1) m)
    (fun tt m => ∀ st, st ∈ tt.2 → covers nt m tt.1 st) (disp_ok nt) m HI)
    as (m' & E & HI' & Hle & Hc).
  - intros [t trs] m1 m2 Hc Hle st Hst. eapply covers_le; [by apply Hc|done].
  - intros [t trs] m1 Htt%elem_of_enumerated HI1. cbn [fst snd].
    pose proof (zget_Some_lt _ _ _ Htt) as Htr. rewrite (wa_len _ _ Ha) in Htr.
    apply (for_each_cover trs _ (fun st m => covers nt m t st) (disp_ok nt) m1 HI1).
    + intros st m2 m3. apply covers_le.
    + intros st m2 Hst HI2. apply disp_step_spec; [done..| |done].
      by apply (wa_trans _ _ Ha t trs).
  - exists m'. split; [exact E|]. split; [done|]. split; [done|].
    intros t trs st Htt Hst. by apply (Hc (t, trs)); [apply elem_of_enumerated|].
Qed.

Lemma displacement_spec vi :
  wf_vi vi →
  ∃ mx my mt, displacement vi = Ok (mx, my, mt) ∧ 1 ≤ mx < 2 ^ 31 ∧ 1 ≤ my < 2 ^ 31 ∧
    0 ≤ mt ≤ vi_cell_num_t vi ∧
    ∀ a, a ∈ vi_actions vi → action_covered (vi_cell_num_t vi) a (mx, my, mt).
Proof.
  intros [[Hx Hy Ht Htot] _ Ha]. set (nt := vi_cell_num_t vi) in *.
  assert (nt < 2 ^ 31) as Hnt by nia.
  unfold displacement. fold nt.
  destruct (for_each_cover (vi_actions vi) (disp_action nt) (action_covered nt) (disp_ok nt)
    (0, 0, 0)) as ([[mx my] mt] & -> & HI & _ & Hcov).
  - unfold disp_ok. cbn. lia.
  - intros a m m' Hc Hle t trs st ? ?. eapply covers_le; eauto.
  - intros a m Hin HI. apply disp_action_spec; [done| |done].
    rewrite List.Forall_forall in Ha. by apply Ha, list_elem_of_In.
  - rewrite ok_bind. exists (Z.max mx 1), (Z.max my 1), mt.
    destruct HI as (? & ? & ?). cbn in *. split; [done|]. split; [lia|]. split; [lia|].
    split; [lia|]. intros a Hin t trs st Htt Hst. eapply covers_le; [by eapply Hcov|].
    unfold disp_le. cbn. lia.
Qed.

(** ** Where a backup reads *)

Definition cx (nx nt j : Z) : Z := (j / nt) mod nx.
Definition cy (nx nt j : Z) : Z := j / (nt * nx).
Definition ct (nt j : Z) : Z := j mod nt.

Lemma coords_index nx nt x y t :
  0 ≤ x < nx → 0 ≤ t < nt →
  cx nx nt (index nx nt x y t) = x ∧ cy nx nt (index nx nt x y t) = y ∧
  ct nt (index nx nt x y t) = t.
Proof.
  intros Hx Ht. unfold cx, cy, ct, index.
  assert (0 ≤ x * nt) by (apply Z.mul_nonneg_nonneg; lia).
  assert (t + x * nt < nt * nx) by nia.
  assert ((t + x * nt + y * (nt * nx)) / nt = x + y * nx) as ->.
  { symmetry. apply (Z.div_unique _ _ _ t); lia. }
  split; [|split].
  - symmetry. apply (Z.mod_unique _ _ y); lia.
  - symmetry. apply (Z.div_unique _ _ _ (t + x * nt)); lia.
  - symmetry. apply (Z.mod_unique _ _ (x + y * nx)); lia.
Qed.

Lemma index_of_coords nx nt i :
  0 < nx → 0 < nt → i = index nx nt (cx nx nt i) (cy nx nt i) (ct nt i).
Proof.
  intros Hx Ht. unfold index, cx, cy, ct. rewrite <- Z.div_div by lia.
  pose proof (Z.div_mod i nt ltac:(lia)). pose proof (Z.div_mod (i / nt) nx ltac:(lia)). nia.
Qed.

Lemma index_coords nx ny nt i :
  0 < nx → 0 < nt → 0 ≤ i < nx * ny * nt →
  i = index nx nt (cx nx nt i) (cy nx nt i) (ct nt i) ∧
  0 ≤ cx nx nt i < nx ∧ 0 ≤ cy nx nt i < ny ∧ 0 ≤ ct nt i < nt.
Proof.
  intros Hx Ht Hi. destruct (index_surj nx ny nt i Hx Ht Hi) as (x & y & t & ? & ? & ? & ->).
  destruct (coords_index nx nt x y t) as (-> & -> & ->); done.
Qed.

Section moves.
Context (nx ny nt : Z) (acts : list Action) (m : Z * Z * Z).
Context (Hd : dims_ok nx ny nt) (Ha : Forall (wf_action nt) acts).
Context (Hm : ∀ a, a ∈ acts → action_covered nt a m).

(** Every cell a backup of [i] reads lies within the displacement of [i]. *)
Lemma reads_near st i s j :
  wf_states nx ny nt st → zget st i = Some s → j ∈ reads nx ny nt acts st s →
  0 ≤ j < nx * ny * nt ∧ Z.abs (cx nx nt i - cx nx nt j) ≤ m.1.1 ∧
  Z.abs (cy nx nt i - cy nx nt j) ≤ m.1.2 ∧
  ∃ d, Z.abs d ≤ m.2 ∧ ct nt j = (ct nt i + d) mod nt.
Proof.
  intros Hst Hi Hj. destruct Hd as [Hx Hy Ht _].
  pose proof (ws_state _ _ _ _ Hst _ _ Hi) as [Hix Hiy Hit -> _ _ _].
  apply elem_of_reads in Hj as (a & tr & Hin & Htr & -> & Hb).
  pose proof (proj1 (List.Forall_forall _ _) Ha a (proj1 (list_elem_of_In _ _) Hin)) as Haa.
  pose proof (trans_of_wf nt a s tr Haa Htr) as Hwt.
  assert (blocked nx ny nt st s tr = false) as Hb1.
  { apply not_true_iff_false. intros Hc. apply not_true_iff_false in Hb. apply Hb.
    apply existsb_exists. exists tr. split; [by apply list_elem_of_In|done]. }
  unfold blocked in Hb1. apply orb_false_elim in Hb1 as [Hin1 _].
  apply negb_false_iff in Hin1. pose proof (target_bounds nx ny nt s tr Ht Hwt Hin1) as Hrange.
  split; [done|]. unfold inside in Hin1. rewrite !andb_true_iff in Hin1.
  destruct Hin1 as [[[Hx1 Hx2] Hy1] Hy2]. bool_to_prop.
  pose proof (target_theta nt tr Ht Hwt) as Hth.
  unfold target. destruct (coords_index nx nt (s_ix s) (s_iy s) (s_it s)) as (-> & -> & ->); [done..|].
  destruct (coords_index nx nt (s_ix s + dix tr) (s_iy s + diy tr) (Z.rem (dit tr + nt) nt))
    as (-> & -> & ->); [lia|done|].
  pose proof (trans_of_get nt a s Haa Hit) as Hget.
  destruct (Hm a Hin (s_it s) (trans_of a s) tr Hget Htr) as (? & ? & e & ? & He).
  split; [lia|]. split; [lia|]. exists e. split; [done|]. destruct Hwt.
  rewrite Z.rem_mod_nonneg by lia. rewrite <- He.
  replace (dit tr + nt) with (dit tr + 1 * nt) by lia. apply Z_mod_plus_full.
Qed.
End moves.

(** ** One update of a round, moves recorded per region *)

(** [vi'] is [vi] with other values and policies. *)
Definition inplace (vi vi' : ValueIterator) : Prop :=
  vi' = with_states vi (vi_states vi') ∧ same_static (vi_states vi') (vi_states vi).

Lemma inplace_refl vi : inplace vi vi.
Proof. split; [by destruct vi|reflexivity]. Qed.

Lemma inplace_trans v1 v2 v3 : inplace v1 v2 → inplace v2 v3 → inplace v1 v3.
Proof.
  intros [E1 H1] [E2 H2]. split; [|by etransitivity]. rewrite E2, E1. reflexivity.
Qed.

Section region.
Context {R : Type} (reg : Z → R) (vi0 : ValueIterator).

(** The state of a round: [prev] and [moved] are sets of regions. *)
Record round_inv (prev : R → Prop) (todo : Z → Prop) (moved : R → Prop)
    (vi : ValueIterator) : Prop := {
  ri_wf : wf_vi vi;
  ri_inplace : inplace vi0 vi;
  ri_pending : pending_inv (vi_cell_num_x vi0) (vi_cell_num_y vi0) (vi_cell_num_t vi0)
                 (vi_actions vi0) (vi_states vi0) (vi_states vi)
                 (fun j => prev (reg j)) todo (fun j => moved (reg j))
}.

Lemma round_inv_weaken (prev prev' : R → Prop) (todo todo' : Z → Prop) (moved moved' : R → Prop) vi :
  round_inv prev todo moved vi →
  (∀ r, prev r → prev' r) → (∀ i, todo i → todo' i) → (∀ r, moved r → moved' r) →
  round_inv prev' todo' moved' vi.
Proof.
  intros [? ? ?] ? ? ?. split; [done..|]. eapply pending_inv_weaken; eauto.
Qed.

Lemma inplace_fields vi : inplace vi0 vi →
  vi_cell_num_x vi = vi_cell_num_x vi0 ∧ vi_cell_num_y vi = vi_cell_num_y vi0 ∧
  vi_cell_num_t vi = vi_cell_num_t vi0 ∧ vi_actions vi = vi_actions vi0 ∧
  zlen (vi_states vi) = zlen (vi_states vi0).
Proof.
  intros [E H]. pose proof (same_static_zlen _ _ H). rewrite E. cbn. done.
Qed.

(** The update of one cell: its region is recorded when its value moves. *)
Lemma round_step (prev : R → Prop) (todo : Z → Prop) (moved : R → Prop) vi i :
  round_inv prev todo moved vi → 0 ≤ i < zlen (vi_states vi0) →
  ∃ vi' d, value_iteration_at vi i = Ok (vi', d) ∧ 0 ≤ d ∧
    ∀ (todo' : Z → Prop) (moved' : R → Prop),
      (∀ j, todo j → j = i ∨ todo' j) → (∀ r, moved r → moved' r) →
      (d ≠ 0 → moved' (reg i)) → round_inv prev todo' moved' vi'.
Proof.
  intros [Hwf Hip Hp] Hi.
  destruct (inplace_fields vi Hip) as (Ex & Ey & Et & Ea & El).
  pose proof Hwf as [Hd Hst Ha].
  unfold value_iteration_at. rewrite (value_iteration_raw_eq _ _ _ _ Hd Ha) by (done || lia).
  rewrite ok_bind. eexists _, _. split; [done|]. cbn [fst snd].
  split; [apply delta_nonneg|]. intros todo' moved' Ht Hm Hrec. split.
  - split; cbn; try done. by apply update_wf.
  - eapply inplace_trans; [exact Hip|]. split; [done|]. apply update_static.
  - cbn. rewrite Ex, Ey, Et, Ea in Hrec |- *.
    eapply pending_inv_update; [exact Hp|exact Ht|intros j; apply Hm|exact Hrec].
Qed.
End region.

(** ** The end of a solve *)

(** A converged field: every updatable cell holds exactly what an update would
    store, unless nothing it reads has ever been reached. *)
Definition active_fixed_point (vi0 vi : ValueIterator) : Prop :=
  let '(nx, ny, nt) := (vi_cell_num_x vi, vi_cell_num_y vi, vi_cell_num_t vi) in
  ∀ i s, zget (vi_states vi) i = Some s → updatable s = true →
    min_action_cost (vi_states vi) (vi_actions vi) i nx ny nt
      = Ok (Some (s_total_cost s, s_optimal_action s))
    ∨ (zget (vi_states vi0) i = Some s ∧
       ∀ j, j ∈ reads nx ny nt (vi_actions vi) (vi_states vi) s →
            cost_at (vi_states vi) j = Some MAX_COST).

Lemma round_inv_fixed_point {R} (reg : Z → R) vi0 prev todo vi :
  round_inv reg vi0 prev todo (fun _ => False) vi → (∀ i, ¬ todo i) →
  active_fixed_point vi0 vi.
Proof.
  intros [[Hd Hst Ha] Hip Hp] Hnone i s Hi Hu.
  destruct (inplace_fields vi0 vi Hip) as (Ex & Ey & Et & Ea & El).
  rewrite (min_action_cost_eq _ _ _ _ Hd Ha _ i s) by done. rewrite Hu.
  destruct (Hp i s Hi Hu) as [Hc|[(j & _ & [])|[(Ht & _)|[Hf1 Hf2]]]].
  - left. rewrite Ex, Ey, Et, Ea. by do 2 f_equal.
  - by apply Hnone in Ht.
  - right. split; [done|]. rewrite Ex, Ey, Et, Ea. done.
Qed.

(** The seed: the cells below [MAX_COST], and possibly more. *)
Lemma round_inv_start {R} (reg : Z → R) vi0 (seed : R → Prop) :
  wf_vi vi0 →
  (∀ j s, zget (vi_states vi0) j = Some s → s_total_cost s < MAX_COST → seed (reg j)) →
  round_inv reg vi0 (fun _ => False) (fun _ => False) seed vi0.
Proof.
  intros Hwf Hseed. split; [done|apply inplace_refl|]. intros i s Hi Hu.
  destruct Hwf as [Hd Hst Ha].
  assert (∀ l : list Z, (∀ j, j ∈ l → j ∈ reads (vi_cell_num_x vi0) (vi_cell_num_y vi0)
                              (vi_cell_num_t vi0) (vi_actions vi0) (vi_states vi0) s) →
    (∃ j, j ∈ l ∧ seed (reg j)) ∨ ∀ j, j ∈ l → cost_at (vi_states vi0) j = Some MAX_COST) as Hdec.
  { induction l as [|j l IH]; intros Hl; [right; by intros j ?%elem_of_nil|].
    destruct (IH ltac:(intros; apply Hl; by right)) as [(k & ? & ?)|Hall].
    { left. exists k. split; [by right|done]. }
    assert (∃ a, zget (vi_states vi0) j = Some a) as [a Ha'].
    { specialize (Hl j ltac:(left)). apply elem_of_reads in Hl as (b & tr & _ & Htr & -> & Hb).
      assert (blocked (vi_cell_num_x vi0) (vi_cell_num_y vi0) (vi_cell_num_t vi0)
                (vi_states vi0) s tr = false) as Hb1.
      { apply not_true_iff_false. intros Hc. apply not_true_iff_false in Hb. apply Hb.
        apply existsb_exists. exists tr. split; [by apply list_elem_of_In|done]. }
      unfold blocked in Hb1.
      destruct (zget (vi_states vi0) (target _ _ s tr)) as [a|]; [exists a; reflexivity|].
      by rewrite orb_true_r in Hb1. }
    destruct (Z.lt_ge_cases (s_total_cost a) MAX_COST) as [Hlt|Hge].
    - left. exists j. split; [left|]. by eapply Hseed.
    - right. intros k [->|Hk]%elem_of_cons; [|by apply Hall].
      unfold cost_at. rewrite Ha'. cbn. f_equal.
      pose proof (so_cost _ _ _ _ _ (ws_state _ _ _ _ Hst _ _ Ha')). lia. }
  destruct (Hdec _ ltac:(intros ? H; exact H)) as [(j & ? & ?)|Hall].
  - right; left. by exists j.
  - do 3 right. by split.
Qed.
