(* ===== verification/Frontier.v ===== *)
(** * The frontier solvers (vi_lib/src/solvers/frontier2d.rs, frontier3d.rs and
    the seeds of solvers/mod.rs)

    Rounds of: dilate the frontier by the displacement, re-evaluate the
    candidates in place, collect the cells that moved.  An empty frontier is a
    fixed point wherever anything has been reached. *)

From Stdlib Require Import ZArith Lia.
From stdpp Require Import base gmap strings list numbers.
From S2P Require Import Prelude Floats Model Bellman Observe Consistency.
From S2P Require Import Bitboard BitboardOps BitboardEnum Active.

(** ** Seeds *)

Definition seed_frontier_2d (vi : ValueIterator) : res Bitboard2D :=
  for_each (vi_states vi) (fun s bb =>
    if s_total_cost s <? MAX_COST then bb2_set bb (as_u32 (s_ix s)) (as_u32 (s_iy s)) else Ok bb)
    (bb2_new (as_u32 (vi_cell_num_x vi)) (as_u32 (vi_cell_num_y vi))).

Definition seed_frontier (vi : ValueIterator) : res Bitboard3D :=
  for_each (vi_states vi) (fun s bb =>
    if s_total_cost s <? MAX_COST
    then bb3_set bb (as_u32 (s_ix s)) (as_u32 (s_iy s)) (as_u32 (s_it s)) else Ok bb)
    (bb3_new (as_u32 (vi_cell_num_x vi)) (as_u32 (vi_cell_num_y vi)) (as_u32 (vi_cell_num_t vi))).

(** ** frontier2d.rs *)

(** All headings of one column; counts the updates that moved a value. *)
Definition f2_column (ix iy : Z) (vi : ValueIterator) : res (ValueIterator * Z) :=
  for_range 0 (vi_cell_num_t vi) (fun it acc =>
    r ← value_iteration_at acc.1 (to_index acc.1 (as_i32 ix) (as_i32 iy) it);
    Ok (r.1, if 0 <? r.2 then u64_add acc.2 1 else acc.2)) (vi, 0).

Definition f2_round (cells : list (Z * Z)) (vi : ValueIterator) (updates : Z)
    (new_frontier : Bitboard2D) : res (ValueIterator * Z * Bitboard2D) :=
  for_each cells (fun c acc =>
    let '(vi, updates, nf) := acc in
    r ← f2_column c.1 c.2 vi;
    if 0 <? r.2 then
      nf' ← bb2_set nf c.1 c.2;
      Ok (r.1, u64_add updates r.2, nf')
    else Ok (r.1, updates, nf)) (vi, updates, new_frontier).

Section frontier2d.
Context {S : Type} (obs : SolveObserver S) (max_iter dx dy : Z).

Fixpoint f2_loop (fuel : nat) (vi : ValueIterator) (frontier : Bitboard2D) (updates iters : Z)
    (pacer : BoundaryPacer) (o : S) : res (ValueIterator * S * SolveOutcome) :=
  match fuel with
  | O => OutOfFuel
  | Datatypes.S fuel =>
      if (0 <? bb2_popcount frontier) && (iters <? max_iter) then
        let iters := u32_add iters 1 in
        candidates ← dilate2d frontier dx dy;
        cells ← enumerate2 candidates;
        r ← f2_round cells vi updates
              (bb2_new (as_u32 (vi_cell_num_x vi)) (as_u32 (vi_cell_num_y vi)));
        let '(vi, updates, frontier) := r in
        if 0 <? bb2_popcount frontier then
          match at_boundary obs vi iters updates pacer o with
          | (_, o, Some out) => Ok (vi, o, out)
          | (pacer, o, None) => f2_loop fuel vi frontier updates iters pacer o
          end
        else f2_loop fuel vi frontier updates iters pacer o
      else Ok (vi, o, running iters updates (bb2_popcount frontier =? 0))
  end.
End frontier2d.

Definition frontier2d_solve_observed {S} (obs : SolveObserver S) (max_iter : Z)
    (vi : ValueIterator) (o : S) : res (ValueIterator * S * SolveOutcome) :=
  d ← displacement vi;
  let '(mx, my, _) := d in
  frontier ← seed_frontier_2d vi;
  f2_loop obs max_iter (as_u32 mx) (as_u32 my) (Datatypes.S (Z.to_nat max_iter)) vi frontier 0 0
    (pacer_new obs o) o.

(** ** frontier3d.rs *)

Definition f3_round (cells : list (Z * Z * Z)) (vi : ValueIterator) (updates : Z)
    (new_frontier : Bitboard3D) : res (ValueIterator * Z * Bitboard3D) :=
  for_each cells (fun c acc =>
    let '(ix, iy, it) := c in
    let '(vi, updates, nf) := acc in
    r ← value_iteration_at vi (to_index vi (as_i32 ix) (as_i32 iy) (as_i32 it));
    if 0 <? r.2 then
      nf' ← bb3_set nf ix iy it;
      Ok (r.1, u64_add updates 1, nf')
    else Ok (r.1, updates, nf)) (vi, updates, new_frontier).

Section frontier3d.
Context {S : Type} (obs : SolveObserver S) (max_iter dx dy dt : Z).

Fixpoint f3_loop (fuel : nat) (vi : ValueIterator) (frontier : Bitboard3D) (updates iters : Z)
    (pacer : BoundaryPacer) (o : S) : res (ValueIterator * S * SolveOutcome) :=
  match fuel with
  | O => OutOfFuel
  | Datatypes.S fuel =>
      if (0 <? bb3_popcount frontier) && (iters <? max_iter) then
        let iters := u32_add iters 1 in
        candidates ← dilate3d frontier dx dy dt;
        cells ← enumerate3 candidates;
        r ← f3_round cells vi updates
              (bb3_new (as_u32 (vi_cell_num_x vi)) (as_u32 (vi_cell_num_y vi))
                       (as_u32 (vi_cell_num_t vi)));
        let '(vi, updates, frontier) := r in
        if 0 <? bb3_popcount frontier then
          match at_boundary obs vi iters updates pacer o with
          | (_, o, Some out) => Ok (vi, o, out)
          | (pacer, o, None) => f3_loop fuel vi frontier updates iters pacer o
          end
        else f3_loop fuel vi frontier updates iters pacer o
      else Ok (vi, o, running iters updates (bb3_popcount frontier =? 0))
  end.
End frontier3d.

Definition frontier3d_solve_observed {S} (obs : SolveObserver S) (max_iter : Z)
    (vi : ValueIterator) (o : S) : res (ValueIterator * S * SolveOutcome) :=
  d ← displacement vi;
  let '(mx, my, mt) := d in
  frontier ← seed_frontier vi;
  f3_loop obs max_iter (as_u32 mx) (as_u32 my) (as_u32 mt) (Datatypes.S (Z.to_nat max_iter))
    vi frontier 0 0 (pacer_new obs o) o.

(** ** Boards of the field *)

Lemma dims_board nx ny nt :
  dims_ok nx ny nt →
  0 ≤ nx < 2 ^ 31 ∧ 0 ≤ ny < 2 ^ 31 ∧ 0 ≤ nt < 2 ^ 31 ∧ nt * ny < 2 ^ 31 ∧
  ny * words_per_row nx < 2 ^ 31 ∧ nt * ny * words_per_row nx < 2 ^ 31.
Proof.
  intros [Hx Hy Ht Htot]. pose proof (words_per_row_bounds nx ltac:(lia)) as [Hw Hb].
  assert (words_per_row nx ≤ nx) by lia.
  assert (nt * ny * words_per_row nx ≤ nt * ny * nx) by (apply Z.mul_le_mono_nonneg_l; nia).
  assert (ny * words_per_row nx ≤ nt * ny * words_per_row nx) by nia.
  assert (nt * ny ≤ nx * ny * nt) by nia. repeat split; nia.
Qed.

(** [bb] is a board of the plane of [vi]. *)
Definition plane_board (vi : ValueIterator) (bb : Bitboard2D) : Prop :=
  wf2 bb ∧ b2_map_x bb = vi_cell_num_x vi ∧ b2_map_y bb = vi_cell_num_y vi.

Definition space_board (vi : ValueIterator) (bb : Bitboard3D) : Prop :=
  wf3 bb ∧ b3_map_x bb = vi_cell_num_x vi ∧ b3_map_y bb = vi_cell_num_y vi ∧
  b3_n_theta bb = vi_cell_num_t vi.

Lemma plane_board_new vi :
  wf_vi vi →
  let bb := bb2_new (as_u32 (vi_cell_num_x vi)) (as_u32 (vi_cell_num_y vi)) in
  plane_board vi bb ∧ ∀ x y, has2 bb x y = false.
Proof.
  intros [Hd _ _]. destruct (dims_board _ _ _ Hd) as (? & ? & ? & ? & ? & ?).
  rewrite !as_u32_small by done. cbv zeta.
  destruct (bb2_new_wf (vi_cell_num_x vi) (vi_cell_num_y vi)); [done|lia|done|].
  split; [by split|done].
Qed.

Lemma space_board_new vi :
  wf_vi vi →
  let bb := bb3_new (as_u32 (vi_cell_num_x vi)) (as_u32 (vi_cell_num_y vi))
                    (as_u32 (vi_cell_num_t vi)) in
  space_board vi bb ∧ ∀ x y t, has3 bb x y t = false.
Proof.
  intros [Hd _ _]. destruct (dims_board _ _ _ Hd) as (? & ? & ? & ? & ? & ?).
  rewrite !as_u32_small by done. cbv zeta.
  destruct (bb3_new_wf (vi_cell_num_x vi) (vi_cell_num_y vi) (vi_cell_num_t vi));
    [done|lia|lia|done..|].
  split; [by split|done].
Qed.

Lemma plane_set vi bb x y :
  plane_board vi bb → 0 ≤ x < vi_cell_num_x vi → 0 ≤ y < vi_cell_num_y vi →
  ∃ bb', bb2_set bb x y = Ok bb' ∧ plane_board vi bb' ∧ has2 bb' x y = true ∧
    ∀ x' y', 0 ≤ x' < vi_cell_num_x vi → 0 ≤ y' < vi_cell_num_y vi →
      has2 bb x' y' = true → has2 bb' x' y' = true.
Proof.
  intros (Hwf & Ex & Ey) Hx Hy.
  destruct (bb2_set_eq bb x y Hwf) as (bb' & E & Hwf' & [Dx Dy] & Hh); [split; lia|].
  exists bb'. split; [done|]. split; [split; [done|split; congruence]|]. split.
  - rewrite Hh by (split; lia). rewrite bool_decide_eq_true_2 by done. apply orb_true_r.
  - intros x' y' ?? H. rewrite Hh by (split; lia). by rewrite H.
Qed.

Lemma space_set vi bb x y t :
  space_board vi bb → 0 ≤ x < vi_cell_num_x vi → 0 ≤ y < vi_cell_num_y vi →
  0 ≤ t < vi_cell_num_t vi →
  ∃ bb', bb3_set bb x y t = Ok bb' ∧ space_board vi bb' ∧ has3 bb' x y t = true ∧
    ∀ x' y' t', 0 ≤ x' < vi_cell_num_x vi → 0 ≤ y' < vi_cell_num_y vi →
      0 ≤ t' < vi_cell_num_t vi → has3 bb x' y' t' = true → has3 bb' x' y' t' = true.
Proof.
  intros (Hwf & Ex & Ey & Et) Hx Hy Ht.
  destruct (bb3_set_eq bb x y t Hwf) as (bb' & E & Hwf' & (Dx & Dy & Dt) & Hh);
    [split; [lia|split; lia]|].
  exists bb'. split; [done|]. split; [split; [done|split; [congruence|split; congruence]]|]. split.
  - rewrite Hh by (split; [lia|split; lia]). rewrite bool_decide_eq_true_2 by done. apply orb_true_r.
  - intros x' y' t' ??? H. rewrite Hh by (split; [lia|split; lia]). by rewrite H.
Qed.

(** ** The seeds contain every cell below [MAX_COST] *)

(** Marking the reached states of a field in a board of any kind. *)
Lemma seed_fold {B} (ok : B → Prop) (mem : State → B → Prop) (set : State → B → res B)
    (l : list State) b :
  ok b →
  (∀ s b, s ∈ l → ok b → ∃ b', set s b = Ok b' ∧ ok b' ∧ mem s b' ∧
                               ∀ r, r ∈ l → mem r b → mem r b') →
  ∃ b', for_each l (fun s b => if s_total_cost s <? MAX_COST then set s b else Ok b) b = Ok b' ∧
    ok b' ∧ (∀ s, s ∈ l → s_total_cost s < MAX_COST ∨ mem s b → mem s b').
Proof.
  intros Hok Hset.
  assert (∀ l', (∀ s, s ∈ l' → s ∈ l) → ∀ b, ok b →
    ∃ b', for_each l' (fun s b => if s_total_cost s <? MAX_COST then set s b else Ok b) b = Ok b' ∧
      ok b' ∧ (∀ s, s ∈ l → mem s b → mem s b') ∧
      (∀ s, s ∈ l' → s_total_cost s < MAX_COST → mem s b')) as H.
  { clear b Hok. induction l' as [|s l' IH]; intros Hin b Hok.
    { exists b. split; [done|]. split; [done|]. split; [done|]. by intros s ?%elem_of_nil. }
    cbn. destruct (Z.ltb_spec (s_total_cost s) MAX_COST) as [Hlt|Hge].
    - destruct (Hset s b (Hin s ltac:(left)) Hok) as (b1 & -> & Hok1 & Hs & Hm). rewrite ok_bind.
      destruct (IH ltac:(intros; apply Hin; by right) b1 Hok1) as (b2 & -> & Hok2 & Hm2 & Hl2).
      exists b2. split; [done|]. split; [done|]. split; [auto|].
      intros r [->|Hr]%elem_of_cons Hc; [|by auto]. apply Hm2; [apply Hin; left|done].
    - rewrite ok_bind.
      destruct (IH ltac:(intros; apply Hin; by right) b Hok) as (b2 & -> & Hok2 & Hm2 & Hl2).
      exists b2. split; [done|]. split; [done|]. split; [done|].
      intros r [->|Hr]%elem_of_cons Hc; [lia|by auto]. }
  destruct (H l ltac:(done) b Hok) as (b' & E & Hok' & Hm & Hl).
  exists b'. split; [done|]. split; [done|]. intros s Hs [?|?]; auto.
Qed.

Lemma seed_frontier_2d_spec vi :
  wf_vi vi →
  ∃ bb, seed_frontier_2d vi = Ok bb ∧ plane_board vi bb ∧
    ∀ i s, zget (vi_states vi) i = Some s → s_total_cost s < MAX_COST →
      has2 bb (s_ix s) (s_iy s) = true.
Proof.
  intros Hwf. pose proof Hwf as [Hd Hst _]. destruct (plane_board_new vi Hwf) as [Hnew _].
  destruct (dims_board _ _ _ Hd) as (? & ? & ? & _).
  destruct (seed_fold (plane_board vi) (fun s bb => has2 bb (s_ix s) (s_iy s) = true)
    (fun s bb => bb2_set bb (as_u32 (s_ix s)) (as_u32 (s_iy s))) (vi_states vi)
    (bb2_new (as_u32 (vi_cell_num_x vi)) (as_u32 (vi_cell_num_y vi)))) as (bb & E & Hb & Hc).
  - done.
  - intros s bb [i Hi]%elem_of_zget Hb.
    pose proof (ws_state _ _ _ _ Hst _ _ Hi) as [Hx Hy _ _ _ _ _].
    rewrite !as_u32_small by lia.
    destruct (plane_set vi bb (s_ix s) (s_iy s) Hb Hx Hy) as (bb' & -> & Hb' & Hs & Hmono).
    exists bb'. split; [done|]. split; [done|]. split; [done|]. intros r [j Hj]%elem_of_zget.
    pose proof (ws_state _ _ _ _ Hst _ _ Hj) as [? ? _ _ _ _ _]. by apply Hmono.
  - exists bb. split; [exact E|]. split; [done|]. intros i s Hi Hlt.
    apply Hc; [apply elem_of_zget; by exists i|by left].
Qed.

Lemma seed_frontier_spec vi :
  wf_vi vi →
  ∃ bb, seed_frontier vi = Ok bb ∧ space_board vi bb ∧
    ∀ i s, zget (vi_states vi) i = Some s → s_total_cost s < MAX_COST →
      has3 bb (s_ix s) (s_iy s) (s_it s) = true.
Proof.
  intros Hwf. pose proof Hwf as [Hd Hst _]. destruct (space_board_new vi Hwf) as [Hnew _].
  destruct (dims_board _ _ _ Hd) as (? & ? & ? & _).
  destruct (seed_fold (space_board vi) (fun s bb => has3 bb (s_ix s) (s_iy s) (s_it s) = true)
    (fun s bb => bb3_set bb (as_u32 (s_ix s)) (as_u32 (s_iy s)) (as_u32 (s_it s))) (vi_states vi)
    (bb3_new (as_u32 (vi_cell_num_x vi)) (as_u32 (vi_cell_num_y vi)) (as_u32 (vi_cell_num_t vi))))
    as (bb & E & Hb & Hc).
  - done.
  - intros s bb [i Hi]%elem_of_zget Hb.
    pose proof (ws_state _ _ _ _ Hst _ _ Hi) as [Hx Hy Ht _ _ _ _].
    rewrite !as_u32_small by lia.
    destruct (space_set vi bb (s_ix s) (s_iy s) (s_it s) Hb Hx Hy Ht)
      as (bb' & -> & Hb' & Hs & Hmono).
    exists bb'. split; [done|]. split; [done|]. split; [done|]. intros r [j Hj]%elem_of_zget.
    pose proof (ws_state _ _ _ _ Hst _ _ Hj) as [? ? ? _ _ _ _]. by apply Hmono.
  - exists bb. split; [exact E|]. split; [done|]. intros i s Hi Hlt.
    apply Hc; [apply elem_of_zget; by exists i|by left].
Qed.

(** ** Rounds *)

(** Opening a round: the cells that can move and read what the last one moved
    have to be visited. *)
Lemma round_begin {R} (reg : Z → R) vi0 (prev moved : R → Prop) (todo todo' : Z → Prop) vi :
  round_inv reg vi0 prev todo moved vi → (∀ i, ¬ todo i) →
  (∀ i s j, zget (vi_states vi) i = Some s → updatable s = true →
     j ∈ reads (vi_cell_num_x vi0) (vi_cell_num_y vi0) (vi_cell_num_t vi0) (vi_actions vi0)
           (vi_states vi) s →
     moved (reg j) → todo' i) →
  round_inv reg vi0 moved todo' (fun _ => False) vi.
Proof.
  intros [Hwf Hip Hp] Hnone Hcov. split; [done..|]. intros i s Hi Hu.
  destruct (Hp i s Hi Hu) as [?|[(j & ? & ?)|[(Ht & _)|?]]].
  - by left.
  - do 2 right. left. split; [by eapply Hcov|by exists j].
  - by apply Hnone in Ht.
  - by do 3 right.
Qed.

(** One cell of a round, with the move recorded by a board. *)
Definition col (nx nt j : Z) : Z * Z := (cx nx nt j, cy nx nt j).
Definition spot (nx nt j : Z) : Z * Z * Z := (cx nx nt j, cy nx nt j, ct nt j).

Section rounds2.
Context (vi0 : ValueIterator) (Hwf0 : wf_vi vi0) (prev : Z * Z → Prop).
Let nx := vi_cell_num_x vi0.
Let ny := vi_cell_num_y vi0.
Let nt := vi_cell_num_t vi0.

Lemma f2_column_spec ix iy vi (todo : Z → Prop) (moved : Z * Z → Prop) :
  0 ≤ ix < vi_cell_num_x vi0 → 0 ≤ iy < vi_cell_num_y vi0 →
  round_inv (col nx nt) vi0 prev (fun i => col nx nt i = (ix, iy) ∨ todo i) moved vi →
  ∃ vi' u, f2_column ix iy vi = Ok (vi', u) ∧ 0 ≤ u ∧
    round_inv (col nx nt) vi0 prev todo (fun r => moved r ∨ (0 < u ∧ r = (ix, iy))) vi'.
Proof.
  intros Hix Hiy Hinv. pose proof Hwf0 as [Hd Hst0 _].
  destruct (dims_board _ _ _ Hd) as (? & ? & ? & _). pose proof Hd as [Hx Hy Ht Htot].
  destruct (inplace_fields vi0 vi (ri_inplace _ _ _ _ _ _ Hinv)) as (_ & _ & Et & _).
  unfold f2_column. rewrite Et.
  destruct (for_range_inv (fun k (acc : ValueIterator * Z) => 0 ≤ acc.2 ≤ k ∧
    round_inv (col nx nt) vi0 prev (fun i => (col nx nt i = (ix, iy) ∧ k ≤ ct nt i) ∨ todo i)
      (fun r => moved r ∨ (0 < acc.2 ∧ r = (ix, iy))) acc.1) 0 (vi_cell_num_t vi0)
    (fun it acc =>
      r ← value_iteration_at acc.1 (to_index acc.1 (as_i32 ix) (as_i32 iy) it);
      Ok (r.1, if 0 <? r.2 then u64_add acc.2 1 else acc.2)) (vi, 0)) as ([vi' u] & E & Hu & Hri).
  - lia.
  - split; [cbn; lia|]. eapply round_inv_weaken; [exact Hinv|done| |by left].
    intros i [?|?]; [left; split; [done|]|by right]. apply Z.mod_pos_bound. exact Ht.
  - intros k [v u] Hk [Hu Hri]. cbn [fst snd] in *.
    destruct (inplace_fields vi0 v (ri_inplace _ _ _ _ _ _ Hri)) as (Ex & Ey & Ett & _ & El).
    unfold to_index. rewrite Ex, Ett, !as_i32_small by lia.
    rewrite (to_index_raw_small nx ny nt) by done.
    destruct (coords_index nx nt ix iy k) as (Cx & Cy & Ct); [done..|].
    pose proof (index_bounds nx ny nt ix iy k Hix Hiy Hk) as Hb.
    destruct (round_step (col nx nt) vi0 prev _ _ v (index nx nt ix iy k) Hri)
      as (v1 & d1 & -> & Hd1 & Hnext).
    { rewrite (ws_len _ _ _ _ Hst0). exact Hb. }
    rewrite ok_bind. eexists. split; [done|]. cbn [fst snd].
    assert (0 ≤ u + 1 < 2 ^ 64) by lia. rewrite u64_add_small by done.
    split; [destruct (0 <? d1); lia|]. apply Hnext.
    + intros j [[Hc Hk2]|?]; [|by right; right].
      destruct (decide (ct nt j = k)) as [Ej|Ej]; [|right; left; split; [done|lia]].
      left. injection Hc as Hcx Hcy. rewrite (index_of_coords nx nt j) by done. congruence.
    + intros r [?|[? ?]]; [by left|]. right. split; [destruct (0 <? d1); lia|done].
    + intros Hne. right. unfold col. rewrite Cx, Cy.
      destruct (Z.ltb_spec 0 d1); [|lia]. split; [lia|done].
  - exists vi', u. split; [exact E|]. cbn in Hu, Hri. split; [lia|].
    eapply round_inv_weaken; [exact Hri|done| |done].
    intros i [[_ Hk]|?]; [|done]. exfalso. unfold ct in Hk.
    pose proof (Z.mod_pos_bound i nt Ht). lia.
Qed.

(** Membership of a column in a plane board. *)
Definition mem2 (bb : Bitboard2D) (r : Z * Z) : Prop :=
  0 ≤ r.1 < nx ∧ 0 ≤ r.2 < ny ∧ has2 bb r.1 r.2 = true.

Lemma f2_round_spec cells vi updates nf :
  (∀ c, c ∈ cells → 0 ≤ c.1 < nx ∧ 0 ≤ c.2 < ny) → plane_board vi0 nf →
  (∀ r, ¬ mem2 nf r) →
  round_inv (col nx nt) vi0 prev (fun i => col nx nt i ∈ cells) (fun _ => False) vi →
  ∃ vi' updates' nf', f2_round cells vi updates nf = Ok (vi', updates', nf') ∧
    plane_board vi0 nf' ∧
    round_inv (col nx nt) vi0 prev (fun _ => False) (mem2 nf') vi'.
Proof.
  intros Hcells Hnf Hempty Hinv. unfold f2_round.
  destruct (for_each_inv (fun k (acc : ValueIterator * Z * Bitboard2D) =>
    let '(v, _, nf) := acc in plane_board vi0 nf ∧
    round_inv (col nx nt) vi0 prev (fun i => col nx nt i ∈ drop k cells) (mem2 nf) v) cells
    (fun c acc =>
      let '(vi, updates, nf) := acc in
      r ← f2_column c.1 c.2 vi;
      if 0 <? r.2 then
        nf' ← bb2_set nf c.1 c.2;
        Ok (r.1, u64_add updates r.2, nf')
      else Ok (r.1, updates, nf)) (vi, updates, nf)) as ([[v u] nf'] & E & Hnf' & Hri).
  - split; [done|]. eapply round_inv_weaken; [exact Hinv|done|done|done].
  - intros k [ix iy] [[v u] nf1] Hk [Hnf1 Hri]. cbn [fst snd].
    destruct (Hcells (ix, iy)) as [Hx Hy]; [by eapply list_elem_of_lookup_2|]. cbn in Hx, Hy.
    destruct (f2_column_spec ix iy v (fun i => col nx nt i ∈ drop (S k) cells) (mem2 nf1))
      as (v1 & c1 & -> & Hc1 & Hri1); [done|done| |].
    { eapply round_inv_weaken; [exact Hri|done| |done]. intros i.
      rewrite (drop_S cells (ix, iy) k) by done. rewrite elem_of_cons. tauto. }
    rewrite ok_bind. cbn [fst snd]. destruct (Z.ltb_spec 0 c1).
    + destruct (plane_set vi0 nf1 ix iy Hnf1 Hx Hy) as (nf2 & -> & Hnf2 & Hset & Hmono).
      rewrite ok_bind. eexists. split; [done|]. split; [done|].
      eapply round_inv_weaken; [exact Hri1|done|done|].
      intros r [(? & ? & ?)|[_ ->]]; (split; [done|]); (split; [done|]); [by apply Hmono|done].
    + eexists. split; [done|]. split; [done|].
      eapply round_inv_weaken; [exact Hri1|done|done|]. intros r [?|[? _]]; [done|lia].
  - exists v, u, nf'. split; [exact E|]. split; [done|].
    eapply round_inv_weaken; [exact Hri|done| |done].
    intros i. rewrite drop_all. by intros ?%elem_of_nil.
Qed.
End rounds2.

(** What every in-place active-set solver promises of its result. *)
Definition solve_ok (vi0 : ValueIterator) (max_iter : Z) (vi : ValueIterator)
    (out : SolveOutcome) : Prop :=
  wf_vi vi ∧ inplace vi0 vi ∧ 0 ≤ so_iters out ≤ Z.max 0 max_iter ∧
  (so_converged out = true → active_fixed_point vi0 vi).

(** The outcome of the boundary block is never a converged one. *)
Lemma at_boundary_out {S} (obs : SolveObserver S) vi iters updates p o :
  let '(p', o', r) := at_boundary obs vi iters updates p o in
  ∀ out, r = Some out → so_converged out = false ∧ so_iters out = iters.
Proof.
  unfold at_boundary. destruct (due p iters) as [[] p']; [|done].
  destruct (ob_boundary obs o _) as [o' []]; by intros out [= <-].
Qed.

Section solve2.
Context {S : Type} (obs : SolveObserver S) (max_iter : Z) (vi0 : ValueIterator).
Context (Hwf0 : wf_vi vi0) (Hmax : 0 ≤ max_iter < 2 ^ 32).
Context (mx my mt : Z) (Hmx : 1 ≤ mx < 64) (Hmy : 1 ≤ my < 2 ^ 31).
Context (Hcov : ∀ a, a ∈ vi_actions vi0 → action_covered (vi_cell_num_t vi0) a (mx, my, mt)).

Lemma f2_loop_spec fuel vi bb updates iters p o (prev : Z * Z → Prop) (todo : Z → Prop) :
  0 ≤ iters ≤ max_iter → max_iter < Z.of_nat fuel + iters →
  plane_board vi0 bb → (∀ i, ¬ todo i) →
  round_inv (col (vi_cell_num_x vi0) (vi_cell_num_t vi0)) vi0 prev todo (mem2 vi0 bb) vi →
  ∃ vi' o' out, f2_loop obs max_iter mx my fuel vi bb updates iters p o = Ok (vi', o', out) ∧
    solve_ok vi0 max_iter vi' out.
Proof.
  revert vi bb updates iters p o prev todo.
  induction fuel as [|fuel IH]; intros vi bb updates iters p o prev todo Hit Hf Hbb Hnone Hri; [lia|].
  pose proof Hwf0 as [Hd _ Ha]. pose proof Hd as [Hx0 Hy0 Ht0 _].
  pose proof Hbb as (Hwfb & Ebx & Eby).
  cbn [f2_loop]. destruct (Z.ltb_spec 0 (bb2_popcount bb)) as [Hpop|Hpop]; cbn [andb].
  2: { (* the frontier is empty *)
    do 3 eexists. split; [done|]. split; [apply Hri|]. split; [apply Hri|]. split; [cbn; lia|].
    intros _. eapply round_inv_fixed_point; [|exact Hnone].
    eapply round_inv_weaken; [exact Hri|done|done|]. intros r (Hr1 & Hr2 & Hr).
    assert (0 < bb2_popcount bb); [|lia]. apply popcount2_pos; [done|lia|].
    exists r.1, r.2. split; [split; lia|done]. }
  destruct (Z.ltb_spec iters max_iter) as [Hlt|Hge].
  2: { do 3 eexists. split; [done|]. split; [apply Hri|]. split; [apply Hri|].
       split; [cbn; lia|]. cbn. intros Hc. apply Z.eqb_eq in Hc. lia. }
  rewrite u32_add_small by (unfold in_u32; lia).
  destruct (dilate2d_eq bb mx my Hwfb ltac:(lia) ltac:(lia))
    as (cand & -> & Hwfc & [Dx Dy] & Hcand). rewrite ok_bind.
  rewrite (enumerate2_eq cand Hwfc) by lia. rewrite ok_bind.
  destruct (inplace_fields vi0 vi (ri_inplace _ _ _ _ _ _ Hri)) as (Ex & Ey & Et & Ea & El).
  rewrite Ex, Ey. destruct (plane_board_new vi0 Hwf0) as [Hnew Hempty].
  destruct (f2_round_spec vi0 Hwf0 (mem2 vi0 bb) (cells2 cand) vi updates
    (bb2_new (as_u32 (vi_cell_num_x vi0)) (as_u32 (vi_cell_num_y vi0))))
    as (vi1 & u1 & nf & -> & Hnf & Hri1).
  - intros [x y] [[? ?] _]%elem_of_cells2. cbn. lia.
  - done.
  - intros r (_ & _ & Hr). by rewrite Hempty in Hr.
  - eapply round_begin; [exact Hri|exact Hnone|]. intros i s j Hi _ Hj (Hm1 & Hm2 & Hm).
    pose proof (wv_states _ (ri_wf _ _ _ _ _ _ Hri)) as Hst. rewrite Ex, Ey, Et in Hst.
    destruct (reads_near _ _ _ _ (mx, my, mt) Hd Ha Hcov (vi_states vi) i s j Hst Hi Hj)
      as (_ & Hdx & Hdy & _).
    assert (0 ≤ i < zlen (vi_states vi)) as Hir by (by eapply zget_Some_lt).
    rewrite (ws_len _ _ _ _ Hst) in Hir.
    destruct (index_coords _ _ _ i Hx0 Ht0 Hir) as (_ & Hix & Hiy & _).
    apply elem_of_cells2. assert (in2 bb (cx (vi_cell_num_x vi0) (vi_cell_num_t vi0) i)
      (cy (vi_cell_num_x vi0) (vi_cell_num_t vi0) i)) as Hin by (split; lia).
    split; [split; lia|]. apply (Hcand _ _ Hin).
    exists (cx (vi_cell_num_x vi0) (vi_cell_num_t vi0) j), (cy (vi_cell_num_x vi0) (vi_cell_num_t vi0) j).
    cbn in Hm1, Hm2, Hm, Hdx, Hdy. split; [split; lia|]. done.
  - rewrite ok_bind. destruct (0 <? bb2_popcount nf).
    + pose proof (at_boundary_out obs vi1 (iters + 1) u1 p o) as Hb.
      destruct (at_boundary obs vi1 (iters + 1) u1 p o) as [[p' o'] [out|]].
      * destruct (Hb out eq_refl) as [Hnc Hi]. do 3 eexists. split; [done|].
        split; [apply Hri1|]. split; [apply Hri1|]. split; [lia|]. by rewrite Hnc.
      * eapply (IH vi1 nf u1 (iters + 1) p' o'); [lia|lia|done| |exact Hri1]. tauto.
    + eapply (IH vi1 nf u1 (iters + 1) p o); [lia|lia|done| |exact Hri1]. tauto.
Qed.
End solve2.

Lemma frontier2d_solve_spec {S} (obs : SolveObserver S) max_iter vi o mx my mt :
  wf_vi vi → 0 ≤ max_iter < 2 ^ 32 → displacement vi = Ok (mx, my, mt) → mx < 64 →
  ∃ vi' o' out, frontier2d_solve_observed obs max_iter vi o = Ok (vi', o', out) ∧
    solve_ok vi max_iter vi' out.
Proof.
  intros Hwf Hmax Hdisp Hmx. destruct (displacement_spec vi Hwf) as (mx' & my' & mt' & E & H1 & H2 & H3 & Hcov).
  rewrite Hdisp in E. injection E as <- <- <-.
  unfold frontier2d_solve_observed. rewrite Hdisp, ok_bind.
  destruct (seed_frontier_2d_spec vi Hwf) as (bb & -> & Hbb & Hseed). rewrite ok_bind.
  rewrite !as_u32_small by lia.
  eapply (f2_loop_spec obs max_iter vi Hwf Hmax mx my mt); try done; try lia.
  2: { apply round_inv_start; [done|]. intros j s Hj Hlt.
       pose proof Hwf as [Hd Hst _]. pose proof (ws_state _ _ _ _ Hst _ _ Hj) as [? ? ? E _ _ _].
       rewrite E. unfold col. pose proof (coords_index (vi_cell_num_x vi) (vi_cell_num_t vi)
         (s_ix s) (s_iy s) (s_it s)) as (-> & -> & _); [done..|].
       split; [done|]. split; [done|]. by eapply Hseed. }
  tauto.
Qed.

(** ** frontier3d *)

Section rounds3.
Context (vi0 : ValueIterator) (Hwf0 : wf_vi vi0).
Let nx := vi_cell_num_x vi0.
Let ny := vi_cell_num_y vi0.
Let nt := vi_cell_num_t vi0.

(** Membership of a cell in a space board. *)
Definition mem3 (bb : Bitboard3D) (r : Z * Z * Z) : Prop :=
  0 ≤ r.1.1 < nx ∧ 0 ≤ r.1.2 < ny ∧ 0 ≤ r.2 < nt ∧ has3 bb r.1.1 r.1.2 r.2 = true.

Definition in_space (c : Z * Z * Z) : Prop :=
  0 ≤ c.1.1 < nx ∧ 0 ≤ c.1.2 < ny ∧ 0 ≤ c.2 < nt.

(** The update of the cell [(ix, iy, it)], recorded at its own spot. *)
Lemma spot_step (prev : Z * Z * Z → Prop) (todo todo' : Z → Prop) (moved : Z * Z * Z → Prop) vi c :
  in_space c → round_inv (spot nx nt) vi0 prev todo moved vi →
  (∀ j, todo j → spot nx nt j = c ∨ todo' j) →
  ∃ vi' d, value_iteration_at vi (to_index vi (as_i32 c.1.1) (as_i32 c.1.2) (as_i32 c.2))
             = Ok (vi', d) ∧ 0 ≤ d ∧
    ∀ moved' : Z * Z * Z → Prop, (∀ r, moved r → moved' r) → (0 < d → moved' c) →
      round_inv (spot nx nt) vi0 prev todo' moved' vi'.
Proof.
  intros (Hx & Hy & Ht) Hri Htodo. pose proof Hwf0 as [Hd Hst0 _].
  destruct (dims_board _ _ _ Hd) as (? & ? & ? & _). pose proof Hd as [Hx0 Hy0 Ht0 _].
  destruct (inplace_fields vi0 vi (ri_inplace _ _ _ _ _ _ Hri)) as (Ex & Ey & Et & _ & El).
  destruct c as [[ix iy] it]. cbn [fst snd] in *.
  unfold to_index. rewrite Ex, Et, !as_i32_small by lia.
  rewrite (to_index_raw_small nx ny nt) by done.
  destruct (coords_index nx nt ix iy it) as (Cx & Cy & Ct); [done..|].
  pose proof (index_bounds nx ny nt ix iy it Hx Hy Ht) as Hb.
  destruct (round_step (spot nx nt) vi0 prev _ _ vi (index nx nt ix iy it) Hri)
    as (v1 & d1 & -> & Hd1 & Hnext).
  { rewrite (ws_len _ _ _ _ Hst0). exact Hb. }
  exists v1, d1. split; [done|]. split; [done|]. intros moved' Hm Hrec. apply Hnext.
  - intros j Hj. destruct (Htodo j Hj) as [Hs|?]; [left|by right].
    injection Hs as Hcx Hcy Hct. rewrite (index_of_coords nx nt j) by done. congruence.
  - exact Hm.
  - intros Hne. unfold spot. rewrite Cx, Cy, Ct. apply Hrec. lia.
Qed.

Lemma f3_round_spec (prev : Z * Z * Z → Prop) cells vi updates nf :
  (∀ c, c ∈ cells → in_space c) → space_board vi0 nf → (∀ r, ¬ mem3 nf r) →
  round_inv (spot nx nt) vi0 prev (fun i => spot nx nt i ∈ cells) (fun _ => False) vi →
  ∃ vi' updates' nf', f3_round cells vi updates nf = Ok (vi', updates', nf') ∧
    space_board vi0 nf' ∧
    round_inv (spot nx nt) vi0 prev (fun _ => False) (mem3 nf') vi'.
Proof.
  intros Hcells Hnf Hempty Hinv. unfold f3_round.
  destruct (for_each_inv (fun k (acc : ValueIterator * Z * Bitboard3D) =>
    let '(v, _, nf) := acc in space_board vi0 nf ∧
    round_inv (spot nx nt) vi0 prev (fun i => spot nx nt i ∈ drop k cells) (mem3 nf) v) cells
    (fun c acc =>
      let '(ix, iy, it) := c in
      let '(vi, updates, nf) := acc in
      r ← value_iteration_at vi (to_index vi (as_i32 ix) (as_i32 iy) (as_i32 it));
      if 0 <? r.2 then
        nf' ← bb3_set nf ix iy it;
        Ok (r.1, u64_add updates 1, nf')
      else Ok (r.1, updates, nf)) (vi, updates, nf)) as ([[v u] nf'] & E & Hnf' & Hri).
  - split; [done|]. eapply round_inv_weaken; [exact Hinv|done|done|done].
  - intros k [[ix iy] it] [[v u] nf1] Hk [Hnf1 Hri].
    pose proof (Hcells (ix, iy, it) ltac:(by eapply list_elem_of_lookup_2)) as Hin.
    destruct (spot_step prev _ (fun i => spot nx nt i ∈ drop (S k) cells) (mem3 nf1) v (ix, iy, it)
      Hin Hri) as (v1 & d1 & E1 & Hd1 & Hnext).
    { intros j. rewrite (drop_S cells (ix, iy, it) k) by done. by rewrite elem_of_cons. }
    cbn [fst snd] in E1. rewrite E1, ok_bind. cbn [fst snd]. destruct Hin as (Hx & Hy & Ht).
    cbn in Hx, Hy, Ht. destruct (Z.ltb_spec 0 d1).
    + destruct (space_set vi0 nf1 ix iy it Hnf1 Hx Hy Ht) as (nf2 & -> & Hnf2 & Hset & Hmono).
      rewrite ok_bind. eexists. split; [done|]. split; [done|]. apply Hnext; [|done].
      intros r (? & ? & ? & ?). split; [done|]. split; [done|]. split; [done|]. by apply Hmono.
    + eexists. split; [done|]. split; [done|]. apply Hnext; [done|lia].
  - exists v, u, nf'. split; [exact E|]. split; [done|].
    eapply round_inv_weaken; [exact Hri|done| |done].
    intros i. rewrite drop_all. by intros ?%elem_of_nil.
Qed.

(** Candidates around the moved cells contain every reader of a moved cell. *)
Lemma spot_covered (mx my mt : Z) vi i s j prev todo moved :
  (∀ a, a ∈ vi_actions vi0 → action_covered nt a (mx, my, mt)) →
  round_inv (spot nx nt) vi0 prev todo moved vi →
  zget (vi_states vi) i = Some s →
  j ∈ reads nx ny nt (vi_actions vi0) (vi_states vi) s →
  in_space (spot nx nt i) ∧ in_space (spot nx nt j) ∧
  Z.abs (cx nx nt i - cx nx nt j) ≤ mx ∧ Z.abs (cy nx nt i - cy nx nt j) ≤ my ∧
  ∃ d, Z.abs d ≤ mt ∧ ct nt j = (ct nt i + d) mod nt.
Proof.
  intros Hcov Hri Hi Hj. pose proof Hwf0 as [Hd _ Ha]. pose proof Hd as [Hx0 Hy0 Ht0 _].
  destruct (inplace_fields vi0 vi (ri_inplace _ _ _ _ _ _ Hri)) as (Ex & Ey & Et & Ea & El).
  pose proof (wv_states _ (ri_wf _ _ _ _ _ _ Hri)) as Hst. rewrite Ex, Ey, Et in Hst.
  destruct (reads_near _ _ _ _ (mx, my, mt) Hd Ha Hcov (vi_states vi) i s j Hst Hi Hj)
    as (Hjr & Hdx & Hdy & Hdt).
  assert (0 ≤ i < zlen (vi_states vi)) as Hir by (by eapply zget_Some_lt).
  rewrite (ws_len _ _ _ _ Hst) in Hir.
  destruct (index_coords _ _ _ i Hx0 Ht0 Hir) as (_ & ? & ? & ?).
  destruct (index_coords _ _ _ j Hx0 Ht0 Hjr) as (_ & ? & ? & ?).
  split; [by split|]. split; [by split|]. done.
Qed.
End rounds3.

Section solve3.
Context {S : Type} (obs : SolveObserver S) (max_iter : Z) (vi0 : ValueIterator).
Context (Hwf0 : wf_vi vi0) (Hmax : 0 ≤ max_iter < 2 ^ 32).
Context (mx my mt : Z) (Hmx : 1 ≤ mx < 64) (Hmy : 1 ≤ my < 2 ^ 31).
Context (Hmt : 0 ≤ mt ≤ vi_cell_num_t vi0).
Context (Hcov : ∀ a, a ∈ vi_actions vi0 → action_covered (vi_cell_num_t vi0) a (mx, my, mt)).

Lemma f3_loop_spec fuel vi bb updates iters p o (prev : Z * Z * Z → Prop) (todo : Z → Prop) :
  0 ≤ iters ≤ max_iter → max_iter < Z.of_nat fuel + iters →
  space_board vi0 bb → (∀ i, ¬ todo i) →
  round_inv (spot (vi_cell_num_x vi0) (vi_cell_num_t vi0)) vi0 prev todo (mem3 vi0 bb) vi →
  ∃ vi' o' out, f3_loop obs max_iter mx my mt fuel vi bb updates iters p o = Ok (vi', o', out) ∧
    solve_ok vi0 max_iter vi' out.
Proof.
  revert vi bb updates iters p o prev todo.
  induction fuel as [|fuel IH]; intros vi bb updates iters p o prev todo Hit Hf Hbb Hnone Hri; [lia|].
  pose proof Hwf0 as [Hd _ Ha]. pose proof Hd as [Hx0 Hy0 Ht0 _].
  destruct (dims_board _ _ _ Hd) as (_ & _ & Hnt31 & _).
  pose proof Hbb as (Hwfb & Ebx & Eby & Ebt).
  cbn [f3_loop]. destruct (Z.ltb_spec 0 (bb3_popcount bb)) as [Hpop|Hpop]; cbn [andb].
  2: { do 3 eexists. split; [done|]. split; [apply Hri|]. split; [apply Hri|]. split; [cbn; lia|].
    intros _. eapply round_inv_fixed_point; [|exact Hnone].
    eapply round_inv_weaken; [exact Hri|done|done|]. intros r (Hr1 & Hr2 & Hr3 & Hr).
    assert (0 < bb3_popcount bb); [|lia]. apply popcount3_pos; [done|lia|lia|].
    exists r.1.1, r.1.2, r.2. split; [split; [lia|split; lia]|done]. }
  destruct (Z.ltb_spec iters max_iter) as [Hlt|Hge].
  2: { do 3 eexists. split; [done|]. split; [apply Hri|]. split; [apply Hri|].
       split; [cbn; lia|]. cbn. intros Hc. apply Z.eqb_eq in Hc. lia. }
  rewrite u32_add_small by (unfold in_u32; lia).
  destruct (dilate3d_eq bb mx my mt Hwfb ltac:(lia) ltac:(lia) ltac:(lia) ltac:(lia))
    as (cand & -> & Hwfc & (Dx & Dy & Dt) & Hcand). rewrite ok_bind.
  destruct (enumerate3_eq cand Hwfc) as (cells & -> & _ & Hcells); [lia|lia|]. rewrite ok_bind.
  destruct (inplace_fields vi0 vi (ri_inplace _ _ _ _ _ _ Hri)) as (Ex & Ey & Et & Ea & El).
  rewrite Ex, Ey, Et. destruct (space_board_new vi0 Hwf0) as [Hnew Hempty].
  destruct (f3_round_spec vi0 Hwf0 (mem3 vi0 bb) cells vi updates
    (bb3_new (as_u32 (vi_cell_num_x vi0)) (as_u32 (vi_cell_num_y vi0)) (as_u32 (vi_cell_num_t vi0))))
    as (vi1 & u1 & nf & -> & Hnf & Hri1).
  - intros [[x y] t] [(? & ? & ?) _]%Hcells. unfold in_space. cbn. lia.
  - done.
  - intros r (_ & _ & _ & Hr). by rewrite Hempty in Hr.
  - eapply round_begin; [exact Hri|exact Hnone|]. intros i s j Hi _ Hj (Hm1 & Hm2 & Hm3 & Hm).
    destruct (spot_covered vi0 Hwf0 mx my mt vi i s j _ _ _ Hcov Hri Hi Hj)
      as ((Hi1 & Hi2 & Hi3) & _ & Hdx & Hdy & d & Hdd & Ed).
    cbn [fst snd spot] in *. apply Hcells.
    assert (in3 bb (cx (vi_cell_num_x vi0) (vi_cell_num_t vi0) i)
      (cy (vi_cell_num_x vi0) (vi_cell_num_t vi0) i) (ct (vi_cell_num_t vi0) i)) as Hin
      by (split; [lia|split; lia]).
    split; [split; [lia|split; lia]|]. apply (Hcand _ _ _ Hin).
    exists (cx (vi_cell_num_x vi0) (vi_cell_num_t vi0) j),
      (cy (vi_cell_num_x vi0) (vi_cell_num_t vi0) j), d.
    rewrite Ebt, <- Ed. split; [split; [lia|split; lia]|]. done.
  - rewrite ok_bind. destruct (0 <? bb3_popcount nf).
    + pose proof (at_boundary_out obs vi1 (iters + 1) u1 p o) as Hb.
      destruct (at_boundary obs vi1 (iters + 1) u1 p o) as [[p' o'] [out|]].
      * destruct (Hb out eq_refl) as [Hnc Hi]. do 3 eexists. split; [done|].
        split; [apply Hri1|]. split; [apply Hri1|]. split; [lia|]. by rewrite Hnc.
      * eapply (IH vi1 nf u1 (iters + 1) p' o'); [lia|lia|done| |exact Hri1]. tauto.
    + eapply (IH vi1 nf u1 (iters + 1) p o); [lia|lia|done| |exact Hri1]. tauto.
Qed.
End solve3.

Lemma frontier3d_solve_spec {S} (obs : SolveObserver S) max_iter vi o mx my mt :
  wf_vi vi → 0 ≤ max_iter < 2 ^ 32 → displacement vi = Ok (mx, my, mt) → mx < 64 →
  ∃ vi' o' out, frontier3d_solve_observed obs max_iter vi o = Ok (vi', o', out) ∧
    solve_ok vi max_iter vi' out.
Proof.
  intros Hwf Hmax Hdisp Hmx.
  destruct (displacement_spec vi Hwf) as (mx' & my' & mt' & E & H1 & H2 & H3 & Hcov).
  rewrite Hdisp in E. injection E as <- <- <-. pose proof Hwf as [Hd Hst _].
  destruct (dims_board _ _ _ Hd) as (_ & _ & Hnt31 & _).
  unfold frontier3d_solve_observed. rewrite Hdisp, ok_bind.
  destruct (seed_frontier_spec vi Hwf) as (bb & -> & Hbb & Hseed). rewrite ok_bind.
  rewrite !as_u32_small by lia.
  eapply (f3_loop_spec obs max_iter vi Hwf Hmax mx my mt); try done; try lia.
  2: { apply round_inv_start; [done|]. intros j s Hj Hlt.
       pose proof (ws_state _ _ _ _ Hst _ _ Hj) as [? ? ? E _ _ _].
       rewrite E. unfold spot. pose proof (coords_index (vi_cell_num_x vi) (vi_cell_num_t vi)
         (s_ix s) (s_iy s) (s_it s)) as (-> & -> & ->); [done..|].
       split; [done|]. split; [done|]. split; [done|]. by eapply Hseed. }
  tauto.
Qed.

(** ** Properties *)

(** [displacement] covers every transition: it does not panic on a
    well-formed planner, is at least 1 in the plane, and from every heading no
    transition of any action moves farther than it (cyclically in the
    heading). *)
Theorem displacement_covers vi :
  wf_vi vi →
  ∃ mx my mt, displacement vi = Ok (mx, my, mt) ∧ 1 ≤ mx ∧ 1 ≤ my ∧ 0 ≤ mt ∧
    ∀ a t trs st, a ∈ vi_actions vi → zget (a_state_transitions a) t = Some trs → st ∈ trs →
      Z.abs (dix st) ≤ mx ∧ Z.abs (diy st) ≤ my ∧
      ∃ d, Z.abs d ≤ mt ∧ dit st mod vi_cell_num_t vi = (t + d) mod vi_cell_num_t vi.
Proof.
  intros Hwf. destruct (displacement_spec vi Hwf) as (mx & my & mt & E & ? & ? & ? & Hcov).
  exists mx, my, mt. split; [done|]. split; [lia|]. split; [lia|]. split; [lia|].
  intros a t trs st Ha Ht Hst. exact (Hcov a Ha t trs st Ht Hst).
Qed.

Lemma displacement_covers_witness : displacement (corridor 3) = Ok (1, 1, 0).
Proof.
  destruct (displacement_covers (corridor 3)) as (mx & my & mt & E & _).
  - apply check_vi_ok. reflexivity.
  - rewrite E. vm_compute in E. injection E as <- <- <-. reflexivity.
Defined.

(** C23: [frontier2d] is sound and terminates.  On a well-formed planner whose
    actions move fewer than 64 columns it returns after at most [max_iter]
    rounds, without a panic and whatever the observer does, a well-formed
    planner that differs in values and policies only; when it reports
    convergence every updatable cell stores exactly the value and action a new
    update would store, except cells never evaluated all of whose successors
    are still unreached. *)
Theorem frontier2d_fixed_point {S} (obs : SolveObserver S) max_iter vi o mx my mt :
  wf_vi vi → 0 ≤ max_iter < 2 ^ 32 → displacement vi = Ok (mx, my, mt) → mx < 64 →
  ∃ vi' o' out, frontier2d_solve_observed obs max_iter vi o = Ok (vi', o', out) ∧
    solve_ok vi max_iter vi' out.
Proof. apply frontier2d_solve_spec. Qed.

Lemma frontier2d_fixed_point_witness :
  ∃ vi' o' out, frontier2d_solve_observed NullObserver 10 (corridor 3) () = Ok (vi', o', out)
    ∧ so_converged out = true ∧ s_total_cost <$> vi_states vi' = [0; PROB_BASE; 2 * PROB_BASE].
Proof.
  destruct (frontier2d_fixed_point NullObserver 10 (corridor 3) () 1 1 0) as (vi' & o' & out & E & _).
  - apply check_vi_ok. reflexivity.
  - lia.
  - reflexivity.
  - lia.
  - exists vi', o', out. split; [exact E|].
    assert (frontier2d_solve_observed NullObserver 10 (corridor 3) () = Ok (vi', o', out))
      as E' by exact E.
    vm_compute in E'. injection E' as <- <- <-. split; reflexivity.
Defined.

(** [frontier3d] is sound and terminates, with the same guarantee. *)
Theorem frontier3d_fixed_point {S} (obs : SolveObserver S) max_iter vi o mx my mt :
  wf_vi vi → 0 ≤ max_iter < 2 ^ 32 → displacement vi = Ok (mx, my, mt) → mx < 64 →
  ∃ vi' o' out, frontier3d_solve_observed obs max_iter vi o = Ok (vi', o', out) ∧
    solve_ok vi max_iter vi' out.
Proof. apply frontier3d_solve_spec. Qed.

Lemma frontier3d_fixed_point_witness :
  ∃ vi' o' out, frontier3d_solve_observed NullObserver 10 (corridor 3) () = Ok (vi', o', out)
    ∧ so_converged out = true ∧ s_total_cost <$> vi_states vi' = [0; PROB_BASE; 2 * PROB_BASE].
Proof.
  destruct (frontier3d_fixed_point NullObserver 10 (corridor 3) () 1 1 0) as (vi' & o' & out & E & _).
  - apply check_vi_ok. reflexivity.
  - lia.
  - reflexivity.
  - lia.
  - exists vi', o', out. split; [exact E|].
    assert (frontier3d_solve_observed NullObserver 10 (corridor 3) () = Ok (vi', o', out))
      as E' by exact E.
    vm_compute in E'. injection E' as <- <- <-. split; reflexivity.
Defined.
