(* ===== verification/Stack.v ===== *)
(** * The layered frontier solver (vi_lib/src/solvers/stack.rs)

    One plane board per heading; a round dilates every layer and OR-s the
    layers within [mt] headings. *)

From Stdlib Require Import ZArith Lia.
From stdpp Require Import base gmap strings list numbers.
From S2P Require Import Prelude Floats Model Bellman Observe Consistency.
From S2P Require Import Bitboard BitboardOps BitboardEnum Active Frontier.

(** [(0..nt).map(|_| Bitboard2D::new(nx, ny)).collect()] *)
Definition stack_new (vi : ValueIterator) : list Bitboard2D :=
  (fun _ => bb2_new (as_u32 (vi_cell_num_x vi)) (as_u32 (vi_cell_num_y vi)))
  <$> seqZ 0 (vi_cell_num_t vi).

Definition stack_set (l : list Bitboard2D) (ix iy it : Z) : res (list Bitboard2D) :=
  bb ← vget l it; bb' ← bb2_set bb ix iy; vset l it bb'.

Definition stack_seed (vi : ValueIterator) : res (list Bitboard2D) :=
  for_each (vi_states vi) (fun s l =>
    if s_total_cost s <? MAX_COST
    then stack_set l (as_u32 (s_ix s)) (as_u32 (s_iy s)) (s_it s) else Ok l) (stack_new vi).

Definition stack_popcount (layers : list Bitboard2D) : Z :=
  foldr (fun b n => bb2_popcount b + n) 0 layers.

(** Layer [it] of the candidates. *)
Definition stack_candidate (dilated : list Bitboard2D) (nt mt it : Z) : res Bitboard2D :=
  cand ← vget dilated it;
  for_incl 1 mt (fun st cand =>
    m ← vget dilated (as_u64 (it + nt - st) mod nt);
    p ← vget dilated ((it + st) mod nt);
    Ok (or_inplace (or_inplace cand m) p)) cand.

(** The update pass over one layer. *)
Definition stack_layer (it : Z) (cells : list (Z * Z)) (vi : ValueIterator) (updates : Z)
    (nf : list Bitboard2D) : res (ValueIterator * Z * list Bitboard2D) :=
  for_each cells (fun c acc =>
    let '(vi, updates, nf) := acc in
    r ← value_iteration_at vi (to_index vi (as_i32 c.1) (as_i32 c.2) (as_i32 it));
    if 0 <? r.2 then
      nf' ← stack_set nf c.1 c.2 it;
      Ok (r.1, u64_add updates 1, nf')
    else Ok (r.1, updates, nf)) (vi, updates, nf).

Definition stack_round (candidates : list Bitboard2D) (vi : ValueIterator) (updates : Z)
    : res (ValueIterator * Z * list Bitboard2D) :=
  for_range 0 (vi_cell_num_t vi) (fun it acc =>
    let '(vi, updates, nf) := acc in
    cand ← vget candidates it;
    cells ← enumerate2 cand;
    stack_layer it cells vi updates nf) (vi, updates, stack_new vi).

Section stack.
Context {S : Type} (obs : SolveObserver S) (max_iter dx dy mt : Z).

Fixpoint stack_loop (fuel : nat) (vi : ValueIterator) (frontier : list Bitboard2D)
    (updates iters : Z) (pacer : BoundaryPacer) (o : S) : res (ValueIterator * S * SolveOutcome) :=
  match fuel with
  | O => OutOfFuel
  | Datatypes.S fuel =>
      if (0 <? stack_popcount frontier) && (iters <? max_iter) then
        let iters := u32_add iters 1 in
        let nt := vi_cell_num_t vi in
        dilated ← map_res (fun b => dilate2d b dx dy) frontier;
        candidates ← map_res (stack_candidate dilated nt mt) (seqZ 0 nt);
        r ← stack_round candidates vi updates;
        let '(vi, updates, frontier) := r in
        if 0 <? stack_popcount frontier then
          match at_boundary obs vi iters updates pacer o with
          | (_, o, Some out) => Ok (vi, o, out)
          | (pacer, o, None) => stack_loop fuel vi frontier updates iters pacer o
          end
        else stack_loop fuel vi frontier updates iters pacer o
      else Ok (vi, o, running iters updates (stack_popcount frontier =? 0))
  end.
End stack.

Definition frontier_stack_solve_observed {S} (obs : SolveObserver S) (max_iter : Z)
    (vi : ValueIterator) (o : S) : res (ValueIterator * S * SolveOutcome) :=
  let pacer := pacer_new obs o in
  d ← displacement vi;
  let '(mx, my, mt) := d in
  frontier ← stack_seed vi;
  stack_loop obs max_iter (as_u32 mx) (as_u32 my) mt (Datatypes.S (Z.to_nat max_iter)) vi
    frontier 0 0 pacer o.

(** ** OR of boards *)

Lemma wd_zip_mut f a b i :
  length a = length b → f 0 0 = 0 → wd (zip_mut f a b) i = f (wd a i) (wd b i).
Proof.
  intros Hl Hf. assert (∀ n, (zip_mut f a b) !! n =
    match a !! n, b !! n with Some x, Some y => Some (f x y) | _, _ => None end) as H.
  { revert b Hl. induction a as [|x a IH]; intros [|y b] Hl n; try done.
    destruct n as [|n]; [done|]. cbn. apply IH. by injection Hl. }
  unfold wd, zget. case_decide; cbn; [|done]. rewrite H.
  destruct (a !! Z.to_nat i) eqn:Ea, (b !! Z.to_nat i) eqn:Eb; cbn; try done.
  - apply lookup_lt_Some in Ea. apply lookup_ge_None in Eb. lia.
  - apply lookup_lt_Some in Eb. apply lookup_ge_None in Ea. lia.
Qed.

Lemma length_zip_mut f a b : length (zip_mut f a b) = length a.
Proof. revert b. induction a as [|x a IH]; intros [|y b]; cbn; [done|done|done|by rewrite IH]. Qed.

Lemma or_inplace_spec vi a b :
  plane_board vi a → plane_board vi b →
  plane_board vi (or_inplace a b) ∧
  ∀ x y, 0 ≤ x → has2 (or_inplace a b) x y = has2 a x y || has2 b x y.
Proof.
  intros (Ha & Eax & Eay) (Hb & Ebx & Eby).
  pose proof Ha as [Hx Hy Hw Hs [Hl Hok] Hm]. pose proof Hb as [_ _ Hwb _ [Hlb Hokb] Hmb].
  assert (b2_wpr a = b2_wpr b) as Ewpr by (rewrite Hw, Hwb; congruence).
  assert (length (b2_data a) = length (b2_data b)) as Elen.
  { unfold zlen in *. rewrite Eax, Eay in *. rewrite <- Ewpr, Eby in Hlb. lia. }
  assert (∀ y x, 0 ≤ x → cell (b2_wpr a) (or_slice (b2_data a) (b2_data b)) y x
    = cell (b2_wpr a) (b2_data a) y x || cell (b2_wpr a) (b2_data b) y x) as Hcell.
  { intros y x Hx0. rewrite !cell_word by done. unfold or_slice.
    rewrite wd_zip_mut by done. by rewrite Z.lor_spec. }
  split.
  - split; [|done]. split; cbn; try done.
    + split; [unfold zlen in *; unfold or_slice; by rewrite length_zip_mut|].
      intros i. unfold or_slice. rewrite wd_zip_mut by done. by apply in_u64_lor.
    + intros y p Hyy Hp. rewrite Hcell by lia. rewrite Hm by done. cbn.
      rewrite Ewpr. apply Hmb; [lia|]. rewrite <- Ewpr. lia.
  - intros x y Hx0. unfold has2. cbn. rewrite Hcell by done. by rewrite Ewpr.
Qed.

(** ** Stacks of boards *)

Definition stack_board (vi : ValueIterator) (l : list Bitboard2D) : Prop :=
  zlen l = vi_cell_num_t vi ∧ ∀ t bb, zget l t = Some bb → plane_board vi bb.

Definition has_s (l : list Bitboard2D) (x y t : Z) : Prop :=
  ∃ bb, zget l t = Some bb ∧ has2 bb x y = true.

Definition mem_s (vi : ValueIterator) (l : list Bitboard2D) (r : Z * Z * Z) : Prop :=
  in_space vi r ∧ has_s l r.1.1 r.1.2 r.2.

Lemma stack_new_spec vi :
  wf_vi vi → stack_board vi (stack_new vi) ∧ ∀ r, ¬ mem_s vi (stack_new vi) r.
Proof.
  intros Hwf. destruct (plane_board_new vi Hwf) as [Hnew Hempty].
  pose proof Hwf as [[_ _ Ht _] _ _].
  assert (∀ t bb, zget (stack_new vi) t = Some bb →
    bb = bb2_new (as_u32 (vi_cell_num_x vi)) (as_u32 (vi_cell_num_y vi))) as Hget.
  { intros t bb. unfold stack_new. rewrite zget_fmap.
    destruct (zget (seqZ 0 (vi_cell_num_t vi)) t); [by intros [= <-]|done]. }
  split.
  - split.
    + unfold stack_new. rewrite zlen_fmap. unfold zlen. rewrite length_seqZ. lia.
    + intros t bb Hb. by rewrite (Hget t bb Hb).
  - intros r [_ (bb & Hb & Hh)]. rewrite (Hget _ _ Hb), Hempty in Hh. done.
Qed.

Lemma stack_set_spec vi l x y t :
  stack_board vi l → in_space vi (x, y, t) →
  ∃ l', stack_set l x y t = Ok l' ∧ stack_board vi l' ∧ has_s l' x y t ∧
    ∀ r, mem_s vi l r → mem_s vi l' r.
Proof.
  intros [Hlen Hall] (Hx & Hy & Ht). cbn in Hx, Hy, Ht. unfold stack_set.
  destruct (zget_lt l t ltac:(lia)) as [bb Hb]. unfold vget. rewrite Hb. cbn [of_option].
  rewrite ok_bind. destruct (plane_set vi bb x y (Hall _ _ Hb) Hx Hy) as (bb' & -> & Hb' & Hs & Hm).
  rewrite ok_bind, vset_ok by lia. eexists. split; [done|]. split; [|split].
  - split; [by rewrite zlen_zset|]. intros t' b. rewrite zget_zset by lia.
    case_decide; [by intros [= <-]|apply Hall].
  - exists bb'. rewrite zget_zset_eq by lia. done.
  - intros [[x' y'] t'] [Hin (b & Hbt & Hh)]. split; [done|]. cbn in Hbt, Hh |- *.
    unfold has_s. rewrite zget_zset by lia. case_decide as E; [|by exists b].
    subst t'. exists bb'. split; [done|]. rewrite Hb in Hbt. injection Hbt as <-.
    destruct Hin as (? & ? & ?). by apply Hm.
Qed.

Lemma stack_seed_spec vi :
  wf_vi vi →
  ∃ l, stack_seed vi = Ok l ∧ stack_board vi l ∧
    ∀ i s, zget (vi_states vi) i = Some s → s_total_cost s < MAX_COST →
      mem_s vi l (s_ix s, s_iy s, s_it s).
Proof.
  intros Hwf. pose proof Hwf as [Hd Hst _]. destruct (stack_new_spec vi Hwf) as [Hnew _].
  destruct (dims_board _ _ _ Hd) as (? & ? & ? & _).
  destruct (seed_fold (stack_board vi) (fun s l => mem_s vi l (s_ix s, s_iy s, s_it s))
    (fun s l => stack_set l (as_u32 (s_ix s)) (as_u32 (s_iy s)) (s_it s)) (vi_states vi)
    (stack_new vi)) as (l & E & Hb & Hc).
  - done.
  - intros s l [i Hi]%elem_of_zget Hb.
    pose proof (ws_state _ _ _ _ Hst _ _ Hi) as [Hx Hy Ht _ _ _ _].
    rewrite !as_u32_small by lia.
    destruct (stack_set_spec vi l (s_ix s) (s_iy s) (s_it s) Hb) as (l' & -> & Hb' & Hs & Hmono);
      [by split|].
    exists l'. split; [done|]. split; [done|]. split; [by split; [split|]|].
    intros r _. apply Hmono.
  - exists l. split; [exact E|]. split; [done|]. intros i s Hi Hlt.
    apply Hc; [apply elem_of_zget; by exists i|by left].
Qed.

Lemma stack_popcount_pos vi l :
  wf_vi vi → stack_board vi l → (0 < stack_popcount l ↔ ∃ r, mem_s vi l r).
Proof.
  intros Hwf [Hlen Hall]. pose proof Hwf as [[Hx Hy Ht _] _ _].
  assert (∀ l', (∀ b, b ∈ l' → plane_board vi b) →
    0 ≤ stack_popcount l' ∧ (0 < stack_popcount l' ↔ ∃ b, b ∈ l' ∧ 0 < bb2_popcount b)) as H.
  { induction l' as [|b l' IH]; intros Hl'.
    { split; [done|]. cbn. split; [lia|]. by intros (b & ?%elem_of_nil & _). }
    destruct IH as [Hnn Hiff]; [intros; apply Hl'; by right|]. cbn.
    fold (stack_popcount l'). destruct (Hl' b ltac:(left)) as (Hwb & Ebx & _).
    assert (0 ≤ bb2_popcount b) by (rewrite popcount_cells by (done || lia); apply zlen_nonneg).
    split; [lia|]. split.
    - intros Hp. destruct (Z.lt_ge_cases 0 (bb2_popcount b)); [exists b; split; [left|done]|].
      destruct (proj1 Hiff) as (c & ? & ?); [lia|]. exists c. split; [by right|done].
    - intros (c & [->|Hc]%elem_of_cons & Hp); [lia|].
      assert (0 < stack_popcount l') by (apply Hiff; by exists c). lia. }
  destruct (H l) as [_ ->].
  { intros b [t Hb]%elem_of_zget. by eapply Hall. }
  split.
  - intros (b & [t Hb]%elem_of_zget & Hp). destruct (Hall _ _ Hb) as (Hwb & Ebx & Eby).
    apply popcount2_pos in Hp as (x & y & [? ?] & Hh); [|done|lia].
    exists (x, y, t). apply zget_Some_lt in Hb as Htr. split; [|by exists b].
    split; cbn; [lia|]. split; lia.
  - intros ([[x y] t] & (Hx' & Hy' & Ht') & b & Hb & Hh). exists b.
    split; [apply elem_of_zget; by exists t|]. destruct (Hall _ _ Hb) as (Hwb & Ebx & Eby).
    cbn in *. apply popcount2_pos; [done|lia|]. exists x, y. split; [split; lia|done].
Qed.

(** ** One round *)

Lemma zget_seqZ n t : zget (seqZ 0 n) t = if decide (0 ≤ t < n) then Some t else None.
Proof.
  unfold zget. repeat case_decide; try lia; try done.
  - apply lookup_seqZ. lia.
  - apply lookup_ge_None_2. rewrite length_seqZ. lia.
Qed.

Section round.
Context (vi0 : ValueIterator) (Hwf0 : wf_vi vi0).
Let nx := vi_cell_num_x vi0.
Let ny := vi_cell_num_y vi0.
Let nt := vi_cell_num_t vi0.
Context (mx my mt : Z) (Hmx : 1 ≤ mx < 64) (Hmy : 1 ≤ my) (Hmt : 0 ≤ mt ≤ vi_cell_num_t vi0).

Lemma stack_dilate l :
  stack_board vi0 l →
  ∃ d, map_res (fun b => dilate2d b mx my) l = Ok d ∧ stack_board vi0 d ∧
    ∀ x y t x' y', mem_s vi0 l (x, y, t) → 0 ≤ x' < nx → 0 ≤ y' < ny →
      Z.abs (x' - x) ≤ mx → Z.abs (y' - y) ≤ my → mem_s vi0 d (x', y', t).
Proof.
  intros [Hlen Hall].
  destruct (map_res_spec (fun b => dilate2d b mx my) (fun b b' => plane_board vi0 b' ∧
    ∀ x y, in2 b x y → (has2 b' x y = true ↔ ∃ x' y', in2 b x' y' ∧ Z.abs (x - x') ≤ mx ∧
      Z.abs (y - y') ≤ my ∧ has2 b x' y' = true)) l) as (d & E & Hl & Hd).
  - intros b [t Hb]%elem_of_zget. destruct (Hall _ _ Hb) as (Hwb & Ebx & Eby).
    destruct (dilate2d_eq b mx my Hwb ltac:(lia) ltac:(lia)) as (b' & E & Hwb' & [Dx Dy] & Hh).
    exists b'. split; [done|]. split; [split; [done|split; congruence]|done].
  - exists d. split; [done|]. split.
    + split; [lia|]. intros t b Hb. pose proof (zget_Some_lt _ _ _ Hb).
      destruct (zget_lt l t ltac:(lia)) as [c Hc]. destruct (Hd _ _ Hc) as (b' & Hb' & Hp & _).
      rewrite Hb in Hb'. by injection Hb' as <-.
    + intros x y t x' y' [(Hx & Hy & Ht) (b & Hb & Hh)] Hx' Hy' Hdx Hdy. cbn in *.
      split; [by split|]. destruct (Hd _ _ Hb) as (b' & Hb' & _ & Hbox). exists b'.
      split; [done|]. destruct (Hall _ _ Hb) as (_ & Ebx & Eby). cbn.
      unfold in2 in Hbox. rewrite Ebx, Eby in Hbox.
      apply Hbox; [by split|]. exists x, y. split; [by split|]. done.
Qed.

Lemma stack_candidate_spec d it :
  stack_board vi0 d → 0 ≤ it < nt →
  ∃ c, stack_candidate d nt mt it = Ok c ∧ plane_board vi0 c ∧
    ∀ x y e, Z.abs e ≤ mt → mem_s vi0 d (x, y, (it + e) mod nt) → has2 c x y = true.
Proof.
  intros [Hlen Hall] Hit. pose proof Hwf0 as [Hd0 _ _]. pose proof Hd0 as [_ _ Ht0 _].
  destruct (dims_board _ _ _ Hd0) as (_ & _ & Hnt31 & _). fold nt in Ht0, Hnt31.
  unfold stack_candidate. destruct (zget_lt d it) as [c0 Hc0]; [fold nt in Hlen; lia|].
  rewrite (proj2 (vget_ok _ _ _) Hc0), ok_bind. unfold for_incl.
  destruct (for_range_inv (fun st c => plane_board vi0 c ∧
    ∀ x y e, Z.abs e < st → mem_s vi0 d (x, y, (it + e) mod nt) → has2 c x y = true) 1 (mt + 1)
    (fun st cand =>
      m ← vget d (as_u64 (it + nt - st) mod nt);
      p ← vget d ((it + st) mod nt);
      Ok (or_inplace (or_inplace cand m) p)) c0) as (c & E & Hc & Hm).
  - lia.
  - split; [by eapply Hall|]. intros x y e He [_ (b & Hb & Hh)]. cbn in *.
    assert (e = 0) as -> by lia. rewrite Z.add_0_r, Z.mod_small in Hb by lia.
    rewrite Hc0 in Hb. by injection Hb as <-.
  - intros st c Hst [Hc Hm].
    rewrite as_u64_small by (unfold in_u64; lia).
    replace (it + nt - st) with (it - st + 1 * nt) by lia. rewrite Z_mod_plus_full.
    pose proof (Z.mod_pos_bound (it - st) nt ltac:(lia)) as Hm1.
    pose proof (Z.mod_pos_bound (it + st) nt ltac:(lia)) as Hm2.
    destruct (zget_lt d ((it - st) mod nt)) as [b1 Hb1]; [fold nt in Hlen; lia|].
    destruct (zget_lt d ((it + st) mod nt)) as [b2 Hb2]; [fold nt in Hlen; lia|].
    rewrite (proj2 (vget_ok _ _ _) Hb1), ok_bind, (proj2 (vget_ok _ _ _) Hb2), ok_bind.
    destruct (or_inplace_spec vi0 c b1 Hc (Hall _ _ Hb1)) as [Hc1 Hh1].
    destruct (or_inplace_spec vi0 (or_inplace c b1) b2 Hc1 (Hall _ _ Hb2)) as [Hc2 Hh2].
    eexists. split; [done|]. split; [done|]. intros x y e He Hmem.
    pose proof Hmem as [(Hx & _ & _) (b & Hb & Hh)]. cbn in Hx, Hb, Hh.
    rewrite Hh2, Hh1 by lia. apply orb_true_iff.
    destruct (decide (e = st)) as [->|].
    { right. rewrite Hb2 in Hb. by injection Hb as <-. }
    left. apply orb_true_iff. destruct (decide (e = - st)) as [->|].
    { right. replace (it + - st) with (it - st) in Hb by lia. rewrite Hb1 in Hb. by injection Hb as <-. }
    left. apply (Hm x y e); [lia|done].
  - exists c. split; [exact E|]. split; [done|]. intros x y e He. apply Hm. lia.
Qed.

Lemma stack_candidates_spec d :
  stack_board vi0 d →
  ∃ c, map_res (stack_candidate d nt mt) (seqZ 0 nt) = Ok c ∧ stack_board vi0 c ∧
    ∀ x y t e, 0 ≤ t < nt → Z.abs e ≤ mt → mem_s vi0 d (x, y, (t + e) mod nt) →
      mem_s vi0 c (x, y, t).
Proof.
  intros Hd. pose proof Hwf0 as [[_ _ Ht0 _] _ _]. fold nt in Ht0.
  destruct (map_res_spec (stack_candidate d nt mt) (fun it c => plane_board vi0 c ∧
    ∀ x y e, Z.abs e ≤ mt → mem_s vi0 d (x, y, (it + e) mod nt) → has2 c x y = true)
    (seqZ 0 nt)) as (c & E & Hl & Hc).
  - intros it Hit%elem_of_seqZ.
    destruct (stack_candidate_spec d it Hd ltac:(lia)) as (c & ? & ? & ?). by exists c.
  - exists c. split; [done|]. unfold zlen in Hl at 2. rewrite length_seqZ in Hl.
    assert (∀ t, 0 ≤ t < nt → ∃ b, zget c t = Some b ∧ plane_board vi0 b ∧
      ∀ x y e, Z.abs e ≤ mt → mem_s vi0 d (x, y, (t + e) mod nt) → has2 b x y = true) as Hget.
    { intros t Ht. apply (Hc t t). rewrite zget_seqZ. by rewrite decide_True. }
    split.
    + split; [fold nt; lia|]. intros t b Hb. pose proof (zget_Some_lt _ _ _ Hb).
      destruct (Hget t ltac:(lia)) as (b' & Hb' & Hp & _). rewrite Hb in Hb'. by injection Hb' as <-.
    + intros x y t e Ht He Hmem. destruct (Hget t Ht) as (b & Hb & _ & Hh).
      pose proof Hmem as [(? & ? & ?) _]. split; [by split|]. exists b. split; [done|].
      by eapply Hh.
Qed.

(** The pass over one layer visits its candidates. *)
Lemma stack_layer_spec (prev : Z * Z * Z → Prop) (todo : Z → Prop) it cells vi updates nf :
  0 ≤ it < nt → (∀ c, c ∈ cells → 0 ≤ c.1 < nx ∧ 0 ≤ c.2 < ny) → stack_board vi0 nf →
  round_inv (spot nx nt) vi0 prev
    (fun i => (∃ c, c ∈ cells ∧ spot nx nt i = (c.1, c.2, it)) ∨ todo i) (mem_s vi0 nf) vi →
  ∃ vi' u nf', stack_layer it cells vi updates nf = Ok (vi', u, nf') ∧ stack_board vi0 nf' ∧
    round_inv (spot nx nt) vi0 prev todo (mem_s vi0 nf') vi'.
Proof.
  intros Hit Hcells Hnf Hinv. unfold stack_layer.
  destruct (for_each_inv (fun k (acc : ValueIterator * Z * list Bitboard2D) =>
    let '(v, _, nf) := acc in stack_board vi0 nf ∧
    round_inv (spot nx nt) vi0 prev
      (fun i => (∃ c, c ∈ drop k cells ∧ spot nx nt i = (c.1, c.2, it)) ∨ todo i)
      (mem_s vi0 nf) v) cells
    (fun c acc =>
      let '(vi, updates, nf) := acc in
      r ← value_iteration_at vi (to_index vi (as_i32 c.1) (as_i32 c.2) (as_i32 it));
      if 0 <? r.2 then
        nf' ← stack_set nf c.1 c.2 it;
        Ok (r.1, u64_add updates 1, nf')
      else Ok (r.1, updates, nf)) (vi, updates, nf)) as ([[v u] nf'] & E & Hnf' & Hri).
  - split; [done|]. exact Hinv.
  - intros k [ix iy] [[v u] nf1] Hk [Hnf1 Hri].
    destruct (Hcells (ix, iy)) as [Hx Hy]; [by eapply list_elem_of_lookup_2|]. cbn in Hx, Hy.
    assert (in_space vi0 (ix, iy, it)) as Hin by by split.
    destruct (spot_step vi0 Hwf0 prev _
      (fun i => (∃ c, c ∈ drop (S k) cells ∧ spot nx nt i = (c.1, c.2, it)) ∨ todo i)
      (mem_s vi0 nf1) v (ix, iy, it) Hin Hri) as (v1 & d1 & E1 & Hd1 & Hnext).
    { intros j [(c & Hc & Hs)|?]; [|by right; right].
      rewrite (drop_S cells (ix, iy) k) in Hc by done.
      apply elem_of_cons in Hc as [->|Hc]; [by left|]. right. left. by exists c. }
    cbn [fst snd] in E1 |- *. rewrite E1, ok_bind. cbn [fst snd].
    destruct (Z.ltb_spec 0 d1).
    + destruct (stack_set_spec vi0 nf1 ix iy it Hnf1 Hin) as (nf2 & -> & Hnf2 & Hset & Hmono).
      rewrite ok_bind. eexists. split; [done|]. split; [done|]. apply Hnext; [done|].
      intros _. by split.
    + eexists. split; [done|]. split; [done|]. apply Hnext; [done|lia].
  - exists v, u, nf'. split; [exact E|]. split; [done|].
    eapply round_inv_weaken; [exact Hri|done| |done].
    intros i [(c & Hc & _)|?]; [|done]. rewrite drop_all in Hc. by apply elem_of_nil in Hc.
Qed.

Lemma stack_round_spec (prev : Z * Z * Z → Prop) c vi updates :
  stack_board vi0 c →
  round_inv (spot nx nt) vi0 prev (fun i => mem_s vi0 c (spot nx nt i)) (fun _ => False) vi →
  ∃ vi' u nf', stack_round c vi updates = Ok (vi', u, nf') ∧ stack_board vi0 nf' ∧
    round_inv (spot nx nt) vi0 prev (fun _ => False) (mem_s vi0 nf') vi'.
Proof.
  intros [Hclen Hcall] Hinv. unfold stack_round. pose proof Hwf0 as [[Hx0 _ Ht0 _] _ _].
  destruct (inplace_fields vi0 vi (ri_inplace _ _ _ _ _ _ Hinv)) as (Ex & Ey & Et & _ & _).
  destruct (stack_new_spec vi0 Hwf0) as [Hnew Hempty].
  assert (stack_new vi = stack_new vi0) as -> by (unfold stack_new; by rewrite Ex, Ey, Et).
  rewrite Et.
  destruct (for_range_inv (fun it (acc : ValueIterator * Z * list Bitboard2D) =>
    let '(v, _, nf) := acc in stack_board vi0 nf ∧
    round_inv (spot nx nt) vi0 prev (fun i => mem_s vi0 c (spot nx nt i) ∧ it ≤ ct nt i)
      (mem_s vi0 nf) v) 0 (vi_cell_num_t vi0)
    (fun it acc =>
      let '(vi, updates, nf) := acc in
      cand ← vget c it;
      cells ← enumerate2 cand;
      stack_layer it cells vi updates nf) (vi, updates, stack_new vi0))
    as ([[v u] nf'] & E & Hnf' & Hri).
  - lia.
  - split; [done|]. eapply round_inv_weaken; [exact Hinv|done| |done].
    intros i Hi. split; [done|]. apply Z.mod_pos_bound. exact Ht0.
  - intros it [[v u] nf] Hit [Hnf Hri].
    destruct (zget_lt c it ltac:(lia)) as [b Hb]. unfold vget. rewrite Hb. cbn [of_option].
    rewrite ok_bind. destruct (Hcall _ _ Hb) as (Hwb & Ebx & Eby).
    rewrite (enumerate2_eq b Hwb) by lia. rewrite ok_bind.
    destruct (stack_layer_spec prev (fun i => mem_s vi0 c (spot nx nt i) ∧ it + 1 ≤ ct nt i)
      it (cells2 b) v u nf) as (v' & u' & nf' & E & Hnf' & Hri').
    + done.
    + intros [x y] [[? ?] _]%elem_of_cells2. cbn. unfold nx, ny. lia.
    + done.
    + eapply round_inv_weaken; [exact Hri|done| |done]. intros i [Hmem Hge].
      destruct (decide (ct nt i = it)) as [Ei|]; [left|right; split; [done|lia]].
      destruct Hmem as [(Hx & Hy & Ht) (b' & Hb' & Hh)]. cbn in *.
      exists (cx nx nt i, cy nx nt i). split; [|unfold spot; by rewrite Ei].
      rewrite Ei, Hb in Hb'. injection Hb' as <-. apply elem_of_cells2.
      split; [split; lia|done].
    + exists (v', u', nf'). split; [exact E|]. by split.
  - exists v, u, nf'. split; [exact E|]. split; [done|].
    eapply round_inv_weaken; [exact Hri|done| |done].
    intros i [_ Hge]. unfold ct in Hge. pose proof (Z.mod_pos_bound i nt Ht0). unfold nt in *. lia.
Qed.
End round.

Section solve.
Context {S : Type} (obs : SolveObserver S) (max_iter : Z) (vi0 : ValueIterator).
Context (Hwf0 : wf_vi vi0) (Hmax : 0 ≤ max_iter < 2 ^ 32).
Context (mx my mt : Z) (Hmx : 1 ≤ mx < 64) (Hmy : 1 ≤ my < 2 ^ 31).
Context (Hmt : 0 ≤ mt ≤ vi_cell_num_t vi0).
Context (Hcov : ∀ a, a ∈ vi_actions vi0 → action_covered (vi_cell_num_t vi0) a (mx, my, mt)).

Lemma stack_loop_spec fuel vi l updates iters p o (prev : Z * Z * Z → Prop) (todo : Z → Prop) :
  0 ≤ iters ≤ max_iter → max_iter < Z.of_nat fuel + iters →
  stack_board vi0 l → (∀ i, ¬ todo i) →
  round_inv (spot (vi_cell_num_x vi0) (vi_cell_num_t vi0)) vi0 prev todo (mem_s vi0 l) vi →
  ∃ vi' o' out, stack_loop obs max_iter mx my mt fuel vi l updates iters p o = Ok (vi', o', out) ∧
    solve_ok vi0 max_iter vi' out.
Proof.
  revert vi l updates iters p o prev todo.
  induction fuel as [|fuel IH]; intros vi l updates iters p o prev todo Hit Hf Hl Hnone Hri; [lia|].
  cbn [stack_loop]. destruct (Z.ltb_spec 0 (stack_popcount l)) as [Hpop|Hpop]; cbn [andb].
  2: { do 3 eexists. split; [done|]. split; [apply Hri|]. split; [apply Hri|]. split; [cbn; lia|].
    intros _. eapply round_inv_fixed_point; [|exact Hnone].
    eapply round_inv_weaken; [exact Hri|done|done|]. intros r Hr.
    assert (0 < stack_popcount l); [|lia]. apply (stack_popcount_pos vi0 l Hwf0 Hl). by exists r. }
  destruct (Z.ltb_spec iters max_iter) as [Hlt|Hge].
  2: { do 3 eexists. split; [done|]. split; [apply Hri|]. split; [apply Hri|].
       split; [cbn; lia|]. cbn. intros Hc. apply Z.eqb_eq in Hc. lia. }
  rewrite u32_add_small by (unfold in_u32; lia).
  destruct (inplace_fields vi0 vi (ri_inplace _ _ _ _ _ _ Hri)) as (Ex & Ey & Et & Ea & El).
  cbv zeta. rewrite Et.
  destruct (stack_dilate vi0 mx my ltac:(lia) ltac:(lia) l Hl) as (d & -> & Hd & Hdil). rewrite ok_bind.
  destruct (stack_candidates_spec vi0 Hwf0 mt Hmt d Hd) as (c & -> & Hc & Hcand). rewrite ok_bind.
  destruct (stack_round_spec vi0 Hwf0 (mem_s vi0 l) c vi updates Hc)
    as (vi1 & u1 & nf & -> & Hnf & Hri1).
  - eapply round_begin; [exact Hri|exact Hnone|]. intros i s j Hi _ Hj Hm.
    destruct (spot_covered vi0 Hwf0 mx my mt vi i s j _ _ _ Hcov Hri Hi Hj)
      as ((Hi1 & Hi2 & Hi3) & _ & Hdx & Hdy & e & He & Ee).
    unfold spot in *. cbn [fst snd] in *. eapply Hcand; [done|exact He|].
    rewrite <- Ee. by eapply Hdil.
  - rewrite ok_bind. destruct (0 <? stack_popcount nf).
    + pose proof (at_boundary_out obs vi1 (iters + 1) u1 p o) as Hb.
      destruct (at_boundary obs vi1 (iters + 1) u1 p o) as [[p' o'] [out|]].
      * destruct (Hb out eq_refl) as [Hnc Hi]. do 3 eexists. split; [done|].
        split; [apply Hri1|]. split; [apply Hri1|]. split; [lia|]. by rewrite Hnc.
      * eapply (IH vi1 nf u1 (iters + 1) p' o'); [lia|lia|done| |exact Hri1]. tauto.
    + eapply (IH vi1 nf u1 (iters + 1) p o); [lia|lia|done| |exact Hri1]. tauto.
Qed.
End solve.

(** ** Properties *)

Lemma frontier_stack_solve_spec {S} (obs : SolveObserver S) max_iter vi o mx my mt :
  wf_vi vi → 0 ≤ max_iter < 2 ^ 32 → displacement vi = Ok (mx, my, mt) → mx < 64 →
  ∃ vi' o' out, frontier_stack_solve_observed obs max_iter vi o = Ok (vi', o', out) ∧
    solve_ok vi max_iter vi' out.
Proof.
  intros Hwf Hmax Hdisp Hmx.
  destruct (displacement_spec vi Hwf) as (mx' & my' & mt' & E & H1 & H2 & H3 & Hcov).
  rewrite Hdisp in E. injection E as <- <- <-. pose proof Hwf as [Hd Hst _].
  unfold frontier_stack_solve_observed. rewrite Hdisp, ok_bind.
  destruct (stack_seed_spec vi Hwf) as (l & -> & Hl & Hseed). rewrite ok_bind.
  rewrite !as_u32_small by lia.
  eapply (stack_loop_spec obs max_iter vi Hwf Hmax mx my mt); try done; try lia.
  2: { apply round_inv_start; [done|]. intros j s Hj Hlt.
       pose proof (ws_state _ _ _ _ Hst _ _ Hj) as [? ? ? E _ _ _].
       rewrite E. unfold spot. pose proof (coords_index (vi_cell_num_x vi) (vi_cell_num_t vi)
         (s_ix s) (s_iy s) (s_it s)) as (-> & -> & ->); [done..|]. by eapply Hseed. }
  tauto.
Qed.

(** [frontier_stack] is sound and terminates, with the guarantee of the
    other frontier solvers: no panic, at most [max_iter] rounds, and a Bellman
    fixed point on convergence. *)
Theorem frontier_stack_fixed_point {S} (obs : SolveObserver S) max_iter vi o mx my mt :
  wf_vi vi → 0 ≤ max_iter < 2 ^ 32 → displacement vi = Ok (mx, my, mt) → mx < 64 →
  ∃ vi' o' out, frontier_stack_solve_observed obs max_iter vi o = Ok (vi', o', out) ∧
    solve_ok vi max_iter vi' out.
Proof. apply frontier_stack_solve_spec. Qed.

Lemma frontier_stack_fixed_point_witness :
  ∃ vi' o' out, frontier_stack_solve_observed NullObserver 10 (corridor 3) () = Ok (vi', o', out)
    ∧ so_converged out = true ∧ s_total_cost <$> vi_states vi' = [0; PROB_BASE; 2 * PROB_BASE].
Proof.
  destruct (frontier_stack_fixed_point NullObserver 10 (corridor 3) () 1 1 0)
    as (vi' & o' & out & E & _).
  - apply check_vi_ok. reflexivity.
  - lia.
  - reflexivity.
  - lia.
  - exists vi', o', out. split; [exact E|].
    assert (frontier_stack_solve_observed NullObserver 10 (corridor 3) () = Ok (vi', o', out))
      as E' by exact E.
    vm_compute in E'. injection E' as <- <- <-. split; reflexivity.
Defined.
