(* ===== verification/Block.v ===== *)
(** * The block solvers (vi_lib/src/solvers/block.rs and pyramid.rs)

    [block_refine] tracks the blocks in which a value moved and runs two local
    sweeps over every active block; [pyramid_sweep] runs it over a decreasing
    sequence of block sizes. *)

From Stdlib Require Import ZArith Lia.
From stdpp Require Import base gmap strings list numbers.
From S2P Require Import Prelude Floats Model Bellman Observe Consistency Active Frontier.

Definition BLOCK : Z := 8.
Definition LOCAL_SWEEPS : Z := 2.

Definition ceil_div (a b : Z) : res Z := i32_div (i32_sub (i32_add a b) 1) b.

Definition bidx (n_bx bx by_ : Z) : Z := as_u64 (i32_add (i32_mul by_ n_bx) bx).

(** One cell of [update_block]. *)
Definition update_cell (ix iy it : Z) (acc : ValueIterator * Z * bool)
    : res (ValueIterator * Z * bool) :=
  let '(vi, updates, changed) := acc in
  r ← value_iteration_at vi (to_index vi ix iy it);
  Ok (if 0 <? r.2 then (r.1, u64_add updates 1, true) else (r.1, updates, changed)).

Definition update_block (vi : ValueIterator) (x0 x1 y0 y1 local_passes : Z)
    : res (ValueIterator * Z * bool) :=
  for_range 0 local_passes (fun _ =>
    for_incl y0 y1 (fun iy =>
      for_incl x0 x1 (fun ix =>
        for_range 0 (vi_cell_num_t vi) (fun it => update_cell ix iy it)))) (vi, 0, false).

(** The passable blocks and the seed blocks. *)
Definition block_marks (vi : ValueIterator) (block n_bx nb : Z) : res (list bool * list bool) :=
  for_each (vi_states vi) (fun s acc =>
    bx ← i32_div (s_ix s) block;
    by_ ← i32_div (s_iy s) block;
    let b := bidx n_bx bx by_ in
    passable ← (if s_free s then vset acc.1 b true else Ok acc.1);
    frontier ← (if s_total_cost s <? MAX_COST then vset acc.2 b true else Ok acc.2);
    Ok (passable, frontier)) (vec_repeat false nb, vec_repeat false nb).

Definition any (m : list bool) : bool := existsb (fun b => b) m.

(** The active blocks around the frontier block [(bx, by)]. *)
Definition activate (passable : list bool) (n_bx n_by rx ry bx by_ : Z) (active : list bool)
    : res (list bool) :=
  for_incl (- ry) ry (fun dby active =>
    let jy := i32_add by_ dby in
    if (jy <? 0) || (jy >=? n_by) then Ok active else
    for_incl (- rx) rx (fun dbx active =>
      let jx := i32_add bx dbx in
      if (jx <? 0) || (jx >=? n_bx) then Ok active else
      let j := bidx n_bx jx jy in
      p ← vget passable j;
      if (p : bool) then vset active j true else Ok active) active) active.

Definition block_active (passable frontier : list bool) (n_bx n_by rx ry nb : Z)
    : res (list bool) :=
  for_range 0 n_by (fun by_ =>
    for_range 0 n_bx (fun bx active =>
      f ← vget frontier (bidx n_bx bx by_);
      if negb f then Ok active else activate passable n_bx n_by rx ry bx by_ active))
    (vec_repeat false nb).

(** The update pass over the active blocks. *)
Definition block_pass (active : list bool) (block local_sweeps n_bx n_by nb : Z)
    (vi : ValueIterator) (updates : Z) : res (ValueIterator * Z * list bool * bool) :=
  for_range 0 n_by (fun by_ acc =>
    let y0 := i32_mul by_ block in
    let y1 := i32_sub (Z.min (i32_mul (i32_add by_ 1) block) (vi_cell_num_y vi)) 1 in
    for_range 0 n_bx (fun bx acc =>
      let '(v, updates, next, any_changed) := acc in
      a ← vget active (bidx n_bx bx by_);
      if negb a then Ok acc else
      let x0 := i32_mul bx block in
      let x1 := i32_sub (Z.min (i32_mul (i32_add bx 1) block) (vi_cell_num_x vi)) 1 in
      r ← update_block v x0 x1 y0 y1 local_sweeps;
      let '(v, u, changed) := r in
      if (changed : bool) then
        next ← vset next (bidx n_bx bx by_) true;
        Ok (v, u64_add updates u, next, true)
      else Ok (v, u64_add updates u, next, any_changed)) acc)
    (vi, updates, vec_repeat false nb, false).

Section block.
Context {S : Type} (obs : SolveObserver S).
Context (max_iter block local_sweeps n_bx n_by rx ry nb : Z) (passable : list bool).

Fixpoint block_loop (fuel : nat) (vi : ValueIterator) (frontier : list bool)
    (updates iters : Z) (pacer : BoundaryPacer) (o : S) : res (ValueIterator * S * SolveOutcome) :=
  match fuel with
  | O => OutOfFuel
  | Datatypes.S fuel =>
      if negb (any frontier) then Ok (vi, o, running iters updates true) else
      if iters >=? max_iter then Ok (vi, o, running iters updates false) else
      let iters := u32_add iters 1 in
      active ← block_active passable frontier n_bx n_by rx ry nb;
      r ← block_pass active block local_sweeps n_bx n_by nb vi updates;
      let '(vi, updates, frontier, any_changed) := r in
      if negb any_changed then Ok (vi, o, running iters updates true) else
      match at_boundary obs vi iters updates pacer o with
      | (_, o, Some out) => Ok (vi, o, out)
      | (pacer, o, None) => block_loop fuel vi frontier updates iters pacer o
      end
  end.
End block.

Definition block_refine_sized {S} (obs : SolveObserver S) (block local_sweeps max_iter : Z)
    (vi : ValueIterator) (o : S) : res (ValueIterator * S * SolveOutcome) :=
  let pacer := pacer_new obs o in
  n_bx ← ceil_div (vi_cell_num_x vi) block;
  n_by ← ceil_div (vi_cell_num_y vi) block;
  let nb := as_u64 (i32_mul n_bx n_by) in
  d ← displacement vi;
  let '(mx, my, _) := d in
  rx ← ceil_div mx block;
  ry ← ceil_div my block;
  m ← block_marks vi block n_bx nb;
  block_loop obs max_iter block local_sweeps n_bx n_by rx ry nb m.1
    (Datatypes.S (Z.to_nat max_iter)) vi m.2 0 0 pacer o.

Definition block_refine_solve_observed {S} (obs : SolveObserver S) (max_iter : Z)
    (vi : ValueIterator) (o : S) : res (ValueIterator * S * SolveOutcome) :=
  block_refine_sized obs BLOCK LOCAL_SWEEPS max_iter vi o.

(** ** PyramidSweep *)

Definition FINEST : Z := 8.
Definition COARSE_BUDGET : Z := 4.

Definition pyramid_sizes (max_dim : Z) : list Z :=
  filter (fun s => FINEST < s ∧ s < max_dim) [64; 32; 16] ++ [FINEST].

Fixpoint pyramid_levels {S} (obs : SolveObserver S) (max_iter : Z) (sizes : list Z)
    (vi : ValueIterator) (o : S) (total_iters total_updates : Z) (converged : bool)
    : res (ValueIterator * S * SolveOutcome) :=
  match sizes with
  | [] => Ok (vi, o, running total_iters total_updates converged)
  | block :: sizes' =>
      let is_finest := match sizes' with [] => true | _ => false end in
      let budget := if is_finest then u32_sat_sub max_iter total_iters else COARSE_BUDGET in
      r ← block_refine_sized (OffsetObserver obs total_iters total_updates) block LOCAL_SWEEPS
            budget vi o;
      let '(vi, o, out) := r in
      let total_iters := u32_sat_add total_iters (so_iters out) in
      let total_updates := u64_add total_updates (so_updates out) in
      if so_stopped out || so_cancelled out then
        Ok (vi, o, {| so_iters := total_iters; so_updates := total_updates;
                      so_converged := so_converged out; so_stopped := so_stopped out;
                      so_cancelled := so_cancelled out |})
      else if total_iters >=? max_iter then
        Ok (vi, o, running total_iters total_updates (so_converged out))
      else pyramid_levels obs max_iter sizes' vi o total_iters total_updates (so_converged out)
  end.

Definition pyramid_sweep_solve_observed {S} (obs : SolveObserver S) (max_iter : Z)
    (vi : ValueIterator) (o : S) : res (ValueIterator * S * SolveOutcome) :=
  pyramid_levels obs max_iter
    (pyramid_sizes (Z.max (vi_cell_num_x vi) (vi_cell_num_y vi))) vi o 0 0 false.

(** ** Arithmetic of blocks *)

Lemma i32_div_pos a b : 0 ≤ a → 0 < b → i32_div a b = Ok (a / b).
Proof.
  intros Ha Hb. unfold i32_div. destruct (Z.eqb_spec b 0); [lia|].
  destruct (Z.eqb_spec a (- 2 ^ 31)); [lia|]. cbn. f_equal. apply Z.quot_div_nonneg; lia.
Qed.

Lemma ceil_div_ok a b : 0 ≤ a → 0 < b → a + b < 2 ^ 31 → ceil_div a b = Ok (div_ceil a b).
Proof.
  intros Ha Hb Hs. unfold ceil_div, div_ceil.
  rewrite i32_add_small by (unfold in_i32; lia). rewrite i32_sub_small by (unfold in_i32; lia).
  apply i32_div_pos; lia.
Qed.

Lemma div_ceil_range a b : 0 < a → 0 < b → 0 < div_ceil a b ≤ a.
Proof. intros Ha Hb. pose proof (div_ceil_bounds a b Hb). nia. Qed.

Lemma div_near x y m b :
  0 < b → 0 ≤ m → Z.abs (x - y) ≤ m → Z.abs (x / b - y / b) ≤ div_ceil m b.
Proof.
  intros Hb Hm Hxy. pose proof (div_ceil_bounds m b Hb) as [_ Hc].
  assert (∀ u v, u - v ≤ m → u / b ≤ v / b + div_ceil m b) as H.
  { intros u v Huv. rewrite <- Z.div_add by lia. apply Z.div_le_mono; lia. }
  pose proof (H x y ltac:(lia)). pose proof (H y x ltac:(lia)). lia.
Qed.

Lemma div_range x n b : 0 < b → 0 ≤ x < n → 0 ≤ x / b < div_ceil n b.
Proof.
  intros Hb Hx. pose proof (div_ceil_bounds n b Hb). split; [apply Z.div_pos; lia|].
  apply Z.div_lt_upper_bound; lia.
Qed.

(** The cells of block [k] along an axis of [n] cells. *)
Lemma block_extent x n b k :
  0 < b → 0 ≤ x < n → (x / b = k ↔ k * b ≤ x ≤ Z.min ((k + 1) * b) n - 1).
Proof.
  intros Hb Hx. pose proof (Z.div_mod x b ltac:(lia)). pose proof (Z.mod_pos_bound x b Hb).
  split; [intros <-; nia|]. intros [H1 H2]. symmetry. apply (Z.div_unique_pos x b k (x - k * b)); lia.
Qed.

(** ** One block *)

Section update.
Context (vi0 : ValueIterator) (Hwf0 : wf_vi vi0) (block : Z).
Let nx := vi_cell_num_x vi0.
Let ny := vi_cell_num_y vi0.
Let nt := vi_cell_num_t vi0.

(** The block a cell lies in. *)
Definition blk (j : Z) : Z * Z := (cx nx nt j / block, cy nx nt j / block).

(** The cells an [update_block] visits, in its order. *)
Definition rect (x0 x1 y0 y1 : Z) : list (Z * Z * Z) :=
  seqZ y0 (y1 + 1 - y0) ≫= fun iy => seqZ x0 (x1 + 1 - x0) ≫= fun ix =>
    (fun it => (ix, iy, it)) <$> seqZ 0 nt.

Lemma elem_of_rect x0 x1 y0 y1 c :
  c ∈ rect x0 x1 y0 y1 ↔ x0 ≤ c.1.1 ≤ x1 ∧ y0 ≤ c.1.2 ≤ y1 ∧ 0 ≤ c.2 < nt.
Proof.
  unfold rect. rewrite list_elem_of_bind. setoid_rewrite list_elem_of_bind.
  setoid_rewrite elem_of_seqZ. setoid_rewrite list_elem_of_fmap. setoid_rewrite elem_of_seqZ. destruct c as [[x y] t].
  cbn. split.
  - intros (iy & (ix & (it & [= -> -> ->] & ?) & ?) & ?). lia.
  - intros (? & ? & ?). exists y. split; [|lia]. exists x. split; [|lia]. exists t. split; [done|lia].
Qed.

Lemma update_block_flat vi x0 x1 y0 y1 n :
  vi_cell_num_t vi = nt →
  update_block vi x0 x1 y0 y1 n =
  for_each (seqZ 0 (n - 0) ≫= fun _ => rect x0 x1 y0 y1)
    (fun c => update_cell c.1.1 c.1.2 c.2) (vi, 0, false).
Proof.
  intros Et. unfold update_block, rect. rewrite Et. unfold for_incl, for_range.
  rewrite <- for_each_bind. apply for_each_ext. intros _ a _.
  rewrite <- for_each_bind. apply for_each_ext. intros iy a' _.
  rewrite <- for_each_bind. apply for_each_ext. intros ix a'' _.
  rewrite for_each_fmap, Z.sub_0_r. done.
Qed.

(** Visiting cells of one block: they are done, and the flag records a move. *)
Lemma visit_block (prev : Z * Z → Prop) (todo : Z → Prop) (moved : Z * Z → Prop) r cells vi :
  (∀ c, c ∈ cells → in_space vi0 c ∧ (c.1.1 / block, c.1.2 / block) = r) →
  round_inv blk vi0 prev todo moved vi →
  ∃ vi' u ch, for_each cells (fun c => update_cell c.1.1 c.1.2 c.2) (vi, 0, false)
                = Ok (vi', u, ch) ∧
    round_inv blk vi0 prev (fun i => todo i ∧ spot nx nt i ∉ cells)
      (fun q => moved q ∨ (ch = true ∧ q = r)) vi'.
Proof.
  intros Hcells Hinv.
  destruct (for_each_inv (fun k (acc : ValueIterator * Z * bool) =>
    let '(v, _, ch) := acc in
    round_inv blk vi0 prev (fun i => todo i ∧ spot nx nt i ∉ take k cells)
      (fun q => moved q ∨ (ch = true ∧ q = r)) v) cells
    (fun c => update_cell c.1.1 c.1.2 c.2) (vi, 0, false)) as ([[v u] ch] & E & Hri).
  - eapply round_inv_weaken; [exact Hinv|done| |by left].
    intros i Hi. split; [done|]. by intros ?%elem_of_nil.
  - intros k [[ix iy] it] [[v u] ch] Hk Hri.
    destruct (Hcells (ix, iy, it)) as [(Hx & Hy & Ht) Hr]; [by eapply list_elem_of_lookup_2|].
    cbn [fst snd] in *. pose proof Hwf0 as [Hd Hst0 _]. pose proof Hd as [Hx0 Hy0 Ht0 _].
    destruct (inplace_fields vi0 v (ri_inplace _ _ _ _ _ _ Hri)) as (Ex & Ey & Et & _ & El).
    unfold update_cell, to_index. rewrite Ex, Et.
    rewrite (to_index_raw_small nx ny nt) by done.
    destruct (coords_index nx nt ix iy it) as (Cx & Cy & Ct); [done..|].
    destruct (round_step blk vi0 prev _ _ v (index nx nt ix iy it) Hri) as (v1 & d1 & -> & Hd1 & Hnext).
    { rewrite (ws_len _ _ _ _ Hst0). by apply index_bounds. }
    rewrite ok_bind. cbn [fst snd]. eexists. split; [done|].
    rewrite (take_S_r _ _ _ Hk).
    assert (∀ j, todo j ∧ spot nx nt j ∉ take k cells →
      j = index nx nt ix iy it ∨ todo j ∧ spot nx nt j ∉ take k cells ++ [(ix, iy, it)]) as Htodo.
    { intros j [Hj Hn]. destruct (decide (spot nx nt j = (ix, iy, it))) as [Hs|Hs].
      - left. injection Hs as Hcx Hcy Hct. rewrite (index_of_coords nx nt j) by done. congruence.
      - right. split; [done|]. rewrite elem_of_app, list_elem_of_singleton. tauto. }
    destruct (Z.ltb_spec 0 d1); apply Hnext; try exact Htodo.
    + intros q [?|[_ ?]]; [by left|by right].
    + intros _. right. split; [done|]. unfold blk. by rewrite Cx, Cy.
    + done.
    + lia.
  - rewrite firstn_all in Hri. by exists v, u, ch.
Qed.

(** The block [(bx, by)] of the map, both local sweeps. *)
Lemma update_block_spec (prev : Z * Z → Prop) (todo : Z → Prop) (moved : Z * Z → Prop) bx by_ n vi :
  0 < block → 0 ≤ bx → 0 ≤ by_ → 0 < n → (∀ i, todo i → 0 ≤ i < nx * ny * nt) →
  round_inv blk vi0 prev todo moved vi →
  ∃ vi' u ch, update_block vi (bx * block) (Z.min ((bx + 1) * block) nx - 1)
      (by_ * block) (Z.min ((by_ + 1) * block) ny - 1) n = Ok (vi', u, ch) ∧
    round_inv blk vi0 prev (fun i => todo i ∧ blk i ≠ (bx, by_))
      (fun q => moved q ∨ (ch = true ∧ q = (bx, by_))) vi'.
Proof.
  intros Hb Hbx Hby Hn Hrange Hinv.
  destruct (inplace_fields vi0 vi (ri_inplace _ _ _ _ _ _ Hinv)) as (_ & _ & Et & _).
  rewrite update_block_flat by done.
  pose proof Hwf0 as [[Hx0 Hy0 Ht0 _] Hst0 _]. fold nx in Hx0. fold ny in Hy0. fold nt in Ht0.
  assert (∀ c, c ∈ (seqZ 0 (n - 0) ≫= fun _ => rect (bx * block) (Z.min ((bx + 1) * block) nx - 1)
      (by_ * block) (Z.min ((by_ + 1) * block) ny - 1)) ↔
    in_space vi0 c ∧ (c.1.1 / block, c.1.2 / block) = (bx, by_)) as Hcells.
  { intros c. rewrite list_elem_of_bind. setoid_rewrite elem_of_rect. setoid_rewrite elem_of_seqZ.
    unfold in_space. fold nx ny nt. assert (0 ≤ bx * block) by nia. assert (0 ≤ by_ * block) by nia.
    split.
    - intros (_ & (Hx & Hy & Ht) & _).
      split; [lia|]. f_equal; [apply (block_extent _ nx)|apply (block_extent _ ny)]; lia.
    - intros [(Hx & Hy & Ht) [= E1 E2]]. exists 0. split; [|lia].
      apply (block_extent _ nx) in E1; [|lia..]. apply (block_extent _ ny) in E2; [|lia..]. lia. }
  destruct (visit_block prev todo moved (bx, by_) _ vi (fun c Hc => proj1 (Hcells c) Hc) Hinv)
    as (v & u & ch & E & Hri).
  exists v, u, ch. split; [exact E|]. eapply round_inv_weaken; [exact Hri|done| |done].
  intros i [Hi Hn']. split; [done|]. intros Hr. apply Hn', Hcells. split; [|exact Hr].
  destruct (index_coords nx ny nt i Hx0 Ht0 (Hrange i Hi)) as (_ & ? & ? & ?). by split.
Qed.
End update.

(** ** Boards of blocks *)

Definition flag (l : list bool) (k : Z) : Prop := zget l k = Some true.

Definition grows (a b : list bool) : Prop := zlen b = zlen a ∧ ∀ k, flag a k → flag b k.

#[global] Instance grows_preorder : PreOrder grows.
Proof. split; [by intros a; split|intros a b c [? ?] [? ?]; split; [lia|auto]]. Qed.

Lemma flag_set l k : 0 ≤ k < zlen l → grows l (zset l k true) ∧ flag (zset l k true) k.
Proof.
  intros Hk. split; [|by apply zget_zset_eq]. split; [by rewrite zlen_zset|].
  intros j Hj. unfold flag. rewrite zget_zset by done. by case_decide.
Qed.

Lemma flag_repeat n k : ¬ flag (vec_repeat false n) k.
Proof.
  unfold flag, vec_repeat, zget. case_decide; [|done].
  intros [E _]%lookup_replicate. done.
Qed.

Lemma any_false l k : any l = false → ¬ flag l k.
Proof.
  intros Ha Hf. assert (any l = true); [|congruence]. apply existsb_exists. exists true.
  split; [|done]. apply list_elem_of_In, elem_of_zget. by exists k.
Qed.

Section board.
Context (vi0 : ValueIterator) (Hwf0 : wf_vi vi0) (block n_bx n_by : Z).
Let nx := vi_cell_num_x vi0.
Let ny := vi_cell_num_y vi0.
Let nt := vi_cell_num_t vi0.
Context (Hb : 0 < block) (Hnbx : n_bx = div_ceil nx block) (Hnby : n_by = div_ceil ny block).

Lemma board_dims : 0 < n_bx ≤ nx ∧ 0 < n_by ≤ ny ∧ n_bx * n_by < 2 ^ 31.
Proof.
  pose proof Hwf0 as [[Hx Hy Ht Htot] _ _]. fold nx in Hx, Htot. fold ny in Hy, Htot.
  fold nt in Ht, Htot. subst n_bx n_by.
  pose proof (div_ceil_range nx block Hx Hb). pose proof (div_ceil_range ny block Hy Hb).
  split; [lia|]. split; [lia|].
  assert (div_ceil nx block * div_ceil ny block ≤ nx * ny) by (apply Z.mul_le_mono_nonneg; lia).
  assert (0 < nx * ny) by nia. nia.
Qed.

Definition in_blocks (r : Z * Z) : Prop := 0 ≤ r.1 < n_bx ∧ 0 ≤ r.2 < n_by.

Lemma bidx_ok bx by_ : in_blocks (bx, by_) →
  bidx n_bx bx by_ = by_ * n_bx + bx ∧ 0 ≤ by_ * n_bx + bx < n_bx * n_by.
Proof.
  intros [Hx Hy]. cbn in *. pose proof board_dims as (? & ? & ?).
  assert (0 ≤ by_ * n_bx + bx < n_bx * n_by) by nia.
  assert (0 ≤ by_ * n_bx) by nia.
  split; [|done]. unfold bidx. rewrite i32_mul_small by (unfold in_i32; lia).
  rewrite i32_add_small by (unfold in_i32; lia). apply as_u64_small. unfold in_u64. lia.
Qed.

Lemma nb_ok : as_u64 (i32_mul n_bx n_by) = n_bx * n_by.
Proof.
  pose proof board_dims as (? & ? & ?). rewrite i32_mul_small by (unfold in_i32; nia).
  apply as_u64_small. unfold in_u64. nia.
Qed.

(** The flag of a block. *)
Definition flag_b (l : list bool) (r : Z * Z) : Prop := in_blocks r ∧ flag l (r.2 * n_bx + r.1).

Lemma flag_b_grows a b r : grows a b → flag_b a r → flag_b b r.
Proof. intros [_ H] [? ?]. split; [done|auto]. Qed.

Lemma set_flag l bx by_ : zlen l = n_bx * n_by → in_blocks (bx, by_) →
  ∃ l', vset l (bidx n_bx bx by_) true = Ok l' ∧ grows l l' ∧ flag_b l' (bx, by_).
Proof.
  intros Hl Hin. destruct (bidx_ok bx by_ Hin) as [-> Hr].
  rewrite vset_ok by lia. destruct (flag_set l (by_ * n_bx + bx)) as [? ?]; [lia|].
  eexists. split; [done|]. split; [done|]. by split.
Qed.

Lemma get_flag l bx by_ : zlen l = n_bx * n_by → in_blocks (bx, by_) →
  ∃ b, vget l (bidx n_bx bx by_) = Ok b ∧ (flag_b l (bx, by_) ↔ b = true).
Proof.
  intros Hl Hin. destruct (bidx_ok bx by_ Hin) as [-> Hr].
  destruct (zget_lt l (by_ * n_bx + bx) ltac:(lia)) as [b E]. exists b.
  split; [by apply vget_ok|]. unfold flag_b, flag. cbn. rewrite E.
  split; [intros [_ [= ->]]; done|intros ->; done].
Qed.

Lemma blk_in_blocks i : 0 ≤ i < nx * ny * nt → in_blocks (blk vi0 block i).
Proof.
  intros Hi. pose proof Hwf0 as [[Hx Hy Ht _] _ _]. fold nx in Hx. fold ny in Hy. fold nt in Ht.
  destruct (index_coords nx ny nt i Hx Ht Hi) as (_ & ? & ? & _). unfold in_blocks. subst n_bx n_by.
  split; by apply div_range.
Qed.

Lemma state_blk i s : zget (vi_states vi0) i = Some s →
  0 ≤ s_ix s ∧ 0 ≤ s_iy s ∧ blk vi0 block i = (s_ix s / block, s_iy s / block) ∧
  in_blocks (s_ix s / block, s_iy s / block).
Proof.
  intros Hi. pose proof Hwf0 as [[Hx0 Hy0 Ht0 _] Hst _].
  pose proof (ws_state _ _ _ _ Hst _ _ Hi) as [Hx Hy Ht E _ _ _].
  apply zget_Some_lt in Hi. rewrite (ws_len _ _ _ _ Hst) in Hi.
  assert (blk vi0 block i = (s_ix s / block, s_iy s / block)) as Eb.
  { unfold blk. rewrite E.
    destruct (coords_index (vi_cell_num_x vi0) (vi_cell_num_t vi0) (s_ix s) (s_iy s) (s_it s))
      as (-> & -> & _); done. }
  split; [lia|]. split; [lia|]. split; [exact Eb|]. rewrite <- Eb. by apply blk_in_blocks.
Qed.

Lemma block_marks_spec :
  ∃ pas fr, block_marks vi0 block n_bx (n_bx * n_by) = Ok (pas, fr) ∧
    zlen pas = n_bx * n_by ∧ zlen fr = n_bx * n_by ∧
    ∀ i s, zget (vi_states vi0) i = Some s →
      (s_free s = true → flag_b pas (blk vi0 block i)) ∧
      (s_total_cost s < MAX_COST → flag_b fr (blk vi0 block i)).
Proof.
  pose proof board_dims as (? & ? & ?).
  destruct (for_each_mono (fun acc => zlen acc.1 = n_bx * n_by ∧ zlen acc.2 = n_bx * n_by)
    (fun a b => grows a.1 b.1 ∧ grows a.2 b.2)
    (fun s acc => (s_free s = true → flag_b acc.1 (s_ix s / block, s_iy s / block)) ∧
       (s_total_cost s < MAX_COST → flag_b acc.2 (s_ix s / block, s_iy s / block)))
    (vi_states vi0)
    (fun s (acc : list bool * list bool) =>
      bx ← i32_div (s_ix s) block;
      by_ ← i32_div (s_iy s) block;
      let b := bidx n_bx bx by_ in
      passable ← (if s_free s then vset acc.1 b true else Ok acc.1);
      frontier ← (if s_total_cost s <? MAX_COST then vset acc.2 b true else Ok acc.2);
      Ok (passable, frontier))
    (vec_repeat false (n_bx * n_by), vec_repeat false (n_bx * n_by)))
    as ([pas fr] & E & [Hl1 Hl2] & _ & Hall).
  - split; [by intros a; split|]. intros a b c [? ?] [? ?]. split; by etransitivity.
  - intros s a b [M1 M2] [G1 G2]. split; intros Hs; eapply flag_b_grows; eauto.
  - cbn. rewrite zlen_repeat by nia. done.
  - intros s [pas fr] [i Hi]%elem_of_zget [Hl1 Hl2]. cbn in Hl1, Hl2.
    destruct (state_blk i s Hi) as (? & ? & _ & Hin).
    rewrite !i32_div_pos by lia. rewrite !ok_bind. cbn [fst snd].
    destruct (set_flag pas _ _ Hl1 Hin) as (p' & Ep & Gp & Fp).
    destruct (set_flag fr _ _ Hl2 Hin) as (f' & Ef & Gf & Ff).
    exists (if s_free s then p' else pas, if s_total_cost s <? MAX_COST then f' else fr).
    split; [|split; [|split]].
    + destruct (s_free s), (s_total_cost s <? MAX_COST); rewrite ?Ep, ?Ef, ?ok_bind; reflexivity.
    + destruct Gp, Gf. split; cbn; [destruct (s_free s)|destruct (s_total_cost s <? MAX_COST)]; lia.
    + split; cbn; [destruct (s_free s)|destruct (s_total_cost s <? MAX_COST)]; done.
    + cbn. split; [by intros ->|]. intros ->%Z.ltb_lt. done.
  - exists pas, fr. split; [exact E|]. split; [done|]. split; [done|].
    intros i s Hi. destruct (state_blk i s Hi) as (_ & _ & -> & _).
    apply Hall, elem_of_zget. by exists i.
Qed.

(** ** Activating blocks *)

Context (rx ry : Z) (Hrx : 0 ≤ rx < 2 ^ 30) (Hry : 0 ≤ ry < 2 ^ 30).
Context (Hnx30 : nx < 2 ^ 30) (Hny30 : ny < 2 ^ 30).

Lemma activate_spec pas bx by_ act :
  zlen pas = n_bx * n_by → zlen act = n_bx * n_by → in_blocks (bx, by_) →
  ∃ act', activate pas n_bx n_by rx ry bx by_ act = Ok act' ∧ grows act act' ∧
    ∀ r, flag_b pas r → Z.abs (r.1 - bx) ≤ rx → Z.abs (r.2 - by_) ≤ ry → flag_b act' r.
Proof.
  intros Hp Ha [Hx Hy]. cbn in Hx, Hy. pose proof board_dims as (? & ? & ?).
  unfold activate, for_incl, for_range.
  destruct (for_each_mono (fun act => zlen act = n_bx * n_by) grows
    (fun dby act' => ∀ r, flag_b pas r → Z.abs (r.1 - bx) ≤ rx → r.2 = by_ + dby → flag_b act' r)
    (seqZ (- ry) (ry + 1 - - ry))
    (fun dby active =>
      let jy := i32_add by_ dby in
      if (jy <? 0) || (jy >=? n_by) then Ok active else
      for_each (seqZ (- rx) (rx + 1 - - rx)) (fun dbx active =>
        let jx := i32_add bx dbx in
        if (jx <? 0) || (jx >=? n_bx) then Ok active else
        let j := bidx n_bx jx jy in
        p ← vget pas j;
        if (p : bool) then vset active j true else Ok active) active) act)
    as (act' & E & Hl & Hg & Hall); [typeclasses eauto| |done| |].
  - intros dby a b Hd Hg r ? ? ?. eapply flag_b_grows; eauto.
  - intros dby a [Hd1 Hd2]%elem_of_seqZ Hla. rewrite i32_add_small by (unfold in_i32; lia). cbv zeta.
    destruct (Z.ltb_spec (by_ + dby) 0); cbn [orb].
    { exists a. split; [done|]. split; [done|]. split; [reflexivity|]. intros r [[? ?] _]. lia. }
    rewrite Z.geb_leb. destruct (Z.leb_spec n_by (by_ + dby)).
    { exists a. split; [done|]. split; [done|]. split; [reflexivity|]. intros r [[? ?] _]. lia. }
    destruct (for_each_mono (fun act => zlen act = n_bx * n_by) grows
      (fun dbx act' => ∀ r, flag_b pas r → r.1 = bx + dbx → r.2 = by_ + dby → flag_b act' r)
      (seqZ (- rx) (rx + 1 - - rx))
      (fun dbx active =>
        let jx := i32_add bx dbx in
        if (jx <? 0) || (jx >=? n_bx) then Ok active else
        let j := bidx n_bx jx (by_ + dby) in
        p ← vget pas j;
        if (p : bool) then vset active j true else Ok active) a)
      as (a' & E & Hl & Hg & Hall); [typeclasses eauto| |done| |].
    + intros dbx c d H1' Hg r ? ? ?. eapply flag_b_grows; eauto.
    + intros dbx c [Hc1 Hc2]%elem_of_seqZ Hlc. rewrite i32_add_small by (unfold in_i32; lia). cbv zeta.
      destruct (Z.ltb_spec (bx + dbx) 0); cbn [orb].
      { exists c. split; [done|]. split; [done|]. split; [reflexivity|]. intros r [[? ?] _]. lia. }
      rewrite Z.geb_leb. destruct (Z.leb_spec n_bx (bx + dbx)).
      { exists c. split; [done|]. split; [done|]. split; [reflexivity|]. intros r [[? ?] _]. lia. }
      assert (in_blocks (bx + dbx, by_ + dby)) as Hin by (split; cbn; lia).
      destruct (get_flag pas _ _ Hp Hin) as (p & -> & Hiff). rewrite ok_bind.
      destruct p.
      * destruct (set_flag c _ _ Hlc Hin) as (c' & -> & Hgc & Hfc).
        exists c'. split; [done|]. split; [destruct Hgc; lia|]. split; [done|].
        intros [r1 r2] _ E1 E2. cbn in E1, E2. by subst.
      * exists c. split; [done|]. split; [done|]. split; [reflexivity|].
        intros [r1 r2] Hf E1 E2. cbn in E1, E2. subst. by apply Hiff in Hf.
    + exists a'. split; [exact E|]. split; [done|]. split; [done|].
      intros r Hf Hr1 Hr2. apply (Hall (r.1 - bx)); [apply elem_of_seqZ; lia|done|lia|done].
  - exists act'. split; [exact E|]. split; [done|]. intros r Hf Hr1 Hr2.
    apply (Hall (r.2 - by_)); [apply elem_of_seqZ; lia|done|done|lia].
Qed.

Lemma block_active_spec pas fr :
  zlen pas = n_bx * n_by → zlen fr = n_bx * n_by →
  ∃ act, block_active pas fr n_bx n_by rx ry (n_bx * n_by) = Ok act ∧ zlen act = n_bx * n_by ∧
    ∀ r q, flag_b pas r → flag_b fr q → Z.abs (r.1 - q.1) ≤ rx → Z.abs (r.2 - q.2) ≤ ry →
      flag_b act r.
Proof.
  intros Hp Hf. pose proof board_dims as (? & ? & ?). unfold block_active, for_range.
  set (near := fun (act' : list bool) q => flag_b fr q → ∀ r, flag_b pas r →
    Z.abs (r.1 - q.1) ≤ rx → Z.abs (r.2 - q.2) ≤ ry → flag_b act' r).
  destruct (for_each_mono (fun act => zlen act = n_bx * n_by) grows
    (fun by_ act' => ∀ bx, 0 ≤ bx < n_bx → near act' (bx, by_)) (seqZ 0 (n_by - 0))
    (fun by_ => for_each (seqZ 0 (n_bx - 0)) (fun bx active =>
      f ← vget fr (bidx n_bx bx by_);
      if negb f then Ok active else activate pas n_bx n_by rx ry bx by_ active))
    (vec_repeat false (n_bx * n_by))) as (act & E & Hl & _ & Hall); [typeclasses eauto| | | |].
  - intros by_ a b Hn Hg bx Hbx Hq r ? ? ?. eapply flag_b_grows; [exact Hg|]. by apply (Hn bx).
  - rewrite zlen_repeat; [done|nia].
  - intros by_ a [Hy1 Hy2]%elem_of_seqZ Hla.
    destruct (for_each_mono (fun act => zlen act = n_bx * n_by) grows
      (fun bx act' => near act' (bx, by_)) (seqZ 0 (n_bx - 0))
      (fun bx active =>
        f ← vget fr (bidx n_bx bx by_);
        if negb f then Ok active else activate pas n_bx n_by rx ry bx by_ active) a)
      as (a' & E & Hl & Hg & Hall); [typeclasses eauto| |done| |].
    + intros bx c d Hn Hg Hq r ? ? ?. eapply flag_b_grows; [exact Hg|]. by apply Hn.
    + intros bx c [Hx1 Hx2]%elem_of_seqZ Hlc.
      assert (in_blocks (bx, by_)) as Hin by (split; cbn; lia).
      destruct (get_flag fr _ _ Hf Hin) as (f & -> & Hiff). rewrite ok_bind. destruct f; cbn [negb].
      * destruct (activate_spec pas bx by_ c Hp Hlc Hin) as (c' & -> & Hg & Hc).
        exists c'. split; [done|]. split; [destruct Hg; lia|]. split; [done|]. intros _ r. apply Hc.
      * exists c. split; [done|]. split; [done|]. split; [reflexivity|]. intros Hq. by apply Hiff in Hq.
    + exists a'. split; [exact E|]. split; [done|]. split; [done|].
      intros bx Hbx. apply Hall, elem_of_seqZ. lia.
  - exists act. split; [exact E|]. split; [done|]. intros r [qx qy] Hr Hq. pose proof Hq as [[? ?] _].
    cbn in *. eapply (Hall qy); [apply elem_of_seqZ; lia|done|done|done].
Qed.
End board.

(** ** One pass *)

Section pass.
Context (vi0 : ValueIterator) (Hwf0 : wf_vi vi0) (block n_bx n_by n : Z).
Let nx := vi_cell_num_x vi0.
Let ny := vi_cell_num_y vi0.
Let nt := vi_cell_num_t vi0.
Context (Hb : 0 < block < 2 ^ 30) (Hn : 0 < n).
Context (Hnbx : n_bx = div_ceil nx block) (Hnby : n_by = div_ceil ny block).
Context (Hnx30 : nx < 2 ^ 30) (Hny30 : ny < 2 ^ 30).

Definition moved_b (next : list bool) (changed : bool) (r : Z * Z) : Prop :=
  changed = true ∧ flag_b n_bx n_by next r.

(** A block of the pass, [(bx, by)]. *)
Definition pass_block (active : list bool) (bx by_ : Z)
    (acc : ValueIterator * Z * list bool * bool) : res (ValueIterator * Z * list bool * bool) :=
  let '(v, updates, next, any_changed) := acc in
  a ← vget active (bidx n_bx bx by_);
  if negb a then Ok acc else
  r ← update_block v (i32_mul bx block) (i32_sub (Z.min (i32_mul (i32_add bx 1) block) nx) 1)
        (i32_mul by_ block) (i32_sub (Z.min (i32_mul (i32_add by_ 1) block) ny) 1) n;
  let '(v, u, changed) := r in
  if (changed : bool) then
    next ← vset next (bidx n_bx bx by_) true;
    Ok (v, u64_add updates u, next, true)
  else Ok (v, u64_add updates u, next, any_changed).

Lemma extent_i32 k m nb : nb = div_ceil m block → 0 < m < 2 ^ 30 → 0 ≤ k < nb →
  i32_mul k block = k * block ∧
  i32_sub (Z.min (i32_mul (i32_add k 1) block) m) 1 = Z.min ((k + 1) * block) m - 1.
Proof.
  intros -> Hm Hk. pose proof (div_ceil_bounds m block ltac:(lia)).
  assert (k * block < m) by nia. assert (0 ≤ k * block) by nia.
  rewrite (i32_mul_small k) by (unfold in_i32; lia). split; [done|].
  rewrite i32_add_small by (unfold in_i32; nia).
  assert ((k + 1) * block = k * block + block) by ring.
  rewrite i32_mul_small by (unfold in_i32; lia). apply i32_sub_small. unfold in_i32. lia.
Qed.

Lemma pass_block_spec (prev : Z * Z → Prop) (todo : Z → Prop) active bx by_ v u next ch :
  zlen active = n_bx * n_by → zlen next = n_bx * n_by → in_blocks n_bx n_by (bx, by_) →
  (∀ i, todo i → 0 ≤ i < nx * ny * nt) →
  (∀ i, todo i → flag_b n_bx n_by active (blk vi0 block i)) →
  round_inv (blk vi0 block) vi0 prev todo (moved_b next ch) v →
  ∃ v' u' next' ch', pass_block active bx by_ (v, u, next, ch) = Ok (v', u', next', ch') ∧
    zlen next' = n_bx * n_by ∧
    round_inv (blk vi0 block) vi0 prev (fun i => todo i ∧ blk vi0 block i ≠ (bx, by_))
      (moved_b next' ch') v'.
Proof.
  intros Hla Hln Hin Hrange Hact Hri. pose proof Hin as [Hx Hy]. cbn in Hx, Hy.
  pose proof Hwf0 as [[Hx0 Hy0 Ht0 _] _ _]. unfold pass_block.
  destruct (get_flag vi0 Hwf0 block n_bx n_by ltac:(lia) Hnbx Hnby active bx by_ Hla Hin)
    as (a & -> & Ha).
  rewrite ok_bind. destruct a; cbn [negb].
  2: { exists v, u, next, ch. split; [done|]. split; [done|].
       eapply round_inv_weaken; [exact Hri|done| |done]. intros i Hi. split; [done|].
       intros E. apply Hact in Hi. rewrite E in Hi. by apply Ha in Hi. }
  destruct (extent_i32 bx nx n_bx Hnbx) as [-> ->]; [lia|lia|].
  destruct (extent_i32 by_ ny n_by Hnby) as [-> ->]; [lia|lia|].
  destruct (update_block_spec vi0 Hwf0 block prev todo (moved_b next ch) bx by_ n v)
    as (v1 & u1 & c1 & E & Hri1); [lia|lia|lia|lia|done|done|].
  fold nx ny in E. rewrite E, ok_bind. destruct c1.
  - destruct (set_flag vi0 Hwf0 block n_bx n_by ltac:(lia) Hnbx Hnby next bx by_ Hln Hin)
      as (next' & -> & Hg & Hf).
    rewrite ok_bind. do 4 eexists. split; [done|]. split; [destruct Hg; lia|].
    eapply round_inv_weaken; [exact Hri1|done|done|].
    intros r [[_ Hm]|[_ ->]]; (split; [done|]); [by eapply flag_b_grows|done].
  - do 4 eexists. split; [done|]. split; [done|].
    eapply round_inv_weaken; [exact Hri1|done|done|]. intros r [?|[? _]]; done.
Qed.

Lemma block_pass_spec (prev : Z * Z → Prop) active vi updates :
  zlen active = n_bx * n_by →
  round_inv (blk vi0 block) vi0 prev
    (fun i => 0 ≤ i < nx * ny * nt ∧ flag_b n_bx n_by active (blk vi0 block i)) (fun _ => False) vi →
  ∃ vi' u next ch, block_pass active block n n_bx n_by (n_bx * n_by) vi updates
                     = Ok (vi', u, next, ch) ∧ zlen next = n_bx * n_by ∧
    round_inv (blk vi0 block) vi0 prev (fun _ => False) (moved_b next ch) vi'.
Proof.
  intros Hla Hinv. destruct (board_dims vi0 Hwf0 block n_bx n_by ltac:(lia) Hnbx Hnby) as (? & ? & ?).
  destruct (inplace_fields vi0 vi (ri_inplace _ _ _ _ _ _ Hinv)) as (Ex & Ey & _ & _ & _).
  unfold block_pass. rewrite Ex, Ey. fold nx ny.
  destruct (for_range_inv (fun by_ (acc : ValueIterator * Z * list bool * bool) =>
    let '(v, _, next, ch) := acc in zlen next = n_bx * n_by ∧
    round_inv (blk vi0 block) vi0 prev (fun i => (0 ≤ i < nx * ny * nt ∧
      flag_b n_bx n_by active (blk vi0 block i)) ∧ by_ ≤ (blk vi0 block i).2) (moved_b next ch) v)
    0 n_by (fun by_ => for_range 0 n_bx (fun bx => pass_block active bx by_))
    (vi, updates, vec_repeat false (n_bx * n_by), false)) as ([[[v u] next] ch] & E & Hln & Hri).
  - lia.
  - split; [apply zlen_repeat; nia|]. eapply round_inv_weaken; [exact Hinv|done| |done].
    intros i [Hi Hf]. split; [done|]. destruct Hf as [[? ?] _]. lia.
  - intros by_ [[[v u] next] ch] Hby [Hln Hri].
    destruct (for_range_inv (fun bx (acc : ValueIterator * Z * list bool * bool) =>
      let '(v, _, next, ch) := acc in zlen next = n_bx * n_by ∧
      round_inv (blk vi0 block) vi0 prev (fun i => (0 ≤ i < nx * ny * nt ∧
        flag_b n_bx n_by active (blk vi0 block i)) ∧ by_ ≤ (blk vi0 block i).2 ∧
        ((blk vi0 block i).2 = by_ → bx ≤ (blk vi0 block i).1)) (moved_b next ch) v)
      0 n_bx (fun bx => pass_block active bx by_) (v, u, next, ch))
      as ([[[v' u'] next'] ch'] & E & Hln' & Hri').
    + lia.
    + split; [done|]. eapply round_inv_weaken; [exact Hri|done| |done].
      intros i [[Hi Hf] ?]. split; [done|]. split; [done|]. destruct Hf as [[? ?] _]. lia.
    + intros bx [[[w x] nxt] c] Hbx [Hl Hr].
      destruct (pass_block_spec prev (fun i => (0 ≤ i < nx * ny * nt ∧
          flag_b n_bx n_by active (blk vi0 block i)) ∧ by_ ≤ (blk vi0 block i).2 ∧
          ((blk vi0 block i).2 = by_ → bx ≤ (blk vi0 block i).1)) active bx by_ w x nxt c Hla Hl)
        as (w' & x' & nxt' & c' & -> & Hl' & Hr');
        [split; cbn; lia|by intros i [[? ?] ?]|by intros i [[? ?] ?]|exact Hr|].
      eexists. split; [done|]. split; [done|]. eapply round_inv_weaken; [exact Hr'|done| |done].
      intros i [(Hi & Hge & Hx) Hne]. split; [done|]. split; [done|]. intros E.
      specialize (Hx E). destruct (blk vi0 block i) as [p q]. cbn in *.
      assert (p ≠ bx) by (intros ->; by subst). lia.
    + exists (v', u', next', ch'). split; [exact E|]. split; [done|].
      eapply round_inv_weaken; [exact Hri'|done| |done]. intros i (Hi & Hge & Hx).
      split; [done|]. destruct Hi as [_ [[? ?] _]]. lia.
  - exists v, u, next, ch. split; [exact E|]. split; [done|].
    eapply round_inv_weaken; [exact Hri|done| |done]. intros i [[_ [[? ?] _]] ?]. lia.
Qed.
End pass.

(** ** The loop *)

Section solve.
Context {S : Type} (obs : SolveObserver S) (max_iter : Z) (vi0 : ValueIterator).
Context (Hwf0 : wf_vi vi0) (Hmax : 0 ≤ max_iter < 2 ^ 32) (block n : Z).
Context (Hb : 0 < block < 2 ^ 30) (Hn : 0 < n).
Context (Hx30 : vi_cell_num_x vi0 < 2 ^ 30) (Hy30 : vi_cell_num_y vi0 < 2 ^ 30).
Context (mx my mt : Z) (Hmx : 1 ≤ mx < 2 ^ 30) (Hmy : 1 ≤ my < 2 ^ 30).
Context (Hcov : ∀ a, a ∈ vi_actions vi0 → action_covered (vi_cell_num_t vi0) a (mx, my, mt)).
Let n_bx := div_ceil (vi_cell_num_x vi0) block.
Let n_by := div_ceil (vi_cell_num_y vi0) block.

(** Every block with a free cell is marked passable. *)
Definition passable_ok (pas : list bool) : Prop :=
  zlen pas = n_bx * n_by ∧ ∀ i s, zget (vi_states vi0) i = Some s → s_free s = true →
    flag_b n_bx n_by pas (blk vi0 block i).

Lemma block_loop_spec fuel pas vi fr updates iters p o (prev : Z * Z → Prop) (todo : Z → Prop) :
  0 ≤ iters ≤ max_iter → max_iter < Z.of_nat fuel + iters →
  passable_ok pas → zlen fr = n_bx * n_by → (∀ i, ¬ todo i) →
  round_inv (blk vi0 block) vi0 prev todo (flag_b n_bx n_by fr) vi →
  ∃ vi' o' out, block_loop obs max_iter block n n_bx n_by (div_ceil mx block) (div_ceil my block)
      (n_bx * n_by) pas fuel vi fr updates iters p o = Ok (vi', o', out) ∧
    solve_ok vi0 max_iter vi' out.
Proof.
  intros Hit Hf [Hpl Hpas]. revert vi fr updates iters p o prev todo Hit Hf.
  induction fuel as [|fuel IH]; intros vi fr updates iters p o prev todo Hit Hf Hfr Hnone Hri; [lia|].
  pose proof Hwf0 as [Hd Hst0 Ha]. pose proof Hd as [Hx0 Hy0 Ht0 _]. cbn [block_loop].
  assert (∀ u (v : ValueIterator) fl pv, round_inv (blk vi0 block) vi0 pv (fun _ => False) fl v →
    (∀ r, ¬ fl r) → 0 ≤ u ≤ max_iter → ∀ w, solve_ok vi0 max_iter v (running u w true)) as Hdone.
  { intros u v fl pv Hv Hfl Hu w. split; [apply Hv|]. split; [apply Hv|]. split; [cbn; lia|].
    intros _. apply (round_inv_fixed_point (blk vi0 block) vi0 pv (fun _ => False)); [|tauto].
    eapply round_inv_weaken; [exact Hv|done|done|]. intros r Hr. by apply Hfl in Hr. }
  destruct (any fr) eqn:Eany; cbn [negb].
  2: { do 3 eexists. split; [done|]. eapply Hdone; [|  |lia].
       - eapply round_inv_weaken; [exact Hri|done| |done]. intros i Hi. by apply Hnone in Hi.
       - intros r [_ Hr]. by eapply any_false. }
  rewrite Z.geb_leb. destruct (Z.leb_spec max_iter iters).
  { do 3 eexists. split; [done|]. split; [apply Hri|]. split; [apply Hri|]. split; [cbn; lia|done]. }
  rewrite u32_add_small by (unfold in_u32; lia). cbv zeta.
  pose proof (div_ceil_range mx block ltac:(lia) ltac:(lia)) as Hrx.
  pose proof (div_ceil_range my block ltac:(lia) ltac:(lia)) as Hry.
  destruct (block_active_spec vi0 Hwf0 block n_bx n_by ltac:(lia) eq_refl eq_refl
    (div_ceil mx block) (div_ceil my block) ltac:(lia) ltac:(lia) Hx30 Hy30 pas fr Hpl Hfr)
    as (act & -> & Hal & Hact). rewrite ok_bind.
  destruct (inplace_fields vi0 vi (ri_inplace _ _ _ _ _ _ Hri)) as (Ex & Ey & Et & Ea & El).
  destruct (block_pass_spec vi0 Hwf0 block n_bx n_by n Hb Hn eq_refl eq_refl Hx30 Hy30
    (flag_b n_bx n_by fr) act vi updates Hal) as (vi1 & u1 & nf & ch & -> & Hnl & Hri1).
  - eapply round_begin; [exact Hri|exact Hnone|]. intros i s j Hi Hu Hj Hm.
    pose proof (wv_states _ (ri_wf _ _ _ _ _ _ Hri)) as Hst. rewrite Ex, Ey, Et in Hst.
    destruct (reads_near _ _ _ _ (mx, my, mt) Hd Ha Hcov (vi_states vi) i s j Hst Hi Hj)
      as (_ & Hdx & Hdy & _). cbn in Hdx, Hdy.
    assert (0 ≤ i < zlen (vi_states vi)) as Hir by (by eapply zget_Some_lt).
    rewrite (ws_len _ _ _ _ Hst) in Hir. split; [exact Hir|].
    eapply Hact; [|exact Hm|..]; [|cbn; apply div_near; lia..].
    destruct (zget_lt (vi_states vi0) i) as [s0 Hs0]; [rewrite (ws_len _ _ _ _ Hst0); lia|].
    eapply Hpas; [exact Hs0|].
    pose proof (proj2 (ri_inplace _ _ _ _ _ _ Hri) i) as Hsame. rewrite Hi, Hs0 in Hsame.
    cbn in Hsame. injection Hsame as _ _ _ _ _ Efree _. rewrite <- Efree.
    unfold updatable in Hu. by destruct (s_free s).
  - rewrite ok_bind. destruct ch; cbn [negb].
    + pose proof (at_boundary_out obs vi1 (iters + 1) u1 p o) as Hbd.
      destruct (at_boundary obs vi1 (iters + 1) u1 p o) as [[p' o'] [out|]].
      * destruct (Hbd out eq_refl) as [Hnc Hi]. do 3 eexists. split; [done|].
        split; [apply Hri1|]. split; [apply Hri1|]. split; [lia|]. by rewrite Hnc.
      * eapply (IH vi1 nf u1 (iters + 1) p' o' _ (fun _ => False)); [lia|lia|done|tauto|].
        eapply round_inv_weaken; [exact Hri1|done|done|]. by intros r [_ ?].
    + do 3 eexists. split; [done|]. eapply Hdone; [exact Hri1| |lia]. by intros r [? _].
Qed.
End solve.

Lemma block_refine_sized_spec {S} (obs : SolveObserver S) block n max_iter vi o mx my mt :
  wf_vi vi → 0 ≤ max_iter < 2 ^ 32 → 0 < block < 2 ^ 30 → 0 < n →
  vi_cell_num_x vi < 2 ^ 30 → vi_cell_num_y vi < 2 ^ 30 →
  displacement vi = Ok (mx, my, mt) → mx < 2 ^ 30 → my < 2 ^ 30 →
  ∃ vi' o' out, block_refine_sized obs block n max_iter vi o = Ok (vi', o', out) ∧
    solve_ok vi max_iter vi' out.
Proof.
  intros Hwf Hmax Hb Hn Hx Hy Hdisp Hmx Hmy.
  destruct (displacement_spec vi Hwf) as (mx' & my' & mt' & E & H1 & H2 & H3 & Hcov).
  rewrite Hdisp in E. injection E as <- <- <-. pose proof Hwf as [[Hx0 Hy0 Ht0 _] _ _].
  unfold block_refine_sized. rewrite !ceil_div_ok by lia. rewrite !ok_bind, Hdisp, ok_bind.
  cbv beta iota. rewrite !ceil_div_ok by lia. rewrite !ok_bind.
  rewrite (nb_ok vi Hwf block) by (done || lia).
  destruct (block_marks_spec vi Hwf block _ _ ltac:(lia) eq_refl eq_refl)
    as (pas & fr & -> & Hpl & Hfl & Hmarks). rewrite ok_bind. cbn [fst snd].
  eapply (block_loop_spec obs max_iter vi Hwf Hmax block n Hb Hn Hx Hy mx my mt);
    [lia|lia|done|lia|lia| |done| |].
  - split; [done|]. intros i s Hi Hfree. by eapply (Hmarks i s).
  - intros i Hi. exact Hi.
  - apply round_inv_start; [done|]. intros j s Hj Hlt. by eapply (Hmarks j s).
Qed.

(** ** The levels of the pyramid *)

Lemma displacement_inplace vi0 vi : inplace vi0 vi → displacement vi = displacement vi0.
Proof.
  intros Hip. destruct (inplace_fields vi0 vi Hip) as (_ & _ & Et & Ea & _).
  unfold displacement. by rewrite Et, Ea.
Qed.

Lemma pyramid_sizes_range m b : b ∈ pyramid_sizes m → 8 ≤ b ≤ 64.
Proof.
  unfold pyramid_sizes. intros [Hb|Hb]%elem_of_app.
  - apply list_elem_of_filter in Hb as [_ Hb].
    repeat (apply elem_of_cons in Hb as [->|Hb]; [lia|]). by apply elem_of_nil in Hb.
  - apply list_elem_of_singleton in Hb. subst. unfold FINEST. lia.
Qed.

(** A field some level of the schedule converged on. *)
Definition level_fixed_point (vi0 vi : ValueIterator) : Prop :=
  ∃ vi1, wf_vi vi1 ∧ inplace vi0 vi1 ∧ active_fixed_point vi1 vi.

Section pyramid.
Context {S : Type} (obs : SolveObserver S) (max_iter : Z) (vi0 : ValueIterator).
Context (Hmax : 0 ≤ max_iter < 2 ^ 32 - 4) (mx my mt : Z).
Context (Hx30 : vi_cell_num_x vi0 < 2 ^ 30) (Hy30 : vi_cell_num_y vi0 < 2 ^ 30).
Context (Hdisp : displacement vi0 = Ok (mx, my, mt)) (Hmx : mx < 2 ^ 30) (Hmy : my < 2 ^ 30).

Lemma pyramid_levels_spec sizes vi o iters updates conv :
  (∀ b, b ∈ sizes → 8 ≤ b ≤ 64) → wf_vi vi → inplace vi0 vi →
  0 ≤ iters → (iters = 0 ∨ iters < max_iter) → (conv = true → level_fixed_point vi0 vi) →
  ∃ vi' o' out, pyramid_levels obs max_iter sizes vi o iters updates conv = Ok (vi', o', out) ∧
    wf_vi vi' ∧ inplace vi0 vi' ∧ so_iters out ≤ max_iter + COARSE_BUDGET ∧
    (so_converged out = true → level_fixed_point vi0 vi').
Proof.
  revert vi o iters updates conv.
  induction sizes as [|b sizes IH]; intros vi o iters updates conv Hs Hwf Hip Hi0 Hi Hc; cbn [pyramid_levels].
  { do 3 eexists. split; [done|]. split; [done|]. split; [done|]. split; [|exact Hc].
    unfold COARSE_BUDGET. cbn. lia. }
  set (budget := if match sizes with [] => true | _ => false end then _ else _).
  assert (0 ≤ budget ≤ Z.max (max_iter - iters) COARSE_BUDGET) as Hbud.
  { unfold budget, u32_sat_sub, COARSE_BUDGET. destruct sizes; lia. }
  unfold COARSE_BUDGET in Hbud.
  destruct (inplace_fields vi0 vi Hip) as (Ex & Ey & _).
  destruct (block_refine_sized_spec (OffsetObserver obs iters updates) b LOCAL_SWEEPS budget vi o
    mx my mt) as (vi1 & o1 & out & -> & Hwf1 & Hip1 & Hit1 & Hfix).
  { done. } { lia. } { specialize (Hs b ltac:(left)). lia. } { done. } { lia. } { lia. }
  { by rewrite (displacement_inplace vi0). } { done. } { done. }
  rewrite ok_bind. cbv zeta.
  assert (inplace vi0 vi1) as Hip01 by by eapply inplace_trans.
  assert (so_converged out = true → level_fixed_point vi0 vi1) as Hlev.
  { intros Ho. exists vi. split; [done|]. split; [done|]. by apply Hfix. }
  assert (u32_sat_add iters (so_iters out) ≤ max_iter + 4) as Hsum.
  { unfold u32_sat_add, U32_MAX. lia. }
  destruct (so_stopped out || so_cancelled out).
  { do 3 eexists. split; [done|]. split; [done|]. split; [done|]. by split. }
  rewrite Z.geb_leb. destruct (Z.leb_spec max_iter (u32_sat_add iters (so_iters out))).
  { do 3 eexists. split; [done|]. split; [done|]. split; [done|]. by split. }
  destruct sizes as [|b' sizes'].
  { cbn [pyramid_levels]. do 3 eexists. split; [done|]. split; [done|]. split; [done|].
    split; [done|exact Hlev]. }
  apply IH; [|done|done|unfold u32_sat_add, U32_MAX; lia|by right|done].
  intros b0 Hb0. apply Hs. by right.
Qed.
End pyramid.

(** ** Properties *)

Lemma block_refine_solve_spec {S} (obs : SolveObserver S) max_iter vi o mx my mt :
  wf_vi vi → 0 ≤ max_iter < 2 ^ 32 →
  vi_cell_num_x vi < 2 ^ 30 → vi_cell_num_y vi < 2 ^ 30 →
  displacement vi = Ok (mx, my, mt) → mx < 2 ^ 30 → my < 2 ^ 30 →
  ∃ vi' o' out, block_refine_solve_observed obs max_iter vi o = Ok (vi', o', out) ∧
    solve_ok vi max_iter vi' out.
Proof.
  intros. unfold block_refine_solve_observed, BLOCK, LOCAL_SWEEPS.
  eapply block_refine_sized_spec; try done; lia.
Qed.

(** C24: [block_refine] terminates without a panic after at most [max_iter]
    passes on any well-formed field whose extents and displacement leave the
    block arithmetic within [i32]; on convergence every updatable cell holds
    exactly the value and the action an update would store, or has only ever
    read unreached cells, whatever the block size. *)
Theorem block_refine_fixed_point {S} (obs : SolveObserver S) max_iter vi o mx my mt :
  wf_vi vi → 0 ≤ max_iter < 2 ^ 32 →
  vi_cell_num_x vi < 2 ^ 30 → vi_cell_num_y vi < 2 ^ 30 →
  displacement vi = Ok (mx, my, mt) → mx < 2 ^ 30 → my < 2 ^ 30 →
  ∃ vi' o' out, block_refine_solve_observed obs max_iter vi o = Ok (vi', o', out) ∧
    solve_ok vi max_iter vi' out.
Proof. apply block_refine_solve_spec. Qed.

Lemma block_refine_fixed_point_witness :
  ∃ vi' o' out, block_refine_solve_observed NullObserver 10 (corridor 10) () = Ok (vi', o', out) ∧
    solve_ok (corridor 10) 10 vi' out.
Proof.
  apply (block_refine_fixed_point NullObserver 10 (corridor 10) () 1 1 0);
    [apply check_vi_ok; reflexivity|lia|reflexivity|reflexivity|reflexivity|lia|lia].
Defined.

Example block_refine_run :
  ∃ vi' o' out, block_refine_solve_observed NullObserver 10 (corridor 10) () = Ok (vi', o', out)
    ∧ so_converged out = true
    ∧ s_total_cost <$> vi_states vi' = (fun i => i * PROB_BASE) <$> seqZ 0 10.
Proof. vm_compute. do 3 eexists. split; [reflexivity|]. split; reflexivity. Qed.

Lemma pyramid_sweep_solve_spec {S} (obs : SolveObserver S) max_iter vi o mx my mt :
  wf_vi vi → 0 ≤ max_iter < 2 ^ 32 - 4 →
  vi_cell_num_x vi < 2 ^ 30 → vi_cell_num_y vi < 2 ^ 30 →
  displacement vi = Ok (mx, my, mt) → mx < 2 ^ 30 → my < 2 ^ 30 →
  ∃ vi' o' out, pyramid_sweep_solve_observed obs max_iter vi o = Ok (vi', o', out) ∧
    wf_vi vi' ∧ inplace vi vi' ∧ so_iters out ≤ max_iter + COARSE_BUDGET ∧
    (so_converged out = true → level_fixed_point vi vi').
Proof.
  intros Hwf Hmax Hx Hy Hd Hmx Hmy. unfold pyramid_sweep_solve_observed.
  eapply (pyramid_levels_spec obs max_iter vi Hmax); try done; [|apply inplace_refl|by left].
  intros b. apply pyramid_sizes_range.
Qed.

(** [pyramid_sweep] terminates without a panic; its iteration count stays
    within [max_iter] plus one coarse budget, and when it reports convergence
    the field is a Bellman fixed point of the level that converged. *)
Theorem pyramid_sweep_fixed_point {S} (obs : SolveObserver S) max_iter vi o mx my mt :
  wf_vi vi → 0 ≤ max_iter < 2 ^ 32 - 4 →
  vi_cell_num_x vi < 2 ^ 30 → vi_cell_num_y vi < 2 ^ 30 →
  displacement vi = Ok (mx, my, mt) → mx < 2 ^ 30 → my < 2 ^ 30 →
  ∃ vi' o' out, pyramid_sweep_solve_observed obs max_iter vi o = Ok (vi', o', out) ∧
    wf_vi vi' ∧ inplace vi vi' ∧ so_iters out ≤ max_iter + COARSE_BUDGET ∧
    (so_converged out = true → level_fixed_point vi vi').
Proof. apply pyramid_sweep_solve_spec. Qed.

Lemma pyramid_sweep_fixed_point_witness :
  ∃ vi' o' out, pyramid_sweep_solve_observed NullObserver 10 (corridor 20) () = Ok (vi', o', out) ∧
    wf_vi vi' ∧ inplace (corridor 20) vi' ∧ so_iters out ≤ 10 + COARSE_BUDGET ∧
    (so_converged out = true → level_fixed_point (corridor 20) vi').
Proof.
  apply (pyramid_sweep_fixed_point NullObserver 10 (corridor 20) () 1 1 0);
    [apply check_vi_ok; reflexivity|lia|reflexivity|reflexivity|reflexivity|lia|lia].
Defined.

Example pyramid_sweep_run :
  ∃ vi' o' out, pyramid_sweep_solve_observed NullObserver 10 (corridor 20) () = Ok (vi', o', out)
    ∧ so_converged out = true
    ∧ s_total_cost <$> vi_states vi' = (fun i => i * PROB_BASE) <$> seqZ 0 20.
Proof. vm_compute. do 3 eexists. split; [reflexivity|]. split; reflexivity. Qed.

(** The coarse levels run even when [max_iter] leaves no room for them. *)
Lemma pyramid_sweep_over_budget :
  ∃ vi' o' out, pyramid_sweep_solve_observed NullObserver 0 (corridor 20) () = Ok (vi', o', out)
    ∧ so_iters out = 2 ∧ so_converged out = true.
Proof. vm_compute. do 3 eexists. split; [reflexivity|]. split; reflexivity. Qed.
