(* ===== verification/Chaotic.v ===== *)
(** * Chaotic iteration of a monotone backup

    The theory behind the parallel solvers (frontier2d_par, async_gs_engine,
    frontier2d_fused): in a round every candidate cell is rewritten once with
    the backup of values that other threads are rewriting at the same time.
    A valuation is a function from cells to costs; [T V i] is the backup of
    cell [i]; [ev Vr V i x] says that [x] may result from evaluating [i] while
    the values move from [Vr] (at the start of the round) to [V].  The results hold for every schedule. *)

From Stdlib Require Import ZArith Lia.
From stdpp Require Import base list relations numbers.
From S2P Require Import Prelude.

Definition valuation : Type := Z → Z.

Definition upd (V : valuation) (i x : Z) : valuation := fun j => if decide (j = i) then x else V j.

Section chaotic.
Context (n P MAX : Z) (T : valuation → Z → Z) (act : Z → Prop) (reads : Z → list Z).
Context (ev : valuation → valuation → Z → Z → Prop).

Definition cell (j : Z) : Prop := 0 ≤ j < n.

Definition below (U V : valuation) : Prop := ∀ j, cell j → U j ≤ V j.

(** Values that no sum of the backup wraps on. *)
Definition dom (V : valuation) : Prop := ∀ j, cell j → V j = MAX ∨ 0 ≤ V j ≤ n * P.

Definition reached (V : valuation) : Z := zlen (filter (fun j => V j < MAX) (seqZ 0 n)).

(** What the wave front keeps: each reached cell added at most [P]. *)
Definition bounded (V : valuation) : Prop :=
  ∀ j, cell j → V j = MAX ∨ (0 ≤ V j < MAX ∧ V j ≤ reached V * P).

Definition super (V : valuation) : Prop := ∀ i, act i → T V i ≤ V i.
Definition fixed (V : valuation) : Prop := ∀ i, act i → V i = T V i.

(** One backup: its result is one of those the loads allow, each of them having
    returned the value of the start of the round or the current one. *)
Definition eval1 (Vr V : valuation) (i : Z) (V' : valuation) : Prop :=
  ∃ x, ev Vr V i x ∧ V' = upd V i x.

(** The backups of a round, in the order of their stores. *)
Inductive evals (Vr : valuation) : list Z → valuation → valuation → Prop :=
| evals_nil V : evals Vr [] V V
| evals_cons i l V V1 V2 : eval1 Vr V i V1 → evals Vr l V1 V2 → evals Vr (i :: l) V V2.

(** A round evaluates some active cells, each once. *)
Definition round (V V' : valuation) : Prop :=
  ∃ l, NoDup l ∧ (∀ i, i ∈ l → act i) ∧ evals V l V V'.

Context (HP : 0 ≤ P) (Hn : 0 ≤ n) (HMAX : 0 < MAX).
(** ** Counting the reached cells *)

Lemma reached_range V : 0 ≤ reached V ≤ n.
Proof.
  unfold reached, zlen. pose proof (length_filter (fun j => V j < MAX) (seqZ 0 n)) as H.
  rewrite length_seqZ in H. lia.
Qed.

Lemma filter_length_mono (U V : valuation) l :
  (∀ j, j ∈ l → U j < MAX → V j < MAX) →
  zlen (filter (fun j => U j < MAX) l) ≤ zlen (filter (fun j => V j < MAX) l).
Proof.
  unfold zlen. induction l as [|j l IH]; intros H; [done|]. rewrite !list.filter_cons.
  specialize (IH ltac:(intros k Hk; apply H; by right)). pose proof (H j ltac:(left)).
  repeat case_decide; cbn [length]; try lia.
Qed.

Lemma reached_mono U V : below V U → reached U ≤ reached V.
Proof.
  intros Hb. apply filter_length_mono. intros j Hj%elem_of_seqZ Hu.
  specialize (Hb j ltac:(unfold cell; lia)). lia.
Qed.

Lemma reached_new V i x : cell i → MAX ≤ V i → x < MAX → reached (upd V i x) = reached V + 1.
Proof.
  intros Hi Hv Hx. unfold reached.
  assert (∀ l, NoDup l → zlen (filter (fun j => upd V i x j < MAX) l)
    = zlen (filter (fun j => V j < MAX) l) + (if decide (i ∈ l) then 1 else 0)) as H.
  { induction l as [|j l IH]; intros Hnd; [done|].
    apply list.NoDup_cons in Hnd as [Hj Hnd]. specialize (IH Hnd).
    rewrite !list.filter_cons. destruct (decide (j = i)) as [->|Hne].
    - assert (upd V i x i = x) as -> by (unfold upd; by rewrite decide_True).
      destruct (decide (x < MAX)); [|lia]. destruct (decide (V i < MAX)); [lia|].
      destruct (decide (i ∈ i :: l)) as [_|Hn']; [|exfalso; apply Hn'; left].
      destruct (decide (i ∈ l)); [done|]. unfold zlen in *. cbn [length]. lia.
    - assert (upd V i x j = V j) as -> by (unfold upd; by rewrite decide_False).
      assert ((if decide (i ∈ j :: l) then 1 else 0) = (if decide (i ∈ l) then 1 else 0)) as ->.
      { destruct (decide (i ∈ j :: l)) as [Hc|Hc], (decide (i ∈ l)) as [Hin|Hin]; try done; exfalso.
        - by apply elem_of_cons in Hc as [->|?].
        - apply Hc. by right. }
      destruct (decide (V j < MAX)); unfold zlen in *; cbn [length]; lia. }
  rewrite H by apply NoDup_seqZ. rewrite decide_True; [done|].
  apply elem_of_seqZ. unfold cell in Hi. lia.
Qed.

Context (act_cell : ∀ i, act i → cell i).
Context (reads_cell : ∀ i j, j ∈ reads i → cell j).
Context (T_mono : ∀ U V i, dom U → dom V → below U V → act i → T U i ≤ T V i).
Context (T_range : ∀ V i, dom V → act i → 0 ≤ T V i ≤ MAX).
Context (T_reads : ∀ U V i, act i → (∀ j, j ∈ reads i → U j = V j) → T U i = T V i).
Context (ev_bounds : ∀ Vr V i x, dom Vr → dom V → below V Vr → act i → ev Vr V i x →
  T V i ≤ x ≤ T Vr i).
Context (ev_step : ∀ Vr V i x b, dom Vr → dom V → act i → 0 ≤ b → ev Vr V i x →
  (∀ j, cell j → Vr j < MAX → Vr j ≤ b) → (∀ j, cell j → V j < MAX → V j ≤ b) →
  x < MAX → x ≤ b + P).
Context (ev_reads : ∀ Vr V i x, act i → (∀ j, j ∈ reads i → V j = Vr j) → ev Vr V i x → x = T Vr i).

Lemma bounded_dom V : bounded V → dom V.
Proof.
  intros Hb j Hj. destruct (Hb j Hj) as [?|[? ?]]; [by left|right].
  pose proof (reached_range V). nia.
Qed.

(** ** One backup *)

Lemma upd_below V i x : x ≤ V i → below (upd V i x) V.
Proof. intros Hx j Hj. unfold upd. case_decide; [subst; done|lia]. Qed.

(** The values below [b] stay so through a backup that adds at most [P]. *)
Lemma bounded_upd Vr V i x :
  bounded Vr → bounded V → below V Vr → act i → ev Vr V i x → x ≤ V i → 0 ≤ x →
  bounded (upd V i x).
Proof.
  intros HbR Hb Hbel Hi Hx Hle H0. pose proof (upd_below V i x Hle) as Hbel'.
  pose proof (act_cell i Hi) as Hci.
  intros j Hj. unfold upd at 1 2 3 4. case_decide as E.
  - subst j. destruct (Z.lt_ge_cases x MAX) as [Hlt|].
    2: { left. destruct (Hb i Hci) as [?|[? ?]]; lia. }
    right. split; [lia|]. destruct (Hb i Hj) as [HVi|[? HVi]].
    + rewrite reached_new by (done || lia).
      assert (x ≤ reached V * P + P); [|lia]. pose proof (reached_range V).
      apply (ev_step Vr V i); [by apply bounded_dom|by apply bounded_dom|done|nia|done| | |done].
      * intros j Hj' Hlt'. destruct (HbR j Hj') as [?|[? ?]]; [lia|].
        pose proof (reached_mono _ _ Hbel). nia.
      * intros j Hj' Hlt'. destruct (Hb j Hj') as [?|[? ?]]; [lia|done].
    + pose proof (reached_mono _ _ Hbel'). nia.
  - destruct (Hb j Hj) as [?|[? ?]]; [by left|right]. split; [done|].
    pose proof (reached_mono _ _ Hbel'). nia.
Qed.

Lemma ev_le Vr V i x :
  bounded Vr → super Vr → bounded V → below V Vr → act i → V i = Vr i → ev Vr V i x →
  0 ≤ x ≤ V i ∧ T V i ≤ x.
Proof.
  intros HbR HsR Hb Hbel Hi Hsame Hx. pose proof (bounded_dom _ Hb) as Hd.
  pose proof (T_range V i Hd Hi).
  destruct (ev_bounds Vr V i x (bounded_dom _ HbR) Hd Hbel Hi Hx). specialize (HsR i Hi). lia.
Qed.

Lemma eval1_ok Vr V i V' :
  bounded Vr → super Vr → bounded V → super V → below V Vr → act i → V i = Vr i →
  eval1 Vr V i V' → bounded V' ∧ super V' ∧ below V' V.
Proof.
  intros HbR HsR Hb Hs Hbel Hi Hsame (x & Hx & ->).
  destruct (ev_le Vr V i x HbR HsR Hb Hbel Hi Hsame Hx) as [Hle HTx].
  pose proof (upd_below V i x ltac:(lia)) as Hbel'.
  assert (bounded (upd V i x)) as Hb' by (apply (bounded_upd Vr); done || lia).
  split; [done|]. split; [|done]. intros k Hk.
  pose proof (bounded_dom _ Hb') as Hd'. pose proof (bounded_dom _ Hb) as Hd.
  assert (T (upd V i x) k ≤ T V k) by by apply T_mono.
  unfold upd at 2. case_decide as E; [subst k; lia|]. specialize (Hs k Hk). lia.
Qed.

(** ** A round *)

Lemma evals_same Vr l V V' j : evals Vr l V V' → j ∉ l → V' j = V j.
Proof.
  induction 1 as [|i l V V1 V2 (x & _ & ->) _ IH]; intros Hj; [done|].
  rewrite IH by (intros ?; apply Hj; by right). unfold upd. rewrite decide_False; [done|].
  intros ->. apply Hj. left.
Qed.

Lemma evals_ok Vr l V V' :
  bounded Vr → super Vr → bounded V → super V → below V Vr → NoDup l → (∀ i, i ∈ l → act i) →
  (∀ i, i ∈ l → V i = Vr i) → evals Vr l V V' → bounded V' ∧ super V' ∧ below V' V.
Proof.
  intros HbR HsR Hb Hs Hbel Hnd Hact Hsame Hev. revert Hb Hs Hbel Hnd Hact Hsame.
  induction Hev as [V|i l V V1 V2 Hev1 Hev IH]; intros Hb Hs Hbel Hnd Hact Hsame.
  { split; [done|]. split; [done|]. intros j _. lia. }
  apply list.NoDup_cons in Hnd as [Hi Hnd].
  destruct (eval1_ok Vr V i V1) as (Hb1 & Hs1 & Hbel1); try done; [apply Hact; left|apply Hsame; left|].
  assert (below V1 Vr) by (intros j Hj; etransitivity; [by apply Hbel1|by apply Hbel]).
  destruct IH as (? & ? & Hbel2); try done.
  - intros k Hk. apply Hact. by right.
  - intros k Hk. destruct Hev1 as (x & _ & ->). unfold upd.
    rewrite decide_False by (intros ->; done). apply Hsame. by right.
  - split; [done|]. split; [done|]. intros j Hj. etransitivity; [by apply Hbel2|by apply Hbel1].
Qed.

Lemma round_ok V V' : bounded V → super V → round V V' → bounded V' ∧ super V' ∧ below V' V.
Proof.
  intros Hb Hs (l & Hnd & Hact & Hev). eapply evals_ok; try done. intros j _. lia.
Qed.

Lemma round_inactive V V' j : round V V' → ¬ act j → V' j = V j.
Proof. intros (l & _ & Hact & Hev) Hj. eapply evals_same; [exact Hev|]. intros ?. by apply Hj, Hact. Qed.

Lemma evals_snoc Vr l i V V1 V2 : evals Vr l V V1 → eval1 Vr V1 i V2 → evals Vr (l ++ [i]) V V2.
Proof.
  induction 1 as [V|k l V V1 V3 H1 _ IH]; intros H2; cbn.
  - econstructor; [exact H2|constructor].
  - econstructor; [exact H1|by apply IH].
Qed.

(** What a cell was given, when nothing it reads moved in the round. *)
Lemma evals_value Vr l V V' i :
  NoDup l → i ∈ l → (∀ k, k ∈ l → V k = Vr k) → (∀ k, k ∈ l → act k) → evals Vr l V V' →
  (∀ j, j ∈ reads i → V' j = Vr j ∧ V j = Vr j) → V' i = T Vr i.
Proof.
  intros Hnd Hi Hsame Hact Hev Hr. revert Hnd Hi Hsame Hact Hr.
  induction Hev as [V|k l V V1 V2 (x & Hx & ->) Hev IH]; intros Hnd Hi Hsame Hact Hr.
  { by apply elem_of_nil in Hi. }
  apply list.NoDup_cons in Hnd as [Hk Hnd].
  apply elem_of_cons in Hi as [->|Hi].
  - rewrite (evals_same _ _ _ _ k Hev Hk). unfold upd. rewrite decide_True by done.
    apply (ev_reads Vr V); [apply Hact; left| |done]. intros j Hj. apply (Hr j Hj).
  - apply IH; try done.
    + intros q Hq. unfold upd. rewrite decide_False by (intros ->; done). apply Hsame. by right.
    + intros q Hq. apply Hact. by right.
    + intros j Hj. destruct (Hr j Hj) as [Hr1 Hr2]. split; [done|].
      unfold upd. case_decide as E; [|done]. subst j.
      assert (V2 k = upd V k x k) as E2 by by eapply evals_same.
      unfold upd in E2. rewrite decide_True in E2 by done. congruence.
Qed.

(** After a round over a candidate list outside of which every cell was
    consistent, an inconsistent cell reads a cell that moved. *)
Lemma round_pending l V V' :
  NoDup l → (∀ i, i ∈ l → act i) → (∀ i, act i → i ∉ l → V i = T V i) → evals V l V V' →
  ∀ i, act i → V' i = T V' i ∨ ∃ j, j ∈ reads i ∧ V' j ≠ V j.
Proof.
  intros Hnd Hact Hcons Hev i Hi.
  destruct (decide (Exists (fun j => V' j ≠ V j) (reads i))) as [He|He].
  { right. apply list.Exists_exists in He as (j & Hj & ?). by exists j. }
  left. assert (∀ j, j ∈ reads i → V' j = V j) as Hall.
  { intros j Hj. destruct (decide (V' j = V j)) as [?|Hne]; [done|].
    exfalso. apply He, list.Exists_exists. by exists j. }
  rewrite (T_reads V' V i Hi Hall). destruct (decide (i ∈ l)) as [Hil|Hil].
  - eapply evals_value; [exact Hnd|exact Hil|done|done|exact Hev|]. intros j Hj. by rewrite Hall.
  - rewrite (evals_same _ _ _ _ i Hev Hil). by apply Hcons.
Qed.

(** ** Uniqueness: the result does not depend on the schedule *)

Lemma evals_lower Vr l V V' U :
  dom U → super Vr → bounded Vr → bounded V → super V → below V Vr → NoDup l →
  (∀ i, i ∈ l → act i) → (∀ i, i ∈ l → V i = Vr i) →
  (∀ i, act i → U i ≤ T U i) → below U Vr → below U V → evals Vr l V V' → below U V'.
Proof.
  intros HdU HsR HbR Hb Hs Hbel Hnd Hact Hsame HU HUR HUV Hev.
  revert Hb Hs Hbel Hnd Hact Hsame HUV.
  induction Hev as [V|i l V V1 V2 Hev1 Hev IH]; intros Hb Hs Hbel Hnd Hact Hsame HUV; [done|].
  apply list.NoDup_cons in Hnd as [Hi Hnd].
  destruct (eval1_ok Vr V i V1) as (Hb1 & Hs1 & Hbel1); try done; [apply Hact; left|apply Hsame; left|].
  assert (below V1 Vr) by (intros j Hj; etransitivity; [by apply Hbel1|by apply Hbel]).
  destruct Hev1 as (x & Hx & ->). apply IH; try done.
  - intros k Hk. apply Hact. by right.
  - intros k Hk. unfold upd. rewrite decide_False by (intros ->; done). apply Hsame. by right.
  - assert (act i) as Hi' by (apply Hact; left). pose proof (bounded_dom _ Hb) as Hd.
    destruct (ev_bounds Vr V i x (bounded_dom _ HbR) Hd Hbel Hi' Hx) as [HTx _].
    intros j Hj. unfold upd. case_decide; [subst j|by apply HUV].
    specialize (HU i Hi'). assert (T U i ≤ T V i) by by apply T_mono. lia.
Qed.

Lemma rounds_ok V V' :
  bounded V → super V → rtc round V V' → bounded V' ∧ super V' ∧ below V' V.
Proof.
  intros Hb Hs Hr. induction Hr as [V|V V1 V2 H1 H2 IH].
  { split; [done|]. split; [done|]. intros j _. lia. }
  destruct (round_ok V V1 Hb Hs H1) as (Hb1 & Hs1 & Hle). destruct (IH Hb1 Hs1) as (? & ? & Hle').
  split; [done|]. split; [done|]. intros j Hj. etransitivity; [by apply Hle'|by apply Hle].
Qed.

Lemma rounds_inactive V V' j : rtc round V V' → ¬ act j → V' j = V j.
Proof.
  induction 1 as [|V V1 V2 H1 _ IH]; intros Hj; [done|].
  rewrite IH by done. by eapply round_inactive.
Qed.

Lemma rounds_lower V V' U :
  bounded V → super V → dom U → (∀ i, act i → U i ≤ T U i) → below U V → rtc round V V' → below U V'.
Proof.
  intros Hb Hs HdU HU HUV Hr. revert Hb Hs HUV.
  induction Hr as [V|V V1 V2 (l & Hnd & Hact & Hev) H2 IH]; intros Hb Hs HUV; [done|].
  assert (round V V1) as H1 by by exists l.
  destruct (round_ok V V1 Hb Hs H1) as (Hb1 & Hs1 & Hle). apply IH; try done.
  eapply (evals_lower V l V V1 U); try done. intros j _. lia.
Qed.

(** Two runs from the same start that both settle agree on every cell. *)
Theorem schedules_agree V U1 U2 j :
  bounded V → super V → rtc round V U1 → rtc round V U2 → fixed U1 → fixed U2 → cell j →
  U1 j = U2 j.
Proof.
  intros Hb Hs R1 R2 F1 F2 Hj.
  destruct (rounds_ok V U1 Hb Hs R1) as (Hb1 & _ & Hle1).
  destruct (rounds_ok V U2 Hb Hs R2) as (Hb2 & _ & Hle2).
  assert (below U1 U2) as H12.
  { apply (rounds_lower V U2 U1); try done; [by apply bounded_dom|].
    intros i Hi. by rewrite <- F1. }
  assert (below U2 U1) as H21.
  { apply (rounds_lower V U1 U2); try done; [by apply bounded_dom|].
    intros i Hi. by rewrite <- F2. }
  specialize (H12 j Hj). specialize (H21 j Hj). lia.
Qed.
End chaotic.
