(* ===== verification/Padded.v ===== *)
(** * The padded field of the parallel solvers (vi_lib/src/solvers/frontier2d_pad.rs)

    The map framed by occupied cells so that no transition leaves it, the
    transitions as precomputed offsets into the flat arrays, and the cost of an
    action over them.  An unreached successor makes the whole action unreached,
    unlike in [action_cost_raw]. *)

From Stdlib Require Import ZArith Lia.
From stdpp Require Import base gmap strings list numbers.
From S2P Require Import Prelude Floats Model Bellman Active Chaotic.

(** [hot[i] = [total_cost, penalty + local_penalty]] *)
Record Padded : Type := mkPadded {
  p_hot : list (Z * Z);
  p_free : list bool;
  p_finals : list bool;
  p_precomp : list (list (list (Z * Z)));
  p_nx : Z; p_ny : Z; p_nt : Z; p_mx : Z; p_my : Z; p_nx_pad : Z; p_row_stride : Z
}.

Definition with_hot (m : Padded) (hot : list (Z * Z)) : Padded :=
  mkPadded hot (p_free m) (p_finals m) (p_precomp m) (p_nx m) (p_ny m) (p_nt m)
    (p_mx m) (p_my m) (p_nx_pad m) (p_row_stride m).

Definition precomp_entry (nt row_stride : Z) (tr : StateTransition) : res (Z * Z) :=
  nit ← i32_rem (i32_add (dit tr) nt) nt;
  Ok (as_i64 (dix tr * nt + diy tr * row_stride + nit), as_u64 (prob tr)).

Definition build_precomp (vi : ValueIterator) (nt row_stride : Z)
    : res (list (list (list (Z * Z)))) :=
  map_res (fun a =>
    map_res (fun it =>
      trs ← vget (a_state_transitions a) it;
      map_res (precomp_entry nt row_stride) trs) (seqZ 0 nt)) (vi_actions vi).

(** The padded position of a state. *)
Definition pad_state_index (nt mx my nx_pad : Z) (s : State) : Z :=
  as_u64 (i32_add (i32_add (s_it s) (i32_mul (i32_add (s_ix s) mx) nt))
                  (i32_mul (i32_add (s_iy s) my) (i32_mul nt nx_pad))).

Definition pad_build (vi : ValueIterator) : res Padded :=
  let '(nx, ny, nt) := (vi_cell_num_x vi, vi_cell_num_y vi, vi_cell_num_t vi) in
  d ← displacement vi;
  let '(mx, my, _) := d in
  let nx_pad := i32_add nx (i32_mul 2 mx) in
  let ny_pad := i32_add ny (i32_mul 2 my) in
  let row_stride := i32_mul nt nx_pad in
  let n_pad := as_u64 (i32_mul (i32_mul nx_pad ny_pad) nt) in
  r ← for_each (vi_states vi) (fun s acc =>
      let '(hot, free, finals) := acc in
      let idx := pad_state_index nt mx my nx_pad s in
      hot ← vset hot idx (s_total_cost s, u64_add (s_penalty s) (s_local_penalty s));
      free ← vset free idx (s_free s);
      finals ← vset finals idx (s_final_state s);
      Ok (hot, free, finals))
    (vec_repeat (MAX_COST, 0) n_pad, vec_repeat false n_pad, vec_repeat false n_pad);
  let '(hot, free, finals) := r in
  precomp ← build_precomp vi nt row_stride;
  Ok (mkPadded hot free finals precomp nx ny nt mx my nx_pad row_stride).

(** Base of the column of a cell, for [Padded] and for [Geom]. *)
Definition pad_col (nt mx my row_stride ix iy : Z) : Z :=
  i32_add ix mx * nt + i32_add iy my * row_stride.

(** [action_cost_pad] over a [HotCells] view: [hot k] is the array as load [k] of
    the call sees it.  A plain slice is the same at every load; in the atomic
    view another thread may store between two loads. *)
Fixpoint action_cost_pad_loop (hot : Z → list (Z * Z)) (free : list bool) (col_base k cost : Z)
    (buckets : list (Z * Z)) : res Z :=
  match buckets with
  | [] => Ok (Z.shiftr cost PROB_BASE_BIT)
  | (off, prob) :: rest =>
      let n := as_u64 (as_i64 (col_base + off)) in
      f ← vget free n;
      if negb f then Ok MAX_COST else
      h ← vget (hot k) n;
      if h.1 =? MAX_COST then Ok MAX_COST else
      action_cost_pad_loop hot free col_base (k + 1)
        (u64_add cost (u64_mul (u64_add h.1 h.2) prob)) rest
  end.

Definition action_cost_pad (hot : Z → list (Z * Z)) (free : list bool) (buckets : list (Z * Z))
    (col_base : Z) : res Z :=
  action_cost_pad_loop hot free col_base 0 0 buckets.

(** The view of a plain slice. *)
Definition slice {A} (hot : list A) : Z → list A := fun _ => hot.

(** [for per_theta in precomp { c = cost(per_theta[it]); if c < min { min = c } }],
    where [cost] also knows which action it evaluates. *)
Fixpoint min_over (cost : Z → list (Z * Z) → res Z) (precomp : list (list (list (Z * Z))))
    (it ai min_cost : Z) : res Z :=
  match precomp with
  | [] => Ok min_cost
  | per_theta :: rest =>
      bk ← vget per_theta it;
      c ← cost ai bk;
      min_over cost rest it (ai + 1) (if c <? min_cost then c else min_cost)
  end.

(** The same loop with [min_action]. *)
Fixpoint argmin_over (cost : list (Z * Z) → res Z) (precomp : list (list (list (Z * Z))))
    (it ai : Z) (best : Z * option Z) : res (Z * option Z) :=
  match precomp with
  | [] => Ok best
  | per_theta :: rest =>
      bk ← vget per_theta it;
      c ← cost bk;
      argmin_over cost rest it (ai + 1) (if c <? best.1 then (c, Some ai) else best)
  end.

(** [write_back_hot], with or without the policies. *)
Definition pad_write_back (m : Padded) (vi : ValueIterator) (hot : list (Z * Z))
    (opt : option (list (option Z))) : res ValueIterator :=
  states ← map_res (fun s =>
      h ← vget hot (pad_state_index (p_nt m) (p_mx m) (p_my m) (p_nx_pad m) s);
      match opt with
      | None => Ok (with_total_cost s h.1)
      | Some o =>
          a ← vget o (as_u64 (to_index_raw (s_ix s) (s_iy s) (s_it s) (p_nx m) (p_nt m)));
          Ok (with_value s h.1 a)
      end) (vi_states vi);
  Ok (with_states vi states).

(** ** The clamped backup, on the field itself

    A valuation gives the current value of every cell, by state index.
    [L ai k] is the valuation load [k] of action [ai] reads from; the plain
    backup reads all of them from one. *)

Section clamped.
Context (nx ny nt : Z) (acts : list Action) (st : list State).

Definition cell_pen (s : State) : Z := s_penalty s + s_local_penalty s.

Definition target_cost (V : valuation) (s : State) (tr : StateTransition) : Z :=
  let j := target nx nt s tr in
  V j + match zget st j with Some a => cell_pen a | None => 0 end.

Definition stopped_at (V : valuation) (s : State) (tr : StateTransition) : bool :=
  blocked nx ny nt st s tr || (V (target nx nt s tr) =? MAX_COST).

Fixpoint some_stopped (L : Z → valuation) (s : State) (k : Z) (trs : list StateTransition) : bool :=
  match trs with
  | [] => false
  | tr :: rest => stopped_at (L k) s tr || some_stopped L s (k + 1) rest
  end.

Fixpoint cost_sum (L : Z → valuation) (s : State) (k : Z) (trs : list StateTransition) : Z :=
  match trs with
  | [] => 0
  | tr :: rest => target_cost (L k) s tr * prob tr + cost_sum L s (k + 1) rest
  end.

Definition clamped_cost (L : Z → valuation) (s : State) (trs : list StateTransition) : Z :=
  if some_stopped L s 0 trs then MAX_COST
  else Z.shiftr (wrap_u 64 (cost_sum L s 0 trs)) PROB_BASE_BIT.

Fixpoint clamped_costs (L : Z → Z → valuation) (s : State) (ai : Z) (l : list Action) : list Z :=
  match l with
  | [] => []
  | a :: rest => clamped_cost (L ai) s (trans_of a s) :: clamped_costs L s (ai + 1) rest
  end.

(** The value and the action a parallel solver computes for a cell. *)
Definition clamped_any (L : Z → Z → valuation) (s : State) : Z * option Z :=
  argmin_from 0 (clamped_costs L s 0 acts) (MAX_COST, None).

Definition clamped_best (V : valuation) (s : State) : Z * option Z := clamped_any (fun _ _ => V) s.
End clamped.

(** ** The padded layout *)

Lemma u64_accumulate_pen c a b p :
  u64_add c (u64_mul (u64_add a (wrap_u 64 b)) (as_u64 p)) = wrap_u 64 (c + (a + b) * p).
Proof.
  unfold u64_add, u64_mul, as_u64, wrap_u.
  rewrite Zplus_mod_idemp_r, Zplus_mod_idemp_r.
  rewrite <- (Zplus_mod_idemp_r (_ * (p mod _))), Zmult_mod_idemp_l, Zmult_mod_idemp_r.
  by rewrite Zplus_mod_idemp_r.
Qed.

Section layout.
Context (vi : ValueIterator) (Hwf : wf_vi vi) (mx my nx ny nt px py : Z) (st : list State).
Context (Enx : vi_cell_num_x vi = nx) (Eny : vi_cell_num_y vi = ny) (Ent : vi_cell_num_t vi = nt).
Context (Est : vi_states vi = st) (Hpx : px = nx + 2 * mx) (Hpy : py = ny + 2 * my).
Context (Hmx : 0 ≤ mx) (Hmy : 0 ≤ my) (Hpad : px * py * nt < 2 ^ 31).

Lemma field_dims : dims_ok nx ny nt ∧ wf_states nx ny nt st.
Proof. destruct Hwf as [Hd Hs _]. rewrite Enx, Eny, Ent, ?Est in *. by split. Qed.

Lemma pad_dims : dims_ok px py nt.
Proof.
  destruct field_dims as [[Hx Hy Ht _] _]. split; lia.
Qed.

(** Position of the cell (x, y, t), the frame included. *)
Definition pos (x y t : Z) : Z := index px nt (x + mx) (y + my) t.
Definition pos_of (s : State) : Z := pos (s_ix s) (s_iy s) (s_it s).

Definition framed_cell (x y t : Z) : Prop :=
  - mx ≤ x < nx + mx ∧ - my ≤ y < ny + my ∧ 0 ≤ t < nt.

Definition in_map (x y : Z) : Prop := 0 ≤ x < nx ∧ 0 ≤ y < ny.

Lemma pos_range x y t : framed_cell x y t → 0 ≤ pos x y t < px * py * nt.
Proof. intros (? & ? & ?). unfold pos. apply index_bounds; lia. Qed.

Lemma pos_inj x y t x' y' t' :
  framed_cell x y t → framed_cell x' y' t' → pos x y t = pos x' y' t' → x = x' ∧ y = y' ∧ t = t'.
Proof.
  intros (? & ? & ?) (? & ? & ?) E. unfold pos in E.
  apply (index_inj px py nt) in E as (? & ? & ?); lia.
Qed.

Lemma state_framed i s : zget st i = Some s → framed_cell (s_ix s) (s_iy s) (s_it s) ∧
  in_map (s_ix s) (s_iy s) ∧ i = index nx nt (s_ix s) (s_iy s) (s_it s).
Proof.
  intros Hs. destruct field_dims as [_ Hst]. pose proof (ws_state _ _ _ _ Hst _ _ Hs) as [? ? ? ? _ _ _].
  unfold framed_cell, in_map. split; [lia|]. split; [lia|done].
Qed.

Lemma pos_of_inj i j s s' :
  zget st i = Some s → zget st j = Some s' → pos_of s = pos_of s' → i = j.
Proof.
  intros Hs Hs' E. destruct (state_framed i s Hs) as (Hf & _ & ->).
  destruct (state_framed j s' Hs') as (Hf' & _ & ->).
  by destruct (pos_inj _ _ _ _ _ _ Hf Hf' E) as (-> & -> & ->).
Qed.

Lemma pad_state_index_eq i s : zget st i = Some s → pad_state_index nt mx my px s = pos_of s.
Proof.
  intros Hs. destruct (state_framed i s Hs) as (Hf & _ & _). pose proof pad_dims as Hd.
  pose proof (pos_range _ _ _ Hf) as Hr. destruct Hf as (Hx & Hy & Ht).
  assert (px < 2 ^ 31 ∧ py < 2 ^ 31) as [? ?] by (destruct Hd; nia).
  unfold pad_state_index. rewrite !(i32_add_small _ mx), !(i32_add_small _ my)
    by (unfold in_i32; lia).
  fold (to_index_raw (s_ix s + mx) (s_iy s + my) (s_it s) px nt).
  rewrite (to_index_raw_small px py nt) by (done || (lia)).
  apply as_u64_small. unfold in_u64, pos_of, pos in *. lia.
Qed.

(** The arrays describe the field, with [V] as current values. *)
Definition hot_ok (hot : list (Z * Z)) (V : valuation) : Prop :=
  zlen hot = px * py * nt ∧
  ∀ i s, zget st i = Some s → zget hot (pos_of s) = Some (V i, wrap_u 64 (cell_pen s)).

Record arrays_ok (free finals : list bool) : Prop := {
  ao_free_len : zlen free = px * py * nt;
  ao_finals_len : zlen finals = px * py * nt;
  ao_state : ∀ i s, zget st i = Some s →
    zget free (pos_of s) = Some (s_free s) ∧ zget finals (pos_of s) = Some (s_final_state s);
  ao_frame : ∀ x y t, framed_cell x y t → ¬ in_map x y → zget free (pos x y t) = Some false
}.

Definition entry (tr : StateTransition) : Z * Z :=
  (dix tr * nt + diy tr * (nt * px) + Z.rem (dit tr + nt) nt, as_u64 (prob tr)).

Context (mt : Z).
Context (Hcov : ∀ a, a ∈ vi_actions vi → action_covered nt a (mx, my, mt)).

(** Offsets lead from the base of a column to the target. *)
Lemma offset_pos s tr :
  pad_col nt mx my (nt * px) (s_ix s) (s_iy s) = (s_ix s + mx) * nt + (s_iy s + my) * (nt * px) →
  pad_col nt mx my (nt * px) (s_ix s) (s_iy s) + (entry tr).1
  = pos (s_ix s + dix tr) (s_iy s + diy tr) (Z.rem (dit tr + nt) nt).
Proof. intros ->. unfold pos, index, entry. cbn. ring. Qed.

Lemma pad_col_eq i s :
  zget st i = Some s →
  pad_col nt mx my (nt * px) (s_ix s) (s_iy s) = (s_ix s + mx) * nt + (s_iy s + my) * (nt * px).
Proof.
  intros Hs. destruct (state_framed i s Hs) as ((Hx & Hy & _) & _ & _). pose proof pad_dims as Hd.
  assert (px < 2 ^ 31 ∧ py < 2 ^ 31) as [? ?] by (destruct Hd; nia).
  unfold pad_col. by rewrite !i32_add_small by (unfold in_i32; lia).
Qed.

(** Storing the value of a cell. *)
Lemma hot_ok_upd hot V i s x :
  hot_ok hot V → zget st i = Some s →
  hot_ok (zset hot (pos_of s) (x, wrap_u 64 (cell_pen s))) (upd V i x).
Proof.
  intros [Hl Hhot] Hs. split; [by rewrite zlen_zset|]. intros j a Ha. unfold upd.
  pose proof (zget_Some_lt _ _ _ (Hhot _ _ Hs)) as Hr.
  rewrite zget_zset by done. destruct (decide (pos_of s = pos_of a)) as [E|Hne].
  - assert (i = j) as -> by by eapply pos_of_inj. rewrite decide_True by done. by simplify_eq.
  - destruct (decide (j = i)) as [->|]; [by simplify_eq|]. by apply Hhot.
Qed.

(** The position a loop over the headings of a column computes. *)
Lemma pad_idx_eq i s :
  zget st i = Some s →
  as_u64 (as_i64 (pad_col nt mx my (nt * px) (s_ix s) (s_iy s) + s_it s)) = pos_of s.
Proof.
  intros Hs. pose proof (pos_range _ _ _ (proj1 (state_framed i s Hs))) as Hr.
  rewrite (pad_col_eq i s Hs). unfold pos_of in *.
  replace (_ + s_it s) with (pos (s_ix s) (s_iy s) (s_it s)) by (unfold pos, index; ring).
  unfold as_i64. rewrite wrap_s64_small, as_u64_small by (unfold in_u64; lia). done.
Qed.

(** The cost loop on the arrays is the clamped cost on the field. *)
Lemma action_cost_pad_loop_eq hot free finals L i s trs k c0 :
  (∀ k, hot_ok (hot k) (L k)) → arrays_ok free finals → zget st i = Some s →
  (∀ tr, tr ∈ trs → wf_trans nt tr ∧ Z.abs (dix tr) ≤ mx ∧ Z.abs (diy tr) ≤ my) →
  action_cost_pad_loop hot free (pad_col nt mx my (nt * px) (s_ix s) (s_iy s)) k (wrap_u 64 c0)
      (entry <$> trs)
  = Ok (if some_stopped nx ny nt st L s k trs then MAX_COST
        else Z.shiftr (wrap_u 64 (c0 + cost_sum nx nt st L s k trs)) PROB_BASE_BIT).
Proof.
  intros Hhot Hao Hs. pose proof (pad_col_eq i s Hs) as Hcol.
  destruct (state_framed i s Hs) as ((Hfx & Hfy & Hft) & [Hmx' Hmy'] & _).
  destruct field_dims as [Hd Hst]. pose proof Hd as [Hx0 _ Ht0 _]. revert k c0.
  induction trs as [|tr trs IH]; intros k c0 Hall; [cbn; by rewrite Z.add_0_r|].
  destruct (Hall tr ltac:(left)) as (Hw & Hdx & Hdy).
  pose proof (target_theta nt tr Ht0 Hw) as Hth.
  assert (framed_cell (s_ix s + dix tr) (s_iy s + diy tr) (Z.rem (dit tr + nt) nt)) as Hf.
  { unfold framed_cell. lia. }
  pose proof (pos_range _ _ _ Hf) as Hr.
  rewrite fmap_cons. cbn [action_cost_pad_loop].
  destruct (entry tr) as [off pr] eqn:Ee.
  pose proof (offset_pos s tr Hcol) as Hoff. rewrite Ee in Hoff. cbn [fst] in Hoff.
  rewrite Hoff. unfold as_i64. rewrite wrap_s64_small by lia.
  rewrite (as_u64_small (pos _ _ _)) by (unfold in_u64; lia).
  assert (pr = as_u64 (prob tr)) as -> by (unfold entry in Ee; congruence).
  cbn [some_stopped]. unfold stopped_at at 1, blocked.
  destruct (inside nx ny s tr) eqn:Hin.
  - unfold inside in Hin. bool_to_prop. cbn [negb orb].
    destruct (ws_get nx ny nt st (s_ix s + dix tr) (s_iy s + diy tr) (Z.rem (dit tr + nt) nt))
      as (s' & Hs' & Ex & Ey & Et); [done|lia|lia|lia|lia|done|].
    fold (target nx nt s tr) in Hs'. rewrite Hs'.
    assert (pos (s_ix s + dix tr) (s_iy s + diy tr) (Z.rem (dit tr + nt) nt) = pos_of s') as Ep.
    { unfold pos_of. by rewrite Ex, Ey, Et. }
    rewrite Ep. destruct (ao_state _ _ Hao _ _ Hs') as [Hfree _].
    rewrite (proj2 (vget_ok _ _ _) Hfree), ok_bind.
    destruct (s_free s'); cbn [negb orb]; [|done].
    rewrite (proj2 (vget_ok _ _ _) (proj2 (Hhot k) _ _ Hs')), ok_bind. cbn [fst snd].
    destruct (L k (target nx nt s tr) =? MAX_COST); [done|]. cbn [orb].
    rewrite u64_accumulate_pen.
    assert (∀ x, wrap_u 64 (wrap_u 64 c0 + x) = wrap_u 64 (c0 + x)) as ->
      by (intros; apply Zplus_mod_idemp_l).
    rewrite IH by (intros; apply Hall; by right). cbn [cost_sum]. unfold target_cost.
    rewrite Hs'. by rewrite Z.add_assoc.
  - cbn [negb orb]. assert (¬ in_map (s_ix s + dix tr) (s_iy s + diy tr)) as Hout.
    { intros [? ?]. apply not_true_iff_false in Hin. apply Hin. unfold inside.
      rewrite !andb_true_iff, !Z.leb_le, !Z.ltb_lt. lia. }
    rewrite (proj2 (vget_ok _ _ _) (ao_frame _ _ Hao _ _ _ Hf Hout)). by rewrite ok_bind.
Qed.

(** ** The precomputed tables *)

Definition buckets_of (a : Action) (it : Z) : list (Z * Z) :=
  entry <$> default [] (zget (a_state_transitions a) it).

Definition pure_precomp : list (list (list (Z * Z))) :=
  (fun a => buckets_of a <$> seqZ 0 nt) <$> vi_actions vi.

Lemma trans_ok a it tr :
  a ∈ vi_actions vi → tr ∈ default [] (zget (a_state_transitions a) it) →
  wf_trans nt tr ∧ Z.abs (dix tr) ≤ mx ∧ Z.abs (diy tr) ≤ my.
Proof.
  intros Ha Htr. destruct (zget (a_state_transitions a) it) as [trs|] eqn:E; cbn in Htr;
    [|by apply elem_of_nil in Htr].
  pose proof Hwf as [_ _ Hact]. rewrite List.Forall_forall in Hact.
  destruct (Hact a (proj1 (list_elem_of_In _ _) Ha)) as [_ Hw]. rewrite Ent in Hw.
  split; [by eapply Hw|]. destruct (Hcov a Ha it trs tr E Htr) as (? & ? & _). done.
Qed.

Lemma pad_small : 0 < nt * px < 2 ^ 31 ∧ nt ≤ nt * px ∧ px ≤ nt * px ∧ py < 2 ^ 31 ∧
  mx < 2 ^ 30 ∧ my < 2 ^ 30.
Proof.
  destruct field_dims as [[Hx0 Hy0 Ht0 _] _].
  pose proof (Z.mul_le_mono_nonneg 1 nt px px ltac:(lia) ltac:(lia) ltac:(lia) ltac:(lia)).
  pose proof (Z.mul_le_mono_nonneg nt nt 1 px ltac:(lia) ltac:(lia) ltac:(lia) ltac:(lia)).
  pose proof (Z.mul_le_mono_nonneg (nt * px) (nt * px) 1 py ltac:(lia) ltac:(lia) ltac:(lia) ltac:(lia)).
  pose proof (Z.mul_le_mono_nonneg 1 (nt * px) py py ltac:(lia) ltac:(lia) ltac:(lia) ltac:(lia)).
  replace (nt * px * py) with (px * py * nt) in * by ring. lia.
Qed.

Lemma build_precomp_eq : build_precomp vi nt (nt * px) = Ok pure_precomp.
Proof.
  destruct field_dims as [[Hx0 Hy0 Ht0 _] _]. destruct pad_small as (Hs & Hnt & _ & _ & Hmx30 & Hmy30).
  unfold build_precomp, pure_precomp.
  apply map_res_pure. intros a Ha. apply map_res_pure. intros it Hit%elem_of_seqZ.
  pose proof Hwf as [_ _ Hact]. rewrite List.Forall_forall in Hact.
  destruct (Hact a (proj1 (list_elem_of_In _ _) Ha)) as [Hl _]. rewrite Ent in Hl.
  destruct (zget_lt (a_state_transitions a) it) as [trs E]; [lia|].
  rewrite (proj2 (vget_ok _ _ _) E), ok_bind. unfold buckets_of. rewrite E.
  apply map_res_pure. intros tr Htr.
  destruct (trans_ok a it tr Ha) as ([Hdx Hdy Hdt Hpr] & Hmx' & Hmy'); [by rewrite E|].
  unfold precomp_entry, i32_rem. rewrite i32_add_small by (unfold in_i32; lia).
  destruct (Z.eqb_spec nt 0); [lia|]. destruct (Z.eqb_spec nt (-1)); [lia|].
  rewrite andb_false_r, ok_bind. unfold entry. do 2 f_equal. unfold as_i64. apply wrap_s64_small.
  pose proof (Z.rem_bound_pos (dit tr + nt) nt ltac:(lia) ltac:(lia)).
  assert (Z.abs (dix tr * nt) ≤ 2 ^ 30 * 2 ^ 31)
    by (rewrite Z.abs_mul; apply Z.mul_le_mono_nonneg; lia).
  assert (Z.abs (diy tr * (nt * px)) ≤ 2 ^ 30 * 2 ^ 31)
    by (rewrite Z.abs_mul; apply Z.mul_le_mono_nonneg; lia).
  lia.
Qed.

(** The cost of an action over the arrays. *)
Lemma action_cost_pad_eq hot free finals L i s a :
  (∀ k, hot_ok (hot k) (L k)) → arrays_ok free finals → zget st i = Some s → a ∈ vi_actions vi →
  action_cost_pad hot free (buckets_of a (s_it s)) (pad_col nt mx my (nt * px) (s_ix s) (s_iy s))
  = Ok (clamped_cost nx ny nt st L s (trans_of a s)).
Proof.
  intros Hhot Hao Hs Ha. unfold action_cost_pad. rewrite <- (wrap_u_small 64 0) at 2 by lia.
  unfold buckets_of. rewrite (action_cost_pad_loop_eq hot free finals L i s) by
    (done || (intros tr Htr; by eapply trans_ok)).
  done.
Qed.

Lemma buckets_get a it : 0 ≤ it < nt → zget (buckets_of a <$> seqZ 0 nt) it = Some (buckets_of a it).
Proof.
  intros. rewrite zget_fmap. unfold zget. rewrite decide_True by lia.
  rewrite lookup_seqZ_lt by lia. cbn. do 2 f_equal. lia.
Qed.

(** The minimum over the actions, for any way of computing their costs. *)
Lemma min_over_eq cost L s l ai best o :
  0 ≤ s_it s < nt →
  (∀ ai a, a ∈ l → cost ai (buckets_of a (s_it s)) = Ok (clamped_cost nx ny nt st (L ai) s (trans_of a s))) →
  min_over cost ((fun a => buckets_of a <$> seqZ 0 nt) <$> l) (s_it s) ai best
  = Ok (argmin_from ai (clamped_costs nx ny nt st L s ai l) (best, o)).1.
Proof.
  intros Ht. revert ai best o. induction l as [|a l IH]; intros ai best o Hc; [done|].
  rewrite fmap_cons. cbn [min_over argmin_from clamped_costs].
  rewrite (proj2 (vget_ok _ _ _) (buckets_get a _ Ht)), ok_bind, Hc, ok_bind by left. cbn [fst].
  destruct (clamped_cost nx ny nt st (L ai) s (trans_of a s) <? best);
    apply IH; intros; apply Hc; by right.
Qed.

Lemma argmin_over_eq cost V s l ai best :
  0 ≤ s_it s < nt →
  (∀ a, a ∈ l → cost (buckets_of a (s_it s)) = Ok (clamped_cost nx ny nt st (fun _ => V) s (trans_of a s))) →
  argmin_over cost ((fun a => buckets_of a <$> seqZ 0 nt) <$> l) (s_it s) ai best
  = Ok (argmin_from ai (clamped_costs nx ny nt st (fun _ _ => V) s ai l) best).
Proof.
  intros Ht. revert ai best. induction l as [|a l IH]; intros ai best Hc; [done|].
  rewrite fmap_cons. cbn [argmin_over argmin_from clamped_costs].
  rewrite (proj2 (vget_ok _ _ _) (buckets_get a _ Ht)), ok_bind, Hc, ok_bind by left.
  apply IH. intros. apply Hc. by right.
Qed.

(** ** Building the arrays *)

(** The values stored in the field. *)
Definition field_value (l : list State) : valuation :=
  fun j => match zget l j with Some s => s_total_cost s | None => MAX_COST end.

(** The loop of [Padded::build]. *)
Definition fill (l : list State) (acc : list (Z * Z) * list bool * list bool)
    : res (list (Z * Z) * list bool * list bool) :=
  for_each l (fun s acc =>
      let '(hot, free, finals) := acc in
      let idx := pad_state_index nt mx my px s in
      hot ← vset hot idx (s_total_cost s, u64_add (s_penalty s) (s_local_penalty s));
      free ← vset free idx (s_free s);
      finals ← vset finals idx (s_final_state s);
      Ok (hot, free, finals)) acc.

(** After the first [k] states. *)
Definition filled (k : nat) (acc : list (Z * Z) * list bool * list bool) : Prop :=
  let '(hot, free, finals) := acc in
  (zlen hot = px * py * nt ∧ zlen free = px * py * nt ∧ zlen finals = px * py * nt) ∧
  (∀ i s, i < Z.of_nat k → zget st i = Some s →
     zget hot (pos_of s) = Some (s_total_cost s, wrap_u 64 (cell_pen s)) ∧
     zget free (pos_of s) = Some (s_free s) ∧ zget finals (pos_of s) = Some (s_final_state s)) ∧
  ∀ q, 0 ≤ q < px * py * nt → (∀ i s, zget st i = Some s → pos_of s ≠ q) → zget free q = Some false.

Lemma fill_spec acc :
  filled 0 acc → ∃ acc', fill st acc = Ok acc' ∧ filled (length st) acc'.
Proof.
  intros H0. unfold fill. apply for_each_inv; [done|].
  intros k s [[hot free] finals] Hk ((Hl1 & Hl2 & Hl3) & Hdone & Hrest).
  assert (zget st (Z.of_nat k) = Some s) as Hs.
  { unfold zget. rewrite decide_True by lia. by rewrite Nat2Z.id. }
  pose proof (pos_range _ _ _ (proj1 (state_framed _ _ Hs))) as Hr. fold (pos_of s) in Hr.
  rewrite (pad_state_index_eq _ _ Hs). rewrite !vset_ok by lia. rewrite !ok_bind.
  eexists. split; [done|]. unfold filled. rewrite !zlen_zset. split; [done|]. split.
  - intros i s' Hi Hs'. rewrite !zget_zset by lia.
    destruct (decide (pos_of s = pos_of s')) as [E|Hne].
    + assert (i = Z.of_nat k) as -> by (symmetry; by eapply pos_of_inj). by simplify_eq.
    + apply (Hdone i); [|done]. destruct (decide (i = Z.of_nat k)) as [->|]; [|lia]. by simplify_eq.
  - intros q Hq Hno. rewrite zget_zset_ne by (by eapply (Hno (Z.of_nat k))). by apply Hrest.
Qed.

Lemma pad_build_eq :
  displacement vi = Ok (mx, my, mt) →
  ∃ hot free finals,
    pad_build vi = Ok (mkPadded hot free finals pure_precomp nx ny nt mx my px (nt * px)) ∧
    hot_ok hot (field_value st) ∧ arrays_ok free finals.
Proof.
  intros Hdisp. unfold pad_build. rewrite Enx, Eny, Ent, Est, Hdisp, ok_bind.
  destruct field_dims as [[Hx0 Hy0 Ht0 _] Hst]. destruct pad_small as (? & ? & ? & ? & ? & ?).
  rewrite !(i32_mul_small 2) by (unfold in_i32; lia).
  rewrite (i32_add_small nx), (i32_add_small ny) by (unfold in_i32; lia).
  rewrite <- Hpx, <- Hpy. rewrite (i32_mul_small nt px) by (unfold in_i32; lia).
  assert (px * py ≤ px * py * nt) by (rewrite <- (Z.mul_1_r (px * py)) at 1; apply Z.mul_le_mono_nonneg_l; nia).
  assert (0 < px * py) by (apply Z.mul_pos_pos; lia).
  assert (0 < px * py * nt) by (apply Z.mul_pos_pos; lia).
  rewrite (i32_mul_small px py) by (unfold in_i32; lia).
  rewrite (i32_mul_small (px * py) nt) by (unfold in_i32; lia).
  rewrite as_u64_small by (unfold in_u64; lia).
  fold (fill st). destruct (fill_spec (vec_repeat (MAX_COST, 0) (px * py * nt),
    vec_repeat false (px * py * nt), vec_repeat false (px * py * nt)))
    as ([[hot free] finals] & E & (Hl1 & Hl2 & Hl3) & Hdone & Hrest).
  { unfold filled. rewrite !zlen_repeat by lia. split; [done|]. split.
    - intros i s Hi Hs. apply zget_Some_lt in Hs. lia.
    - intros q Hq _. by rewrite zget_repeat by lia. }
  change (for_each st _ _) with (fill st (vec_repeat (MAX_COST, 0) (px * py * nt),
    vec_repeat false (px * py * nt), vec_repeat false (px * py * nt))).
  rewrite E, ok_bind, build_precomp_eq, ok_bind.
  assert (∀ i s, zget st i = Some s → i < Z.of_nat (length st)) as Hlt.
  { intros i s Hs. apply zget_Some_lt in Hs. unfold zlen in Hs. lia. }
  exists hot, free, finals. split; [done|]. split.
  - split; [done|]. intros i s Hs. unfold field_value. rewrite Hs.
    by destruct (Hdone i s (Hlt _ _ Hs) Hs) as (? & _).
  - split; [done|done| |].
    + intros i s Hs. by destruct (Hdone i s (Hlt _ _ Hs) Hs) as (_ & ?).
    + intros x y t Hf Hout. apply Hrest; [by apply pos_range|]. intros i s Hs Ep.
      destruct (state_framed _ _ Hs) as (Hf' & Hin & _).
      apply pos_inj in Ep as (<- & <- & <-); [|done..]. by apply Hout.
Qed.

(** ** Writing back *)

(** The field with other values and policies. *)
Definition revalue (V : valuation) (pol : Z → option Z) (l : list State) : list State :=
  (fun p => with_value p.2 (V p.1) (pol p.1)) <$> enumerated l.

Lemma zget_enumerated {A} (l : list A) i : zget (enumerated l) i = (fun x => (i, x)) <$> zget l i.
Proof.
  unfold zget, enumerated. destruct (decide (0 ≤ i)); [|done].
  destruct (l !! Z.to_nat i) as [x|] eqn:E.
  - apply lookup_zip_with_Some. exists i, x. split; [done|]. split; [|done].
    apply lookup_lt_Some in E. apply lookup_seqZ. unfold zlen. lia.
  - apply lookup_zip_with_None. by right.
Qed.

Lemma zget_revalue V pol l i :
  zget (revalue V pol l) i = (fun s => with_value s (V i) (pol i)) <$> zget l i.
Proof. unfold revalue. rewrite zget_fmap, zget_enumerated. by destruct (zget l i). Qed.

Lemma zlen_revalue V pol l : zlen (revalue V pol l) = zlen l.
Proof.
  unfold revalue, enumerated. rewrite zlen_fmap. unfold zlen.
  rewrite length_zip_with, length_seqZ. unfold zlen. lia.
Qed.

Lemma revalue_static V pol l : same_static (revalue V pol l) l.
Proof. intros i. rewrite zget_revalue. by destruct (zget l i). Qed.

Lemma revalue_ext V pol V' pol' l l' :
  same_static l l' → (∀ i, 0 ≤ i < zlen l → V i = V' i ∧ pol i = pol' i) →
  revalue V pol l = revalue V' pol' l'.
Proof.
  intros Hss Hext. apply zget_ext; [rewrite !zlen_revalue; by apply same_static_zlen|].
  intros i Hi. rewrite zlen_revalue in Hi. rewrite !zget_revalue.
  destruct (zget_lt _ _ Hi) as [s Hs]. destruct (same_static_get _ _ _ _ Hss Hs) as (s' & Hs' & E).
  rewrite Hs, Hs'. cbn. destruct (Hext i Hi) as [-> ->]. f_equal.
  unfold static_part in E. unfold with_value. congruence.
Qed.

Lemma pad_write_back_eq m hot V opt pol l :
  p_nt m = nt → p_mx m = mx → p_my m = my → p_nx_pad m = px → p_nx m = nx →
  hot_ok hot V → (∀ i, 0 ≤ i < zlen st → zget opt i = Some (pol i)) → same_static l st →
  pad_write_back m (with_states vi l) hot (Some opt) = Ok (with_states vi (revalue V pol st)).
Proof.
  intros E1 E2 E3 E4 E5 [Hl Hhot] Hopt Hss. unfold pad_write_back. cbn [vi_states with_states].
  rewrite E1, E2, E3, E4, E5.
  destruct field_dims as [Hd Hst].
  assert (∀ k, map_res (fun s =>
      h ← vget hot (pad_state_index nt mx my px s);
      a ← vget opt (as_u64 (to_index_raw (s_ix s) (s_iy s) (s_it s) nx nt));
      Ok (with_value s h.1 a)) (drop k l) = Ok (drop k (revalue V pol l))) as H.
  2: { specialize (H 0%nat). rewrite !drop_0 in H. rewrite H, ok_bind. cbn.
       by rewrite (revalue_ext V pol V pol l st). }
  assert (length (revalue V pol l) = length l) as Hlen.
  { pose proof (zlen_revalue V pol l) as E. unfold zlen in E. lia. }
  intros k. remember (length l - k)%nat as n eqn:En. revert k En.
  induction n as [|n IH]; intros k En.
  { rewrite !drop_ge by lia. done. }
  destruct (lookup_lt_is_Some_2 l k) as [s Hs]; [lia|].
  assert (zget l (Z.of_nat k) = Some s) as Hz.
  { unfold zget. rewrite decide_True by lia. by rewrite Nat2Z.id. }
  pose proof (zget_revalue V pol l (Z.of_nat k)) as Hz'. rewrite Hz in Hz'. unfold zget in Hz'.
  rewrite decide_True, Nat2Z.id in Hz' by lia.
  rewrite (drop_S _ _ _ Hs), (drop_S _ _ _ Hz'). cbn [map_res].
  destruct (same_static_get _ _ _ _ Hss Hz) as (s' & Hs' & E).
  assert (s_ix s = s_ix s' ∧ s_iy s = s_iy s' ∧ s_it s = s_it s') as (Ex & Ey & Et)
    by (unfold static_part in E; repeat split; congruence).
  assert (pad_state_index nt mx my px s = pos_of s') as ->.
  { rewrite <- (pad_state_index_eq _ _ Hs'). unfold pad_state_index. by rewrite Ex, Ey, Et. }
  rewrite (proj2 (vget_ok _ _ _) (Hhot _ _ Hs')), ok_bind.
  pose proof (ws_state _ _ _ _ Hst _ _ Hs') as [? ? ? Ei _ _ _]. pose proof (zget_Some_lt _ _ _ Hs') as Hk.
  rewrite Ex, Ey, Et, (to_index_raw_small nx ny nt), <- Ei by done.
  pose proof (ws_len _ _ _ _ Hst) as Hlst. pose proof (dims_total _ _ _ Hd).
  rewrite (as_u64_small (Z.of_nat k)) by (unfold in_u64; lia).
  rewrite (proj2 (vget_ok _ _ _) (Hopt _ Hk)), !ok_bind, IH, ok_bind by lia. done.
Qed.
End layout.
