(* ===== verification/Clamped.v ===== *)
(** * The clamped backup as a chaotic iteration

    The backup of the parallel solvers reads the field through valuations; this
    file shows that it is monotone, adds at most the largest penalty to what it
    reads and never wraps while the values stay below the bound of [Chaotic.dom],
    so that the theory of [Chaotic] applies to it. *)

From Stdlib Require Import ZArith Lia.
From stdpp Require Import base gmap strings list numbers.
From S2P Require Import Prelude Floats Model Bellman Chaotic Padded.

Section clamped_backup.
Context (nx ny nt : Z) (acts : list Action) (st : list State).

(** The cells evaluating [s] looks at. *)
Definition creads (s : State) : list Z :=
  a ← acts; target nx nt s <$> filter (fun tr => blocked nx ny nt st s tr = false) (trans_of a s).

(** Cells a solver evaluates. *)
Definition active (i : Z) : Prop := ∃ s, zget st i = Some s ∧ updatable s = true.

Definition cell_reads (i : Z) : list Z :=
  match zget st i with Some s => creads s | None => [] end.

Definition backup_at (V : valuation) (i : Z) : Z :=
  match zget st i with Some s => (clamped_best nx ny nt acts st V s).1 | None => V i end.

(** A backup whose loads return old or current values, each on its own. *)
Definition mixed (Vr V : valuation) (L : Z → Z → valuation) : Prop :=
  ∀ ai k j, L ai k j = Vr j ∨ L ai k j = V j.

Definition evaluates (Vr V : valuation) (i x : Z) : Prop :=
  ∃ s L, zget st i = Some s ∧ mixed Vr V L ∧ x = (clamped_any nx ny nt acts st L s).1.

(** ** One action *)

Lemma some_stopped_ext (L L' : Z → valuation) s k trs :
  (∀ k tr, tr ∈ trs → blocked nx ny nt st s tr = false →
     L k (target nx nt s tr) = L' k (target nx nt s tr)) →
  some_stopped nx ny nt st L s k trs = some_stopped nx ny nt st L' s k trs ∧
  (some_stopped nx ny nt st L s k trs = false →
   cost_sum nx nt st L s k trs = cost_sum nx nt st L' s k trs).
Proof.
  revert k. induction trs as [|tr trs IH]; intros k H; [done|]. cbn.
  destruct (IH (k + 1)) as [IH1 IH2]; [intros; apply H; [by right|done]|]. rewrite IH1.
  unfold stopped_at at 1 2 3. destruct (blocked nx ny nt st s tr) eqn:Eb; [done|]. cbn.
  rewrite (H k tr) by (done || left). split; [done|].
  intros [_ Hs]%orb_false_elim. rewrite IH1 in IH2. rewrite (IH2 Hs). f_equal.
  unfold target_cost. by rewrite (H k tr) by (done || left).
Qed.

Lemma clamped_cost_ext (L L' : Z → valuation) s trs :
  (∀ k tr, tr ∈ trs → blocked nx ny nt st s tr = false →
     L k (target nx nt s tr) = L' k (target nx nt s tr)) →
  clamped_cost nx ny nt st L s trs = clamped_cost nx ny nt st L' s trs.
Proof.
  intros H. destruct (some_stopped_ext L L' s 0 trs H) as [E1 E2]. unfold clamped_cost.
  rewrite <- E1. destruct (some_stopped nx ny nt st L s 0 trs); [done|]. by rewrite E2.
Qed.

Lemma argmin_from_mono ai cs cs' b b' :
  Forall2 Z.le cs cs' → b.1 ≤ b'.1 → (argmin_from ai cs b).1 ≤ (argmin_from ai cs' b').1.
Proof.
  intros H. revert ai b b'. induction H as [|c c' cs cs' Hc H IH]; intros ai b b' Hb; [done|].
  cbn. apply IH. destruct (Z.ltb_spec c b.1), (Z.ltb_spec c' b'.1); cbn; lia.
Qed.

Lemma clamped_costs_rel (R : Z → Z → Prop) L L' s ai l :
  (∀ ai a, a ∈ l → R (clamped_cost nx ny nt st (L ai) s (trans_of a s))
                     (clamped_cost nx ny nt st (L' ai) s (trans_of a s))) →
  Forall2 R (clamped_costs nx ny nt st L s ai l) (clamped_costs nx ny nt st L' s ai l).
Proof.
  revert ai. induction l as [|a l IH]; intros ai H; constructor; [apply H; left|].
  apply IH. intros. apply H. by right.
Qed.

Lemma elem_of_creads s a tr :
  a ∈ acts → tr ∈ trans_of a s → blocked nx ny nt st s tr = false → target nx nt s tr ∈ creads s.
Proof.
  intros Ha Htr Hb. unfold creads. apply list_elem_of_bind. exists a. split; [|done].
  apply list_elem_of_fmap. exists tr. split; [done|]. by apply list_elem_of_filter.
Qed.

Lemma clamped_any_ext L L' s :
  (∀ ai k j, j ∈ creads s → L ai k j = L' ai k j) →
  clamped_any nx ny nt acts st L s = clamped_any nx ny nt acts st L' s.
Proof.
  intros H. unfold clamped_any. f_equal.
  assert (∀ l k : list Z, Forall2 eq l k → l = k) as Heq by (induction 1; congruence).
  apply Heq, clamped_costs_rel. intros ai a Ha. apply clamped_cost_ext.
  intros k tr Htr Hb. by apply H, (elem_of_creads s a).
Qed.

Lemma backup_reads U V i :
  (∀ j, j ∈ cell_reads i → U j = V j) → active i → backup_at U i = backup_at V i.
Proof.
  intros H (s & Hs & _). unfold backup_at, cell_reads in *. rewrite Hs in *.
  unfold clamped_best. f_equal. apply clamped_any_ext. auto.
Qed.

Lemma evaluates_reads Vr V i x :
  (∀ j, j ∈ cell_reads i → V j = Vr j) → evaluates Vr V i x → x = backup_at Vr i.
Proof.
  intros H (s & L & Hs & HL & ->). unfold backup_at, cell_reads in *. rewrite Hs in *.
  unfold clamped_best. f_equal. apply clamped_any_ext. intros ai k j Hj.
  destruct (HL ai k j) as [->| ->]; auto.
Qed.

Lemma cell_reads_cell i j :
  dims_ok nx ny nt → wf_states nx ny nt st → j ∈ cell_reads i → cell (zlen st) j.
Proof.
  intros [Hx Hy Ht _] Hst. unfold cell_reads, cell. destruct (zget st i) as [s|]; [|by intros ?%elem_of_nil].
  intros (a & Hj & Ha)%list_elem_of_bind. apply list_elem_of_fmap in Hj as (tr & -> & Htr).
  apply list_elem_of_filter in Htr as [Hb _]. unfold blocked in Hb.
  apply orb_false_elim in Hb as [_ Hb]. destruct (zget st (target nx nt s tr)) as [s'|] eqn:E; [|done].
  by apply zget_Some_lt in E.
Qed.

Lemma active_cell i : active i → cell (zlen st) i.
Proof. intros (s & Hs & _). by apply zget_Some_lt in Hs. Qed.

(** ** Range *)

Lemma clamped_cost_nonneg L s trs : 0 ≤ clamped_cost nx ny nt st L s trs.
Proof.
  unfold clamped_cost. destruct (some_stopped _ _ _ _ _ _ _ _); [consts; lia|].
  apply Z.shiftr_nonneg, wrap_u_range. lia.
Qed.

Lemma clamped_any_range L s : 0 ≤ (clamped_any nx ny nt acts st L s).1 ≤ MAX_COST.
Proof.
  unfold clamped_any. set (cs := clamped_costs nx ny nt st L s 0 acts).
  pose proof (argmin_from_spec MAX_COST cs) as (Hle & _ & Ho).
  destruct (argmin_from 0 cs (MAX_COST, None)) as [m [k|]]; cbn in *; [|consts; lia].
  split; [|done]. destruct Ho as (Hk & _). apply elem_of_zget_1 in Hk.
  assert (∀ ai l, Forall (fun c => 0 ≤ c) (clamped_costs nx ny nt st L s ai l)) as Hnn.
  { intros ai l. revert ai. induction l as [|a l IH]; intros ai; constructor; [|apply IH].
    apply clamped_cost_nonneg. }
  specialize (Hnn 0 acts). rewrite List.Forall_forall in Hnn. by apply Hnn, list_elem_of_In.
Qed.

(** ** Bounds *)

Section bounds.
Context (P : Z) (HP : 0 ≤ P) (Hpen : ∀ j a, zget st j = Some a → 0 ≤ cell_pen a ≤ P).
Context (Hsmall : (zlen st + 1) * P < 2 ^ 46).
Context (Hprob : ∀ s a, a ∈ acts → 0 ≤ s_it s < nt →
  prob_total (trans_of a s) = PROB_BASE ∧ ∀ tr, tr ∈ trans_of a s → 0 ≤ prob tr).

(** The values a load may return. *)
Definition load_ok (L : Z → valuation) (b : Z) : Prop :=
  ∀ k j, cell (zlen st) j → L k j = MAX_COST ∨ 0 ≤ L k j ≤ b.

Lemma unblocked_target s tr :
  blocked nx ny nt st s tr = false → ∃ a, zget st (target nx nt s tr) = Some a ∧
    cell (zlen st) (target nx nt s tr).
Proof.
  unfold blocked. intros [_ Hb]%orb_false_elim.
  destruct (zget st (target nx nt s tr)) as [a|] eqn:E; [|done].
  exists a. split; [done|]. by apply zget_Some_lt in E.
Qed.

(** An action none of whose loads is unreached costs at most [P] more than
    they do, and its sum does not wrap. *)
Lemma cost_sum_bounds L s k trs b :
  0 ≤ b → load_ok L b → (∀ tr, tr ∈ trs → 0 ≤ prob tr) → some_stopped nx ny nt st L s k trs = false →
  0 ≤ cost_sum nx nt st L s k trs ≤ (b + P) * prob_total trs.
Proof.
  intros Hb HL. revert k. induction trs as [|tr trs IH]; intros k Hp; [cbn; lia|].
  cbn [some_stopped cost_sum]. intros [Hst Hrest]%orb_false_elim.
  unfold prob_total. cbn [foldr]. fold (prob_total trs).
  specialize (IH (k + 1) ltac:(intros; apply Hp; by right) Hrest).
  unfold stopped_at in Hst. apply orb_false_elim in Hst as [Hbl Hmax]. apply Z.eqb_neq in Hmax.
  destruct (unblocked_target s tr Hbl) as (a & Ha & Hc). unfold target_cost. rewrite Ha.
  pose proof (Hpen _ _ Ha). destruct (HL k _ Hc) as [?|[? ?]]; [done|].
  specialize (Hp tr ltac:(left)).
  pose proof (Z.mul_le_mono_nonneg_r (L k (target nx nt s tr) + cell_pen a) (b + P) (prob tr) Hp ltac:(lia)).
  pose proof (Z.mul_nonneg_nonneg (L k (target nx nt s tr) + cell_pen a) (prob tr) ltac:(lia) Hp).
  lia.
Qed.

Lemma clamped_cost_exact L s a b :
  a ∈ acts → 0 ≤ s_it s < nt → 0 ≤ b → b + P < 2 ^ 46 → load_ok L b →
  some_stopped nx ny nt st L s 0 (trans_of a s) = false →
  clamped_cost nx ny nt st L s (trans_of a s) = cost_sum nx nt st L s 0 (trans_of a s) / PROB_BASE ∧
  0 ≤ cost_sum nx nt st L s 0 (trans_of a s) / PROB_BASE ≤ b + P.
Proof.
  intros Ha Hs Hb0 Hb HL Hst. destruct (Hprob s a Ha Hs) as [Htot Hp].
  destruct (cost_sum_bounds L s 0 _ b Hb0 HL Hp Hst) as [H1 H2]. rewrite Htot in H2.
  unfold clamped_cost. rewrite Hst. consts. rewrite wrap_u_small by lia.
  rewrite Z.shiftr_div_pow2 by lia. change (2 ^ 18) with 262144. split; [done|]. split.
  - apply Z.div_pos; lia.
  - apply Z.lt_succ_r, Z.div_lt_upper_bound; lia.
Qed.

Lemma dom_load V : dom (zlen st) P MAX_COST V → load_ok (fun _ => V) (zlen st * P).
Proof. intros H k j Hj. destruct (H j Hj); [by left|by right]. Qed.

Lemma mixed_load Vr V L ai b :
  mixed Vr V L → load_ok (fun _ => Vr) b → load_ok (fun _ => V) b → load_ok (L ai) b.
Proof. intros HL H1 H2 k j Hj. destruct (HL ai k j) as [->| ->]; [by apply H1|by apply H2]. Qed.

Lemma stopped_mono L L' s k trs :
  (∀ k j, cell (zlen st) j → L k j ≤ L' k j) → load_ok L' MAX_COST →
  some_stopped nx ny nt st L s k trs = true → (∀ k j, cell (zlen st) j → L k j ≤ MAX_COST) →
  some_stopped nx ny nt st L' s k trs = true.
Proof.
  intros Hle HL'. revert k. induction trs as [|tr trs IH]; intros k; [done|]. cbn.
  rewrite !orb_true_iff. intros [Hs|Hs] Hm; [left|right; by apply IH].
  unfold stopped_at in *. destruct (blocked nx ny nt st s tr) eqn:Eb; [done|]. cbn in *.
  destruct (unblocked_target s tr Eb) as (a & _ & Hc). apply Z.eqb_eq in Hs. apply Z.eqb_eq.
  specialize (Hle k _ Hc). destruct (HL' k _ Hc); lia.
Qed.

Lemma cost_sum_mono L L' s k trs :
  (∀ k j, cell (zlen st) j → L k j ≤ L' k j) → (∀ tr, tr ∈ trs → 0 ≤ prob tr) →
  some_stopped nx ny nt st L' s k trs = false →
  cost_sum nx nt st L s k trs ≤ cost_sum nx nt st L' s k trs.
Proof.
  intros Hle. revert k. induction trs as [|tr trs IH]; intros k Hp; [done|]. cbn.
  intros [Hst Hrest]%orb_false_elim.
  specialize (IH (k + 1) ltac:(intros; apply Hp; by right) Hrest).
  unfold stopped_at in Hst. apply orb_false_elim in Hst as [Hbl _].
  destruct (unblocked_target s tr Hbl) as (a & Ha & Hc). specialize (Hle k _ Hc).
  specialize (Hp tr ltac:(left)).
  pose proof (Z.mul_le_mono_nonneg_r (target_cost nx nt st (L k) s tr)
    (target_cost nx nt st (L' k) s tr) (prob tr) Hp ltac:(unfold target_cost; lia)). lia.
Qed.

Lemma clamped_cost_mono L L' s a b :
  a ∈ acts → 0 ≤ s_it s < nt → 0 ≤ b → b + P < 2 ^ 46 → load_ok L b → load_ok L' b →
  (∀ k j, cell (zlen st) j → L k j ≤ L' k j) →
  clamped_cost nx ny nt st L s (trans_of a s) ≤ clamped_cost nx ny nt st L' s (trans_of a s).
Proof.
  intros Ha Hs Hb0 Hb HL HL' Hle.
  assert (∀ L, load_ok L b → load_ok L MAX_COST) as Hmax.
  { intros M HM k j Hj. destruct (HM k j Hj) as [?|?]; [by left|right; consts; lia]. }
  destruct (some_stopped nx ny nt st L' s 0 (trans_of a s)) eqn:Es'.
  { unfold clamped_cost at 2. rewrite Es'. destruct (some_stopped nx ny nt st L s 0 (trans_of a s)) eqn:Es.
    - unfold clamped_cost. by rewrite Es.
    - destruct (clamped_cost_exact L s a b Ha Hs Hb0 Hb HL Es) as [-> ?]. consts. lia. }
  destruct (some_stopped nx ny nt st L s 0 (trans_of a s)) eqn:Es.
  { rewrite (stopped_mono L L' s 0 _ Hle (Hmax _ HL') Es) in Es'; [done|].
    intros k j Hj. destruct (Hmax _ HL k j Hj); lia. }
  destruct (clamped_cost_exact L s a b Ha Hs Hb0 Hb HL Es) as [-> _].
  destruct (clamped_cost_exact L' s a b Ha Hs Hb0 Hb HL' Es') as [-> _].
  apply Z.div_le_mono; [consts; lia|]. apply cost_sum_mono; [done| |done].
  by apply (Hprob s a).
Qed.

Lemma clamped_any_mono L L' s b :
  0 ≤ s_it s < nt → 0 ≤ b → b + P < 2 ^ 46 → (∀ ai, load_ok (L ai) b) → (∀ ai, load_ok (L' ai) b) →
  (∀ ai k j, cell (zlen st) j → L ai k j ≤ L' ai k j) →
  (clamped_any nx ny nt acts st L s).1 ≤ (clamped_any nx ny nt acts st L' s).1.
Proof.
  intros Hs Hb0 Hb HL HL' Hle. unfold clamped_any. apply argmin_from_mono; [|done].
  apply clamped_costs_rel. intros ai a Ha. apply (clamped_cost_mono _ _ s a b); auto.
Qed.

(** ** The hypotheses of the theory *)

Context (Hd : dims_ok nx ny nt) (Hst : wf_states nx ny nt st).

Abbreviation dom' := (dom (zlen st) P MAX_COST).
Abbreviation below' := (below (zlen st)).

Lemma state_heading i s : zget st i = Some s → 0 ≤ s_it s < nt.
Proof. intros Hs. apply (ws_state _ _ _ _ Hst _ _ Hs). Qed.

Lemma small_b : 0 ≤ zlen st * P ∧ zlen st * P + P < 2 ^ 46.
Proof. pose proof (zlen_nonneg st). nia. Qed.

Lemma backup_range V i : dom' V → active i → 0 ≤ backup_at V i ≤ MAX_COST.
Proof. intros _ (s & Hs & _). unfold backup_at. rewrite Hs. apply clamped_any_range. Qed.

Lemma backup_at_mono U V i :
  dom' U → dom' V → below' U V → active i → backup_at U i ≤ backup_at V i.
Proof.
  intros HU HV Hle (s & Hs & _). unfold backup_at. rewrite Hs. destruct small_b.
  apply (clamped_any_mono _ _ s (zlen st * P)); try done; try (intros; by apply dom_load).
  by eapply state_heading.
Qed.

Lemma evaluates_bounds Vr V i x :
  dom' Vr → dom' V → below' V Vr → active i → evaluates Vr V i x →
  backup_at V i ≤ x ≤ backup_at Vr i.
Proof.
  intros HR HV Hle _ (s & L & Hs & HL & ->). unfold backup_at. rewrite Hs. destruct small_b.
  pose proof (state_heading i s Hs).
  assert (∀ ai, load_ok (L ai) (zlen st * P)) as HLok.
  { intros ai. by apply (mixed_load Vr V); [|apply dom_load..]. }
  split; apply (clamped_any_mono _ _ s (zlen st * P)); try done; try (intros; by apply dom_load);
    intros ai k j Hj; specialize (Hle j Hj); destruct (HL ai k j) as [->| ->]; lia.
Qed.

Lemma evaluates_step Vr V i x b :
  dom' Vr → dom' V → active i → 0 ≤ b → evaluates Vr V i x →
  (∀ j, cell (zlen st) j → Vr j < MAX_COST → Vr j ≤ b) →
  (∀ j, cell (zlen st) j → V j < MAX_COST → V j ≤ b) → x < MAX_COST → x ≤ b + P.
Proof.
  intros HR HV _ Hb0 (s & L & Hs & HL & ->) Hbr Hbv Hlt.
  pose proof (state_heading i s Hs) as Hh. destruct small_b as [? Hsb].
  set (b' := Z.min b (zlen st * P)).
  assert (∀ U, dom' U → (∀ j, cell (zlen st) j → U j < MAX_COST → U j ≤ b) →
    load_ok (fun _ => U) b') as Hload.
  { intros U HU HUb k j Hj. destruct (HU j Hj) as [?|?]; [by left|].
    destruct (decide (U j < MAX_COST)) as [Hl|Hg].
    - right. specialize (HUb j Hj Hl). lia.
    - exfalso. consts. lia. }
  unfold clamped_any in *. set (cs := clamped_costs nx ny nt st L s 0 acts) in *.
  pose proof (argmin_from_spec MAX_COST cs) as (_ & _ & Ho).
  destruct (argmin_from 0 cs (MAX_COST, None)) as [m [k|]]; cbn in *; [|lia].
  destruct Ho as (Hk & _). apply elem_of_zget_1 in Hk.
  assert (∀ ai l, m ∈ clamped_costs nx ny nt st L s ai l → ∃ ai a, a ∈ l ∧
    m = clamped_cost nx ny nt st (L ai) s (trans_of a s)) as Hfind.
  { intros ai l. revert ai. induction l as [|a l IH]; intros ai; cbn; [by intros ?%elem_of_nil|].
    intros [->|Hm]%elem_of_cons; [exists ai, a; split; [left|done]|].
    destruct (IH _ Hm) as (ai' & a' & ? & ?). exists ai', a'. split; [by right|done]. }
  destruct (Hfind 0 acts Hk) as (ai & a & Ha & Em).
  destruct (some_stopped nx ny nt st (L ai) s 0 (trans_of a s)) eqn:Es.
  { unfold clamped_cost in Em. rewrite Es in Em. lia. }
  destruct (clamped_cost_exact (L ai) s a b') as [Ec Hr]; try done; [lia|lia| |lia].
  by apply (mixed_load Vr V); [|apply Hload..].
Qed.

(** ** The theory, for the field *)

Abbreviation bounded' := (bounded (zlen st) P MAX_COST).
Abbreviation super' := (super backup_at active).
Abbreviation round' := (round active evaluates).

Lemma clamped_round V V' :
  bounded' V → super' V → round' V V' → bounded' V' ∧ super' V' ∧ below' V' V.
Proof.
  exact (round_ok _ _ _ _ _ _ HP (zlen_nonneg st) active_cell
    backup_at_mono backup_range evaluates_bounds evaluates_step V V').
Qed.

Lemma clamped_rounds V V' :
  bounded' V → super' V → rtc round' V V' → bounded' V' ∧ super' V' ∧ below' V' V.
Proof.
  exact (rounds_ok _ _ _ _ _ _ HP (zlen_nonneg st) active_cell
    backup_at_mono backup_range evaluates_bounds evaluates_step V V').
Qed.

(** Two solves of one field that settle hold the same value in every cell. *)
Lemma clamped_schedules_agree V U1 U2 j :
  bounded' V → super' V → rtc round' V U1 → rtc round' V U2 →
  fixed backup_at active U1 → fixed backup_at active U2 → cell (zlen st) j → U1 j = U2 j.
Proof.
  exact (schedules_agree _ _ _ _ _ _ HP (zlen_nonneg st) active_cell
    backup_at_mono backup_range evaluates_bounds evaluates_step V U1 U2 j).
Qed.
End bounds.

(** A field prepared for a goal: the goal cells cost nothing, the others are
    unreached. *)
Definition goal_field : Prop :=
  ∀ i s, zget st i = Some s → s_total_cost s = if s_final_state s then 0 else MAX_COST.

Lemma goal_field_start P :
  0 ≤ P → goal_field →
  bounded (zlen st) P MAX_COST (field_value st) ∧ super backup_at active (field_value st).
Proof.
  intros HP Hg. split.
  - intros j Hj. destruct (zget_lt st j Hj) as [s Hs].
    assert (field_value st j = if s_final_state s then 0 else MAX_COST) as ->
      by (unfold field_value; rewrite Hs; by apply (Hg j)).
    destruct (s_final_state s); [right|by left].
    split; [consts; lia|]. apply Z.mul_nonneg_nonneg; [|done].
    apply (reached_range (zlen st)), zlen_nonneg.
  - intros i (s & Hs & Hu). unfold backup_at, field_value. rewrite Hs, (Hg i s Hs).
    unfold updatable in Hu. apply andb_prop in Hu as [_ Hf%negb_true_iff]. rewrite Hf.
    apply clamped_any_range.
Qed.
End clamped_backup.

(** What makes the sums of the backup exact: penalties up to [P], a field small
    enough for the values they add up to, complete transition tables. *)
Record cost_bounds (vi : ValueIterator) (P : Z) : Prop := {
  cb_nonneg : 0 ≤ P;
  cb_pen : ∀ j a, zget (vi_states vi) j = Some a → 0 ≤ cell_pen a ≤ P;
  cb_small : (zlen (vi_states vi) + 1) * P < 2 ^ 46;
  cb_prob : ∀ s a, a ∈ vi_actions vi → 0 ≤ s_it s < vi_cell_num_t vi →
    prob_total (trans_of a s) = PROB_BASE ∧ ∀ tr, tr ∈ trans_of a s → 0 ≤ prob tr
}.

(** ** Checkers, for concrete fields *)

Definition check_bounds (vi : ValueIterator) (P : Z) : bool :=
  (0 <=? P) && forallb (fun s => in_range_b 0 (cell_pen s) (P + 1)) (vi_states vi)
  && ((zlen (vi_states vi) + 1) * P <? 2 ^ 46)
  && forallb (fun a => (zlen (a_state_transitions a) =? vi_cell_num_t vi)
       && forallb (fun trs => (prob_total trs =? PROB_BASE) && forallb (fun tr => 0 <=? prob tr) trs)
            (a_state_transitions a)) (vi_actions vi).

Lemma forallb_elem {A} (p : A → bool) l x : forallb p l = true → x ∈ l → p x = true.
Proof. rewrite forallb_forall. intros H Hx. by apply H, list_elem_of_In. Qed.

Lemma check_bounds_ok vi P : check_bounds vi P = true → cost_bounds vi P.
Proof.
  unfold check_bounds. rewrite !andb_true_iff. intros [[[HP Hpen] Hsmall] Hacts]. bool_to_prop.
  split; [done| |done|].
  - intros j a Ha%elem_of_zget_1. apply (forallb_elem _ _ _ Hpen), in_range_ok in Ha. lia.
  - intros s a Ha Hs. apply (forallb_elem _ _ _ Hacts), andb_prop in Ha as [Hl Ht]. bool_to_prop.
    destruct (zget_lt (a_state_transitions a) (s_it s)) as [trs E]; [lia|].
    unfold trans_of. rewrite E. cbn. apply elem_of_zget_1 in E.
    apply (forallb_elem _ _ _ Ht), andb_prop in E as [Htot Hp]. bool_to_prop. split; [done|].
    intros tr Htr%(forallb_elem _ _ _ Hp). by bool_to_prop.
Qed.

Definition check_goal (st : list State) : bool :=
  forallb (fun s => s_total_cost s =? (if s_final_state s then 0 else MAX_COST)) st.

Lemma check_goal_ok st : check_goal st = true → goal_field st.
Proof. intros H i s Hs%elem_of_zget_1. apply (forallb_elem _ _ _ H) in Hs. by bool_to_prop. Qed.
