(* ===== verification/Wave.v ===== *)
(** * The wave front of the padded solvers

    What frontier2d_par, frontier2d_par_unsafe and frontier2d_fused keep between
    rounds: a cell that is not consistent with the clamped backup has a column
    of the frontier within reach, so the dilated frontier holds every cell that
    a round has to evaluate. *)

From Stdlib Require Import ZArith Lia.
From stdpp Require Import base gmap strings list numbers relations.
From S2P Require Import Prelude Floats Model Bellman Consistency.
From S2P Require Import Bitboard BitboardOps BitboardEnum Active Frontier.
From S2P Require Import Chaotic Padded Clamped.

(** Every action has a transition from every heading. *)
Definition full_tables (nt : Z) (acts : list Action) : Prop :=
  ∀ a t, a ∈ acts → 0 ≤ t < nt → ∃ tr trs, zget (a_state_transitions a) t = Some (tr :: trs).

Definition check_full (nt : Z) (acts : list Action) : bool :=
  forallb (fun a => (zlen (a_state_transitions a) =? nt)
    && forallb (fun trs => match trs with [] => false | _ => true end) (a_state_transitions a)) acts.

Lemma check_full_ok nt acts : check_full nt acts = true → full_tables nt acts.
Proof.
  intros H a t Ha Ht. apply (forallb_elem _ _ _ H), andb_prop in Ha as [Hl Hf]. bool_to_prop.
  destruct (zget_lt (a_state_transitions a) t) as [[|tr trs] E]; [lia| |by exists tr, trs].
  apply elem_of_zget_1, (forallb_elem _ _ _ Hf) in E. done.
Qed.

Lemma argmin_from_max ai cs :
  Forall (fun c => c = MAX_COST) cs → argmin_from ai cs (MAX_COST, None) = (MAX_COST, None).
Proof. intros H. revert ai. induction H as [|c cs -> _ IH]; intros ai; [done|]. cbn [argmin_from fst].
  rewrite Z.ltb_irrefl. apply IH.
Qed.

Section wave.
Context (vi0 : ValueIterator) (Hwf0 : wf_vi vi0) (nx ny nt : Z) (st : list State) (acts : list Action).
Context (Enx : vi_cell_num_x vi0 = nx) (Eny : vi_cell_num_y vi0 = ny) (Ent : vi_cell_num_t vi0 = nt).
Context (Est : vi_states vi0 = st) (Eacts : vi_actions vi0 = acts).
Context (mx my mt : Z) (Hmx : 1 ≤ mx < 64) (Hmy : 1 ≤ my < 2 ^ 31).
Context (Hcov : ∀ a, a ∈ acts → action_covered nt a (mx, my, mt)).
Context (Hfull : full_tables nt acts).

Abbreviation T := (backup_at nx ny nt acts st).
Abbreviation act := (active st).
Abbreviation rd := (cell_reads nx ny nt acts st).

Lemma wave_field : dims_ok nx ny nt ∧ wf_states nx ny nt st ∧ Forall (wf_action nt) acts.
Proof. destruct Hwf0 as [Hd Hs Ha]. by rewrite Enx, Eny, Ent, ?Est, ?Eacts in *. Qed.

(** What a cell reads lies within the displacement. *)
Lemma creads_near i s j :
  zget st i = Some s → j ∈ creads nx ny nt acts st s →
  Z.abs (cx nx nt i - cx nx nt j) ≤ mx ∧ Z.abs (cy nx nt i - cy nx nt j) ≤ my ∧
  ∃ d, Z.abs d ≤ mt ∧ ct nt j = (ct nt i + d) mod nt.
Proof.
  intros Hi Hj. destruct wave_field as (Hd & Hst & Ha). pose proof Hd as [Hx Hy Ht _].
  pose proof (ws_state _ _ _ _ Hst _ _ Hi) as [Hix Hiy Hit -> _ _ _].
  apply list_elem_of_bind in Hj as (a & Hj & Hin).
  apply list_elem_of_fmap in Hj as (tr & -> & Htr). apply list_elem_of_filter in Htr as [Hb Htr].
  pose proof (proj1 (List.Forall_forall _ _) Ha a (proj1 (list_elem_of_In _ _) Hin)) as Haa.
  pose proof (trans_of_wf nt a s tr Haa Htr) as Hwt.
  unfold blocked in Hb. apply orb_false_elim in Hb as [Hin1 _].
  apply negb_false_iff in Hin1. unfold inside in Hin1. rewrite !andb_true_iff in Hin1.
  destruct Hin1 as [[[Hx1 Hx2] Hy1] Hy2]. bool_to_prop.
  pose proof (target_theta nt tr Ht Hwt) as Hth. unfold target.
  destruct (coords_index nx nt (s_ix s) (s_iy s) (s_it s)) as (-> & -> & ->); [done..|].
  destruct (coords_index nx nt (s_ix s + dix tr) (s_iy s + diy tr) (Z.rem (dit tr + nt) nt))
    as (-> & -> & ->); [lia|done|].
  pose proof (trans_of_get nt a s Haa Hit) as Hget.
  destruct (Hcov a Hin (s_it s) (trans_of a s) tr Hget Htr) as (? & ? & d & Hd1 & Hd2). cbn in *.
  split; [lia|]. split; [lia|]. exists d. split; [done|]. destruct Hwt.
  rewrite Z.rem_mod_nonneg by lia. rewrite <- Hd2.
  replace (dit tr + nt) with (dit tr + 1 * nt) by lia. apply Z_mod_plus_full.
Qed.

Lemma cell_columns i : cell (zlen st) i → 0 ≤ cx nx nt i < nx ∧ 0 ≤ cy nx nt i < ny.
Proof.
  intros Hi. destruct wave_field as ([Hx Hy Ht _] & Hst & _). unfold cell in Hi.
  rewrite (ws_len _ _ _ _ Hst) in Hi. by destruct (index_coords nx ny nt i Hx Ht Hi) as (_ & ? & ? & _).
Qed.

(** The cells on the columns of a board. *)
Definition on_board (bb : Bitboard2D) (j : Z) : Prop :=
  cell (zlen st) j ∧ has2 bb (cx nx nt j) (cy nx nt j) = true.

Definition wave_pending (bb : Bitboard2D) (V : valuation) : Prop :=
  ∀ i, act i → V i = T V i ∨ ∃ j, (j = i ∨ j ∈ rd i) ∧ on_board bb j.

Lemma dec_reads (p : Z → bool) (l : list Z) :
  (∃ j, j ∈ l ∧ p j = true) ∨ (∀ j, j ∈ l → p j = false).
Proof.
  destruct (existsb p l) eqn:E.
  - left. apply existsb_exists in E as (j & Hj & ?). exists j. split; [by apply list_elem_of_In|done].
  - right. intros j Hj%list_elem_of_In. apply not_true_iff_false. intros Hp.
    apply not_true_iff_false in E. apply E, existsb_exists. by exists j.
Qed.

(** A cell that reads unreached cells only is unreached. *)
Lemma clamped_unreached V s :
  0 ≤ s_it s < nt → (∀ j, j ∈ creads nx ny nt acts st s → V j = MAX_COST) →
  clamped_best nx ny nt acts st V s = (MAX_COST, None).
Proof.
  intros Hs Hall. unfold clamped_best, clamped_any.
  assert (∀ ai l, (∀ a, a ∈ l → a ∈ acts) →
    Forall (fun c => c = MAX_COST) (clamped_costs nx ny nt st (fun _ _ => V) s ai l)) as Hmax.
  { intros ai l. revert ai. induction l as [|a l IH]; intros ai Hl; constructor;
      [|apply IH; intros; apply Hl; by right].
    assert (a ∈ acts) as Ha by (apply Hl; left).
    destruct (Hfull a (s_it s) Ha Hs) as (tr & trs & Etr).
    assert (trans_of a s = tr :: trs) as E by (unfold trans_of; by rewrite Etr).
    unfold clamped_cost. rewrite E. cbn [some_stopped].
    assert (stopped_at nx ny nt st V s tr = true) as ->; [|done].
    unfold stopped_at. destruct (blocked nx ny nt st s tr) eqn:Eb; [done|]. cbn.
    apply Z.eqb_eq, Hall. apply (elem_of_creads _ _ _ _ _ s a); [done| |done]. rewrite E. left. }
  apply argmin_from_max. by apply Hmax.
Qed.

(** ** Opening, advancing and ending *)

Lemma wave_start bb :
  (∀ i s, zget st i = Some s → s_total_cost s < MAX_COST → has2 bb (s_ix s) (s_iy s) = true) →
  wave_pending bb (field_value st).
Proof.
  intros Hseed i (s & Hs & Hu). destruct wave_field as (Hd & Hst & _). pose proof Hd as [Hx Hy Ht _].
  assert (∀ j, cell (zlen st) j → field_value st j ≠ MAX_COST → on_board bb j) as Hon.
  { intros j Hj Hne. split; [done|]. destruct (zget_lt st j Hj) as [a Ha].
    unfold field_value in Hne. rewrite Ha in Hne.
    pose proof (ws_state _ _ _ _ Hst _ _ Ha) as [? ? ? Ej ? _ _].
    rewrite Ej. destruct (coords_index nx nt (s_ix a) (s_iy a) (s_it a)) as (-> & -> & _); [done..|].
    apply (Hseed _ _ Ha). lia. }
  pose proof (zget_Some_lt _ _ _ Hs) as Hi.
  destruct (decide (field_value st i = MAX_COST)) as [Emax|Hne].
  2: { right. exists i. split; [by left|]. by apply Hon. }
  destruct (dec_reads (fun j => negb (field_value st j =? MAX_COST)) (rd i)) as [(j & Hj & Hp)|Hall].
  - right. exists j. split; [by right|]. apply Hon; [by eapply cell_reads_cell|].
    apply negb_true_iff, Z.eqb_neq in Hp. done.
  - left. rewrite Emax. unfold backup_at. rewrite Hs.
    rewrite clamped_unreached; [done|apply (ws_state _ _ _ _ Hst _ _ Hs)|].
    intros j Hj. apply Z.eqb_eq, negb_false_iff, Hall. unfold cell_reads. by rewrite Hs.
Qed.

Lemma wave_end bb V :
  plane_board vi0 bb → wave_pending bb V → bb2_popcount bb ≤ 0 → fixed T act V.
Proof.
  intros (Hwf & Ex & Ey) Hp Hpop i Hi. destruct (Hp i Hi) as [?|(j & _ & Hj & Hhas)]; [done|].
  destruct (cell_columns j Hj). destruct wave_field as ([? ? _ _] & _).
  assert (0 < bb2_popcount bb); [|lia]. apply popcount2_pos; [done|lia|].
  exists (cx nx nt j), (cy nx nt j). split; [split; lia|done].
Qed.

(** The dilated board as a list of candidates, each cell within reach of the
    board among them. *)
Lemma board_candidates bb :
  plane_board vi0 bb →
  ∃ dil, dilate2d bb mx my = Ok dil ∧ enumerate2 dil = Ok (cells2 dil) ∧
    (∀ c, c ∈ cells2 dil → 0 ≤ c.1 < nx ∧ 0 ≤ c.2 < ny) ∧ NoDup (cells2 dil) ∧
    ∀ i j, act i → j = i ∨ j ∈ rd i → on_board bb j → col nx nt i ∈ cells2 dil.
Proof.
  intros (Hwf & Ex & Ey). destruct wave_field as ([Hx Hy _ _] & _ & _).
  destruct (dilate2d_eq bb mx my Hwf ltac:(lia) ltac:(lia)) as (dil & E & Hwfd & [Dx Dy] & Hdil).
  exists dil. split; [done|]. split; [apply enumerate2_eq; [done|lia]|]. split; [|split].
  - intros [x y] [[? ?] _]%elem_of_cells2. cbn. lia.
  - apply NoDup_cells2.
  - intros i j (s & Hs & _) Hj (Hcj & Hhas). pose proof (zget_Some_lt _ _ _ Hs) as Hci.
    destruct (cell_columns i Hci) as [Hix Hiy]. destruct (cell_columns j Hcj) as [Hjx Hjy].
    apply elem_of_cells2. assert (in2 bb (cx nx nt i) (cy nx nt i)) as Hin by (split; lia).
    split; [split; lia|]. apply (Hdil _ _ Hin). exists (cx nx nt j), (cy nx nt j).
    split; [split; lia|]. destruct Hj as [->|Hj].
    + split; [lia|]. split; [lia|done].
    + unfold cell_reads in Hj. rewrite Hs in Hj. by destruct (creads_near i s j Hs Hj) as (? & ? & _).
Qed.

(** The candidates of a round: every other cell is consistent. *)
Lemma wave_candidates bb V :
  plane_board vi0 bb → wave_pending bb V →
  ∃ dil, dilate2d bb mx my = Ok dil ∧ enumerate2 dil = Ok (cells2 dil) ∧
    (∀ c, c ∈ cells2 dil → 0 ≤ c.1 < nx ∧ 0 ≤ c.2 < ny) ∧ NoDup (cells2 dil) ∧
    ∀ i, act i → col nx nt i ∉ cells2 dil → V i = T V i.
Proof.
  intros Hbb Hp. destruct (board_candidates bb Hbb) as (dil & E & Ee & Hr & Hnd & Hin).
  exists dil. split; [done|]. split; [done|]. split; [done|]. split; [done|].
  intros i Hi Hout. destruct (Hp i Hi) as [?|(j & Hj & Hb)]; [done|]. exfalso. by eapply Hout, Hin.
Qed.

(** After a round that marked the columns of the cells that moved. *)
Lemma wave_after l V V' nf :
  NoDup l → (∀ i, i ∈ l → act i) → (∀ i, act i → i ∉ l → V i = T V i) →
  evals (evaluates nx ny nt acts st) V l V V' →
  (∀ j, cell (zlen st) j → V' j ≠ V j → on_board nf j) → wave_pending nf V'.
Proof.
  intros Hnd Hact Hcons Hev Hmark i Hi. destruct wave_field as (Hd & Hst & _).
  destruct (round_pending T act rd (evaluates nx ny nt acts st)
    (fun U V i Hi H => backup_reads _ _ _ _ _ U V i H Hi)
    (fun Vr V i x _ H => evaluates_reads _ _ _ _ _ Vr V i x H) l V V' Hnd Hact Hcons Hev i Hi)
    as [?|(j & Hj & Hne)]; [by left|].
  right. exists j. split; [by right|]. apply Hmark; [by eapply cell_reads_cell|done].
Qed.
End wave.
