(* ===== verification/Par.v ===== *)
(** * The parallel Jacobi solver (vi_lib/src/solvers/frontier2d_par.rs and
    [final_policy_parallel] of solvers/mod.rs)

    Threads read the arrays of the last round and return lists of moved cells,
    which the caller stores.  The result does not depend on how the candidates
    are split over threads. *)

From Stdlib Require Import ZArith Lia.
From stdpp Require Import base gmap strings list numbers relations.
From S2P Require Import Prelude Floats Model Bellman Observe Consistency.
From S2P Require Import Bitboard BitboardOps BitboardEnum Active Frontier.
From S2P Require Import Chaotic Padded Clamped Wave.

(** [n_threads]: the value of the environment variable when it parses to a
    positive number, then the available parallelism, then 1. *)
Definition n_threads (var : option (option Z)) (available : option Z) : Z :=
  match var with
  | Some (Some n) => if n >=? 1 then n else default 1 available
  | _ => default 1 available
  end.

(** [len.div_ceil(nthreads).max(1)] *)
Definition chunk_size (len nthreads : Z) : Z := Z.max (div_ceil len nthreads) 1.

(** ** [final_policy_parallel] *)

(** What one thread computes for its rows. *)
Definition policy_band (nx nt mx my row_stride : Z) (precomp : list (list (list (Z * Z))))
    (skip : Z → res bool) (cost : list (Z * Z) → Z → res Z) (band : list Z)
    : res (list (Z * option Z)) :=
  for_each band (fun iy out =>
    for_range 0 nx (fun ix out =>
      let col := pad_col nt mx my row_stride ix iy in
      let orig_col := as_u64 (i32_add (i32_mul ix nt) (i32_mul iy (i32_mul nt nx))) in
      for_range 0 nt (fun it out =>
        skipped ← skip (as_u64 (as_i64 (col + it)));
        if (skipped : bool) then Ok out else
        m ← argmin_over (fun bk => cost bk col) precomp it 0 (MAX_COST, None);
        Ok (out ++ [(u64_add orig_col it, m.2)])) out) out) [].

Definition final_policy_parallel (nx ny nt mx my row_stride : Z)
    (precomp : list (list (list (Z * Z)))) (nthreads : Z)
    (skip : Z → res bool) (cost : list (Z * Z) → Z → res Z) : res (list (option Z)) :=
  let n := as_u64 (i32_mul (i32_mul nx ny) nt) in
  let rows := seqZ 0 ny in
  parts ← map_res (policy_band nx nt mx my row_stride precomp skip cost)
            (chunks (chunk_size (zlen rows) nthreads) rows);
  for_each parts (fun part opt => for_each part (fun p opt => vset opt p.1 p.2) opt)
    (vec_repeat None n).

(** [final_policy_hot] *)
Definition final_policy_hot (m : Padded) (hot : list (Z * Z)) (nthreads : Z) : res (list (option Z)) :=
  final_policy_parallel (p_nx m) (p_ny m) (p_nt m) (p_mx m) (p_my m) (p_row_stride m) (p_precomp m)
    nthreads
    (fun pad_idx => f ← vget (p_free m) pad_idx; if negb f then Ok true else vget (p_finals m) pad_idx)
    (fun buckets col => action_cost_pad (slice hot) (p_free m) buckets col).

Definition final_policy (m : Padded) (nthreads : Z) : res (list (option Z)) :=
  final_policy_hot m (p_hot m) nthreads.

(** ** Rounds *)

(** A moved cell: position, new value, column. *)
Definition Update : Type := Z * Z * Z * Z.

(** What one thread computes for its candidates. *)
Definition compute_part (m : Padded) (part : list (Z * Z)) : res (list Update) :=
  for_each part (fun c ups =>
    let '(ixu, iyu) := c in
    let col := pad_col (p_nt m) (p_mx m) (p_my m) (p_row_stride m) (as_i32 ixu) (as_i32 iyu) in
    for_range 0 (p_nt m) (fun it ups =>
      let pad_idx := as_u64 (as_i64 (col + it)) in
      f ← vget (p_free m) pad_idx;
      if negb f then Ok ups else
      fin ← vget (p_finals m) pad_idx;
      if (fin : bool) then Ok ups else
      before ← vget (p_hot m) pad_idx;
      min_cost ← min_over (fun _ bk => action_cost_pad (slice (p_hot m)) (p_free m) bk col)
                   (p_precomp m) it 0 MAX_COST;
      Ok (if negb (min_cost =? before.1) then ups ++ [(pad_idx, min_cost, ixu, iyu)] else ups)) ups) [].

Definition compute_round (m : Padded) (candidates : list (Z * Z)) (nthreads : Z)
    : res (list (list Update)) :=
  map_res (compute_part m) (chunks (chunk_size (zlen candidates) nthreads) candidates).

(** One element of the serial apply phase. *)
Definition apply_update (u : Update) (acc : list (Z * Z) * Z * Bitboard2D)
    : res (list (Z * Z) * Z * Bitboard2D) :=
  let '(pad_idx, min_cost, ixu, iyu) := u in
  let '(hot, updates, nf) := acc in
  h ← vget hot pad_idx;
  hot ← vset hot pad_idx (min_cost, h.2);
  nf ← bb2_set nf ixu iyu;
  Ok (hot, u64_add updates 1, nf).

Definition apply_round (results : list (list Update)) (acc : list (Z * Z) * Z * Bitboard2D)
    : res (list (Z * Z) * Z * Bitboard2D) :=
  for_each results (fun ups acc => for_each ups apply_update acc) acc.

(** What [policy()] writes at a boundary, and the end of a solve. *)
Definition par_materialise (m : Padded) (nthreads : Z) (vi : ValueIterator) : res ValueIterator :=
  opt ← final_policy m nthreads;
  pad_write_back m vi (p_hot m) (Some opt).

(** ** The solver *)

Section par.
Context {S : Type} (obs : SolveObserver S) (max_iter nthreads dx dy : Z).

(** The end of a solve that was not cancelled. *)
Definition par_finish (m : Padded) (vi : ValueIterator) (o : S) (out : SolveOutcome)
    : res (ValueIterator * S * SolveOutcome) :=
  vi ← par_materialise m nthreads vi;
  Ok (vi, o, out).

Fixpoint par_loop (fuel : nat) (m : Padded) (vi : ValueIterator) (frontier : Bitboard2D)
    (updates iters : Z) (pacer : BoundaryPacer) (o : S) : res (ValueIterator * S * SolveOutcome) :=
  match fuel with
  | O => OutOfFuel
  | Datatypes.S fuel =>
      if (0 <? bb2_popcount frontier) && (iters <? max_iter) then
        let iters := u32_add iters 1 in
        dil ← dilate2d frontier dx dy;
        candidates ← enumerate2 dil;
        results ← compute_round m candidates nthreads;
        r ← apply_round results (p_hot m, updates, bb2_new (as_u32 (p_nx m)) (as_u32 (p_ny m)));
        let '(hot, updates, frontier) := r in
        let m := with_hot m hot in
        if 0 <? bb2_popcount frontier then
          let '(d, pacer) := due pacer iters in
          if d then
            b ← materialize_boundary obs (par_materialise m nthreads) iters updates (vi, o);
            let '((vi, o), flow) := b in
            match flow with
            | Continue => par_loop fuel m vi frontier updates iters pacer o
            | Stop => par_finish m vi o (stopped iters updates)
            | Cancel => Ok (vi, o, cancelled iters updates)
            end
          else par_loop fuel m vi frontier updates iters pacer o
        else par_loop fuel m vi frontier updates iters pacer o
      else par_finish m vi o (running iters updates (bb2_popcount frontier =? 0))
  end.
End par.

Definition frontier2d_par_solve_observed {S} (obs : SolveObserver S) (max_iter nthreads : Z)
    (vi : ValueIterator) (o : S) : res (ValueIterator * S * SolveOutcome) :=
  m ← pad_build vi;
  frontier ← seed_frontier_2d vi;
  par_loop obs max_iter nthreads (as_u32 (p_mx m)) (as_u32 (p_my m)) (Datatypes.S (Z.to_nat max_iter))
    m vi frontier 0 0 (pacer_new obs o) o.

Example par_corridor_run :
  (fun r => (s_total_cost <$> vi_states r.1.1, s_optimal_action <$> vi_states r.1.1, r.2)) <$>
  frontier2d_par_solve_observed NullObserver 10 2 (corridor 3) ()
  = Ok ([0; PROB_BASE; 2 * PROB_BASE], [None; Some 0; Some 0], running 3 2 true).
Proof. vm_compute. reflexivity. Qed.

(** ** The arrays of a round *)

Section arrays.
Context (vi : ValueIterator) (Hwf : wf_vi vi) (mx my nx ny nt px py : Z) (st : list State).
Context (Enx : vi_cell_num_x vi = nx) (Eny : vi_cell_num_y vi = ny) (Ent : vi_cell_num_t vi = nt).
Context (Est : vi_states vi = st) (Hpx : px = nx + 2 * mx) (Hpy : py = ny + 2 * my).
Context (Hmx : 0 ≤ mx) (Hmy : 0 ≤ my) (Hpad : px * py * nt < 2 ^ 31).

Abbreviation acts := (vi_actions vi).
Abbreviation pos_of' := (pos_of mx my nt px).
Abbreviation col_of s := (pad_col nt mx my (nt * px) (s_ix s) (s_iy s)).

Lemma arrays_field : dims_ok nx ny nt ∧ wf_states nx ny nt st.
Proof. exact (field_dims vi Hwf nx ny nt st Enx Eny Ent Est). Qed.

(** The state of a cell of the map. *)
Lemma cell_state x y t :
  0 ≤ x < nx → 0 ≤ y < ny → 0 ≤ t < nt →
  ∃ s, zget st (index nx nt x y t) = Some s ∧ s_ix s = x ∧ s_iy s = y ∧ s_it s = t ∧
    as_u64 (as_i64 (pad_col nt mx my (nt * px) x y + t)) = pos_of' s.
Proof.
  intros Hx Hy Ht. destruct arrays_field as [[Hx0 Hy0 Ht0 _] Hst].
  destruct (ws_get nx ny nt st x y t Hst Hx0 Ht0 Hx Hy Ht) as (s & Hs & <- & <- & <-).
  exists s. split; [done|]. split; [done|]. split; [done|]. split; [done|].
  exact (pad_idx_eq vi Hwf mx my nx ny nt px py st Enx Eny Ent Est Hpx Hpy Hmx Hmy Hpad _ s Hs).
Qed.

(** The policy of a cell, where [sel] selects the cells that are given one. *)
Definition policy_at (sel : Z → bool) (V : valuation) (i : Z) : option Z :=
  if sel i then
    match zget st i with Some s => (clamped_best nx ny nt acts st V s).2 | None => None end
  else None.

Definition policy_row (sel : Z → bool) (V : valuation) (y : Z) : list (Z * option Z) :=
  x ← seqZ 0 nx; t ← seqZ 0 nt;
  let i := index nx nt x y t in if sel i then [(i, policy_at sel V i)] else [].

Lemma policy_band_eq V sel skip cost band :
  (∀ i s, zget st i = Some s → skip (pos_of' s) = Ok (negb (sel i))) →
  (∀ i s a, zget st i = Some s → sel i = true → a ∈ acts →
     cost (buckets_of nt px a (s_it s)) (col_of s)
     = Ok (clamped_cost nx ny nt st (fun _ => V) s (trans_of a s))) →
  (∀ y, y ∈ band → 0 ≤ y < ny) →
  policy_band nx nt mx my (nt * px) (pure_precomp vi nt px) skip cost band
  = Ok (band ≫= policy_row sel V).
Proof.
  intros Hskip Hcost Hband. destruct arrays_field as [[Hx0 Hy0 Ht0 Htot] Hst].
  unfold policy_band. rewrite (for_each_append (policy_row sel V)); [done|].
  intros y out Hy%Hband. unfold for_range, policy_row. rewrite !Z.sub_0_r.
  apply for_each_append. clear out. intros x out Hx%elem_of_seqZ.
  apply for_each_append. clear out. intros t out Ht%elem_of_seqZ.
  destruct (cell_state x y t) as (s & Hs & Ex & Ey & Et & ->); [lia..|].
  rewrite (Hskip _ _ Hs), ok_bind. destruct (sel (index nx nt x y t)) eqn:Esel; cbn [negb].
  2: by rewrite app_nil_r.
  unfold pure_precomp. rewrite <- Et, (argmin_over_eq nx ny nt px st _ V s).
  - rewrite ok_bind. do 4 f_equal.
    + rewrite Et. pose proof (index_bounds nx ny nt x y t ltac:(lia) ltac:(lia) ltac:(lia)) as Hb.
      unfold index in *. pose proof (Z.mul_nonneg_nonneg nt nx ltac:(lia) ltac:(lia)).
      pose proof (Z.mul_nonneg_nonneg x nt ltac:(lia) ltac:(lia)).
      pose proof (Z.mul_nonneg_nonneg y (nt * nx) ltac:(lia) ltac:(lia)).
      assert (nt * nx < 2 ^ 31) by nia.
      rewrite (i32_mul_small x nt), (i32_mul_small nt nx), (i32_mul_small y) by (unfold in_i32; lia).
      rewrite i32_add_small by (unfold in_i32; lia).
      rewrite as_u64_small by (unfold in_u64; lia). rewrite u64_add_small by (unfold in_u64; lia). lia.
    + unfold policy_at. by rewrite Et, Esel, Hs.
  - lia.
  - intros a Ha. rewrite <- Ex, <- Ey. by apply (Hcost _ s a Hs).
Qed.

(** Storing a table of entries that agree with a function of the index. *)
Lemma store_entries {A} (l : list (Z * option A)) (f : Z → option A) n :
  0 ≤ n → (∀ p, p ∈ l → 0 ≤ p.1 < n ∧ p.2 = f p.1) →
  ∃ opt, for_each l (fun p opt => vset opt p.1 p.2) (vec_repeat None n) = Ok opt ∧ zlen opt = n ∧
    ∀ i, 0 ≤ i < n → zget opt i = Some (if decide (i ∈ l.*1) then f i else None).
Proof.
  intros Hn Hl.
  destruct (for_each_inv (fun k opt => zlen opt = n ∧
      ∀ i, 0 ≤ i < n → zget opt i = Some (if decide (i ∈ (take k l).*1) then f i else None)) l
    (fun p opt => vset opt p.1 p.2) (vec_repeat None n)) as (opt & E & Hlen & Hopt).
  - rewrite zlen_repeat by done. split; [done|]. intros i Hi. by rewrite zget_repeat.
  - intros k p opt Hk [Hlen Hopt]. destruct (Hl p) as [Hr Hv]; [by eapply list_elem_of_lookup_2|].
    rewrite vset_ok by lia. eexists. split; [done|]. rewrite zlen_zset. split; [done|].
    intros i Hi. rewrite zget_zset by lia. rewrite (take_S_r l k p) by done.
    rewrite fmap_app. cbn. destruct (decide (p.1 = i)) as [<-|Hne].
    + rewrite decide_True by (apply elem_of_app; right; left). by rewrite Hv.
    + rewrite Hopt by done. f_equal. apply decide_ext. rewrite elem_of_app, list_elem_of_singleton.
      split; [by left|]. intros [?|?]; [done|congruence].
  - exists opt. split; [done|]. split; [done|]. by rewrite firstn_all in Hopt.
Qed.

Lemma chunk_size_pos len n : 0 < chunk_size len n.
Proof. unfold chunk_size. lia. Qed.

Lemma final_policy_parallel_eq V sel skip cost nthreads :
  (∀ i s, zget st i = Some s → skip (pos_of' s) = Ok (negb (sel i))) →
  (∀ i s a, zget st i = Some s → sel i = true → a ∈ acts →
     cost (buckets_of nt px a (s_it s)) (col_of s)
     = Ok (clamped_cost nx ny nt st (fun _ => V) s (trans_of a s))) →
  ∃ opt, final_policy_parallel nx ny nt mx my (nt * px) (pure_precomp vi nt px) nthreads skip cost = Ok opt ∧
    ∀ i, 0 ≤ i < zlen st → zget opt i = Some (policy_at sel V i).
Proof.
  intros Hskip Hcost. destruct arrays_field as [Hd Hst]. pose proof Hd as [Hx0 Hy0 Ht0 Htot].
  pose proof (ws_len _ _ _ _ Hst) as Hlst. unfold final_policy_parallel.
  set (k := chunk_size (zlen (seqZ 0 ny)) nthreads). pose proof (chunk_size_pos (zlen (seqZ 0 ny)) nthreads).
  rewrite (map_res_pure _ (fun band => band ≫= policy_row sel V)).
  2: { intros band Hb. apply policy_band_eq; [done|done|]. intros y Hy.
       apply (elem_of_chunks k _ _ _ H Hb) in Hy. apply elem_of_seqZ in Hy. lia. }
  rewrite ok_bind, for_each_fmap, for_each_bind, chunks_bind by done.
  assert (nx * ny ≤ nx * ny * nt) by (apply Z.le_mul_diag_r; nia).
  assert (0 < nx * ny) by nia. assert (0 < nx * ny * nt) by nia.
  rewrite (i32_mul_small nx ny) by (unfold in_i32; lia).
  rewrite (i32_mul_small (nx * ny)) by (unfold in_i32; lia).
  rewrite as_u64_small by (unfold in_u64; lia). rewrite <- Hlst.
  assert (∀ p, p ∈ (seqZ 0 ny ≫= policy_row sel V) ↔
    ∃ x y t, 0 ≤ x < nx ∧ 0 ≤ y < ny ∧ 0 ≤ t < nt ∧ sel (index nx nt x y t) = true ∧
      p = (index nx nt x y t, policy_at sel V (index nx nt x y t))) as Hitems.
  { intros p. rewrite list_elem_of_bind. unfold policy_row. setoid_rewrite list_elem_of_bind.
    setoid_rewrite list_elem_of_bind. setoid_rewrite elem_of_seqZ. split.
    - intros (y & (x & (t & Hp & Ht) & Hx) & Hy). exists x, y, t.
      destruct (sel (index nx nt x y t)); [|by apply elem_of_nil in Hp].
      apply list_elem_of_singleton in Hp. split; [lia|]. split; [lia|]. split; [lia|done].
    - intros (x & y & t & ? & ? & ? & Esel & ->). exists y. split; [|lia]. exists x. split; [|lia].
      exists t. split; [|lia]. rewrite Esel. left. }
  destruct (store_entries (seqZ 0 ny ≫= policy_row sel V) (policy_at sel V) (zlen st))
    as (opt & -> & _ & Hopt).
  - lia.
  - intros p (x & y & t & ? & ? & ? & _ & ->)%Hitems. split; [|done]. cbn. rewrite Hlst.
    by apply index_bounds.
  - exists opt. split; [done|]. intros i Hi. rewrite Hopt by done. f_equal.
    case_decide as Hin; [done|]. unfold policy_at. destruct (sel i) eqn:Esel; [|done].
    exfalso. apply Hin. apply list_elem_of_fmap. exists (i, policy_at sel V i). split; [done|].
    apply Hitems. rewrite Hlst in Hi.
    destruct (index_surj nx ny nt i Hx0 Ht0 Hi) as (x & y & t & ? & ? & ? & ->). by exists x, y, t.
Qed.

(** ** A round *)

Abbreviation T := (backup_at nx ny nt acts st).

(** The cells of a column and those of them a Jacobi round moves. *)
Definition column_cells (c : Z * Z) : list Z := index nx nt c.1 c.2 <$> seqZ 0 nt.

Definition moves (V : valuation) (i : Z) : bool :=
  match zget st i with
  | Some s => updatable s && negb ((clamped_best nx ny nt acts st V s).1 =? V i)
  | None => false
  end.

Definition moved_cells (V : valuation) (cells : list (Z * Z)) : list Z :=
  filter (fun i => moves V i = true) (cells ≫= column_cells).

Definition update_of (V : valuation) (i : Z) : Update :=
  (pos mx my nt px (cx nx nt i) (cy nx nt i) (ct nt i), T V i, cx nx nt i, cy nx nt i).

Context (mt : Z) (Hcov : ∀ a, a ∈ acts → action_covered nt a (mx, my, mt)).
Context (hot : list (Z * Z)) (free finals : list bool) (V : valuation).
Context (Hhot : hot_ok mx my nt px py st hot V) (Hao : arrays_ok mx my nx ny nt px py st free finals).

Abbreviation model := (mkPadded hot free finals (pure_precomp vi nt px) nx ny nt mx my px (nt * px)).

Lemma bind_singletons {A} (p : Z → bool) (f : Z → A) (g : Z → Z) (l : list Z) :
  (l ≫= fun t => if p (g t) then [f (g t)] else []) = f <$> filter (fun i => p i = true) (g <$> l).
Proof.
  induction l as [|t l IH]; [done|]. rewrite bind_cons, IH, fmap_cons, list.filter_cons.
  destruct (p (g t)) eqn:E; [rewrite decide_True by done|rewrite decide_False by congruence]; done.
Qed.

Lemma moved_one c : moved_cells V [c] = filter (fun i => moves V i = true) (column_cells c).
Proof. unfold moved_cells. rewrite bind_cons. cbn [mbind list_bind]. by rewrite app_nil_r. Qed.

Lemma compute_part_eq part :
  (∀ c, c ∈ part → 0 ≤ c.1 < nx ∧ 0 ≤ c.2 < ny) →
  compute_part model part = Ok (part ≫= fun c => update_of V <$> moved_cells V [c]).
Proof.
  intros Hpart. destruct arrays_field as [[Hx0 Hy0 Ht0 Htot] Hst].
  unfold compute_part.
  rewrite (for_each_append (fun c => update_of V <$> moved_cells V [c])); [done|].
  intros [x y] out Hc%Hpart. cbn [fst snd] in Hc. destruct Hc as [Hx Hy].
  cbn [p_nt p_mx p_my p_row_stride p_free p_finals p_hot p_precomp].
  assert (nx < 2 ^ 31 ∧ ny < 2 ^ 31) as [? ?] by nia.
  rewrite !as_i32_small by lia.
  rewrite moved_one. unfold column_cells. cbn [fst snd].
  rewrite <- (bind_singletons (moves V) (update_of V)). unfold for_range. rewrite Z.sub_0_r.
  apply for_each_append. clear out. intros t out Ht%elem_of_seqZ.
  destruct (cell_state x y t) as (s & Hs & Ex & Ey & Et & ->); [lia..|].
  destruct (ao_state _ _ _ _ _ _ _ _ _ _ Hao _ _ Hs) as [Hf Hfin].
  rewrite (proj2 (vget_ok _ _ _) Hf), ok_bind, (proj2 (vget_ok _ _ _) Hfin).
  unfold moves. rewrite Hs. unfold updatable.
  destruct (s_free s); cbn [negb andb]; [|by rewrite app_nil_r].
  rewrite ok_bind. destruct (s_final_state s); cbn [negb andb]; [by rewrite app_nil_r|].
  rewrite (proj2 (vget_ok _ _ _) (proj2 Hhot _ _ Hs)), ok_bind. cbn [fst].
  rewrite <- Et at 1. unfold pure_precomp.
  rewrite (min_over_eq nx ny nt px st _ (fun _ _ => V) s acts 0 MAX_COST None).
  - rewrite ok_bind. fold (clamped_any nx ny nt acts st (fun _ _ => V) s).
    fold (clamped_best nx ny nt acts st V s).
    destruct ((clamped_best nx ny nt acts st V s).1 =? V (index nx nt x y t)); cbn [negb].
    { by rewrite app_nil_r. }
    unfold update_of. destruct (coords_index nx nt x y t) as (-> & -> & ->); [lia..|].
    unfold pos_of. rewrite Ex, Ey, Et. unfold backup_at. by rewrite Hs.
  - lia.
  - intros _ a Ha. rewrite <- Ex, <- Ey.
    apply (action_cost_pad_eq vi Hwf mx my nx ny nt px py st Enx Eny Ent Est Hpx Hpy Hmx Hmy Hpad
      mt Hcov (slice hot) free finals (fun _ => V) (index nx nt x y t) s a); done.
Qed.

(** The stores of a round do not depend on the number of threads. *)
Lemma compute_apply_eq cells nthreads acc :
  (∀ c, c ∈ cells → 0 ≤ c.1 < nx ∧ 0 ≤ c.2 < ny) →
  (results ← compute_round model cells nthreads; apply_round results acc)
  = for_each (update_of V <$> moved_cells V cells) apply_update acc.
Proof.
  intros Hcells. unfold compute_round.
  set (k := chunk_size (zlen cells) nthreads). pose proof (chunk_size_pos (zlen cells) nthreads) as Hk.
  fold k in Hk.
  rewrite (map_res_pure _ (fun part => part ≫= fun c => update_of V <$> moved_cells V [c])).
  2: { intros part Hp. apply compute_part_eq. intros c Hc. apply Hcells.
       by apply (elem_of_chunks k _ part). }
  rewrite ok_bind. unfold apply_round. rewrite for_each_fmap, for_each_bind, chunks_bind by done.
  f_equal.
  rewrite (list_bind_ext_mem _ (fun c => update_of V <$> filter (fun i => moves V i = true) (column_cells c)))
    by (intros c _; by rewrite moved_one).
  unfold moved_cells. by rewrite list_filter_bind, list_fmap_bind_r.
Qed.

Lemma moves_active i : moves V i = true → active st i ∧ T V i ≠ V i.
Proof.
  unfold moves, active, backup_at. destruct (zget st i) as [s|] eqn:E; [|done].
  rewrite andb_true_iff. intros [Hu Hn]. split; [by exists s|].
  by apply negb_true_iff, Z.eqb_neq in Hn.
Qed.

Lemma elem_of_moved cells i :
  (∀ c, c ∈ cells → 0 ≤ c.1 < nx ∧ 0 ≤ c.2 < ny) →
  i ∈ moved_cells V cells ↔ moves V i = true ∧ cell (zlen st) i ∧
  col nx nt i ∈ cells.
Proof.
  intros Hcells. destruct arrays_field as [Hd Hst]. pose proof Hd as [Hx0 Hy0 Ht0 _].
  unfold moved_cells. rewrite list_elem_of_filter, list_elem_of_bind.
  unfold column_cells. setoid_rewrite list_elem_of_fmap. setoid_rewrite elem_of_seqZ. split.
  - intros [Hm (c & (t & -> & Ht) & Hc)].
    split; [done|]. pose proof (moves_active _ Hm) as [(s & Hs & _) _].
    split; [by apply zget_Some_lt in Hs|].
    destruct (Hcells c Hc). destruct (coords_index nx nt c.1 c.2 t) as (Ex & Ey & _); [lia..|].
    unfold col. rewrite Ex, Ey. by destruct c.
  - intros (Hm & Hcell & Hc). split; [done|]. exists (col nx nt i). split; [|done].
    exists (ct nt i). unfold cell in Hcell. rewrite (ws_len _ _ _ _ Hst) in Hcell.
    destruct (index_coords nx ny nt i Hx0 Ht0 Hcell) as (? & ? & ? & ?). split; [done|lia].
Qed.


Lemma NoDup_moved cells :
  (∀ c, c ∈ cells → 0 ≤ c.1 < nx ∧ 0 ≤ c.2 < ny) → NoDup cells → NoDup (moved_cells V cells).
Proof.
  intros Hcells Hnd. destruct arrays_field as [[Hx0 Hy0 Ht0 _] _]. apply list.NoDup_filter.
  assert (∀ c t, c ∈ cells → 0 ≤ t < nt → col nx nt (index nx nt c.1 c.2 t) = c ∧
    ct nt (index nx nt c.1 c.2 t) = t) as Hcol.
  { intros c t Hc Ht. destruct (Hcells c Hc).
    destruct (coords_index nx nt c.1 c.2 t) as (Ex & Ey & Et); [lia..|].
    unfold col. rewrite Ex, Ey, Et. by destruct c. }
  apply NoDup_bind; [| |done].
  - intros c1 c2 i Hc1 Hc2 (t1 & -> & Ht1%elem_of_seqZ)%list_elem_of_fmap
      (t2 & E & Ht2%elem_of_seqZ)%list_elem_of_fmap.
    destruct (Hcol c1 t1) as [<- _]; [done|lia|]. destruct (Hcol c2 t2) as [<- _]; [done|lia|].
    by rewrite E.
  - intros c Hc. apply NoDup_fmap_2_strong; [|apply NoDup_seqZ].
    intros t1 t2 Ht1%elem_of_seqZ Ht2%elem_of_seqZ E.
    destruct (Hcol c t1) as [_ <-]; [done|lia|]. destruct (Hcol c t2) as [_ <-]; [done|lia|].
    by rewrite E.
Qed.

(** Storing the moved cells. *)
Lemma apply_moved l updates nf :
  (∀ i, i ∈ l → moves V i = true) → plane_board vi nf →
  ∃ hot' updates' nf' V', for_each (update_of V <$> l) apply_update (hot, updates, nf)
      = Ok (hot', updates', nf') ∧
    plane_board vi nf' ∧ hot_ok mx my nt px py st hot' V' ∧
    evals (evaluates nx ny nt acts st) V l V V' ∧ (∀ i, i ∈ l → V' i = T V i) ∧
    (∀ i, i ∈ l → has2 nf' (cx nx nt i) (cy nx nt i) = true) ∧ (l = [] → nf' = nf).
Proof.
  intros Hl Hnf. destruct arrays_field as [Hd Hst]. pose proof Hd as [Hx0 Hy0 Ht0 _].
  rewrite for_each_fmap.
  destruct (for_each_inv (fun k acc => let '(h, _, b) := acc in ∃ V', plane_board vi b ∧
      hot_ok mx my nt px py st h V' ∧ evals (evaluates nx ny nt acts st) V (take k l) V V' ∧
      (∀ i, i ∈ take k l → V' i = T V i) ∧
      (∀ i, i ∈ take k l → has2 b (cx nx nt i) (cy nx nt i) = true) ∧ (k = 0%nat → b = nf)) l
    (fun i => apply_update (update_of V i)) (hot, updates, nf)) as ([[h u] b] & E & V' & Hinv).
  - exists V. split; [done|]. split; [done|]. split; [constructor|].
    split; [by intros i ?%elem_of_nil|]. split; [by intros i ?%elem_of_nil|done].
  - intros k i [[h u] b] Hk (V' & Hb & Hh & Hev & Hval & Hmark & _).
    pose proof (Hl i ltac:(by eapply list_elem_of_lookup_2)) as Hm.
    destruct (moves_active i Hm) as [(s & Hs & _) _].
    pose proof (ws_state _ _ _ _ Hst _ _ Hs) as [Hx Hy Ht Ei _ _ _].
    destruct (coords_index nx nt (s_ix s) (s_iy s) (s_it s)) as (Ex & Ey & Et); [done..|].
    unfold update_of. rewrite Ei, Ex, Ey, Et, <- Ei. cbn [apply_update].
    fold (pos_of' s). rewrite (proj2 (vget_ok _ _ _) (proj2 Hh _ _ Hs)), ok_bind.
    rewrite vset_ok by (by eapply zget_Some_lt, (proj2 Hh)). rewrite ok_bind. cbn [snd].
    destruct (plane_set vi b (s_ix s) (s_iy s) Hb) as (b' & -> & Hb' & Hset & Hmono); [lia|lia|].
    rewrite ok_bind. eexists. split; [done|]. exists (upd V' i (T V i)). split; [done|]. split.
    { by apply (hot_ok_upd vi Hwf mx my nx ny nt px py st Enx Eny Ent Est Hpx Hpy Hmx Hmy). }
    rewrite (take_S_r l k i) by done. split; [|split; [|split; [|done]]].
    + eapply evals_snoc; [exact Hev|]. exists (T V i). split; [|done].
      exists s, (fun _ _ => V). split; [done|]. split; [by left|]. unfold backup_at. by rewrite Hs.
    + intros j Hj. unfold upd. case_decide as Eji; [by subst|].
      apply elem_of_app in Hj as [?|?%list_elem_of_singleton]; [by apply Hval|done].
    + intros j [Hj| ->%list_elem_of_singleton]%elem_of_app.
      * pose proof (Hl j ltac:(eapply elem_of_take in Hj as (? & ? & _); by eapply list_elem_of_lookup_2)) as Hmj.
        destruct (moves_active j Hmj) as [(sj & Hsj & _) _].
        pose proof (ws_state _ _ _ _ Hst _ _ Hsj) as [Hxj Hyj Htj Ej _ _ _].
        specialize (Hmark j Hj). rewrite Ej in Hmark |- *.
        destruct (coords_index nx nt (s_ix sj) (s_iy sj) (s_it sj)) as (Exj & Eyj & _); [done..|].
        rewrite Exj, Eyj in Hmark |- *. apply Hmono; [lia|lia|done].
      * by rewrite Ei, Ex, Ey.
  - rewrite firstn_all in Hinv. destruct Hinv as (? & ? & ? & ? & ? & Hnil).
    exists h, u, b, V'. split; [done|]. split; [done|]. split; [done|]. split; [done|].
    split; [done|]. split; [done|]. intros ->. by apply Hnil.
Qed.
End arrays.

(** ** What a padded solver leaves *)

Section solution.
Context (vi : ValueIterator).
Abbreviation nx := (vi_cell_num_x vi).
Abbreviation ny := (vi_cell_num_y vi).
Abbreviation nt := (vi_cell_num_t vi).
Abbreviation st := (vi_states vi).
Abbreviation acts := (vi_actions vi).

(** The backup of the padded solvers on the field of [vi], and their rounds. *)
Definition field_backup : valuation → Z → Z := backup_at nx ny nt acts st.
Definition field_round : valuation → valuation → Prop := round (active st) (evaluates nx ny nt acts st).
Definition field_fixed (V : valuation) : Prop := fixed field_backup (active st) V.

Definition is_updatable (i : Z) : bool :=
  match zget st i with Some s => updatable s | None => false end.

(** The field with the values [V] and the policy they induce. *)
Definition field_solution (V : valuation) : ValueIterator :=
  with_states vi (revalue V (policy_at vi nx ny nt st is_updatable V) st).

(** A round in which some cell moves. *)
Definition moving (V V' : valuation) : Prop :=
  field_round V V' ∧ ∃ j, cell (zlen st) j ∧ V' j ≠ V j.

Definition padded_ok (bound max_iter : Z) (vi' : ValueIterator) (out : SolveOutcome) : Prop :=
  0 ≤ so_iters out ≤ bound ∧ wf_vi vi' ∧ inplace vi vi' ∧
  (so_cancelled out = false → ∃ V, vi' = field_solution V ∧ rtc field_round (field_value st) V ∧
     (so_converged out = true → field_fixed V) ∧
     (so_converged out = false → so_stopped out = false →
        max_iter ≤ so_iters out ∧ nsteps moving (Z.to_nat (so_iters out)) (field_value st) V)).

Definition in_bounds (V : valuation) : Prop := ∀ j, cell (zlen st) j → 0 ≤ V j ≤ MAX_COST.

Lemma start_in_bounds : wf_vi vi → in_bounds (field_value st).
Proof.
  intros [_ Hst _] j Hj. unfold field_value. destruct (zget st j) as [s|] eqn:E; [|consts; lia].
  apply (ws_state _ _ _ _ Hst _ _ E).
Qed.

Lemma round_in_bounds V V' : in_bounds V → field_round V V' → in_bounds V'.
Proof.
  intros Hb (l & _ & _ & Hev). revert Hb.
  assert (∀ Vr V V', evals (evaluates nx ny nt acts st) Vr l V V' → in_bounds V → in_bounds V') as H.
  2: by apply (H V).
  clear. intros Vr V V' Hev. induction Hev as [|i l V V1 V2 (x & (s & L & _ & _ & ->) & ->) _ IH]; [done|].
  intros Hb. apply IH. intros j Hj. unfold upd. case_decide; [|by apply Hb].
  apply clamped_any_range.
Qed.

Lemma rounds_in_bounds V V' : rtc field_round V V' → in_bounds V → in_bounds V'.
Proof. induction 1; eauto using round_in_bounds. Qed.

(** Writing values within the bounds leaves a well-formed planner. *)
Lemma revalue_ok V pol :
  wf_vi vi → in_bounds V → wf_vi (with_states vi (revalue V pol st)) ∧
  inplace vi (with_states vi (revalue V pol st)).
Proof.
  intros [Hd Hst Ha] Hb. split; [|split; [done|apply revalue_static]].
  split; cbn; [done| |done]. split; [rewrite zlen_revalue; apply Hst|].
  intros i s'. rewrite zget_revalue. destruct (zget st i) as [s|] eqn:E; [|done]. intros [= <-].
  pose proof (ws_state _ _ _ _ Hst _ _ E) as [? ? ? ? ? ? ?].
  split; try done. cbn. apply Hb. by apply zget_Some_lt in E.
Qed.
End solution.

(** ** Agreement of the padded solvers *)

(** Solves of one field that converge leave one field. *)
Lemma padded_agree vi P b1 b2 max1 max2 vi1 vi2 out1 out2 :
  wf_vi vi → cost_bounds vi P → goal_field (vi_states vi) →
  padded_ok vi b1 max1 vi1 out1 → padded_ok vi b2 max2 vi2 out2 →
  so_converged out1 = true → so_converged out2 = true →
  so_cancelled out1 = false → so_cancelled out2 = false → vi1 = vi2.
Proof.
  intros [Hd Hst _] [HP Hpen Hsmall Hprob] Hg (_ & _ & _ & H1) (_ & _ & _ & H2) C1 C2 N1 N2.
  destruct (H1 N1) as (V1 & -> & R1 & F1 & _). destruct (H2 N2) as (V2 & -> & R2 & F2 & _).
  destruct (goal_field_start (vi_cell_num_x vi) (vi_cell_num_y vi) (vi_cell_num_t vi) (vi_actions vi)
    (vi_states vi) P HP Hg) as [Hb Hs].
  assert (∀ j, cell (zlen (vi_states vi)) j → V1 j = V2 j) as Hagree.
  { intros j Hj. exact (clamped_schedules_agree _ _ _ _ _ P HP Hpen Hsmall Hprob Hst
      _ V1 V2 j Hb Hs R1 R2 (F1 C1) (F2 C2) Hj). }
  unfold field_solution. f_equal. apply revalue_ext; [done|]. intros i Hi. split; [by apply Hagree|].
  unfold policy_at. destruct (is_updatable vi i); [|done].
  destruct (zget (vi_states vi) i) as [s|] eqn:E; [|done]. f_equal. unfold clamped_best.
  apply clamped_any_ext. intros _ _ j Hj. apply Hagree. eapply cell_reads_cell; [done|done|].
  unfold cell_reads. by rewrite E.
Qed.

(** ** The solver *)

Section solve.
Context (vi : ValueIterator) (Hwf : wf_vi vi) (mx my nx ny nt px py mt : Z) (st : list State).
Context (Enx : vi_cell_num_x vi = nx) (Eny : vi_cell_num_y vi = ny) (Ent : vi_cell_num_t vi = nt).
Context (Est : vi_states vi = st) (Hpx : px = nx + 2 * mx) (Hpy : py = ny + 2 * my).
Context (Hmx : 1 ≤ mx < 64) (Hmy : 1 ≤ my < 2 ^ 31) (Hpad : px * py * nt < 2 ^ 31).
Context (Hcov : ∀ a, a ∈ vi_actions vi → action_covered nt a (mx, my, mt)).
Context (Hfull : full_tables nt (vi_actions vi)).
Context (free finals : list bool) (Hao : arrays_ok mx my nx ny nt px py st free finals).

Abbreviation acts := (vi_actions vi).
Abbreviation model hot := (mkPadded hot free finals (pure_precomp vi nt px) nx ny nt mx my px (nt * px)).
Abbreviation hot_ok' := (hot_ok mx my nt px py st).
Abbreviation pending := (wave_pending nx ny nt st acts).

Lemma par_round bb hot V updates :
  plane_board vi bb → pending bb V → hot_ok' hot V →
  ∃ dil hot' updates' nf V', dilate2d bb mx my = Ok dil ∧ enumerate2 dil = Ok (cells2 dil) ∧
    (∀ n, ∃ results, compute_round (model hot) (cells2 dil) n = Ok results ∧
       apply_round results (hot, updates, bb2_new (as_u32 nx) (as_u32 ny)) = Ok (hot', updates', nf)) ∧
    plane_board vi nf ∧ pending nf V' ∧ hot_ok' hot' V' ∧ field_round vi V V' ∧
    (0 < bb2_popcount nf → ∃ j, cell (zlen st) j ∧ V' j ≠ V j).
Proof.
  intros Hbb Hp Hhot.
  destruct (wave_candidates vi Hwf nx ny nt st acts Enx Eny Ent Est eq_refl mx my mt Hmx Hmy Hcov bb V Hbb Hp)
    as (dil & Ed & Ee & Hcells & Hnd & Hcons).
  set (cells := cells2 dil) in *. set (l := moved_cells vi nx ny nt st V cells).
  destruct (plane_board_new vi Hwf) as [Hnew Hempty]. rewrite Enx, Eny in Hnew, Hempty.
  assert (∀ i, i ∈ l ↔ moves vi nx ny nt st V i = true ∧ cell (zlen st) i ∧ col nx nt i ∈ cells) as Hl.
  { intros i. exact (elem_of_moved vi Hwf nx ny nt st Enx Eny Ent Est V cells i Hcells). }
  destruct (apply_moved vi Hwf mx my nx ny nt px py st Enx Eny Ent Est Hpx Hpy ltac:(lia) ltac:(lia) Hpad
    hot free finals V Hhot Hao l updates (bb2_new (as_u32 nx) (as_u32 ny)))
    as (hot' & u' & nf & V' & Eapply & Hnf & Hhot' & Hev & Hval & Hmark & Hnil);
    [by intros i [? _]%Hl|done|].
  assert (∀ i, i ∈ l → active st i ∧ backup_at nx ny nt acts st V i ≠ V i) as Hact.
  { intros i (Hm & _)%Hl. exact (moves_active vi nx ny nt st V i Hm). }
  assert (NoDup l) as Hndl by exact (NoDup_moved vi Hwf nx ny nt st Enx Eny Ent Est V cells Hcells Hnd).
  exists dil, hot', u', nf, V'. split; [done|]. split; [done|]. split; [|split; [done|]].
  { intros n. apply bind_ok. rewrite <- Eapply.
    exact (compute_apply_eq vi Hwf mx my nx ny nt px py st Enx Eny Ent Est Hpx Hpy ltac:(lia) ltac:(lia)
      Hpad mt Hcov hot free finals V Hhot Hao cells n _ Hcells). }
  split; [|split; [done|split]].
  - eapply (wave_after vi Hwf nx ny nt st acts Enx Eny Ent Est eq_refl l V V' nf Hndl); [| |exact Hev|].
    + by intros i [? _]%Hact.
    + intros i Hi Hout. destruct (decide (col nx nt i ∈ cells)) as [Hin|Hnin]; [|by apply Hcons].
      destruct Hi as (s & Hs & Hu).
      destruct (decide (V i = backup_at nx ny nt acts st V i)) as [?|Hne]; [done|].
      exfalso. apply Hout, Hl. split; [|split; [by apply zget_Some_lt in Hs|done]].
      unfold moves, backup_at in *. rewrite Hs in *. rewrite Hu. cbn.
      apply negb_true_iff, Z.eqb_neq. congruence.
    + intros j Hj Hne. split; [done|]. apply Hmark.
      destruct (decide (j ∈ l)) as [?|Hnin]; [done|]. exfalso. apply Hne.
      by apply (evals_same _ _ _ _ _ j Hev).
  - exists l. split; [|split].
    + done.
    + intros i [? _]%Hact. by rewrite Est.
    + by rewrite Enx, Eny, Ent, Est.
  - intros Hpop. destruct l as [|i l'] eqn:El.
    { exfalso. rewrite (Hnil eq_refl) in Hpop. destruct Hnew as (Hwfn & En & _).
      apply popcount2_pos in Hpop as (x & y & _ & Hxy); [by rewrite Hempty in Hxy|done|].
      rewrite En. apply Hwf. }
    exists i. destruct (Hact i ltac:(left)) as [(s & Hs & _) Hne]. split; [by apply zget_Some_lt in Hs|].
    rewrite Hval by left. done.
Qed.

(** Materialising gives the solution of the current values. *)
Lemma par_materialise_eq hot V n l :
  hot_ok' hot V → same_static l st →
  par_materialise (model hot) n (with_states vi l) = Ok (field_solution vi V).
Proof.
  intros Hhot Hss. unfold par_materialise, final_policy, final_policy_hot.
  cbn [p_nx p_ny p_nt p_mx p_my p_row_stride p_precomp p_hot p_free p_finals].
  destruct (final_policy_parallel_eq vi Hwf mx my nx ny nt px py st Enx Eny Ent Est Hpx Hpy
    ltac:(lia) ltac:(lia) Hpad V (is_updatable vi)
    (fun pad_idx => f ← vget free pad_idx; if negb f then Ok true else vget finals pad_idx)
    (fun buckets col => action_cost_pad (slice hot) free buckets col) n) as (opt & -> & Hopt).
  - intros i s Hs. destruct (ao_state _ _ _ _ _ _ _ _ _ _ Hao _ _ Hs) as [Hf Hfin].
    rewrite (proj2 (vget_ok _ _ _) Hf), ok_bind, (proj2 (vget_ok _ _ _) Hfin).
    unfold is_updatable. rewrite Est, Hs. unfold updatable.
    by destruct (s_free s), (s_final_state s).
  - intros i s a Hs _ Ha.
    by apply (action_cost_pad_eq vi Hwf mx my nx ny nt px py st Enx Eny Ent Est Hpx Hpy
      ltac:(lia) ltac:(lia) Hpad mt Hcov (slice hot) free finals (fun _ => V) i s a).
  - rewrite ok_bind. unfold field_solution. rewrite Enx, Eny, Ent, Est.
    by apply (pad_write_back_eq vi Hwf mx my nx ny nt px py st Enx Eny Ent Est Hpx Hpy
      ltac:(lia) ltac:(lia) Hpad (model hot) hot V opt).
Qed.

Lemma field_solution_ok V :
  rtc (field_round vi) (field_value st) V →
  wf_vi (field_solution vi V) ∧ inplace vi (field_solution vi V).
Proof.
  intros Hr. apply (revalue_ok vi V); [done|].
  eapply rounds_in_bounds; [exact Hr|]. rewrite <- Est. by apply start_in_bounds.
Qed.

Lemma solution_states V : ∃ l, field_solution vi V = with_states vi l ∧ same_static l st.
Proof. eexists. split; [done|]. rewrite <- Est. apply revalue_static. Qed.

Context {S : Type} (obs : SolveObserver S) (max_iter : Z) (Hmax : 0 ≤ max_iter < 2 ^ 32).

Lemma plane_popcount bb : plane_board vi bb → 0 ≤ bb2_popcount bb.
Proof.
  intros (Hw & Ex & _). rewrite popcount_cells; [apply zlen_nonneg|done|]. rewrite Ex. apply Hwf.
Qed.

(** Ending a solve. *)
Lemma par_finish_ok hot V l o out :
  hot_ok' hot V → same_static l st → rtc (field_round vi) (field_value st) V →
  0 ≤ so_iters out ≤ max_iter →
  (so_converged out = true → field_fixed vi V) →
  (so_converged out = false → so_stopped out = false →
     max_iter ≤ so_iters out ∧ nsteps (moving vi) (Z.to_nat (so_iters out)) (field_value st) V) →
  ∃ r, (∀ n, par_finish (S := S) n (model hot) (with_states vi l) o out = Ok r) ∧
    padded_ok vi max_iter max_iter r.1.1 r.2.
Proof.
  intros Hhot Hss Hr Hit Hconv Hsteps. exists (field_solution vi V, o, out). split.
  - intros n. unfold par_finish. by rewrite (par_materialise_eq hot V).
  - destruct (field_solution_ok V Hr). split; [done|]. split; [done|]. split; [done|].
    intros _. exists V. rewrite Est. done.
Qed.

(** A boundary leaves the planner as it is, or writes the current values. *)
Lemma par_boundary_ok hot V l it up o :
  hot_ok' hot V → same_static l st → rtc (field_round vi) (field_value st) V →
  wf_vi (with_states vi l) → inplace vi (with_states vi l) →
  ∃ l1 o1 flow, (∀ n, materialize_boundary obs (par_materialise (model hot) n) it up (with_states vi l, o)
      = Ok ((with_states vi l1, o1), flow)) ∧ same_static l1 st ∧
    wf_vi (with_states vi l1) ∧ inplace vi (with_states vi l1).
Proof.
  intros Hhot Hss Hr Hwfl Hipl. destruct (field_solution_ok V Hr) as [Hwf1 Hip1].
  destruct (solution_states V) as (l1 & El & Hss1). rewrite El in Hwf1, Hip1.
  unfold materialize_boundary. destruct (ob_looks _ _ _ _).
  - setoid_rewrite (par_materialise_eq hot V); [|done|done]. setoid_rewrite ok_bind. rewrite El.
    destruct (ob_boundary _ _ _) as [o1 flow]. by exists l1, o1, flow.
  - setoid_rewrite ok_bind. destruct (ob_boundary _ _ _) as [o1 flow]. by exists l, o1, flow.
Qed.

Lemma par_loop_spec fuel hot V bb updates iters p o l :
  0 ≤ iters ≤ max_iter → max_iter < Z.of_nat fuel + iters → plane_board vi bb → pending bb V →
  hot_ok' hot V → same_static l st → wf_vi (with_states vi l) → inplace vi (with_states vi l) → rtc (field_round vi) (field_value st) V →
  (0 < bb2_popcount bb → nsteps (moving vi) (Z.to_nat iters) (field_value st) V) →
  ∃ r, (∀ n, par_loop obs max_iter n mx my fuel (model hot) (with_states vi l) bb updates iters p o
             = Ok r) ∧ padded_ok vi max_iter max_iter r.1.1 r.2.
Proof.
  revert hot V bb updates iters p o l.
  induction fuel as [|fuel IH]; intros hot V bb updates iters p o l Hit Hf Hbb Hp Hhot Hss Hwfl Hipl Hr Hsteps;
    [lia|]. cbn [par_loop].
  destruct (Z.ltb_spec 0 (bb2_popcount bb)) as [Hpop|Hpop]; cbn [andb].
  2: { apply (par_finish_ok hot V); try done.
       - intros _. unfold field_fixed, field_backup. rewrite Enx, Eny, Ent, Est.
         by apply (wave_end vi Hwf nx ny nt st acts Enx Eny Ent Est eq_refl bb V).
       - cbn. intros Hc%Z.eqb_neq. pose proof (plane_popcount bb Hbb). lia. }
  destruct (Z.ltb_spec iters max_iter) as [Hlt|Hge].
  2: { apply (par_finish_ok hot V); try done.
       - cbn. intros Hc%Z.eqb_eq. lia.
       - intros _ _. split; [cbn; lia|]. auto. }
  rewrite u32_add_small by (unfold in_u32; lia).
  destruct (par_round bb hot V updates Hbb Hp Hhot)
    as (dil & hot1 & u1 & nf & V1 & Ed & Ee & Hround & Hnf & Hp1 & Hhot1 & Hr1 & Hmoved).
  assert (rtc (field_round vi) (field_value st) V1) as Hr1'
    by (eapply rtc_r; [exact Hr|done]).
  assert (0 < bb2_popcount nf → nsteps (moving vi) (Z.to_nat (iters + 1)) (field_value st) V1) as Hs1.
  { intros Hpn. rewrite Z2Nat.inj_add, Nat.add_1_r by lia. eapply nsteps_r; [by apply Hsteps|].
    split; [done|]. rewrite Est. by apply Hmoved. }
  setoid_rewrite Ed. setoid_rewrite ok_bind. setoid_rewrite Ee. setoid_rewrite ok_bind.
  assert (∀ B n (k : list (Z * Z) * Z * Bitboard2D → res B),
    (results ← compute_round (model hot) (cells2 dil) n;
     r ← apply_round results (p_hot (model hot), updates, bb2_new (as_u32 nx) (as_u32 ny)); k r)
    = k (hot1, u1, nf)) as Hrw.
  { intros B n k. destruct (Hround n) as (results & -> & E). rewrite ok_bind.
    cbn [p_hot]. by rewrite E, ok_bind. }
  cbn [p_nx p_ny]. setoid_rewrite Hrw. cbn [with_hot p_free p_finals p_precomp p_nx p_ny p_nt p_mx p_my
    p_nx_pad p_row_stride]. unfold with_hot.
  cbn [p_free p_finals p_precomp p_nx p_ny p_nt p_mx p_my p_nx_pad p_row_stride].
  destruct (0 <? bb2_popcount nf).
  2: { apply (IH hot1 V1); try done; lia. }
  destruct (due p (iters + 1)) as [[] p'].
  2: { apply (IH hot1 V1); try done; lia. }
  destruct (par_boundary_ok hot1 V1 l (iters + 1) u1 o Hhot1 Hss Hr1' Hwfl Hipl)
    as (l1 & o' & flow & Hb & Hss1 & Hwf1 & Hip1).
  setoid_rewrite Hb. setoid_rewrite ok_bind. destruct flow.
  - apply (IH hot1 V1); try done; lia.
  - apply (par_finish_ok hot1 V1); try done; cbn; lia.
  - eexists. split; [done|]. split; [cbn; lia|]. done.
Qed.
End solve.

(** What the padded solvers need of the field: transitions shorter than a board
    word, a framed field that fits an [i32], complete tables. *)
Record padded_fits (vi : ValueIterator) (mx my mt : Z) : Prop := {
  pf_displacement : displacement vi = Ok (mx, my, mt);
  pf_word : mx < 64;
  pf_size : (vi_cell_num_x vi + 2 * mx) * (vi_cell_num_y vi + 2 * my) * vi_cell_num_t vi < 2 ^ 31;
  pf_full : full_tables (vi_cell_num_t vi) (vi_actions vi)
}.

(** The layout of a field that fits. *)
Lemma padded_fits_layout vi mx my mt :
  wf_vi vi → padded_fits vi mx my mt →
  1 ≤ mx < 64 ∧ 1 ≤ my < 2 ^ 31 ∧
  (∀ a, a ∈ vi_actions vi → action_covered (vi_cell_num_t vi) a (mx, my, mt)) ∧
  ∃ hot free finals, pad_build vi = Ok (mkPadded hot free finals
      (pure_precomp vi (vi_cell_num_t vi) (vi_cell_num_x vi + 2 * mx)) (vi_cell_num_x vi) (vi_cell_num_y vi)
      (vi_cell_num_t vi) mx my (vi_cell_num_x vi + 2 * mx) (vi_cell_num_t vi * (vi_cell_num_x vi + 2 * mx))) ∧
    hot_ok mx my (vi_cell_num_t vi) (vi_cell_num_x vi + 2 * mx) (vi_cell_num_y vi + 2 * my) (vi_states vi)
      hot (field_value (vi_states vi)) ∧
    arrays_ok mx my (vi_cell_num_x vi) (vi_cell_num_y vi) (vi_cell_num_t vi) (vi_cell_num_x vi + 2 * mx)
      (vi_cell_num_y vi + 2 * my) (vi_states vi) free finals.
Proof.
  intros Hwf [Hdisp Hw Hsize _].
  destruct (displacement_spec vi Hwf) as (mx' & my' & mt' & E & Hmx & Hmy & _ & Hcov).
  rewrite Hdisp in E. injection E as <- <- <-.
  split; [lia|]. split; [lia|]. split; [done|].
  by apply (pad_build_eq vi Hwf mx my _ _ _ _ _ _ eq_refl eq_refl eq_refl eq_refl eq_refl eq_refl
    ltac:(lia) ltac:(lia) Hsize mt Hcov).
Qed.

(** The seed of a padded solver. *)
Lemma padded_seed vi mx my mt :
  wf_vi vi → padded_fits vi mx my mt →
  ∃ bb, seed_frontier_2d vi = Ok bb ∧ plane_board vi bb ∧
    wave_pending (vi_cell_num_x vi) (vi_cell_num_y vi) (vi_cell_num_t vi) (vi_states vi) (vi_actions vi)
      bb (field_value (vi_states vi)).
Proof.
  intros Hwf Hfit. destruct (seed_frontier_2d_spec vi Hwf) as (bb & E & Hbb & Hseed).
  exists bb. split; [done|]. split; [done|].
  by apply (wave_start vi Hwf _ _ _ _ _ eq_refl eq_refl eq_refl eq_refl eq_refl (pf_full _ _ _ _ Hfit)).
Qed.

Lemma frontier2d_par_spec {S} (obs : SolveObserver S) max_iter vi o mx my mt :
  wf_vi vi → padded_fits vi mx my mt → 0 ≤ max_iter < 2 ^ 32 →
  ∃ r, (∀ n, frontier2d_par_solve_observed obs max_iter n vi o = Ok r) ∧
    padded_ok vi max_iter max_iter r.1.1 r.2.
Proof.
  intros Hwf Hfit Hmax. pose proof Hfit as [_ _ Hsize Hfull].
  destruct (padded_fits_layout vi mx my mt Hwf Hfit) as (Hmx & Hmy & Hcov & hot & free & finals & Eb & Hhot & Hao).
  destruct (padded_seed vi mx my mt Hwf Hfit) as (bb & Es & Hbb & Hp).
  unfold frontier2d_par_solve_observed. rewrite Eb, Es. setoid_rewrite ok_bind. setoid_rewrite ok_bind.
  cbn [p_mx p_my]. rewrite !as_u32_small by lia.
  destruct (par_loop_spec vi Hwf mx my _ _ _ _ _ mt _ eq_refl eq_refl eq_refl eq_refl eq_refl eq_refl
    Hmx Hmy Hsize Hcov free finals Hao obs max_iter Hmax (Datatypes.S (Z.to_nat max_iter)) hot
    (field_value (vi_states vi)) bb 0 0 (pacer_new obs o) o (vi_states vi)) as (r & Hr & Hok);
    try done; try lia.
  - by destruct vi.
  - intros _. constructor.
  - exists r. split; [|done]. intros n. rewrite <- (Hr n). by destruct vi.
Qed.

(** ** Properties *)

(** C6: [frontier2d_par] is sound, deterministic and terminates.  On a
    well-formed planner whose transitions fit the padded layout it returns,
    without a panic, whatever the observer does and with the same result for
    every number of threads, after at most [max_iter] rounds, a well-formed
    planner that differs in values and policies only.  Unless it was cancelled,
    the values come from rounds of backups of single cells and every updatable
    cell has the policy its value has under the clamped backup; on convergence
    every updatable cell holds the fixed point of that backup. *)
Theorem frontier2d_par_fixed_point {S} (obs : SolveObserver S) max_iter vi o mx my mt :
  wf_vi vi → padded_fits vi mx my mt → 0 ≤ max_iter < 2 ^ 32 →
  ∃ r, (∀ nthreads, frontier2d_par_solve_observed obs max_iter nthreads vi o = Ok r) ∧
    padded_ok vi max_iter max_iter r.1.1 r.2.
Proof. apply frontier2d_par_spec. Qed.

Lemma corridor_fits : padded_fits (corridor 3) 1 1 0.
Proof. split; [reflexivity|lia|reflexivity|]. apply check_full_ok. reflexivity. Qed.

Lemma corridor_bounds : cost_bounds (corridor 3) PROB_BASE.
Proof. apply check_bounds_ok. reflexivity. Qed.

Lemma corridor_goal : goal_field (vi_states (corridor 3)).
Proof. apply check_goal_ok. reflexivity. Qed.

Lemma frontier2d_par_fixed_point_witness :
  ∃ r, (∀ nthreads, frontier2d_par_solve_observed NullObserver 10 nthreads (corridor 3) () = Ok r) ∧
    padded_ok (corridor 3) 10 10 r.1.1 r.2.
Proof.
  apply (frontier2d_par_fixed_point NullObserver 10 (corridor 3) () 1 1 0).
  - apply check_vi_ok. reflexivity.
  - exact corridor_fits.
  - lia.
Defined.
