(* ===== verification/Async.v ===== *)
(** * Asynchronous rounds

    What the asynchronous engine of solvers/mod.rs and the compute phase of
    solvers/frontier2d_sparse.rs share: workers claim blocks of a candidate list
    from a cursor and evaluate cells in place while the others write.  A round
    is a step machine: an event runs one step of one worker, and the loads of an
    evaluation may return the value a cell had at the start of the round or the
    one it has now (relaxed atomics, one writer per cell and round, a barrier
    between rounds).  A machine gives the step of a worker; its round, whatever
    the events, is a sequence of backups of single cells. *)

From Stdlib Require Import ZArith Lia.
From stdpp Require Import base gmap strings list numbers relations.
From S2P Require Import Prelude Floats Model Bellman.
From S2P Require Import BitboardOps Active Frontier Chaotic Padded Clamped Wave Par.

(** Which loads of an evaluation see the start of the round: by action and
    position of the load. *)
Definition Picks : Type := Z → Z → bool.

(** What the workers share during a round, and their own states. *)
Record RoundState (M W : Type) : Type := mkRound {
  rs_mem : M;
  rs_cursor : Z;
  rs_workers : list W
}.
Arguments mkRound {M W} _ _ _.
Arguments rs_mem {M W} _.
Arguments rs_cursor {M W} _.
Arguments rs_workers {M W} _.

Record Event : Type := { ev_worker : Z; ev_picks : Picks }.

Section machine.
Context {M W : Type} (worker_step : Picks → W → M → Z → res (W * M * Z)) (waiting : W → bool).

Definition round_step (e : Event) (rs : RoundState M W) : res (RoundState M W) :=
  w ← vget (rs_workers rs) (ev_worker e);
  r ← worker_step (ev_picks e) w (rs_mem rs) (rs_cursor rs);
  let '(w, mem, cursor) := r in
  ws ← vset (rs_workers rs) (ev_worker e) w;
  Ok (mkRound mem cursor ws).

(** A compute phase: it ends when every worker waits at the barrier. *)
Definition run_phase (start : M) (ws : list W) (sched : list Event) : res (RoundState M W) :=
  rs ← for_each sched round_step (mkRound start 0 ws);
  if forallb waiting (rs_workers rs) then Ok rs else OutOfFuel.

(** The block a claim at the cursor takes. *)
Definition claimed (cand : list (Z * Z)) (block cursor : Z) : list (Z * Z) :=
  take (Z.to_nat (Z.min (cursor + block) (zlen cand) - cursor)) (drop (Z.to_nat cursor) cand).
End machine.

(** A claim moves the cursor past at most as many candidates as it takes. *)
Lemma claimed_len cand block cursor :
  0 < block → 0 ≤ cursor < zlen cand →
  ∃ m, 1 ≤ m ≤ zlen cand - cursor ∧ zlen (claimed cand block cursor) ≤ m ∧
    Z.max 0 (zlen cand - (cursor + block)) = zlen cand - cursor - m.
Proof.
  intros Hb Hc. exists (Z.min block (zlen cand - cursor)). split; [lia|]. split; [|lia].
  unfold claimed. unfold zlen at 1. rewrite length_take. lia.
Qed.

(** ** What an evaluation promises

    [holds mem V] says that the arrays store the values [V]; [fit] is what an
    evaluation needs of the values.  The memory layouts discharge [GsCells];
    the machines are proved against it. *)

Class GsCells {M : Type} (nx ny nt : Z) (acts : list Action) (st : list State)
    (eval : Picks → M → M → Z → Z → Z → res (M * bool)) (holds : M → valuation → Prop)
    (fit : valuation → valuation → Z → Prop) : Prop := {
  gs_active : ∀ p old cur Vr V x y t s,
    holds old Vr → holds cur V → 0 ≤ x < nx → 0 ≤ y < ny → 0 ≤ t < nt →
    zget st (index nx nt x y t) = Some s → updatable s = true → fit Vr V (index nx nt x y t) →
    ∃ cur' v, eval p old cur x y t = Ok (cur', negb (v =? V (index nx nt x y t))) ∧
      evaluates nx ny nt acts st Vr V (index nx nt x y t) v ∧
      holds cur' (upd V (index nx nt x y t) v);
  gs_passive : ∀ p old cur Vr V x y t s,
    holds old Vr → holds cur V → 0 ≤ x < nx → 0 ≤ y < ny → 0 ≤ t < nt →
    zget st (index nx nt x y t) = Some s → updatable s = false →
    eval p old cur x y t = Ok (cur, false)
}.

(** ** A round is a sequence of backups *)

Lemma worker_split {W} (ws : list W) k w :
  zget ws k = Some w → ∃ l1 l2, ws = l1 ++ w :: l2 ∧ ∀ w', vset ws k w' = Ok (l1 ++ w' :: l2).
Proof.
  intros Hk. pose proof (zget_Some_lt _ _ _ Hk) as Hr. unfold zget in Hk.
  rewrite decide_True in Hk by lia.
  exists (take (Z.to_nat k) ws), (drop (S (Z.to_nat k)) ws). split.
  - by rewrite take_drop_middle.
  - intros w'. rewrite vset_ok by done. unfold zset. rewrite decide_True by lia.
    rewrite insert_take_drop; [done|]. by eapply lookup_lt_Some.
Qed.

Lemma elem_of_middle {W} (l1 l2 : list W) w v : v ∈ l1 ++ w :: l2 ↔ v = w ∨ v ∈ l1 ++ l2.
Proof. rewrite !elem_of_app, elem_of_cons. tauto. Qed.

Lemma Permutation_focus {A} (A1 w A2 R : list A) : (A1 ++ w ++ A2) ++ R ≡ₚ w ++ (A1 ++ A2) ++ R.
Proof. rewrite <- !app_assoc. apply Permutation_app_swap_app. Qed.

Section round_proof.
Context {M W : Type} (nx ny nt : Z) (acts : list Action) (st : list State).
Context (Hd : dims_ok nx ny nt) (Hst : wf_states nx ny nt st).
Context (eval : Picks → M → M → Z → Z → Z → res (M * bool)) (holds : M → valuation → Prop).
Context (fit : valuation → valuation → Z → Prop).
Context `{Hcells : !GsCells nx ny nt acts st eval holds fit}.

Abbreviation ev := (evaluates nx ny nt acts st).

(** What the values of a round keep, strong enough for the evaluations. *)
Context (inv : valuation → valuation → Prop).
Context (inv_fit : ∀ Vr V i, inv Vr V → active st i → V i = Vr i → fit Vr V i).
Context (inv_step : ∀ Vr V i V', inv Vr V → active st i → V i = Vr i → eval1 ev Vr V i V' → inv Vr V').

(** The candidates, the headings a round evaluates of each, and where the
    round starts. *)
Context (cand : list (Z * Z)) (heads : Z * Z → list Z) (start : M) (Vr : valuation).
Context (Hcand : ∀ c, c ∈ cand → 0 ≤ c.1 < nx ∧ 0 ≤ c.2 < ny) (Hnd : NoDup cand).
Context (Hheads : ∀ c, c ∈ cand → NoDup (heads c) ∧ ∀ t, t ∈ heads c → 0 ≤ t < nt).
Context (Hstart : holds start Vr) (Hinv : inv Vr Vr).

(** What a worker still has to evaluate of its block, what it reports of the
    cells that moved, and what its state keeps. *)
Context {K : Type} (key : Z → K) (todo : W → list Z) (marks : W → K → Prop).
Context (waiting : W → bool) (worker_ok : Z → W → Prop).
Context (ok_mono : ∀ c c' w, worker_ok c w → c ≤ c' → worker_ok c' w).
Context (ok_waiting : ∀ c w, worker_ok c w → waiting w = true → todo w = [] ∧ zlen cand ≤ c).

Definition head_cells (c : Z * Z) : list Z := index nx nt c.1 c.2 <$> heads c.
Abbreviation cc := head_cells.

Definition updb (i : Z) : bool := match zget st i with Some s => updatable s | None => false end.
Definition evaluated (L : list Z) : list Z := filter (fun i => updb i = true) L.

Definition waiting_count (ws : list W) : Z := zlen (filter (fun w => waiting w = true) ws).

(** The state of a round after the evaluation of [L]. *)
Record round_state_ok (L : list Z) (V : valuation) (rs : RoundState M W) : Prop := {
  rk_evals : evals ev Vr (evaluated L) Vr V;
  rk_holds : holds (rs_mem rs) V;
  rk_inv : inv Vr V;
  rk_perm : (cand ≫= cc) ≡ₚ
    L ++ (rs_workers rs ≫= todo) ++ (drop (Z.to_nat (rs_cursor rs)) cand ≫= cc);
  rk_workers : ∀ w, w ∈ rs_workers rs → worker_ok (rs_cursor rs) w;
  rk_cursor : 0 ≤ rs_cursor rs ≤ zlen cand + 15 + 16 * waiting_count (rs_workers rs);
  rk_marks : ∀ k, (∃ w, w ∈ rs_workers rs ∧ marks w k) ↔
                  (∃ j, j ∈ L ∧ key j = k ∧ V j ≠ Vr j)
}.

Lemma NoDup_heads : NoDup (cand ≫= cc).
Proof.
  destruct Hd as [Hx0 Hy0 Ht0 _].
  assert (∀ c t, c ∈ cand → t ∈ heads c → col nx nt (index nx nt c.1 c.2 t) = c ∧
    ct nt (index nx nt c.1 c.2 t) = t) as Hcol.
  { intros c t Hc Ht. destruct (Hcand c Hc). destruct (Hheads c Hc) as [_ Hr]. specialize (Hr t Ht).
    destruct (coords_index nx nt c.1 c.2 t) as (Ex & Ey & Et); [lia..|].
    unfold col. rewrite Ex, Ey, Et. by destruct c. }
  apply NoDup_bind; [| |done].
  - intros c1 c2 i Hc1 Hc2 (t1 & -> & Ht1)%list_elem_of_fmap (t2 & E & Ht2)%list_elem_of_fmap.
    destruct (Hcol c1 t1) as [<- _]; [done..|]. destruct (Hcol c2 t2) as [<- _]; [done..|].
    by rewrite E.
  - intros c Hc. apply NoDup_fmap_2_strong; [|by apply Hheads].
    intros t1 t2 Ht1 Ht2 E.
    destruct (Hcol c t1) as [_ <-]; [done..|]. destruct (Hcol c t2) as [_ <-]; [done..|].
    by rewrite E.
Qed.

Lemma marks_middle l1 w l2 k :
  (∃ v, v ∈ l1 ++ w :: l2 ∧ marks v k) ↔ (∃ v, v ∈ l1 ++ l2 ∧ marks v k) ∨ marks w k.
Proof.
  setoid_rewrite elem_of_middle. split.
  - intros (v & [->|Hv] & Hm); [by right|left; by exists v].
  - intros [(v & Hv & Hm)|Hm]; [exists v|exists w]; auto.
Qed.

Lemma waiting_middle l1 w l2 :
  waiting_count (l1 ++ w :: l2) = waiting_count (l1 ++ l2) + (if waiting w then 1 else 0).
Proof.
  unfold waiting_count. rewrite !list.filter_app, list.filter_cons, !zlen_app.
  destruct (waiting w); [rewrite decide_True by done|rewrite decide_False by done].
  - unfold zlen. cbn [length]. lia.
  - lia.
Qed.

Lemma waiting_count_bounds ws : 0 ≤ waiting_count ws ≤ zlen ws.
Proof.
  unfold waiting_count, zlen. pose proof (length_filter (fun w => waiting w = true) ws). lia.
Qed.

(** A step that evaluates nothing. *)
Lemma quiet_step L V rs l1 w l2 w' cursor' :
  round_state_ok L V rs → rs_workers rs = l1 ++ w :: l2 →
  todo w ++ (drop (Z.to_nat (rs_cursor rs)) cand ≫= cc)
    ≡ₚ todo w' ++ (drop (Z.to_nat cursor') cand ≫= cc) →
  (∀ k, marks w k ↔ marks w' k) → worker_ok cursor' w' → rs_cursor rs ≤ cursor' →
  cursor' ≤ zlen cand + 15 + 16 * waiting_count (l1 ++ w' :: l2) →
  round_state_ok L V (mkRound (rs_mem rs) cursor' (l1 ++ w' :: l2)).
Proof.
  intros [Hev Hh Hi Hp Hw Hc Hm] Ews Htodo Hmark Hok Hle Hcur. rewrite Ews in *.
  split; cbn [rs_mem rs_cursor rs_workers]; try done.
  - rewrite Hp. rewrite !bind_app, !bind_cons. apply Permutation_app_head.
    rewrite <- !app_assoc. apply Permutation_app_head.
    rewrite !app_assoc, (Permutation_app_comm (todo w)), (Permutation_app_comm (todo w')).
    rewrite <- !app_assoc. by rewrite Htodo.
  - intros v [->|Hv]%elem_of_middle; [done|]. eapply ok_mono; [|exact Hle].
    apply Hw, elem_of_middle. by right.
  - lia.
  - intros k. rewrite <- Hm, !marks_middle. specialize (Hmark k). tauto.
Qed.

(** A step that evaluates the first cell a worker has to do. *)
Lemma cell_step L V rs l1 w l2 x y t rest p :
  round_state_ok L V rs → rs_workers rs = l1 ++ w :: l2 → waiting w = false →
  0 ≤ x < nx → 0 ≤ y < ny → 0 ≤ t < nt → todo w = index nx nt x y t :: rest →
  ∃ mem' moved V', eval p start (rs_mem rs) x y t = Ok (mem', moved) ∧
    ∀ w', todo w' = rest → waiting w' = false → worker_ok (rs_cursor rs) w' →
      (∀ k, marks w' k ↔ marks w k ∨ (moved = true ∧ key (index nx nt x y t) = k)) →
      round_state_ok (L ++ [index nx nt x y t]) V' (mkRound mem' (rs_cursor rs) (l1 ++ w' :: l2)).
Proof.
  intros [Hev Hh Hi Hp Hw Hc Hm] Ews Hwait Hx Hy Ht Etodo. rewrite Ews in *.
  pose proof Hd as [Hx0 Hy0 Ht0 _]. set (i := index nx nt x y t) in *.
  destruct (ws_get nx ny nt st x y t Hst Hx0 Ht0 Hx Hy Ht) as (s & Hs & _). fold i in Hs.
  assert (i ∉ L) as HiL.
  { pose proof NoDup_heads as Hn. rewrite Hp in Hn. apply list.NoDup_app in Hn as (_ & Hn & _).
    intros HiL. apply (Hn _ HiL). rewrite bind_app, bind_cons, Etodo, !elem_of_app, elem_of_cons. auto. }
  assert (V i = Vr i) as Hsame.
  { apply (evals_same _ _ _ _ _ i Hev). unfold evaluated. rewrite list_elem_of_filter. tauto. }
  (* the rest depends on the cell *)
  assert (∀ mem' (moved : bool) V' w', holds mem' V' → inv Vr V' →
    evals ev Vr (evaluated (L ++ [i])) Vr V' → (∀ j, j ≠ i → V' j = V j) →
    (moved = true ↔ V' i ≠ Vr i) →
    todo w' = rest → waiting w' = false → worker_ok (rs_cursor rs) w' →
    (∀ k, marks w' k ↔ marks w k ∨ (moved = true ∧ key i = k)) →
    round_state_ok (L ++ [i]) V' (mkRound mem' (rs_cursor rs) (l1 ++ w' :: l2))) as Hclose.
  { intros mem' moved V' w' Hh' Hi' Hev' Hother Hmoved Et' Hwait' Hok' Hmk.
    split; cbn [rs_mem rs_cursor rs_workers]; try done.
    - rewrite Hp, !bind_app, !bind_cons, Et', Etodo, !Permutation_focus.
      rewrite <- (app_assoc L [i]). apply Permutation_app_head. done.
    - intros v [->|Hv]%elem_of_middle; [done|]. apply Hw, elem_of_middle. by right.
    - rewrite waiting_middle in Hc |- *. by rewrite Hwait, Hwait' in *.
    - intros k. rewrite marks_middle, Hmk. specialize (Hm k). rewrite marks_middle in Hm.
      assert ((∃ j, j ∈ L ++ [i] ∧ key j = k ∧ V' j ≠ Vr j) ↔
        (∃ j, j ∈ L ∧ key j = k ∧ V j ≠ Vr j) ∨ (moved = true ∧ key i = k)) as ->; [|tauto].
      setoid_rewrite elem_of_app. setoid_rewrite list_elem_of_singleton. rewrite Hmoved. split.
      + intros (j & [Hj| ->] & Hjc & Hne); [left|by right].
        exists j. split; [done|]. split; [done|]. rewrite <- Hother by (intros ->; done). done.
      + intros [(j & Hj & Hjc & Hne)|[Hne <-]].
        * exists j. split; [by left|]. split; [done|]. rewrite Hother by (intros ->; done). done.
        * exists i. split; [by right|done]. }
  unfold evaluated in *. rewrite list.filter_app, list.filter_cons, list.filter_nil in Hclose.
  destruct (updatable s) eqn:Hu.
  - assert (updb i = true) as Hup by (unfold updb; by rewrite Hs).
    assert (active st i) as Hact by by exists s.
    destruct (gs_active p start (rs_mem rs) Vr V x y t s Hstart Hh Hx Hy Ht Hs Hu)
      as (mem' & v & E & Hevv & Hh'); [by apply inv_fit|].
    fold i in E, Hevv, Hh'. exists mem', (negb (v =? V i)), (upd V i v). split; [exact E|].
    intros w'. apply Hclose.
    + done.
    + eapply inv_step; [exact Hi|exact Hact|exact Hsame|]. by exists v.
    + rewrite decide_True by done. eapply evals_snoc; [exact Hev|]. by exists v.
    + intros j Hj. unfold upd. by rewrite decide_False.
    + unfold upd. rewrite decide_True by done. rewrite negb_true_iff, Z.eqb_neq. by rewrite Hsame.
  - assert (updb i = false) as Hup by (unfold updb; by rewrite Hs).
    pose proof (gs_passive p start (rs_mem rs) Vr V x y t s Hstart Hh Hx Hy Ht Hs Hu) as E.
    exists (rs_mem rs), false, V. split; [exact E|]. intros w'. apply Hclose; try done.
    rewrite decide_False by congruence. by rewrite app_nil_r.
Qed.

(** Claiming a block, or finding none. *)
Lemma claim_block cursor :
  0 ≤ cursor < zlen cand →
  drop (Z.to_nat cursor) cand = claimed cand 16 cursor ++ drop (Z.to_nat (cursor + 16)) cand ∧
  (∀ c, c ∈ claimed cand 16 cursor → c ∈ cand).
Proof.
  intros Hlt. unfold claimed. set (e := Z.min (cursor + 16) (zlen cand)).
  assert (drop (Z.to_nat cursor) cand = take (Z.to_nat (e - cursor)) (drop (Z.to_nat cursor) cand)
    ++ drop (Z.to_nat (cursor + 16)) cand) as E.
  { rewrite <- (take_drop (Z.to_nat (e - cursor)) (drop (Z.to_nat cursor) cand)) at 1.
    f_equal. rewrite drop_drop. unfold e, zlen in *.
    destruct (Z.le_ge_cases (cursor + 16) (Z.of_nat (length cand))).
    - f_equal. lia.
    - by rewrite !drop_ge by lia. }
  split; [exact E|]. intros c Hin. rewrite <- (take_drop (Z.to_nat cursor) cand).
  apply elem_of_app. right. rewrite E. apply elem_of_app. by left.
Qed.

Lemma claim_step L V rs l1 w l2 w' :
  round_state_ok L V rs → rs_workers rs = l1 ++ w :: l2 → waiting w = false → todo w = [] →
  zlen cand + 31 + 16 * zlen (rs_workers rs) < 2 ^ 64 →
  (∀ k, marks w k ↔ marks w' k) →
  (rs_cursor rs < zlen cand → waiting w' = false ∧ todo w' = claimed cand 16 (rs_cursor rs) ≫= cc) →
  (zlen cand ≤ rs_cursor rs → waiting w' = true ∧ todo w' = []) →
  (0 ≤ rs_cursor rs → worker_ok (rs_cursor rs + 16) w') →
  round_state_ok L V (mkRound (rs_mem rs) (u64_add (rs_cursor rs) 16) (l1 ++ w' :: l2)).
Proof.
  intros Hok Ews Hwait Et Hsmall Hmk Hsome Hnone Hok'. pose proof Hok as [_ _ _ _ _ Hc _].
  pose proof (waiting_count_bounds (rs_workers rs)) as Hwc.
  rewrite u64_add_small by (unfold in_u64; lia).
  pose proof (waiting_count_bounds (l1 ++ l2)). rewrite Ews, waiting_middle, Hwait in Hc.
  destruct (Z.lt_ge_cases (rs_cursor rs) (zlen cand)) as [Hlt|Hge].
  - destruct (Hsome Hlt) as [Hw' Et']. destruct (claim_block (rs_cursor rs)) as [Edrop _]; [lia|].
    apply (quiet_step L V rs l1 w l2 _ _ Hok Ews); [|exact Hmk|apply Hok'; lia|lia|].
    + by rewrite Edrop, bind_app, Et, Et'.
    + rewrite waiting_middle, Hw'. lia.
  - destruct (Hnone Hge) as [Hw' Et'].
    apply (quiet_step L V rs l1 w l2 _ _ Hok Ews); [|exact Hmk|apply Hok'; lia|lia|].
    + rewrite Et, Et'. unfold zlen in Hge. by rewrite !drop_ge by lia.
    + rewrite waiting_middle, Hw'. lia.
Qed.

Lemma round_start (w0 : W) nthreads :
  todo w0 = [] → (∀ k, ¬ marks w0 k) → worker_ok 0 w0 →
  round_state_ok [] Vr (mkRound start 0 (vec_repeat w0 nthreads)).
Proof.
  intros Et Hm Hok.
  assert (∀ w, w ∈ vec_repeat w0 nthreads → w = w0) as Hnew.
  { intros w Hw. unfold vec_repeat in Hw. by apply elem_of_replicate in Hw as [-> _]. }
  split; cbn [rs_mem rs_cursor rs_workers]; try done.
  - constructor.
  - rewrite drop_0. assert ((vec_repeat w0 nthreads ≫= todo) = []) as ->; [|done].
    unfold vec_repeat. induction (Z.to_nat nthreads) as [|k IH]; [done|]. cbn [replicate].
    by rewrite bind_cons, IH, Et.
  - by intros w ->%Hnew.
  - pose proof (waiting_count_bounds (vec_repeat w0 nthreads)). pose proof (zlen_nonneg cand). lia.
  - intros k. split; [by intros (w & ->%Hnew & ?%Hm)|by intros (j & ?%elem_of_nil & _)].
Qed.

(** What a completed compute phase leaves. *)
Definition phase_ok (rs : RoundState M W) : Prop :=
  ∃ l V', NoDup l ∧ (∀ i, i ∈ l → active st i) ∧
    (∀ i, active st i → col nx nt i ∈ cand → ct nt i ∈ heads (col nx nt i) → i ∈ l) ∧
    evals ev Vr l Vr V' ∧ holds (rs_mem rs) V' ∧ inv Vr V' ∧
    (∀ w, w ∈ rs_workers rs → worker_ok (rs_cursor rs) w ∧ waiting w = true) ∧
    ∀ k, (∃ w, w ∈ rs_workers rs ∧ marks w k) ↔
         (∃ j, cell (zlen st) j ∧ key j = k ∧ V' j ≠ Vr j).

Lemma updb_active i : updb i = true ↔ active st i.
Proof.
  unfold updb, active. destruct (zget st i) as [s|].
  - split; [intros Hu; by exists s|by intros (s' & [= ->] & ?)].
  - split; [done|by intros (? & ? & _)].
Qed.

Lemma phase_end L V rs :
  round_state_ok L V rs → 0 < zlen (rs_workers rs) → forallb waiting (rs_workers rs) = true →
  phase_ok rs.
Proof.
  intros [Hev Hh Hi Hp Hw Hc Hm] Hlen Hall. pose proof Hd as [Hx0 Hy0 Ht0 _].
  assert (∀ w, w ∈ rs_workers rs → todo w = [] ∧ zlen cand ≤ rs_cursor rs) as Hwait.
  { intros w Hin. apply (ok_waiting _ _ (Hw w Hin)). by apply (forallb_elem _ _ _ Hall). }
  assert (zlen cand ≤ rs_cursor rs) as Hcur.
  { destruct (rs_workers rs) as [|w ws] eqn:E; [done|]. apply (Hwait w). left. }
  assert ((rs_workers rs ≫= todo) = []) as Hnil.
  { clear -Hwait. induction (rs_workers rs) as [|w ws IH]; [done|]. rewrite bind_cons.
    rewrite IH by (intros; apply Hwait; by right). by destruct (Hwait w ltac:(left)) as [-> _]. }
  rewrite Hnil, drop_ge in Hp by (unfold zlen in Hcur; lia). cbn in Hp. rewrite app_nil_r in Hp.
  exists (evaluated L), V.
  assert (NoDup L) as HndL by (rewrite <- Hp; apply NoDup_heads).
  split; [by apply list.NoDup_filter|]. split.
  { intros i [Hu _]%list_elem_of_filter. by apply updb_active. }
  split.
  { intros i Hact Hin Hhd. apply list_elem_of_filter. split; [by apply updb_active|]. rewrite <- Hp.
    apply list_elem_of_bind. exists (col nx nt i). split; [|done].
    destruct Hact as (s & Hs & _). pose proof (zget_Some_lt _ _ _ Hs) as Hr.
    rewrite (ws_len _ _ _ _ Hst) in Hr. destruct (index_coords nx ny nt i Hx0 Ht0 Hr) as (E & _ & _ & Ht).
    apply list_elem_of_fmap. exists (ct nt i). by split; [exact E|]. }
  split; [done|]. split; [done|]. split; [done|]. split.
  { intros w Hin. split; [by apply Hw|]. by apply (forallb_elem _ _ _ Hall). }
  intros k. rewrite Hm. split; intros (j & Hj & Hjc & Hne); exists j.
  - split; [|done]. rewrite <- Hp in Hj.
    apply list_elem_of_bind in Hj as (c' & Hj & Hc'). apply list_elem_of_fmap in Hj as (t & -> & Ht).
    destruct (Hcand c' Hc'). destruct (Hheads c' Hc') as [_ Hr]. specialize (Hr t Ht).
    unfold cell. rewrite (ws_len _ _ _ _ Hst). apply index_bounds; lia.
  - split; [|done]. destruct (decide (j ∈ evaluated L)) as [Hin|Hnin].
    + by apply list_elem_of_filter in Hin as [_ ?].
    + exfalso. apply Hne. by apply (evals_same _ _ _ _ _ j Hev).
Qed.

(** ** Running the events *)

Context (worker_step : Picks → W → M → Z → res (W * M * Z)).
Context (side : RoundState M W → Prop).
Context (step_ok : ∀ L V rs e, round_state_ok L V rs → side rs → 0 ≤ ev_worker e < zlen (rs_workers rs) →
  zlen cand + 31 + 16 * zlen (rs_workers rs) < 2 ^ 64 →
  ∃ L' V' rs', round_step worker_step e rs = Ok rs' ∧ round_state_ok L' V' rs' ∧ side rs' ∧
    zlen (rs_workers rs') = zlen (rs_workers rs)).
Context (nthreads : Z) (Hn : 0 < nthreads) (Hsmall : zlen cand + 31 + 16 * nthreads < 2 ^ 64).

Lemma run_events sched L V rs :
  (∀ e, e ∈ sched → 0 ≤ ev_worker e < nthreads) → round_state_ok L V rs → side rs →
  zlen (rs_workers rs) = nthreads →
  ∃ L' V' rs', for_each sched (round_step worker_step) rs = Ok rs' ∧ round_state_ok L' V' rs' ∧ side rs' ∧
    zlen (rs_workers rs') = nthreads.
Proof.
  revert L V rs. induction sched as [|e sched IH]; intros L V rs He Hok Hs Hlen.
  { by exists L, V, rs. }
  destruct (step_ok L V rs e Hok Hs) as (L1 & V1 & rs1 & E & Hok1 & Hs1 & Hlen1); try done.
  { rewrite Hlen. apply He. left. }
  { by rewrite Hlen. }
  cbn. rewrite E, ok_bind. apply (IH L1 V1); [intros; apply He; by right|done|done|lia].
Qed.

(** A compute phase ends where the events of the schedule do, and never panics. *)
Lemma run_phase_ok sched (w0 : W) :
  (∀ e, e ∈ sched → 0 ≤ ev_worker e < nthreads) →
  todo w0 = [] → (∀ k, ¬ marks w0 k) → worker_ok 0 w0 → side (mkRound start 0 (vec_repeat w0 nthreads)) →
  run_phase worker_step waiting start (vec_repeat w0 nthreads) sched = OutOfFuel ∨
  ∃ rs, run_phase worker_step waiting start (vec_repeat w0 nthreads) sched = Ok rs ∧ phase_ok rs ∧ side rs.
Proof.
  intros He Et Hm Hok0 Hs. unfold run_phase.
  destruct (run_events sched [] Vr _ He (round_start w0 nthreads Et Hm Hok0) Hs)
    as (L & V & rs & -> & Hok & Hs' & Hlen).
  { cbn. apply zlen_repeat. lia. }
  rewrite ok_bind. destruct (forallb waiting (rs_workers rs)) eqn:Hall; [right|by left].
  exists rs. split; [done|]. split; [|done]. eapply phase_end; [done| |done]. lia.
Qed.
End round_proof.
Arguments rk_workers {M W nx ny nt acts st holds inv cand heads Vr K key todo marks waiting worker_ok L V rs} _ _ _.
Arguments rk_cursor {M W nx ny nt acts st holds inv cand heads Vr K key todo marks waiting worker_ok L V rs} _.
