(* ===== verification/Schedule.v ===== *)
(** * Fair schedules

    A round of asynchronous workers ends when every worker waits at the
    barrier.  When every step of a worker that does not wait lowers a measure,
    a schedule that runs every worker once per pass, for enough passes, ends the
    round. *)

From Stdlib Require Import ZArith Lia.
From stdpp Require Import base gmap strings list numbers relations.
From S2P Require Import Prelude Clamped Async.

(** A pass runs every worker at least once. *)
Definition fair_pass (nthreads : Z) (pass : list Event) : Prop :=
  ∀ k, 0 ≤ k < nthreads → ∃ e, e ∈ pass ∧ ev_worker e = k.

Definition fair (nthreads n : Z) (sched : list Event) : Prop :=
  ∃ passes, sched = mjoin passes ∧ (∀ pass, pass ∈ passes → fair_pass nthreads pass) ∧ n < zlen passes.

(** The workers in turn, each with the same loads. *)
Definition round_robin (nthreads n : Z) (p : Picks) : list Event :=
  mjoin (vec_repeat ((fun k => {| ev_worker := k; ev_picks := p |}) <$> seqZ 0 nthreads) n).

Lemma round_robin_fair nthreads n p : 0 ≤ n → fair nthreads n (round_robin nthreads (n + 1) p).
Proof.
  intros Hn. eexists. split; [done|]. split; [|rewrite zlen_repeat; lia].
  intros pass Hp. unfold vec_repeat in Hp. apply elem_of_replicate in Hp as [-> _].
  intros k Hk. exists {| ev_worker := k; ev_picks := p |}. split; [|done].
  apply list_elem_of_fmap. exists k. split; [done|]. apply elem_of_seqZ. lia.
Qed.

Lemma round_robin_workers nthreads n p e : e ∈ round_robin nthreads n p → 0 ≤ ev_worker e < nthreads.
Proof.
  intros (l & He & Hl)%list_elem_of_join. unfold vec_repeat in Hl. apply elem_of_replicate in Hl as [-> _].
  apply list_elem_of_fmap in He as (k & -> & Hk%elem_of_seqZ). cbn. lia.
Qed.

Lemma fair_le nthreads m n sched : m ≤ n → fair nthreads n sched → fair nthreads m sched.
Proof. intros Hle (passes & -> & Hp & Hn). exists passes. split; [done|]. split; [done|lia]. Qed.

Section work.
Context {M W : Type} (worker_step : Picks → W → M → Z → res (W * M * Z)) (waiting : W → bool).

(** The steps left to a worker, and those its share of the list can cost;
    [good] is what a step needs of the worker and the cursor. *)
Context (work : W → Z) (unclaimed : Z → Z) (good : Z → W → Prop).
Context (work_nonneg : ∀ c w, good c w → 0 ≤ work w) (unclaimed_nonneg : ∀ c, 0 ≤ unclaimed c).
Context (step_work : ∀ p w mem c w' mem' c', good c w → worker_step p w mem c = Ok (w', mem', c') →
  (waiting w = true ∧ w' = w ∧ mem' = mem ∧ c' = c) ∨
  (waiting w = false ∧ work w' + unclaimed c' < work w + unclaimed c)).

Definition work_of (ws : list W) : Z := foldr (fun w n => work w + n) 0 ws.

Definition round_work (rs : RoundState M W) : Z := work_of (rs_workers rs) + unclaimed (rs_cursor rs).

Lemma work_of_middle l1 w l2 : work_of (l1 ++ w :: l2) = work w + work_of (l1 ++ l2).
Proof. unfold work_of. induction l1 as [|v l1 IH]; cbn; [done|]. rewrite IH. lia. Qed.

Lemma work_of_nonneg c ws : (∀ w, w ∈ ws → good c w) → 0 ≤ work_of ws.
Proof.
  intros Hw. induction ws as [|w ws IH]; cbn; [done|].
  pose proof (work_nonneg c w (Hw w ltac:(left))). specialize (IH ltac:(intros; apply Hw; by right)).
  unfold work_of in IH. lia.
Qed.

Lemma work_of_repeat w0 n : 0 ≤ n → work_of (vec_repeat w0 n) = n * work w0.
Proof.
  intros Hn. unfold vec_repeat. rewrite <- (Z2Nat.id n) at 2 by lia.
  induction (Z.to_nat n) as [|k IH]; [done|]. cbn [replicate work_of foldr].
  unfold work_of in IH. rewrite IH. lia.
Qed.

Lemma round_step_work e rs rs' w :
  good (rs_cursor rs) w → zget (rs_workers rs) (ev_worker e) = Some w →
  round_step worker_step e rs = Ok rs' →
  (waiting w = true ∧ rs' = rs) ∨
  (waiting w = false ∧ round_work rs' < round_work rs ∧
   ∀ k, k ≠ ev_worker e → zget (rs_workers rs') k = zget (rs_workers rs) k).
Proof.
  intros Hg Hw. unfold round_step. rewrite (proj2 (vget_ok _ _ _) Hw), ok_bind.
  intros H. apply bind_ok in H as ([[w' mem'] cursor'] & Hstep & H).
  destruct (worker_split _ _ _ Hw) as (l1 & l2 & Ews & Eset).
  assert (rs_workers rs = zset (rs_workers rs) (ev_worker e) w) as Esame.
  { pose proof (Eset w) as E. rewrite vset_ok in E by (by eapply zget_Some_lt).
    injection E as ->. done. }
  rewrite vset_ok in H by (by eapply zget_Some_lt). rewrite ok_bind in H. injection H as <-.
  destruct (step_work _ _ _ _ _ _ _ Hg Hstep) as [(Hwait & -> & -> & ->)|[Hwait Hlt]].
  - left. split; [done|]. rewrite <- Esame. by destruct rs.
  - right. split; [done|]. split.
    + unfold round_work. cbn [rs_workers rs_cursor].
      pose proof (Eset w') as E. rewrite vset_ok in E by (by eapply zget_Some_lt). injection E as ->.
      rewrite Ews, !work_of_middle. lia.
    + intros k Hne. cbn [rs_workers]. by apply zget_zset_ne.
Qed.

(** An invariant of the steps. *)
Context (Inv : RoundState M W → Prop) (nthreads : Z).
Context (Inv_good : ∀ rs, Inv rs → (∀ w, w ∈ rs_workers rs → good (rs_cursor rs) w) ∧
  zlen (rs_workers rs) = nthreads).
Context (Inv_step : ∀ e rs, Inv rs → 0 ≤ ev_worker e < nthreads →
  ∃ rs', round_step worker_step e rs = Ok rs' ∧ Inv rs').

Abbreviation run := (fun l => for_each l (round_step worker_step)).

Lemma run_step e rs : Inv rs → 0 ≤ ev_worker e < nthreads →
  ∃ w rs', zget (rs_workers rs) (ev_worker e) = Some w ∧ round_step worker_step e rs = Ok rs' ∧
    Inv rs' ∧ ((waiting w = true ∧ rs' = rs) ∨
      (waiting w = false ∧ round_work rs' < round_work rs ∧
       ∀ k, k ≠ ev_worker e → zget (rs_workers rs') k = zget (rs_workers rs) k)).
Proof.
  intros Hi He. destruct (Inv_good rs Hi) as [Hg Hl].
  destruct (zget_lt (rs_workers rs) (ev_worker e)) as [w Hw]; [lia|].
  destruct (Inv_step e rs Hi He) as (rs' & E & Hi'). exists w, rs'.
  split; [done|]. split; [done|]. split; [done|].
  apply (round_step_work e); [|done..]. by eapply Hg, elem_of_zget_1.
Qed.

(** No event adds work, and one of a worker that does not wait takes some away. *)
Lemma run_work l rs :
  Inv rs → (∀ e, e ∈ l → 0 ≤ ev_worker e < nthreads) →
  ∃ rs', run l rs = Ok rs' ∧ Inv rs' ∧ round_work rs' ≤ round_work rs ∧
    (forallb waiting (rs_workers rs) = true → rs' = rs) ∧
    (∀ e w, e ∈ l → zget (rs_workers rs) (ev_worker e) = Some w → waiting w = false →
       round_work rs' < round_work rs).
Proof.
  revert rs. induction l as [|e l IH]; intros rs Hi Hl.
  { exists rs. split; [done|]. split; [done|]. split; [done|]. split; [done|]. by intros ? ? ?%elem_of_nil. }
  destruct (run_step e rs Hi (Hl e ltac:(left))) as (w & rs1 & Hw & E & Hi1 & Hcase).
  destruct (IH rs1 Hi1 ltac:(intros; apply Hl; by right)) as (rs2 & E2 & Hi2 & Hle & Hall & Hlt).
  exists rs2. cbn. rewrite E, ok_bind. split; [done|]. split; [done|].
  destruct Hcase as [[Hwait ->]|(Hwait & Hdec & Hsame)].
  - split; [done|]. split; [done|]. intros e' v [->|Hin]%elem_of_cons Hv Hnv; [congruence|by eapply Hlt].
  - split; [lia|]. split.
    + intros Hf. exfalso. rewrite (forallb_elem _ _ w Hf) in Hwait; [done|].
      by eapply elem_of_zget_1.
    + intros. lia.
Qed.

Lemma passes_work passes rs :
  Inv rs → (∀ e, e ∈ mjoin passes → 0 ≤ ev_worker e < nthreads) →
  (∀ pass, pass ∈ passes → fair_pass nthreads pass) →
  ∃ rs', run (mjoin passes) rs = Ok rs' ∧ Inv rs' ∧
    (forallb waiting (rs_workers rs') = true ∨ round_work rs' ≤ round_work rs - zlen passes).
Proof.
  revert rs. induction passes as [|p passes IH]; intros rs Hi Hl Hfair.
  { exists rs. split; [done|]. split; [done|]. right. unfold zlen. cbn. lia. }
  cbn [mjoin list_join]. rewrite for_each_app.
  destruct (run_work p rs Hi) as (rs1 & -> & Hi1 & Hle & Hall & Hlt).
  { intros e He. apply Hl. apply elem_of_app. by left. }
  rewrite ok_bind. assert (∀ e, e ∈ mjoin passes → 0 ≤ ev_worker e < nthreads) as Hl'.
  { intros e He. apply Hl. apply elem_of_app. by right. }
  destruct (forallb waiting (rs_workers rs)) eqn:Ef.
  - rewrite (Hall eq_refl) in *. destruct (run_work (mjoin passes) rs Hi Hl') as (rs2 & E & Hi2 & _ & Hsame & _).
    exists rs2. split; [done|]. split; [done|]. left. by rewrite (Hsame Ef).
  - destruct (IH rs1 Hi1 Hl' ltac:(intros; apply Hfair; by right)) as (rs2 & E & Hi2 & Hw).
    exists rs2. split; [done|]. split; [done|]. destruct Hw as [?|Hw]; [by left|right].
    assert (∃ k w, zget (rs_workers rs) k = Some w ∧ waiting w = false) as (k & w & Hk & Hw0).
    { clear -Ef. induction (rs_workers rs) as [|v ws IH]; cbn in Ef; [discriminate|].
      destruct (waiting v) eqn:Ev; [|by exists 0, v]. destruct (IH Ef) as (k & w & Hk & ?).
      exists (k + 1), w. split; [|done]. pose proof (zget_Some_lt _ _ _ Hk). unfold zget in *.
      rewrite decide_True in Hk by lia. rewrite decide_True by lia.
      replace (Z.to_nat (k + 1)) with (S (Z.to_nat k)) by lia. done. }
    destruct (Inv_good rs Hi) as [_ Hlen]. pose proof (zget_Some_lt _ _ _ Hk) as Hr.
    destruct (Hfair p ltac:(left) k ltac:(lia)) as (e & He & <-).
    specialize (Hlt e w He Hk Hw0). unfold zlen. cbn [length]. unfold zlen in Hw. lia.
Qed.

(** A fair schedule reaches the barrier. *)
Lemma fair_phase start w0 n sched :
  Inv (mkRound start 0 (vec_repeat w0 nthreads)) → 0 ≤ nthreads →
  (∀ e, e ∈ sched → 0 ≤ ev_worker e < nthreads) → fair nthreads n sched →
  nthreads * work w0 + unclaimed 0 ≤ n →
  ∃ rs, run_phase worker_step waiting start (vec_repeat w0 nthreads) sched = Ok rs.
Proof.
  intros Hi Hn Hl (passes & -> & Hfair & Hlen) Hle. unfold run_phase.
  destruct (passes_work passes _ Hi Hl Hfair) as (rs & -> & Hi' & Hw). rewrite ok_bind.
  destruct (forallb _ _) eqn:Ef; [by eexists|]. exfalso. destruct Hw as [?|Hw]; [done|].
  destruct (Inv_good rs Hi') as [Hg _]. pose proof (work_of_nonneg _ _ Hg) as Hpos.
  pose proof (unclaimed_nonneg (rs_cursor rs)).
  unfold round_work in Hw. cbn [rs_workers rs_cursor] in Hw. rewrite work_of_repeat in Hw by done. lia.
Qed.
End work.
