(* ===== verification/Engine.v ===== *)
(** * The asynchronous Gauss-Seidel engine ([async_gs_engine] of solvers/mod.rs)

    The worker of the engine as a machine of asynchronous rounds, the leader
    phase that derives the next candidates from the changed lists, and the loop:
    with a fair schedule per round it ends, and the values come from rounds of
    backups of single cells. *)

From Stdlib Require Import ZArith Lia.
From stdpp Require Import base gmap strings list numbers relations.
From S2P Require Import Prelude Floats Model Bellman Observe.
From S2P Require Import Bitboard BitboardOps BitboardEnum Active Frontier.
From S2P Require Import Chaotic Padded Clamped Wave Par Async Schedule.

(** The number of candidates a claim takes. *)
Definition GS_BLOCK : Z := 16.

(** One worker in [compute_phase]: the rest of its claimed block, the next
    heading of the cell at its head with [cell_changed] and [ups] of that cell,
    [my_changed], [ups_round], and whether it waits at the barrier. *)
Record Worker : Type := mkWorker {
  wk_block : list (Z * Z);
  wk_it : Z;
  wk_cell_changed : bool;
  wk_ups : Z;
  wk_changed : list (Z * Z);
  wk_ups_round : Z;
  wk_waiting : bool
}.

Definition worker_new : Worker := mkWorker [] 0 false 0 [] 0 false.

Section engine.
Context {M : Type}.

(** One heading of [eval]: the arrays at the start of the round and now, a
    column and a heading; returns the arrays and whether a value moved. *)
Context (eval : Picks → M → M → Z → Z → Z → res (M * bool)).
Context (nt : Z) (cand : list (Z * Z)) (start : M).

(** [cursor.fetch_add(GS_BLOCK)] and the block it claims. *)
Definition claim (w : Worker) (cursor : Z) : Worker :=
  let n := zlen cand in
  if cursor >=? n then
    mkWorker [] 0 false 0 (wk_changed w) (wk_ups_round w) true
  else
    mkWorker (claimed cand GS_BLOCK cursor) 0 false 0 (wk_changed w) (wk_ups_round w) false.

(** The end of a cell. *)
Definition cell_done (w : Worker) (c : Z * Z) (rest : list (Z * Z)) : Worker :=
  mkWorker rest 0 false 0
    (if wk_cell_changed w then wk_changed w ++ [c] else wk_changed w)
    (u64_add (wk_ups_round w) (wk_ups w)) false.

Definition worker_step (p : Picks) (w : Worker) (mem : M) (cursor : Z) : res (Worker * M * Z) :=
  if wk_waiting w then Ok (w, mem, cursor) else
  match wk_block w with
  | [] => Ok (claim w cursor, mem, u64_add cursor GS_BLOCK)
  | (ix, iy) :: rest =>
      if wk_it w <? nt then
        r ← eval p start mem (as_i32 ix) (as_i32 iy) (wk_it w);
        let '(mem, moved) := r in
        Ok (mkWorker (wk_block w) (wk_it w + 1) (wk_cell_changed w || moved)
              (if (moved : bool) then u64_add (wk_ups w) 1 else wk_ups w)
              (wk_changed w) (wk_ups_round w) false, mem, cursor)
      else Ok (cell_done w (ix, iy) rest, mem, cursor)
  end.

(** A compute phase: it ends when every worker waits at the barrier. *)
Definition compute_phase (sched : list Event) (nthreads : Z) : res (RoundState M Worker) :=
  run_phase worker_step wk_waiting start (vec_repeat worker_new nthreads) sched.
End engine.

Section leader.
Context {M B : Type} (eval : Picks → M → M → Z → Z → Z → res (M * bool)).
Context (nx ny nt dx dy nthreads max_iter obs_interval : Z) (sched : Z → list Event).
Context (boundary : M → Z → Z → B → res (B * SolveFlow)).

(** The changed lists of a round as a board. *)
Definition changed_board (ws : list Worker) : res Bitboard2D :=
  for_each ws (fun w nf => for_each (wk_changed w) (fun c nf => bb2_set nf c.1 c.2) nf)
    (bb2_new (as_u32 nx) (as_u32 ny)).

Definition any_changed (ws : list Worker) : bool :=
  existsb (fun w => match wk_changed w with [] => false | _ => true end) ws.

Fixpoint engine_loop (fuel : nat) (mem : M) (cand : list (Z * Z)) (updates iters next_boundary : Z)
    (b : B) : res (M * B * SolveOutcome) :=
  match fuel with
  | O => OutOfFuel
  | Datatypes.S fuel =>
      rs ← compute_phase eval nt cand mem (sched iters) nthreads;
      let mem := rs_mem rs in
      let updates := foldl (fun u w => u64_add u (wk_ups_round w)) updates (rs_workers rs) in
      let iters := u32_add iters 1 in
      let any := any_changed (rs_workers rs) in
      nf ← changed_board (rs_workers rs);
      let visit := any && (iters <? max_iter) && (iters >=? next_boundary) in
      r ← (if visit then boundary mem iters updates b else Ok (b, Continue));
      let '(b, flow) := r in
      let next_boundary :=
        if visit then u64_sat_add iters (Z.max obs_interval 1) else next_boundary in
      if any && (iters <? max_iter) && bool_decide (flow = Continue) then
        dil ← dilate2d nf dx dy;
        next ← enumerate2 dil;
        engine_loop fuel mem (if Z.rem iters 2 =? 1 then reverse next else next)
          updates iters next_boundary b
      else Ok (mem, b, match flow with
                       | Stop => stopped iters updates
                       | Cancel => cancelled iters updates
                       | Continue => running iters updates (negb any)
                       end)
  end.

Definition async_gs_engine (mem : M) (cand_list : list (Z * Z)) (b : B)
    : res (M * B * SolveOutcome) :=
  engine_loop (Datatypes.S (Z.to_nat max_iter)) mem cand_list 0 0 (Z.max obs_interval 1) b.
End leader.

(** ** The worker as a machine *)

Section round_proof.
Context {M : Type} (nx ny nt : Z) (acts : list Action) (st : list State).
Context (Hd : dims_ok nx ny nt) (Hst : wf_states nx ny nt st).
Context (eval : Picks → M → M → Z → Z → Z → res (M * bool)) (holds : M → valuation → Prop).
Context (fit : valuation → valuation → Z → Prop).
Context `{Hcells : !GsCells nx ny nt acts st eval holds fit}.
Abbreviation ev := (evaluates nx ny nt acts st).
Context (inv : valuation → valuation → Prop).
Context (inv_fit : ∀ Vr V i, inv Vr V → active st i → V i = Vr i → fit Vr V i).
Context (inv_step : ∀ Vr V i V', inv Vr V → active st i → V i = Vr i → eval1 ev Vr V i V' → inv Vr V').
Context (cand : list (Z * Z)) (start : M) (Vr : valuation).
Context (Hcand : ∀ c, c ∈ cand → 0 ≤ c.1 < nx ∧ 0 ≤ c.2 < ny) (Hnd : NoDup cand).
Context (Hstart : holds start Vr) (Hinv : inv Vr Vr).

(** Every heading of a candidate is evaluated. *)
Definition all_heads (c : Z * Z) : list Z := seqZ 0 nt.
Abbreviation cc := (head_cells nx nt all_heads).

(** The cells a worker still has to evaluate. *)
Definition worker_todo (w : Worker) : list Z :=
  match wk_block w with
  | [] => []
  | c :: rest => (index nx nt c.1 c.2 <$> seqZ (wk_it w) (nt - wk_it w)) ++ (rest ≫= cc)
  end.

(** The columns a worker reports or will report. *)
Definition marked (w : Worker) (c : Z * Z) : Prop :=
  c ∈ wk_changed w ∨ (wk_cell_changed w = true ∧ head (wk_block w) = Some c).

Record worker_ok (cursor : Z) (w : Worker) : Prop := {
  wo_it : 0 ≤ wk_it w ≤ nt;
  wo_block : ∀ c, c ∈ wk_block w → c ∈ cand;
  wo_fresh : wk_block w = [] → wk_cell_changed w = false;
  wo_waiting : wk_waiting w = true → wk_block w = [] ∧ zlen cand ≤ cursor
}.

Lemma worker_ok_mono c c' w : worker_ok c w → c ≤ c' → worker_ok c' w.
Proof. intros [? ? ? Hw] Hle. split; try done. intros [? ?]%Hw. split; [done|lia]. Qed.

Lemma worker_ok_waiting c w : worker_ok c w → wk_waiting w = true → worker_todo w = [] ∧ zlen cand ≤ c.
Proof. intros [_ _ _ Hw] [E ?]%Hw. split; [|done]. unfold worker_todo. by rewrite E. Qed.

Lemma all_heads_ok c : c ∈ cand → NoDup (all_heads c) ∧ ∀ t, t ∈ all_heads c → 0 ≤ t < nt.
Proof. intros _. split; [apply NoDup_seqZ|]. intros t Ht%elem_of_seqZ. lia. Qed.

Abbreviation state_ok :=
  (round_state_ok nx ny nt acts st holds inv cand all_heads Vr (col nx nt) worker_todo marked wk_waiting worker_ok).

(** Evaluating the next heading of the cell at the head of a block. *)
Lemma eval_step L V rs l1 w l2 x y rest p :
  state_ok L V rs → rs_workers rs = l1 ++ w :: l2 → wk_waiting w = false →
  wk_block w = (x, y) :: rest → wk_it w < nt →
  ∃ mem' moved V', eval p start (rs_mem rs) x y (wk_it w) = Ok (mem', moved) ∧
    state_ok (L ++ [index nx nt x y (wk_it w)]) V'
      (mkRound mem' (rs_cursor rs)
         (l1 ++ mkWorker (wk_block w) (wk_it w + 1) (wk_cell_changed w || moved)
              (if moved then u64_add (wk_ups w) 1 else wk_ups w)
              (wk_changed w) (wk_ups_round w) false :: l2)).
Proof.
  intros Hok Ews Hwait Eb Hit.
  destruct (rk_workers Hok w) as [Hwit Hwb _ _];
    [rewrite Ews; apply elem_of_app; right; left|].
  destruct (Hcand (x, y)) as [Hx Hy]; [apply Hwb; rewrite Eb; left|]. cbn in Hx, Hy.
  pose proof Hd as [Hx0 Hy0 Ht0 _].
  destruct (cell_step nx ny nt acts st Hd Hst eval holds fit inv inv_fit inv_step cand all_heads start Vr
    Hcand Hnd all_heads_ok Hstart (col nx nt) worker_todo marked wk_waiting worker_ok
    L V rs l1 w l2 x y (wk_it w) ((index nx nt x y <$> seqZ (wk_it w + 1) (nt - (wk_it w + 1))) ++ (rest ≫= cc))
    p Hok Ews Hwait Hx Hy ltac:(lia)) as (mem' & moved & V' & E & Hnext).
  { unfold worker_todo. rewrite Eb. cbn [fst snd]. rewrite seqZ_cons by lia.
    replace (Z.succ (wk_it w)) with (wk_it w + 1) by lia.
    by replace (Z.pred (nt - wk_it w)) with (nt - (wk_it w + 1)) by lia. }
  exists mem', moved, V'. split; [exact E|]. apply Hnext.
  - unfold worker_todo. cbn [wk_block wk_it]. by rewrite Eb.
  - done.
  - split; cbn; [lia|done| |done]. by rewrite Eb.
  - intros c. unfold marked. cbn [wk_changed wk_cell_changed wk_block]. rewrite Eb. cbn [head].
    assert (col nx nt (index nx nt x y (wk_it w)) = (x, y)) as ->.
    { unfold col. destruct (coords_index nx nt x y (wk_it w)) as (-> & -> & _); [lia..|done]. }
    rewrite orb_true_iff. assert (Some (x, y) = Some c ↔ (x, y) = c) as -> by (split; congruence). tauto.
Qed.

(** Leaving a cell whose headings are done. *)
Lemma done_step L V rs l1 w l2 c0 rest :
  state_ok L V rs → rs_workers rs = l1 ++ w :: l2 → wk_waiting w = false →
  wk_block w = c0 :: rest → nt ≤ wk_it w →
  state_ok L V (mkRound (rs_mem rs) (rs_cursor rs) (l1 ++ cell_done w c0 rest :: l2)).
Proof.
  intros Hok Ews Hwait Eb Hit. pose proof Hok as [_ _ _ _ Hw Hc _]. destruct Hd as [Hx0 Hy0 Ht0 _].
  destruct (Hw w) as [Hwit Hwb _ _]; [rewrite Ews; apply elem_of_app; right; left|].
  eapply (quiet_step nx ny nt acts st holds inv); [exact worker_ok_mono|exact Hok|exact Ews|..].
  - apply Permutation_app_tail. unfold worker_todo. rewrite Eb. cbn [wk_block wk_it cell_done].
    replace (nt - wk_it w) with 0 by lia. rewrite Z.sub_0_r. cbn. by destruct rest.
  - intros c. unfold marked, cell_done. rewrite Eb. cbn. destruct (wk_cell_changed w).
    + rewrite elem_of_app, list_elem_of_singleton. split.
      * intros [?|[_ [= ->]]]; left; [by left|by right].
      * intros [[?| ->]|[? _]]; [by left|by right|done].
    + split; [intros [?|[? _]]|intros [?|[? _]]]; (by left) || done.
  - split; cbn; [lia| |done|done]. intros c Hin. apply Hwb. rewrite Eb. by right.
  - lia.
  - rewrite Ews in Hc. rewrite waiting_middle in Hc |- *. rewrite Hwait in Hc. cbn. lia.
Qed.

(** Claiming a block. *)
Lemma claiming_step L V rs l1 w l2 :
  state_ok L V rs → rs_workers rs = l1 ++ w :: l2 → wk_waiting w = false → wk_block w = [] →
  zlen cand + 31 + 16 * zlen (rs_workers rs) < 2 ^ 64 →
  state_ok L V (mkRound (rs_mem rs) (u64_add (rs_cursor rs) GS_BLOCK)
    (l1 ++ claim cand w (rs_cursor rs) :: l2)).
Proof.
  intros Hok Ews Hwait Eb Hsmall. destruct Hd as [Hx0 Hy0 Ht0 _].
  destruct (rk_workers Hok w) as [_ _ Hfresh _];
    [rewrite Ews; apply elem_of_app; right; left|].
  eapply (claim_step nx ny nt acts st holds inv); [exact worker_ok_mono|exact Hok|exact Ews|exact Hwait| |exact Hsmall|..].
  - unfold worker_todo. by rewrite Eb.
  - intros c. unfold marked, claim. rewrite (Hfresh Eb). destruct (_ >=? _); cbn; naive_solver.
  - intros Hlt. unfold claim. destruct (Z.geb_spec (rs_cursor rs) (zlen cand)); [lia|]. split; [done|].
    unfold worker_todo. cbn [wk_block wk_it]. unfold GS_BLOCK.
    destruct (claimed cand 16 (rs_cursor rs)) as [|c rest]; [done|]. by rewrite bind_cons, Z.sub_0_r.
  - intros Hge. unfold claim. by destruct (Z.geb_spec (rs_cursor rs) (zlen cand)); [|lia].
  - intros H0. unfold claim. destruct (Z.geb_spec (rs_cursor rs) (zlen cand)) as [Hge|Hlt].
    + split; cbn; [lia|by intros c ?%elem_of_nil|done|]. intros _. split; [done|lia].
    + split; cbn; [lia| |done|done]. by apply (claim_block cand (rs_cursor rs)).
Qed.

Lemma round_step_ok L V rs e :
  nx < 2 ^ 31 → ny < 2 ^ 31 →
  state_ok L V rs → True → 0 ≤ ev_worker e < zlen (rs_workers rs) →
  zlen cand + 31 + 16 * zlen (rs_workers rs) < 2 ^ 64 →
  ∃ L' V' rs', round_step (worker_step eval nt cand start) e rs = Ok rs' ∧ state_ok L' V' rs' ∧ True ∧
    zlen (rs_workers rs') = zlen (rs_workers rs).
Proof.
  intros Hnx Hny Hok _ He Hsmall. destruct (zget_lt _ _ He) as [w Ew]. unfold round_step.
  rewrite (proj2 (vget_ok _ _ _) Ew), ok_bind.
  destruct (worker_split _ _ _ Ew) as (l1 & l2 & Ews & Eset).
  assert (∀ w', zlen (l1 ++ w' :: l2) = zlen (rs_workers rs)) as Hlen.
  { intros w'. rewrite Ews, !zlen_app. unfold zlen. cbn [length]. lia. }
  unfold worker_step. destruct (wk_waiting w) eqn:Hwait.
  { rewrite ok_bind, Eset, ok_bind. exists L, V. eexists. split; [done|]. split; [|split; [done|apply Hlen]].
    rewrite <- Ews. by destruct rs. }
  destruct (wk_block w) as [|[x y] rest] eqn:Eb.
  { rewrite ok_bind, Eset, ok_bind. exists L, V. eexists. split; [done|]. split; [|split; [done|apply Hlen]].
    by apply claiming_step. }
  destruct (rk_workers Hok w) as [_ Hwb _ _];
    [rewrite Ews; apply elem_of_app; right; left|].
  destruct (Hcand (x, y)) as [Hx Hy]; [apply Hwb; rewrite Eb; left|]. cbn in Hx, Hy.
  destruct (Z.ltb_spec (wk_it w) nt) as [Hit|Hit].
  - destruct (eval_step L V rs l1 w l2 x y rest (ev_picks e) Hok Ews Hwait Eb Hit)
      as (mem' & moved & V' & E & Hok').
    rewrite !as_i32_small by lia. rewrite E, ok_bind, ok_bind, Eset, ok_bind.
    eexists _, V', _. split; [done|]. rewrite <- Eb. split; [exact Hok'|split; [done|apply Hlen]].
  - rewrite ok_bind, Eset, ok_bind. exists L, V. eexists. split; [done|]. split; [|split; [done|apply Hlen]].
    by apply done_step.
Qed.

(** What a completed compute phase leaves. *)
Definition gs_phase_ok (rs : RoundState M Worker) : Prop :=
  ∃ l V', NoDup l ∧ (∀ i, i ∈ l → active st i) ∧ (∀ i, active st i → col nx nt i ∈ cand → i ∈ l) ∧
    evals ev Vr l Vr V' ∧ holds (rs_mem rs) V' ∧ inv Vr V' ∧
    ∀ c, (∃ w, w ∈ rs_workers rs ∧ c ∈ wk_changed w) ↔
         (∃ j, cell (zlen st) j ∧ col nx nt j = c ∧ V' j ≠ Vr j).

Context (nthreads : Z) (Hn : 0 < nthreads) (Hsmall : zlen cand + 31 + 16 * nthreads < 2 ^ 64).
Context (Hnx : nx < 2 ^ 31) (Hny : ny < 2 ^ 31).

Lemma worker_new_ok : worker_todo worker_new = [] ∧ (∀ c, ¬ marked worker_new c) ∧ worker_ok 0 worker_new.
Proof.
  destruct Hd as [_ _ Ht0 _]. split; [done|]. split; [by intros c [?%elem_of_nil|[? _]]|].
  split; cbn; [lia|by intros c ?%elem_of_nil|done|done].
Qed.

Lemma compute_phase_ok sched :
  (∀ e, e ∈ sched → 0 ≤ ev_worker e < nthreads) →
  compute_phase eval nt cand start sched nthreads = OutOfFuel ∨
  ∃ rs, compute_phase eval nt cand start sched nthreads = Ok rs ∧ gs_phase_ok rs.
Proof.
  intros He. destruct worker_new_ok as (E0 & M0 & O0). pose proof Hd as [Hx0 Hy0 Ht0 _].
  destruct (run_phase_ok nx ny nt acts st Hd Hst holds inv cand all_heads start Vr Hcand Hnd all_heads_ok
    Hstart Hinv (col nx nt) worker_todo marked wk_waiting worker_ok worker_ok_waiting
    (worker_step eval nt cand start) (fun _ => True) (fun L V rs e => round_step_ok L V rs e Hnx Hny)
    nthreads Hn Hsmall sched worker_new He E0 M0 O0 I)
    as [E|(rs & E & (l & V' & Hndl & Hact & Hall & Hev & Hh & Hi & Hw & Hm) & _)]; [by left|right].
  exists rs. split; [done|]. exists l, V'. split; [done|]. split; [done|]. split.
  { intros i Hai Hin. apply Hall; [done..|]. destruct Hai as (s & Hs & _).
    pose proof (zget_Some_lt _ _ _ Hs) as Hr. rewrite (ws_len _ _ _ _ Hst) in Hr.
    destruct (index_coords nx ny nt i Hx0 Ht0 Hr) as (_ & _ & _ & Ht). apply elem_of_seqZ. lia. }
  split; [done|]. split; [done|]. split; [done|]. intros c. rewrite <- Hm.
  split; intros (w & Hin & Hmw); exists w; (split; [done|]); [by left|].
  destruct Hmw as [?|[_ Hmw]]; [done|]. destruct (Hw w Hin) as [Hok Hwait].
  destruct (wo_waiting _ _ Hok Hwait) as [E' _]. by rewrite E' in Hmw.
Qed.

(** ** A fair schedule reaches the barrier *)

(** The steps left to a worker, and those its share of the list can cost. *)
Definition wk_work (w : Worker) : Z :=
  if wk_waiting w then 0 else
  1 + match wk_block w with [] => 0 | _ :: rest => nt - wk_it w + 1 + zlen rest * (nt + 1) end.

Definition unclaimed (cursor : Z) : Z := Z.max 0 (zlen cand - cursor) * (nt + 2).

Definition counters_ok (cursor : Z) (w : Worker) : Prop := 0 ≤ cursor < 2 ^ 64 - 16 ∧ wk_it w ≤ nt.

Lemma wk_work_nonneg c w : counters_ok c w → 0 ≤ wk_work w.
Proof.
  intros [_ ?]. destruct Hd as [_ _ Ht0 _]. unfold wk_work. destruct (wk_waiting w); [lia|].
  destruct (wk_block w) as [|d l]; [lia|]. pose proof (zlen_nonneg l). nia.
Qed.

Lemma worker_step_work p w mem cursor w' mem' cursor' :
  counters_ok cursor w → worker_step eval nt cand start p w mem cursor = Ok (w', mem', cursor') →
  (wk_waiting w = true ∧ w' = w ∧ mem' = mem ∧ cursor' = cursor) ∨
  (wk_waiting w = false ∧ wk_work w' + unclaimed cursor' < wk_work w + unclaimed cursor).
Proof.
  intros [Hc Hit]. destruct Hd as [_ _ Ht0 _].
  unfold worker_step. destruct (wk_waiting w) eqn:Ew; [by intros [= -> -> ->]; left|].
  intros H. right. split; [done|]. unfold wk_work at 2. rewrite Ew.
  destruct (wk_block w) as [|[x y] rest] eqn:Eb.
  - injection H as <- _ <-. rewrite u64_add_small by (unfold in_u64, GS_BLOCK; lia).
    unfold claim, unclaimed. destruct (Z.geb_spec cursor (zlen cand)) as [Hge|Hlt].
    + unfold wk_work. cbn. unfold GS_BLOCK. nia.
    + destruct (claimed_len cand GS_BLOCK cursor ltac:(unfold GS_BLOCK; lia) ltac:(lia)) as (m & Hm & Hlen & ->).
      rewrite (Z.max_r 0 (zlen cand - cursor)) by lia.
      unfold wk_work. cbn [wk_waiting wk_block wk_it].
      destruct (claimed cand GS_BLOCK cursor) as [|c l]; [nia|].
      unfold zlen in Hlen at 1. cbn [length] in Hlen. unfold zlen at 1. nia.
  - destruct (Z.ltb_spec (wk_it w) nt) as [Hlt|Hge].
    + apply bind_ok in H as ([m moved] & _ & H). injection H as <- _ <-.
      unfold wk_work. cbn [wk_waiting wk_block wk_it]. lia.
    + injection H as <- _ <-. unfold wk_work, cell_done. cbn [wk_waiting wk_block wk_it].
      destruct rest as [|c l]; unfold zlen; cbn [length]; lia.
Qed.

Lemma fair_compute sched n :
  (∀ e, e ∈ sched → 0 ≤ ev_worker e < nthreads) → fair nthreads n sched →
  nthreads + zlen cand * (nt + 2) ≤ n →
  compute_phase eval nt cand start sched nthreads ≠ OutOfFuel.
Proof.
  intros He Hf Hle. destruct worker_new_ok as (E0 & M0 & O0). pose proof Hd as [_ _ Ht0 _].
  destruct (fair_phase (worker_step eval nt cand start) wk_waiting wk_work unclaimed counters_ok wk_work_nonneg
    ltac:(intros c; unfold unclaimed; nia) worker_step_work
    (fun rs => (∃ L V', state_ok L V' rs) ∧ zlen (rs_workers rs) = nthreads) nthreads)
    with (start := start) (w0 := worker_new) (n := n) (sched := sched) as (rs & E); try done.
  - intros rs [(L & V' & Hok) Hlen]. split; [|done]. intros w Hw. split.
    + pose proof (rk_cursor Hok) as Hcur.
      pose proof (waiting_count_bounds wk_waiting (rs_workers rs)). lia.
    + by apply (rk_workers Hok).
  - intros e rs [(L & V' & Hok) Hlen] Hr.
    destruct (round_step_ok L V' rs e Hnx Hny Hok I) as (L1 & V1 & rs1 & E & Hok1 & _ & Hlen1); [lia..|].
    exists rs1. split; [done|]. split; [by exists L1, V1|lia].
  - split; [|apply zlen_repeat; lia]. exists [], Vr.
    by apply (round_start nx ny nt acts st holds inv cand all_heads start Vr Hstart Hinv).
  - lia.
  - unfold wk_work, unclaimed. cbn. pose proof (zlen_nonneg cand). nia.
  - unfold compute_phase. by rewrite E.
Qed.
End round_proof.

(** ** The leader and the loop *)

(** What the leader reports when the loop ends. *)
Lemma leader_outcome max_iter iters u any flow o :
  0 ≤ iters → iters = 0 ∨ iters < max_iter →
  any && (iters + 1 <? max_iter) && bool_decide (flow = Continue) = false →
  o = match flow with
      | Stop => stopped (iters + 1) u
      | Cancel => cancelled (iters + 1) u
      | Continue => running (iters + 1) u (negb any)
      end →
  0 ≤ so_iters o ≤ Z.max 1 max_iter ∧ (so_converged o = true → any = false) ∧
  (so_converged o = false → so_stopped o = false → so_cancelled o = false →
   any = true ∧ so_iters o = iters + 1 ∧ max_iter ≤ iters + 1).
Proof.
  intros Hit0 Hit Ego ->. destruct flow; cbn; (split; [lia|]); (split; [by try intros ?%negb_true_iff|]); try done.
  intros Ha%negb_false_iff _ _. rewrite Ha in Ego. cbn in Ego.
  split; [done|]. split; [done|]. rewrite bool_decide_true, andb_true_r in Ego by done.
  by apply Z.ltb_ge in Ego.
Qed.

Section engine_proof.
Context (vi : ValueIterator) (Hwf : wf_vi vi).
Abbreviation nx := (vi_cell_num_x vi).
Abbreviation ny := (vi_cell_num_y vi).
Abbreviation nt := (vi_cell_num_t vi).
Abbreviation st := (vi_states vi).
Abbreviation acts := (vi_actions vi).
Abbreviation ev := (evaluates nx ny nt acts st).
Abbreviation pending := (wave_pending nx ny nt st acts).

Context (mx my mt : Z) (Hmx : 1 ≤ mx < 64) (Hmy : 1 ≤ my < 2 ^ 31).
Context (Hcov : ∀ a, a ∈ acts → action_covered nt a (mx, my, mt)).

(** The board of the changed lists. *)
Lemma changed_board_ok ws :
  (∀ w c, w ∈ ws → c ∈ wk_changed w → 0 ≤ c.1 < nx ∧ 0 ≤ c.2 < ny) →
  ∃ nf, changed_board nx ny ws = Ok nf ∧ plane_board vi nf ∧
    ∀ w c, w ∈ ws → c ∈ wk_changed w → has2 nf c.1 c.2 = true.
Proof.
  intros Hws. unfold changed_board. rewrite for_each_bind.
  assert (∀ c, c ∈ (ws ≫= wk_changed) → 0 ≤ c.1 < nx ∧ 0 ≤ c.2 < ny) as Hc.
  { intros c (w & Hc & Hw)%list_elem_of_bind. by eapply Hws. }
  assert (∀ l nf, (∀ c, c ∈ l → 0 ≤ c.1 < nx ∧ 0 ≤ c.2 < ny) → plane_board vi nf →
    ∃ nf', for_each l (fun c nf => bb2_set nf c.1 c.2) nf = Ok nf' ∧ plane_board vi nf' ∧
      (∀ x y, 0 ≤ x < nx → 0 ≤ y < ny → has2 nf x y = true → has2 nf' x y = true) ∧
      ∀ c, c ∈ l → has2 nf' c.1 c.2 = true) as Hset.
  { induction l as [|c l IH]; intros nf Hl Hnf.
    { exists nf. split; [done|]. split; [done|]. split; [done|]. by intros c ?%elem_of_nil. }
    destruct (Hl c ltac:(left)) as [Hx Hy].
    destruct (plane_set vi nf c.1 c.2 Hnf Hx Hy) as (nf1 & E & Hnf1 & Hset & Hmono).
    destruct (IH nf1 ltac:(intros; apply Hl; by right) Hnf1) as (nf2 & E2 & Hnf2 & Hmono2 & Hl2).
    exists nf2. cbn. rewrite E, ok_bind. split; [done|]. split; [done|]. split.
    - intros x y ?? Hh. apply Hmono2; [done|done|]. by apply Hmono.
    - intros d [->|Hd]%elem_of_cons; [by apply Hmono2|by apply Hl2]. }
  destruct (plane_board_new vi Hwf) as [Hnew _].
  destruct (Hset (ws ≫= wk_changed) _ Hc Hnew) as (nf & E & Hnf & _ & Hl).
  exists nf. split; [exact E|]. split; [done|]. intros w c Hw Hcw. apply Hl, list_elem_of_bind. by exists w.
Qed.

Lemma any_changed_true ws : any_changed ws = true → ∃ w c, w ∈ ws ∧ c ∈ wk_changed w.
Proof.
  intros (w & Hw & Hne)%existsb_exists. destruct (wk_changed w) as [|c l] eqn:E; [done|].
  exists w, c. split; [by apply list_elem_of_In|]. rewrite E. left.
Qed.

Lemma any_changed_false ws w c : any_changed ws = false → w ∈ ws → c ∉ wk_changed w.
Proof.
  intros H Hw Hc. apply not_true_iff_false in H. apply H, existsb_exists. exists w.
  split; [by apply list_elem_of_In|]. destruct (wk_changed w); [by apply elem_of_nil in Hc|done].
Qed.

Context {M B : Type} (eval : Picks → M → M → Z → Z → Z → res (M * bool)) (holds : M → valuation → Prop).
Context (fit : valuation → valuation → Z → Prop).
Context `{Hcells : !GsCells nx ny nt acts st eval holds fit}.
Context (inv : valuation → valuation → Prop).
Context (inv_fit : ∀ Vr V i, inv Vr V → active st i → V i = Vr i → fit Vr V i).
Context (inv_step : ∀ Vr V i V', inv Vr V → active st i → V i = Vr i → eval1 ev Vr V i V' → inv Vr V').
Context (inv_round : ∀ Vr V, inv Vr V → inv V V).

Context (nthreads max_iter obs_interval : Z) (sched : Z → list Event).
Context (Hn : 0 < nthreads < 2 ^ 32) (Hmax : 0 ≤ max_iter < 2 ^ 32).
Context (Hsched : ∀ i e, e ∈ sched i → 0 ≤ ev_worker e < nthreads).
Context (boundary : M → Z → Z → B → res (B * SolveFlow)) (Bok : B → Prop).
Context (Hboundary : ∀ mem V it up b, holds mem V → rtc (field_round vi) (field_value st) V → Bok b →
  ∃ b' flow, boundary mem it up b = Ok (b', flow) ∧ Bok b').

Definition cand_ok (cand : list (Z * Z)) : Prop :=
  NoDup cand ∧ ∀ c, c ∈ cand → 0 ≤ c.1 < nx ∧ 0 ≤ c.2 < ny.

(** A schedule that lets every round reach its barrier. *)
Definition completes : Prop := ∀ i cand mem V, holds mem V → inv V V → cand_ok cand →
  compute_phase eval nt cand mem (sched i) nthreads ≠ OutOfFuel.

(** What the engine returns. *)
Definition engine_ok (r : M * B * SolveOutcome) : Prop :=
  let '(mem, b, out) := r in
  Bok b ∧ 0 ≤ so_iters out ≤ Z.max 1 max_iter ∧
  ∃ V, holds mem V ∧ rtc (field_round vi) (field_value st) V ∧
    (so_converged out = true → field_fixed vi V) ∧
    (so_converged out = false → so_stopped out = false → so_cancelled out = false →
       max_iter ≤ so_iters out ∧ nsteps (moving vi) (Z.to_nat (so_iters out)) (field_value st) V).

Lemma cand_len cand : cand_ok cand → zlen cand ≤ nx * ny ∧ zlen cand < 2 ^ 32.
Proof.
  clear -Hwf. intros [Hnd Hr]. destruct Hwf as [[Hx Hy Ht Htot] _ _].
  assert (length cand ≤ length (y ← seqZ 0 ny; (fun x => (x, y)) <$> seqZ 0 nx))%nat as Hle.
  { apply submseteq_length, NoDup_submseteq; [done|]. intros c Hc. destruct (Hr c Hc).
    apply list_elem_of_bind. exists c.2. split; [|apply elem_of_seqZ; lia].
    apply list_elem_of_fmap. exists c.1. split; [by destruct c|apply elem_of_seqZ; lia]. }
  assert (∀ l, length ((y ← l; (fun x : Z => (x, y)) <$> seqZ 0 nx) : list (Z * Z))
    = (length l * Z.to_nat nx)%nat) as Hl.
  { induction l as [|y l IH]; [done|]. rewrite bind_cons, length_app, length_fmap, length_seqZ, IH. cbn. lia. }
  rewrite Hl, length_seqZ in Hle. unfold zlen.
  assert (nx * ny ≤ nx * ny * nt) by (apply Z.le_mul_diag_r; nia). split; nia.
Qed.

(** One round: the compute phase and what the leader derives from it. *)
Lemma engine_round mem cand V iters :
  holds mem V → inv V V → cand_ok cand →
  (∀ i, active st i → col nx nt i ∉ cand → V i = backup_at nx ny nt acts st V i) →
  (compute_phase eval nt cand mem (sched iters) nthreads = OutOfFuel ∧ ¬ completes) ∨
  ∃ rs nf V', compute_phase eval nt cand mem (sched iters) nthreads = Ok rs ∧
    changed_board nx ny (rs_workers rs) = Ok nf ∧ plane_board vi nf ∧ pending nf V' ∧
    holds (rs_mem rs) V' ∧ inv V' V' ∧ field_round vi V V' ∧
    (any_changed (rs_workers rs) = true → moving vi V V') ∧
    (any_changed (rs_workers rs) = false → field_fixed vi V').
Proof.
  intros Hh Hi Hc Hcons. pose proof Hwf as [Hd Hst Ha]. destruct (dims_board _ _ _ Hd) as (? & ? & _).
  destruct (cand_len cand Hc) as [_ Hlen]. pose proof Hc as [Hnd Hr].
  destruct (compute_phase_ok nx ny nt acts st Hd Hst eval holds fit inv inv_fit inv_step cand mem V Hr Hnd
    Hh Hi nthreads ltac:(lia) ltac:(lia) ltac:(lia) ltac:(lia) (sched iters) (Hsched iters))
    as [E|(rs & E & l & V' & Hndl & Hact & Hall & Hev & Hh' & Hi' & Hmark)].
  { left. split; [exact E|]. intros Hcomp. by apply (Hcomp iters cand mem V Hh Hi Hc). }
  right.
  assert (∀ w c, w ∈ rs_workers rs → c ∈ wk_changed w →
    ∃ j, cell (zlen st) j ∧ col nx nt j = c ∧ V' j ≠ V j) as Hfwd.
  { intros w c Hw Hcw. apply Hmark. by exists w. }
  assert (∀ j, cell (zlen st) j → 0 ≤ cx nx nt j < nx ∧ 0 ≤ cy nx nt j < ny) as Hcol.
  { intros j Hj. exact (cell_columns vi Hwf nx ny nt st acts eq_refl eq_refl eq_refl eq_refl eq_refl j Hj). }
  destruct (changed_board_ok (rs_workers rs)) as (nf & Enf & Hnf & Hset).
  { intros w c Hw Hcw. destruct (Hfwd w c Hw Hcw) as (j & Hj & <- & _). by apply Hcol. }
  assert (field_round vi V V') as Hround by by exists l.
  assert (∀ i, active st i → i ∉ l → V i = backup_at nx ny nt acts st V i) as Hout.
  { intros i Hai Hil. apply Hcons; [done|]. intros Hcin. by apply Hil, Hall. }
  exists rs, nf, V'. split; [done|]. split; [done|]. split; [done|]. split.
  { apply (wave_after vi Hwf nx ny nt st acts eq_refl eq_refl eq_refl eq_refl eq_refl l V V' nf); try done.
    intros j Hj Hne. split; [done|].
    destruct (proj2 (Hmark (col nx nt j))) as (w & Hw & Hcw); [by exists j|].
    exact (Hset w _ Hw Hcw). }
  split; [done|]. split; [by eapply inv_round|]. split; [done|]. split.
  - intros (w & c & Hw & Hcw)%any_changed_true. split; [done|].
    destruct (Hfwd w c Hw Hcw) as (j & Hj & _ & Hne). by exists j.
  - intros Hnone i Hai.
    destruct (round_pending (backup_at nx ny nt acts st) (active st) (cell_reads nx ny nt acts st) ev
      (fun U V i Hi H => backup_reads _ _ _ _ _ U V i H Hi)
      (fun Vr V i x _ H => evaluates_reads _ _ _ _ _ Vr V i x H) l V V' Hndl Hact Hout Hev i Hai)
      as [?|(j & Hj & Hne)]; [done|]. exfalso.
    destruct (proj2 (Hmark (col nx nt j))) as (w & Hw & Hcw).
    { exists j. split; [by eapply cell_reads_cell|done]. }
    by apply (any_changed_false _ w (col nx nt j) Hnone).
Qed.

(** The loop ends after at most [max_iter] rounds, with a state the last round
    vouches for, unless the schedule leaves a round unfinished. *)
Lemma engine_loop_spec fuel mem cand V updates iters nb b :
  holds mem V → inv V V → cand_ok cand →
  (∀ i, active st i → col nx nt i ∉ cand → V i = backup_at nx ny nt acts st V i) →
  rtc (field_round vi) (field_value st) V → nsteps (moving vi) (Z.to_nat iters) (field_value st) V →
  0 ≤ iters → iters = 0 ∨ iters < max_iter → max_iter < Z.of_nat fuel + iters → Bok b →
  let run := engine_loop eval nx ny nt mx my nthreads max_iter obs_interval sched boundary
    fuel mem cand updates iters nb b in
  (run = OutOfFuel ∧ ¬ completes) ∨ ∃ r, run = Ok r ∧ engine_ok r.
Proof.
  revert mem cand V updates iters nb b.
  induction fuel as [|fuel IH]; intros mem cand V updates iters nb b Hh Hi Hc Hcons Hr Hs Hit0 Hit Hf Hb;
    cbn zeta; [lia|]. cbn [engine_loop].
  destruct (engine_round mem cand V iters Hh Hi Hc Hcons)
    as [[-> ?]|(rs & nf & V' & -> & Enf & Hnf & Hp & Hh' & Hi' & Hround & Hmove & Hfix)]; [by left|].
  rewrite ok_bind, Enf, ok_bind, u32_add_small by (unfold in_u32; lia).
  set (u := foldl _ _ _). set (any := any_changed (rs_workers rs)) in *.
  assert (rtc (field_round vi) (field_value st) V') as Hr' by (eapply rtc_r; [exact Hr|done]).
  assert (any = true → nsteps (moving vi) (Z.to_nat (iters + 1)) (field_value st) V') as Hs'.
  { intros Ha. rewrite Z2Nat.inj_add, Nat.add_1_r by lia. eapply nsteps_r; [exact Hs|auto]. }
  set (visit := any && _ && _).
  assert (∃ b' flow, (if visit then boundary (rs_mem rs) (iters + 1) u b else Ok (b, Continue))
      = Ok (b', flow) ∧ Bok b' ∧ (any = false ∨ max_iter ≤ iters + 1 → flow = Continue))
    as (b' & flow & -> & Hb' & Hflow).
  { destruct visit eqn:Ev; [|by exists b, Continue].
    destruct (Hboundary (rs_mem rs) V' (iters + 1) u b Hh' Hr' Hb) as (b' & flow & E & ?).
    exists b', flow. split; [done|]. split; [done|]. unfold visit in Ev.
    apply andb_prop in Ev as [[-> Hlt%Z.ltb_lt]%andb_prop _]. intros [?|?]; [done|lia]. }
  rewrite ok_bind. destruct (any && (iters + 1 <? max_iter) && bool_decide (flow = Continue)) eqn:Ego.
  - apply andb_prop in Ego as [[Ha Hlt%Z.ltb_lt]%andb_prop _].
    destruct (wave_candidates vi Hwf nx ny nt st acts eq_refl eq_refl eq_refl eq_refl eq_refl mx my mt
      Hmx Hmy Hcov nf V' Hnf Hp) as (dil & Ed & Ee & Hcr & Hnd & Hcons').
    rewrite Ed, ok_bind, Ee, ok_bind.
    assert (∀ c, c ∈ (if Z.rem (iters + 1) 2 =? 1 then reverse (cells2 dil) else cells2 dil)
      ↔ c ∈ cells2 dil) as Hin by (intros c; destruct (_ =? _); [apply elem_of_reverse|done]).
    apply (IH _ _ V'); try done; try lia.
    + split; [|intros c ?%Hin; by apply Hcr]. destruct (_ =? _); [by rewrite reverse_Permutation|done].
    + intros i Hai Hout. apply Hcons'; [done|]. by rewrite <- Hin.
    + by apply Hs'.
  - right. eexists. split; [done|]. split; [done|].
    destruct (leader_outcome max_iter iters u any flow _ Hit0 Hit Ego eq_refl) as (Hb1 & Hb2 & Hb3). split; [exact Hb1|]. exists V'.
    split; [done|]. split; [done|]. split; [intros Hcv; apply Hfix; auto|].
    intros H1 H2 H3. destruct (Hb3 H1 H2 H3) as (? & -> & ?). split; [lia|]. auto.
Qed.
(** Passes that are enough for any candidate list. *)
Definition enough_passes : Z := nthreads + nx * ny * (nt + 2).

Lemma fair_completes : (∀ i, fair nthreads enough_passes (sched i)) → completes.
Proof.
  intros Hfair i cand mem V Hh Hi Hc. pose proof Hwf as [Hd Hst Ha].
  destruct (dims_board _ _ _ Hd) as (? & ? & _). pose proof Hd as [_ _ Ht _].
  destruct (cand_len cand Hc) as [Hle Hlt]. pose proof Hc as [Hnd Hr].
  apply (fair_compute nx ny nt acts st Hd Hst eval holds fit inv inv_fit inv_step cand mem V Hr Hnd Hh Hi
    nthreads ltac:(lia) ltac:(lia) ltac:(lia) ltac:(lia) (sched i) enough_passes); [by apply Hsched|done|].
  unfold enough_passes. nia.
Qed.
End engine_proof.
