(* ===== verification/ParUnsafe.v ===== *)
(** * The asynchronous padded solver (vi_lib/src/solvers/frontier2d_par_unsafe.rs)

    The padded layout under [async_gs_engine]: threads store into the shared
    array while others read it.  Whatever the interleaving and whichever of the
    old and new values the loads return, the solve has the guarantees of the
    deterministic parallel solver, and a fair schedule ends it. *)

From Stdlib Require Import ZArith Lia.
From stdpp Require Import base gmap strings list numbers relations.
From S2P Require Import Prelude Floats Model Bellman Observe Consistency.
From S2P Require Import Bitboard BitboardOps BitboardEnum Active Frontier.
From S2P Require Import Chaotic Padded Clamped Wave Par Async Schedule Engine.

(** The closure [eval], one heading.  [p ai k] tells whether load [k] of action
    [ai] returns the value from the start of the round. *)
Definition unsafe_eval (m : Padded) (p : Picks) (old cur : list (Z * Z)) (ix iy it : Z)
    : res (list (Z * Z) * bool) :=
  let col := pad_col (p_nt m) (p_mx m) (p_my m) (p_row_stride m) ix iy in
  let pad_idx := as_u64 (as_i64 (col + it)) in
  f ← vget (p_free m) pad_idx;
  if negb f then Ok (cur, false) else
  fin ← vget (p_finals m) pad_idx;
  if (fin : bool) then Ok (cur, false) else
  before ← vget cur pad_idx;
  min_cost ← min_over (fun ai bk =>
      action_cost_pad (fun k => if p ai k then old else cur) (p_free m) bk col)
    (p_precomp m) it 0 MAX_COST;
  if negb (min_cost =? before.1) then
    cur ← vset cur pad_idx (min_cost, before.2);
    Ok (cur, true)
  else Ok (cur, false).

Section par_unsafe.
Context {S : Type} (obs : SolveObserver S) (max_iter nthreads : Z) (sched : Z → list Event).

(** The boundary of the leader phase. *)
Definition unsafe_boundary (m : Padded) (hot : list (Z * Z)) (iters updates : Z) (b : ValueIterator * S)
    : res ((ValueIterator * S) * SolveFlow) :=
  materialize_boundary obs (par_materialise (with_hot m hot) nthreads) iters updates b.

Definition frontier2d_par_unsafe_solve_observed (vi : ValueIterator) (o : S)
    : res (ValueIterator * S * SolveOutcome) :=
  m ← pad_build vi;
  bb ← seed_frontier_2d vi;
  dil ← dilate2d bb (as_u32 (p_mx m)) (as_u32 (p_my m));
  cand_list ← enumerate2 dil;
  r ← async_gs_engine (unsafe_eval m) (p_nx m) (p_ny m) (p_nt m) (as_u32 (p_mx m)) (as_u32 (p_my m))
        nthreads max_iter (ob_interval obs o) sched (unsafe_boundary m) (p_hot m) cand_list (vi, o);
  let '(hot, (vi, o), out) := r in
  if so_cancelled out then Ok (vi, o, out) else
  vi ← par_materialise (with_hot m hot) nthreads vi;
  Ok (vi, o, out).
End par_unsafe.

(** Two workers in turn, one reading the old values and one the new ones. *)
Definition two_workers (n : Z) : Z → list Event :=
  fun i => mjoin (vec_repeat [{| ev_worker := 0; ev_picks := fun _ _ => true |};
                              {| ev_worker := 1; ev_picks := fun _ _ => false |}] n).

Example unsafe_corridor_run :
  (fun r => (s_total_cost <$> vi_states r.1.1, s_optimal_action <$> vi_states r.1.1, r.2)) <$>
  frontier2d_par_unsafe_solve_observed NullObserver 10 2 (two_workers 20) (corridor 3) ()
  = Ok ([0; PROB_BASE; 2 * PROB_BASE], [None; Some 0; Some 0], running 3 2 true).
Proof. vm_compute. reflexivity. Qed.

(** ** The layout meets the interface of the engine *)

Section cells.
Context (vi : ValueIterator) (Hwf : wf_vi vi) (mx my nx ny nt px py mt : Z) (st : list State).
Context (Enx : vi_cell_num_x vi = nx) (Eny : vi_cell_num_y vi = ny) (Ent : vi_cell_num_t vi = nt).
Context (Est : vi_states vi = st) (Hpx : px = nx + 2 * mx) (Hpy : py = ny + 2 * my).
Context (Hmx : 0 ≤ mx) (Hmy : 0 ≤ my) (Hpad : px * py * nt < 2 ^ 31).
Context (Hcov : ∀ a, a ∈ vi_actions vi → action_covered nt a (mx, my, mt)).
Context (hot : list (Z * Z)) (free finals : list bool) (Hao : arrays_ok mx my nx ny nt px py st free finals).

Abbreviation acts := (vi_actions vi).
Abbreviation model := (mkPadded hot free finals (pure_precomp vi nt px) nx ny nt mx my px (nt * px)).

Lemma unsafe_position x y t :
  0 ≤ x < nx → 0 ≤ y < ny → 0 ≤ t < nt →
  ∃ s, zget st (index nx nt x y t) = Some s ∧ s_ix s = x ∧ s_iy s = y ∧ s_it s = t ∧
    as_u64 (as_i64 (pad_col nt mx my (nt * px) x y + t)) = pos_of mx my nt px s.
Proof. exact (cell_state vi Hwf mx my nx ny nt px py st Enx Eny Ent Est Hpx Hpy Hmx Hmy Hpad x y t). Qed.

#[export] Instance unsafe_cells :
  GsCells nx ny nt acts st (unsafe_eval model) (hot_ok mx my nt px py st) (fun _ _ _ => True).
Proof.
  split.
  - intros p old cur Vr V x y t s Hold Hcur Hx Hy Ht Hs Hu _.
    destruct (unsafe_position x y t Hx Hy Ht) as (s' & Hs' & Ex & Ey & Et & Epos).
    rewrite Hs in Hs'. injection Hs' as <-. subst x y t.
    destruct (ao_state _ _ _ _ _ _ _ _ _ _ Hao _ _ Hs) as [Hf Hfin].
    unfold updatable in Hu. apply andb_prop in Hu as [Hfree Hnf%negb_true_iff].
    rewrite Hfree in Hf. rewrite Hnf in Hfin.
    unfold unsafe_eval. cbn [p_nt p_mx p_my p_row_stride p_free p_finals p_precomp]. rewrite Epos.
    rewrite (proj2 (vget_ok _ _ _) Hf), ok_bind. cbn [negb].
    rewrite (proj2 (vget_ok _ _ _) Hfin), ok_bind.
    rewrite (proj2 (vget_ok _ _ _) (proj2 Hcur _ _ Hs)), ok_bind. cbn [fst snd].
    set (i0 := index nx nt (s_ix s) (s_iy s) (s_it s)) in *.
    set (L := fun ai k => if p ai k then Vr else V).
    unfold pure_precomp. rewrite (min_over_eq nx ny nt px st _ L s acts 0 MAX_COST None); [|lia|].
    2: { intros ai a Ha.
         apply (action_cost_pad_eq vi Hwf mx my nx ny nt px py st Enx Eny Ent Est Hpx Hpy Hmx Hmy Hpad
           mt Hcov (fun k => if p ai k then old else cur) free finals (L ai) i0 s a); [|done..].
         intros k. unfold L. by destruct (p ai k). }
    rewrite ok_bind. fold (clamped_any nx ny nt acts st L s).
    set (v := (clamped_any nx ny nt acts st L s).1).
    assert (evaluates nx ny nt acts st Vr V i0 v) as Hev.
    { exists s, L. split; [done|]. split; [|done]. intros ai k j. unfold L. destruct (p ai k); auto. }
    pose proof (hot_ok_upd vi Hwf mx my nx ny nt px py st Enx Eny Ent Est Hpx Hpy Hmx Hmy Hpad
      cur V _ s v Hcur Hs) as Hupd.
    destruct (Z.eqb_spec v (V i0)) as [E|Hne]; cbn [negb].
    + exists cur, v. rewrite E, Z.eqb_refl. split; [done|]. split; [by rewrite <- E|].
      destruct Hcur as [Hl Hc]. split; [done|]. intros j a Ha. rewrite (Hc j a Ha). unfold upd.
      by case_decide as Hj; [rewrite Hj|].
    + rewrite vset_ok by (by eapply zget_Some_lt, (proj2 Hcur)). rewrite ok_bind.
      eexists _, v. rewrite (proj2 (Z.eqb_neq _ _) Hne). done.
  - intros p old cur Vr V x y t s Hold Hcur Hx Hy Ht Hs Hu.
    destruct (unsafe_position x y t Hx Hy Ht) as (s' & Hs' & _ & _ & _ & Epos).
    rewrite Hs in Hs'. injection Hs' as <-.
    destruct (ao_state _ _ _ _ _ _ _ _ _ _ Hao _ _ Hs) as [Hf Hfin].
    unfold unsafe_eval. cbn [p_nt p_mx p_my p_row_stride p_free p_finals p_precomp]. rewrite Epos.
    rewrite (proj2 (vget_ok _ _ _) Hf), ok_bind. unfold updatable in Hu.
    destruct (s_free s); cbn [negb andb] in *; [|done]. apply negb_false_iff in Hu.
    by rewrite (proj2 (vget_ok _ _ _) Hfin), ok_bind, Hu.
Qed.
End cells.

(** ** The solver *)

Section solve.
Context (vi : ValueIterator) (Hwf : wf_vi vi) (mx my mt : Z) (Hfit : padded_fits vi mx my mt).
Abbreviation nx := (vi_cell_num_x vi).
Abbreviation ny := (vi_cell_num_y vi).
Abbreviation nt := (vi_cell_num_t vi).
Abbreviation st := (vi_states vi).
Abbreviation holds := (hot_ok mx my nt (nx + 2 * mx) (ny + 2 * my) st).
Context {S : Type} (obs : SolveObserver S) (max_iter nthreads : Z) (sched : Z → list Event).
Context (Hmax : 0 ≤ max_iter < 2 ^ 32) (Hn : 0 < nthreads < 2 ^ 32).
Context (Hsched : ∀ i e, e ∈ sched i → 0 ≤ ev_worker e < nthreads).

(** The planner a boundary leaves. *)
Definition planner_ok (v : ValueIterator) : Prop :=
  wf_vi v ∧ inplace vi v ∧ ∃ l, v = with_states vi l ∧ same_static l st.

Lemma planner_ok_solution V :
  rtc (field_round vi) (field_value st) V → planner_ok (field_solution vi V).
Proof.
  intros Hr. destruct (revalue_ok vi V (policy_at vi nx ny nt st (is_updatable vi) V) Hwf) as [? ?].
  { eapply rounds_in_bounds; [exact Hr|]. by apply start_in_bounds. }
  split; [done|]. split; [done|]. eexists. split; [done|]. apply revalue_static.
Qed.

Lemma unsafe_spec o :
  (∀ i, fair nthreads (enough_passes vi nthreads) (sched i)) →
  ∃ r, frontier2d_par_unsafe_solve_observed obs max_iter nthreads sched vi o = Ok r ∧
    padded_ok vi (Z.max 1 max_iter) max_iter r.1.1 r.2.
Proof.
  intros Hfair. pose proof Hfit as [_ _ Hsize Hfull].
  destruct (padded_fits_layout vi mx my mt Hwf Hfit) as (Hmx & Hmy & Hcov & hot & free & finals & Eb & Hhot & Hao).
  destruct (padded_seed vi mx my mt Hwf Hfit) as (bb & Es & Hbb & Hp).
  unfold frontier2d_par_unsafe_solve_observed. rewrite Eb, ok_bind, Es, ok_bind.
  cbn [p_mx p_my p_nx p_ny p_nt p_hot]. rewrite !as_u32_small by lia.
  destruct (wave_candidates vi Hwf nx ny nt st _ eq_refl eq_refl eq_refl eq_refl eq_refl mx my mt
    Hmx Hmy Hcov bb _ Hbb Hp) as (dil & Ed & Ee & Hcr & Hnd & Hcons).
  rewrite Ed, ok_bind, Ee, ok_bind. set (m := mkPadded _ _ _ _ _ _ _ _ _ _ _).
  assert (∀ mem V v, holds mem V → rtc (field_round vi) (field_value st) V → planner_ok v →
    par_materialise (with_hot m mem) nthreads v = Ok (field_solution vi V)) as Hmat.
  { intros mem V v Hh Hr (_ & _ & l & -> & Hl). unfold with_hot, m.
    by apply (par_materialise_eq vi Hwf mx my nx ny nt _ _ mt st eq_refl eq_refl eq_refl eq_refl eq_refl eq_refl
      Hmx Hmy Hsize Hcov free finals Hao mem V nthreads l). }
  pose proof (unsafe_cells vi Hwf mx my nx ny nt _ _ mt st eq_refl eq_refl eq_refl eq_refl eq_refl eq_refl
    ltac:(lia) ltac:(lia) Hsize Hcov hot free finals Hao) as Hcells. fold m in Hcells.
  unfold async_gs_engine.
  destruct (engine_loop_spec vi Hwf mx my mt Hmx Hmy Hcov (unsafe_eval m) holds (fun _ _ _ => True)
    (fun _ _ => True) ltac:(done) ltac:(done) ltac:(done) nthreads max_iter (ob_interval obs o) sched Hn Hmax
    Hsched (unsafe_boundary obs nthreads m) (fun b => planner_ok b.1)) with
    (fuel := Datatypes.S (Z.to_nat max_iter)) (mem := hot) (cand := cells2 dil) (V := field_value st)
    (updates := 0) (iters := 0) (nb := Z.max (ob_interval obs o) 1) (b := (vi, o))
    as [[_ Hnc]|([[mem [v o']] out] & -> & Hb & Hit & V & Hh & Hr & Hconv & Hsteps)]; try done; try lia.
  - intros mem V it up [v o0] Hh Hr Hb. unfold unsafe_boundary.
    destruct (materialize_returns obs _ it up v o0 _ (Hmat mem V v Hh Hr Hb)) as (v1 & o1 & flow & E & Hv).
    exists (v1, o1), flow. split; [exact E|]. destruct Hv as [->| ->]; [by apply planner_ok_solution|done].
  - constructor.
  - split; [done|]. split; [apply inplace_refl|]. exists st. split; [by destruct vi|done].
  - exfalso. apply Hnc. apply (fair_completes vi Hwf (unsafe_eval m) holds (fun _ _ _ => True)); done.
  - rewrite ok_bind. destruct (so_cancelled out) eqn:Ec.
    + eexists. split; [done|]. destruct Hb as (? & ? & _). split; [done|]. split; [done|].
      split; [done|]. intros E. cbn in E. congruence.
    + rewrite (Hmat mem V v Hh Hr Hb), ok_bind. eexists. split; [done|].
      destruct (planner_ok_solution V Hr) as (? & ? & _). split; [done|]. split; [done|]. split; [done|].
      intros _. exists V. split; [done|]. split; [done|]. split; [done|]. intros ? ?. by apply Hsteps.
Qed.
End solve.

(** ** Properties *)

(** C31: [frontier2d_par_unsafe] is sound and ends under every fair
    interleaving.  Whatever order its threads run in and whichever of the values
    from the start of the round and the current ones their relaxed loads return,
    the solve returns without a panic after at most [max_iter] rounds (one, when
    that is 0).  Unless it was cancelled, the values come from rounds of backups
    of single cells, every updatable cell has the policy its value has under the
    clamped backup, and on convergence it holds the fixed point of that backup. *)
Theorem frontier2d_par_unsafe_fixed_point {S} (obs : SolveObserver S) max_iter nthreads sched vi o mx my mt :
  wf_vi vi → padded_fits vi mx my mt → 0 ≤ max_iter < 2 ^ 32 → 0 < nthreads < 2 ^ 32 →
  (∀ i e, e ∈ sched i → 0 ≤ ev_worker e < nthreads) →
  (∀ i, fair nthreads (enough_passes vi nthreads) (sched i)) →
  ∃ r, frontier2d_par_unsafe_solve_observed obs max_iter nthreads sched vi o = Ok r ∧
    padded_ok vi (Z.max 1 max_iter) max_iter r.1.1 r.2.
Proof. intros. by apply (unsafe_spec vi H mx my mt H0 obs). Qed.

Lemma frontier2d_par_unsafe_fixed_point_witness :
  ∃ r, frontier2d_par_unsafe_solve_observed NullObserver 10 3
         (fun i => round_robin 3 (enough_passes (corridor 3) 3 + 1) (fun ai k => Z.odd (ai + k + i)))
         (corridor 3) () = Ok r ∧
    padded_ok (corridor 3) 10 10 r.1.1 r.2.
Proof.
  apply (frontier2d_par_unsafe_fixed_point NullObserver 10 3 _ (corridor 3) () 1 1 0).
  - apply check_vi_ok. reflexivity.
  - exact corridor_fits.
  - lia.
  - lia.
  - intros i e. apply round_robin_workers.
  - intros i. apply round_robin_fair. vm_compute. discriminate.
Defined.
