(* ===== verification/Fused.v ===== *)
(** * The penalty-fused layout (vi_lib/src/solvers/frontier2d_fused.rs)

    One array [cp] of values plus penalties, with a sentinel for occupied and
    unreached cells, built, evaluated and written back by bands of rows. *)

From Stdlib Require Import ZArith Lia.
From stdpp Require Import base gmap strings list numbers relations.
From S2P Require Import Prelude Floats Model Bellman Observe Consistency.
From S2P Require Import Bitboard BitboardOps BitboardEnum Active Frontier.
From S2P Require Import Chaotic Padded Clamped Wave Par Async Schedule Engine ParUnsafe.

Definition UNREACHED : Z := U64_MAX.

(** [action_cost_fused] over a [CpCells] view: [cp k] is the array as load [k]
    of the call sees it. *)
Fixpoint action_cost_fused_loop (cp : Z → list Z) (col_base k cost : Z) (buckets : list (Z * Z)) : res Z :=
  match buckets with
  | [] => Ok (Z.shiftr cost PROB_BASE_BIT)
  | (off, prob) :: rest =>
      v ← vget (cp k) (as_u64 (as_i64 (col_base + off)));
      if v =? UNREACHED then Ok MAX_COST else
      action_cost_fused_loop cp col_base (k + 1) (u64_add cost (u64_mul v prob)) rest
  end.

Definition action_cost_fused (cp : Z → list Z) (buckets : list (Z * Z)) (col_base : Z) : res Z :=
  action_cost_fused_loop cp col_base 0 0 buckets.

Record Geom : Type := mkGeom {
  g_precomp : list (list (list (Z * Z)));
  g_nx : Z; g_ny : Z; g_nt : Z; g_mx : Z; g_my : Z; g_row_stride : Z
}.

Definition geom_build (vi : ValueIterator) : res Geom :=
  let '(nx, ny, nt) := (vi_cell_num_x vi, vi_cell_num_y vi, vi_cell_num_t vi) in
  d ← displacement vi;
  let '(mx, my, _) := d in
  let nx_pad := i32_add nx (i32_mul 2 mx) in
  let row_stride := i32_mul nt nx_pad in
  precomp ← build_precomp vi nt row_stride;
  Ok (mkGeom precomp nx ny nt mx my row_stride).

Definition geom_pad_col (g : Geom) (ix iy : Z) : Z :=
  pad_col (g_nt g) (g_mx g) (g_my g) (g_row_stride g) ix iy.

Definition n_pad (g : Geom) : Z :=
  as_u64 (as_i64 (g_row_stride g * i32_add (g_ny g) (i32_mul 2 (g_my g)))).

Record Fused : Type := mkFused { f_cp : list Z; f_pen : list Z; f_eval_ok : list bool }.

(** [split_at] *)
Definition split_at {A} (l : list A) (n : Z) : res (list A * list A) :=
  if (0 <=? n) && (n <=? zlen l) then Ok (take (Z.to_nat n) l, drop (Z.to_nat n) l) else Panic.

(** What the thread of a band stores for one state. *)
Definition fuse_state (i : Z) (s : State) (f : Fused) : res Fused :=
  let p := u64_add (s_penalty s) (s_local_penalty s) in
  pen ← vset (f_pen f) i p;
  cp ← (if s_free s && negb (s_total_cost s =? MAX_COST)
        then vset (f_cp f) i (u64_add (s_total_cost s) p) else Ok (f_cp f));
  ev ← vset (f_eval_ok f) i (s_free s && negb (s_final_state s));
  Ok (mkFused cp pen ev).

(** The thread of a band, on its slices. *)
Definition fuse_band (rows row_pad row_st mxnt : Z) (st_b : list State) (f : Fused) : res Fused :=
  for_range 0 rows (fun y f =>
    let pad_row := u64_add (u64_mul y row_pad) mxnt in
    let st_row := u64_mul y row_st in
    for_range 0 row_st (fun k f =>
      s ← vget st_b (u64_add st_row k);
      fuse_state (u64_add pad_row k) s f) f) f.

Definition fused_append (a b : Fused) : Fused :=
  mkFused (f_cp a ++ f_cp b) (f_pen a ++ f_pen b) (f_eval_ok a ++ f_eval_ok b).

(** The three slices at once. *)
Definition fused_split (f : Fused) (n : Z) : res (Fused * Fused) :=
  c ← split_at (f_cp f) n;
  p ← split_at (f_pen f) n;
  e ← split_at (f_eval_ok f) n;
  Ok (mkFused c.1 p.1 e.1, mkFused c.2 p.2 e.2).

(** [while y0 < ny]: the bands are handed out one after the other; [fuel] is
    the rows left. *)
Fixpoint fuse_bands (fuel : nat) (band ny row_pad row_st mxnt y0 : Z) (f : Fused) (st_s : list State)
    : res Fused :=
  match fuel with
  | O => Ok f
  | S fuel =>
      if y0 <? ny then
        let rows := Z.min band (ny - y0) in
        fs ← fused_split f (u64_mul rows row_pad);
        ss ← split_at st_s (u64_mul rows row_st);
        fb ← fuse_band rows row_pad row_st mxnt ss.1 fs.1;
        fr ← fuse_bands fuel band ny row_pad row_st mxnt (y0 + rows) fs.2 ss.2;
        Ok (fused_append fb fr)
      else Ok f
  end.

Definition build_direct (vi : ValueIterator) (g : Geom) (nthreads : Z) : res Fused :=
  let '(nx, ny, nt) := (g_nx g, g_ny g, g_nt g) in
  let n := n_pad g in
  let row_pad := as_u64 (g_row_stride g) in
  let row_st := as_u64 (i32_mul nx nt) in
  let band := Z.max (div_ceil (as_u64 ny) nthreads) 1 in
  fs ← fused_split (mkFused (vec_repeat UNREACHED n) (vec_repeat 0 n) (vec_repeat false n))
         (u64_mul row_pad (as_u64 (g_my g)));
  fr ← fuse_bands (Z.to_nat ny) band (as_u64 ny) row_pad row_st (as_u64 (i32_mul (g_mx g) nt)) 0
         fs.2 (vi_states vi);
  Ok (fused_append fs.1 fr).

(** The state a chunk stores at its position [orig]. *)
Definition unfuse_state (g : Geom) (cp pen : list Z) (opt : list (option Z)) (orig : Z) (s : State)
    : res State :=
  let pad_idx := as_u64 (as_i64 (s_it s + geom_pad_col g (s_ix s) (s_iy s))) in
  v ← vget cp pad_idx;
  total ← (if v =? UNREACHED then Ok MAX_COST else p ← vget pen pad_idx; Ok (u64_sub v p));
  a ← vget opt orig;
  Ok (with_value s total a).

Definition write_back_fused_on (vi : ValueIterator) (g : Geom) (cp pen : list Z)
    (opt : list (option Z)) (nthreads : Z) : res ValueIterator :=
  let row_st := as_u64 (i32_mul (g_nx g) (g_nt g)) in
  let band := u64_mul (Z.max (div_ceil (as_u64 (vi_cell_num_y vi)) nthreads) 1) row_st in
  if band =? 0 then Panic else
  parts ← map_res (fun c =>
      let base := u64_mul c.1 band in
      map_res (fun p => unfuse_state g cp pen opt (u64_add base p.1) p.2) (enumerated c.2))
    (enumerated (chunks band (vi_states vi)));
  Ok (with_states vi (mjoin parts)).

Definition write_back_fused (vi : ValueIterator) (g : Geom) (f : Fused) (opt : list (option Z))
    (nthreads : Z) : res ValueIterator :=
  write_back_fused_on vi g (f_cp f) (f_pen f) opt nthreads.

Definition final_policy_fused_on (g : Geom) (cp : list Z) (eval_ok : list bool) (nthreads : Z)
    (skip_unreached : bool) : res (list (option Z)) :=
  final_policy_parallel (g_nx g) (g_ny g) (g_nt g) (g_mx g) (g_my g) (g_row_stride g) (g_precomp g)
    nthreads
    (fun pad_idx =>
       e ← vget eval_ok pad_idx;
       if negb e then Ok true else
       if skip_unreached then v ← vget cp pad_idx; Ok (v =? UNREACHED) else Ok false)
    (fun buckets col => action_cost_fused (slice cp) buckets col).

Definition final_policy_fused (g : Geom) (f : Fused) (nthreads : Z) (skip_unreached : bool)
    : res (list (option Z)) :=
  final_policy_fused_on g (f_cp f) (f_eval_ok f) nthreads skip_unreached.

(** The closure [eval], one heading. *)
Definition fused_eval (g : Geom) (pen : list Z) (eval_ok : list bool) (p : Picks) (old cur : list Z)
    (ix iy it : Z) : res (list Z * bool) :=
  let col := geom_pad_col g ix iy in
  let pad_idx := as_u64 (as_i64 (col + it)) in
  e ← vget eval_ok pad_idx;
  if negb e then Ok (cur, false) else
  cp_self ← vget cur pad_idx;
  pen_self ← vget pen pad_idx;
  let before := if cp_self =? UNREACHED then MAX_COST else u64_sub cp_self pen_self in
  min_cost ← min_over (fun ai bk => action_cost_fused (fun k => if p ai k then old else cur) bk col)
    (g_precomp g) it 0 MAX_COST;
  if negb (min_cost =? before) then
    cur ← vset cur pad_idx (u64_add min_cost pen_self);
    Ok (cur, true)
  else Ok (cur, false).

(** What [policy()] writes at a boundary. *)
Definition fused_materialise (nthreads : Z) (g : Geom) (pen : list Z) (eval_ok : list bool) (cp : list Z)
    (vi : ValueIterator) : res ValueIterator :=
  opt ← final_policy_fused_on g cp eval_ok nthreads false;
  write_back_fused_on vi g cp pen opt nthreads.

Section fused.
Context {S : Type} (obs : SolveObserver S) (max_iter nthreads : Z) (sched : Z → list Event).

Definition fused_boundary (g : Geom) (pen : list Z) (eval_ok : list bool) (cp : list Z)
    (iters updates : Z) (b : ValueIterator * S) : res ((ValueIterator * S) * SolveFlow) :=
  materialize_boundary obs (fused_materialise nthreads g pen eval_ok cp) iters updates b.

Definition frontier2d_fused_solve_observed (vi : ValueIterator) (o : S)
    : res (ValueIterator * S * SolveOutcome) :=
  g ← geom_build vi;
  f ← build_direct vi g nthreads;
  bb ← seed_frontier_2d vi;
  dil ← dilate2d bb (as_u32 (g_mx g)) (as_u32 (g_my g));
  cand_list ← enumerate2 dil;
  r ← async_gs_engine (fused_eval g (f_pen f) (f_eval_ok f)) (g_nx g) (g_ny g) (g_nt g)
        (as_u32 (g_mx g)) (as_u32 (g_my g)) nthreads max_iter (ob_interval obs o) sched
        (fused_boundary g (f_pen f) (f_eval_ok f)) (f_cp f) cand_list (vi, o);
  let '(cp, (vi, o), out) := r in
  if so_cancelled out then Ok (vi, o, out) else
  let f := mkFused cp (f_pen f) (f_eval_ok f) in
  opt ← final_policy_fused g f nthreads (so_converged out);
  vi ← write_back_fused vi g f opt nthreads;
  Ok (vi, o, out).
End fused.

Example fused_corridor_run :
  (fun r => (s_total_cost <$> vi_states r.1.1, s_optimal_action <$> vi_states r.1.1, r.2)) <$>
  frontier2d_fused_solve_observed NullObserver 10 2 (two_workers 20) (corridor 3) ()
  = Ok ([0; PROB_BASE; 2 * PROB_BASE], [None; Some 0; Some 0], running 3 2 true).
Proof. vm_compute. reflexivity. Qed.
