(* ===== verification/FusedLayout.v ===== *)
(** * The fused array describes the field

    [build_direct] fills [cp], [pen] and [eval_ok] as the field says, whatever
    the number of bands; the cost loop over [cp] is the clamped cost as long as
    the values keep below the sentinel. *)

From Stdlib Require Import ZArith Lia.
From stdpp Require Import base gmap strings list numbers relations.
From S2P Require Import Prelude Floats Model Bellman Observe Consistency.
From S2P Require Import Bitboard BitboardOps BitboardEnum Active Frontier.
From S2P Require Import Chaotic Padded Clamped Wave Par Async Schedule Engine ParUnsafe Fused.

(** What [cp] holds for a state with the value [v]. *)
Definition fused_value (s : State) (v : Z) : Z :=
  if s_free s && negb (v =? MAX_COST) then wrap_u 64 (v + cell_pen s) else UNREACHED.

(** The entries of a state at position [q]. *)
Definition entry_ok (f : Fused) (q : Z) (s : State) : Prop :=
  zget (f_cp f) q = Some (fused_value s (s_total_cost s)) ∧
  zget (f_pen f) q = Some (wrap_u 64 (cell_pen s)) ∧ zget (f_eval_ok f) q = Some (updatable s).

Definition fused_len (f : Fused) (n : Z) : Prop :=
  zlen (f_cp f) = n ∧ zlen (f_pen f) = n ∧ zlen (f_eval_ok f) = n.

Definition fresh (n : Z) : Fused := mkFused (vec_repeat UNREACHED n) (vec_repeat 0 n) (vec_repeat false n).

Lemma fresh_len n : 0 ≤ n → fused_len (fresh n) n.
Proof. intros. unfold fused_len, fresh. cbn. by rewrite !zlen_repeat. Qed.

Lemma split_repeat {A} (x : A) n k :
  0 ≤ k ≤ n → split_at (vec_repeat x n) k = Ok (vec_repeat x k, vec_repeat x (n - k)).
Proof.
  intros Hk. unfold split_at. rewrite zlen_repeat by lia.
  rewrite (proj2 (Z.leb_le 0 k)), (proj2 (Z.leb_le k n)) by lia. cbn [andb]. unfold vec_repeat.
  rewrite take_replicate, drop_replicate. do 3 f_equal; lia.
Qed.

Lemma split_fresh n k : 0 ≤ k ≤ n → fused_split (fresh n) k = Ok (fresh k, fresh (n - k)).
Proof.
  intros Hk. unfold fused_split, fresh. cbn [f_cp f_pen f_eval_ok].
  by rewrite !split_repeat by done.
Qed.

(** ** Chunks with their positions *)

Lemma zget_take {A} (l : list A) n i : 0 ≤ i < n → zget (take (Z.to_nat n) l) i = zget l i.
Proof. intros. unfold zget. rewrite !decide_True by lia. apply lookup_take_lt. lia. Qed.

Lemma zget_drop {A} (l : list A) n i : 0 ≤ n → 0 ≤ i → zget (drop (Z.to_nat n) l) i = zget l (n + i).
Proof. intros. unfold zget. rewrite !decide_True by lia. rewrite lookup_drop. f_equal. lia. Qed.

Definition numbered {A} (o : Z) (l : list A) : list (Z * A) := zip (seqZ o (zlen l)) l.

Lemma numbered_cons {A} o (x : A) l : numbered o (x :: l) = (o, x) :: numbered (o + 1) l.
Proof.
  unfold numbered, zlen. cbn [length]. rewrite seqZ_cons by lia. cbn [zip_with].
  do 2 f_equal. f_equal; lia.
Qed.

Lemma numbered_app {A} o (l k : list A) : numbered o (l ++ k) = numbered o l ++ numbered (o + zlen l) k.
Proof.
  revert o. induction l as [|x l IH]; intros o; cbn [app].
  - unfold zlen. cbn. by rewrite Z.add_0_r.
  - rewrite !numbered_cons, IH. cbn. do 3 f_equal. unfold zlen. cbn [length]. lia.
Qed.

Lemma numbered_shift {A B} (h : Z → A → B) o a (l : list A) :
  (fun p => h (a + p.1) p.2) <$> numbered o l = (fun p => h p.1 p.2) <$> numbered (a + o) l.
Proof.
  revert o. induction l as [|x l IH]; intros o; [done|].
  rewrite !numbered_cons, !fmap_cons, IH. cbn. by rewrite Z.add_assoc.
Qed.

Lemma elem_of_numbered {A} o (l : list A) p : p ∈ numbered o l → o ≤ p.1 < o + zlen l ∧ p.2 ∈ l.
Proof.
  revert o. induction l as [|x l IH]; intros o; [by intros ?%elem_of_nil|].
  rewrite numbered_cons. unfold zlen in *. cbn [length]. intros [->|Hp]%elem_of_cons; cbn.
  - split; [lia|left].
  - apply IH in Hp as [? ?]. split; [lia|by right].
Qed.

(** Mapping chunk by chunk, each element with the position it has in the list. *)
Lemma map_chunks {A B} (f : Z → A → res B) (g : Z → A → B) k (l : list A) :
  0 < k → zlen l < 2 ^ 64 → (∀ i x, zget l i = Some x → f i x = Ok (g i x)) →
  ∃ parts, map_res (fun c =>
      map_res (fun p => f (u64_add (u64_mul c.1 k) p.1) p.2) (enumerated c.2)) (enumerated (chunks k l)) = Ok parts ∧
    mjoin parts = (fun p => g p.1 p.2) <$> enumerated l.
Proof.
  intros Hk Hlen Hf. unfold chunks. change (@enumerated (list A)) with (@numbered (list A) 0).
  assert (∀ fuel o (m : list A), 0 ≤ o → (length m ≤ fuel)%nat → (m ≠ [] → o * k + zlen m < 2 ^ 64) →
    (∀ i x, zget m i = Some x → f (o * k + i) x = Ok (g (o * k + i) x)) →
    ∃ parts, map_res (fun c =>
      map_res (fun p => f (u64_add (u64_mul c.1 k) p.1) p.2) (enumerated c.2))
        (numbered o (chunks_from fuel (Z.to_nat k) m)) = Ok parts ∧
      mjoin parts = (fun p => g p.1 p.2) <$> numbered (o * k) m) as H.
  2: { exact (H (length l) 0 l ltac:(lia) ltac:(lia) ltac:(intros _; lia) Hf). }
  clear l Hlen Hf. induction fuel as [|fuel IH]; intros o m Ho Hfuel Hlen Hf.
  { destruct m; [|cbn in Hfuel; lia]. by exists []. }
  destruct m as [|x0 m0] eqn:Em; [by exists []|]. specialize (Hlen ltac:(done)). rewrite <- Em in *.
  assert (chunks_from (S fuel) (Z.to_nat k) m
    = take (Z.to_nat k) m :: chunks_from fuel (Z.to_nat k) (drop (Z.to_nat k) m)) as ->
    by (by rewrite Em).
  rewrite numbered_cons. cbn [map_res fst snd].
  assert (zlen m = zlen (take (Z.to_nat k) m) + zlen (drop (Z.to_nat k) m)) as Hsum
    by (rewrite <- zlen_app; by rewrite take_drop).
  assert (0 < zlen m) by (rewrite Em; unfold zlen; cbn; lia).
  assert (zlen (take (Z.to_nat k) m) = Z.min k (zlen m)) as Ht by (unfold zlen; rewrite length_take; lia).
  pose proof (zlen_nonneg (drop (Z.to_nat k) m)). pose proof (Z.mul_nonneg_nonneg o k ltac:(lia) ltac:(lia)).
  rewrite u64_mul_small by (unfold in_u64; lia).
  rewrite (map_res_pure _ (fun p => g (o * k + p.1) p.2)).
  2: { intros [i x] Hin%elem_of_enumerated. cbn [fst snd]. pose proof (zget_Some_lt _ _ _ Hin).
       rewrite u64_add_small by (unfold in_u64; lia). apply Hf. by rewrite zget_take in Hin by lia. }
  rewrite ok_bind.
  destruct (IH (o + 1) (drop (Z.to_nat k) m)) as (parts & -> & E).
  - lia.
  - rewrite length_drop. unfold zlen in *. lia.
  - intros Hne. assert (k < zlen m); [|lia]. apply Z.nle_gt. intros Hle. apply Hne, drop_ge.
    unfold zlen in *. lia.
  - intros i x Hi. pose proof (zget_Some_lt _ _ _ Hi). rewrite zget_drop in Hi by lia.
    replace ((o + 1) * k + i) with (o * k + (k + i)) by ring. by apply Hf.
  - rewrite ok_bind. eexists. split; [done|].
    change (mjoin (?a :: parts)) with (a ++ mjoin parts). rewrite E.
    change (@enumerated A) with (@numbered A 0). rewrite numbered_shift, Z.add_0_r.
    rewrite <- (take_drop (Z.to_nat k) m) at 3. rewrite numbered_app, fmap_app. f_equal.
    destruct (decide (zlen m ≤ k)) as [Hle|Hgt].
    + rewrite drop_ge by (unfold zlen in *; lia). done.
    + rewrite Ht, Z.min_l by lia. do 2 f_equal. ring.
Qed.

(** ** Filling one state *)
Lemma fuse_state_ok f n q s :
  fused_len f n → 0 ≤ q < n →
  (zget (f_cp f) q = Some UNREACHED ∨ zget (f_cp f) q = Some (fused_value s (s_total_cost s))) →
  ∃ f', fuse_state q s f = Ok f' ∧ fused_len f' n ∧ entry_ok f' q s ∧
    ∀ q', q' ≠ q → zget (f_cp f') q' = zget (f_cp f) q' ∧ zget (f_pen f') q' = zget (f_pen f) q' ∧
      zget (f_eval_ok f') q' = zget (f_eval_ok f) q'.
Proof.
  intros (L1 & L2 & L3) Hq Hold. unfold fuse_state.
  rewrite (vset_ok (f_pen f)) by lia. rewrite ok_bind.
  assert (u64_add (s_penalty s) (s_local_penalty s) = wrap_u 64 (cell_pen s)) as Ep by done.
  rewrite Ep.
  assert (u64_add (s_total_cost s) (wrap_u 64 (cell_pen s)) = wrap_u 64 (s_total_cost s + cell_pen s)) as ->
    by (unfold u64_add, wrap_u; apply Zplus_mod_idemp_r).
  unfold entry_ok, fused_value in *.
  destruct (s_free s && negb (s_total_cost s =? MAX_COST)) eqn:E.
  - rewrite (vset_ok (f_cp f)) by lia. rewrite ok_bind, vset_ok, ok_bind by lia. eexists. split; [done|].
    unfold fused_len. cbn [f_cp f_pen f_eval_ok]. rewrite !zlen_zset. split; [done|].
    rewrite !zget_zset, !decide_True by (done || lia). split; [done|].
    intros q' Hne. by rewrite !zget_zset_ne by done.
  - rewrite ok_bind, vset_ok, ok_bind by lia. eexists. split; [done|].
    unfold fused_len. cbn [f_cp f_pen f_eval_ok]. rewrite !zlen_zset. split; [done|].
    rewrite !zget_zset, !decide_True by (done || lia). split; [by destruct Hold|].
    intros q' Hne. by rewrite !zget_zset_ne by done.
Qed.

Section bands.
Context (row_pad row_st mxnt : Z) (Hst0 : 0 ≤ row_st) (Hmx0 : 0 ≤ mxnt) (Hrow : mxnt + row_st ≤ row_pad).

Definition slot (p : Z * Z) : Z := p.1 * row_pad + mxnt + p.2.
Definition slots (rows : Z) : list (Z * Z) := y ← seqZ 0 rows; (fun k => (y, k)) <$> seqZ 0 row_st.

Lemma elem_of_slots rows p : p ∈ slots rows ↔ 0 ≤ p.1 < rows ∧ 0 ≤ p.2 < row_st.
Proof.
  unfold slots. rewrite list_elem_of_bind. split.
  - intros (y & (k & -> & Hk%elem_of_seqZ)%list_elem_of_fmap & Hy%elem_of_seqZ). cbn. lia.
  - intros [Hy Hk]. exists p.1. split; [|apply elem_of_seqZ; lia].
    apply list_elem_of_fmap. exists p.2. split; [by destruct p|apply elem_of_seqZ; lia].
Qed.

Lemma slot_inj p p' : 0 ≤ p.2 < row_st → 0 ≤ p'.2 < row_st → slot p = slot p' → p = p'.
Proof.
  intros H H' E. unfold slot in E.
  assert (p.1 = p'.1 ∧ mxnt + p.2 = mxnt + p'.2) as [? ?] by (apply (digit_eq row_pad); lia).
  destruct p, p'; cbn in *. f_equal; lia.
Qed.

(** The rows of [st] stored in [f]. *)
Record rows_ok (rows : Z) (st : list State) (f : Fused) (n : Z) : Prop := {
  ro_len : fused_len f n;
  ro_slot : ∀ p, 0 ≤ p.1 < rows → 0 ≤ p.2 < row_st →
    ∃ s, zget st (p.1 * row_st + p.2) = Some s ∧ entry_ok f (slot p) s;
  ro_rest : ∀ q, 0 ≤ q < n → (∀ p, 0 ≤ p.1 < rows → 0 ≤ p.2 < row_st → slot p ≠ q) →
    zget (f_cp f) q = Some UNREACHED
}.

Lemma fuse_band_ok rows st n :
  0 ≤ rows → zlen st = rows * row_st → rows * row_pad ≤ n → n < 2 ^ 63 →
  ∃ f, fuse_band rows row_pad row_st mxnt st (fresh n) = Ok f ∧ rows_ok rows st f n.
Proof.
  intros Hr Hlen Hn Hbig.
  assert (∀ p, p ∈ slots rows → 0 ≤ p.1 * row_pad ∧ 0 ≤ p.1 * row_st ∧ 0 ≤ slot p < n ∧
    0 ≤ p.1 * row_st + p.2 < zlen st) as Hrange.
  { intros p [Hy Hk]%elem_of_slots. unfold slot.
    pose proof (Z.mul_le_mono_nonneg_r (p.1 + 1) rows row_pad ltac:(lia) ltac:(lia)).
    pose proof (Z.mul_le_mono_nonneg_r (p.1 + 1) rows row_st ltac:(lia) ltac:(lia)). nia. }
  unfold fuse_band, for_range. rewrite !Z.sub_0_r.
  assert (∀ f, for_each (seqZ 0 rows) (fun y f => for_each (seqZ 0 row_st) (fun k f =>
      s ← vget st (u64_add (u64_mul y row_st) k);
      fuse_state (u64_add (u64_add (u64_mul y row_pad) mxnt) k) s f) f) f
    = for_each (slots rows) (fun p f => s ← vget st (p.1 * row_st + p.2); fuse_state (slot p) s f) f) as ->.
  { intros f. unfold slots. rewrite <- for_each_bind. apply for_each_ext. intros y f' Hy%elem_of_seqZ.
    rewrite for_each_fmap. apply for_each_ext. intros k f2 Hk%elem_of_seqZ. cbn [fst snd].
    destruct (Hrange (y, k)) as (? & ? & ? & ?); [apply elem_of_slots; cbn; lia|]. unfold slot in *. cbn [fst snd] in *.
    assert (zlen st ≤ n) by nia.
    rewrite !u64_mul_small by (unfold in_u64; lia).
    rewrite (u64_add_small (y * row_st)), (u64_add_small (y * row_pad)) by (unfold in_u64; lia).
    by rewrite u64_add_small by (unfold in_u64; lia). }
  destruct (for_each_inv (fun j f => fused_len f n ∧
      (∀ p, p ∈ take j (slots rows) → ∃ s, zget st (p.1 * row_st + p.2) = Some s ∧ entry_ok f (slot p) s) ∧
      (∀ q, 0 ≤ q < n → (∀ p, p ∈ take j (slots rows) → slot p ≠ q) → zget (f_cp f) q = Some UNREACHED))
    (slots rows) (fun p f => s ← vget st (p.1 * row_st + p.2); fuse_state (slot p) s f) (fresh n))
    as (f & E & Hl & Hdone & Hrest).
  - split; [apply fresh_len; nia|]. split; [by intros p ?%elem_of_nil|].
    intros q Hq _. unfold fresh. cbn. by rewrite zget_repeat.
  - intros j p f Hj (Hl & Hdone & Hrest).
    assert (p ∈ slots rows) as Hp by by eapply list_elem_of_lookup_2.
    destruct (Hrange p Hp) as (_ & _ & Hs & Hi). destruct (zget_lt _ _ Hi) as [s Es].
    apply elem_of_slots in Hp as [Hp1 Hp2].
    assert (∀ p', p' ∈ take j (slots rows) → slot p' = slot p → p' = p) as Hinj.
    { intros p' Hp' E. apply (subseteq_take) in Hp'. apply elem_of_slots in Hp' as [_ ?].
      by apply slot_inj. }
    rewrite (proj2 (vget_ok _ _ _) Es), ok_bind.
    destruct (fuse_state_ok f n (slot p) s Hl Hs) as (f' & E' & Hl' & He & Hsame).
    { destruct (decide (p ∈ take j (slots rows))) as [Hin|Hnin].
      - right. destruct (Hdone p Hin) as (s' & Es' & Hc & _). by simplify_eq.
      - left. apply Hrest; [done|]. intros p' Hp' E'. rewrite (Hinj p' Hp' E') in Hp'. done. }
    exists f'. split; [done|]. split; [done|]. rewrite (take_S_r _ _ p) by done. split.
    + intros p' [Hp'|Hp']%elem_of_app.
      * destruct (Hdone p' Hp') as (s' & Es' & Hc). exists s'. split; [done|].
        destruct (decide (slot p' = slot p)) as [E|Hne].
        { rewrite (Hinj p' Hp' E) in *. by simplify_eq. }
        unfold entry_ok. by destruct (Hsame _ Hne) as (-> & -> & ->).
      * apply list_elem_of_singleton in Hp' as ->. by exists s.
    + intros q Hq Hout. destruct (Hsame q) as (-> & _).
      { intros ->. eapply Hout; [|done]. apply elem_of_app. right. left. }
      apply Hrest; [done|]. intros p' Hp'. apply Hout. apply elem_of_app. by left.
  - exists f. rewrite firstn_all in Hdone, Hrest. split; [done|]. split; [done| |].
    + intros p H1 H2. apply Hdone. by apply elem_of_slots.
    + intros q Hq Hout. apply Hrest; [done|]. intros p [? ?]%elem_of_slots. by apply Hout.
Qed.

Lemma zget_app_at {A} (l k : list A) n i :
  zlen l = n → zget (l ++ k) i = if decide (i < n) then zget l i else zget k (i - n).
Proof.
  intros <-. unfold zlen. destruct (decide (0 ≤ i)) as [Hi|Hi].
  2: { unfold zget. rewrite !(decide_False (P := 0 ≤ i)) by done. rewrite decide_True by lia. done. }
  case_decide.
  - unfold zget. rewrite !decide_True by done. apply lookup_app_l. lia.
  - unfold zget. rewrite !decide_True by lia. rewrite lookup_app_r by lia. f_equal. lia.
Qed.

Lemma entry_ok_app f g n q s :
  fused_len f n →
  entry_ok (fused_append f g) q s ↔ (if decide (q < n) then entry_ok f q s else entry_ok g (q - n) s).
Proof.
  intros (L1 & L2 & L3). unfold entry_ok, fused_append. cbn [f_cp f_pen f_eval_ok].
  rewrite (zget_app_at _ _ n q L1), (zget_app_at _ _ n q L2), (zget_app_at _ _ n q L3).
  by case_decide.
Qed.

Lemma fused_append_len f g n m : fused_len f n → fused_len g m → fused_len (fused_append f g) (n + m).
Proof. intros (? & ? & ?) (? & ? & ?). unfold fused_len, fused_append. cbn. rewrite !zlen_app. lia. Qed.

(** Bands one after the other. *)
Lemma rows_app r1 r2 st f g m :
  0 ≤ r1 → 0 ≤ r2 → rows_ok r1 (take (Z.to_nat (r1 * row_st)) st) f (r1 * row_pad) →
  rows_ok r2 (drop (Z.to_nat (r1 * row_st)) st) g m →
  rows_ok (r1 + r2) st (fused_append f g) (r1 * row_pad + m).
Proof.
  intros Hr1 Hr2 [Lf Sf Rf] [Lg Sg Rg]. pose proof (Z.mul_nonneg_nonneg r1 row_st Hr1 Hst0).
  split; [by apply fused_append_len| |].
  - intros p H1 H2. destruct (decide (p.1 < r1)) as [Hlt|Hge].
    + destruct (Sf p) as (s & Hs & He); [lia|done|]. exists s.
      assert (p.1 * row_st + p.2 < r1 * row_st) by nia. assert (slot p < r1 * row_pad) by (unfold slot; nia).
      rewrite zget_take in Hs by nia. split; [done|]. apply (entry_ok_app _ _ _ _ _ Lf).
      by rewrite decide_True.
    + destruct (Sg (p.1 - r1, p.2)) as (s & Hs & He); [cbn; lia|done|]. exists s. cbn [fst snd] in Hs.
      rewrite zget_drop in Hs by nia. split; [rewrite <- Hs; f_equal; ring|].
      apply (entry_ok_app _ _ _ _ _ Lf). assert (r1 * row_pad ≤ slot p) by (unfold slot; nia).
      rewrite decide_False by lia.
      replace (slot p - r1 * row_pad) with (slot (p.1 - r1, p.2)) by (unfold slot; cbn; ring). done.
  - intros q Hq Hout. unfold fused_append. cbn [f_cp]. destruct Lf as (Lf & _).
    rewrite (zget_app_at _ _ _ q Lf). case_decide as Hlt.
    + apply Rf; [lia|]. intros p H1 H2. apply Hout; [lia|done].
    + apply Rg; [lia|]. intros p H1 H2 E. apply (Hout (p.1 + r1, p.2)); [cbn; lia|done|].
      unfold slot in *. cbn [fst snd]. lia.
Qed.

Lemma fuse_bands_ok fuel band ny y0 st n :
  0 < band → 0 ≤ y0 ≤ ny → ny - y0 ≤ Z.of_nat fuel → zlen st = (ny - y0) * row_st →
  (ny - y0) * row_pad ≤ n → n < 2 ^ 63 →
  ∃ f, fuse_bands fuel band ny row_pad row_st mxnt y0 (fresh n) st = Ok f ∧ rows_ok (ny - y0) st f n.
Proof.
  revert y0 st n. induction fuel as [|fuel IH]; intros y0 st n Hb Hy Hf Hlen Hn Hbig; cbn [fuse_bands].
  { exists (fresh n). split; [done|]. split; [apply fresh_len; nia|intros; lia|].
    intros q Hq _. cbn. by rewrite zget_repeat. }
  destruct (Z.ltb_spec y0 ny) as [Hlt|Hge].
  2: { exists (fresh n). split; [done|]. split; [apply fresh_len; nia|intros; lia|].
       intros q Hq _. cbn. by rewrite zget_repeat. }
  set (rows := Z.min band (ny - y0)). assert (0 < rows ≤ ny - y0) by lia.
  assert (rows * row_pad ≤ (ny - y0) * row_pad ∧ rows * row_st ≤ (ny - y0) * row_st) as [? ?] by nia.
  assert (rows * row_st ≤ rows * row_pad ∧ 0 ≤ rows * row_st) as [? ?] by nia.
  rewrite !u64_mul_small by (unfold in_u64; lia).
  rewrite split_fresh, ok_bind by lia. unfold split_at.
  rewrite (proj2 (Z.leb_le 0 (rows * row_st))), (proj2 (Z.leb_le (rows * row_st) (zlen st))) by lia.
  cbn [andb]. rewrite ok_bind. cbn [fst snd].
  assert (zlen (take (Z.to_nat (rows * row_st)) st) = rows * row_st) as Ht
    by (unfold zlen in *; rewrite length_take; lia).
  destruct (fuse_band_ok rows (take (Z.to_nat (rows * row_st)) st) (rows * row_pad)) as (fb & -> & Hfb);
    [lia..|]. rewrite ok_bind.
  destruct (IH (y0 + rows) (drop (Z.to_nat (rows * row_st)) st) (n - rows * row_pad)) as (fr & -> & Hfr);
    [lia..| |lia|lia|].
  { unfold zlen in *. rewrite length_drop. lia. }
  rewrite ok_bind. exists (fused_append fb fr). split; [done|].
  replace (ny - y0) with (rows + (ny - (y0 + rows))) by lia.
  replace n with (rows * row_pad + (n - rows * row_pad)) by lia.
  apply rows_app; [lia|lia|done|done].
Qed.
End bands.

(** ** The layout *)

Section layout.
Context (vi : ValueIterator) (Hwf : wf_vi vi) (mx my nx ny nt px py mt : Z) (st : list State).
Context (Enx : vi_cell_num_x vi = nx) (Eny : vi_cell_num_y vi = ny) (Ent : vi_cell_num_t vi = nt).
Context (Est : vi_states vi = st) (Hpx : px = nx + 2 * mx) (Hpy : py = ny + 2 * my).
Context (Hmx : 0 ≤ mx) (Hmy : 0 ≤ my) (Hpad : px * py * nt < 2 ^ 31).
Context (Hcov : ∀ a, a ∈ vi_actions vi → action_covered nt a (mx, my, mt)).

Abbreviation acts := (vi_actions vi).
Abbreviation pos_of' := (pos_of mx my nt px).
Abbreviation pos' := (pos mx my nt px).
Abbreviation framed := (framed_cell mx my nx ny nt).

Definition the_geom : Geom := mkGeom (pure_precomp vi nt px) nx ny nt mx my (nt * px).

Record fused_ok (cp : list Z) (V : valuation) : Prop := {
  fo_len : zlen cp = px * py * nt;
  fo_state : ∀ i s, zget st i = Some s → zget cp (pos_of' s) = Some (fused_value s (V i));
  fo_frame : ∀ x y t, framed x y t → ¬ in_map nx ny x y → zget cp (pos' x y t) = Some UNREACHED
}.

Record side_ok (pen : list Z) (eval_ok : list bool) : Prop := {
  so_pen : ∀ i s, zget st i = Some s → zget pen (pos_of' s) = Some (wrap_u 64 (cell_pen s));
  so_eval : ∀ i s, zget st i = Some s → zget eval_ok (pos_of' s) = Some (updatable s)
}.

Lemma fused_field : dims_ok nx ny nt ∧ wf_states nx ny nt st.
Proof. exact (field_dims vi Hwf nx ny nt st Enx Eny Ent Est). Qed.

Lemma fused_framed i s : zget st i = Some s →
  framed (s_ix s) (s_iy s) (s_it s) ∧ in_map nx ny (s_ix s) (s_iy s) ∧ i = index nx nt (s_ix s) (s_iy s) (s_it s).
Proof. exact (state_framed vi Hwf mx my nx ny nt st Enx Eny Ent Est Hmx Hmy i s). Qed.

Lemma geom_build_eq : displacement vi = Ok (mx, my, mt) → geom_build vi = Ok the_geom.
Proof.
  intros Hdisp. unfold geom_build. rewrite Enx, Eny, Ent, Hdisp, ok_bind.
  destruct fused_field as [[Hx0 Hy0 Ht0 _] Hst].
  destruct (pad_small vi Hwf mx my nx ny nt px py st Enx Eny Ent Est Hpx Hpy Hmx Hmy Hpad) as (? & ? & ? & ? & ? & ?).
  rewrite (i32_mul_small 2) by (unfold in_i32; lia).
  rewrite (i32_add_small nx) by (unfold in_i32; lia). rewrite <- Hpx.
  rewrite (i32_mul_small nt px) by (unfold in_i32; lia).
  rewrite (build_precomp_eq vi Hwf mx my nx ny nt px py st Enx Eny Ent Est Hpx Hpy Hmx Hmy Hpad mt Hcov).
  done.
Qed.

Lemma build_direct_eq n :
  ∃ f, build_direct vi the_geom n = Ok f ∧ fused_ok (f_cp f) (field_value st) ∧
    side_ok (f_pen f) (f_eval_ok f).
Proof.
  destruct fused_field as [Hd Hst]. pose proof Hd as [Hx0 Hy0 Ht0 Htot].
  destruct (pad_small vi Hwf mx my nx ny nt px py st Enx Eny Ent Est Hpx Hpy Hmx Hmy Hpad) as (? & ? & ? & ? & ? & ?).
  unfold build_direct, n_pad, the_geom.
  cbn [g_nx g_ny g_nt g_mx g_my g_row_stride].
  rewrite (i32_mul_small 2 my), (i32_add_small ny) by (unfold in_i32; lia). rewrite <- Hpy.
  replace (nt * px * py) with (px * py * nt) by ring.
  assert (0 < px * py * nt) by (apply Z.mul_pos_pos; nia).
  assert (nx * nt ≤ nt * px ∧ 0 < nx * nt ∧ 0 ≤ mx * nt ∧ mx * nt + nx * nt ≤ nt * px) as (? & ? & ? & ?) by nia.
  unfold as_i64. rewrite wrap_s64_small, (as_u64_small (px * py * nt)) by (unfold in_u64; lia).
  rewrite (i32_mul_small nx nt), (i32_mul_small mx nt) by (unfold in_i32; lia).
  rewrite !as_u64_small by (unfold in_u64; lia).
  assert (nt * px * my + ny * (nt * px) ≤ px * py * nt) as Hrows by nia.
  assert (0 ≤ nt * px * my) by nia.
  rewrite u64_mul_small by (unfold in_u64; lia).
  change (mkFused _ _ _) with (fresh (px * py * nt)) at 1.
  rewrite split_fresh, ok_bind by nia. cbn [fst snd]. rewrite Est.
  destruct (fuse_bands_ok (nt * px) (nx * nt) (mx * nt) ltac:(lia) ltac:(lia) ltac:(lia) (Z.to_nat ny)
    (Z.max (div_ceil ny n) 1) ny 0 st (px * py * nt - nt * px * my)) as (fr & -> & Hr); [lia|lia|lia| |nia|lia|].
  { rewrite (ws_len _ _ _ _ Hst). ring. }
  rewrite ok_bind, Z.sub_0_r in *. eexists. split; [done|].
  pose proof (fresh_len (nt * px * my) ltac:(lia)) as Lf. destruct Hr as [Lr Sr Rr].
  set (base := nt * px * my) in *.
  assert (∀ x y t, pos' x y t = base + slot (nt * px) (mx * nt) (y, x * nt + t)) as Hslot.
  { intros x y t. unfold pos, index, slot, base. cbn [fst snd]. ring. }
  assert (∀ i s, zget st i = Some s → entry_ok (fused_append (fresh base) fr) (pos_of' s) s) as Hentry.
  { intros i s Hs. destruct (fused_framed i s Hs) as ((_ & _ & Hit) & [Hix Hiy] & Ei).
    destruct (Sr (s_iy s, s_ix s * nt + s_it s)) as (s' & Hs' & He); [cbn; lia|cbn; nia|].
    cbn [fst snd] in Hs'. replace (s_iy s * (nx * nt) + (s_ix s * nt + s_it s)) with i in Hs'
      by (rewrite Ei; unfold index; ring). rewrite Hs in Hs'. injection Hs' as <-.
    apply (entry_ok_app _ _ _ _ _ Lf). unfold pos_of. rewrite Hslot.
    assert (0 ≤ slot (nt * px) (mx * nt) (s_iy s, s_ix s * nt + s_it s)) by (unfold slot; cbn; nia).
    rewrite decide_False by lia.
    by replace (base + _ - base) with (slot (nt * px) (mx * nt) (s_iy s, s_ix s * nt + s_it s)) by lia. }
  split; [split|split].
  - cbn [fused_append f_cp]. rewrite zlen_app. destruct Lf as (-> & _), Lr as (-> & _). lia.
  - intros i s Hs. unfold field_value. rewrite Hs. by apply (Hentry i).
  - intros x y t Hf Hout. pose proof (pos_range mx my nx ny nt px py Hpx Hpy x y t Hf) as Hpr.
    cbn [fused_append f_cp]. destruct Lf as (Lf & _). rewrite (zget_app_at _ _ base _ Lf).
    case_decide as Hlt; [cbn; by rewrite zget_repeat by lia|].
    apply Rr; [lia|]. intros [y' k] Hy' Hk E. cbn [fst snd] in Hy', Hk. apply Hout.
    pose proof (Z.div_mod k nt ltac:(lia)) as Ek. pose proof (Z.mod_pos_bound k nt ltac:(lia)).
    assert (0 ≤ k / nt < nx) by (split; [apply Z.div_pos; lia|apply Z.div_lt_upper_bound; nia]).
    assert (pos' (k / nt) y' (k mod nt) = pos' x y t) as Epos.
    { rewrite Hslot. replace (k / nt * nt + k mod nt) with k by lia. lia. }
    apply (pos_inj mx my nx ny nt px py Hpx Hpy) in Epos as (<- & <- & _);
      [split; lia| |done]. unfold framed_cell. lia.
  - intros i s Hs. by apply (Hentry i).
  - intros i s Hs. by apply (Hentry i).
Qed.

(** ** Reading *)

Context (P : Z) (HP : 0 ≤ P < 2 ^ 63) (Hpen : ∀ j a, zget st j = Some a → 0 ≤ cell_pen a ≤ P).

Abbreviation in_bounds' V := (∀ j, cell (zlen st) j → 0 ≤ V j ≤ MAX_COST).

Lemma fused_value_read i s v :
  zget st i = Some s → 0 ≤ v ≤ MAX_COST →
  (fused_value s v =? UNREACHED) = (negb (s_free s) || (v =? MAX_COST)) ∧
  (negb (s_free s) || (v =? MAX_COST) = false → fused_value s v = v + cell_pen s).
Proof.
  intros Hs Hv. pose proof (Hpen _ _ Hs). unfold fused_value, UNREACHED, U64_MAX.
  assert (MAX_COST + 2 ^ 63 < 2 ^ 64 - 1) by (consts; lia).
  destruct (s_free s), (Z.eqb_spec v MAX_COST) as [->|Hne]; cbn [negb andb orb]; try done.
  rewrite wrap_u_small by lia. split; [|done]. apply Z.eqb_neq. lia.
Qed.

(** Storing the value of a cell. *)
Lemma fused_ok_upd cp V i s x :
  fused_ok cp V → zget st i = Some s → updatable s = true → x ≠ MAX_COST →
  fused_ok (zset cp (pos_of' s) (wrap_u 64 (x + cell_pen s))) (upd V i x).
Proof.
  intros [Hl Hcp Hframe] Hs Hu Hx. pose proof (zget_Some_lt _ _ _ (Hcp _ _ Hs)) as Hr.
  split; [by rewrite zlen_zset| |].
  - intros j a Ha. unfold upd. rewrite zget_zset by done. destruct (decide (pos_of' s = pos_of' a)) as [E|Hne].
    + assert (i = j) as -> by exact (pos_of_inj vi Hwf mx my nx ny nt px py st Enx Eny Ent Est Hpx Hpy Hmx Hmy
        i j s a Hs Ha E).
      rewrite decide_True by done. simplify_eq. unfold fused_value, updatable in *.
      apply andb_prop in Hu as [-> _]. by rewrite (proj2 (Z.eqb_neq _ _) Hx).
    + rewrite decide_False; [by apply Hcp|]. intros ->. simplify_eq.
  - intros x' y' t' Hf Hout. rewrite zget_zset_ne; [by apply Hframe|]. intros E.
    destruct (fused_framed i s Hs) as (Hf' & Hin & _).
    apply (pos_inj mx my nx ny nt px py Hpx Hpy) in E as (<- & <- & _); done.
Qed.

(** The cost loop on [cp] is the clamped cost on the field. *)
Lemma action_cost_fused_loop_eq cp L i s trs k c0 :
  (∀ k, fused_ok (cp k) (L k)) → (∀ k, in_bounds' (L k)) → zget st i = Some s →
  (∀ tr, tr ∈ trs → wf_trans nt tr ∧ Z.abs (dix tr) ≤ mx ∧ Z.abs (diy tr) ≤ my) →
  action_cost_fused_loop cp (pad_col nt mx my (nt * px) (s_ix s) (s_iy s)) k (wrap_u 64 c0)
      (entry nt px <$> trs)
  = Ok (if some_stopped nx ny nt st L s k trs then MAX_COST
        else Z.shiftr (wrap_u 64 (c0 + cost_sum nx nt st L s k trs)) PROB_BASE_BIT).
Proof.
  intros Hcp HL Hs.
  pose proof (pad_col_eq vi Hwf mx my nx ny nt px py st Enx Eny Ent Est Hpx Hpy Hmx Hmy Hpad i s Hs) as Hcol.
  destruct (fused_framed i s Hs) as ((Hfx & Hfy & Hft) & [Hmx' Hmy'] & _).
  destruct fused_field as [Hd Hst]. pose proof Hd as [Hx0 _ Ht0 _]. revert k c0.
  induction trs as [|tr trs IH]; intros k c0 Hall; [cbn; by rewrite Z.add_0_r|].
  destruct (Hall tr ltac:(left)) as (Hw & Hdx & Hdy).
  pose proof (target_theta nt tr Ht0 Hw) as Hth.
  assert (framed (s_ix s + dix tr) (s_iy s + diy tr) (Z.rem (dit tr + nt) nt)) as Hf
    by (unfold framed_cell; lia).
  pose proof (pos_range mx my nx ny nt px py Hpx Hpy _ _ _ Hf) as Hr.
  rewrite fmap_cons. cbn [action_cost_fused_loop].
  destruct (entry nt px tr) as [off pr] eqn:Ee.
  pose proof (offset_pos mx my nt px s tr Hcol) as Hoff. rewrite Ee in Hoff. cbn [fst] in Hoff.
  rewrite Hoff. unfold as_i64. rewrite wrap_s64_small by lia.
  rewrite (as_u64_small (pos' _ _ _)) by (unfold in_u64; lia).
  assert (pr = as_u64 (prob tr)) as -> by (unfold entry in Ee; congruence).
  cbn [some_stopped]. unfold stopped_at at 1, blocked.
  destruct (inside nx ny s tr) eqn:Hin.
  - unfold inside in Hin. bool_to_prop. cbn [negb orb].
    destruct (ws_get nx ny nt st (s_ix s + dix tr) (s_iy s + diy tr) (Z.rem (dit tr + nt) nt))
      as (s' & Hs' & Ex & Ey & Et); [done|lia|lia|lia|lia|done|].
    fold (target nx nt s tr) in Hs'. rewrite Hs'.
    assert (pos' (s_ix s + dix tr) (s_iy s + diy tr) (Z.rem (dit tr + nt) nt) = pos_of' s') as ->
      by (unfold pos_of; by rewrite Ex, Ey, Et).
    rewrite (proj2 (vget_ok _ _ _) (fo_state _ _ (Hcp k) _ _ Hs')), ok_bind.
    destruct (fused_value_read _ s' (L k (target nx nt s tr)) Hs') as [-> Hval].
    { apply HL. by apply zget_Some_lt in Hs'. }
    destruct (negb (s_free s') || (L k (target nx nt s tr) =? MAX_COST)) eqn:Estop; [done|].
    cbn [orb]. rewrite Hval by done.
    assert (u64_add (wrap_u 64 c0) (u64_mul (L k (target nx nt s tr) + cell_pen s') (as_u64 (prob tr)))
      = wrap_u 64 (c0 + (L k (target nx nt s tr) + cell_pen s') * prob tr)) as ->.
    { unfold u64_add, u64_mul, as_u64, wrap_u. rewrite Zmult_mod_idemp_r. by rewrite <- Zplus_mod. }
    rewrite IH by (intros; apply Hall; by right). cbn [cost_sum]. unfold target_cost.
    rewrite Hs'. by rewrite Z.add_assoc.
  - cbn [negb orb]. assert (¬ in_map nx ny (s_ix s + dix tr) (s_iy s + diy tr)) as Hout.
    { intros [? ?]. apply not_true_iff_false in Hin. apply Hin. unfold inside.
      rewrite !andb_true_iff, !Z.leb_le, !Z.ltb_lt. lia. }
    rewrite (proj2 (vget_ok _ _ _) (fo_frame _ _ (Hcp k) _ _ _ Hf Hout)), ok_bind. by rewrite Z.eqb_refl.
Qed.

Lemma action_cost_fused_eq cp L i s a :
  (∀ k, fused_ok (cp k) (L k)) → (∀ k, in_bounds' (L k)) → zget st i = Some s → a ∈ acts →
  action_cost_fused cp (buckets_of nt px a (s_it s)) (pad_col nt mx my (nt * px) (s_ix s) (s_iy s))
  = Ok (clamped_cost nx ny nt st L s (trans_of a s)).
Proof.
  intros Hcp HL Hs Ha. unfold action_cost_fused. rewrite <- (wrap_u_small 64 0) at 2 by lia.
  unfold buckets_of. rewrite (action_cost_fused_loop_eq cp L i s); [done..|].
  intros tr. by apply (trans_ok vi Hwf mx my nt Ent mt Hcov).
Qed.

(** ** Policies and writing back *)

Lemma fused_policy_eq cp ev V n skip :
  fused_ok cp V → in_bounds' V → (∀ i s, zget st i = Some s → zget ev (pos_of' s) = Some (updatable s)) →
  ∃ opt, final_policy_fused_on the_geom cp ev n skip = Ok opt ∧
    ∀ i, 0 ≤ i < zlen st → zget opt i = Some (policy_at vi nx ny nt st
      (fun i => is_updatable vi i && negb (skip && (V i =? MAX_COST))) V i).
Proof.
  intros Hcp HV Hev. unfold final_policy_fused_on, the_geom.
  cbn [g_precomp g_nx g_ny g_nt g_mx g_my g_row_stride].
  apply (final_policy_parallel_eq vi Hwf mx my nx ny nt px py st Enx Eny Ent Est Hpx Hpy Hmx Hmy Hpad).
  - intros i s Hs. rewrite (proj2 (vget_ok _ _ _) (Hev _ _ Hs)), ok_bind.
    unfold is_updatable. rewrite Est, Hs. destruct (updatable s) eqn:Eu; [|done]. cbn [negb andb].
    destruct skip; [|done]. cbn [andb]. rewrite negb_involutive.
    rewrite (proj2 (vget_ok _ _ _) (fo_state _ _ Hcp _ _ Hs)), ok_bind.
    destruct (fused_value_read _ s (V i) Hs) as [-> _]; [apply HV; by apply zget_Some_lt in Hs|].
    unfold updatable in Eu. by apply andb_prop in Eu as [-> _].
  - intros i s a Hs _ Ha. by apply (action_cost_fused_eq (slice cp) (fun _ => V) i s a).
Qed.

Lemma fused_write_back_eq cp pen V opt pol l n :
  fused_ok cp V → in_bounds' V → (∀ i s, zget st i = Some s → s_free s = false → V i = MAX_COST) →
  (∀ i s, zget st i = Some s → zget pen (pos_of' s) = Some (wrap_u 64 (cell_pen s))) →
  (∀ i, 0 ≤ i < zlen st → zget opt i = Some (pol i)) → same_static l st → 0 < n →
  write_back_fused_on (with_states vi l) the_geom cp pen opt n
  = Ok (with_states vi (revalue V pol st)).
Proof.
  intros Hcp HV Hocc Hside Hopt Hss Hn. unfold write_back_fused_on, the_geom.
  cbn [vi_states with_states g_nx g_nt vi_cell_num_y].
  destruct fused_field as [Hd Hst]. pose proof Hd as [Hx0 Hy0 Ht0 Htot]. rewrite Eny.
  assert (0 < nx * nt) by nia.
  assert (nx * nt ≤ ny * (nx * nt) ∧ ny ≤ ny * (nx * nt)) as [? ?] by nia.
  assert (ny * (nx * nt) = nx * ny * nt) by ring.
  rewrite i32_mul_small by (unfold in_i32; lia). rewrite !as_u64_small by (unfold in_u64; lia).
  set (rows := Z.max (div_ceil ny n) 1).
  assert (1 ≤ rows ≤ ny) as Hrows.
  { pose proof (div_ceil_bounds ny n Hn). unfold rows. split; [lia|]. apply Z.max_lub; [|lia].
    apply Z.nlt_ge. intros Hlt. nia. }
  assert (0 < rows * (nx * nt) ≤ ny * (nx * nt)) by nia.
  rewrite u64_mul_small by (unfold in_u64; lia). destruct (Z.eqb_spec (rows * (nx * nt)) 0); [lia|].
  pose proof (ws_len _ _ _ _ Hst) as Hlst. pose proof (same_static_zlen _ _ Hss) as Hll.
  destruct (map_chunks (unfuse_state the_geom cp pen opt) (fun i s => with_value s (V i) (pol i))
    (rows * (nx * nt)) l) as (parts & E & Eparts); [lia|lia| |].
  - intros i s Hs. destruct (same_static_get _ _ _ _ Hss Hs) as (s' & Hs' & Estat).
    assert (s_ix s = s_ix s' ∧ s_iy s = s_iy s' ∧ s_it s = s_it s') as (Ex & Ey & Et)
      by (unfold static_part in Estat; repeat split; congruence).
    unfold unfuse_state, geom_pad_col, the_geom. cbn [g_nt g_mx g_my g_row_stride].
    rewrite Ex, Ey, Et, Z.add_comm.
    rewrite (pad_idx_eq vi Hwf mx my nx ny nt px py st Enx Eny Ent Est Hpx Hpy Hmx Hmy Hpad i s' Hs').
    rewrite (proj2 (vget_ok _ _ _) (fo_state _ _ Hcp _ _ Hs')), ok_bind.
    pose proof (zget_Some_lt _ _ _ Hs') as Hi. specialize (HV i Hi).
    destruct (fused_value_read i s' (V i) Hs' HV) as [-> Hval].
    assert ((if negb (s_free s') || (V i =? MAX_COST) then Ok MAX_COST else
        p ← vget pen (pos_of' s'); Ok (u64_sub (fused_value s' (V i)) p)) = Ok (V i)) as ->.
    { destruct (negb (s_free s') || (V i =? MAX_COST)) eqn:Eun.
      - apply orb_prop in Eun as [Ef%negb_true_iff|Em%Z.eqb_eq]; f_equal; [|done].
        symmetry. by apply (Hocc i s').
      - rewrite (proj2 (vget_ok _ _ _) (Hside _ _ Hs')), ok_bind, Hval by done. f_equal.
        unfold u64_sub, wrap_u. rewrite Zminus_mod_idemp_r.
        replace (V i + cell_pen s' - cell_pen s') with (V i) by lia.
        apply Z.mod_small. consts. lia. }
    rewrite ok_bind, (proj2 (vget_ok _ _ _) (Hopt i Hi)), ok_bind. done.
  - fold the_geom. rewrite E, ok_bind, Eparts. f_equal. unfold with_states. cbn. f_equal.
    change ((fun p => with_value p.2 (V p.1) (pol p.1)) <$> enumerated l) with (revalue V pol l).
    by apply (revalue_ext V pol V pol l st).
Qed.
End layout.
