(* ===== verification/FusedSolve.v ===== *)
(** * The fused solver

    The fused layout meets the interface of the asynchronous engine as long as
    no evaluation raises a value, which holds for a field prepared for a goal:
    there its solves have the guarantees of the padded ones. *)

From Stdlib Require Import ZArith Lia.
From stdpp Require Import base gmap strings list numbers relations.
From S2P Require Import Prelude Floats Model Bellman Observe Consistency.
From S2P Require Import Bitboard BitboardOps BitboardEnum Active Frontier.
From S2P Require Import Chaotic Padded Clamped Wave Par Async Schedule Engine ParUnsafe Fused FusedLayout.

(** ** The layout meets the interface of the engine *)

Section cells.
Context (vi : ValueIterator) (Hwf : wf_vi vi) (mx my nx ny nt px py mt : Z) (st : list State).
Context (Enx : vi_cell_num_x vi = nx) (Eny : vi_cell_num_y vi = ny) (Ent : vi_cell_num_t vi = nt).
Context (Est : vi_states vi = st) (Hpx : px = nx + 2 * mx) (Hpy : py = ny + 2 * my).
Context (Hmx : 0 ≤ mx) (Hmy : 0 ≤ my) (Hpad : px * py * nt < 2 ^ 31).
Context (Hcov : ∀ a, a ∈ vi_actions vi → action_covered nt a (mx, my, mt)).
Context (P : Z) (HP : 0 ≤ P < 2 ^ 63) (Hpen : ∀ j a, zget st j = Some a → 0 ≤ cell_pen a ≤ P).
Context (pen : list Z) (eval_ok : list bool) (Hside : side_ok mx my nt px st pen eval_ok).

Abbreviation acts := (vi_actions vi).
Abbreviation geom := (the_geom vi mx my nx ny nt px).

Definition fused_holds (cp : list Z) (V : valuation) : Prop :=
  fused_ok mx my nx ny nt px py st cp V ∧ ∀ j, cell (zlen st) j → 0 ≤ V j ≤ MAX_COST.

(** No evaluation raises the value of the cell. *)
Definition no_rise (Vr V : valuation) (i : Z) : Prop :=
  ∀ x, evaluates nx ny nt acts st Vr V i x → x ≤ V i.

Lemma fused_holds_same cp V i : fused_holds cp V → fused_holds cp (upd V i (V i)).
Proof.
  intros [[Hl Hc Hf] Hb]. assert (∀ j, upd V i (V i) j = V j) as E.
  { intros j. unfold upd. by case_decide; subst. }
  split; [split; [done| |done]|].
  - intros j a Ha. rewrite E. by apply Hc.
  - intros j Hj. rewrite E. by apply Hb.
Qed.

Lemma fused_cells : GsCells nx ny nt acts st (fused_eval geom pen eval_ok) fused_holds no_rise.
Proof.
  split.
  - intros p old cur Vr V x y t s [Hold HbR] [Hcur Hb] Hx Hy Ht Hs Hu Hfit.
    destruct (cell_state vi Hwf mx my nx ny nt px py st Enx Eny Ent Est Hpx Hpy Hmx Hmy Hpad x y t Hx Hy Ht)
      as (s' & Hs' & Ex & Ey & Et & Epos).
    rewrite Hs in Hs'. injection Hs' as <-. subst x y t.
    set (i0 := index nx nt (s_ix s) (s_iy s) (s_it s)) in *.
    pose proof (Hb i0 (zget_Some_lt _ _ _ Hs)) as Hbi.
    unfold fused_eval, geom_pad_col, the_geom. cbn [g_nt g_mx g_my g_row_stride g_precomp]. rewrite Epos.
    rewrite (proj2 (vget_ok _ _ _) (so_eval _ _ _ _ _ _ _ Hside _ _ Hs)), ok_bind, Hu. cbn [negb].
    rewrite (proj2 (vget_ok _ _ _) (fo_state _ _ _ _ _ _ _ _ _ _ Hcur _ _ Hs)), ok_bind.
    rewrite (proj2 (vget_ok _ _ _) (so_pen _ _ _ _ _ _ _ Hside _ _ Hs)), ok_bind.
    destruct (fused_value_read st P HP Hpen i0 s (V i0) Hs Hbi) as [Hread Hval].
    assert (s_free s = true) as Hfree by (unfold updatable in Hu; by apply andb_prop in Hu as [-> _]).
    rewrite Hfree in Hread, Hval. cbn [negb orb] in Hread, Hval.
    assert ((if fused_value s (V i0) =? UNREACHED then MAX_COST
             else u64_sub (fused_value s (V i0)) (wrap_u 64 (cell_pen s))) = V i0) as ->.
    { rewrite Hread. destruct (Z.eqb_spec (V i0) MAX_COST) as [->|Hne]; [done|]. rewrite Hval by done.
      unfold u64_sub, wrap_u. rewrite Zminus_mod_idemp_r.
      replace (V i0 + cell_pen s - cell_pen s) with (V i0) by lia. apply Z.mod_small. consts. lia. }
    set (L := fun ai k => if p ai k then Vr else V).
    unfold pure_precomp. rewrite (min_over_eq nx ny nt px st _ L s acts 0 MAX_COST None); [|lia|].
    2: { intros ai a Ha.
         apply (action_cost_fused_eq vi Hwf mx my nx ny nt px py mt st Enx Eny Ent Est Hpx Hpy Hmx Hmy Hpad
           Hcov P HP Hpen (fun k => if p ai k then old else cur) (L ai) i0 s a); [| |done..];
           intros k; unfold L; by destruct (p ai k). }
    rewrite ok_bind. fold (clamped_any nx ny nt acts st L s).
    set (v := (clamped_any nx ny nt acts st L s).1).
    assert (evaluates nx ny nt acts st Vr V i0 v) as Hev.
    { exists s, L. split; [done|]. split; [|done]. intros ai k j. unfold L. destruct (p ai k); auto. }
    pose proof (Hfit v Hev) as Hle.
    destruct (Z.eqb_spec v (V i0)) as [E|Hne]; cbn [negb].
    + exists cur, v. rewrite E, Z.eqb_refl. split; [done|]. split; [by rewrite <- E|].
      by apply fused_holds_same.
    + rewrite vset_ok by (eapply zget_Some_lt, (fo_state _ _ _ _ _ _ _ _ _ _ Hcur _ _ Hs)).
      rewrite ok_bind. eexists _, v. rewrite (proj2 (Z.eqb_neq _ _) Hne). split; [done|]. split; [done|].
      assert (u64_add v (wrap_u 64 (cell_pen s)) = wrap_u 64 (v + cell_pen s)) as ->
        by (unfold u64_add, wrap_u; apply Zplus_mod_idemp_r).
      split.
      * apply (fused_ok_upd vi Hwf mx my nx ny nt px py mt st Enx Eny Ent Est Hpx Hpy Hmx Hmy Hpad
          Hcov P Hpen cur V i0 s v); [done..|lia].
      * intros j Hj. unfold upd. case_decide; [apply clamped_any_range|by apply Hb].
  - intros p old cur Vr V x y t s Hold Hcur Hx Hy Ht Hs Hu.
    destruct (cell_state vi Hwf mx my nx ny nt px py st Enx Eny Ent Est Hpx Hpy Hmx Hmy Hpad x y t Hx Hy Ht)
      as (s' & Hs' & _ & _ & _ & Epos).
    rewrite Hs in Hs'. injection Hs' as <-.
    unfold fused_eval, geom_pad_col, the_geom. cbn [g_nt g_mx g_my g_row_stride g_precomp]. rewrite Epos.
    by rewrite (proj2 (vget_ok _ _ _) (so_eval _ _ _ _ _ _ _ Hside _ _ Hs)), ok_bind, Hu.
Qed.
End cells.

(** ** The solver *)

(** A field the fused layout stores without loss: prepared for a goal, with
    bounded penalties, the occupied cells unreached. *)
Record fused_fits (vi : ValueIterator) (mx my mt P : Z) : Prop := {
  ff_padded : padded_fits vi mx my mt;
  ff_bounds : cost_bounds vi P;
  ff_goal : goal_field (vi_states vi);
  ff_occupied : ∀ i s, zget (vi_states vi) i = Some s → s_free s = false → s_total_cost s = MAX_COST
}.

Section solve.
Context (vi : ValueIterator) (Hwf : wf_vi vi) (mx my mt P : Z) (Hfit : fused_fits vi mx my mt P).
Abbreviation nx := (vi_cell_num_x vi).
Abbreviation ny := (vi_cell_num_y vi).
Abbreviation nt := (vi_cell_num_t vi).
Abbreviation st := (vi_states vi).
Abbreviation acts := (vi_actions vi).
Abbreviation geom := (the_geom vi mx my nx ny nt (nx + 2 * mx)).
Abbreviation holds := (fused_holds mx my nx ny nt (nx + 2 * mx) (ny + 2 * my) st).
Abbreviation bounded' := (bounded (zlen st) P MAX_COST).
Abbreviation super' := (super (backup_at nx ny nt acts st) (active st)).
Abbreviation fits := (no_rise vi nx ny nt st).

(** What the values of a round keep. *)
Definition descending (Vr V : valuation) : Prop :=
  bounded' Vr ∧ super' Vr ∧ bounded' V ∧ super' V ∧ below (zlen st) V Vr.

Lemma descending_fit Vr V i : descending Vr V → active st i → V i = Vr i → fits Vr V i.
Proof.
  intros (Hb & Hs & Hb' & Hs' & Hle) Hi Hsame x Hx.
  destruct Hfit as [_ [HP Hpen Hsmall Hprob] _ _]. pose proof Hwf as [Hd Hst _].
  apply (ev_le _ _ _ _ _ _ HP (zlen_nonneg st)
    (backup_range nx ny nt acts st P)
    (evaluates_bounds nx ny nt acts st P HP Hpen Hsmall Hprob Hst) Vr V i x); done.
Qed.

Lemma descending_step Vr V i V' :
  descending Vr V → active st i → V i = Vr i → eval1 (evaluates nx ny nt acts st) Vr V i V' → descending Vr V'.
Proof.
  intros (Hb & Hs & Hb' & Hs' & Hle) Hi Hsame Hev.
  destruct Hfit as [_ [HP Hpen Hsmall Hprob] _ _]. pose proof Hwf as [Hd Hst _].
  destruct (eval1_ok _ _ _ _ _ _ HP (zlen_nonneg st) (active_cell st)
    (backup_at_mono nx ny nt acts st P HP Hpen Hsmall Hprob Hst)
    (backup_range nx ny nt acts st P)
    (evaluates_bounds nx ny nt acts st P HP Hpen Hsmall Hprob Hst)
    (evaluates_step nx ny nt acts st P HP Hpen Hsmall Hprob Hst) Vr V i V') as (? & ? & Hle'); try done.
  split; [done|]. split; [done|]. split; [done|]. split; [done|].
  intros j Hj. etransitivity; [by apply Hle'|by apply Hle].
Qed.

Lemma descending_round Vr V : descending Vr V → descending V V.
Proof. intros (? & ? & ? & ? & ?). split; [done|]. split; [done|]. split; [done|]. split; [done|]. intros j _. lia. Qed.

Lemma descending_start : descending (field_value st) (field_value st).
Proof.
  destruct Hfit as [_ [HP _ _ _] Hg _]. destruct (goal_field_start nx ny nt acts st P HP Hg).
  apply (descending_round (field_value st)). split; [done|]. split; [done|]. split; [done|]. split; [done|].
  intros j _. lia.
Qed.

(** An unreached cell at the fixed point has no policy. *)
Lemma unreached_policy V i :
  field_fixed vi V → policy_at vi nx ny nt st (fun i => is_updatable vi i && negb (V i =? MAX_COST)) V i
  = policy_at vi nx ny nt st (is_updatable vi) V i.
Proof.
  intros Hfix. unfold policy_at. destruct (is_updatable vi i) eqn:Eu; [|done]. cbn [andb].
  destruct (Z.eqb_spec (V i) MAX_COST) as [Em|]; [|done]. cbn [negb].
  unfold is_updatable in Eu. destruct (zget st i) as [s|] eqn:Es; [|done].
  specialize (Hfix i ltac:(by exists s)). unfold field_backup, backup_at in Hfix. rewrite Es, Em in Hfix.
  unfold clamped_best, clamped_any in *. set (cs := clamped_costs _ _ _ _ _ _ _ _) in *.
  pose proof (argmin_from_spec MAX_COST cs) as (_ & _ & Ho).
  destruct (argmin_from 0 cs (MAX_COST, None)) as [m [k|]]; cbn in *; [|done]. lia.
Qed.

Context (pen : list Z) (eval_ok : list bool).
Context (Hside : side_ok mx my nt (nx + 2 * mx) st pen eval_ok).
Context (Hmx : 1 ≤ mx < 64) (Hmy : 1 ≤ my < 2 ^ 31).
Context (Hcov : ∀ a, a ∈ acts → action_covered nt a (mx, my, mt)).
Context (nthreads : Z) (Hn : 0 < nthreads < 2 ^ 32).

Lemma penalty_bound : 0 ≤ P < 2 ^ 63 ∧ ∀ j a, zget st j = Some a → 0 ≤ cell_pen a ≤ P.
Proof.
  destruct Hfit as [_ [HP Hpen Hsmall _] _ _]. pose proof (zlen_nonneg st).
  split; [|done]. split; [done|]. assert (P ≤ (zlen st + 1) * P) by nia. lia.
Qed.

(** Policy and write-back give the solution of the current values. *)
Lemma fused_materialise_eq cp V v skip :
  holds cp V → rtc (field_round vi) (field_value st) V → planner_ok vi v →
  (skip = true → field_fixed vi V) →
  (opt ← final_policy_fused_on geom cp eval_ok nthreads skip;
   write_back_fused_on v geom cp pen opt nthreads) = Ok (field_solution vi V).
Proof.
  intros [Hcp HV] Hr (_ & _ & l & -> & Hl) Hskip. destruct penalty_bound as [HP Hpen].
  pose proof Hfit as [[_ _ Hsize _] _ _ Hocc].
  destruct (fused_policy_eq vi Hwf mx my nx ny nt _ _ mt st eq_refl eq_refl eq_refl eq_refl eq_refl eq_refl
    ltac:(lia) ltac:(lia) Hsize Hcov P HP Hpen cp eval_ok V nthreads skip Hcp HV (so_eval _ _ _ _ _ _ _ Hside))
    as (opt & -> & Hopt). rewrite ok_bind.
  apply (fused_write_back_eq vi Hwf mx my nx ny nt _ _ st eq_refl eq_refl eq_refl eq_refl eq_refl eq_refl
    ltac:(lia) ltac:(lia) Hsize P HP Hpen cp pen V opt); try done.
  - intros i s Hs Hf. rewrite (rounds_inactive _ _ (field_value st) V i Hr).
    + unfold field_value. rewrite Hs. by apply (Hocc i).
    + intros (s' & Hs' & Hu). simplify_eq. unfold updatable in Hu. by rewrite Hf in Hu.
  - apply (so_pen _ _ _ _ _ _ _ Hside).
  - intros i Hi. rewrite Hopt by done. f_equal. destruct skip.
    + by rewrite <- (unreached_policy V i) by auto.
    + unfold policy_at. by rewrite andb_true_r.
  - lia.
Qed.
End solve.

Lemma fused_spec {S} (obs : SolveObserver S) max_iter nthreads sched vi o mx my mt P :
  wf_vi vi → fused_fits vi mx my mt P → 0 ≤ max_iter < 2 ^ 32 → 0 < nthreads < 2 ^ 32 →
  (∀ i e, e ∈ sched i → 0 ≤ ev_worker e < nthreads) →
  (∀ i, fair nthreads (enough_passes vi nthreads) (sched i)) →
  ∃ r, frontier2d_fused_solve_observed obs max_iter nthreads sched vi o = Ok r ∧
    padded_ok vi (Z.max 1 max_iter) max_iter r.1.1 r.2.
Proof.
  intros Hwf Hfit Hmax Hn Hsched Hfair. pose proof Hfit as [Hpf Hcb Hg _].
  pose proof Hpf as [Hdisp _ Hsize Hfull].
  destruct (padded_fits_layout vi mx my mt Hwf Hpf) as (Hmx & Hmy & Hcov & _).
  destruct (padded_seed vi mx my mt Hwf Hpf) as (bb & Es & Hbb & Hp).
  destruct (penalty_bound vi mx my mt P Hfit) as [HP Hpen].
  unfold frontier2d_fused_solve_observed.
  rewrite (geom_build_eq vi Hwf mx my _ _ _ _ _ mt _ eq_refl eq_refl eq_refl eq_refl eq_refl eq_refl
    ltac:(lia) ltac:(lia) Hsize Hcov Hdisp), ok_bind.
  destruct (build_direct_eq vi Hwf mx my _ _ _ _ _ _ eq_refl eq_refl eq_refl eq_refl eq_refl eq_refl
    ltac:(lia) ltac:(lia) Hsize nthreads) as (f & -> & Hcp & Hside). rewrite ok_bind, Es, ok_bind.
  set (g := the_geom _ _ _ _ _ _ _). change (g_mx g) with mx. change (g_my g) with my.
  change (g_nx g) with (vi_cell_num_x vi). change (g_ny g) with (vi_cell_num_y vi).
  change (g_nt g) with (vi_cell_num_t vi).
  rewrite (as_u32_small mx), (as_u32_small my) by (unfold in_u32; lia).
  destruct (wave_candidates vi Hwf _ _ _ _ _ eq_refl eq_refl eq_refl eq_refl eq_refl mx my mt
    Hmx Hmy Hcov bb _ Hbb Hp) as (dil & -> & Ee & Hcr & Hnd & Hcons).
  rewrite ok_bind, Ee, ok_bind.
  pose proof (fused_materialise_eq vi Hwf mx my mt P Hfit (f_pen f) (f_eval_ok f) Hside Hmx Hmy Hcov nthreads Hn)
    as Hmat. fold g in Hmat.
  pose proof (fused_cells vi Hwf mx my _ _ _ _ _ mt _ eq_refl eq_refl eq_refl eq_refl eq_refl eq_refl
    ltac:(lia) ltac:(lia) Hsize Hcov P HP Hpen (f_pen f) (f_eval_ok f) Hside) as Hcells. fold g in Hcells.
  unfold async_gs_engine.
  destruct (engine_loop_spec vi Hwf mx my mt Hmx Hmy Hcov (fused_eval g (f_pen f) (f_eval_ok f)) _ _
    (descending vi P) (descending_fit vi Hwf mx my mt P Hfit) (descending_step vi Hwf mx my mt P Hfit)
    (descending_round vi P) nthreads max_iter (ob_interval obs o) sched Hn Hmax
    Hsched (fused_boundary obs nthreads g (f_pen f) (f_eval_ok f)) (fun b => planner_ok vi b.1)) with
    (fuel := Datatypes.S (Z.to_nat max_iter)) (mem := f_cp f) (cand := cells2 dil)
    (V := field_value (vi_states vi))
    (updates := 0) (iters := 0) (nb := Z.max (ob_interval obs o) 1) (b := (vi, o))
    as [[_ Hnc]|([[mem [v o']] out] & -> & Hb & Hit & V & Hh & Hr & Hconv & Hsteps)]; try done; try lia.
  - intros mem V it up [v o0] Hh Hr Hb. unfold fused_boundary.
    destruct (materialize_returns obs (fused_materialise nthreads g (f_pen f) (f_eval_ok f) mem) it up v o0 _
      (Hmat mem V v false Hh Hr Hb ltac:(done))) as (v1 & o1 & flow & E & Hv).
    exists (v1, o1), flow. split; [exact E|]. destruct Hv as [->| ->]; [by apply planner_ok_solution|done].
  - split; [done|]. by apply start_in_bounds.
  - by apply (descending_start vi mx my mt P Hfit).
  - constructor.
  - split; [done|]. split; [apply inplace_refl|]. exists (vi_states vi). split; [by destruct vi|done].
  - exfalso. apply Hnc.
    apply (fair_completes vi Hwf (fused_eval g (f_pen f) (f_eval_ok f)) _ _ (Hcells := Hcells) (descending vi P));
      [exact (descending_fit vi Hwf mx my mt P Hfit)|exact (descending_step vi Hwf mx my mt P Hfit)|done..].
  - rewrite ok_bind. destruct (so_cancelled out) eqn:Ec.
    + eexists. split; [done|]. destruct Hb as (? & ? & _). split; [done|]. split; [done|].
      split; [done|]. intros E. cbn in E. congruence.
    + specialize (Hmat mem V v (so_converged out) Hh Hr Hb Hconv).
      unfold final_policy_fused, write_back_fused. cbn [f_cp f_pen f_eval_ok].
      apply bind_ok in Hmat as (opt & -> & Hwb). rewrite ok_bind, Hwb, ok_bind. eexists. split; [done|].
      destruct (planner_ok_solution vi Hwf V Hr) as (? & ? & _). split; [done|]. split; [done|]. split; [done|].
      intros _. exists V. split; [done|]. split; [done|]. split; [done|]. intros ? ?. by apply Hsteps.
Qed.

(** ** Properties *)

(** C7: [frontier2d_fused] solves a field prepared for a goal like the padded
    solvers, although it keeps one array of values plus penalties with a
    sentinel.  Under every fair interleaving and whatever the relaxed loads
    return, no sum wraps and no stored value meets the sentinel, the solve
    returns without a panic, and unless it was cancelled the planner has the
    values of rounds of backups of single cells with the policies they induce,
    at the fixed point when it converged. *)
Theorem frontier2d_fused_fixed_point {S} (obs : SolveObserver S) max_iter nthreads sched vi o mx my mt P :
  wf_vi vi → fused_fits vi mx my mt P → 0 ≤ max_iter < 2 ^ 32 → 0 < nthreads < 2 ^ 32 →
  (∀ i e, e ∈ sched i → 0 ≤ ev_worker e < nthreads) →
  (∀ i, fair nthreads (enough_passes vi nthreads) (sched i)) →
  ∃ r, frontier2d_fused_solve_observed obs max_iter nthreads sched vi o = Ok r ∧
    padded_ok vi (Z.max 1 max_iter) max_iter r.1.1 r.2.
Proof. apply fused_spec. Qed.

Lemma corridor_fused_fits : fused_fits (corridor 3) 1 1 0 PROB_BASE.
Proof.
  split; [exact corridor_fits|exact corridor_bounds|exact corridor_goal|].
  intros i s Hs%elem_of_zget_1 Hf.
  assert (forallb (fun s => s_free s || (s_total_cost s =? MAX_COST)) (vi_states (corridor 3)) = true) as H
    by reflexivity.
  apply (forallb_elem _ _ _ H) in Hs. rewrite Hf in Hs. by apply Z.eqb_eq in Hs.
Qed.

Lemma frontier2d_fused_fixed_point_witness :
  ∃ r, frontier2d_fused_solve_observed NullObserver 10 3
         (fun i => round_robin 3 (enough_passes (corridor 3) 3 + 1) (fun ai k => Z.odd (ai + k + i)))
         (corridor 3) () = Ok r ∧
    padded_ok (corridor 3) 10 10 r.1.1 r.2.
Proof.
  apply (frontier2d_fused_fixed_point NullObserver 10 3 _ (corridor 3) () 1 1 0 PROB_BASE).
  - apply check_vi_ok. reflexivity.
  - exact corridor_fused_fits.
  - lia.
  - lia.
  - intros i e. apply round_robin_workers.
  - intros i. apply round_robin_fair. vm_compute. discriminate.
Defined.
