(* ===== verification/Sparse.v ===== *)
(** * The heading masks of vi_lib/src/solvers/frontier2d_sparse.rs

    The fused layout evaluated sparsely: for each column a mask of the headings
    that moved in the last round.  A round gathers the masks within reach of a
    candidate, widens them around the circle of headings and evaluates the
    headings that are set. *)

From Stdlib Require Import ZArith Lia.
From stdpp Require Import base gmap strings list numbers relations.
From S2P Require Import Prelude Floats Model Bellman Observe.
From S2P Require Import Bitboard BitboardOps BitboardEnum Active Frontier.
From S2P Require Import Chaotic Padded Clamped Wave Par Async Schedule Engine ParUnsafe Fused.

(** The headings of a column, all set. *)
Definition theta_full (nt : Z) : Z := if nt >=? 64 then U64_MAX else u64_sub (u64_shl 1 nt) 1.

Fixpoint rot_dilate_loop (k : nat) (full nt acc l r : Z) : Z :=
  match k with
  | O => acc
  | S k =>
      let l := Z.land (Z.lor (u64_shl l 1) (Z.shiftr l (nt - 1))) full in
      let r := Z.land (Z.lor (Z.shiftr r 1) (u64_shl r (nt - 1))) full in
      rot_dilate_loop k full nt (Z.lor acc (Z.lor l r)) l r
  end.

Definition rot_dilate (m k nt : Z) : Z := rot_dilate_loop (Z.to_nat k) (theta_full nt) nt m m m.

Example rot_dilate_wraps : rot_dilate 1 2 8 = 199 ∧ rot_dilate 0 5 60 = 0 ∧ rot_dilate (2 ^ 63) 1 64 = 2 ^ 63 + 2 ^ 62 + 1.
Proof. repeat split; reflexivity. Qed.

(** ** The worker *)

(** One worker in [compute_phase]: the rest of its claimed block, the bits left
    of the column at its head once it is entered, [cmask], [my_changed],
    [my_updates], and whether it waits at the barrier. *)
Record SparseWorker : Type := mkSparse {
  sw_block : list (Z * Z);
  sw_bits : option Z;
  sw_cmask : Z;
  sw_changed : list (Z * Z * Z);
  sw_updates : Z;
  sw_waiting : bool
}.

Definition sparse_new : SparseWorker := mkSparse [] None 0 [] 0 false.

Section sparse.
Context (mx my mt mw : Z).

(** The closure [midx]. *)
Definition midx (ix iy : Z) : Z :=
  u64_add (as_u64 (i32_add ix mx)) (u64_mul (as_u64 (i32_add iy my)) mw).

(** The masks of the window around a column. *)
Definition gather_mask (masks : list Z) (ix iy : Z) : res Z :=
  for_incl (- my) my (fun dy2 acc =>
    let row := midx (i32_sub ix mx) (i32_add iy dy2) in
    for_range 0 (as_u64 (i32_add (i32_mul 2 mx) 1)) (fun k acc =>
      m ← vget masks (u64_add row k); Ok (Z.lor acc m)) acc) 0.

(** The headings of a column to evaluate; [None] skips it. *)
Definition eval_mask (nt : Z) (masks : list Z) (first : bool) (ix iy : Z) : res (option Z) :=
  if first then Ok (Some (theta_full nt)) else
  acc ← gather_mask masks ix iy;
  Ok (if acc =? 0 then None else Some (rot_dilate acc mt nt)).

(** One heading of a column, [pad_col + it] and [precomp[a][it]] of the layout. *)
Definition sparse_eval (g : Geom) (pen : list Z) (eval_ok : list bool) (p : Picks) (old cur : list Z)
    (ix iy it : Z) : res (list Z * bool) :=
  let pad_idx := as_u64 (as_i64 (geom_pad_col g ix iy + it)) in
  e ← vget eval_ok pad_idx;
  if negb e then Ok (cur, false) else
  cp_self ← vget cur pad_idx;
  pen_self ← vget pen pad_idx;
  let before := if cp_self =? UNREACHED then MAX_COST else u64_sub cp_self pen_self in
  min_cost ← min_over (fun ai bk =>
      action_cost_fused (fun k => if p ai k then old else cur) bk (geom_pad_col g ix iy))
    (g_precomp g) it 0 MAX_COST;
  if negb (min_cost =? before) then
    cur ← vset cur pad_idx (u64_add min_cost pen_self);
    Ok (cur, true)
  else Ok (cur, false).

Context {M : Type} (eval : Picks → M → M → Z → Z → Z → res (M * bool)) (nt : Z).
Context (masks : list Z) (first : bool) (cand : list (Z * Z)) (start : M).

Definition sparse_claim (w : SparseWorker) (cursor : Z) : SparseWorker :=
  if cursor >=? zlen cand then mkSparse [] None 0 (sw_changed w) (sw_updates w) true
  else mkSparse (claimed cand 16 cursor) None 0 (sw_changed w) (sw_updates w) false.

Definition sparse_leave (w : SparseWorker) (c : Z * Z) (rest : list (Z * Z)) : SparseWorker :=
  mkSparse rest None 0
    (if negb (sw_cmask w =? 0) then sw_changed w ++ [(c, sw_cmask w)] else sw_changed w)
    (sw_updates w) false.

Definition sparse_step (p : Picks) (w : SparseWorker) (mem : M) (cursor : Z) : res (SparseWorker * M * Z) :=
  if sw_waiting w then Ok (w, mem, cursor) else
  match sw_block w with
  | [] => Ok (sparse_claim w cursor, mem, u64_add cursor 16)
  | (ixu, iyu) :: rest =>
      let '(ix, iy) := (as_i32 ixu, as_i32 iyu) in
      match sw_bits w with
      | None =>
          m ← eval_mask nt masks first ix iy;
          Ok (match m with
              | None => mkSparse rest None 0 (sw_changed w) (sw_updates w) false
              | Some bits => mkSparse (sw_block w) (Some bits) 0 (sw_changed w) (sw_updates w) false
              end, mem, cursor)
      | Some bits =>
          if bits =? 0 then Ok (sparse_leave w (ixu, iyu) rest, mem, cursor) else
          let it := trailing_zeros bits in
          r ← eval p start mem ix iy it;
          let '(mem, moved) := r in
          Ok (mkSparse (sw_block w) (Some (Z.land bits (bits - 1)))
                (if (moved : bool) then Z.lor (sw_cmask w) (u64_shl 1 it) else sw_cmask w)
                (sw_changed w) (if moved then u64_add (sw_updates w) 1 else sw_updates w) false,
              mem, cursor)
      end
  end.

Definition sparse_phase (sched : list Event) (nthreads : Z) : res (RoundState M SparseWorker) :=
  run_phase sparse_step sw_waiting start (vec_repeat sparse_new nthreads) sched.
End sparse.

(** ** The leader *)

(** The masks of the round before are zeroed. *)
Definition zero_masks (mx my mw : Z) (prev : list (Z * Z)) (masks : list Z) : res (list Z) :=
  for_each prev (fun c masks => vset masks (midx mx my mw (as_i32 c.1) (as_i32 c.2)) 0) masks.

(** One entry of a changed list. *)
Definition mark_changed (mx my mw : Z) (e : Z * Z * Z) (s : list Z * Bitboard2D * list (Z * Z))
    : res (list Z * Bitboard2D * list (Z * Z)) :=
  let '(c, cm) := e in
  let '(masks, nf, prev) := s in
  masks ← vset masks (midx mx my mw (as_i32 c.1) (as_i32 c.2)) cm;
  nf ← bb2_set nf c.1 c.2;
  Ok (masks, nf, prev ++ [c]).

(** The changed lists of a round as masks, board and list. *)
Definition store_changed (mx my mw nx ny : Z) (ws : list SparseWorker) (masks : list Z)
    : res (list Z * Bitboard2D * list (Z * Z)) :=
  for_each ws (fun w s => for_each (sw_changed w) (mark_changed mx my mw) s)
    (masks, bb2_new (as_u32 nx) (as_u32 ny), []).

Definition sparse_any (ws : list SparseWorker) : bool :=
  existsb (fun w => match sw_changed w with [] => false | _ => true end) ws.

Section leader.
Context {M B : Type} (eval : Picks → M → M → Z → Z → Z → res (M * bool)).
Context (nx ny nt mx my mt mw dx dy nthreads max_iter obs_interval : Z) (sched : Z → list Event).
Context (drop_states : bool) (boundary : M → Z → Z → B → res (B * SolveFlow)).

Fixpoint sparse_loop (fuel : nat) (mem : M) (masks : list Z) (prev_cells cand : list (Z * Z))
    (updates iters next_boundary : Z) (b : B) : res (M * B * SolveOutcome) :=
  match fuel with
  | O => OutOfFuel
  | Datatypes.S fuel =>
      rs ← sparse_phase mx my mt mw eval nt masks (iters =? 0) cand mem (sched iters) nthreads;
      let mem := rs_mem rs in
      let updates := foldl (fun u w => u64_add u (sw_updates w)) updates (rs_workers rs) in
      let iters := u32_add iters 1 in
      masks ← zero_masks mx my mw prev_cells masks;
      let any := sparse_any (rs_workers rs) in
      s ← store_changed mx my mw nx ny (rs_workers rs) masks;
      let '(masks, nf, prev_cells) := s in
      let visit := any && (iters <? max_iter) && negb drop_states && (iters >=? next_boundary) in
      r ← (if visit then boundary mem iters updates b else Ok (b, Continue));
      let '(b, flow) := r in
      let next_boundary :=
        if visit then u64_sat_add iters (Z.max obs_interval 1) else next_boundary in
      if any && (iters <? max_iter) && bool_decide (flow = Continue) then
        dil ← dilate2d nf dx dy;
        next ← enumerate2 dil;
        sparse_loop fuel mem masks prev_cells (if Z.rem iters 2 =? 1 then reverse next else next)
          updates iters next_boundary b
      else Ok (mem, b, match flow with
                       | Stop => stopped iters updates
                       | Cancel => cancelled iters updates
                       | Continue => running iters updates (negb any)
                       end)
  end.
End leader.

Section solver.
Context {S : Type} (obs : SolveObserver S) (max_iter nthreads : Z) (sched : Z → list Event).

(** [drop_states]: the environment asks to free the states (see the root file). *)
Definition frontier2d_sparse_solve_observed (drop_states : bool) (vi : ValueIterator) (o : S)
    : res (ValueIterator * S * SolveOutcome) :=
  g ← geom_build vi;
  _ ← rassert (g_nt g <=? 64);
  d ← displacement vi;
  let '(mx, my, mt) := d in
  f ← build_direct vi g nthreads;
  let mw := as_u64 (i32_add (g_nx g) (i32_mul 2 mx)) in
  let masks := vec_repeat 0 (u64_mul mw (as_u64 (i32_add (g_ny g) (i32_mul 2 my)))) in
  bb ← seed_frontier_2d vi;
  dil ← dilate2d bb (as_u32 (g_mx g)) (as_u32 (g_my g));
  cand_list ← enumerate2 dil;
  let vi := if drop_states then with_states vi [] else vi in
  r ← sparse_loop (sparse_eval g (f_pen f) (f_eval_ok f)) (g_nx g) (g_ny g) (g_nt g) mx my mt mw
        (as_u32 (g_mx g)) (as_u32 (g_my g)) nthreads max_iter (ob_interval obs o) sched drop_states
        (fused_boundary obs nthreads g (f_pen f) (f_eval_ok f)) (Datatypes.S (Z.to_nat max_iter))
        (f_cp f) masks [] cand_list 0 0 (Z.max (ob_interval obs o) 1) (vi, o);
  let '(cp, (vi, o), out) := r in
  if so_cancelled out then Ok (vi, o, out) else
  if drop_states then Ok (vi, o, out) else
  let f := mkFused cp (f_pen f) (f_eval_ok f) in
  opt ← final_policy_fused g f nthreads (so_converged out);
  vi ← write_back_fused vi g f opt nthreads;
  Ok (vi, o, out).
End solver.

Example sparse_corridor_run :
  (fun r => (s_total_cost <$> vi_states r.1.1, s_optimal_action <$> vi_states r.1.1, r.2)) <$>
  frontier2d_sparse_solve_observed NullObserver 10 2 (two_workers 20) false (corridor 3) ()
  = Ok ([0; PROB_BASE; 2 * PROB_BASE], [None; Some 0; Some 0], running 3 2 true).
Proof. vm_compute. reflexivity. Qed.

Example sparse_drops_states :
  (fun r => (vi_states r.1.1, r.2)) <$>
  frontier2d_sparse_solve_observed NullObserver 10 2 (two_workers 20) true (corridor 3) ()
  = Ok ([], running 3 2 true).
Proof. vm_compute. reflexivity. Qed.

(** ** Widening a mask around the circle of headings *)

Section headings.
Context (nt : Z) (Hnt : 0 < nt ≤ 64).

Definition heading_mask (m : Z) : Prop := 0 ≤ m < 2 ^ nt.

Lemma heading_mask_bits m : heading_mask m ↔ 0 ≤ m ∧ ∀ t, nt ≤ t → Z.testbit m t = false.
Proof.
  unfold heading_mask. split.
  - intros Hm. split; [lia|]. intros t Ht.
    destruct (decide (m = 0)) as [->|]; [apply Z.testbit_0_l|].
    apply Z.bits_above_log2; [lia|]. assert (Z.log2 m < nt) by (apply Z.log2_lt_pow2; lia). lia.
  - intros [H0 Hb]. split; [done|].
    destruct (decide (m = 0)) as [->|]; [by apply Z.pow_pos_nonneg; lia|].
    apply Z.log2_lt_pow2; [lia|]. apply Z.lt_nge. intros Hge.
    specialize (Hb _ Hge). rewrite Z.bit_log2 in Hb by lia. done.
Qed.

Lemma heading_mask_u64 m : heading_mask m → in_u64 m.
Proof.
  unfold heading_mask, in_u64. intros. assert (2 ^ nt ≤ 2 ^ 64) by (apply Z.pow_le_mono_r; lia). lia.
Qed.

Lemma theta_full_eq : theta_full nt = Z.ones nt.
Proof.
  unfold theta_full. rewrite Z.ones_equiv. destruct (Z.geb_spec nt 64).
  - assert (nt = 64) as -> by lia. done.
  - unfold u64_shl. rewrite Z.shiftl_1_l. assert (2 ^ nt < 2 ^ 64) by (apply Z.pow_lt_mono_r; lia).
    pose proof (Z.pow_pos_nonneg 2 nt ltac:(lia) ltac:(lia)). unfold u64_sub, wrap_u.
    rewrite (Z.mod_small (2 ^ nt)), Z.mod_small by lia. lia.
Qed.

Lemma theta_full_mask : heading_mask (theta_full nt).
Proof.
  rewrite theta_full_eq. unfold heading_mask. rewrite Z.ones_equiv.
  pose proof (Z.pow_pos_nonneg 2 nt ltac:(lia) ltac:(lia)). lia.
Qed.

Lemma theta_full_spec t : 0 ≤ t → Z.testbit (theta_full nt) t = (t <? nt).
Proof. intros Ht. rewrite theta_full_eq, Z.testbit_ones_nonneg by lia. done. Qed.

Lemma heading_lor a b : heading_mask a → heading_mask b → heading_mask (Z.lor a b).
Proof.
  rewrite !heading_mask_bits. intros [? Ha] [? Hb]. split; [by apply Z.lor_nonneg|].
  intros t Ht. by rewrite Z.lor_spec, Ha, Hb.
Qed.

Lemma heading_land a b : heading_mask a → heading_mask (Z.land a b).
Proof.
  rewrite !heading_mask_bits. intros [? Ha]. split; [by apply Z.land_nonneg; left|].
  intros t Ht. by rewrite Z.land_spec, Ha.
Qed.

Lemma heading_land_full a : 0 ≤ a → heading_mask (Z.land a (theta_full nt)).
Proof.
  intros Ha. rewrite heading_mask_bits. split; [by apply Z.land_nonneg; left|].
  intros t Ht. rewrite Z.land_spec, theta_full_spec by lia.
  rewrite (proj2 (Z.ltb_ge _ _)) by lia. apply andb_false_r.
Qed.

(** One turn of the circle, either way. *)
Lemma rot_left_spec l t :
  heading_mask l → 0 ≤ t < nt →
  Z.testbit (Z.land (Z.lor (u64_shl l 1) (Z.shiftr l (nt - 1))) (theta_full nt)) t
  = Z.testbit l ((t - 1) mod nt).
Proof.
  intros [H0 Hl]%heading_mask_bits Ht.
  rewrite Z.land_spec, theta_full_spec, (proj2 (Z.ltb_lt t nt)), andb_true_r by lia.
  rewrite Z.lor_spec, u64_shl_spec, Z.shiftr_spec, (proj2 (Z.ltb_lt t 64)) by lia. cbn [andb].
  destruct (decide (t = 0)) as [->|].
  - rewrite (Z.testbit_neg_r l (0 - 1)) by lia. rewrite orb_false_l, Z.add_0_l. f_equal.
    apply (Z.mod_unique _ _ (-1)); lia.
  - rewrite (Hl (t + (nt - 1))), orb_false_r, Z.mod_small by lia. done.
Qed.

Lemma rot_right_spec r t :
  heading_mask r → 0 ≤ t < nt →
  Z.testbit (Z.land (Z.lor (Z.shiftr r 1) (u64_shl r (nt - 1))) (theta_full nt)) t
  = Z.testbit r ((t + 1) mod nt).
Proof.
  intros [H0 Hr]%heading_mask_bits Ht.
  rewrite Z.land_spec, theta_full_spec, (proj2 (Z.ltb_lt t nt)), andb_true_r by lia.
  rewrite Z.lor_spec, u64_shl_spec, Z.shiftr_spec, (proj2 (Z.ltb_lt t 64)) by lia. cbn [andb].
  destruct (decide (t = nt - 1)) as [->|].
  - rewrite (Hr (nt - 1 + 1)) by lia. replace (nt - 1 + 1) with nt by lia.
    by rewrite Z.sub_diag, Z.mod_same by lia.
  - rewrite (Z.testbit_neg_r r (t - (nt - 1))), orb_false_r, Z.mod_small by lia. done.
Qed.

(** The mask holds the headings at most [k] turns away. *)
Lemma rot_dilate_spec m k :
  heading_mask m → 0 ≤ k →
  heading_mask (rot_dilate m k nt) ∧
  ∀ t, 0 ≤ t < nt → Z.testbit (rot_dilate m k nt) t = true ↔
    ∃ d, Z.abs d ≤ k ∧ Z.testbit m ((t + d) mod nt) = true.
Proof.
  intros Hm Hk. unfold rot_dilate.
  assert (∀ n i acc l r, heading_mask acc → heading_mask l → heading_mask r → 0 ≤ i →
    (∀ t, 0 ≤ t < nt → Z.testbit l t = Z.testbit m ((t - i) mod nt)) →
    (∀ t, 0 ≤ t < nt → Z.testbit r t = Z.testbit m ((t + i) mod nt)) →
    (∀ t, 0 ≤ t < nt → Z.testbit acc t = true ↔
      ∃ d, Z.abs d ≤ i ∧ Z.testbit m ((t + d) mod nt) = true) →
    heading_mask (rot_dilate_loop n (theta_full nt) nt acc l r) ∧
    ∀ t, 0 ≤ t < nt → Z.testbit (rot_dilate_loop n (theta_full nt) nt acc l r) t = true ↔
      ∃ d, Z.abs d ≤ i + Z.of_nat n ∧ Z.testbit m ((t + d) mod nt) = true) as H.
  { induction n as [|n IH]; intros i acc l r Hacc Hl Hr Hi El Er Ea; cbn [rot_dilate_loop].
    { split; [done|]. by rewrite Z.add_0_r. }
    pose proof Hl as [Hl0 _]. pose proof Hr as [Hr0 _].
    set (l' := Z.land (Z.lor (u64_shl l 1) _) _). set (r' := Z.land (Z.lor (Z.shiftr r 1) _) _).
    assert (heading_mask l' ∧ heading_mask r') as [Hl' Hr'].
    { split; apply heading_land_full, Z.lor_nonneg; (split; [|]);
        first [apply Z.shiftr_nonneg; done|apply in_u64_shl]. }
    assert (∀ t, 0 ≤ t < nt → Z.testbit l' t = Z.testbit m ((t - (i + 1)) mod nt)) as El'.
    { intros t Ht. unfold l'. rewrite rot_left_spec by done. rewrite El by (apply Z.mod_pos_bound; lia).
      rewrite Zminus_mod_idemp_l. do 2 f_equal. lia. }
    assert (∀ t, 0 ≤ t < nt → Z.testbit r' t = Z.testbit m ((t + (i + 1)) mod nt)) as Er'.
    { intros t Ht. unfold r'. rewrite rot_right_spec by done. rewrite Er by (apply Z.mod_pos_bound; lia).
      rewrite Zplus_mod_idemp_l. do 2 f_equal. lia. }
    replace (i + Z.of_nat (S n)) with (i + 1 + Z.of_nat n) by lia.
    apply IH; [by repeat apply heading_lor|done|done|lia|done|done|].
    intros t Ht. rewrite !Z.lor_spec, !orb_true_iff, Ea, El', Er' by done. split.
    - intros [(d & Hd & Hb)|[Hb|Hb]]; [exists d|exists (- (i + 1))|exists (i + 1)]; (split; [lia|]); done.
    - intros (d & Hd & Hb). destruct (decide (Z.abs d ≤ i)); [left; by exists d|right].
      destruct (decide (d < 0)).
      + left. by replace (t - (i + 1)) with (t + d) by lia.
      + right. by replace (i + 1) with d by lia. }
  specialize (H (Z.to_nat k) 0 m m m). rewrite Z.add_0_l, Z2Nat.id in H by done. apply H; try done.
  - intros t Ht. by rewrite Z.sub_0_r, Z.mod_small by lia.
  - intros t Ht. by rewrite Z.add_0_r, Z.mod_small by lia.
  - intros t Ht. split.
    + intros Hb. exists 0. split; [done|]. by rewrite Z.add_0_r, Z.mod_small by lia.
    + intros (d & Hd & Hb). assert (d = 0) as -> by lia. by rewrite Z.add_0_r, Z.mod_small in Hb by lia.
Qed.

Lemma heading_bits m t : heading_mask m → t ∈ word_bits m → 0 ≤ t < nt.
Proof.
  intros [_ Hm]%heading_mask_bits [Ht Hb]%elem_of_word_bits.
  destruct (decide (nt ≤ t)); [by rewrite Hm in Hb by lia|lia].
Qed.

Lemma heading_lor_bit m t :
  heading_mask m → 0 ≤ t < nt →
  heading_mask (Z.lor m (u64_shl 1 t)) ∧
  ∀ k, 0 ≤ k → Z.testbit (Z.lor m (u64_shl 1 t)) k = true ↔ Z.testbit m k = true ∨ k = t.
Proof.
  intros Hm Ht.
  assert (∀ k, 0 ≤ k → Z.testbit (u64_shl 1 t) k = (k =? t)) as E.
  { intros k Hk. rewrite u64_shl_spec by done. destruct (Z.eqb_spec k t) as [->|Hne].
    - by rewrite (proj2 (Z.ltb_lt t 64)), Z.sub_diag by lia.
    - rewrite <- (Z.pow_0_r 2). destruct (decide (k < t)).
      + rewrite (Z.testbit_neg_r _ (k - t)) by lia. apply andb_false_r.
      + rewrite Z.pow2_bits_false by lia. apply andb_false_r. }
  split.
  - apply heading_lor; [done|]. apply heading_mask_bits. split; [apply in_u64_shl|].
    intros k Hk. rewrite E by lia. apply Z.eqb_neq. lia.
  - intros k Hk. rewrite Z.lor_spec, orb_true_iff, E by done. by rewrite Z.eqb_eq.
Qed.
End headings.

(** ** The masks of the columns *)

Section masks.
Context (nx ny nt mx my : Z) (Hnt : 0 < nt ≤ 64) (Hnx : 0 < nx) (Hny : 0 < ny).
Context (Hmx : 0 ≤ mx) (Hmy : 0 ≤ my) (Hsize : (nx + 2 * mx) * (ny + 2 * my) * nt < 2 ^ 31).
Abbreviation mw := (nx + 2 * mx).
Abbreviation mh := (ny + 2 * my).

Definition mask_pos (c : Z * Z) : Z := c.1 + mx + (c.2 + my) * mw.

Definition mask_of (masks : list Z) (c : Z * Z) : Z := wd masks (mask_pos c).

(** An array of masks, padded so that no window leaves it. *)
Definition masks_ok (masks : list Z) : Prop :=
  zlen masks = mw * mh ∧ ∀ m, m ∈ masks → heading_mask nt m.

Definition in_grid (c : Z * Z) : Prop := 0 ≤ c.1 < nx ∧ 0 ≤ c.2 < ny.

Lemma mask_sizes : 0 < mw < 2 ^ 31 ∧ 0 < mh < 2 ^ 31 ∧ mw * mh < 2 ^ 31.
Proof.
  assert (0 < mw * mh) by nia. assert (mw * mh * 1 ≤ mw * mh * nt) by (apply Z.mul_le_mono_nonneg_l; lia).
  repeat split; nia.
Qed.

Lemma midx_eq x y :
  - mx ≤ x < nx + mx → - my ≤ y < ny + my →
  midx mx my mw x y = mask_pos (x, y) ∧ 0 ≤ mask_pos (x, y) < mw * mh.
Proof.
  intros Hx Hy. destruct mask_sizes as (? & ? & ?). unfold mask_pos. cbn [fst snd].
  assert (0 ≤ (y + my) * mw ≤ (mh - 1) * mw) as Hrow.
  { split; [nia|]. apply Z.mul_le_mono_nonneg_r; lia. }
  split; [|lia]. unfold midx. rewrite !i32_add_small by (unfold in_i32; lia).
  rewrite !as_u64_small by (unfold in_u64; lia). rewrite u64_mul_small by (unfold in_u64; lia).
  apply u64_add_small. unfold in_u64. lia.
Qed.

Lemma mask_pos_inj c c' : in_grid c → in_grid c' → mask_pos c = mask_pos c' → c = c'.
Proof.
  intros [] [] E. unfold mask_pos in E. destruct c as [x y], c' as [x' y']. cbn in *.
  assert (y = y'); [|f_equal; nia]. nia.
Qed.

Lemma mask_of_heading masks c : masks_ok masks → heading_mask nt (mask_of masks c).
Proof.
  intros [_ Hm]. unfold mask_of, wd. destruct (zget masks (mask_pos c)) as [m|] eqn:E.
  - by eapply Hm, elem_of_zget_1.
  - unfold heading_mask. cbn. pose proof (Z.pow_pos_nonneg 2 nt ltac:(lia) ltac:(lia)). lia.
Qed.

(** The gathered mask holds every mask of the window. *)
Lemma gather_mask_spec masks x y :
  masks_ok masks → in_grid (x, y) →
  ∃ acc, gather_mask mx my mw masks x y = Ok acc ∧ heading_mask nt acc ∧
    ∀ x' y' t, Z.abs (x - x') ≤ mx → Z.abs (y - y') ≤ my →
      Z.testbit (mask_of masks (x', y')) t = true → Z.testbit acc t = true.
Proof.
  intros Hok [Hx Hy]. cbn in Hx, Hy. destruct mask_sizes as (? & ? & ?).
  unfold gather_mask, for_incl, for_range.
  assert (∃ acc, for_each (seqZ (- my) (my + 1 - - my)) (fun dy2 acc =>
      let row := midx mx my mw (i32_sub x mx) (i32_add y dy2) in
      for_each (seqZ 0 (as_u64 (i32_add (i32_mul 2 mx) 1) - 0)) (fun k acc =>
        m ← vget masks (u64_add row k); Ok (Z.lor acc m)) acc) 0 = Ok acc ∧ heading_mask nt acc ∧
      (∀ t, Z.testbit 0 t = true → Z.testbit acc t = true) ∧
      ∀ dy2, dy2 ∈ seqZ (- my) (my + 1 - - my) → ∀ x' t, Z.abs (x - x') ≤ mx →
        Z.testbit (mask_of masks (x', y + dy2)) t = true → Z.testbit acc t = true)
    as (acc & E & Hacc & _ & Hall).
  2: { exists acc. split; [exact E|]. split; [done|]. intros x' y' t Hx' Hy' Hb.
       apply (Hall (y' - y)) with (x' := x'); [apply elem_of_seqZ; lia|done|].
       by replace (y + (y' - y)) with y' by lia. }
  apply (for_each_mono (heading_mask nt) (fun a b => ∀ t, Z.testbit a t = true → Z.testbit b t = true)).
  - split; [by intros a t|by intros a b c Hab Hbc t ?%Hab%Hbc].
  - intros dy2 a b Hp Hab x' t Hx' Hb. by eapply Hab, Hp.
  - unfold heading_mask. pose proof (Z.pow_pos_nonneg 2 nt ltac:(lia) ltac:(lia)). lia.
  - intros dy2 a Hdy%elem_of_seqZ Ha. cbv zeta.
    rewrite i32_mul_small, (i32_add_small (2 * mx)), as_u64_small, Z.sub_0_r by (unfold in_u64, in_i32; lia).
    rewrite i32_sub_small, (i32_add_small y) by (unfold in_i32; lia).
    destruct (midx_eq (x - mx) (y + dy2)) as [-> _]; [lia|lia|].
    destruct (for_each_mono (heading_mask nt) (fun a b => ∀ t, Z.testbit a t = true → Z.testbit b t = true)
      (fun k b => ∀ t, Z.testbit (mask_of masks (x - mx + k, y + dy2)) t = true → Z.testbit b t = true)
      (seqZ 0 (2 * mx + 1)) (fun k acc => m ← vget masks (u64_add (mask_pos (x - mx, y + dy2)) k); Ok (Z.lor acc m)) a)
      as (b & Eb & Hb & Hle & Hk).
    + split; [by intros c t|by intros c d e Hcd Hde t ?%Hcd%Hde].
    + intros k c d Hp Hcd t Hb. by eapply Hcd, Hp.
    + done.
    + intros k c Hk%elem_of_seqZ Hc.
      destruct (midx_eq (x - mx + k) (y + dy2)) as [_ Hpos]; [lia|lia|].
      assert (u64_add (mask_pos (x - mx, y + dy2)) k = mask_pos (x - mx + k, y + dy2)) as ->.
      { assert (mask_pos (x - mx, y + dy2) + k = mask_pos (x - mx + k, y + dy2)) as E'
          by (unfold mask_pos; cbn; lia).
        rewrite <- E' in *. apply u64_add_small. unfold in_u64. lia. }
      pose proof Hok as [Hlen Hm].
      rewrite vget_wd, ok_bind by (rewrite Hlen; lia). fold (mask_of masks (x - mx + k, y + dy2)).
      eexists. split; [done|]. split; [apply heading_lor; [done|done|by apply mask_of_heading]|].
      split; intros t Hb; rewrite Z.lor_spec, Hb; [done|apply orb_true_r].
    + exists b. split; [exact Eb|]. split; [done|]. split; [done|].
      intros x' t Hx' Hb'. apply (Hk (x' - (x - mx))); [apply elem_of_seqZ; lia|].
      by replace (x - mx + (x' - (x - mx))) with x' by lia.
Qed.

(** Storing one mask. *)
Lemma mask_store masks c m :
  masks_ok masks → in_grid c → heading_mask nt m →
  ∃ masks', vset masks (midx mx my mw (as_i32 c.1) (as_i32 c.2)) m = Ok masks' ∧ masks_ok masks' ∧
    mask_of masks' c = m ∧ ∀ c', in_grid c' → c' ≠ c → mask_of masks' c' = mask_of masks c'.
Proof.
  intros [Hl Hm] Hc Hh. destruct mask_sizes as (? & ? & ?). pose proof Hc as [Hx Hy].
  rewrite !as_i32_small by lia. destruct (midx_eq c.1 c.2) as [-> Hpos]; [lia|lia|].
  change (mask_pos (c.1, c.2)) with (mask_pos c) in *. rewrite vset_ok by lia.
  eexists. split; [done|]. split; [split; [by rewrite zlen_zset|]|split].
  - intros m' (i & Hi)%elem_of_zget. destruct (decide (i = mask_pos c)) as [->|Hne].
    + rewrite zget_zset_eq in Hi by lia. by injection Hi as <-.
    + rewrite zget_zset_ne in Hi by done. by eapply Hm, elem_of_zget_1.
  - unfold mask_of, wd. by rewrite zget_zset_eq by lia.
  - intros c' Hc' Hne. unfold mask_of, wd. rewrite zget_zset_ne; [done|].
    intros E. by apply Hne, mask_pos_inj.
Qed.

Lemma zero_masks_spec prev masks :
  masks_ok masks → (∀ c, c ∈ prev → in_grid c) →
  ∃ masks', zero_masks mx my mw prev masks = Ok masks' ∧ masks_ok masks' ∧
    ∀ c, in_grid c → mask_of masks' c = if decide (c ∈ prev) then 0 else mask_of masks c.
Proof.
  unfold zero_masks. revert masks. induction prev as [|c prev IH]; intros masks Hok Hp.
  { exists masks. split; [done|]. split; [done|]. intros c _. destruct (decide (c ∈ [])) as [?%elem_of_nil|]; done. }
  destruct (mask_store masks c 0 Hok) as (m1 & E & Hok1 & Hc1 & Ho1); [apply Hp; left| |].
  { unfold heading_mask. pose proof (Z.pow_pos_nonneg 2 nt ltac:(lia) ltac:(lia)). lia. }
  destruct (IH m1 Hok1) as (m2 & E2 & Hok2 & Hz); [intros; apply Hp; by right|].
  exists m2. cbn [for_each]. rewrite E, ok_bind. split; [done|]. split; [done|].
  intros d Hd. rewrite Hz by done. destruct (decide (d ∈ prev)), (decide (d ∈ c :: prev)) as [Hin|Hin]; try done.
  - exfalso. apply Hin. by right.
  - apply elem_of_cons in Hin as [->|?]; done.
  - apply Ho1; [done|]. intros ->. apply Hin. left.
Qed.
End masks.
