(* ===== verification/SparseSolve.v ===== *)
(** * The sparse solver and the agreement of the parallel solvers

    The workers of [frontier2d_sparse] as a machine of asynchronous rounds: a
    round evaluates the headings its masks select, and every cell outside of
    them is consistent, so the solve has the guarantees of the fused solver.
    From a goal field the four parallel solvers return the same planner. *)

From Stdlib Require Import ZArith Lia.
From stdpp Require Import base gmap strings list numbers relations.
From S2P Require Import Prelude Floats Model Bellman Observe Consistency.
From S2P Require Import Bitboard BitboardOps BitboardEnum Active Frontier.
From S2P Require Import Chaotic Padded Clamped Wave Par Async Schedule Engine ParUnsafe Fused FusedLayout FusedSolve Sparse.

(** ** The worker as a machine *)

Section round_proof.
Context {M : Type} (nx ny nt mx my mt : Z) (acts : list Action) (st : list State).
Context (Hd : dims_ok nx ny nt) (Hst : wf_states nx ny nt st) (Hnt : nt ≤ 64).
Context (Hmx : 0 ≤ mx) (Hmy : 0 ≤ my) (Hmt : 0 ≤ mt).
Context (Hsize : (nx + 2 * mx) * (ny + 2 * my) * nt < 2 ^ 31).
Context (eval : Picks → M → M → Z → Z → Z → res (M * bool)) (holds : M → valuation → Prop).
Context (fit : valuation → valuation → Z → Prop).
Context `{Hcells : !GsCells nx ny nt acts st eval holds fit}.
Abbreviation ev := (evaluates nx ny nt acts st).
Abbreviation mw := (nx + 2 * mx).
Context (inv : valuation → valuation → Prop).
Context (inv_fit : ∀ Vr V i, inv Vr V → active st i → V i = Vr i → fit Vr V i).
Context (inv_step : ∀ Vr V i V', inv Vr V → active st i → V i = Vr i → eval1 ev Vr V i V' → inv Vr V').
Context (masks : list Z) (first : bool) (cand : list (Z * Z)) (start : M) (Vr : valuation).
Context (Hmasks : masks_ok nx ny nt mx my masks).
Context (Hcand : ∀ c, c ∈ cand → 0 ≤ c.1 < nx ∧ 0 ≤ c.2 < ny) (Hnd : NoDup cand).
Context (Hstart : holds start Vr) (Hinv : inv Vr Vr).
Abbreviation step := (sparse_step mx my mt mw eval nt masks first cand start).

(** The headings of a column that a round evaluates. *)
Definition mask_heads (c : Z * Z) : list Z :=
  match eval_mask mx my mt mw nt masks first c.1 c.2 with
  | Ok (Some m) => word_bits m
  | _ => []
  end.
Abbreviation cc := (head_cells nx nt mask_heads).

Lemma sparse_dims : 0 < nx < 2 ^ 31 ∧ 0 < ny < 2 ^ 31 ∧ 0 < nt ≤ 64.
Proof. destruct (dims_board _ _ _ Hd) as (? & ? & _). destruct Hd. lia. Qed.

Lemma eval_mask_ok c :
  c ∈ cand → ∃ o, eval_mask mx my mt mw nt masks first c.1 c.2 = Ok o ∧ ∀ m, o = Some m → heading_mask nt m.
Proof.
  intros Hc. destruct sparse_dims as (? & ? & ?). destruct (Hcand c Hc).
  unfold eval_mask. destruct first.
  { eexists. split; [done|]. intros m [= <-]. by apply theta_full_mask. }
  destruct (gather_mask_spec nx ny nt mx my ltac:(lia) ltac:(lia) ltac:(lia) Hmx Hmy Hsize masks c.1 c.2 Hmasks)
    as (acc & -> & Hacc & _); [done|]. rewrite ok_bind. eexists. split; [done|].
  intros m. destruct (acc =? 0); [done|]. intros [= <-]. by apply rot_dilate_spec.
Qed.

Lemma mask_heads_ok c : c ∈ cand → NoDup (mask_heads c) ∧ ∀ t, t ∈ mask_heads c → 0 ≤ t < nt.
Proof.
  intros Hc. destruct (eval_mask_ok c Hc) as (o & E & Ho). unfold mask_heads. rewrite E.
  destruct o as [m|]; [|split; [constructor|by intros t ?%elem_of_nil]].
  destruct sparse_dims as (_ & _ & ?). split.
  - apply list.NoDup_filter, NoDup_seqZ.
  - intros t. by apply heading_bits, Ho.
Qed.

(** The cells a worker still has to evaluate. *)
Definition sparse_todo (w : SparseWorker) : list Z :=
  match sw_block w with
  | [] => []
  | c :: rest =>
      match sw_bits w with None => cc c | Some b => index nx nt c.1 c.2 <$> word_bits b end ++ (rest ≫= cc)
  end.

(** The headings a worker reports or will report. *)
Definition sparse_marked (w : SparseWorker) (k : Z * Z * Z) : Prop :=
  (∃ m, (k.1, m) ∈ sw_changed w ∧ Z.testbit m k.2 = true) ∨
  (head (sw_block w) = Some k.1 ∧ Z.testbit (sw_cmask w) k.2 = true).

Record sparse_ok (cursor : Z) (w : SparseWorker) : Prop := {
  sk_block : ∀ c, c ∈ sw_block w → c ∈ cand;
  sk_bits : ∀ b, sw_bits w = Some b → heading_mask nt b;
  sk_enter : sw_bits w = None → sw_cmask w = 0;
  sk_idle : sw_block w = [] → sw_cmask w = 0;
  sk_cmask : heading_mask nt (sw_cmask w);
  sk_changed : ∀ e, e ∈ sw_changed w → e.1 ∈ cand ∧ heading_mask nt e.2 ∧ e.2 ≠ 0;
  sk_waiting : sw_waiting w = true → sw_block w = [] ∧ zlen cand ≤ cursor
}.

Lemma sparse_ok_mono c c' w : sparse_ok c w → c ≤ c' → sparse_ok c' w.
Proof. intros [? ? ? ? ? ? Hw] Hle. split; try done. intros [? ?]%Hw. split; [done|lia]. Qed.

Lemma sparse_ok_waiting c w : sparse_ok c w → sw_waiting w = true → sparse_todo w = [] ∧ zlen cand ≤ c.
Proof. intros Hok [E ?]%(sk_waiting _ _ Hok). split; [|done]. unfold sparse_todo. by rewrite E. Qed.

Lemma heading_zero : heading_mask nt 0.
Proof. destruct sparse_dims as (_ & _ & ?). unfold heading_mask. pose proof (Z.pow_pos_nonneg 2 nt ltac:(lia) ltac:(lia)). lia. Qed.

(** *** The ledger of columns: each is claimed by one worker *)

Definition owned (w : SparseWorker) : list (Z * Z) := (fst <$> sw_changed w) ++ sw_block w.

Definition ledger (rs : RoundState M SparseWorker) : Prop :=
  ∃ skipped, cand ≡ₚ skipped ++ (rs_workers rs ≫= owned) ++ drop (Z.to_nat (rs_cursor rs)) cand.

Lemma ledger_step rs l1 w l2 mem' w' cursor' extra :
  ledger rs → rs_workers rs = l1 ++ w :: l2 →
  owned w ++ drop (Z.to_nat (rs_cursor rs)) cand ≡ₚ extra ++ owned w' ++ drop (Z.to_nat cursor') cand →
  ledger (mkRound mem' cursor' (l1 ++ w' :: l2)).
Proof.
  intros (skipped & Hp) Ews Hw. exists (skipped ++ extra). cbn [rs_workers rs_cursor].
  rewrite Hp at 1. rewrite Ews, !bind_app, !bind_cons, <- !app_assoc. apply Permutation_app_head.
  rewrite !(Permutation_app_comm (l1 ≫= owned)), !app_assoc. apply Permutation_app_tail.
  rewrite <- !app_assoc, !(Permutation_app_swap_app _ (l2 ≫= owned)).
  by rewrite Hw.
Qed.

Abbreviation key := (fun j => (col nx nt j, ct nt j)).
Abbreviation state_ok :=
  (round_state_ok nx ny nt acts st holds inv cand mask_heads Vr key sparse_todo sparse_marked sw_waiting sparse_ok).

Lemma worker_in L V rs l1 w l2 : state_ok L V rs → rs_workers rs = l1 ++ w :: l2 → sparse_ok (rs_cursor rs) w.
Proof. intros Hok Ews. apply (rk_workers Hok). rewrite Ews. apply elem_of_middle. by left. Qed.

(** A step that neither claims nor evaluates keeps the cursor. *)
Lemma still_step L V rs l1 w l2 w' extra :
  state_ok L V rs → ledger rs → rs_workers rs = l1 ++ w :: l2 → sw_waiting w = false → sw_waiting w' = false →
  sparse_todo w = sparse_todo w' → (∀ k, sparse_marked w k ↔ sparse_marked w' k) →
  sparse_ok (rs_cursor rs) w' → owned w ≡ₚ extra ++ owned w' →
  state_ok L V (mkRound (rs_mem rs) (rs_cursor rs) (l1 ++ w' :: l2)) ∧
  ledger (mkRound (rs_mem rs) (rs_cursor rs) (l1 ++ w' :: l2)).
Proof.
  intros Hok Hl Ews Hw Hw' Ht Hm Hk Hown. split.
  - eapply (quiet_step nx ny nt acts st holds inv); [exact sparse_ok_mono|exact Hok|exact Ews|..]; try done.
    + by rewrite Ht.
    + pose proof (rk_cursor Hok) as Hc. rewrite Ews in Hc. rewrite !waiting_middle in *. rewrite Hw in Hc.
      rewrite Hw'. lia.
  - apply (ledger_step rs l1 w l2 _ w' _ extra Hl Ews). by rewrite Hown, app_assoc.
Qed.

(** Entering a column, or skipping it. *)
Lemma enter_step L V rs l1 w l2 x y rest o :
  state_ok L V rs → ledger rs → rs_workers rs = l1 ++ w :: l2 → sw_waiting w = false →
  sw_block w = (x, y) :: rest → sw_bits w = None → eval_mask mx my mt mw nt masks first x y = Ok o →
  let w' := match o with
            | None => mkSparse rest None 0 (sw_changed w) (sw_updates w) false
            | Some bits => mkSparse (sw_block w) (Some bits) 0 (sw_changed w) (sw_updates w) false
            end in
  state_ok L V (mkRound (rs_mem rs) (rs_cursor rs) (l1 ++ w' :: l2)) ∧
  ledger (mkRound (rs_mem rs) (rs_cursor rs) (l1 ++ w' :: l2)).
Proof.
  intros Hok Hl Ews Hwait Eb En Eo. pose proof (worker_in _ _ _ _ _ _ Hok Ews) as Hw.
  assert ((x, y) ∈ cand) as Hin by (apply (sk_block _ _ Hw); rewrite Eb; left).
  destruct (eval_mask_ok (x, y) Hin) as (o' & E & Ho). cbn in E. rewrite Eo in E. injection E as <-.
  pose proof (sk_enter _ _ Hw En) as Ec. pose proof heading_zero.
  assert (cc (x, y) = index nx nt x y <$> match o with Some m => word_bits m | None => [] end) as Ecc.
  { unfold head_cells, mask_heads. cbn [fst snd]. rewrite Eo. by destruct o. }
  destruct o as [bits|]; cbn zeta.
  - apply (still_step L V rs l1 w l2 _ [] Hok Hl Ews Hwait); [done|..].
    + unfold sparse_todo. rewrite Eb, En. cbn [sw_block sw_bits fst snd]. by rewrite Ecc.
    + intros k. unfold sparse_marked. cbn. by rewrite Ec.
    + split; cbn; try done; [apply (sk_block _ _ Hw)|apply (sk_changed _ _ Hw)].
    + done.
  - apply (still_step L V rs l1 w l2 _ [(x, y)] Hok Hl Ews Hwait); [done|..].
    + unfold sparse_todo. rewrite Eb, En. cbn [sw_block sw_bits]. rewrite Ecc. cbn. by destruct rest.
    + intros k. unfold sparse_marked. cbn. rewrite Ec, Z.testbit_0_l. naive_solver.
    + split; cbn; try done; [|apply (sk_changed _ _ Hw)].
      intros c Hc. apply (sk_block _ _ Hw). rewrite Eb. by right.
    + unfold owned. rewrite Eb. cbn. by rewrite Permutation_middle.
Qed.

(** Leaving a column whose headings are done. *)
Lemma leave_step L V rs l1 w l2 c rest :
  state_ok L V rs → ledger rs → rs_workers rs = l1 ++ w :: l2 → sw_waiting w = false →
  sw_block w = c :: rest → sw_bits w = Some 0 →
  state_ok L V (mkRound (rs_mem rs) (rs_cursor rs) (l1 ++ sparse_leave w c rest :: l2)) ∧
  ledger (mkRound (rs_mem rs) (rs_cursor rs) (l1 ++ sparse_leave w c rest :: l2)).
Proof.
  intros Hok Hl Ews Hwait Eb En. pose proof (worker_in _ _ _ _ _ _ Hok Ews) as Hw.
  assert (c ∈ cand) as Hin by (apply (sk_block _ _ Hw); rewrite Eb; left). pose proof heading_zero.
  apply (still_step L V rs l1 w l2 _ (if sw_cmask w =? 0 then [c] else []) Hok Hl Ews Hwait); [done|..].
  - unfold sparse_todo, sparse_leave. rewrite Eb, En. cbn. by destruct rest.
  - intros k. unfold sparse_marked, sparse_leave. rewrite Eb. cbn [sw_block sw_cmask sw_changed head].
    rewrite Z.testbit_0_l. destruct (Z.eqb_spec (sw_cmask w) 0) as [Ec|Hne]; cbn [negb].
    + rewrite Ec, Z.testbit_0_l. naive_solver.
    + setoid_rewrite elem_of_app. setoid_rewrite list_elem_of_singleton. split.
      * intros [(m & Hm & Hb)|[[= Ek] Hb]]; left; [exists m; auto|]. exists (sw_cmask w). rewrite Ek. auto.
      * intros [(m & [Hm|[= <- ->]] & Hb)|[? ?]]; [left; by exists m|by right|done].
  - split; cbn; try done.
    + intros d Hd'. apply (sk_block _ _ Hw). rewrite Eb. by right.
    + intros e. destruct (Z.eqb_spec (sw_cmask w) 0); cbn [negb]; [apply (sk_changed _ _ Hw)|].
      intros [He| ->%list_elem_of_singleton]%elem_of_app; [by apply (sk_changed _ _ Hw)|].
      split; [done|]. split; [apply (sk_cmask _ _ Hw)|done].
  - unfold owned, sparse_leave. rewrite Eb. cbn [sw_block sw_changed].
    destruct (sw_cmask w =? 0); cbn [negb app].
    + by rewrite Permutation_middle.
    + rewrite fmap_app. cbn. by rewrite <- app_assoc.
Qed.

(** Evaluating the lowest heading left. *)
Lemma heading_step L V rs l1 w l2 x y rest bits p :
  state_ok L V rs → ledger rs → rs_workers rs = l1 ++ w :: l2 → sw_waiting w = false →
  sw_block w = (x, y) :: rest → sw_bits w = Some bits → bits ≠ 0 →
  ∃ mem' moved V', eval p start (rs_mem rs) x y (trailing_zeros bits) = Ok (mem', moved) ∧
    let w' := mkSparse (sw_block w) (Some (Z.land bits (bits - 1)))
                (if moved then Z.lor (sw_cmask w) (u64_shl 1 (trailing_zeros bits)) else sw_cmask w)
                (sw_changed w) (if moved then u64_add (sw_updates w) 1 else sw_updates w) false in
    state_ok (L ++ [index nx nt x y (trailing_zeros bits)]) V' (mkRound mem' (rs_cursor rs) (l1 ++ w' :: l2)) ∧
    ledger (mkRound mem' (rs_cursor rs) (l1 ++ w' :: l2)).
Proof.
  intros Hok Hl Ews Hwait Eb En Hne. pose proof (worker_in _ _ _ _ _ _ Hok Ews) as Hw.
  destruct sparse_dims as (Hnx & Hny & Hntp).
  destruct (Hcand (x, y)) as [Hx Hy]; [apply (sk_block _ _ Hw); rewrite Eb; left|]. cbn in Hx, Hy.
  pose proof (sk_bits _ _ Hw _ En) as Hb. pose proof (heading_mask_u64 nt ltac:(lia) _ Hb) as Hu.
  destruct (word_bits_step bits Hu Hne) as (Ebits & Htz & Hset). set (t := trailing_zeros bits) in *.
  assert (0 ≤ t < nt) as Ht by (apply (heading_bits nt ltac:(lia) bits); [done|rewrite Ebits; left]).
  destruct (cell_step nx ny nt acts st Hd Hst eval holds fit inv inv_fit inv_step cand mask_heads start Vr
    Hcand Hnd mask_heads_ok Hstart key sparse_todo sparse_marked sw_waiting sparse_ok
    L V rs l1 w l2 x y t ((index nx nt x y <$> word_bits (Z.land bits (bits - 1))) ++ (rest ≫= cc))
    p Hok Ews Hwait Hx Hy Ht) as (mem' & moved & V' & E & Hnext).
  { unfold sparse_todo. rewrite Eb, En. cbn [fst snd]. by rewrite Ebits. }
  exists mem', moved, V'. split; [exact E|]. cbn zeta.
  destruct (heading_lor_bit nt ltac:(lia) (sw_cmask w) t (sk_cmask _ _ Hw) Ht) as [Hlor Hbit].
  split; [|apply (ledger_step rs l1 w l2 _ _ _ [] Hl Ews); done].
  apply Hnext; cbn [sw_waiting].
  - unfold sparse_todo. cbn [sw_block sw_bits]. by rewrite Eb.
  - done.
  - split; cbn; try done.
    + apply (sk_block _ _ Hw).
    + intros b [= <-]. apply heading_land; [lia|done].
    + by rewrite Eb.
    + destruct moved; [done|apply (sk_cmask _ _ Hw)].
    + apply (sk_changed _ _ Hw).
  - intros [c k]. unfold sparse_marked. cbn [sw_changed sw_block sw_cmask fst snd]. rewrite Eb. cbn [head].
    assert (key (index nx nt x y t) = (x, y, t)) as ->.
    { unfold col. by destruct (coords_index nx nt x y t) as (-> & -> & ->); [lia..|]. }
    destruct moved; [|naive_solver].
    destruct (decide (0 ≤ k)) as [Hk|Hk].
    + rewrite Hbit by done. naive_solver.
    + rewrite !(Z.testbit_neg_r _ k) by lia. naive_solver lia.
Qed.

(** Claiming a block. *)
Lemma sparse_claim_step L V rs l1 w l2 :
  state_ok L V rs → ledger rs → rs_workers rs = l1 ++ w :: l2 → sw_waiting w = false → sw_block w = [] →
  zlen cand + 31 + 16 * zlen (rs_workers rs) < 2 ^ 64 →
  let rs' := mkRound (rs_mem rs) (u64_add (rs_cursor rs) 16) (l1 ++ sparse_claim cand w (rs_cursor rs) :: l2) in
  state_ok L V rs' ∧ ledger rs'.
Proof.
  intros Hok Hl Ews Hwait Eb Hsmall. pose proof (worker_in _ _ _ _ _ _ Hok Ews) as Hw.
  pose proof heading_zero. pose proof (rk_cursor Hok) as Hc.
  pose proof (waiting_count_bounds sw_waiting (rs_workers rs)). cbn zeta. split.
  - eapply (claim_step nx ny nt acts st holds inv);
      [exact sparse_ok_mono|exact Hok|exact Ews|exact Hwait| |exact Hsmall|..].
    + unfold sparse_todo. by rewrite Eb.
    + intros k. unfold sparse_marked, sparse_claim. rewrite (sk_idle _ _ Hw Eb), Eb.
      destruct (_ >=? _); cbn; rewrite ?Z.testbit_0_l; naive_solver.
    + intros Hlt. unfold sparse_claim. destruct (Z.geb_spec (rs_cursor rs) (zlen cand)); [lia|]. split; [done|].
      unfold sparse_todo. cbn. by destruct (claimed cand 16 (rs_cursor rs)).
    + intros Hge. unfold sparse_claim. by destruct (Z.geb_spec (rs_cursor rs) (zlen cand)); [|lia].
    + intros _. unfold sparse_claim. destruct (Z.geb_spec (rs_cursor rs) (zlen cand)) as [Hge|Hlt].
      * split; cbn; try done; [by intros c ?%elem_of_nil|apply (sk_changed _ _ Hw)|].
        intros _. split; [done|lia].
      * split; cbn; try done; [|apply (sk_changed _ _ Hw)].
        destruct (claim_block cand (rs_cursor rs)) as [_ Hin]; [lia|done].
  - apply (ledger_step rs l1 w l2 _ _ _ [] Hl Ews). rewrite u64_add_small by (unfold in_u64; lia).
    unfold owned, sparse_claim. rewrite Eb. destruct (Z.geb_spec (rs_cursor rs) (zlen cand)) as [Hge|Hlt].
    + cbn. unfold zlen in Hge. by rewrite !drop_ge by lia.
    + destruct (claim_block cand (rs_cursor rs)) as [-> _]; [lia|]. cbn. by rewrite app_nil_r, app_assoc.
Qed.

Lemma sparse_step_ok L V rs e :
  state_ok L V rs → ledger rs → 0 ≤ ev_worker e < zlen (rs_workers rs) →
  zlen cand + 31 + 16 * zlen (rs_workers rs) < 2 ^ 64 →
  ∃ L' V' rs', round_step step e rs = Ok rs' ∧ state_ok L' V' rs' ∧ ledger rs' ∧
    zlen (rs_workers rs') = zlen (rs_workers rs).
Proof.
  intros Hok Hl He Hsmall. destruct (zget_lt _ _ He) as [w Ew]. unfold round_step.
  rewrite (proj2 (vget_ok _ _ _) Ew), ok_bind. destruct sparse_dims as (Hnx & Hny & _).
  destruct (worker_split _ _ _ Ew) as (l1 & l2 & Ews & Eset).
  assert (∀ w', zlen (l1 ++ w' :: l2) = zlen (rs_workers rs)) as Hlen.
  { intros w'. rewrite Ews, !zlen_app. unfold zlen. cbn [length]. lia. }
  unfold sparse_step. destruct (sw_waiting w) eqn:Hwait.
  { rewrite ok_bind, Eset, ok_bind. exists L, V. eexists. split; [done|]. rewrite <- Ews. by destruct rs. }
  pose proof (worker_in _ _ _ _ _ _ Hok Ews) as Hw.
  destruct (sw_block w) as [|[x y] rest] eqn:Eb.
  { rewrite ok_bind, Eset, ok_bind. exists L, V. eexists. split; [done|].
    destruct (sparse_claim_step L V rs l1 w l2 Hok Hl Ews Hwait Eb Hsmall). split; [done|]. split; [done|apply Hlen]. }
  assert ((x, y) ∈ cand) as Hin by (apply (sk_block _ _ Hw); rewrite Eb; left).
  destruct (Hcand (x, y) Hin) as [Hx Hy]. cbn in Hx, Hy. rewrite !as_i32_small by lia.
  destruct (sw_bits w) as [bits|] eqn:En.
  - destruct (Z.eqb_spec bits 0) as [->|Hne].
    + rewrite ok_bind, Eset, ok_bind. exists L, V. eexists. split; [done|].
      destruct (leave_step L V rs l1 w l2 (x, y) rest Hok Hl Ews Hwait Eb En). split; [done|]. split; [done|apply Hlen].
    + destruct (heading_step L V rs l1 w l2 x y rest bits (ev_picks e) Hok Hl Ews Hwait Eb En Hne)
        as (mem' & moved & V' & E & Hok' & Hl').
      rewrite E, ok_bind, ok_bind, Eset, ok_bind. eexists _, V', _. split; [done|]. rewrite <- Eb.
      split; [exact Hok'|]. split; [done|apply Hlen].
  - destruct (eval_mask_ok (x, y) Hin) as (o & E & _). cbn in E. rewrite E, !ok_bind, Eset, ok_bind.
    destruct (enter_step L V rs l1 w l2 x y rest o Hok Hl Ews Hwait Eb En E).
    exists L, V. eexists. split; [done|]. rewrite <- Eb. split; [done|]. split; [done|apply Hlen].
Qed.

(** ** The end of a compute phase *)

Definition entries (ws : list SparseWorker) : list (Z * Z * Z) := ws ≫= sw_changed.

Definition sparse_phase_ok (rs : RoundState M SparseWorker) : Prop :=
  ∃ l V', NoDup l ∧ (∀ i, i ∈ l → active st i) ∧
    (∀ i, active st i → col nx nt i ∈ cand → ct nt i ∈ mask_heads (col nx nt i) → i ∈ l) ∧
    evals ev Vr l Vr V' ∧ holds (rs_mem rs) V' ∧ inv Vr V' ∧
    NoDup (fst <$> entries (rs_workers rs)) ∧
    (∀ e, e ∈ entries (rs_workers rs) → e.1 ∈ cand ∧ heading_mask nt e.2 ∧ e.2 ≠ 0) ∧
    ∀ c t, (∃ m, (c, m) ∈ entries (rs_workers rs) ∧ Z.testbit m t = true) ↔
           (∃ j, cell (zlen st) j ∧ (col nx nt j, ct nt j) = (c, t) ∧ V' j ≠ Vr j).

Context (nthreads : Z) (Hn : 0 < nthreads) (Hsmall : zlen cand + 31 + 16 * nthreads < 2 ^ 64).

Lemma sparse_new_ok :
  sparse_todo sparse_new = [] ∧ (∀ k, ¬ sparse_marked sparse_new k) ∧ sparse_ok 0 sparse_new ∧
  ∀ n, ledger (mkRound start 0 (vec_repeat sparse_new n)).
Proof.
  pose proof heading_zero. split; [done|]. split; [|split].
  - intros k [(m & ?%elem_of_nil & _)|[? _]]; done.
  - split; cbn; try done; [by intros c ?%elem_of_nil|by intros e ?%elem_of_nil].
  - intros n. exists []. cbn [rs_workers rs_cursor app]. rewrite drop_0.
    assert ((vec_repeat sparse_new n ≫= owned) = []) as ->; [|done].
    unfold vec_repeat. induction (Z.to_nat n) as [|k IH]; [done|]. cbn [replicate]. by rewrite bind_cons, IH.
Qed.

Lemma entries_columns ws : (∀ w, w ∈ ws → sw_block w = []) → fst <$> entries ws = ws ≫= owned.
Proof.
  induction ws as [|w ws IH]; intros Hw; [done|]. unfold entries in *. rewrite !bind_cons, fmap_app.
  rewrite IH by (intros; apply Hw; by right). f_equal.
  unfold owned. by rewrite (Hw w ltac:(left)), app_nil_r.
Qed.

Lemma sparse_compute sched :
  (∀ e, e ∈ sched → 0 ≤ ev_worker e < nthreads) →
  sparse_phase mx my mt mw eval nt masks first cand start sched nthreads = OutOfFuel ∨
  ∃ rs, sparse_phase mx my mt mw eval nt masks first cand start sched nthreads = Ok rs ∧ sparse_phase_ok rs.
Proof.
  intros He. destruct sparse_new_ok as (E0 & M0 & O0 & L0).
  destruct (run_phase_ok nx ny nt acts st Hd Hst holds inv cand mask_heads start Vr Hcand Hnd mask_heads_ok
    Hstart Hinv key sparse_todo sparse_marked sw_waiting sparse_ok sparse_ok_waiting
    step ledger sparse_step_ok nthreads Hn Hsmall sched sparse_new He E0 M0 O0 (L0 nthreads))
    as [E|(rs & E & (l & V' & Hndl & Hact & Hall & Hev & Hh & Hi & Hw & Hm) & Hl)]; [by left|right].
  assert (∀ w, w ∈ rs_workers rs → sparse_ok (rs_cursor rs) w ∧ sw_block w = []) as Hdone.
  { intros w Hin. destruct (Hw w Hin) as [Hok Hwait]. split; [done|]. by apply (sk_waiting _ _ Hok). }
  exists rs. split; [exact E|]. exists l, V'.
  split; [done|]. split; [done|]. split; [done|]. split; [done|]. split; [done|]. split; [done|]. split; [|split].
  - rewrite entries_columns by (intros; by apply Hdone). destruct Hl as (skipped & Hp).
    rewrite Hp in Hnd. by apply list.NoDup_app in Hnd as (_ & _ & [? _]%list.NoDup_app).
  - intros e (w & Hin & Hew)%list_elem_of_bind. destruct (Hdone w Hew) as [Hok _]. by apply (sk_changed _ _ Hok).
  - intros c t. rewrite <- (Hm (c, t)). unfold entries. setoid_rewrite list_elem_of_bind. split.
    + intros (m & (w & Hmw & Hin) & Hb). exists w. split; [done|]. left. by exists m.
    + intros (w & Hin & [(m & Hmw & Hb)|[Hhead _]]); [exists m; split; [by exists w|done]|].
      destruct (Hdone w Hin) as [_ Eb]. by rewrite Eb in Hhead.
Qed.

(** *** A fair schedule reaches the barrier *)

(** The steps left to a worker, and those its share of the list can cost. *)
Definition sw_work (w : SparseWorker) : Z :=
  if sw_waiting w then 0 else
  1 + match sw_block w with
      | [] => 0
      | _ :: rest =>
          match sw_bits w with None => nt + 2 | Some b => zlen (word_bits b) + 1 end + zlen rest * (nt + 2)
      end.

Definition sparse_unclaimed (cursor : Z) : Z := Z.max 0 (zlen cand - cursor) * (nt + 3).

Definition sparse_good (cursor : Z) (w : SparseWorker) : Prop := 0 ≤ cursor < 2 ^ 64 - 16 ∧ sparse_ok cursor w.

Lemma sw_work_nonneg c w : sparse_good c w → 0 ≤ sw_work w.
Proof.
  intros _. destruct sparse_dims as (_ & _ & ?). unfold sw_work. destruct (sw_waiting w); [lia|].
  destruct (sw_block w) as [|d l]; [lia|]. pose proof (zlen_nonneg l).
  destruct (sw_bits w) as [b|]; [pose proof (zlen_nonneg (word_bits b))|]; nia.
Qed.

Lemma heading_count m : heading_mask nt m → zlen (word_bits m) ≤ nt.
Proof.
  intros Hm. destruct sparse_dims as (_ & _ & ?).
  assert (length (word_bits m) ≤ length (seqZ 0 nt))%nat as Hle.
  { apply submseteq_length, NoDup_submseteq; [apply list.NoDup_filter, NoDup_seqZ|].
    intros t Ht. apply elem_of_seqZ. apply (heading_bits nt ltac:(lia)) in Ht; [lia|done]. }
  rewrite length_seqZ in Hle. unfold zlen. lia.
Qed.

Lemma work_block b cm ch u : sw_work (mkSparse b None cm ch u false) = 1 + zlen b * (nt + 2).
Proof.
  unfold sw_work. cbn [sw_waiting sw_block sw_bits]. unfold zlen. destruct b; cbn [length]; lia.
Qed.

Lemma sparse_step_work p w mem cursor w' mem' cursor' :
  sparse_good cursor w → step p w mem cursor = Ok (w', mem', cursor') →
  (sw_waiting w = true ∧ w' = w ∧ mem' = mem ∧ cursor' = cursor) ∨
  (sw_waiting w = false ∧ sw_work w' + sparse_unclaimed cursor' < sw_work w + sparse_unclaimed cursor).
Proof.
  intros [Hc Hok]. destruct sparse_dims as (Hnx & Hny & Hntp).
  unfold sparse_step. destruct (sw_waiting w) eqn:Ew; [by intros [= -> -> ->]; left|].
  intros H. right. split; [done|]. unfold sw_work at 2. rewrite Ew.
  destruct (sw_block w) as [|[x y] rest] eqn:Eb.
  - injection H as <- _ <-. rewrite u64_add_small by (unfold in_u64; lia).
    unfold sparse_claim, sparse_unclaimed. destruct (Z.geb_spec cursor (zlen cand)) as [Hge|Hlt].
    + unfold sw_work. cbn. nia.
    + destruct (claimed_len cand 16 cursor ltac:(lia) ltac:(lia)) as (m & Hm & Hlen & ->).
      rewrite (Z.max_r 0 (zlen cand - cursor)) by lia.
      rewrite work_block. pose proof (zlen_nonneg (claimed cand 16 cursor)). nia.
  - assert ((x, y) ∈ cand) as Hin by (apply (sk_block _ _ Hok); rewrite Eb; left).
    destruct (Hcand (x, y) Hin) as [Hx Hy]. cbn in Hx, Hy. rewrite !as_i32_small in H by lia.
    destruct (sw_bits w) as [bits|] eqn:En.
    + destruct (Z.eqb_spec bits 0) as [->|Hne].
      * injection H as <- _ <-. unfold sparse_leave. rewrite work_block. pose proof (zlen_nonneg (word_bits 0)). lia.
      * apply bind_ok in H as ([m moved] & _ & H). injection H as <- _ <-.
        pose proof (heading_mask_u64 nt ltac:(lia) _ (sk_bits _ _ Hok _ En)) as Hu.
        destruct (word_bits_step bits Hu Hne) as (-> & _ & _).
        unfold sw_work. cbn [sw_waiting sw_block sw_bits]. unfold zlen. cbn [length]. lia.
    + destruct (eval_mask_ok (x, y) Hin) as (o & E & Ho). cbn in E. rewrite E, ok_bind in H.
      injection H as <- _ <-. destruct o as [m|].
      * unfold sw_work. cbn [sw_waiting sw_block sw_bits]. pose proof (heading_count m (Ho m eq_refl)). lia.
      * rewrite work_block. lia.
Qed.

Lemma fair_sparse sched n :
  (∀ e, e ∈ sched → 0 ≤ ev_worker e < nthreads) → fair nthreads n sched →
  nthreads + zlen cand * (nt + 3) ≤ n →
  sparse_phase mx my mt mw eval nt masks first cand start sched nthreads ≠ OutOfFuel.
Proof.
  intros He Hf Hle. destruct sparse_new_ok as (E0 & M0 & O0 & L0). destruct sparse_dims as (_ & _ & ?).
  destruct (fair_phase step sw_waiting sw_work sparse_unclaimed sparse_good sw_work_nonneg
    ltac:(intros c; unfold sparse_unclaimed; nia) sparse_step_work
    (fun rs => (∃ L V', state_ok L V' rs ∧ ledger rs) ∧ zlen (rs_workers rs) = nthreads) nthreads)
    with (start := start) (w0 := sparse_new) (n := n) (sched := sched) as (rs & E); try done.
  - intros rs [(L & V' & Hok & _) Hlen]. split; [|done]. intros w Hw. split.
    + pose proof (rk_cursor Hok) as Hcur. pose proof (waiting_count_bounds sw_waiting (rs_workers rs)). lia.
    + by apply (rk_workers Hok).
  - intros e rs [(L & V' & Hok & Hl) Hlen] Hr.
    destruct (sparse_step_ok L V' rs e Hok Hl) as (L1 & V1 & rs1 & E & Hok1 & Hl1 & Hlen1); [lia..|].
    exists rs1. split; [done|]. split; [by exists L1, V1|lia].
  - split; [|apply zlen_repeat; lia]. exists [], Vr. split; [|apply L0].
    by apply (round_start nx ny nt acts st holds inv cand mask_heads start Vr Hstart Hinv).
  - lia.
  - unfold sw_work, sparse_unclaimed. cbn. pose proof (zlen_nonneg cand). nia.
  - unfold sparse_phase. by rewrite E.
Qed.
End round_proof.

(** ** The leader and the loop *)

Section leader_proof.
Context (vi : ValueIterator) (Hwf : wf_vi vi).
Abbreviation nx := (vi_cell_num_x vi).
Abbreviation ny := (vi_cell_num_y vi).
Abbreviation nt := (vi_cell_num_t vi).
Abbreviation st := (vi_states vi).
Abbreviation acts := (vi_actions vi).
Abbreviation ev := (evaluates nx ny nt acts st).
Abbreviation T := (backup_at nx ny nt acts st).

Context (mx my mt : Z) (Hmx : 1 ≤ mx < 64) (Hmy : 1 ≤ my < 2 ^ 31) (Hmt : 0 ≤ mt) (Hnt : nt ≤ 64).
Context (Hcov : ∀ a, a ∈ acts → action_covered nt a (mx, my, mt)).
Context (Hsize : (nx + 2 * mx) * (ny + 2 * my) * nt < 2 ^ 31).
Abbreviation mw := (nx + 2 * mx).
Abbreviation marr := (masks_ok nx ny nt mx my).
Abbreviation mask := (mask_of nx mx my).
Abbreviation heads masks first := (mask_heads nx nt mx my mt masks first).

Lemma vi_positive : 0 < nx ∧ 0 < ny ∧ 0 < nt.
Proof. by destruct Hwf as [[? ? ? _] _ _]. Qed.

Lemma cell_coords j : cell (zlen st) j →
  j = index nx nt (cx nx nt j) (cy nx nt j) (ct nt j) ∧ in_grid nx ny (col nx nt j) ∧ 0 ≤ ct nt j < nt.
Proof.
  intros Hj. destruct vi_positive as (? & ? & ?). destruct Hwf as [_ Hst _].
  unfold cell in Hj. rewrite (ws_len _ _ _ _ Hst) in Hj.
  destruct (index_coords nx ny nt j) as (E & ? & ? & ?); [done..|]. split; [exact E|]. split; [|done].
  by split.
Qed.

(** The masks, the board and the list the leader derives from the changed
    lists: every entry is stored where its column is. *)
Lemma store_changed_spec ws masks :
  marr masks → NoDup (fst <$> entries ws) →
  (∀ e, e ∈ entries ws → in_grid nx ny e.1 ∧ heading_mask nt e.2) →
  ∃ masks' nf, store_changed mx my mw nx ny ws masks = Ok (masks', nf, fst <$> entries ws) ∧
    marr masks' ∧ plane_board vi nf ∧
    ∀ e, e ∈ entries ws → mask masks' e.1 = e.2 ∧ has2 nf e.1.1 e.1.2 = true.
Proof.
  intros Hm Hnd He. destruct vi_positive as (? & ? & ?). unfold store_changed. rewrite for_each_bind.
  fold (entries ws). destruct (plane_board_new vi Hwf) as [Hnew _].
  assert (∀ l masks nf prev, marr masks → plane_board vi nf → NoDup (fst <$> l) →
    (∀ e, e ∈ l → in_grid nx ny e.1 ∧ heading_mask nt e.2) →
    ∃ masks' nf', for_each l (mark_changed mx my mw) (masks, nf, prev) = Ok (masks', nf', prev ++ (fst <$> l)) ∧
      marr masks' ∧ plane_board vi nf' ∧
      (∀ c, in_grid nx ny c → c ∉ fst <$> l → mask masks' c = mask masks c) ∧
      (∀ x y, in_grid nx ny (x, y) → has2 nf x y = true → has2 nf' x y = true) ∧
      ∀ e, e ∈ l → mask masks' e.1 = e.2 ∧ has2 nf' e.1.1 e.1.2 = true) as Hloop.
  { induction l as [|[c m] l IH]; intros ms nf prev Hms Hnf Hndl Hl.
    { exists ms, nf. rewrite app_nil_r. do 5 (split; [done|]). by intros e ?%elem_of_nil. }
    cbn [fmap list_fmap] in Hndl. apply list.NoDup_cons in Hndl as [Hc Hndl].
    destruct (Hl (c, m) ltac:(left)) as [Hgc Hgm]. cbn [fst snd] in *.
    destruct (mask_store nx ny nt mx my ltac:(lia) ltac:(lia) ltac:(lia) ltac:(lia) ltac:(lia) Hsize ms c m Hms Hgc Hgm)
      as (ms1 & E1 & Hms1 & Hc1 & Ho1).
    destruct (plane_set vi nf c.1 c.2 Hnf) as (nf1 & E2 & Hnf1 & Hset & Hmono); [apply Hgc..|].
    destruct (IH ms1 nf1 (prev ++ [c]) Hms1 Hnf1 Hndl ltac:(intros; apply Hl; by right))
      as (ms2 & nf2 & E & Hms2 & Hnf2 & Ho2 & Hmono2 & Hl2).
    exists ms2, nf2. cbn [for_each mark_changed]. rewrite E1, ok_bind, E2, ok_bind, ok_bind, E.
    split; [by rewrite <- app_assoc|]. split; [done|]. split; [done|]. split; [|split].
    - intros d Hd Hnot. rewrite Ho2, Ho1; [done|done| |done|].
      + intros ->. apply Hnot. left.
      + intros Hin. apply Hnot. by right.
    - intros x y Hxy Hh. apply Hmono2, Hmono; [done|apply Hxy..|done].
    - intros e [->|Hin]%elem_of_cons; cbn [fst snd].
      + split; [by rewrite Ho2|]. by apply Hmono2.
      + by apply Hl2. }
  destruct (Hloop (entries ws) masks _ [] Hm Hnew Hnd He) as (masks' & nf & E & ? & ? & _ & _ & ?).
  by exists masks', nf.
Qed.

(** A heading that reads a moved cell is selected by the masks. *)
Lemma mask_covers masks i j :
  marr masks → active st i → j ∈ cell_reads nx ny nt acts st i → cell (zlen st) j →
  Z.testbit (mask masks (col nx nt j)) (ct nt j) = true → ct nt i ∈ heads masks false (col nx nt i).
Proof.
  intros Hm (s & Hs & _) Hj Hcj Hb. destruct vi_positive as (? & ? & ?).
  assert (cell (zlen st) i) as Hci by (by eapply zget_Some_lt).
  destruct (cell_coords i Hci) as (_ & Hgi & Hti). destruct (cell_coords j Hcj) as (_ & Hgj & Htj).
  unfold cell_reads in Hj. rewrite Hs in Hj.
  destruct (creads_near vi Hwf nx ny nt st acts eq_refl eq_refl eq_refl eq_refl eq_refl mx my mt Hmx Hmy
    Hcov i s j Hs Hj) as (Hx & Hy & d & Hd & Et).
  unfold mask_heads, eval_mask, col. cbn [fst snd].
  destruct (gather_mask_spec nx ny nt mx my ltac:(lia) ltac:(lia) ltac:(lia) ltac:(lia) ltac:(lia) Hsize
    masks (cx nx nt i) (cy nx nt i) Hm Hgi) as (acc & -> & Hacc & Hwin). rewrite ok_bind.
  specialize (Hwin _ _ _ Hx Hy Hb).
  destruct (Z.eqb_spec acc 0) as [->|_]; [by rewrite Z.testbit_0_l in Hwin|].
  apply elem_of_word_bits. split; [lia|].
  destruct (rot_dilate_spec nt ltac:(lia) acc mt Hacc Hmt) as [_ Hrot]. apply Hrot; [done|].
  exists d. by rewrite <- Et.
Qed.

Lemma heads_first masks i : active st i → ct nt i ∈ heads masks true (col nx nt i).
Proof.
  intros (s & Hs & _). destruct vi_positive as (? & ? & ?).
  destruct (cell_coords i) as (_ & _ & Ht); [by eapply zget_Some_lt|].
  unfold mask_heads. cbn [eval_mask]. apply elem_of_word_bits. split; [lia|].
  rewrite theta_full_spec by lia. apply Z.ltb_lt. lia.
Qed.

Context {M B : Type} (eval : Picks → M → M → Z → Z → Z → res (M * bool)) (holds : M → valuation → Prop).
Context (fit : valuation → valuation → Z → Prop).
Context `{Hcells : !GsCells nx ny nt acts st eval holds fit}.
Context (inv : valuation → valuation → Prop).
Context (inv_fit : ∀ Vr V i, inv Vr V → active st i → V i = Vr i → fit Vr V i).
Context (inv_step : ∀ Vr V i V', inv Vr V → active st i → V i = Vr i → eval1 ev Vr V i V' → inv Vr V').
Context (inv_round : ∀ Vr V, inv Vr V → inv V V).
Context (nthreads max_iter obs_interval : Z) (sched : Z → list Event).
Context (Hn : 0 < nthreads < 2 ^ 32) (Hmax : 0 ≤ max_iter < 2 ^ 32).
Context (Hsched : ∀ i e, e ∈ sched i → 0 ≤ ev_worker e < nthreads).
Context (drop_states : bool) (boundary : M → Z → Z → B → res (B * SolveFlow)) (Bok : B → Prop).
Context (Hboundary : ∀ mem V it up b, holds mem V → rtc (field_round vi) (field_value st) V → Bok b →
  ∃ b' flow, boundary mem it up b = Ok (b', flow) ∧ Bok b').
Abbreviation phase i masks first cand mem :=
  (sparse_phase mx my mt mw eval nt masks first cand mem (sched i) nthreads).

(** A schedule that lets every round reach its barrier. *)
Definition sparse_completes : Prop := ∀ i masks first cand mem V, holds mem V → inv V V → cand_ok vi cand →
  marr masks → phase i masks first cand mem ≠ OutOfFuel.

(** Every cell outside of the selection is consistent. *)
Definition settled_outside (masks : list Z) (first : bool) (cand : list (Z * Z)) (V : valuation) : Prop :=
  ∀ i, active st i → ¬ (col nx nt i ∈ cand ∧ ct nt i ∈ heads masks first (col nx nt i)) → V i = T V i.

(** One round: the compute phase and what the leader derives from it. *)
Lemma sparse_round mem masks prev cand V iters :
  holds mem V → inv V V → cand_ok vi cand → marr masks → (∀ c, c ∈ prev → in_grid nx ny c) →
  settled_outside masks (iters =? 0) cand V →
  (phase iters masks (iters =? 0) cand mem = OutOfFuel ∧ ¬ sparse_completes) ∨
  ∃ rs masks1 masks2 nf V', phase iters masks (iters =? 0) cand mem = Ok rs ∧
    zero_masks mx my mw prev masks = Ok masks1 ∧
    store_changed mx my mw nx ny (rs_workers rs) masks1 = Ok (masks2, nf, fst <$> entries (rs_workers rs)) ∧
    marr masks2 ∧ (∀ c, c ∈ fst <$> entries (rs_workers rs) → in_grid nx ny c) ∧
    (∃ dil, dilate2d nf mx my = Ok dil ∧ enumerate2 dil = Ok (cells2 dil) ∧ cand_ok vi (cells2 dil) ∧
       settled_outside masks2 false (cells2 dil) V') ∧
    holds (rs_mem rs) V' ∧ inv V' V' ∧ field_round vi V V' ∧
    (sparse_any (rs_workers rs) = true → moving vi V V') ∧
    (sparse_any (rs_workers rs) = false → field_fixed vi V').
Proof.
  intros Hh Hi Hc Hm Hprev Hcons. pose proof Hwf as [Hd Hst Ha]. destruct vi_positive as (? & ? & ?).
  destruct (cand_len vi Hwf cand Hc) as [_ Hlen]. pose proof Hc as [Hnd Hr].
  destruct (sparse_compute nx ny nt mx my mt acts st Hd Hst Hnt ltac:(lia) ltac:(lia) Hmt Hsize eval holds fit
    inv inv_fit inv_step masks (iters =? 0) cand mem V Hm Hr Hnd Hh Hi nthreads ltac:(lia) ltac:(lia)
    (sched iters) (Hsched iters))
    as [E|(rs & E & l & V' & Hndl & Hact & Hall & Hev & Hh' & Hi' & Hnde & Hent & Hmark)].
  { left. split; [exact E|]. intros Hcomp. by apply (Hcomp iters masks (iters =? 0) cand mem V Hh Hi Hc Hm). }
  right.
  assert (∀ e, e ∈ entries (rs_workers rs) → in_grid nx ny e.1 ∧ heading_mask nt e.2) as Hent'.
  { intros e He. destruct (Hent e He) as (Hin & ? & _). split; [|done]. by apply Hr. }
  destruct (zero_masks_spec nx ny nt mx my ltac:(lia) ltac:(lia) ltac:(lia) ltac:(lia) ltac:(lia) Hsize prev masks Hm Hprev)
    as (masks1 & Ez & Hm1 & _).
  destruct (store_changed_spec (rs_workers rs) masks1 Hm1 Hnde Hent') as (masks2 & nf & Es & Hm2 & Hnf & Hstored).
  assert (field_round vi V V') as Hround by by exists l.
  assert (∀ i, active st i → i ∉ l → V i = T V i) as Hout.
  { intros i Hai Hil. apply Hcons; [done|]. intros [Hcin Hhd]. by apply Hil, Hall. }
  assert (∀ i, active st i → V' i = T V' i ∨ ∃ j, j ∈ cell_reads nx ny nt acts st i ∧ V' j ≠ V j) as Hpend.
  { exact (round_pending (backup_at nx ny nt acts st) (active st) (cell_reads nx ny nt acts st) ev
      (fun U V i Hi H => backup_reads _ _ _ _ _ U V i H Hi)
      (fun Vr V i x _ H => evaluates_reads _ _ _ _ _ Vr V i x H) l V V' Hndl Hact Hout Hev). }
  assert (∀ j, cell (zlen st) j → V' j ≠ V j → ∃ m, (col nx nt j, m) ∈ entries (rs_workers rs) ∧
    Z.testbit m (ct nt j) = true) as Hmoved.
  { intros j Hj Hne. apply Hmark. by exists j. }
  exists rs, masks1, masks2, nf, V'. split; [done|]. split; [done|]. split; [done|]. split; [done|]. split.
  { intros c (e & -> & He)%list_elem_of_fmap. by apply Hent'. }
  split.
  { destruct (board_candidates vi Hwf nx ny nt st acts eq_refl eq_refl eq_refl eq_refl eq_refl mx my mt
      Hmx Hmy Hcov nf Hnf) as (dil & Ed & Ee & Hcr & Hndd & Hreach).
    exists dil. split; [done|]. split; [done|]. split; [by split|]. intros i Hai Hnot.
    destruct (Hpend i Hai) as [?|(j & Hj & Hne)]; [done|]. exfalso. apply Hnot.
    assert (cell (zlen st) j) as Hcj by by eapply cell_reads_cell.
    destruct (Hmoved j Hcj Hne) as (m & Hin & Hb). destruct (Hstored _ Hin) as [Hmk Hbd]. cbn [fst snd] in *. split.
    - apply (Hreach i j Hai); [by right|]. by split.
    - apply (mask_covers masks2 i j Hm2 Hai Hj Hcj). by rewrite Hmk. }
  split; [done|]. split; [by eapply inv_round|]. split; [done|]. split.
  - intros (w & Hw & Hne)%existsb_exists. split; [done|].
    assert (∃ e, e ∈ entries (rs_workers rs)) as ([c m] & He).
    { destruct (sw_changed w) as [|e es] eqn:Ew; [done|]. exists e. apply list_elem_of_bind. exists w.
      split; [rewrite Ew; left|by apply list_elem_of_In]. }
    destruct (Hent _ He) as (_ & Hhm & Hm0). cbn [fst snd] in *.
    assert (∃ t, t ∈ word_bits m) as (t & Ht).
    { destruct (word_bits m) as [|t ts] eqn:Eb; [|exists t; left]. exfalso. apply Hm0.
      by apply word_bits_nil; [apply (heading_mask_u64 nt ltac:(lia))|]. }
    apply elem_of_word_bits in Ht as [_ Hb].
    destruct (proj1 (Hmark c t)) as (j & Hj & _ & Hne'); [by exists m|]. by exists j.
  - intros Hnone i Hai. destruct (Hpend i Hai) as [?|(j & Hj & Hne)]; [done|]. exfalso.
    destruct (Hmoved j ltac:(by eapply cell_reads_cell) Hne) as (m & (w & Hin & Hw)%list_elem_of_bind & _).
    apply not_true_iff_false in Hnone. apply Hnone, existsb_exists. exists w.
    split; [by apply list_elem_of_In|]. destruct (sw_changed w); [by apply elem_of_nil in Hin|done].
Qed.

(** The loop ends after at most [max_iter] rounds, with a state the last round
    vouches for, unless the schedule leaves a round unfinished. *)
Lemma sparse_loop_spec fuel mem masks prev cand V updates iters nb b :
  holds mem V → inv V V → cand_ok vi cand → marr masks → (∀ c, c ∈ prev → in_grid nx ny c) →
  settled_outside masks (iters =? 0) cand V →
  rtc (field_round vi) (field_value st) V → nsteps (moving vi) (Z.to_nat iters) (field_value st) V →
  0 ≤ iters → iters = 0 ∨ iters < max_iter → max_iter < Z.of_nat fuel + iters → Bok b →
  let run := sparse_loop eval nx ny nt mx my mt mw mx my nthreads max_iter obs_interval sched drop_states boundary
    fuel mem masks prev cand updates iters nb b in
  (run = OutOfFuel ∧ ¬ sparse_completes) ∨ ∃ r, run = Ok r ∧ engine_ok vi holds max_iter Bok r.
Proof.
  revert mem masks prev cand V updates iters nb b.
  induction fuel as [|fuel IH]; intros mem masks prev cand V updates iters nb b Hh Hi Hc Hm Hprev Hcons Hr Hs
    Hit0 Hit Hf Hb; cbn zeta; [lia|]. cbn [sparse_loop].
  destruct (sparse_round mem masks prev cand V iters Hh Hi Hc Hm Hprev Hcons)
    as [[-> ?]|(rs & m1 & m2 & nf & V' & -> & Ez & Es & Hm2 & Hprev2 & (dil & Ed & Ee & Hcd & Hcons') & Hh' & Hi'
        & Hround & Hmove & Hfix)]; [by left|].
  rewrite ok_bind, Ez, ok_bind, Es, ok_bind, u32_add_small by (unfold in_u32; lia).
  set (u := foldl _ _ _). set (any := sparse_any (rs_workers rs)) in *.
  assert (rtc (field_round vi) (field_value st) V') as Hr' by (eapply rtc_r; [exact Hr|done]).
  assert (any = true → nsteps (moving vi) (Z.to_nat (iters + 1)) (field_value st) V') as Hs'.
  { intros Ha. rewrite Z2Nat.inj_add, Nat.add_1_r by lia. eapply nsteps_r; [exact Hs|auto]. }
  set (visit := any && _ && _ && _).
  assert (∃ b' flow, (if visit then boundary (rs_mem rs) (iters + 1) u b else Ok (b, Continue))
      = Ok (b', flow) ∧ Bok b') as (b' & flow & -> & Hb').
  { destruct visit; [by apply (Hboundary (rs_mem rs) V')|by exists b, Continue]. }
  rewrite ok_bind. destruct (any && (iters + 1 <? max_iter) && bool_decide (flow = Continue)) eqn:Ego.
  - apply andb_prop in Ego as [[Ha Hlt%Z.ltb_lt]%andb_prop _]. rewrite Ed, ok_bind, Ee, ok_bind.
    assert (∀ c, c ∈ (if Z.rem (iters + 1) 2 =? 1 then reverse (cells2 dil) else cells2 dil)
      ↔ c ∈ cells2 dil) as Hin by (intros c; destruct (Z.rem _ 2 =? 1); [apply elem_of_reverse|done]).
    apply (IH _ _ _ _ V'); try done; try lia.
    + destruct Hcd as [Hnd Hcr]. split; [|intros c ?%Hin; by apply Hcr].
      destruct (Z.rem _ 2 =? 1); [by rewrite reverse_Permutation|done].
    + rewrite (proj2 (Z.eqb_neq _ _)) by lia. intros i Hai Hout. apply Hcons'; [done|]. by rewrite <- Hin.
    + by apply Hs'.
  - right. eexists. split; [done|]. split; [done|].
    destruct (leader_outcome max_iter iters u any flow _ Hit0 Hit Ego eq_refl) as (Hb1 & Hb2 & Hb3).
    split; [exact Hb1|]. exists V'.
    split; [done|]. split; [done|]. split; [intros Hcv; apply Hfix; auto|].
    intros H1 H2 H3. destruct (Hb3 H1 H2 H3) as (? & -> & ?). split; [lia|]. auto.
Qed.

(** Passes that are enough for any candidate list. *)
Definition sparse_passes : Z := nthreads + nx * ny * (nt + 3).

Lemma fair_sparse_completes : (∀ i, fair nthreads sparse_passes (sched i)) → sparse_completes.
Proof.
  intros Hfair i masks first cand mem V Hh Hi Hc Hm. pose proof Hwf as [Hd Hst Ha]. destruct vi_positive as (? & ? & ?).
  destruct (cand_len vi Hwf cand Hc) as [Hle Hlt]. pose proof Hc as [Hnd Hr].
  apply (fair_sparse nx ny nt mx my mt acts st Hd Hst Hnt ltac:(lia) ltac:(lia) Hmt Hsize eval holds fit
    inv inv_fit inv_step masks first cand mem V Hm Hr Hnd Hh Hi nthreads ltac:(lia) ltac:(lia)
    (sched i) sparse_passes); [by apply Hsched|done|].
  unfold sparse_passes. nia.
Qed.
End leader_proof.

(** ** The solver *)

Lemma sparse_eval_fused : sparse_eval = fused_eval.
Proof. reflexivity. Qed.

Lemma sparse_spec {S} (obs : SolveObserver S) max_iter nthreads sched vi o mx my mt P :
  wf_vi vi → fused_fits vi mx my mt P → vi_cell_num_t vi ≤ 64 → 0 ≤ max_iter < 2 ^ 32 → 0 < nthreads < 2 ^ 32 →
  (∀ i e, e ∈ sched i → 0 ≤ ev_worker e < nthreads) →
  (∀ i, fair nthreads (sparse_passes vi nthreads) (sched i)) →
  ∃ r, frontier2d_sparse_solve_observed obs max_iter nthreads sched false vi o = Ok r ∧
    padded_ok vi (Z.max 1 max_iter) max_iter r.1.1 r.2.
Proof.
  intros Hwf Hfit Hnt Hmax Hn Hsched Hfair. pose proof Hfit as [Hpf Hcb Hg _].
  pose proof Hpf as [Hdisp _ Hsize Hfull].
  destruct (padded_fits_layout vi mx my mt Hwf Hpf) as (Hmx & Hmy & Hcov & _).
  destruct (padded_seed vi mx my mt Hwf Hpf) as (bb & Es & Hbb & Hp).
  destruct (penalty_bound vi mx my mt P Hfit) as [HP Hpen].
  destruct (displacement_spec vi Hwf) as (mx' & my' & mt' & Ed & _ & _ & [Hmt _] & _).
  rewrite Hdisp in Ed. injection Ed as <- <- <-.
  unfold frontier2d_sparse_solve_observed.
  rewrite (geom_build_eq vi Hwf mx my _ _ _ _ _ mt _ eq_refl eq_refl eq_refl eq_refl eq_refl eq_refl
    ltac:(lia) ltac:(lia) Hsize Hcov Hdisp), ok_bind.
  set (g := the_geom _ _ _ _ _ _ _). change (g_mx g) with mx. change (g_my g) with my.
  change (g_nx g) with (vi_cell_num_x vi). change (g_ny g) with (vi_cell_num_y vi).
  change (g_nt g) with (vi_cell_num_t vi). rewrite (proj2 (Z.leb_le _ _) Hnt). cbn [rassert]. rewrite ok_bind, Hdisp, ok_bind.
  destruct (build_direct_eq vi Hwf mx my _ _ _ _ _ _ eq_refl eq_refl eq_refl eq_refl eq_refl eq_refl
    ltac:(lia) ltac:(lia) Hsize nthreads) as (f & Ef & Hcp & Hside). fold g in Ef. rewrite Ef, ok_bind, Es, ok_bind.
  rewrite (as_u32_small mx), (as_u32_small my) by (unfold in_u32; lia).
  destruct (wave_candidates vi Hwf _ _ _ _ _ eq_refl eq_refl eq_refl eq_refl eq_refl mx my mt
    Hmx Hmy Hcov bb _ Hbb Hp) as (dil & -> & Ee & Hcr & Hnd & Hcons).
  rewrite ok_bind, Ee, ok_bind.
  pose proof Hwf as [[Hx0 Hy0 Ht0 _] _ _].
  destruct (mask_sizes (vi_cell_num_x vi) (vi_cell_num_y vi) (vi_cell_num_t vi) mx my (conj Ht0 Hnt) Hx0 Hy0 ltac:(lia) ltac:(lia) Hsize) as (Hmw & Hmh & Hmm).
  assert (as_u64 (i32_add (vi_cell_num_x vi) (i32_mul 2 mx)) = vi_cell_num_x vi + 2 * mx) as ->.
  { rewrite i32_mul_small, i32_add_small, as_u64_small by (unfold in_i32, in_u64; lia). done. }
  assert (as_u64 (i32_add (vi_cell_num_y vi) (i32_mul 2 my)) = vi_cell_num_y vi + 2 * my) as ->.
  { rewrite i32_mul_small, i32_add_small, as_u64_small by (unfold in_i32, in_u64; lia). done. }
  rewrite u64_mul_small by (unfold in_u64; nia).
  pose proof (fused_materialise_eq vi Hwf mx my mt P Hfit (f_pen f) (f_eval_ok f) Hside Hmx Hmy Hcov nthreads Hn)
    as Hmat. fold g in Hmat.
  pose proof (fused_cells vi Hwf mx my _ _ _ _ _ mt _ eq_refl eq_refl eq_refl eq_refl eq_refl eq_refl
    ltac:(lia) ltac:(lia) Hsize Hcov P HP Hpen (f_pen f) (f_eval_ok f) Hside) as Hcells. fold g in Hcells.
  rewrite sparse_eval_fused.
  destruct (sparse_loop_spec vi Hwf mx my mt Hmx Hmy Hmt Hnt Hcov Hsize (fused_eval g (f_pen f) (f_eval_ok f)) _ _
    (descending vi P) (descending_fit vi Hwf mx my mt P Hfit) (descending_step vi Hwf mx my mt P Hfit)
    (descending_round vi P) nthreads max_iter (ob_interval obs o) sched Hn Hmax
    Hsched false (fused_boundary obs nthreads g (f_pen f) (f_eval_ok f)) (fun b => planner_ok vi b.1)) with
    (fuel := Datatypes.S (Z.to_nat max_iter)) (mem := f_cp f) (cand := cells2 dil)
    (V := field_value (vi_states vi)) (prev := @nil (Z * Z))
    (masks := vec_repeat 0 ((vi_cell_num_x vi + 2 * mx) * (vi_cell_num_y vi + 2 * my)))
    (updates := 0) (iters := 0) (nb := Z.max (ob_interval obs o) 1) (b := (vi, o))
    as [[_ Hnc]|([[mem [v o']] out] & -> & Hb & Hit & V & Hh & Hr & Hconv & Hsteps)]; try done; try lia.
  - intros mem V it up [v o0] Hh Hr Hb. unfold fused_boundary.
    destruct (materialize_returns obs (fused_materialise nthreads g (f_pen f) (f_eval_ok f) mem) it up v o0 _
      (Hmat mem V v false Hh Hr Hb ltac:(done))) as (v1 & o1 & flow & E & Hv).
    exists (v1, o1), flow. split; [exact E|]. destruct Hv as [->| ->]; [by apply planner_ok_solution|done].
  - split; [done|]. by apply start_in_bounds.
  - by apply (descending_start vi mx my mt P Hfit).
  - split; [rewrite zlen_repeat; [done|nia]|]. intros m [-> _]%elem_of_replicate.
    unfold heading_mask. pose proof (Z.pow_pos_nonneg 2 (vi_cell_num_t vi) ltac:(lia) ltac:(lia)). lia.
  - by intros c ?%elem_of_nil.
  - intros i Hai Hnot. apply Hcons; [done|]. intros Hin. apply Hnot. split; [done|].
    by apply (heads_first vi Hwf mx my mt Hnt).
  - constructor.
  - split; [done|]. split; [apply inplace_refl|]. exists (vi_states vi). split; [by destruct vi|done].
  - exfalso. apply Hnc.
    apply (fair_sparse_completes vi Hwf mx my mt Hmx Hmy Hmt Hnt Hsize
      (fused_eval g (f_pen f) (f_eval_ok f)) _ _ (Hcells := Hcells) (descending vi P));
      [exact (descending_fit vi Hwf mx my mt P Hfit)|exact (descending_step vi Hwf mx my mt P Hfit)|done..].
  - rewrite ok_bind. destruct (so_cancelled out) eqn:Ec.
    + eexists. split; [done|]. destruct Hb as (? & ? & _). split; [done|]. split; [done|].
      split; [done|]. intros E. cbn in E. congruence.
    + specialize (Hmat mem V v (so_converged out) Hh Hr Hb Hconv).
      unfold final_policy_fused, write_back_fused. cbn [f_cp f_pen f_eval_ok].
      apply bind_ok in Hmat as (opt & -> & Hwb). rewrite ok_bind, Hwb, ok_bind. eexists. split; [done|].
      destruct (planner_ok_solution vi Hwf V Hr) as (? & ? & _). split; [done|]. split; [done|]. split; [done|].
      intros _. exists V. split; [done|]. split; [done|]. split; [done|]. intros ? ?. by apply Hsteps.
Qed.

(** ** Properties *)

(** C8: [frontier2d_sparse] solves a field prepared for a goal although a round
    evaluates only the headings its masks select: those within [mt] turns of a
    heading that moved in the last round within [mx] by [my] cells.  Every cell
    outside of the selection satisfies its backup, so under every fair
    interleaving, and whatever the relaxed loads return, the solve returns
    without a panic, and unless it was cancelled the planner has the values of
    rounds of backups of single cells with the policies they induce, at the
    fixed point when it converged. *)
Theorem frontier2d_sparse_fixed_point {S} (obs : SolveObserver S) max_iter nthreads sched vi o mx my mt P :
  wf_vi vi → fused_fits vi mx my mt P → vi_cell_num_t vi ≤ 64 → 0 ≤ max_iter < 2 ^ 32 → 0 < nthreads < 2 ^ 32 →
  (∀ i e, e ∈ sched i → 0 ≤ ev_worker e < nthreads) →
  (∀ i, fair nthreads (sparse_passes vi nthreads) (sched i)) →
  ∃ r, frontier2d_sparse_solve_observed obs max_iter nthreads sched false vi o = Ok r ∧
    padded_ok vi (Z.max 1 max_iter) max_iter r.1.1 r.2.
Proof. apply sparse_spec. Qed.

Lemma frontier2d_sparse_fixed_point_witness :
  ∃ r, frontier2d_sparse_solve_observed NullObserver 10 3
         (fun i => round_robin 3 (sparse_passes (corridor 3) 3 + 1) (fun ai k => Z.odd (ai + k + i)))
         false (corridor 3) () = Ok r ∧
    padded_ok (corridor 3) 10 10 r.1.1 r.2.
Proof.
  apply (frontier2d_sparse_fixed_point NullObserver 10 3 _ (corridor 3) () 1 1 0 PROB_BASE).
  - apply check_vi_ok. reflexivity.
  - exact corridor_fused_fits.
  - vm_compute. discriminate.
  - lia.
  - lia.
  - intros i e. apply round_robin_workers.
  - intros i. apply round_robin_fair. vm_compute. discriminate.
Defined.

(** The parallel solvers, by name. *)
Inductive parallel_solve {S} (obs : SolveObserver S) (vi : ValueIterator) (o : S)
    : ValueIterator * S * SolveOutcome → Prop :=
| solve_par max_iter nthreads r :
    0 ≤ max_iter < 2 ^ 32 →
    frontier2d_par_solve_observed obs max_iter nthreads vi o = Ok r → parallel_solve obs vi o r
| solve_par_unsafe max_iter nthreads sched r :
    0 ≤ max_iter < 2 ^ 32 → 0 < nthreads < 2 ^ 32 →
    (∀ i e, e ∈ sched i → 0 ≤ ev_worker e < nthreads) →
    (∀ i, fair nthreads (enough_passes vi nthreads) (sched i)) →
    frontier2d_par_unsafe_solve_observed obs max_iter nthreads sched vi o = Ok r → parallel_solve obs vi o r
| solve_fused max_iter nthreads sched r :
    0 ≤ max_iter < 2 ^ 32 → 0 < nthreads < 2 ^ 32 →
    (∀ i e, e ∈ sched i → 0 ≤ ev_worker e < nthreads) →
    (∀ i, fair nthreads (enough_passes vi nthreads) (sched i)) →
    frontier2d_fused_solve_observed obs max_iter nthreads sched vi o = Ok r → parallel_solve obs vi o r
| solve_sparse max_iter nthreads sched r :
    0 ≤ max_iter < 2 ^ 32 → 0 < nthreads < 2 ^ 32 → vi_cell_num_t vi ≤ 64 →
    (∀ i e, e ∈ sched i → 0 ≤ ev_worker e < nthreads) →
    (∀ i, fair nthreads (sparse_passes vi nthreads) (sched i)) →
    frontier2d_sparse_solve_observed obs max_iter nthreads sched false vi o = Ok r → parallel_solve obs vi o r.

Lemma parallel_solve_ok {S} (obs : SolveObserver S) vi o mx my mt P r :
  wf_vi vi → fused_fits vi mx my mt P → parallel_solve obs vi o r →
  ∃ bound max_iter, padded_ok vi bound max_iter r.1.1 r.2.
Proof.
  intros Hwf Hfit H. pose proof (ff_padded _ _ _ _ _ Hfit) as Hpf.
  destruct H as [m n r Hm E|m n sc r Hm Hn Hs Hf E|m n sc r Hm Hn Hs Hf E|m n sc r Hm Hn Hnt Hs Hf E].
  - destruct (frontier2d_par_spec obs m vi o mx my mt Hwf Hpf Hm) as (r' & E' & Hok).
    rewrite E' in E. injection E as ->. by exists m, m.
  - destruct (unsafe_spec vi Hwf mx my mt Hpf obs m n sc Hm Hn Hs o Hf) as (r' & E' & Hok).
    rewrite E' in E. injection E as ->. by exists (Z.max 1 m), m.
  - destruct (fused_spec obs m n sc vi o mx my mt P Hwf Hfit Hm Hn Hs Hf) as (r' & E' & Hok).
    rewrite E' in E. injection E as ->. by exists (Z.max 1 m), m.
  - destruct (sparse_spec obs m n sc vi o mx my mt P Hwf Hfit Hnt Hm Hn Hs Hf) as (r' & E' & Hok).
    rewrite E' in E. injection E as ->. by exists (Z.max 1 m), m.
Qed.

(** C9: the parallel solvers agree.  From a field prepared for a goal, any two
    converged solves by [frontier2d_par], [frontier2d_par_unsafe],
    [frontier2d_fused] or [frontier2d_sparse], with any numbers of threads, any
    fair interleavings and any outcomes of the racing loads, return the same
    planner: the same value and the same policy in every cell. *)
Theorem parallel_solvers_agree {S} (obs : SolveObserver S) vi o mx my mt P v1 o1 out1 v2 o2 out2 :
  wf_vi vi → fused_fits vi mx my mt P →
  parallel_solve obs vi o (v1, o1, out1) → parallel_solve obs vi o (v2, o2, out2) →
  so_converged out1 = true → so_converged out2 = true →
  so_cancelled out1 = false → so_cancelled out2 = false → v1 = v2.
Proof.
  intros Hwf Hfit H1 H2 C1 C2 N1 N2. pose proof Hfit as [_ Hcb Hg _].
  destruct (parallel_solve_ok obs vi o mx my mt P _ Hwf Hfit H1) as (b1 & m1 & K1).
  destruct (parallel_solve_ok obs vi o mx my mt P _ Hwf Hfit H2) as (b2 & m2 & K2).
  by apply (padded_agree vi P b1 b2 m1 m2 v1 v2 out1 out2 Hwf Hcb Hg K1 K2).
Qed.

(** A schedule for the corridor. *)
Definition corridor_sched (i : Z) : list Event :=
  round_robin 2 (sparse_passes (corridor 3) 2 + 1) (fun ai k => Z.odd (ai + k + i)).

Lemma parallel_solvers_agree_witness :
  ∃ v1 v2 out1 out2,
    frontier2d_par_solve_observed NullObserver 10 4 (corridor 3) () = Ok (v1, (), out1) ∧
    frontier2d_sparse_solve_observed NullObserver 10 2 corridor_sched false (corridor 3) () = Ok (v2, (), out2) ∧
    v1 = v2.
Proof.
  eexists _, _, _, _. split; [vm_compute; reflexivity|]. split; [vm_compute; reflexivity|].
  eapply (parallel_solvers_agree NullObserver (corridor 3) () 1 1 0 PROB_BASE).
  - apply check_vi_ok. reflexivity.
  - exact corridor_fused_fits.
  - apply (solve_par _ _ _ 10 4); [lia|vm_compute; reflexivity].
  - apply (solve_sparse _ _ _ 10 2 corridor_sched); [lia|lia|vm_compute; discriminate|..|vm_compute; reflexivity].
    + intros i e. apply round_robin_workers.
    + intros i. apply round_robin_fair. vm_compute. discriminate.
  - reflexivity.
  - reflexivity.
  - reflexivity.
  - reflexivity.
Defined.
