(* ===== verification/MapSetup.v ===== *)
(** * Building a field from a map (vi_lib/src/state.rs, value_iterator.rs)

    The initial states with their safety-radius penalty, the transition tables
    obtained by sub-cell sampling, the goal and the goal regions. *)

From Stdlib Require Import ZArith Lia.
From stdpp Require Import base gmap strings list numbers.
From S2P Require Import Prelude Floats Model Bellman Original Active.

(** ** [State::from_occupancy] *)

Definition fresh_state (x y theta : Z) (free : bool) : State :=
  mkState MAX_COST PROB_BASE 0 x y theta free false None.

(** The penalty of a cell near an obstacle: [as u64] saturates, [+] wraps. *)
Definition margin_cost (margin_penalty : f64) : Z :=
  u64_add (f64_as_u64 (fmul margin_penalty (f64_of_Z PROB_BASE))) PROB_BASE.

Definition from_occupancy (x y theta : Z) (map : OccupancyGrid) (margin : Z)
    (margin_penalty : f64) (x_num : Z) : res State :=
  v ← vget (og_data map) (as_u64 (i32_add (i32_mul y x_num) x));
  let s := fresh_state x y theta (v =? 0) in
  if negb (s_free s) then Ok s else
  for_incl (i32_add (i32_sub 0 margin) x) (i32_add margin x) (fun ix2 s =>
    for_incl (i32_add (i32_sub 0 margin) y) (i32_add margin y) (fun iy2 s =>
      let pos := iy2 * x_num + ix2 in
      if (0 <=? pos) && (pos <? zlen (og_data map)) then
        v ← vget (og_data map) pos;
        Ok (if negb (v =? 0) then with_penalty s (margin_cost margin_penalty) else s)
      else Ok s) s) s.

(** ** [ValueIterator::set_state], with [par] available threads

    The threads fill disjoint bands of one buffer of [n] cells; a panic in any
    of them is the panic of the scope.  An allocation of [n] states that does
    not fit the address space is not modelled. *)

(** One band of rows, pushed in the order [y], [x], [t]. *)
Definition state_band (map : OccupancyGrid) (margin : Z) (pen : f64) (nx nt y0 rows : Z)
    : res (list State) :=
  map_res (fun c => from_occupancy c.1.2 (i32_add y0 c.1.1) c.2 map margin pen nx)
    (r ← seqZ 0 rows; x ← seqZ 0 nx; (fun t => (r, x, t)) <$> seqZ 0 nt).

Definition set_state (par : Z) (vi : ValueIterator) (map : OccupancyGrid)
    (safety_radius safety_radius_penalty : f64) : res ValueIterator :=
  let margin := f64_as_i32 (fceil (fdiv safety_radius (vi_xy_resolution vi))) in
  let '(nx, ny, nt) := (vi_cell_num_x vi, vi_cell_num_y vi, vi_cell_num_t vi) in
  let n := u64_mul (u64_mul (as_u64 nx) (as_u64 ny)) (as_u64 nt) in
  if n =? 0 then Ok (with_states vi []) else
  let per_row := u64_mul (as_u64 nx) (as_u64 nt) in
  let nthr := Z.max 1 (Z.min (as_u64 ny) par) in
  let rows_per := Z.max (div_ceil (as_u64 ny) nthr) 1 in
  let chunk := u64_mul rows_per per_row in
  bands ← map_res (fun band =>
      let len := Z.min chunk (n - band * chunk) in
      state_band map margin safety_radius_penalty nx nt (as_i32 (band * rows_per))
        (as_i32 (len / per_row)))
    (seqZ 0 (div_ceil n chunk));
  Ok (with_states vi (mjoin bands)).

(** ** Transition tables *)

Definition cell_delta (x y t xy_resolution t_resolution : f64) : Z * Z * Z :=
  let ix := f64_as_i32 (ffloor (fdiv (fabs x) xy_resolution)) in
  let ix := if flt x f0 then i32_sub (i32_sub 0 ix) 1 else ix in
  let iy := f64_as_i32 (ffloor (fdiv (fabs y) xy_resolution)) in
  let iy := if flt y f0 then i32_sub (i32_sub 0 iy) 1 else iy in
  (ix, iy, f64_as_i32 (ffloor (fdiv t t_resolution))).

(** [while to_t < 0.0 { to_t += 360.0 }] *)
Fixpoint wrap_up (fuel : nat) (to_t : f64) : res f64 :=
  match fuel with
  | O => OutOfFuel
  | S fuel => if flt to_t f0 then wrap_up fuel (fadd to_t f360) else Ok to_t
  end.

(** [for o = 0.5 * step; o < limit; o += step], the values of [o] *)
Fixpoint sample_points (fuel : nat) (o step limit : f64) : res (list f64) :=
  match fuel with
  | O => OutOfFuel
  | S fuel =>
      if flt o limit then os ← sample_points fuel (fadd o step) step limit; Ok (o :: os)
      else Ok []
  end.

(** One sample counted in the table. *)
Fixpoint count_sample (d : Z * Z * Z) (out : list StateTransition) : list StateTransition :=
  match out with
  | [] => [{| dix := d.1.1; diy := d.1.2; dit := d.2; prob := 1 |}]
  | s :: out' =>
      if (dix s =? d.1.1) && (diy s =? d.1.2) && (dit s =? d.2)
      then {| dix := dix s; diy := diy s; dit := dit s; prob := i32_add (prob s) 1 |} :: out'
      else s :: count_sample d out'
  end.

Section transitions.
Context (cos sin : f64 → f64) (fuel : nat).

Definition no_noise_state_transition (delta_fw delta_rot from_x from_y from_t : f64)
    : res (f64 * f64 * f64) :=
  let ang := fmul (fdiv from_t f180) PI in
  let to_x := fadd from_x (fmul delta_fw (cos ang)) in
  let to_y := fadd from_y (fmul delta_fw (sin ang)) in
  to_t ← wrap_up fuel (fadd from_t delta_rot);
  Ok (to_x, to_y, to_t).

(** The body of the innermost sampling loop. *)
Definition sample_step (delta_fw delta_rot theta_origin xy_resolution t_resolution oy ox ot : f64)
    (out : list StateTransition) : res (list StateTransition) :=
  p ← no_noise_state_transition delta_fw delta_rot ox oy (fadd ot theta_origin);
  let '(dx, dy, dt) := p in
  Ok (count_sample (cell_delta dx dy dt xy_resolution t_resolution) out).

Definition compute_theta_transitions (delta_fw delta_rot : f64) (it : Z)
    (xy_resolution t_resolution : f64) : res (list StateTransition) :=
  let theta_origin := fmul (f64_of_Z it) t_resolution in
  let xy_step := fdiv xy_resolution (f64_of_Z (Z.shiftl 1 RESOLUTION_XY_BIT)) in
  let t_step := fdiv t_resolution (f64_of_Z (Z.shiftl 1 RESOLUTION_T_BIT)) in
  xys ← sample_points fuel (fmul f0_5 xy_step) xy_step xy_resolution;
  ts ← sample_points fuel (fmul f0_5 t_step) t_step t_resolution;
  for_each xys (fun oy => for_each xys (fun ox => for_each ts
    (sample_step delta_fw delta_rot theta_origin xy_resolution t_resolution oy ox))) [].

Definition set_state_transition (vi : ValueIterator) : res ValueIterator :=
  if vi_cell_num_t vi <? 0 then Panic else
  actions ← map_res (fun a =>
      tr ← map_res (fun it =>
          compute_theta_transitions (a_delta_fw a) (a_delta_rot a) it
            (vi_xy_resolution vi) (vi_t_resolution vi))
        (seqZ 0 (vi_cell_num_t vi));
      Ok (with_transitions a tr)) (vi_actions vi);
  Ok (with_actions vi actions).

(** The geometry both map setters start with; [360 / cell_num_t] panics on 0. *)
Definition set_geometry (vi : ValueIterator) (map : OccupancyGrid) (theta_cell_num : Z)
    (goal_margin_radius : f64) (goal_margin_theta : Z) : res ValueIterator :=
  if theta_cell_num =? 0 then Panic else
  Ok (mkVI (vi_states vi) (vi_actions vi) (vi_sweep_orders vi) (vi_thread_status vi)
    (vi_status vi) (vi_goal_x vi) (vi_goal_y vi) goal_margin_radius (vi_goal_t vi)
    goal_margin_theta (vi_thread_num vi) (og_resolution map)
    (f64_of_Z (Z.quot 360 theta_cell_num)) (og_width map) (og_height map) theta_cell_num
    (og_origin_x map) (og_origin_y map) (og_origin_quat map)).

Definition set_map_with_occupancy_grid (par : Z) (vi : ValueIterator) (map : OccupancyGrid)
    (theta_cell_num : Z) (safety_radius safety_radius_penalty goal_margin_radius : f64)
    (goal_margin_theta : Z) : res ValueIterator :=
  vi ← set_geometry vi map theta_cell_num goal_margin_radius goal_margin_theta;
  vi ← set_state par vi map safety_radius safety_radius_penalty;
  vi ← set_state_transition vi;
  Ok (set_sweep_orders vi).

Definition set_map_geometry_no_states (vi : ValueIterator) (map : OccupancyGrid)
    (theta_cell_num : Z) (goal_margin_radius : f64) (goal_margin_theta : Z) : res ValueIterator :=
  vi ← set_geometry vi map theta_cell_num goal_margin_radius goal_margin_theta;
  set_state_transition vi.
End transitions.

(** ** The goal *)

Definition vi_new (actions : list Action) (thread_num : Z) : ValueIterator :=
  mkVI [] actions [] ∅ "init" f0 f0 f0 0 0 thread_num f0 f0 0 0 0 f0 f0 quat_default.

(** The test on the corners of a cell and on its heading. *)
Definition goal_cell (vi : ValueIterator) (s : State) : bool :=
  let '(xy_res, ox, oy) := (vi_xy_resolution vi, vi_map_origin_x vi, vi_map_origin_y vi) in
  let '(gx, gy, gt, gm) := (vi_goal_x vi, vi_goal_y vi, vi_goal_t vi, vi_goal_margin_theta vi) in
  let r2 := fmul (vi_goal_margin_radius vi) (vi_goal_margin_radius vi) in
  let sq d := fmul d d in
  let x0 := fadd (fmul (f64_of_Z (s_ix s)) xy_res) ox in
  let y0 := fadd (fmul (f64_of_Z (s_iy s)) xy_res) oy in
  let r0 := fadd (sq (fsub x0 gx)) (sq (fsub y0 gy)) in
  let x1 := fadd x0 xy_res in
  let y1 := fadd y0 xy_res in
  let r1 := fadd (sq (fsub x1 gx)) (sq (fsub y1 gy)) in
  let near := flt r0 r2 && flt r1 r2 && s_free s in
  let t0 := f64_as_i32 (fmul (f64_of_Z (s_it s)) (vi_t_resolution vi)) in
  let t1 := f64_as_i32 (fmul (f64_of_Z (i32_add (s_it s) 1)) (vi_t_resolution vi)) in
  let goal_t_2 := if gt >? 180 then i32_sub gt 360 else i32_add gt 360 in
  let ok := ((i32_sub gt gm <=? t0) && (t1 <=? i32_add gt gm))
            || ((i32_sub goal_t_2 gm <=? t0) && (t1 <=? i32_add goal_t_2 gm)) in
  near && ok.

(** [final_state = b], then the value, the local penalty and the policy reset *)
Definition reset_state (s : State) (final : bool) : State :=
  mkState (if final then 0 else MAX_COST) (s_penalty s) 0 (s_ix s) (s_iy s) (s_it s)
    (s_free s) final None.

Definition set_state_values (vi : ValueIterator) : ValueIterator :=
  with_states vi ((fun s => reset_state s (s_final_state s)) <$>
    ((fun s => with_final s (goal_cell vi s)) <$> vi_states vi)).

Definition set_goal (vi : ValueIterator) (goal_x goal_y : f64) (goal_t : Z) : ValueIterator :=
  let vi := with_goal vi goal_x goal_y (goal_t mod 360) in
  with_status (set_state_values (with_thread_status vi ∅)) "calculating".

Definition near_point (cx cy r2 : f64) (p : f64 * f64) : bool :=
  let '(dx, dy) := (fsub cx p.1, fsub cy p.2) in
  fle (fadd (fmul dx dx) (fmul dy dy)) r2.

Definition set_goal_region (vi : ValueIterator) (points : list (f64 * f64)) (radius : f64)
    : res ValueIterator :=
  let '(gx, gy) := match points with p :: _ => p | [] => (f0, f0) end in
  let vi := with_thread_status (with_goal vi gx gy 0) ∅ in
  let '(xy_res, ox, oy) := (vi_xy_resolution vi, vi_map_origin_x vi, vi_map_origin_y vi) in
  let r2 := fmul radius radius in
  let '(nx, nt) := (vi_cell_num_x vi, vi_cell_num_t vi) in
  states ← for_range 0 (vi_cell_num_y vi) (fun iy =>
    let cy := fadd (fmul (fadd (f64_of_Z iy) f0_5) xy_res) oy in
    for_range 0 nx (fun ix =>
      let cx := fadd (fmul (fadd (f64_of_Z ix) f0_5) xy_res) ox in
      let near := existsb (near_point cx cy r2) points in
      for_range 0 nt (fun it states =>
        let i := as_u64 (to_index_raw ix iy it nx nt) in
        s ← vget states i;
        vset states i (reset_state s (near && s_free s))))) (vi_states vi);
  Ok (with_status (with_states vi states) "calculating").

(** ** Lemmas: pure reading of the loops *)

(** A loop that stores the same value whenever a test holds. *)
Lemma for_each_store {A B} (test : B → bool) (put : A → A) (body : B → A → res A) l a :
  (∀ x a, x ∈ l → body x a = Ok (if test x then put a else a)) →
  (∀ a, put (put a) = put a) →
  for_each l body a = Ok (if existsb test l then put a else a).
Proof.
  intros Hb Hput. revert a. induction l as [|x l IH]; intros a; [done|].
  cbn. rewrite Hb by left. rewrite ok_bind, IH by (intros; apply Hb; by right).
  destruct (test x); cbn; [|done]. destruct (existsb test l); by rewrite ?Hput.
Qed.

Section occupancy.
Context (map : OccupancyGrid) (margin : Z) (pen : f64) (nx : Z).

(** The linear positions the margin loop looks at. *)
Definition margin_positions (x y : Z) : list Z :=
  seqZ (i32_add (i32_sub 0 margin) x) (i32_add margin x + 1 - i32_add (i32_sub 0 margin) x) ≫=
  fun ix2 => (fun iy2 => iy2 * nx + ix2) <$>
    seqZ (i32_add (i32_sub 0 margin) y) (i32_add margin y + 1 - i32_add (i32_sub 0 margin) y).

Definition occupied_at (pos : Z) : bool :=
  match zget (og_data map) pos with Some v => negb (v =? 0) | None => false end.

Definition free_at (x y : Z) : bool := bool_decide (zget (og_data map) (y * nx + x) = Some 0).

(** The state of a cell, as a function of the map. *)
Definition occupancy_state (x y theta : Z) : State :=
  let s := fresh_state x y theta (free_at x y) in
  if free_at x y && existsb occupied_at (margin_positions x y)
  then with_penalty s (margin_cost pen) else s.

Lemma zget_in_range (l : list Z) i v :
  zget l i = Some v → (0 <=? i) && (i <? zlen l) = true.
Proof. intros H%zget_Some_lt. apply andb_true_intro. split; [apply Z.leb_le|apply Z.ltb_lt]; lia. Qed.

Lemma from_occupancy_eq x y theta :
  in_i32 (y * nx) → 0 ≤ y * nx + x < zlen (og_data map) → zlen (og_data map) < 2 ^ 31 →
  from_occupancy x y theta map margin pen nx = Ok (occupancy_state x y theta).
Proof.
  intros Hm Hi Hl. unfold from_occupancy.
  rewrite i32_mul_small by done. rewrite (i32_add_small (y * nx) x) by (unfold in_i32; lia).
  rewrite as_u64_small by (unfold in_u64; lia).
  destruct (zget_lt (og_data map) (y * nx + x) Hi) as [v Hv].
  rewrite (proj2 (vget_ok _ _ _) Hv), ok_bind.
  assert (free_at x y = (v =? 0)) as Hf.
  { unfold free_at. rewrite Hv. destruct (Z.eqb_spec v 0) as [->|Hne]; [by apply bool_decide_true|].
    apply bool_decide_false. intros [=]. lia. }
  unfold occupancy_state. rewrite Hf. cbn [fresh_state s_free]. cbv zeta.
  destruct (v =? 0); cbn [negb andb]; [|done].
  unfold for_incl, for_range.
  rewrite (for_each_ext _ _ (fun ix2 => for_each ((fun iy2 => iy2 * nx + ix2) <$>
    seqZ (i32_add (i32_sub 0 margin) y) (i32_add margin y + 1 - i32_add (i32_sub 0 margin) y))
    (fun pos s => if (0 <=? pos) && (pos <? zlen (og_data map)) then
        v ← vget (og_data map) pos;
        Ok (if negb (v =? 0) then with_penalty s (margin_cost pen) else s) else Ok s))).
  2: { intros ix2 a _. by rewrite for_each_fmap. }
  rewrite for_each_bind. fold (margin_positions x y).
  apply (for_each_store occupied_at (fun s => with_penalty s (margin_cost pen))); [|done].
  intros pos a _. unfold occupied_at.
  destruct (zget (og_data map) pos) as [w|] eqn:Hw.
  - rewrite (zget_in_range _ _ _ Hw), (proj2 (vget_ok _ _ _) Hw). done.
  - destruct ((0 <=? pos) && (pos <? zlen (og_data map))) eqn:E; [|done]. bool_to_prop.
    destruct (zget_lt (og_data map) pos ltac:(lia)) as [w Hw']. congruence.
Qed.
End occupancy.

(** Cutting [0..n] into chunks of [k]. *)
Lemma seqZ_chunks n k :
  0 < k → 0 ≤ n →
  (seqZ 0 (div_ceil n k) ≫= fun b => seqZ (b * k) (Z.min k (n - b * k))) = seqZ 0 n.
Proof.
  intros Hk Hn.
  assert (∀ m : nat, Z.of_nat m * k ≤ n + k - 1 →
    (seqZ 0 (Z.of_nat m) ≫= fun b => seqZ (b * k) (Z.min k (n - b * k)))
      = seqZ 0 (Z.min (Z.of_nat m * k) n)) as H.
  { induction m as [|m IH]; intros Hm; [by rewrite Z.min_l|].
    rewrite Nat2Z.inj_succ, <- Z.add_1_r, seqZ_app by lia. rewrite bind_app, IH by lia.
    rewrite (seqZ_cons _ 1) by lia. rewrite bind_cons, !Z.add_0_l, app_nil_r.
    assert (0 ≤ Z.of_nat m * k) by nia. rewrite Z.min_l by lia.
    replace (Z.min ((Z.of_nat m + 1) * k) n)
      with (Z.of_nat m * k + Z.min k (n - Z.of_nat m * k)) by lia.
    by rewrite seqZ_app, Z.add_0_l by lia. }
  pose proof (div_ceil_bounds n k Hk) as [H1 H2].
  assert (0 ≤ div_ceil n k) by (unfold div_ceil; apply Z.div_pos; lia).
  replace (div_ceil n k) with (Z.of_nat (Z.to_nat (div_ceil n k))) by lia.
  rewrite H by (rewrite Z2Nat.id; lia). f_equal. rewrite Z2Nat.id by lia. lia.
Qed.

Lemma div_ceil_scale n k p : 0 < p → 0 < k → div_ceil (n * p) (k * p) = div_ceil n k.
Proof.
  intros Hp Hk. pose proof (div_ceil_bounds (n * p) (k * p) ltac:(nia)).
  pose proof (div_ceil_bounds n k Hk). nia.
Qed.

Lemma mjoin_fmap {A B} (f : A → list B) (l : list A) : mjoin (f <$> l) = l ≫= f.
Proof. induction l as [|x l IH]; [done|]. cbn. by rewrite <- IH. Qed.

(** The states of a map, in the order of their indices. *)
Definition occupancy_states (map : OccupancyGrid) (margin : Z) (pen : f64) (nx ny nt : Z)
    : list State :=
  y ← seqZ 0 ny; x ← seqZ 0 nx; (fun t => occupancy_state map margin pen nx x y t) <$> seqZ 0 nt.

Lemma state_band_eq map margin pen nx ny nt y0 rows :
  dims_ok nx ny nt → zlen (og_data map) = nx * ny → 0 ≤ y0 → y0 + rows ≤ ny →
  state_band map margin pen nx nt y0 rows = Ok (y ← seqZ y0 rows; x ← seqZ 0 nx;
    (fun t => occupancy_state map margin pen nx x y t) <$> seqZ 0 nt).
Proof.
  intros [Hx Hy Ht Htot] Hl Hy0 Hrows. unfold state_band.
  assert (nx * ny < 2 ^ 31) by nia.
  rewrite (map_res_pure _ (fun c : Z * Z * Z => occupancy_state map margin pen nx c.1.2 (y0 + c.1.1) c.2)).
  - f_equal. rewrite list_fmap_bind_r.
    replace (seqZ y0 rows) with (Z.add y0 <$> seqZ 0 rows)
      by (rewrite fmap_add_seqZ; f_equal; lia).
    rewrite list_fmap_bind. apply list_bind_ext_mem. intros r _. cbn.
    rewrite list_fmap_bind_r. apply list_bind_ext_mem. intros x _.
    by rewrite <- list_fmap_compose.
  - intros c Hc. apply list_elem_of_bind in Hc as (r & Hc & Hr%elem_of_seqZ).
    apply list_elem_of_bind in Hc as (x & Hc & Hx'%elem_of_seqZ).
    apply list_elem_of_fmap in Hc as (t & -> & _). cbn.
    assert (0 ≤ (y0 + r) * nx) by nia. assert ((y0 + r) * nx + x < nx * ny) by nia.
    assert (ny ≤ nx * ny) by nia.
    rewrite i32_add_small by (unfold in_i32; lia).
    apply from_occupancy_eq; [unfold in_i32; lia|lia|lia].
Qed.

Lemma set_state_eq par vi map sr pen :
  dims_ok (vi_cell_num_x vi) (vi_cell_num_y vi) (vi_cell_num_t vi) →
  zlen (og_data map) = vi_cell_num_x vi * vi_cell_num_y vi →
  set_state par vi map sr pen = Ok (with_states vi
    (occupancy_states map (f64_as_i32 (fceil (fdiv sr (vi_xy_resolution vi)))) pen
       (vi_cell_num_x vi) (vi_cell_num_y vi) (vi_cell_num_t vi))).
Proof.
  intros Hd Hl. unfold set_state. set (margin := f64_as_i32 _).
  set (nx := vi_cell_num_x vi) in *. set (ny := vi_cell_num_y vi) in *.
  set (nt := vi_cell_num_t vi) in *. pose proof Hd as [Hx Hy Ht Htot].
  assert (nx * ny < 2 ^ 31) by nia. assert (nx * nt < 2 ^ 31) by nia.
  assert (nx < 2 ^ 31 ∧ ny < 2 ^ 31 ∧ nt < 2 ^ 31) as (? & ? & ?) by nia.
  rewrite !as_u64_small by (unfold in_u64; lia).
  rewrite (u64_mul_small nx ny) by (unfold in_u64; nia).
  rewrite (u64_mul_small (nx * ny)) by (unfold in_u64; nia).
  rewrite (u64_mul_small nx nt) by (unfold in_u64; nia).
  destruct (Z.eqb_spec (nx * ny * nt) 0); [nia|].
  set (rp := Z.max (div_ceil ny _) 1).
  assert (0 < rp ≤ ny) as Hrp.
  { unfold rp. pose proof (div_ceil_bounds ny (Z.max 1 (Z.min ny par)) ltac:(lia)).
    split; [lia|]. apply Z.max_lub; [|lia]. nia. }
  assert (rp * (nx * nt) ≤ nx * ny * nt) by nia. assert (0 < nx * nt) by nia.
  rewrite (u64_mul_small rp) by (unfold in_u64; nia).
  replace (nx * ny * nt) with (ny * (nx * nt)) by ring.
  rewrite div_ceil_scale by lia.
  rewrite (map_res_pure _ (fun b => y ← seqZ (b * rp) (Z.min rp (ny - b * rp)); x ← seqZ 0 nx;
    (fun t => occupancy_state map margin pen nx x y t) <$> seqZ 0 nt)).
  - rewrite ok_bind, mjoin_fmap, <- list_bind_assoc, seqZ_chunks by lia. done.
  - intros b [Hb1 Hb2]%elem_of_seqZ. pose proof (div_ceil_bounds ny rp ltac:(lia)) as [Hc1 Hc2].
    assert (b * rp < ny) by nia. assert (0 ≤ b * rp) by nia.
    assert (Z.min (rp * (nx * nt)) (ny * (nx * nt) - b * (rp * (nx * nt)))
      = Z.min rp (ny - b * rp) * (nx * nt)) as ->.
    { rewrite <- Z.mul_min_distr_nonneg_r by lia. f_equal. ring. }
    rewrite Z.div_mul by lia. rewrite !as_i32_small by lia.
    apply state_band_eq with (ny := ny); [done|done|lia|lia].
Qed.

(** Row-major enumeration of the cells. *)
Lemma cells_by_index {A} (f : Z → Z → Z → A) nx ny nt :
  0 < nx → 0 < ny → 0 < nt →
  (y ← seqZ 0 ny; x ← seqZ 0 nx; (fun t => f x y t) <$> seqZ 0 nt)
  = (fun i => f (cx nx nt i) (cy nx nt i) (ct nt i)) <$> seqZ 0 (nx * ny * nt).
Proof.
  intros Hx Hy Ht. replace (nx * ny * nt) with (ny * (nx * nt)) by ring.
  rewrite <- seqZ_mul by nia. rewrite list_fmap_bind_r. apply list_bind_ext_mem.
  intros y Hy'%elem_of_seqZ. rewrite <- (seqZ_mul nx nt) by lia.
  rewrite !list_fmap_bind_r. apply list_bind_ext_mem. intros x Hx'%elem_of_seqZ.
  rewrite <- !list_fmap_compose. apply list_fmap_ext. intros k t Hk%list_elem_of_lookup_2.
  apply elem_of_seqZ in Hk. cbn.
  replace (y * (nx * nt) + (x * nt + t)) with (index nx nt x y t) by (unfold index; ring).
  destruct (coords_index nx nt x y t) as (-> & -> & ->); [lia|lia|done].
Qed.

Lemma zget_seqZ0 n i : 0 ≤ i < n → zget (seqZ 0 n) i = Some i.
Proof. intros. unfold zget. rewrite decide_True by lia. apply lookup_seqZ. lia. Qed.

Section states.
Context (map : OccupancyGrid) (margin : Z) (pen : f64) (nx ny nt : Z).
Context (Hd : dims_ok nx ny nt).

Lemma occupancy_states_len : zlen (occupancy_states map margin pen nx ny nt) = nx * ny * nt.
Proof.
  destruct Hd as [Hx Hy Ht _]. unfold occupancy_states. rewrite cells_by_index by done.
  rewrite zlen_fmap. unfold zlen. rewrite length_seqZ. nia.
Qed.

Lemma occupancy_states_get i s :
  zget (occupancy_states map margin pen nx ny nt) i = Some s →
  s = occupancy_state map margin pen nx (cx nx nt i) (cy nx nt i) (ct nt i).
Proof.
  intros Hs. pose proof (zget_Some_lt _ _ _ Hs) as Hi. rewrite occupancy_states_len in Hi.
  destruct Hd as [Hx Hy Ht _]. unfold occupancy_states in Hs.
  rewrite cells_by_index, zget_fmap, zget_seqZ0 in Hs by done. by injection Hs as <-.
Qed.

Lemma occupancy_state_fields x y t :
  let s := occupancy_state map margin pen nx x y t in
  s_total_cost s = MAX_COST ∧ s_local_penalty s = 0 ∧ s_ix s = x ∧ s_iy s = y ∧ s_it s = t ∧
  s_free s = free_at map nx x y ∧ s_final_state s = false ∧ s_optimal_action s = None ∧
  s_penalty s = if free_at map nx x y && existsb (occupied_at map) (margin_positions margin nx x y)
                then margin_cost pen else PROB_BASE.
Proof. unfold occupancy_state. cbv zeta. by destruct (_ && _). Qed.

Lemma occupancy_states_wf : wf_states nx ny nt (occupancy_states map margin pen nx ny nt).
Proof.
  split; [apply occupancy_states_len|]. intros i s Hs.
  pose proof (zget_Some_lt _ _ _ Hs) as Hi. rewrite occupancy_states_len in Hi.
  rewrite (occupancy_states_get i s Hs). destruct Hd as [Hx Hy Ht _].
  destruct (index_coords nx ny nt i Hx Ht Hi) as (E & ? & ? & ?).
  destruct (occupancy_state_fields (cx nx nt i) (cy nx nt i) (ct nt i))
    as (E1 & E2 & E3 & E4 & E5 & _ & _ & _ & E9).
  split; rewrite ?E1, ?E2, ?E3, ?E4, ?E5; try done.
  rewrite E9. destruct (_ && _); [|rewrite PROB_BASE_eq; unfold in_u64; lia].
  unfold margin_cost, u64_add, in_u64. apply wrap_u_range. lia.
Qed.
End states.

(** ** Properties of the states *)

(** C33: [set_state] builds the same field whatever the number of threads, and
    without a panic: the state of every cell sits at its index, unreached,
    without a policy; it is free iff its occupancy is 0, and a free cell pays
    the safety penalty iff a linear position of its margin box is occupied. *)
Theorem set_state_field vi map sr pen :
  let '(nx, ny, nt) := (vi_cell_num_x vi, vi_cell_num_y vi, vi_cell_num_t vi) in
  let margin := f64_as_i32 (fceil (fdiv sr (vi_xy_resolution vi))) in
  dims_ok nx ny nt → zlen (og_data map) = nx * ny →
  ∃ st, (∀ par, set_state par vi map sr pen = Ok (with_states vi st)) ∧ wf_states nx ny nt st ∧
    ∀ i s, zget st i = Some s →
      s_total_cost s = MAX_COST ∧ s_final_state s = false ∧ s_optimal_action s = None ∧
      (s_free s = true ↔ zget (og_data map) (s_iy s * nx + s_ix s) = Some 0) ∧
      s_penalty s = if s_free s && existsb (occupied_at map) (margin_positions margin nx (s_ix s) (s_iy s))
                    then margin_cost pen else PROB_BASE.
Proof.
  cbv zeta. intros Hd Hl. eexists. split; [intros par; by apply set_state_eq|].
  split; [by apply occupancy_states_wf|]. intros i s Hs.
  rewrite (occupancy_states_get _ _ _ _ _ _ Hd i s Hs).
  set (x := cx _ _ i). set (y := cy _ _ i). set (t := ct _ i).
  destruct (occupancy_state_fields map (f64_as_i32 (fceil (fdiv sr (vi_xy_resolution vi)))) pen
    (vi_cell_num_x vi) x y t) as (-> & _ & -> & -> & _ & -> & -> & -> & ->).
  split; [done|]. split; [done|]. split; [done|]. split; [|done].
  unfold free_at. apply bool_decide_eq_true.
Qed.

(** A 3 x 2 map with one heading and an obstacle in the upper right corner. *)
Definition sample_map : OccupancyGrid :=
  {| og_width := 3; og_height := 2; og_resolution := f1; og_origin_x := f0; og_origin_y := f0;
     og_origin_quat := quat_default; og_data := [0; 0; 100; 0; 0; 0] |}.

Lemma set_state_field_witness :
  ∃ st, (∀ par, set_state par (sample_vi 3 2 1 [] []) sample_map f1 f1
           = Ok (sample_vi 3 2 1 [] st)) ∧ s_free <$> st = [true; true; false; true; true; true].
Proof.
  destruct (set_state_field (sample_vi 3 2 1 [] []) sample_map f1 f1) as (st & E & _).
  - split; cbn; lia.
  - reflexivity.
  - exists st. split; [exact E|]. specialize (E 1).
    vm_compute in E. injection E as <-. reflexivity.
Defined.

(** Away from the left and right borders the safety penalty is exactly the
    L-infinity margin: a free cell at least [margin] columns from both sides
    pays it iff an occupied cell lies within [margin] rows and columns. *)
Theorem from_occupancy_interior x y t map margin pen nx ny :
  zlen (og_data map) = nx * ny → nx * ny < 2 ^ 30 → 0 ≤ margin → margin ≤ x < nx - margin →
  0 ≤ y < ny → y + margin < 2 ^ 30 → zget (og_data map) (y * nx + x) = Some 0 →
  ∃ s, from_occupancy x y t map margin pen nx = Ok s ∧ s_free s = true ∧
    ((∃ x' y' v, 0 ≤ x' < nx ∧ 0 ≤ y' < ny ∧ Z.abs (x' - x) ≤ margin ∧ Z.abs (y' - y) ≤ margin ∧
        zget (og_data map) (y' * nx + x') = Some v ∧ v ≠ 0) → s_penalty s = margin_cost pen) ∧
    ((∀ x' y' v, 0 ≤ x' < nx → 0 ≤ y' < ny → Z.abs (x' - x) ≤ margin → Z.abs (y' - y) ≤ margin →
        zget (og_data map) (y' * nx + x') = Some v → v = 0) → s_penalty s = PROB_BASE).
Proof.
  intros Hl Hsz Hm Hx Hy Hym Hfree. assert (0 ≤ y * nx) by nia.
  pose proof (zget_Some_lt _ _ _ Hfree) as Hr.
  exists (occupancy_state map margin pen nx x y t). split; [|].
  { apply from_occupancy_eq; [unfold in_i32; lia|lia|lia]. }
  destruct (occupancy_state_fields map margin pen nx x y t) as (_ & _ & _ & _ & _ & -> & _ & _ & ->).
  assert (free_at map nx x y = true) as -> by by apply bool_decide_true. cbn [andb].
  assert (nx ≤ nx * ny) by nia.
  assert (∀ pos, pos ∈ margin_positions margin nx x y ↔
    ∃ x' y', Z.abs (x' - x) ≤ margin ∧ Z.abs (y' - y) ≤ margin ∧ pos = y' * nx + x') as Hpos.
  { intros pos. unfold margin_positions.
    rewrite !i32_sub_small, !i32_add_small by (unfold in_i32; lia).
    rewrite list_elem_of_bind. setoid_rewrite elem_of_seqZ. setoid_rewrite list_elem_of_fmap.
    setoid_rewrite elem_of_seqZ. split.
    - intros (x' & (y' & -> & ?) & ?). exists x', y'. lia.
    - intros (x' & y' & ? & ? & ->). exists x'. split; [exists y'; split; [done|lia]|lia]. }
  split; [done|]. split.
  - intros (x' & y' & v & Hx' & Hy' & Hdx & Hdy & Hv & Hne).
    assert (existsb (occupied_at map) (margin_positions margin nx x y) = true) as ->; [|done].
    apply existsb_exists. exists (y' * nx + x'). split.
    + apply list_elem_of_In, Hpos. by exists x', y'.
    + unfold occupied_at. rewrite Hv. by destruct (Z.eqb_spec v 0).
  - intros Hnone. destruct (existsb _ _) eqn:E; [|done]. exfalso.
    apply existsb_exists in E as (pos & Hp%list_elem_of_In & Ho).
    apply Hpos in Hp as (x' & y' & Hdx & Hdy & ->). unfold occupied_at in Ho.
    destruct (zget (og_data map) (y' * nx + x')) as [v|] eqn:Hv; [|done].
    pose proof (zget_Some_lt _ _ _ Hv) as Hb. rewrite Hl in Hb.
    assert (0 ≤ x' < nx) as Hx' by lia.
    assert (0 ≤ y' < ny) as Hy'.
    { split.
      - destruct (Z.lt_ge_cases y' 0); [|lia].
        assert (y' * nx ≤ -1 * nx) by (apply Z.mul_le_mono_nonneg_r; lia). lia.
      - destruct (Z.lt_ge_cases y' ny); [done|].
        assert (ny * nx ≤ y' * nx) by (apply Z.mul_le_mono_nonneg_r; lia). lia. }
    rewrite (Hnone x' y' v Hx' Hy' Hdx Hdy Hv) in Ho. done.
Qed.

Lemma from_occupancy_interior_witness :
  ∃ s, from_occupancy 1 1 0 sample_map 1 f1 3 = Ok s ∧ s_free s = true ∧
       s_penalty s = margin_cost f1.
Proof.
  destruct (from_occupancy_interior 1 1 0 sample_map 1 f1 3 2) as (s & E & Hf & Hyes & _);
    [reflexivity|lia|lia|lia|lia|lia|reflexivity|].
  exists s. split; [exact E|]. split; [exact Hf|]. apply Hyes.
  exists 2, 0, 100. split; [lia|]. split; [lia|]. split; [lia|]. split; [lia|].
  split; [reflexivity|lia].
Defined.

(** At the left border the linear position crosses into the previous row: the
    cell (0, 1) pays for the obstacle at (2, 0), two columns away. *)
Example from_occupancy_row_crossing :
  s_penalty <$> match from_occupancy 0 1 0 sample_map 1 f1 3 with Ok s => Some s | _ => None end
    = Some (margin_cost f1).
Proof. reflexivity. Qed.

(** ** The transition tables *)

Definition key (s : StateTransition) : Z * Z * Z := (dix s, diy s, dit s).
Definition total_prob (out : list StateTransition) : Z := foldr (fun s n => prob s + n) 0 out.

(** A table of distinct targets, each counted at least once. *)
Definition table_ok (out : list StateTransition) : Prop :=
  NoDup (key <$> out) ∧ ∀ s, s ∈ out → 1 ≤ prob s.

Lemma total_prob_nonneg out : (∀ s, s ∈ out → 1 ≤ prob s) → 0 ≤ total_prob out.
Proof.
  induction out as [|s out IH]; intros H; cbn; [lia|].
  pose proof (H s ltac:(left)). specialize (IH ltac:(intros; apply H; by right)).
  fold (total_prob out). lia.
Qed.

Lemma count_sample_keys d out k :
  k ∈ key <$> count_sample d out ↔ k = d ∨ k ∈ key <$> out.
Proof.
  destruct d as [[dx dy] dt]. induction out as [|s out IH]; cbn.
  - rewrite elem_of_cons. unfold key. cbn. done.
  - destruct ((dix s =? dx) && (diy s =? dy) && (dit s =? dt)) eqn:E; cbn; rewrite !elem_of_cons.
    + bool_to_prop. unfold key. cbn. subst. split; [tauto|]. intros [->|?]; [by left|done].
    + rewrite IH. tauto.
Qed.

Lemma count_sample_spec d out :
  table_ok out → total_prob out + 1 < 2 ^ 31 →
  table_ok (count_sample d out) ∧ total_prob (count_sample d out) = total_prob out + 1.
Proof.
  destruct d as [[dx dy] dt]. induction out as [|s out IH]; intros [Hnd Hp] Ht.
  - split; [|done]. split; [cbn; apply NoDup_singleton|].
    intros s ->%list_elem_of_singleton. cbn. lia.
  - cbn in Hnd, Ht. apply list.NoDup_cons in Hnd as [Hni Hnd]. fold (total_prob out) in Ht.
    assert (table_ok out) as Hok by (split; [done|intros; apply Hp; by right]).
    pose proof (total_prob_nonneg out (proj2 Hok)). pose proof (Hp s ltac:(left)).
    cbn. destruct ((dix s =? dx) && (diy s =? dy) && (dit s =? dt)) eqn:E.
    + rewrite i32_add_small by (unfold in_i32; lia). split; [|cbn; fold (total_prob out); lia].
      split; [by apply list.NoDup_cons|]. intros r [->|Hr]%elem_of_cons; [cbn; lia|].
      apply Hp. by right.
    + destruct (IH Hok) as [[Hnd' Hp'] Htot]; [lia|]. split.
      * split; [|intros r [->|Hr]%elem_of_cons; [done|by apply Hp']].
        cbn. apply list.NoDup_cons. split; [|done]. rewrite count_sample_keys.
        intros [Hk|?]; [|done]. unfold key in Hk. injection Hk as K1 K2 K3.
        by rewrite K1, K2, K3, !Z.eqb_refl in E.
      * cbn. fold (total_prob (count_sample (dx, dy, dt) out)) (total_prob out). lia.
Qed.

(** Every sampled heading is non-negative after at most one turn. *)
Definition one_turn (delta_rot theta_origin : f64) (ts : list f64) : bool :=
  forallb (fun ot => let t := fadd (fadd ot theta_origin) delta_rot in
                     negb (flt t f0) || negb (flt (fadd t f360) f0)) ts.

Lemma wrap_up_turn fuel t :
  (2 ≤ fuel)%nat → negb (flt t f0) || negb (flt (fadd t f360) f0) = true → ∃ v, wrap_up fuel t = Ok v.
Proof.
  intros Hf Ht. destruct fuel as [|[|fuel]]; [lia|lia|]. cbn.
  destruct (flt t f0); [|by eexists]. cbn in Ht. apply negb_true_iff in Ht. rewrite Ht. by eexists.
Qed.

(** C34: the sampled transition table of an action and a heading is a
    distribution: when the sampled headings need at most one turn back, the
    table is built, its targets are pairwise distinct, every weight is
    positive, and the weights add up to the number of samples, whatever the
    sine and cosine of the platform. *)
Theorem transition_table_total cos sin fuel fw rot it xy_res t_res xys ts :
  let xy_step := fdiv xy_res (f64_of_Z 64) in
  let t_step := fdiv t_res (f64_of_Z 64) in
  (2 ≤ fuel)%nat →
  sample_points fuel (fmul f0_5 xy_step) xy_step xy_res = Ok xys →
  sample_points fuel (fmul f0_5 t_step) t_step t_res = Ok ts →
  zlen xys * (zlen xys * zlen ts) < 2 ^ 31 →
  one_turn rot (fmul (f64_of_Z it) t_res) ts = true →
  ∃ out, compute_theta_transitions cos sin fuel fw rot it xy_res t_res = Ok out ∧
    NoDup (key <$> out) ∧ (∀ s, s ∈ out → 1 ≤ prob s) ∧
    total_prob out = zlen xys * (zlen xys * zlen ts).
Proof.
  cbv zeta. intros Hf Hxys Hts Hn Hturn. unfold compute_theta_transitions.
  change (Z.shiftl 1 RESOLUTION_XY_BIT) with 64. change (Z.shiftl 1 RESOLUTION_T_BIT) with 64.
  rewrite Hxys, ok_bind, Hts, ok_bind. set (origin := fmul _ t_res) in *.
  set (body := sample_step cos sin fuel fw rot origin xy_res t_res).
  set (l := xys ≫= fun oy => xys ≫= fun ox => (fun ot => (oy, ox, ot)) <$> ts).
  assert (for_each xys (fun oy => for_each xys (fun ox => for_each ts (body oy ox))) []
    = for_each l (fun c => body c.1.1 c.1.2 c.2) []) as ->.
  { unfold l. rewrite <- for_each_bind. apply for_each_ext. intros oy a _.
    rewrite <- for_each_bind. apply for_each_ext. intros ox a' _. by rewrite for_each_fmap. }
  assert (∀ A B C (f : A → B → C) (k : list A) (m : list B),
    zlen (k ≫= fun x => f x <$> m) = zlen k * zlen m) as Hlen.
  { intros A B C f k m. induction k as [|x k IH]; [done|].
    rewrite bind_cons, zlen_app, zlen_fmap, IH. unfold zlen. cbn [length]. nia. }
  assert (zlen l = zlen xys * (zlen xys * zlen ts)) as Hl.
  { unfold l. assert (∀ k : list f64, zlen (k ≫= fun oy => xys ≫= fun ox => (fun ot => (oy, ox, ot)) <$> ts)
      = zlen k * (zlen xys * zlen ts)) as H; [|apply H].
    induction k as [|oy k IH]; [done|].
    rewrite bind_cons, zlen_app, IH, (Hlen _ _ _ (fun ox ot => (oy, ox, ot))).
    unfold zlen. cbn [length]. nia. }
  destruct (for_each_inv (fun k out => table_ok out ∧ total_prob out = Z.of_nat k) l
    (fun c => body c.1.1 c.1.2 c.2) []) as (out & E & [Hnd Hp] & Htot).
  - split; [|done]. split; [constructor|by intros s ?%elem_of_nil].
  - intros k [[oy ox] ot] out Hk [Hok Htot]. cbn [fst snd]. unfold body.
    apply lookup_lt_Some in Hk as Hkl. apply list_elem_of_lookup_2 in Hk.
    assert (ot ∈ ts) as Hot.
    { apply list_elem_of_bind in Hk as (? & Hk & _). apply list_elem_of_bind in Hk as (? & Hk & _).
      by apply list_elem_of_fmap in Hk as (? & [= -> -> ->] & ?). }
    unfold sample_step, no_noise_state_transition.
    destruct (wrap_up_turn fuel (fadd (fadd ot origin) rot) Hf) as [v ->].
    { unfold one_turn in Hturn. rewrite forallb_forall in Hturn.
      by apply Hturn, list_elem_of_In. }
    rewrite !ok_bind. cbv beta iota.
    match goal with |- ∃ o, Ok (count_sample ?d out) = _ ∧ _ =>
      destruct (count_sample_spec d out Hok) as [Hok' Ht'] end.
    { rewrite Htot. unfold zlen in Hl at 1. lia. }
    eexists. split; [done|]. split; [done|]. lia.
  - exists out. split; [exact E|]. split; [done|]. split; [done|].
    rewrite Htot, <- Hl. done.
Qed.

(** The resolution of the usual maps (0.05 m, 60 headings), turning right. *)
Lemma transition_table_total_witness :
  ∃ out, compute_theta_transitions (fun x => x) (fun x => x) 66 f0_3 (f64_of_Z (-20)) 0
           (fdiv f1 (f64_of_Z 20)) (f64_of_Z 6) = Ok out ∧
    NoDup (key <$> out) ∧ (∀ s, s ∈ out → 1 ≤ prob s) ∧ total_prob out = PROB_BASE.
Proof.
  apply (transition_table_total (fun x => x) (fun x => x) 66 f0_3 (f64_of_Z (-20)) 0
    (fdiv f1 (f64_of_Z 20)) (f64_of_Z 6)
    (match sample_points 66 (fmul f0_5 (fdiv (fdiv f1 (f64_of_Z 20)) (f64_of_Z 64)))
       (fdiv (fdiv f1 (f64_of_Z 20)) (f64_of_Z 64)) (fdiv f1 (f64_of_Z 20)) with Ok l => l | _ => [] end)
    (match sample_points 66 (fmul f0_5 (fdiv (f64_of_Z 6) (f64_of_Z 64)))
       (fdiv (f64_of_Z 6) (f64_of_Z 64)) (f64_of_Z 6) with Ok l => l | _ => [] end));
    [lia|vm_compute; reflexivity|vm_compute; reflexivity|vm_compute; reflexivity|vm_compute; reflexivity].
Defined.

(** ** The goal *)

Lemma reset_state_static s b :
  s_penalty (reset_state s b) = s_penalty s ∧ s_ix (reset_state s b) = s_ix s ∧
  s_iy (reset_state s b) = s_iy s ∧ s_it (reset_state s b) = s_it s ∧
  s_free (reset_state s b) = s_free s.
Proof. done. Qed.

Lemma reset_wf nx ny nt st st' (f : State → bool) :
  wf_states nx ny nt st → (∀ i, zget st' i = (fun s => reset_state s (f s)) <$> zget st i) →
  zlen st' = zlen st → wf_states nx ny nt st'.
Proof.
  intros [Hl Hs] Hget Hlen. split; [lia|]. intros i s Hi. rewrite Hget in Hi.
  destruct (zget st i) as [s0|] eqn:E; [|done]. injection Hi as <-.
  destruct (Hs i s0 E) as [? ? ? ? ? ? ?]. split; try done.
  cbn. rewrite MAX_COST_eq. destruct (f s0); lia.
Qed.

(** What both goal setters leave: each state reset around its goal flag. *)
Definition goal_set (vi vi' : ValueIterator) (final : State → bool) : Prop :=
  vi_status vi' = "calculating"%string ∧ vi_thread_status vi' = ∅ ∧
  vi_actions vi' = vi_actions vi ∧ vi_cell_num_x vi' = vi_cell_num_x vi ∧
  vi_cell_num_y vi' = vi_cell_num_y vi ∧ vi_cell_num_t vi' = vi_cell_num_t vi ∧
  zlen (vi_states vi') = zlen (vi_states vi) ∧
  ∀ i, zget (vi_states vi') i = (fun s => reset_state s (final s)) <$> zget (vi_states vi) i.

Lemma goal_set_wf vi vi' final : wf_vi vi → goal_set vi vi' final → wf_vi vi'.
Proof.
  intros [Hd Hs Ha] (_ & _ & Ea & Ex & Ey & Et & Hl & Hget).
  split; rewrite ?Ex, ?Ey, ?Et, ?Ea; [done| |done]. by eapply reset_wf.
Qed.

(** [set_goal] normalises the heading into [0, 360), clears the worker
    status, starts the calculation and keeps the field well formed: exactly
    the cells that pass the corner and heading test, all of them free, become
    final with cost 0; every other cell restarts unreached, without a policy
    and without a local penalty. *)
Theorem set_goal_spec vi gx gy gt :
  wf_vi vi →
  let vi' := set_goal vi gx gy gt in
  wf_vi vi' ∧ goal_set vi vi' (goal_cell (with_goal vi gx gy (gt mod 360))) ∧
  0 ≤ vi_goal_t vi' < 360 ∧ (vi_goal_t vi' - gt) mod 360 = 0 ∧
  ∀ i s, zget (vi_states vi') i = Some s →
    (s_final_state s = true → s_free s = true) ∧
    s_total_cost s = (if s_final_state s then 0 else MAX_COST) ∧ policy_invalidated s = false.
Proof.
  intros Hwf vi'.
  assert (goal_set vi vi' (goal_cell (with_goal vi gx gy (gt mod 360)))) as Hg.
  { unfold goal_set, vi', set_goal, set_state_values. cbn.
    split; [done|]. split; [done|]. do 4 (split; [done|]). split; [by rewrite !zlen_fmap|].
    intros i. rewrite !zget_fmap. by destruct (zget (vi_states vi) i). }
  split; [by eapply goal_set_wf|]. split; [exact Hg|].
  split; [unfold vi'; cbn; apply Z.mod_pos_bound; lia|]. split.
  { unfold vi'. cbn. pose proof (Z.div_mod gt 360 ltac:(lia)).
    replace (gt mod 360 - gt) with (- (gt / 360) * 360) by lia. apply Z_mod_mult. }
  intros i s Hs. destruct Hg as (_ & _ & _ & _ & _ & _ & _ & Hget). rewrite Hget in Hs.
  destruct (zget (vi_states vi) i) as [s0|]; [|done]. injection Hs as <-.
  assert (goal_cell (with_goal vi gx gy (gt mod 360)) s0 = true → s_free s0 = true) as Hfree.
  { unfold goal_cell. cbn [with_goal]. intros Hf. by bool_to_prop. }
  generalize dependent (goal_cell (with_goal vi gx gy (gt mod 360)) s0). intros f Hfree.
  split; [exact Hfree|]. split; [done|].
  unfold policy_invalidated. cbn. destruct f, (s_free s0); reflexivity.
Qed.

Lemma set_goal_spec_witness :
  wf_vi (set_goal (corridor 3) f0 f0 (-90)) ∧ vi_goal_t (set_goal (corridor 3) f0 f0 (-90)) = 270.
Proof.
  split; [|reflexivity]. apply (set_goal_spec (corridor 3) f0 f0 (-90)).
  apply check_vi_ok. reflexivity.
Defined.

(** Visiting each position of a vector once. *)
Lemma for_each_update {A} (g : Z → A → A) (l : list Z) (v : list A) :
  NoDup l → (∀ i, i ∈ l → 0 ≤ i < zlen v) →
  ∃ v', for_each l (fun i v => s ← vget v i; vset v i (g i s)) v = Ok v' ∧ zlen v' = zlen v ∧
    ∀ i, zget v' i = if decide (i ∈ l) then g i <$> zget v i else zget v i.
Proof.
  revert v. induction l as [|j l IH]; intros v Hnd Hl.
  { exists v. split; [done|]. split; [done|]. intros i. by rewrite decide_False by apply not_elem_of_nil. }
  apply list.NoDup_cons in Hnd as [Hj Hnd]. destruct (zget_lt v j) as [s Hs]; [apply Hl; left|].
  cbn. rewrite (proj2 (vget_ok _ _ _) Hs), ok_bind, vset_ok by (apply Hl; left). rewrite ok_bind.
  destruct (IH (zset v j (g j s)) Hnd) as (v' & E & Hlen & Hget).
  { intros i Hi. rewrite zlen_zset. apply Hl. by right. }
  exists v'. split; [exact E|]. split; [by rewrite Hlen, zlen_zset|]. intros i. rewrite Hget.
  destruct (decide (i = j)) as [->|Hne].
  - rewrite decide_False by done. rewrite decide_True by left.
    rewrite zget_zset_eq by (apply Hl; left). by rewrite Hs.
  - rewrite zget_zset_ne by done. destruct (decide (i ∈ l)).
    + rewrite decide_True by by right. done.
    + rewrite decide_False; [done|]. by intros [?|?]%elem_of_cons.
Qed.

(** The test of [set_goal_region] on a state. *)
Definition region_cell (vi : ValueIterator) (points : list (f64 * f64)) (radius : f64) (s : State)
    : bool :=
  let cy := fadd (fmul (fadd (f64_of_Z (s_iy s)) f0_5) (vi_xy_resolution vi)) (vi_map_origin_y vi) in
  let cx := fadd (fmul (fadd (f64_of_Z (s_ix s)) f0_5) (vi_xy_resolution vi)) (vi_map_origin_x vi) in
  existsb (near_point cx cy (fmul radius radius)) points && s_free s.

(** [set_goal_region] never panics on a well-formed field and marks, for
    every heading, exactly the free cells whose centre lies within [radius] of
    one of the points; all other cells restart unreached. *)
Theorem set_goal_region_spec vi points radius :
  wf_vi vi →
  ∃ vi', set_goal_region vi points radius = Ok vi' ∧ wf_vi vi' ∧
    goal_set vi vi' (region_cell vi points radius).
Proof.
  intros Hwf. pose proof Hwf as [Hd Hst _]. pose proof Hd as [Hx Hy Ht Htot].
  unfold set_goal_region.
  destruct (match points with [] => _ | _ => _ end) as [gx gy]. cbn [with_goal with_thread_status
    vi_xy_resolution vi_map_origin_x vi_map_origin_y vi_cell_num_x vi_cell_num_y vi_cell_num_t vi_states].
  set (nx := vi_cell_num_x vi) in *. set (ny := vi_cell_num_y vi) in *. set (nt := vi_cell_num_t vi) in *.
  set (g := fun (i : Z) (s : State) =>
    reset_state s (region_cell vi points radius (with_value
      (mkState 0 0 0 (cx nx nt i) (cy nx nt i) 0 (s_free s) false None) 0 None))).
  match goal with |- ∃ v, (for_range 0 ny ?body _ ≫= _) = _ ∧ _ =>
    assert (∀ v, for_range 0 ny body v
      = for_each (seqZ 0 (nx * ny * nt)) (fun i v => s ← vget v i; vset v i (g i s)) v) as Hflat end.
  { intros v. pose proof (cells_by_index (fun x y t => index nx nt x y t) nx ny nt Hx Hy Ht) as Hc.
    assert (((fun i => index nx nt (cx nx nt i) (cy nx nt i) (ct nt i)) <$> seqZ 0 (nx * ny * nt))
      = seqZ 0 (nx * ny * nt)) as Hid.
    { rewrite <- (list_fmap_id (seqZ 0 (nx * ny * nt))) at 2. apply list_fmap_ext.
      intros k i _. symmetry. by apply index_of_coords. }
    cbv beta in Hc. rewrite Hid in Hc. rewrite <- Hc. unfold for_range. rewrite !Z.sub_0_r.
    rewrite <- for_each_bind. apply for_each_ext. intros y a Hy'%elem_of_seqZ.
    rewrite <- for_each_bind. apply for_each_ext. intros x a' Hx'%elem_of_seqZ.
    rewrite for_each_fmap. apply for_each_ext. intros t a'' Ht'%elem_of_seqZ.
    rewrite (to_index_raw_small nx ny nt) by (done || lia).
    pose proof (index_bounds nx ny nt x y t ltac:(lia) ltac:(lia) ltac:(lia)) as Hib.
    rewrite as_u64_small by (unfold in_u64; lia).
    unfold g. destruct (coords_index nx nt x y t) as (-> & -> & _); [lia..|]. done. }
  rewrite Hflat. destruct (for_each_update g (seqZ 0 (nx * ny * nt)) (vi_states vi))
    as (st & -> & Hlen & Hget).
  - apply NoDup_seqZ.
  - intros i Hi%elem_of_seqZ. rewrite (ws_len _ _ _ _ Hst). fold nx ny nt. lia.
  - rewrite ok_bind. eexists. split; [done|].
    match goal with |- wf_vi ?v ∧ _ => assert (goal_set vi v (region_cell vi points radius)) as Hg end.
    { unfold goal_set. cbn. do 6 (split; [done|]). split; [done|]. intros i. rewrite Hget.
      destruct (zget (vi_states vi) i) as [s|] eqn:Hs; [|by case_decide].
      pose proof (zget_Some_lt _ _ _ Hs) as Hr. rewrite (ws_len _ _ _ _ Hst) in Hr.
      rewrite decide_True by (apply elem_of_seqZ; fold nx ny nt in Hr; lia). cbn. f_equal.
      unfold g. f_equal. pose proof (ws_state _ _ _ _ Hst _ _ Hs) as [Hix Hiy Hit E _ _ _].
      rewrite E. fold nx nt. destruct (coords_index nx nt (s_ix s) (s_iy s) (s_it s)) as (-> & -> & _);
        done. }
    split; [by eapply goal_set_wf|exact Hg].
Qed.

Lemma set_goal_region_spec_witness :
  ∃ vi', set_goal_region (corridor 4) [(f1, f0)] f1 = Ok vi' ∧
    s_final_state <$> vi_states vi' = [true; true; false; false].
Proof.
  destruct (set_goal_region_spec (corridor 4) [(f1, f0)] f1) as (vi' & E & _).
  - apply check_vi_ok. reflexivity.
  - exists vi'. split; [exact E|]. vm_compute in E. injection E as <-. reflexivity.
Defined.
