(* ===== verification/Export.v ===== *)
(** * Exports of the field and its status (vi_lib/src/value_iterator.rs)

    The grid-map layers of the value function and of the policy, the occupancy
    rendering of one heading, and the status word. *)

From Stdlib Require Import ZArith Lia.
From stdpp Require Import base gmap strings list numbers.
From S2P Require Import Prelude Floats Model Bellman Original Active.

Record GridLayers : Type := {
  gl_cell_num_x : Z; gl_cell_num_y : Z; gl_cell_num_t : Z; gl_layers : list (list f64)
}.

(** [while (i as usize) < states.len() { layers[t][..] = val; i += nt }] *)
Fixpoint write_layer (fuel : nat) (val : State → res f64) (states : list State)
    (nx nt t i : Z) (layers : list (list f64)) : res (list (list f64)) :=
  match fuel with
  | O => OutOfFuel
  | S fuel =>
      if as_u64 i <? zlen states then
        s ← vget states (as_u64 i);
        v ← val s;
        layer ← vget layers t;
        layer ← vset layer (as_u64 (i32_add (i32_mul (s_iy s) nx) (s_ix s))) v;
        layers ← vset layers t layer;
        write_layer fuel val states nx nt t (i32_add i nt) layers
      else Ok layers
  end.

Definition grid_layers (val : State → res f64) (vi : ValueIterator) : res GridLayers :=
  let '(nx, ny, nt) := (vi_cell_num_x vi, vi_cell_num_y vi, vi_cell_num_t vi) in
  layers ← for_range 0 nt (fun t =>
      write_layer (S (length (vi_states vi))) val (vi_states vi) nx nt t t)
    (vec_repeat (vec_repeat f0 (as_u64 (i32_mul nx ny))) (as_u64 nt));
  Ok {| gl_cell_num_x := nx; gl_cell_num_y := ny; gl_cell_num_t := nt; gl_layers := layers |}.

Definition value_function_writer (vi : ValueIterator) : res GridLayers :=
  grid_layers (fun s => Ok (f64_of_Z (s_total_cost s / PROB_BASE))) vi.

Definition policy_value (actions : list Action) (s : State) : res f64 :=
  match s_optimal_action s with
  | None => Ok (fneg f1)
  | Some ai => a ← vget actions ai; Ok (f64_of_Z (a_id a))
  end.

Definition policy_writer (vi : ValueIterator) : res GridLayers :=
  grid_layers (policy_value (vi_actions vi)) vi.

(** ** [make_value_function_map] *)

Definition f250 : f64 := f64_of_Z 250.

Definition yaw_layer (yaw_rad t_resolution : f64) : Z :=
  let deg := f64_as_i32 (fmul (fdiv yaw_rad PI) f180) in
  f64_as_i32 (ffloor (fdiv (f64_of_Z (Z.rem (i32_add deg (360 * 100)) 360)) t_resolution)).

Definition value_byte (threshold : Z) (s : State) : Z :=
  let cost := fdiv (f64_of_Z (s_total_cost s)) (f64_of_Z PROB_BASE) in
  let val := if flt cost (f64_of_Z threshold)
             then f64_as_i32 (fmul (fdiv cost (f64_of_Z threshold)) f250)
             else if s_free s then 250 else 255 in
  as_i8 (as_u8 val).

Definition make_value_function_map (vi : ValueIterator) (threshold : Z) (yaw_rad : f64)
    : res OccupancyGrid :=
  let '(nx, ny) := (vi_cell_num_x vi, vi_cell_num_y vi) in
  let it := yaw_layer yaw_rad (vi_t_resolution vi) in
  data ← map_res (fun c =>
      s ← vget (vi_states vi) (as_u64 (to_index vi c.2 c.1 it));
      Ok (value_byte threshold s))
    (y ← seqZ 0 ny; (fun x => (y, x)) <$> seqZ 0 nx);
  Ok {| og_width := nx; og_height := ny; og_resolution := vi_xy_resolution vi;
        og_origin_x := vi_map_origin_x vi; og_origin_y := vi_map_origin_y vi;
        og_origin_quat := vi_map_origin_quat vi; og_data := data |}.

(** ** Status *)

Definition set_cancel (vi : ValueIterator) : ValueIterator := with_status vi "canceled".

Definition end_of_trial (vi : ValueIterator) : bool :=
  bool_decide (vi_status vi = "canceled"%string) || bool_decide (vi_status vi = "goal"%string).

Definition set_calculated (vi : ValueIterator) : ValueIterator :=
  if bool_decide (vi_status vi = "canceled"%string) then vi else with_status vi "calculated".

Definition is_calculated (vi : ValueIterator) : bool :=
  bool_decide (vi_status vi = "calculated"%string).

(** A cancellation is not undone by the end of the calculation. *)
Lemma cancel_calculated vi :
  end_of_trial (set_calculated (set_cancel vi)) = true ∧
  is_calculated (set_calculated (set_cancel vi)) = false.
Proof. done. Qed.

Lemma calculated_unless_cancelled vi :
  is_calculated (set_calculated vi) = negb (bool_decide (vi_status vi = "canceled"%string)).
Proof.
  unfold set_calculated, is_calculated.
  destruct (bool_decide (vi_status vi = "canceled"%string)) eqn:E; [|done].
  apply bool_decide_eq_true in E. by rewrite E.
Qed.

(** ** The layers *)

Section layers.
Context (val : State → res f64) (vi : ValueIterator) (Hwf : wf_vi vi).
Context (out : Z → f64).
Context (Hval : ∀ i s, zget (vi_states vi) i = Some s → val s = Ok (out i)).
Let nx := vi_cell_num_x vi.
Let ny := vi_cell_num_y vi.
Let nt := vi_cell_num_t vi.

(** Layer [t] holds [out] at every cell before position [k]. *)
Definition layer_upto (layers : list (list f64)) (t k : Z) : Prop :=
  ∃ l, zget layers t = Some l ∧ zlen l = nx * ny ∧
    ∀ p, 0 ≤ p < k → zget l p = Some (out (t + p * nt)).

Lemma write_layer_spec fuel t k layers :
  0 ≤ t < nt → 0 ≤ k ≤ nx * ny → nx * ny - k < Z.of_nat fuel → layer_upto layers t k →
  t < zlen layers →
  ∃ layers', write_layer fuel val (vi_states vi) nx nt t (t + k * nt) layers = Ok layers' ∧
    layer_upto layers' t (nx * ny) ∧ zlen layers' = zlen layers ∧
    ∀ u, u ≠ t → zget layers' u = zget layers u.
Proof.
  intros Ht. revert k layers. pose proof Hwf as [[Hx Hy Hnt Htot] Hst _].
  fold nx in Hx, Htot. fold ny in Hy, Htot. fold nt in Hnt, Htot.
  pose proof (ws_len _ _ _ _ Hst) as Hlen. fold nx ny nt in Hlen.
  assert (nt < 2 ^ 31) as Hnt31 by nia.
  induction fuel as [|fuel IH]; intros k layers Hk Hf Hup Htl; [lia|].
  assert (0 ≤ k * nt) by nia. assert (k * nt ≤ nx * ny * nt) by nia.
  cbn [write_layer]. rewrite as_u64_small by (unfold in_u64; lia).
  destruct (decide (k = nx * ny)) as [->|].
  { destruct (Z.ltb_spec (t + nx * ny * nt) (zlen (vi_states vi))); [lia|].
    exists layers. done. }
  assert (t + k * nt < nx * ny * nt) by nia.
  destruct (Z.ltb_spec (t + k * nt) (zlen (vi_states vi))); [|lia].
  destruct (zget_lt (vi_states vi) (t + k * nt) ltac:(lia)) as [s Hs].
  rewrite (proj2 (vget_ok _ _ _) Hs), ok_bind, (Hval _ _ Hs), ok_bind.
  destruct Hup as (l & Hl & Hll & Hp). rewrite (proj2 (vget_ok _ _ _) Hl), ok_bind.
  pose proof (ws_state _ _ _ _ Hst _ _ Hs) as [Hix Hiy Hit E _ _ _].
  assert (s_iy s * nx + s_ix s = k) as Hpos.
  { unfold index in E. fold nx nt in E. fold nt in Hit.
    destruct (digit_inj nt (s_iy s * nx + s_ix s) k (s_it s) t) as [? _]; [done|done| |done].
    rewrite E. ring. }
  assert (nx * ny < 2 ^ 31) by nia. assert (0 ≤ s_iy s * nx) by (fold ny in Hiy; nia).
  fold nx in Hix. rewrite i32_mul_small by (unfold in_i32; lia).
  rewrite (i32_add_small (s_iy s * nx)) by (unfold in_i32; lia).
  rewrite as_u64_small by (unfold in_u64; lia). rewrite Hpos.
  rewrite vset_ok by lia. rewrite ok_bind, vset_ok by lia. rewrite ok_bind.
  assert (layer_upto (zset layers t (zset l k (out (t + k * nt)))) t (k + 1)) as Hup'.
  { exists (zset l k (out (t + k * nt))). rewrite zget_zset_eq by lia. split; [done|].
    split; [by rewrite zlen_zset|]. intros p Hpk. rewrite zget_zset by lia.
    case_decide; [by subst|]. apply Hp. lia. }
  set (layers1 := zset layers t _) in *.
  assert (∀ u, u ≠ t → zget layers1 u = zget layers u) as Hoth.
  { intros u Hu. unfold layers1. by apply zget_zset_ne. }
  assert (zlen layers1 = zlen layers) as Hlen1 by apply zlen_zset.
  destruct (decide (k + 1 = nx * ny)) as [Hend|].
  - exists layers1. split; [|split; [by rewrite <- Hend|done]].
    destruct fuel as [|fuel']; [lia|]. cbn [write_layer].
    assert (zlen (vi_states vi) ≤ as_u64 (i32_add (t + k * nt) nt)) as Hge.
    { assert (t + k * nt + nt = t + nx * ny * nt) as Es by (rewrite <- Hend; ring).
      unfold i32_add. rewrite Es. unfold as_u64, wrap_u, wrap_s. rewrite Hlen.
      change (2 ^ (32 - 1)) with (2 ^ 31).
      destruct (Z.lt_ge_cases (t + nx * ny * nt) (2 ^ 31)).
      - rewrite (Z.mod_small (t + nx * ny * nt + 2 ^ 31)) by lia.
        rewrite Z.mod_small by lia. lia.
      - rewrite <- (Z.mod_unique (t + nx * ny * nt + 2 ^ 31) (2 ^ 32) 1 (t + nx * ny * nt - 2 ^ 31)) by lia.
        rewrite <- (Z.mod_unique _ (2 ^ 64) (-1) (t + nx * ny * nt - 2 ^ 32 + 2 ^ 64)) by lia. lia. }
    destruct (Z.ltb_spec (as_u64 (i32_add (t + k * nt) nt)) (zlen (vi_states vi))); [lia|done].
  - assert ((k + 1) * nt ≤ nx * ny * nt) by nia.
    assert (t + (k + 1) * nt < nx * ny * nt).
    { assert ((k + 2) * nt ≤ nx * ny * nt) by (apply Z.mul_le_mono_nonneg_r; lia). lia. }
    rewrite i32_add_small by (unfold in_i32; lia).
    replace (t + k * nt + nt) with (t + (k + 1) * nt) by ring.
    destruct (IH (k + 1) layers1) as (layers' & E' & Hup2 & Hl2 & Hoth2);
      [lia|lia|done|lia|].
    exists layers'. split; [exact E'|]. split; [done|]. split; [lia|].
    intros u Hu. by rewrite Hoth2, Hoth.
Qed.

Lemma grid_layers_spec :
  ∃ g, grid_layers val vi = Ok g ∧ zlen (gl_layers g) = nt ∧
    ∀ t, 0 ≤ t < nt → layer_upto (gl_layers g) t (nx * ny).
Proof.
  pose proof Hwf as [[Hx Hy Hnt Htot] Hst _].
  fold nx in Hx, Htot. fold ny in Hy, Htot. fold nt in Hnt, Htot.
  assert (nx * ny < 2 ^ 31) by nia. assert (0 < nx * ny) by nia. assert (nt < 2 ^ 31) by nia.
  unfold grid_layers. fold nx ny nt. rewrite i32_mul_small by (unfold in_i32; lia).
  rewrite !as_u64_small by (unfold in_u64; lia).
  destruct (for_range_inv (fun t layers => zlen layers = nt ∧
    (∀ u, 0 ≤ u < t → layer_upto layers u (nx * ny)) ∧
    (∀ u, t ≤ u < nt → layer_upto layers u 0)) 0 nt
    (fun t => write_layer (S (length (vi_states vi))) val (vi_states vi) nx nt t t)
    (vec_repeat (vec_repeat f0 (nx * ny)) nt)) as (layers & E & Hl & Hdone & _).
  - lia.
  - split; [apply zlen_repeat; lia|]. split; [lia|]. intros u Hu.
    exists (vec_repeat f0 (nx * ny)). rewrite zget_repeat by lia. split; [done|].
    rewrite zlen_repeat by lia. split; [done|]. lia.
  - intros t layers Ht (Hl & Hdone & Htodo).
    pose proof (ws_len _ _ _ _ Hst) as Hlen. fold nx ny nt in Hlen. unfold zlen in Hlen at 1.
    destruct (write_layer_spec (S (length (vi_states vi))) t 0 layers) as (layers' & E & Hup & Hl' & Hoth).
    + done. + lia. + nia. + apply Htodo. lia. + lia.
    + rewrite Z.mul_0_l, Z.add_0_r in E. exists layers'. split; [exact E|]. split; [lia|].
      assert (∀ u k, u ≠ t → layer_upto layers u k → layer_upto layers' u k) as Hkeep.
      { intros u k Hu (l & Hg & ?). exists l. by rewrite Hoth. }
      split; intros u Hu.
      * destruct (decide (u = t)) as [->|]; [done|]. apply Hkeep; [done|]. apply Hdone. lia.
      * apply Hkeep; [lia|]. apply Htodo. lia.
  - rewrite E, ok_bind. eexists. split; [done|]. split; [done|]. exact Hdone.
Qed.
End layers.

(** ** Properties *)

(** Both grid-map writers terminate without a panic and put the value of
    the cell (x, y, t) at position [y * nx + x] of layer [t]: the value layers
    hold the cost divided by [PROB_BASE] (integer division), the policy layers
    the id of the optimal action or -1. *)
Theorem grid_writers vi :
  let '(nx, ny, nt) := (vi_cell_num_x vi, vi_cell_num_y vi, vi_cell_num_t vi) in
  wf_vi vi →
  (∀ i s a, zget (vi_states vi) i = Some s → s_optimal_action s = Some a →
     0 ≤ a < zlen (vi_actions vi)) →
  ∃ gv gp, value_function_writer vi = Ok gv ∧ policy_writer vi = Ok gp ∧
    ∀ i s, zget (vi_states vi) i = Some s →
      ∃ lv lp, zget (gl_layers gv) (s_it s) = Some lv ∧ zget (gl_layers gp) (s_it s) = Some lp ∧
        zget lv (s_iy s * nx + s_ix s) = Some (f64_of_Z (s_total_cost s / PROB_BASE)) ∧
        zget lp (s_iy s * nx + s_ix s) = Some match s_optimal_action s with
          | None => fneg f1
          | Some a => f64_of_Z (default 0 (a_id <$> zget (vi_actions vi) a)) end.
Proof.
  cbv zeta. intros Hwf Hpol. pose proof Hwf as [[Hx Hy Hnt Htot] Hst _].
  set (outv := fun i => f64_of_Z (default 0 (s_total_cost <$> zget (vi_states vi) i) / PROB_BASE)).
  set (outp := fun i => match zget (vi_states vi) i ≫= s_optimal_action with
    | None => fneg f1 | Some a => f64_of_Z (default 0 (a_id <$> zget (vi_actions vi) a)) end).
  destruct (grid_layers_spec (fun s => Ok (f64_of_Z (s_total_cost s / PROB_BASE))) vi Hwf outv)
    as (gv & Ev & _ & Hv).
  { intros i s Hs. unfold outv. by rewrite Hs. }
  destruct (grid_layers_spec (policy_value (vi_actions vi)) vi Hwf outp) as (gp & Ep & _ & Hp).
  { intros i s Hs. unfold outp, policy_value. rewrite Hs. cbn [mbind option_bind].
    destruct (s_optimal_action s) as [a|] eqn:Ea; [|done].
    destruct (zget_lt (vi_actions vi) a) as [b Hb]; [by eapply Hpol|].
    rewrite (proj2 (vget_ok _ _ _) Hb), ok_bind, Hb. done. }
  exists gv, gp. split; [exact Ev|]. split; [exact Ep|]. intros i s Hs.
  pose proof (ws_state _ _ _ _ Hst _ _ Hs) as [Hix Hiy Hit E _ _ _].
  destruct (Hv (s_it s) Hit) as (lv & Hlv & _ & Hgv). destruct (Hp (s_it s) Hit) as (lp & Hlp & _ & Hgp).
  exists lv, lp. split; [done|]. split; [done|].
  assert (0 ≤ s_iy s * vi_cell_num_x vi + s_ix s < vi_cell_num_x vi * vi_cell_num_y vi) as Hr by nia.
  assert (s_it s + (s_iy s * vi_cell_num_x vi + s_ix s) * vi_cell_num_t vi = i) as Ei.
  { rewrite E. unfold index. ring. }
  rewrite Hgv, Hgp by done. unfold outv, outp. rewrite !Ei, Hs. done.
Qed.

Lemma grid_writers_witness :
  ∃ gv gp, value_function_writer (corridor 2) = Ok gv ∧ policy_writer (corridor 2) = Ok gp ∧
    gl_layers gv = [[f0; f64_of_Z 1000000000]] ∧ gl_layers gp = [[fneg f1; fneg f1]].
Proof.
  destruct (grid_writers (corridor 2)) as (gv & gp & Ev & Ep & _).
  - apply check_vi_ok. reflexivity.
  - intros i s a Hs Ha. exfalso. unfold zget in Hs. case_decide; [|done].
    destruct (Z.to_nat i) as [|[|n]]; [injection Hs as <-; done|injection Hs as <-; done|done].
  - exists gv, gp. split; [exact Ev|]. split; [exact Ep|].
    vm_compute in Ev, Ep. injection Ev as <-. injection Ep as <-. split; reflexivity.
Defined.

(** Rendering a heading never panics when the heading of the given yaw is
    one of the field's; cell (x, y) of the picture depends on the cost and the
    occupancy of its state alone, the unreached free cells are -6 (250 as a
    signed byte) and the unreached occupied ones -1 (255). *)
Theorem make_value_function_map_spec vi threshold yaw :
  let '(nx, ny, nt) := (vi_cell_num_x vi, vi_cell_num_y vi, vi_cell_num_t vi) in
  let it := yaw_layer yaw (vi_t_resolution vi) in
  wf_vi vi → 0 ≤ it < nt →
  ∃ g, make_value_function_map vi threshold yaw = Ok g ∧
    og_width g = nx ∧ og_height g = ny ∧ zlen (og_data g) = nx * ny ∧
    ∀ x y, 0 ≤ x < nx → 0 ≤ y < ny →
      ∃ s, zget (vi_states vi) (index nx nt x y it) = Some s ∧
        zget (og_data g) (y * nx + x) = Some (value_byte threshold s) ∧
        (flt (fdiv (f64_of_Z (s_total_cost s)) (f64_of_Z PROB_BASE)) (f64_of_Z threshold) = false →
         value_byte threshold s = if s_free s then -6 else -1).
Proof.
  cbv zeta. intros Hwf Hit. pose proof Hwf as [Hd Hst _]. pose proof Hd as [Hx Hy Hnt Htot].
  set (nx := vi_cell_num_x vi) in *. set (ny := vi_cell_num_y vi) in *. set (nt := vi_cell_num_t vi) in *.
  set (it := yaw_layer yaw (vi_t_resolution vi)) in *. unfold make_value_function_map. fold nx ny it.
  assert ((y ← seqZ 0 ny; (fun x => (y, x)) <$> seqZ 0 nx)
    = (fun i => (i / nx, i mod nx)) <$> seqZ 0 (ny * nx)) as ->.
  { rewrite <- seqZ_mul by lia. rewrite list_fmap_bind_r. apply list_bind_ext_mem. intros y _.
    rewrite <- list_fmap_compose. apply list_fmap_ext. intros k x Hk%list_elem_of_lookup_2.
    apply elem_of_seqZ in Hk. cbn. f_equal.
    - apply (Z.div_unique _ _ _ x); lia.
    - apply (Z.mod_unique _ _ y); lia. }
  destruct (map_res_spec (fun c => s ← vget (vi_states vi) (as_u64 (to_index vi c.2 c.1 it));
      Ok (value_byte threshold s))
    (fun c b => ∃ s, zget (vi_states vi) (index nx nt c.2 c.1 it) = Some s ∧ b = value_byte threshold s)
    ((fun i => (i / nx, i mod nx)) <$> seqZ 0 (ny * nx))) as (data & -> & Hl & Hdata).
  - intros c (i & -> & Hi%elem_of_seqZ)%list_elem_of_fmap. cbn [fst snd].
    pose proof (Z.mod_pos_bound i nx Hx).
    assert (0 ≤ i / nx < ny) by (split; [apply Z.div_pos; lia|apply Z.div_lt_upper_bound; lia]).
    destruct (ws_get _ _ _ _ (i mod nx) (i / nx) it Hst) as (s & Hs & _); [done..|].
    fold nx nt in Hs. unfold to_index. fold nx nt. rewrite (to_index_raw_small nx ny nt) by done.
    pose proof (index_bounds nx ny nt (i mod nx) (i / nx) it ltac:(lia) ltac:(lia) Hit).
    rewrite as_u64_small by (unfold in_u64; lia).
    rewrite (proj2 (vget_ok _ _ _) Hs), ok_bind. eexists. split; [done|]. by exists s.
  - rewrite ok_bind. eexists. split; [done|]. cbn. split; [done|]. split; [done|]. split.
    { rewrite Hl, zlen_fmap. unfold zlen. rewrite length_seqZ. nia. }
    intros x y Hx' Hy'.
    destruct (Hdata (y * nx + x) (y, x)) as (b & Hb & s & Hs & ->).
    { rewrite zget_fmap. unfold zget. assert (0 ≤ y * nx + x < ny * nx) by nia.
      rewrite decide_True by lia. rewrite lookup_seqZ_lt by lia. cbn. do 2 f_equal.
      - symmetry. apply (Z.div_unique _ _ _ x); lia.
      - symmetry. apply (Z.mod_unique _ _ y); lia. }
    exists s. split; [done|]. split; [done|]. intros Hf. unfold value_byte. rewrite Hf.
    by destruct (s_free s).
Qed.

Lemma make_value_function_map_spec_witness :
  ∃ g, make_value_function_map (corridor 3) 10 f0 = Ok g ∧ og_data g = [0; -6; -6].
Proof.
  destruct (make_value_function_map_spec (corridor 3) 10 f0) as (g & E & _).
  - apply check_vi_ok. reflexivity.
  - vm_compute. split; [discriminate|reflexivity].
  - exists g. split; [exact E|]. vm_compute in E. injection E as <-. reflexivity.
Defined.

(** With 7 headings of 51 degrees, a yaw of 359 degrees falls in an eighth. *)
Example make_value_function_map_panics :
  yaw_layer (fmul (fdiv (f64_of_Z 359) f180) PI) (f64_of_Z (Z.quot 360 7)) = 7 ∧
  make_value_function_map
    (mkVI ((fun t => mkState MAX_COST PROB_BASE 0 0 0 t true false None) <$> seqZ 0 7) [] [] ∅ "init"
       f0 f0 f0 0 0 1 f1 (f64_of_Z (Z.quot 360 7)) 1 1 7 f0 f0 quat_default)
    10 (fmul (fdiv (f64_of_Z 359) f180) PI) = Panic.
Proof. split; reflexivity. Qed.
