(* ===== verification/Distance.v ===== *)
(** * The distance field of the local planner ([dist_linf] of vi_lib/src/local.rs)

    Two raster passes over the grid give every cell its exact L-infinity
    distance to the nearest obstacle, capped at [u16::MAX]. *)

From Stdlib Require Import ZArith Lia.
From stdpp Require Import base list numbers.
From S2P Require Import Prelude.

Definition U16_MAX : Z := 2 ^ 16 - 1.
Definition u16_sat_add (a b : Z) : Z := Z.min U16_MAX (a + b).

(** [v = v.min(d[j].saturating_add(1))] *)
Definition relax (d : list Z) (j v : Z) : res Z := x ← vget d j; Ok (Z.min v (u16_sat_add x 1)).

(** [if c { body }] on a variable *)
Definition when (c : bool) (body : Z → res Z) (v : Z) : res Z := if c then body v else Ok v.

Definition forward_cell (nx iy ix : Z) (d : list Z) : res (list Z) :=
  let i := iy * nx + ix in
  v ← vget d i;
  v ← when (ix >? 0) (relax d (i - 1)) v;
  v ← when (iy >? 0) (fun v =>
        v ← relax d (i - nx) v;
        v ← when (ix >? 0) (relax d (i - nx - 1)) v;
        when (ix + 1 <? nx) (relax d (i - nx + 1)) v) v;
  vset d i v.

Definition backward_cell (nx ny iy ix : Z) (d : list Z) : res (list Z) :=
  let i := iy * nx + ix in
  v ← vget d i;
  v ← when (ix + 1 <? nx) (relax d (i + 1)) v;
  v ← when (iy + 1 <? ny) (fun v =>
        v ← relax d (i + nx) v;
        v ← when (ix + 1 <? nx) (relax d (i + nx + 1)) v;
        when (ix >? 0) (relax d (i + nx - 1)) v) v;
  vset d i v.

(** [for i in (0..n).rev()] *)
Definition for_rev {A} (n : Z) (body : Z → A → res A) (a : A) : res A :=
  for_each (reverse (seqZ 0 n)) body a.

Definition dist_linf (nx ny : Z) (is_obstacle : Z → Z → res bool) : res (list Z) :=
  let nx := Z.max nx 0 in
  let ny := Z.max ny 0 in
  if (nx =? 0) || (ny =? 0) then Ok [] else
  d ← for_range 0 ny (fun iy d => for_range 0 nx (fun ix d =>
        o ← is_obstacle ix iy;
        if (o : bool) then vset d (iy * nx + ix) 0 else Ok d) d) (vec_repeat U16_MAX (nx * ny));
  d ← for_range 0 ny (fun iy d => for_range 0 nx (forward_cell nx iy) d) d;
  for_rev ny (fun iy d => for_rev nx (backward_cell nx ny iy) d) d.

(** One obstacle in the corner of a 4 by 3 grid. *)
Example dist_corner :
  dist_linf 4 3 (fun x y => Ok ((x =? 0) && (y =? 0))) = Ok [0; 1; 2; 3; 1; 1; 2; 3; 2; 2; 2; 3].
Proof. reflexivity. Qed.

Example dist_none : dist_linf 2 1 (fun _ _ => Ok false) = Ok [U16_MAX; U16_MAX].
Proof. reflexivity. Qed.

(** ** The distance *)

Definition cheb (x y ox oy : Z) : Z := Z.max (Z.abs (x - ox)) (Z.abs (y - oy)).

Section dist.
Context (nx ny : Z) (Hnx : 0 < nx) (Hny : 0 < ny) (obs : Z → Z → bool).

Definition in_grid (x y : Z) : Prop := 0 ≤ x < nx ∧ 0 ≤ y < ny.

Definition grid_cells : list (Z * Z) := y ← seqZ 0 ny; (fun x => (x, y)) <$> seqZ 0 nx.

Lemma elem_of_grid p : p ∈ grid_cells ↔ in_grid p.1 p.2.
Proof.
  unfold grid_cells, in_grid. rewrite list_elem_of_bind. split.
  - intros (y & (x & -> & Hx%elem_of_seqZ)%list_elem_of_fmap & Hy%elem_of_seqZ). cbn. lia.
  - intros [Hx Hy]. exists p.2. split; [|apply elem_of_seqZ; lia]. apply list_elem_of_fmap. exists p.1.
    split; [by destruct p|apply elem_of_seqZ; lia].
Qed.

(** The distance to the nearest obstacle, capped. *)
Definition nearest (x y : Z) : Z :=
  foldr (fun p v => if obs p.1 p.2 then Z.min (cheb x y p.1 p.2) v else v) U16_MAX grid_cells.

Lemma nearest_spec x y :
  (0 ≤ nearest x y ≤ U16_MAX) ∧
  (∀ ox oy, in_grid ox oy → obs ox oy = true → nearest x y ≤ cheb x y ox oy) ∧
  (nearest x y = U16_MAX ∨
   ∃ ox oy, in_grid ox oy ∧ obs ox oy = true ∧ nearest x y = cheb x y ox oy).
Proof.
  unfold nearest.
  assert (∀ l, let v := foldr (fun p v => if obs p.1 p.2 then Z.min (cheb x y p.1 p.2) v else v) U16_MAX l in
    0 ≤ v ≤ U16_MAX ∧ (∀ p, p ∈ l → obs p.1 p.2 = true → v ≤ cheb x y p.1 p.2) ∧
    (v = U16_MAX ∨ ∃ p, p ∈ l ∧ obs p.1 p.2 = true ∧ v = cheb x y p.1 p.2)) as H.
  { induction l as [|p l IH]; cbn.
    { split; [unfold U16_MAX; lia|]. split; [by intros ? ?%elem_of_nil|by left]. }
    cbn zeta in IH. set (v := foldr _ _ _) in *. destruct IH as (H0 & H1 & H2).
    destruct (obs p.1 p.2) eqn:E.
    - split; [unfold cheb; lia|]. split.
      + intros q [->|Hq]%elem_of_cons Ho; [lia|]. specialize (H1 q Hq Ho). lia.
      + destruct (Z.min_spec (cheb x y p.1 p.2) v) as [[_ ->]|[_ ->]].
        * right. exists p. split; [left|done].
        * destruct H2 as [?|(q & Hq & ? & ?)]; [by left|right]. exists q. split; [by right|done].
    - split; [done|]. split.
      + intros q [->|Hq]%elem_of_cons Ho; [congruence|by apply H1].
      + destruct H2 as [?|(q & Hq & ? & ?)]; [by left|right]. exists q. split; [by right|done]. }
  destruct (H grid_cells) as (H0 & H1 & H2). split; [done|]. split.
  - intros ox oy Hin Ho. apply (H1 (ox, oy)); [by apply elem_of_grid|done].
  - destruct H2 as [?|([ox oy] & Hq & ? & ?)]; [by left|right]. exists ox, oy.
    split; [by apply elem_of_grid in Hq|done].
Qed.

Lemma nearest_step x y x' y' :
  Z.abs (x - x') ≤ 1 → Z.abs (y - y') ≤ 1 → nearest x y ≤ nearest x' y' + 1.
Proof.
  intros Hx Hy. destruct (nearest_spec x y) as (Hr & Hle & _).
  destruct (nearest_spec x' y') as (_ & _ & [->|(ox & oy & Hin & Ho & ->)]); [lia|].
  specialize (Hle ox oy Hin Ho). unfold cheb in *. lia.
Qed.

Lemma nearest_obstacle x y : in_grid x y → obs x y = true → nearest x y = 0.
Proof.
  intros Hin Ho. destruct (nearest_spec x y) as (Hr & Hle & _). specialize (Hle x y Hin Ho).
  unfold cheb in Hle. lia.
Qed.

(** ** A raster pass, in loop coordinates

    [pos x y] is the index the loop visits at row [y] and column [x] of its own
    order; its neighbours come before it. *)

Definition earlier (x y x' y' : Z) : Prop :=
  in_grid x' y' ∧ ((y' = y ∧ x' = x - 1) ∨ (y' = y - 1 ∧ Z.abs (x' - x) ≤ 1)).

Definition val (d : list Z) (i : Z) : Z := default 0 (zget d i).

Section pass.
Context (pos : Z → Z → Z) (near : Z → Z → Z) (body : Z → Z → list Z → res (list Z)).
Context (Hpos : ∀ x y, in_grid x y → 0 ≤ pos x y < nx * ny).
Context (Hinj : ∀ x y x' y', in_grid x y → in_grid x' y' → pos x y = pos x' y' → x = x' ∧ y = y').
Context (Hnear : ∀ x y x' y', Z.abs (x - x') ≤ 1 → Z.abs (y - y') ≤ 1 → near x y ≤ near x' y' + 1).
Context (Hmax : ∀ x y, near x y ≤ U16_MAX).
Context (Hbody : ∀ x y d, in_grid x y → zlen d = nx * ny → ∃ v, body y x d = Ok (zset d (pos x y) v) ∧
  v ≤ val d (pos x y) ∧ (∀ x' y', earlier x y x' y' → v ≤ val d (pos x' y') + 1) ∧
  (∀ b, b ≤ U16_MAX → b ≤ val d (pos x y) →
     (∀ x' y', earlier x y x' y' → b ≤ val d (pos x' y') + 1) → b ≤ v)).

Definition done_before (x y x' y' : Z) : Prop := y' < y ∨ (y' = y ∧ x' < x).

Record pass_inv (d0 : list Z) (y x : Z) (d : list Z) : Prop := {
  pi_len : zlen d = nx * ny;
  pi_bounds : ∀ x' y', in_grid x' y' → near x' y' ≤ val d (pos x' y') ≤ val d0 (pos x' y');
  pi_done : ∀ x' y' x2 y2, in_grid x' y' → done_before x y x' y' → earlier x' y' x2 y2 →
    val d (pos x' y') ≤ val d (pos x2 y2) + 1
}.

Lemma val_zset d i j v : 0 ≤ i < zlen d → val (zset d i v) j = if decide (i = j) then v else val d j.
Proof. intros Hi. unfold val. rewrite zget_zset by done. by case_decide. Qed.

Lemma pass_cell d0 x y d :
  in_grid x y → pass_inv d0 y x d → ∃ d', body y x d = Ok d' ∧ pass_inv d0 y (x + 1) d'.
Proof.
  intros Hin [Hl Hb Hd]. destruct (Hbody x y d Hin Hl) as (v & E & Hv & Hnb & Hlow).
  exists (zset d (pos x y) v). split; [done|].
  assert (∀ x' y', in_grid x' y' → val (zset d (pos x y) v) (pos x' y')
    = if decide (x' = x ∧ y' = y) then v else val d (pos x' y')) as Hval.
  { intros x' y' Hin'. rewrite val_zset by (rewrite Hl; by apply Hpos).
    destruct (decide (x' = x ∧ y' = y)) as [[-> ->]|Hne]; [by rewrite decide_True|].
    rewrite decide_False; [done|]. intros Ep. apply Hinj in Ep as [<- <-]; [|done..]. by apply Hne. }
  split.
  - by rewrite zlen_zset.
  - intros x' y' Hin'. rewrite Hval by done. case_decide as Hc; [|by apply Hb].
    destruct Hc as [-> ->]. split; [|by etransitivity; [|apply Hb]].
    apply Hlow; [done|by apply Hb|]. intros x2 y2 He. pose proof He as [Hin2 Hpos2].
    pose proof (Hb x2 y2 Hin2). pose proof (Hnear x y x2 y2 ltac:(lia) ltac:(lia)). lia.
  - intros x' y' x2 y2 Hin' Hbef He. pose proof He as [Hin2 Hpos2]. unfold done_before in Hbef.
    rewrite !Hval by done. destruct (decide (x2 = x ∧ y2 = y)) as [Hc2|_]; [lia|].
    case_decide as Hc; [destruct Hc as [-> ->]; by apply Hnb|].
    apply Hd; [done| |done]. unfold done_before. lia.
Qed.

Lemma pass_spec d0 :
  zlen d0 = nx * ny → (∀ x y, in_grid x y → near x y ≤ val d0 (pos x y)) →
  ∃ d, for_range 0 ny (fun y d => for_range 0 nx (body y) d) d0 = Ok d ∧ zlen d = nx * ny ∧
    (∀ x y, in_grid x y → near x y ≤ val d (pos x y) ≤ val d0 (pos x y)) ∧
    ∀ x y x' y', in_grid x y → earlier x y x' y' → val d (pos x y) ≤ val d (pos x' y') + 1.
Proof.
  intros Hl Hlow.
  destruct (for_range_inv (fun y d => pass_inv d0 y 0 d) 0 ny
    (fun y d => for_range 0 nx (body y) d) d0) as (d & E & [Hl' Hb Hd]); [lia| | |].
  - split; [done|intros x y Hin; split; [by apply Hlow|done]|].
    intros x' y' x2 y2 Hin Hbef. unfold done_before, in_grid in *. lia.
  - intros y d Hy Hi. destruct (for_range_inv (fun x d => pass_inv d0 y x d) 0 nx (body y) d)
      as (d' & E & [Hl' Hb Hd]); [lia|done| |].
    + intros x d1 Hx H1. apply pass_cell; [by split|done].
    + exists d'. split; [done|]. split; [done|done|]. intros x' y' x2 y2 Hin Hbef He.
      apply Hd; [done| |done]. unfold done_before, in_grid in *. lia.
  - exists d. split; [done|]. split; [done|]. split; [done|].
    intros x y x' y' Hin He. apply Hd; [done| |done]. unfold done_before, in_grid in *. lia.
Qed.
End pass.

(** ** The two passes *)

Definition fpos (x y : Z) : Z := y * nx + x.
Definition bpos (x y : Z) : Z := fpos (nx - 1 - x) (ny - 1 - y).

Lemma fpos_range x y : in_grid x y → 0 ≤ fpos x y < nx * ny.
Proof. unfold in_grid, fpos. nia. Qed.

Lemma fpos_inj x y x' y' : in_grid x y → in_grid x' y' → fpos x y = fpos x' y' → x = x' ∧ y = y'.
Proof.
  unfold in_grid, fpos. intros H H' E. destruct (digit_eq nx y y' x x'); lia.
Qed.

Lemma reflect_grid x y : in_grid x y → in_grid (nx - 1 - x) (ny - 1 - y).
Proof. unfold in_grid. lia. Qed.

Lemma bpos_inj x y x' y' : in_grid x y → in_grid x' y' → bpos x y = bpos x' y' → x = x' ∧ y = y'.
Proof.
  intros H H' E. apply fpos_inj in E; [lia|by apply reflect_grid..].
Qed.

Lemma relax_val d j v : 0 ≤ j < zlen d → relax d j v = Ok (Z.min v (u16_sat_add (val d j) 1)).
Proof.
  intros Hj. unfold relax, val. destruct (zget_lt _ _ Hj) as [x Hx].
  by rewrite Hx, (proj2 (vget_ok _ _ _) Hx).
Qed.

Lemma vget_val d i : 0 ≤ i < zlen d → vget d i = Ok (val d i).
Proof.
  intros Hi. unfold val. destruct (zget_lt _ _ Hi) as [x Hx]. by rewrite Hx, (proj2 (vget_ok _ _ _) Hx).
Qed.

(** Visiting the earlier neighbours of a cell. *)
Lemma earlier_cases (Q : Z → Z → Prop) x y :
  in_grid x y → (0 < x → Q (x - 1) y) → (0 < y → Q x (y - 1)) → (0 < y → 0 < x → Q (x - 1) (y - 1)) →
  (0 < y → x + 1 < nx → Q (x + 1) (y - 1)) → ∀ x' y', earlier x y x' y' → Q x' y'.
Proof.
  intros Hin H1 H2 H3 H4 x' y' [[Hx' Hy'] [[-> ->]|[-> Hx]]]; [apply H1; lia|].
  assert (x' = x ∨ x' = x - 1 ∨ x' = x + 1) as [->|[->| ->]] by lia; [apply H2|apply H3|apply H4]; lia.
Qed.

Lemma forward_body x y d :
  in_grid x y → zlen d = nx * ny → ∃ v, forward_cell nx y x d = Ok (zset d (fpos x y) v) ∧
    v ≤ val d (fpos x y) ∧ (∀ x' y', earlier x y x' y' → v ≤ val d (fpos x' y') + 1) ∧
    (∀ b, b ≤ U16_MAX → b ≤ val d (fpos x y) →
       (∀ x' y', earlier x y x' y' → b ≤ val d (fpos x' y') + 1) → b ≤ v).
Proof.
  intros Hin Hl. pose proof (fpos_range x y Hin) as Hr. pose proof Hin as [Hx Hy].
  assert (∀ x' y', in_grid x' y' → ∀ i v, i = fpos x' y' →
    relax d i v = Ok (Z.min v (u16_sat_add (val d (fpos x' y')) 1))) as Hrelax.
  { intros x' y' Hin' i v ->. apply relax_val. rewrite Hl. by apply fpos_range. }
  unfold forward_cell. fold (fpos x y). rewrite vget_val, ok_bind by lia. unfold when.
  rewrite !Z.gtb_ltb.
  destruct (Z.ltb_spec 0 x) as [Hx0|Hx0]; [rewrite (Hrelax (x - 1) y) by (unfold in_grid, fpos; lia)|];
  rewrite ok_bind;
  (destruct (Z.ltb_spec 0 y) as [Hy0|Hy0];
    [rewrite (Hrelax x (y - 1)) by (unfold in_grid, fpos; lia); rewrite ok_bind|]);
  try (rewrite (Hrelax (x - 1) (y - 1)) by (unfold in_grid, fpos; lia); rewrite ok_bind);
  try rewrite ok_bind;
  try (destruct (Z.ltb_spec (x + 1) nx) as [Hx1|Hx1];
    [rewrite (Hrelax (x + 1) (y - 1)) by (unfold in_grid, fpos; lia)|]);
  rewrite ?ok_bind, vset_ok by lia; (eexists; split; [done|]); unfold u16_sat_add;
  (split; [lia|]); (split; [apply (earlier_cases (fun x' y' => _ ≤ val d (fpos x' y') + 1)); [done|lia..]|]);
  intros b Hb Hv Hnb; pose proof (fun H => Hnb (x - 1) y H); pose proof (fun H => Hnb x (y - 1) H);
  pose proof (fun H => Hnb (x - 1) (y - 1) H); pose proof (fun H => Hnb (x + 1) (y - 1) H);
  unfold earlier, in_grid in *; lia.
Qed.

Lemma backward_body x y d :
  in_grid x y → zlen d = nx * ny →
  ∃ v, backward_cell nx ny (ny - 1 - y) (nx - 1 - x) d = Ok (zset d (bpos x y) v) ∧
    v ≤ val d (bpos x y) ∧ (∀ x' y', earlier x y x' y' → v ≤ val d (bpos x' y') + 1) ∧
    (∀ b, b ≤ U16_MAX → b ≤ val d (bpos x y) →
       (∀ x' y', earlier x y x' y' → b ≤ val d (bpos x' y') + 1) → b ≤ v).
Proof.
  intros Hin Hl. pose proof (fpos_range _ _ (reflect_grid x y Hin)) as Hr. fold (bpos x y) in Hr.
  pose proof Hin as [Hx Hy].
  assert (∀ x' y', in_grid x' y' → ∀ i v, i = bpos x' y' →
    relax d i v = Ok (Z.min v (u16_sat_add (val d (bpos x' y')) 1))) as Hrelax.
  { intros x' y' Hin' i v ->. apply relax_val. rewrite Hl. by apply fpos_range, reflect_grid. }
  unfold backward_cell. fold (fpos (nx - 1 - x) (ny - 1 - y)). fold (bpos x y).
  rewrite vget_val, ok_bind by lia. unfold when. rewrite !Z.gtb_ltb.
  destruct (Z.ltb_spec (nx - 1 - x + 1) nx) as [Hx0|Hx0];
    [rewrite (Hrelax (x - 1) y) by (unfold in_grid, bpos, fpos; lia)|];
  rewrite ok_bind;
  (destruct (Z.ltb_spec (ny - 1 - y + 1) ny) as [Hy0|Hy0];
    [rewrite (Hrelax x (y - 1)) by (unfold in_grid, bpos, fpos; lia); rewrite ok_bind|]);
  try (rewrite (Hrelax (x - 1) (y - 1)) by (unfold in_grid, bpos, fpos; lia); rewrite ok_bind);
  try rewrite ok_bind;
  try (destruct (Z.ltb_spec 0 (nx - 1 - x)) as [Hx1|Hx1];
    [rewrite (Hrelax (x + 1) (y - 1)) by (unfold in_grid, bpos, fpos; lia)|]);
  rewrite ?ok_bind, vset_ok by lia; (eexists; split; [done|]); unfold u16_sat_add;
  (split; [lia|]); (split; [apply (earlier_cases (fun x' y' => _ ≤ val d (bpos x' y') + 1)); [done|lia..]|]);
  intros b Hb Hv Hnb; pose proof (fun H => Hnb (x - 1) y H); pose proof (fun H => Hnb x (y - 1) H);
  pose proof (fun H => Hnb (x - 1) (y - 1) H); pose proof (fun H => Hnb (x + 1) (y - 1) H);
  unfold earlier, in_grid in *; lia.
Qed.

Lemma for_rev_range {A} n (body : Z → A → res A) a :
  0 ≤ n → for_rev n body a = for_range 0 n (fun k => body (n - 1 - k)) a.
Proof.
  intros Hn. unfold for_rev, for_range. rewrite Z.sub_0_r.
  assert (reverse (seqZ 0 n) = (fun k => n - 1 - k) <$> seqZ 0 n) as ->; [|apply for_each_fmap].
  apply list_eq. intros i. destruct (decide (i < Z.to_nat n)%nat) as [Hi|Hi].
  - rewrite reverse_lookup by (rewrite length_seqZ; lia). rewrite length_seqZ, list_lookup_fmap.
    rewrite !lookup_seqZ_lt by lia. cbn. f_equal. lia.
  - rewrite !lookup_ge_None_2; [done|rewrite length_fmap, length_seqZ; lia|].
    rewrite length_reverse, length_seqZ. lia.
Qed.

(** ** The result *)

(** Along the moves of the first pass. *)
Lemma forward_reach d x y ox oy :
  (∀ x y x' y', in_grid x y → earlier x y x' y' → val d (fpos x y) ≤ val d (fpos x' y') + 1) →
  val d (fpos ox oy) ≤ 0 → in_grid x y → in_grid ox oy → 0 ≤ y - oy → - (y - oy) ≤ x - ox →
  val d (fpos x y) ≤ cheb x y ox oy.
Proof.
  intros Hstep Ho. remember (Z.to_nat (cheb x y ox oy)) as n eqn:En. revert x y En.
  induction n as [|n IH]; intros x y En Hin Hino Hy Hx.
  { assert (x = ox ∧ y = oy) as [-> ->] by (unfold cheb in *; lia). unfold cheb. lia. }
  assert (∃ x' y', earlier x y x' y' ∧ cheb x' y' ox oy = cheb x y ox oy - 1 ∧
    0 ≤ y' - oy ∧ - (y' - oy) ≤ x' - ox) as (x' & y' & He & Hc & Hy' & Hx').
  { unfold earlier, in_grid, cheb in *. destruct (decide (y = oy)) as [->|].
    - exists (x - 1), oy. lia.
    - destruct (Z.lt_trichotomy (x - ox) 0) as [?|[?|?]].
      + exists (x + 1), (y - 1). lia.
      + exists x, (y - 1). lia.
      + exists (x - 1), (y - 1). lia. }
  specialize (Hstep x y x' y' Hin He).
  specialize (IH x' y' ltac:(unfold cheb in *; lia) (proj1 He) Hino Hy' Hx'). lia.
Qed.

(** Along the moves of the second pass, then of the first. *)
Lemma backward_reach d x y ox oy :
  (∀ x y x' y', in_grid x y → earlier x y x' y' → val d (bpos x y) ≤ val d (bpos x' y') + 1) →
  (∀ x y, in_grid x y → 0 ≤ y - oy → - (y - oy) ≤ x - ox → val d (fpos x y) ≤ cheb x y ox oy) →
  in_grid x y → in_grid ox oy → val d (fpos x y) ≤ cheb x y ox oy.
Proof.
  intros Hstep Hfwd. remember (Z.to_nat (cheb x y ox oy)) as n eqn:En. revert x y En.
  induction n as [|n IH]; intros x y En Hin Hino.
  { apply Hfwd; [done|unfold cheb in *; lia..]. }
  destruct (decide (0 ≤ y - oy ∧ - (y - oy) ≤ x - ox)) as [[? ?]|Hno]; [by apply Hfwd|].
  assert (∃ x' y', in_grid x' y' ∧ cheb x' y' ox oy = cheb x y ox oy - 1 ∧
    earlier (nx - 1 - x) (ny - 1 - y) (nx - 1 - x') (ny - 1 - y')) as (x' & y' & Hin' & Hc & He).
  { unfold earlier, in_grid, cheb in *. destruct (decide (0 ≤ y - oy)).
    - exists (x + 1), y. lia.
    - destruct (Z.lt_trichotomy (x - ox) 0) as [?|[?|?]].
      + exists (x + 1), (y + 1). lia.
      + exists x, (y + 1). lia.
      + exists (x - 1), (y + 1). lia. }
  specialize (Hstep _ _ _ _ (reflect_grid _ _ Hin) He). unfold bpos in Hstep.
  replace (nx - 1 - (nx - 1 - x)) with x in Hstep by lia.
  replace (ny - 1 - (ny - 1 - y)) with y in Hstep by lia.
  replace (nx - 1 - (nx - 1 - x')) with x' in Hstep by lia.
  replace (ny - 1 - (ny - 1 - y')) with y' in Hstep by lia.
  specialize (IH x' y' ltac:(unfold cheb in *; lia) Hin' Hino). lia.
Qed.

(** The marks of the obstacles. *)
Lemma marks_spec (is_obstacle : Z → Z → res bool) :
  (∀ x y, in_grid x y → is_obstacle x y = Ok (obs x y)) →
  ∃ d, for_range 0 ny (fun iy d => for_range 0 nx (fun ix d =>
      o ← is_obstacle ix iy;
      if (o : bool) then vset d (iy * nx + ix) 0 else Ok d) d) (vec_repeat U16_MAX (nx * ny)) = Ok d ∧
    zlen d = nx * ny ∧ ∀ x y, in_grid x y → val d (fpos x y) = if obs x y then 0 else U16_MAX.
Proof.
  intros Hobs.
  set (marked := fun x y d => zlen d = nx * ny ∧ ∀ x' y', in_grid x' y' →
    val d (fpos x' y') = if decide (done_before x y x' y') then (if obs x' y' then 0 else U16_MAX) else U16_MAX).
  destruct (for_range_inv (fun y d => marked 0 y d) 0 ny (fun iy d => for_range 0 nx (fun ix d =>
      o ← is_obstacle ix iy;
      if (o : bool) then vset d (iy * nx + ix) 0 else Ok d) d) (vec_repeat U16_MAX (nx * ny)))
    as (d & E & Hl & Hv); [lia| | |].
  - split; [apply zlen_repeat; nia|]. intros x' y' Hin. unfold val.
    rewrite zget_repeat by (by apply fpos_range). rewrite decide_False; [done|].
    unfold done_before, in_grid in *. lia.
  - intros y d Hy [Hl Hv]. destruct (for_range_inv (fun x d => marked x y d) 0 nx (fun ix d =>
      o ← is_obstacle ix y;
      if (o : bool) then vset d (y * nx + ix) 0 else Ok d) d) as (d' & E & Hl' & Hv'); [lia|done| |].
    + intros x d1 Hx [Hl1 Hv1]. assert (in_grid x y) as Hin by by split.
      rewrite Hobs, ok_bind by done. fold (fpos x y).
      assert (∀ x' y', done_before (x + 1) y x' y' ↔ done_before x y x' y' ∨ (x' = x ∧ y' = y)) as Hstep
        by (unfold done_before; lia).
      destruct (obs x y) eqn:Eo.
      * rewrite vset_ok by (rewrite Hl1; by apply fpos_range). eexists. split; [done|].
        split; [by rewrite zlen_zset|]. intros x' y' Hin'. rewrite val_zset by (rewrite Hl1; by apply fpos_range).
        destruct (decide (fpos x y = fpos x' y')) as [Ep|Hne].
        { apply fpos_inj in Ep as [<- <-]; [|done..]. rewrite decide_True by (apply Hstep; by right). by rewrite Eo. }
        rewrite Hv1 by done. destruct (decide (done_before x y x' y')) as [Hb|Hb];
          [rewrite decide_True|rewrite decide_False]; try done; rewrite Hstep; [by left|].
        intros [?|[-> ->]]; done.
      * exists d1. split; [done|]. split; [done|]. intros x' y' Hin'. rewrite Hv1 by done.
        destruct (decide (x' = x ∧ y' = y)) as [[-> ->]|Hne].
        { rewrite Eo. by destruct (decide _), (decide _). }
        destruct (decide (done_before x y x' y')) as [Hb|Hb];
          [rewrite decide_True|rewrite decide_False]; try done; rewrite Hstep; tauto.
    + exists d'. split; [done|]. split; [done|]. intros x' y' Hin'. rewrite Hv' by done.
      destruct (decide (done_before nx y x' y')) as [Hb|Hb];
        [rewrite decide_True|rewrite decide_False]; try done; unfold done_before, in_grid in *; lia.
  - exists d. split; [done|]. split; [done|]. intros x y Hin. rewrite Hv by done.
    rewrite decide_True; [done|]. unfold done_before, in_grid in *. lia.
Qed.

(** [dist_linf] computes the exact distance field.  On every non-empty grid
    the two passes return, without an index out of range, the field in which
    each cell holds its L-infinity distance to the nearest obstacle, capped at
    [u16::MAX] (which a grid without obstacles holds everywhere). *)
Lemma dist_linf_spec (is_obstacle : Z → Z → res bool) :
  (∀ x y, in_grid x y → is_obstacle x y = Ok (obs x y)) →
  ∃ d, dist_linf nx ny is_obstacle = Ok d ∧ zlen d = nx * ny ∧
    ∀ x y, in_grid x y → zget d (y * nx + x) = Some (nearest x y).
Proof.
  intros Hobs. unfold dist_linf. rewrite !Z.max_l by lia.
  rewrite (proj2 (Z.eqb_neq nx 0)), (proj2 (Z.eqb_neq ny 0)) by lia. cbn [orb].
  destruct (marks_spec is_obstacle Hobs) as (d0 & -> & Hl0 & Hv0). rewrite ok_bind.
  assert (∀ x y, in_grid x y → nearest x y ≤ val d0 (fpos x y)) as Hlow0.
  { intros x y Hin. rewrite Hv0 by done. destruct (obs x y) eqn:Eo; [by rewrite nearest_obstacle|].
    apply nearest_spec. }
  destruct (pass_spec fpos nearest (forward_cell nx) fpos_range fpos_inj nearest_step
    (fun x y => proj2 (proj1 (nearest_spec x y))) forward_body d0 Hl0 Hlow0)
    as (d1 & -> & Hl1 & Hb1 & Hs1). rewrite ok_bind.
  assert (∀ d, for_rev ny (fun iy d => for_rev nx (backward_cell nx ny iy) d) d =
    for_range 0 ny (fun y d => for_range 0 nx (fun x => backward_cell nx ny (ny - 1 - y) (nx - 1 - x)) d) d) as ->.
  { intros d. rewrite for_rev_range by lia. apply for_each_ext. intros y d' _. apply for_rev_range. lia. }
  assert (∀ x y x' y', Z.abs (x - x') ≤ 1 → Z.abs (y - y') ≤ 1 →
    nearest (nx - 1 - x) (ny - 1 - y) ≤ nearest (nx - 1 - x') (ny - 1 - y') + 1) as Hrefl
    by (intros; apply nearest_step; lia).
  destruct (pass_spec bpos (fun x y => nearest (nx - 1 - x) (ny - 1 - y))
    (fun y x => backward_cell nx ny (ny - 1 - y) (nx - 1 - x))
    (fun x y H => fpos_range _ _ (reflect_grid x y H)) bpos_inj
    Hrefl
    (fun x y => proj2 (proj1 (nearest_spec _ _))) backward_body d1 Hl1
    (fun x y H => proj1 (Hb1 _ _ (reflect_grid x y H)))) as (d2 & -> & Hl2 & Hb2 & Hs2).
  exists d2. split; [done|]. split; [done|].
  assert (∀ x y, in_grid x y → nearest x y ≤ val d2 (fpos x y) ≤ val d1 (fpos x y)) as Hb2'.
  { intros x y Hin. specialize (Hb2 _ _ (reflect_grid x y Hin)). unfold bpos in Hb2.
    replace (nx - 1 - (nx - 1 - x)) with x in Hb2 by lia.
    by replace (ny - 1 - (ny - 1 - y)) with y in Hb2 by lia. }
  intros x y Hin. fold (fpos x y). pose proof (fpos_range x y Hin) as Hr.
  destruct (zget_lt d2 (fpos x y)) as [v Ev]; [by rewrite Hl2|]. rewrite Ev. f_equal.
  assert (val d2 (fpos x y) = v) as Hv by (unfold val; by rewrite Ev).
  destruct (Hb2' x y Hin) as [Hlow Hup]. rewrite Hv in Hlow, Hup. apply Z.le_antisymm; [|done].
  destruct (nearest_spec x y) as (Hnr & _ & [Hmax|(ox & oy & Hino & Ho & Hc)]).
  - rewrite Hmax. specialize (Hb1 x y Hin). specialize (Hv0 x y Hin).
    destruct (obs x y); unfold U16_MAX in *; lia.
  - rewrite Hc, <- Hv. apply (backward_reach d2 x y ox oy Hs2); [|done..].
    intros x1 y1 Hin1 H1 H2. etransitivity; [by apply Hb2'|].
    apply (forward_reach d1 x1 y1 ox oy Hs1); [|done..].
    etransitivity; [by apply Hb1|]. rewrite Hv0 by done. by rewrite Ho.
Qed.
End dist.

Example dist_linf_small :
  dist_linf 4 2 (fun x y => Ok ((x =? 1) && (y =? 1))) = Ok [1; 1; 1; 2; 1; 0; 1; 2].
Proof. reflexivity. Qed.
