(* ===== verification/LocalPlanner.v ===== *)
(** * The local planner (vi_lib/src/local.rs)

    A window that follows the robot over the global field: its shape, the
    injection and decay of laser-scan penalties, the inflation by the spread of
    the pose, and the sweep of the window. *)

From Stdlib Require Import ZArith Lia.
From stdpp Require Import base gmap strings list numbers.
From S2P Require Import Prelude Floats Model Bellman Consistency Original Active MapSetup Distance.

Definition f2 : f64 := f64_of_Z 2.
(** [f64::EPSILON] *)
Definition EPSILON : f64 := lit 4503599627370496 (-104).

(** [x.clamp(lo, hi)] *)
Definition fclamp (x lo hi : f64) : res f64 :=
  if fle lo hi then
    let x := if flt x lo then lo else x in
    Ok (if flt hi x then hi else x)
  else Panic.

(** ** The shape of the window *)

Inductive LocalShape : Type := Square | Circle | Ellipse | Capsule.

#[global] Instance LocalShape_eq_dec : EqDecision LocalShape.
Proof. solve_decision. Defined.

Definition shape_from_name (s : string) : option LocalShape :=
  if bool_decide (s = "square"%string) then Some Square
  else if bool_decide (s = "circle"%string) then Some Circle
  else if bool_decide (s = "ellipse"%string) then Some Ellipse
  else if bool_decide (s = "capsule"%string) then Some Capsule
  else None.

Definition oriented (s : LocalShape) : bool :=
  match s with Square => false | _ => true end.

Definition dynamic (s : LocalShape) : bool :=
  match s with Ellipse | Capsule => true | _ => false end.

Record LocalShapeConfig : Type := {
  shape : LocalShape;
  range_m : f64; lat_m : f64; ratio_max : f64; slew_m : f64; fw_ref_m : f64
}.

Definition shape_default : LocalShapeConfig :=
  {| shape := Square; range_m := f1; lat_m := f0; ratio_max := f1; slew_m := f0; fw_ref_m := f0 |}.

(** [LocalShapeConfig::lat] *)
Definition cfg_lat (c : LocalShapeConfig) : f64 := if flt f0 (lat_m c) then lat_m c else range_m c.

Definition radii_cells (c : LocalShapeConfig) (res : f64) : Z * Z :=
  if oriented (shape c) then
    let m := f64_as_i32 (fdiv (fmax (fmul (range_m c) (fmax (ratio_max c) f1)) (cfg_lat c)) res) in
    (m, m)
  else (f64_as_i32 (fdiv (range_m c) res), f64_as_i32 (fdiv (cfg_lat c) res)).

Definition min_radius_m (c : LocalShapeConfig) : f64 :=
  let fore := if dynamic (shape c) then fdiv (range_m c) (fmax (ratio_max c) f1) else range_m c in
  fmin fore (cfg_lat c).

Definition bbox_cells (c : LocalShapeConfig) (res : f64) : Z :=
  let '(rx, ry) := radii_cells c res in Z.max rx ry.

Definition DEADBAND_CELLS : f64 := f0_3.

(** ** The planner *)

Record ValueIteratorLocal : Type := mkLocal {
  lv_base : ValueIterator;
  lv_scan_penalty_radius : f64;
  lv_scan_penalty : Z;
  lv_ix_min : Z; lv_ix_max : Z; lv_iy_min : Z; lv_iy_max : Z;
  lv_ixy_range : Z;
  lv_xy_range : f64;
  lv_shape : LocalShapeConfig;
  lv_a_fwd : f64; lv_a_bwd : f64; lv_lat : f64;
  lv_center : f64 * f64;
  lv_cos_t : f64; lv_sin_t : f64;
  lv_prev_xy : option (f64 * f64);
  lv_clear_map_from_scan : bool;
  lv_safety_radius : f64; lv_safety_radius_penalty : f64;
  lv_obstacle_dist : list Z
}.

Definition local_new (actions : list Action) (thread_num : Z) : ValueIteratorLocal :=
  mkLocal (vi_new actions thread_num) f0_1 10000 0 0 0 0 0 f0 shape_default f0 f0 f0 (f0, f0) f1 f0 None
    false f0 f0 [].

Definition with_base (l : ValueIteratorLocal) (vi : ValueIterator) : ValueIteratorLocal :=
  mkLocal vi (lv_scan_penalty_radius l) (lv_scan_penalty l) (lv_ix_min l) (lv_ix_max l) (lv_iy_min l)
    (lv_iy_max l) (lv_ixy_range l) (lv_xy_range l) (lv_shape l) (lv_a_fwd l) (lv_a_bwd l) (lv_lat l)
    (lv_center l) (lv_cos_t l) (lv_sin_t l) (lv_prev_xy l) (lv_clear_map_from_scan l)
    (lv_safety_radius l) (lv_safety_radius_penalty l) (lv_obstacle_dist l).

Definition with_window (l : ValueIteratorLocal) (x0 x1 y0 y1 : Z) : ValueIteratorLocal :=
  mkLocal (lv_base l) (lv_scan_penalty_radius l) (lv_scan_penalty l) x0 x1 y0 y1
    (lv_ixy_range l) (lv_xy_range l) (lv_shape l) (lv_a_fwd l) (lv_a_bwd l) (lv_lat l)
    (lv_center l) (lv_cos_t l) (lv_sin_t l) (lv_prev_xy l) (lv_clear_map_from_scan l)
    (lv_safety_radius l) (lv_safety_radius_penalty l) (lv_obstacle_dist l).

Definition with_pose (l : ValueIteratorLocal) (center : f64 * f64) (c s : f64) : ValueIteratorLocal :=
  mkLocal (lv_base l) (lv_scan_penalty_radius l) (lv_scan_penalty l) (lv_ix_min l) (lv_ix_max l)
    (lv_iy_min l) (lv_iy_max l) (lv_ixy_range l) (lv_xy_range l) (lv_shape l) (lv_a_fwd l) (lv_a_bwd l)
    (lv_lat l) center c s (lv_prev_xy l) (lv_clear_map_from_scan l)
    (lv_safety_radius l) (lv_safety_radius_penalty l) (lv_obstacle_dist l).

Definition with_axes (l : ValueIteratorLocal) (a_fwd a_bwd : f64) : ValueIteratorLocal :=
  mkLocal (lv_base l) (lv_scan_penalty_radius l) (lv_scan_penalty l) (lv_ix_min l) (lv_ix_max l)
    (lv_iy_min l) (lv_iy_max l) (lv_ixy_range l) (lv_xy_range l) (lv_shape l) a_fwd a_bwd
    (lv_lat l) (lv_center l) (lv_cos_t l) (lv_sin_t l) (lv_prev_xy l) (lv_clear_map_from_scan l)
    (lv_safety_radius l) (lv_safety_radius_penalty l) (lv_obstacle_dist l).

Definition with_prev_xy (l : ValueIteratorLocal) (p : option (f64 * f64)) : ValueIteratorLocal :=
  mkLocal (lv_base l) (lv_scan_penalty_radius l) (lv_scan_penalty l) (lv_ix_min l) (lv_ix_max l)
    (lv_iy_min l) (lv_iy_max l) (lv_ixy_range l) (lv_xy_range l) (lv_shape l) (lv_a_fwd l) (lv_a_bwd l)
    (lv_lat l) (lv_center l) (lv_cos_t l) (lv_sin_t l) p (lv_clear_map_from_scan l)
    (lv_safety_radius l) (lv_safety_radius_penalty l) (lv_obstacle_dist l).

Definition with_obstacle_dist (l : ValueIteratorLocal) (d : list Z) : ValueIteratorLocal :=
  mkLocal (lv_base l) (lv_scan_penalty_radius l) (lv_scan_penalty l) (lv_ix_min l) (lv_ix_max l)
    (lv_iy_min l) (lv_iy_max l) (lv_ixy_range l) (lv_xy_range l) (lv_shape l) (lv_a_fwd l) (lv_a_bwd l)
    (lv_lat l) (lv_center l) (lv_cos_t l) (lv_sin_t l) (lv_prev_xy l) (lv_clear_map_from_scan l)
    (lv_safety_radius l) (lv_safety_radius_penalty l) d.

Definition rect_radii (l : ValueIteratorLocal) : Z * Z :=
  radii_cells (lv_shape l) (vi_xy_resolution (lv_base l)).

Definition set_local_shape (l : ValueIteratorLocal) (cfg : LocalShapeConfig) : ValueIteratorLocal :=
  let res := vi_xy_resolution (lv_base l) in
  let a := fdiv (range_m cfg) res in
  let '(rx, ry) := radii_cells cfg res in
  mkLocal (lv_base l) (lv_scan_penalty_radius l) (lv_scan_penalty l) 0 (i32_mul rx 2) 0 (i32_mul ry 2)
    (Z.max rx ry) (range_m cfg) cfg a a (fdiv (cfg_lat cfg) res)
    (lv_center l) (lv_cos_t l) (lv_sin_t l) None (lv_clear_map_from_scan l)
    (lv_safety_radius l) (lv_safety_radius_penalty l) (lv_obstacle_dist l).

Definition set_local_xy_range (l : ValueIteratorLocal) (r : f64) : ValueIteratorLocal :=
  set_local_shape l {| shape := Square; range_m := r; lat_m := f0; ratio_max := f1; slew_m := f0;
                       fw_ref_m := f0 |}.

Definition local_set_map_with_occupancy_grid (cos sin : f64 → f64) (fuel : nat) (par : Z)
    (l : ValueIteratorLocal) (map : OccupancyGrid) (theta_cell_num : Z)
    (safety_radius safety_radius_penalty goal_margin_radius : f64) (goal_margin_theta : Z)
    : res ValueIteratorLocal :=
  vi ← set_map_with_occupancy_grid cos sin fuel par (lv_base l) map theta_cell_num safety_radius
         safety_radius_penalty goal_margin_radius goal_margin_theta;
  let l := set_local_shape (with_base l vi) shape_default in
  Ok (mkLocal (lv_base l) (lv_scan_penalty_radius l) (lv_scan_penalty l) (lv_ix_min l) (lv_ix_max l)
    (lv_iy_min l) (lv_iy_max l) (lv_ixy_range l) (lv_xy_range l) (lv_shape l) (lv_a_fwd l) (lv_a_bwd l)
    (lv_lat l) (lv_center l) (lv_cos_t l) (lv_sin_t l) (lv_prev_xy l) (lv_clear_map_from_scan l)
    safety_radius safety_radius_penalty []).

Definition in_local_area (l : ValueIteratorLocal) (ix iy : Z) : res bool :=
  if (ix <? lv_ix_min l) || (ix >? lv_ix_max l) || (iy <? lv_iy_min l) || (iy >? lv_iy_max l)
  then Ok false else
  if negb (oriented (shape (lv_shape l))) then Ok true else
  let dx := fsub (fadd (f64_of_Z ix) f0_5) (lv_center l).1 in
  let dy := fsub (fadd (f64_of_Z iy) f0_5) (lv_center l).2 in
  let fx := fadd (fmul dx (lv_cos_t l)) (fmul dy (lv_sin_t l)) in
  let fy := fadd (fmul (fneg dx) (lv_sin_t l)) (fmul dy (lv_cos_t l)) in
  let b := fmax (lv_lat l) EPSILON in
  let sq x := fmul x x in
  match shape (lv_shape l) with
  | Square => Ok true
  | Circle | Ellipse =>
      let a := fmax (if fge fx f0 then lv_a_fwd l else lv_a_bwd l) EPSILON in
      Ok (fle (fadd (sq (fdiv fx a)) (sq (fdiv fy b))) f1)
  | Capsule =>
      c ← fclamp fx (fneg (fmax (fsub (lv_a_bwd l) b) f0)) (fmax (fsub (lv_a_fwd l) b) f0);
      Ok (fle (fadd (sq (fsub fx c)) (fmul fy fy)) (fmul b b))
  end.

Section libm.
Context (cos sin : f64 → f64).

Definition update_axes (l : ValueIteratorLocal) (x y yaw : f64) : res ValueIteratorLocal :=
  let cfg := lv_shape l in
  let prev := lv_prev_xy l in
  let l := with_prev_xy l (Some (x, y)) in
  if negb (dynamic (shape cfg)) || fle (ratio_max cfg) f1 || fle (fw_ref_m cfg) f0 then Ok l else
  match prev with
  | None => Ok l
  | Some (px, py) =>
      let res := vi_xy_resolution (lv_base l) in
      let disp := fadd (fmul (fsub x px) (cos yaw)) (fmul (fsub y py) (sin yaw)) in
      if flt (fabs disp) (fmul DEADBAND_CELLS res) then Ok l else
      v ← fclamp (fdiv disp (fw_ref_m cfg)) (fneg f1) f1;
      let r := range_m cfg in
      let lo := fdiv r (ratio_max cfg) in
      let hi := fmin (fsub (fmul f2 r) lo) (fmul r (ratio_max cfg)) in
      target ← fclamp (fmul r (fadd f1 (fmul (fsub (ratio_max cfg) f1) v))) lo hi;
      let cur := fmul (lv_a_fwd l) res in
      let slew := if flt f0 (slew_m cfg) then slew_m cfg else INFINITY in
      next ← fclamp target (fsub cur slew) (fadd cur slew);
      Ok (with_axes l (fdiv next res) (fdiv (fsub (fmul f2 r) next) res))
  end.

Definition set_local_window (l : ValueIteratorLocal) (x y t : f64) : res ValueIteratorLocal :=
  l ← update_axes l x y t;
  let vi := lv_base l in
  let res := vi_xy_resolution vi in
  let center := (fdiv (fsub x (vi_map_origin_x vi)) res, fdiv (fsub y (vi_map_origin_y vi)) res) in
  let l := with_pose l center (cos t) (sin t) in
  let ix := f64_as_i32 (ffloor center.1) in
  let iy := f64_as_i32 (ffloor center.2) in
  let '(rx, ry) := rect_radii l in
  Ok (with_window l
    (if i32_sub ix rx >=? 0 then i32_sub ix rx else 0)
    (if i32_add ix rx <? vi_cell_num_x vi then i32_add ix rx else i32_sub (vi_cell_num_x vi) 1)
    (if i32_sub iy ry >=? 0 then i32_sub iy ry else 0)
    (if i32_add iy ry <? vi_cell_num_y vi then i32_add iy ry else i32_sub (vi_cell_num_y vi) 1)).

(** ** Sweeping the window *)

Definition value_iteration_local (l : ValueIteratorLocal) (idx : Z) : res (ValueIteratorLocal * Z) :=
  r ← value_iteration_at (lv_base l) idx;
  Ok (with_base l r.1, r.2).

(** One column of the window. *)
Definition local_column (iix iiy : Z) (l : ValueIteratorLocal) : res ValueIteratorLocal :=
  inside ← in_local_area l iix iiy;
  if negb inside then Ok l else
  for_range 0 (vi_cell_num_t (lv_base l)) (fun iit l =>
    r ← value_iteration_local l (as_u64 (to_index (lv_base l) iix iiy iit));
    Ok r.1) l.

Definition local_value_iteration_loop (l : ValueIteratorLocal) : res ValueIteratorLocal :=
  for_incl (lv_ix_min l) (lv_ix_max l) (fun iix l' =>
    for_incl (lv_iy_min l) (lv_iy_max l) (local_column iix) l') l.

(** ** Laser scans *)

(** The states of a column, changed by [f]; outside the window, nothing. *)
Definition update_column (f : State → State) (ix iy : Z) (l : ValueIteratorLocal)
    : res ValueIteratorLocal :=
  inside ← in_local_area l ix iy;
  if negb inside then Ok l else
  for_range 0 (vi_cell_num_t (lv_base l)) (fun it l =>
    let index := as_u64 (to_index (lv_base l) ix iy it) in
    s ← vget (vi_states (lv_base l)) index;
    st ← vset (vi_states (lv_base l)) index (f s);
    Ok (with_base l (with_states (lv_base l) st))) l.

(** [while d <= limit { ...; d += step }], the values of [d] *)
Fixpoint points_upto (fuel : nat) (d step limit : f64) : res (list f64) :=
  match fuel with
  | O => OutOfFuel
  | S fuel =>
      if fle d limit then ds ← points_upto fuel (fadd d step) step limit; Ok (d :: ds)
      else Ok []
  end.

(** The cell of a world position. *)
Definition world_cell (vi : ValueIterator) (lx ly : f64) : Z * Z :=
  (f64_as_i32 (ffloor (fdiv (fsub lx (vi_map_origin_x vi)) (vi_xy_resolution vi))),
   f64_as_i32 (ffloor (fdiv (fsub ly (vi_map_origin_y vi)) (vi_xy_resolution vi)))).

(** [while s < stop { if !f(..) { break; } s += step; }] of [walk_beams] *)
Fixpoint walk_beam {A} (fuel : nat) (f : f64 → f64 → A → res (A * bool)) (x y ca sa step stop s : f64)
    (a : A) : res A :=
  match fuel with
  | O => OutOfFuel
  | Datatypes.S fuel =>
      if flt s stop then
        r ← f (fadd x (fmul s ca)) (fadd y (fmul s sa)) a;
        if negb r.2 then Ok r.1 else walk_beam fuel f x y ca sa step stop (fadd s step) r.1
      else Ok a
  end.

Definition walk_beams {A} (fuel : nat) (msg : LaserScan) (x y t step stop_back : f64)
    (f : f64 → f64 → A → res (A * bool)) (a : A) : res A :=
  for_range 0 (zlen (ls_ranges msg)) (fun i a =>
    let ang := fadd (fadd t (fmul (ls_angle_increment msg) (f64_of_Z i))) (ls_angle_min msg) in
    r ← vget (ls_ranges msg) i;
    walk_beam fuel f x y (cos ang) (sin ang) step (fsub r stop_back) step a) a.

(** What the beams do to the states they cross. *)
Definition halve (s : State) : State := with_local_penalty s (s_local_penalty s / 2).
Definition hit (inject : Z) (s : State) : State := with_local_penalty s inject.
Definition clear (s : State) : State := with_penalty (with_free s true) PROB_BASE.

Definition scan_strength (scan_penalty shift : Z) : Z :=
  if scan_penalty =? 0 then 0 else Z.max (Z.shiftr scan_penalty (Z.min shift 63)) 1.

(** The hit and the decay of beam [i]. *)
Definition scan_beam (msg : LaserScan) (x y t : f64) (inject radius i : Z) (l : ValueIteratorLocal)
    : res ValueIteratorLocal :=
  let a := fadd (fadd t (fmul (ls_angle_increment msg) (f64_of_Z i))) (ls_angle_min msg) in
  r ← vget (ls_ranges msg) i;
  let '(ix, iy) := world_cell (lv_base l) (fadd x (fmul r (cos a))) (fadd y (fmul r (sin a))) in
  ds ← points_upto 16 f0_1 f0_1 f0_9;
  l ← for_each ds (fun d l =>
        let '(half_ix, half_iy) := world_cell (lv_base l)
          (fadd x (fmul (fmul r (cos a)) d)) (fadd y (fmul (fmul r (sin a)) d)) in
        update_column halve half_ix half_iy l) l;
  for_incl (i32_sub ix radius) (i32_add ix radius) (fun iix l =>
    for_incl (i32_sub iy radius) (i32_add iy radius) (fun iiy l =>
      update_column (hit inject) iix iiy l) l) l.

(** The closure of [clear_map_from_scan]. *)
Definition clear_cell (wx wy : f64) (l : ValueIteratorLocal) : res (ValueIteratorLocal * bool) :=
  let '(bx, by_) := world_cell (lv_base l) wx wy in
  inside ← in_local_area l bx by_;
  if negb inside then Ok (l, false) else
  l ← update_column clear bx by_ l;
  Ok (l, true).

Definition set_local_cost_attenuated (fuel : nat) (l : ValueIteratorLocal) (msg : LaserScan) (x y t : f64)
    (shift : Z) : res ValueIteratorLocal :=
  let inject := u64_shl (scan_strength (lv_scan_penalty l) shift) PROB_BASE_BIT in
  let res := vi_xy_resolution (lv_base l) in
  let radius := f64_as_i32 (fceil (fdiv (lv_scan_penalty_radius l) res)) in
  l ← for_range 0 (zlen (ls_ranges msg)) (scan_beam msg x y t inject radius) l;
  if lv_clear_map_from_scan l then walk_beams fuel msg x y t (fmul res f0_5) res clear_cell l else Ok l.

Definition set_local_cost (fuel : nat) (l : ValueIteratorLocal) (msg : LaserScan) (x y t : f64)
    : res ValueIteratorLocal :=
  set_local_cost_attenuated fuel l msg x y t 0.
End libm.

(** ** Inflation by the spread of the pose *)

Definition ensure_obstacle_dist (l : ValueIteratorLocal) : res ValueIteratorLocal :=
  match lv_obstacle_dist l with
  | _ :: _ => Ok l
  | [] =>
      let vi := lv_base l in
      let '(nx, ny, nt) := (vi_cell_num_x vi, vi_cell_num_y vi, vi_cell_num_t vi) in
      d ← dist_linf nx ny (fun ix iy =>
            s ← vget (vi_states vi) (as_u64 (i32_add (i32_mul ix nt) (i32_mul (i32_mul iy nt) nx)));
            Ok (negb (s_free s)));
      Ok (with_obstacle_dist l d)
  end.

Definition raise (pen : Z) (s : State) : State := with_local_penalty s (Z.max (s_local_penalty s) pen).

(** One column of [inflate_by_sigma]. *)
Definition inflate_column (m0 m1 pen ix iy : Z) (l : ValueIteratorLocal) : res ValueIteratorLocal :=
  inside ← in_local_area l ix iy;
  if negb inside then Ok l else
  d ← vget (lv_obstacle_dist l) (as_u64 (i32_add (i32_mul iy (vi_cell_num_x (lv_base l))) ix));
  if (d <=? m0) || (d >? m1) then Ok l else
  for_range 0 (vi_cell_num_t (lv_base l)) (fun it l =>
    let i := as_u64 (to_index (lv_base l) ix iy it) in
    s ← vget (vi_states (lv_base l)) i;
    st ← vset (vi_states (lv_base l)) i (raise pen s);
    Ok (with_base l (with_states (lv_base l) st))) l.

Definition inflate_by_sigma (l : ValueIteratorLocal) (extra_m : f64) : res ValueIteratorLocal :=
  if fle extra_m f0 then Ok l else
  l ← ensure_obstacle_dist l;
  let res := vi_xy_resolution (lv_base l) in
  let m0 := f64_as_u16 (fceil (fdiv (lv_safety_radius l) res)) in
  let m1 := u16_sat_add m0 (f64_as_u16 (fceil (fdiv extra_m res))) in
  let pen := f64_as_u64 (fmul (lv_safety_radius_penalty l) (f64_of_Z PROB_BASE)) in
  for_incl (lv_ix_min l) (lv_ix_max l) (fun ix l' =>
    for_incl (lv_iy_min l) (lv_iy_max l) (inflate_column m0 m1 pen ix) l') l.

(** The nine points of a beam that halve the penalties. *)
Example nine_points : zlen <$> points_upto 16 f0_1 f0_1 f0_9 = Ok 9.
Proof. vm_compute. reflexivity. Qed.
