(* ===== verification/LocalSpec.v ===== *)
(** * What the local planner guarantees (vi_lib/src/local.rs)

    Every operation of the window but the sweep repaints the states of some
    columns.  [Retouch] is the interface such a repaint meets; the loops over
    beams, cells and headings are then one [repaint] of the field.  The window
    itself is shown to lie in the map, which is what keeps every index of
    these loops in range. *)

From Stdlib Require Import ZArith Lia.
From stdpp Require Import base gmap strings list numbers.
From S2P Require Import Prelude Floats Model Bellman Consistency Original Active MapSetup Distance LocalPlanner.

(** ** The window *)

(** [in_local_area] as a predicate; it never panics ([win_ok]). *)
Definition win (l : ValueIteratorLocal) (x y : Z) : bool :=
  match in_local_area l x y with Ok b => b | _ => false end.

Definition window_in_map (l : ValueIteratorLocal) : Prop :=
  0 ≤ lv_ix_min l ∧ lv_ix_max l < vi_cell_num_x (lv_base l) ∧
  0 ≤ lv_iy_min l ∧ lv_iy_max l < vi_cell_num_y (lv_base l).

(** The bounds of the capsule's clamp are ordered whatever the axes hold. *)
Lemma clamp_bounds u w : fle (fneg (fmax u f0)) (fmax w f0) = true.
Proof.
  unfold fmax, is_nan. destruct u as [[]|[]| |[] ? ?], w as [[]|[]| |[] ? ?]; reflexivity.
Qed.

Lemma win_ok l x y : in_local_area l x y = Ok (win l x y).
Proof.
  unfold win. assert (∃ b, in_local_area l x y = Ok b) as [b ->]; [|done].
  unfold in_local_area. destruct (_ || _); [eauto|]. destruct (negb _); [eauto|].
  destruct (shape (lv_shape l)); eauto. unfold fclamp. rewrite clamp_bounds. cbn. eauto.
Qed.

Lemma win_rect l x y :
  win l x y = true → lv_ix_min l ≤ x ≤ lv_ix_max l ∧ lv_iy_min l ≤ y ≤ lv_iy_max l.
Proof.
  unfold win, in_local_area.
  destruct ((x <? lv_ix_min l) || (x >? lv_ix_max l) || (y <? lv_iy_min l) || (y >? lv_iy_max l)) eqn:E;
    [done|]. intros _. bool_to_prop. lia.
Qed.

Lemma win_map l x y :
  window_in_map l → win l x y = true →
  0 ≤ x < vi_cell_num_x (lv_base l) ∧ 0 ≤ y < vi_cell_num_y (lv_base l).
Proof. intros (? & ? & ? & ?) ?%win_rect. lia. Qed.

(** The planner with the states [st]. *)
Definition restates (l : ValueIteratorLocal) (st : list State) : ValueIteratorLocal :=
  with_base l (with_states (lv_base l) st).

Lemma win_restates l st x y : win (restates l st) x y = win l x y.
Proof. reflexivity. Qed.

(** Replacing states one after the other. *)
Lemma restates_self l : restates l (vi_states (lv_base l)) = l.
Proof. by destruct l as [[] ]. Qed.

(** ** Repainting the states *)

(** What the operations on a column may do to a state: its cell and its value
    stay, its penalties stay machine words. *)
Class Retouch (f : State → State) : Prop := {
  rt_cell : ∀ s, (s_ix (f s), s_iy (f s), s_it (f s)) = (s_ix s, s_iy s, s_it s);
  rt_cost : ∀ s, (s_total_cost (f s), s_optimal_action (f s)) = (s_total_cost s, s_optimal_action s);
  rt_pen : ∀ s, in_u64 (s_penalty s) → in_u64 (s_penalty (f s));
  rt_lpen : ∀ s, in_u64 (s_local_penalty s) → in_u64 (s_local_penalty (f s))
}.

Lemma halve_u64 p : in_u64 p → in_u64 (p / 2).
Proof. unfold in_u64. intros. split; [apply Z.div_pos; lia|]. apply Z.div_lt_upper_bound; lia. Qed.

#[export] Instance Retouch_halve : Retouch halve.
Proof. split; try done. intros s. apply halve_u64. Qed.

Lemma Retouch_hit inject : in_u64 inject → Retouch (hit inject).
Proof. by split. Qed.

#[export] Instance Retouch_clear : Retouch clear.
Proof. by split. Qed.

Lemma Retouch_raise pen : in_u64 pen → Retouch (raise pen).
Proof. split; try done. intros s. unfold in_u64, raise in *. cbn. lia. Qed.

#[export] Instance Retouch_id : Retouch (fun s => s).
Proof. by split. Qed.

#[export] Instance Retouch_compose f g : Retouch f → Retouch g → Retouch (fun s => f (g s)).
Proof.
  intros [H1 H2 H3 H4] [G1 G2 G3 G4]. split; intros; [by rewrite H1|by rewrite H2|auto..].
Qed.

#[export] Instance Retouch_if (b : State → bool) f g :
  Retouch f → Retouch g → Retouch (fun s => if b s then f s else g s).
Proof. intros [] []. split; intros s; destruct (b s); auto. Qed.

#[export] Instance Retouch_iter (n : State → nat) f :
  Retouch f → Retouch (fun s => Nat.iter (n s) f s).
Proof.
  intros [H1 H2 H3 H4]. split; intros s; induction (n s) as [|k IH]; cbn; auto; by rewrite ?H1, ?H2.
Qed.

Definition repaint (h : State → State) (l : ValueIteratorLocal) : ValueIteratorLocal :=
  restates l (h <$> vi_states (lv_base l)).

Lemma repaint_ext h h' l :
  (∀ s, s ∈ vi_states (lv_base l) → h s = h' s) → repaint h l = repaint h' l.
Proof.
  intros H. unfold repaint. f_equal. apply list_fmap_ext.
  intros ? s Hs. by eapply H, list_elem_of_lookup_2.
Qed.

Lemma repaint_id h l : (∀ s, s ∈ vi_states (lv_base l) → h s = s) → repaint h l = l.
Proof.
  intros H. rewrite (repaint_ext h (fun s => s)) by done.
  unfold repaint. rewrite list_fmap_id. apply restates_self.
Qed.

Lemma repaint_repaint h1 h2 l : repaint h2 (repaint h1 l) = repaint (fun s => h2 (h1 s)) l.
Proof. unfold repaint, restates. cbn. by rewrite <- list_fmap_compose. Qed.

Lemma win_repaint h l x y : win (repaint h l) x y = win l x y.
Proof. reflexivity. Qed.

Lemma repaint_wf h l : Retouch h → wf_vi (lv_base l) → wf_vi (lv_base (repaint h l)).
Proof.
  intros [H1 H2 H3 H4] [Hd [Hlen Hst] Ha]. split; [done| |done]. cbn. split; [by rewrite zlen_fmap|].
  intros i s'. rewrite zget_fmap. destruct (zget _ i) as [s|] eqn:Hs; [|done]. intros [= <-].
  destruct (Hst i s Hs) as [? ? ? Ei ? ? ?]. specialize (H1 s) as [= ? ? ?]. specialize (H2 s) as [= ? ?].
  split; rewrite ?H, ?H0, ?H1, ?H2; try done; auto; congruence.
Qed.

(** Membership in the window of a state's own cell. *)
Definition in_win (l : ValueIteratorLocal) (s : State) : bool := win l (s_ix s) (s_iy s).

Definition at_cell (c : Z * Z) (s : State) : bool := (s_ix s =? c.1) && (s_iy s =? c.2).

(** ** Columns *)

Lemma zset_fmap_ext (h h' : State → State) st i s :
  zget st i = Some s → (∀ j r, zget st j = Some r → j ≠ i → h r = h' r) →
  zset (h <$> st) i (h' s) = h' <$> st.
Proof.
  intros Hs H. pose proof (zget_Some_lt _ _ _ Hs) as Hi. apply zget_ext; [by rewrite zlen_zset, !zlen_fmap|].
  intros j _. rewrite zget_zset, !zget_fmap by (by rewrite zlen_fmap).
  destruct (decide (i = j)) as [<-|Hne]; [by rewrite Hs|].
  destruct (zget st j) as [r|] eqn:Hr; [|done]. cbn. f_equal. by eapply H.
Qed.

(** Changing the states of a column of the map, one heading after the other. *)
Lemma column_loop f l ix iy :
  Retouch f → wf_vi (lv_base l) →
  0 ≤ ix < vi_cell_num_x (lv_base l) → 0 ≤ iy < vi_cell_num_y (lv_base l) →
  for_range 0 (vi_cell_num_t (lv_base l)) (fun it l =>
    let i := as_u64 (to_index (lv_base l) ix iy it) in
    s ← vget (vi_states (lv_base l)) i;
    st ← vset (vi_states (lv_base l)) i (f s);
    Ok (with_base l (with_states (lv_base l) st))) l
  = Ok (repaint (fun s => if at_cell (ix, iy) s then f s else s) l).
Proof.
  intros Hf [Hd Hst _] Hx Hy. pose proof (dims_t _ _ _ Hd) as Ht.
  set (h := fun k s => if at_cell (ix, iy) s && (s_it s <? k) then f s else s).
  edestruct (for_range_inv (fun k l' => l' = repaint (h k) l) 0 (vi_cell_num_t (lv_base l)))
    as (l' & E & ->); [lia|..|rewrite E; f_equal; apply repaint_ext].
  - symmetry. apply repaint_id. intros s Hs. unfold h.
    apply elem_of_zget in Hs as [i Hs]. pose proof (so_it _ _ _ _ _ (ws_state _ _ _ _ Hst _ _ Hs)).
    rewrite (proj2 (Z.ltb_ge _ _)), andb_false_r by lia. done.
  - intros k l' Hk ->. cbv beta zeta.
    destruct (ws_get _ _ _ _ ix iy k Hst ltac:(apply Hd) ltac:(apply Hd) Hx Hy Hk) as (s & Hs & Ex & Ey & Et).
    change (to_index (lv_base (repaint (h k) l)) ix iy k) with (to_index (lv_base l) ix iy k).
    unfold to_index. rewrite (to_index_raw_small _ _ _ _ _ _ Hd Hx Hy Hk).
    change (vi_states (lv_base (repaint (h k) l))) with (h k <$> vi_states (lv_base l)).
    pose proof (zget_Some_lt _ _ _ Hs) as Hi. pose proof (dims_total _ _ _ Hd). rewrite (ws_len _ _ _ _ Hst) in Hi.
    rewrite as_u64_small by (unfold in_u64; lia).
    assert (h k s = s) as Ek.
    { unfold h. rewrite (proj2 (Z.ltb_ge _ _)), andb_false_r by lia. done. }
    assert (h (k + 1) s = f s) as Ek1.
    { unfold h, at_cell. cbn. rewrite Ex, Ey, !Z.eqb_refl, (proj2 (Z.ltb_lt _ _)) by lia. done. }
    erewrite (proj2 (vget_ok _ _ _)) by (by rewrite zget_fmap, Hs). rewrite ok_bind, Ek, vset_ok, ok_bind.
    2:{ by rewrite zlen_fmap, (ws_len _ _ _ _ Hst). }
    eexists. split; [done|]. unfold repaint, restates. cbn. rewrite <- Ek1. f_equal. f_equal.
    apply zset_fmap_ext; [done|]. intros j r Hr Hne. unfold h.
    destruct (at_cell (ix, iy) r) eqn:Ec; [cbn|done]. unfold at_cell in Ec. cbn in Ec. bool_to_prop.
    assert (s_it r ≠ k) as Hrk.
    { intros Hrk. apply Hne. destruct (ws_state _ _ _ _ Hst _ _ Hr) as [_ _ _ -> _ _ _]. congruence. }
    assert ((s_it r <? k) = (s_it r <? k + 1)) as ->; [|done].
    destruct (Z.ltb_spec (s_it r) k), (Z.ltb_spec (s_it r) (k + 1)); lia.
  - intros s Hs. unfold h. apply elem_of_zget in Hs as [i Hs].
    pose proof (so_it _ _ _ _ _ (ws_state _ _ _ _ Hst _ _ Hs)).
    rewrite (proj2 (Z.ltb_lt _ _)), andb_true_r by lia. done.
Qed.

Lemma update_column_eq f l ix iy :
  Retouch f → wf_vi (lv_base l) → window_in_map l →
  update_column f ix iy l = Ok (repaint (fun s => if win l ix iy && at_cell (ix, iy) s then f s else s) l).
Proof.
  intros Hf Hwf Hw. unfold update_column. rewrite win_ok, ok_bind.
  destruct (win l ix iy) eqn:E; cbn [negb andb].
  - destruct (win_map l ix iy Hw E). by apply column_loop.
  - by rewrite repaint_id.
Qed.

(** How often a column is visited. *)
Definition visits (cs : list (Z * Z)) (s : State) : nat := length (filter (fun c => at_cell c s = true) cs).

Lemma visits_cons c cs s : visits (c :: cs) s = ((if at_cell c s then 1 else 0) + visits cs s)%nat.
Proof. unfold visits. rewrite list.filter_cons. by destruct (at_cell c s). Qed.

Lemma visits_cell cs s s' : s_ix s = s_ix s' → s_iy s = s_iy s' → visits cs s = visits cs s'.
Proof.
  intros Hx Hy. induction cs as [|c cs IH]; [done|]. rewrite !visits_cons, IH.
  unfold at_cell. by rewrite Hx, Hy.
Qed.

(** Any sequence of columns is one repaint: every state of the window is
    changed once per visit of its column. *)
Lemma columns_eq f cs l :
  Retouch f → wf_vi (lv_base l) → window_in_map l →
  for_each cs (fun c => update_column f c.1 c.2) l =
  Ok (repaint (fun s => if in_win l s then Nat.iter (visits cs s) f s else s) l).
Proof.
  intros Hf. revert l. induction cs as [|c cs IH]; intros l Hwf Hw; cbn [for_each].
  { rewrite repaint_id; [done|]. intros s _. by destruct (in_win l s). }
  rewrite (update_column_eq f l) by done. rewrite ok_bind.
  rewrite IH; [|apply repaint_wf; [apply (Retouch_if _ f); apply _|done]|done]. f_equal. rewrite repaint_repaint.
  apply repaint_ext. intros s _. unfold in_win. rewrite win_repaint.
  rewrite <- surjective_pairing.
  destruct (at_cell c s) eqn:Ec; [rewrite andb_true_r|rewrite andb_false_r, visits_cons, Ec; done].
  pose proof Ec as Ec'. unfold at_cell in Ec'. bool_to_prop.
  replace (win l c.1 c.2) with (win l (s_ix s) (s_iy s)) by congruence.
  destruct (win l (s_ix s) (s_iy s)) eqn:Ew; [|by rewrite Ew].
  pose proof (rt_cell s) as [= Hx Hy _]. rewrite Hx, Hy, Ew, visits_cons, Ec, (visits_cell cs (f s) s) by done.
  cbn. apply Nat.iter_swap.
Qed.

Lemma iter_idem {A} (f : A → A) n a : (∀ a, f (f a) = f a) → n ≠ 0%nat → Nat.iter n f a = f a.
Proof. intros H. induction n as [|[|n] IH]; [done|done|]. intros _. cbn in *. by rewrite IH. Qed.

Lemma visits_zero cs s : visits cs s = 0%nat ↔ (s_ix s, s_iy s) ∉ cs.
Proof.
  induction cs as [|c cs IH]; [split; [intros _ []%elem_of_nil|done]|].
  rewrite visits_cons, not_elem_of_cons, <- IH.
  assert (at_cell c s = true ↔ (s_ix s, s_iy s) = c) as Hc.
  { destruct c as [x y]. unfold at_cell. cbn. rewrite andb_true_iff, !Z.eqb_eq. split; [by intros [-> ->]|by intros [= -> ->]]. }
  destruct (at_cell c s); [split; [lia|intros [[] _]; by apply Hc]|].
  split; [intros H; split; [by intros ?%Hc|done]|by intros [_ ?]].
Qed.

(** For an operation that acts once. *)
Lemma columns_once f cs l :
  Retouch f → (∀ s, f (f s) = f s) → wf_vi (lv_base l) → window_in_map l →
  for_each cs (fun c => update_column f c.1 c.2) l =
  Ok (repaint (fun s => if in_win l s && bool_decide ((s_ix s, s_iy s) ∈ cs) then f s else s) l).
Proof.
  intros Hf Hff Hwf Hw. rewrite columns_eq by done. f_equal. apply repaint_ext. intros s _.
  destruct (in_win l s); [cbn|done]. case_bool_decide as Hin.
  - apply iter_idem; [done|]. by intros ?%visits_zero.
  - by rewrite (proj2 (visits_zero cs s)).
Qed.

(** A loop that visits the columns of some of its items. *)
Lemma columns_if {B} f (b : B → bool) (g : B → Z * Z)
    (body : B → ValueIteratorLocal → res ValueIteratorLocal) ds l :
  Retouch f → wf_vi (lv_base l) → window_in_map l →
  (∀ d h, Retouch h → d ∈ ds →
     body d (repaint h l) = if b d then update_column f (g d).1 (g d).2 (repaint h l) else Ok (repaint h l)) →
  for_each ds body l = for_each (g <$> filter (fun d => b d = true) ds) (fun c => update_column f c.1 c.2) l.
Proof.
  intros Hf Hwf Hw Hb.
  assert (∀ h, Retouch h → for_each ds body (repaint h l) =
    for_each (g <$> filter (fun d => b d = true) ds) (fun c => update_column f c.1 c.2) (repaint h l)) as H;
    [|specialize (H (fun s => s) _); by rewrite repaint_id in H].
  induction ds as [|d ds IH]; intros h Hh; [done|]. cbn [for_each].
  rewrite Hb by (done || left). rewrite list.filter_cons.
  destruct (b d) eqn:E; [rewrite decide_True by done|rewrite decide_False, ok_bind by done].
  - rewrite fmap_cons. cbn [for_each]. rewrite (update_column_eq f) by (done || by apply repaint_wf).
    rewrite !ok_bind, repaint_repaint. apply IH; [intros; apply Hb; [done|by right]|].
    apply (Retouch_compose (fun s => if win (repaint h l) (g d).1 (g d).2 && at_cell ((g d).1, (g d).2) s
      then f s else s) h); [|done]. by apply (Retouch_if _ f); [|apply _].
  - apply IH; [|done]. intros. apply Hb; [done|by right].
Qed.

(** The cells of a rectangle, column by column. *)
Definition rect (x0 x1 y0 y1 : Z) : list (Z * Z) :=
  x ← seqZ x0 (x1 + 1 - x0); (fun y => (x, y)) <$> seqZ y0 (y1 + 1 - y0).

Lemma elem_of_window_rect x0 x1 y0 y1 x y : (x, y) ∈ rect x0 x1 y0 y1 ↔ x0 ≤ x ≤ x1 ∧ y0 ≤ y ≤ y1.
Proof.
  unfold rect. rewrite list_elem_of_bind. split.
  - intros (x' & Hy & Hx). apply list_elem_of_fmap in Hy as (y' & [= -> ->] & Hy).
    apply elem_of_seqZ in Hx, Hy. lia.
  - intros [Hx Hy]. exists x. split; [|apply elem_of_seqZ; lia].
    apply list_elem_of_fmap. exists y. split; [done|]. apply elem_of_seqZ. lia.
Qed.

Lemma for_rect {A} x0 x1 y0 y1 (body : Z → Z → A → res A) a :
  for_incl x0 x1 (fun x a => for_incl y0 y1 (body x) a) a =
  for_each (rect x0 x1 y0 y1) (fun c => body c.1 c.2) a.
Proof.
  unfold for_incl, for_range, rect. rewrite <- for_each_bind. apply for_each_ext.
  intros x a' _. by rewrite for_each_fmap.
Qed.

(** ** Inflation *)

Lemma with_obstacle_self l : with_obstacle_dist l (lv_obstacle_dist l) = l.
Proof. by destruct l. Qed.

Section inflation.
Context (l : ValueIteratorLocal) (Hwf : wf_vi (lv_base l)).
Let vi := lv_base l.
Let nx := vi_cell_num_x vi.
Let ny := vi_cell_num_y vi.
Let nt := vi_cell_num_t vi.

Definition obstacle (x y : Z) : bool :=
  match zget (vi_states vi) (index nx nt x y 0) with Some s => negb (s_free s) | None => false end.

(** [d] is the field of the distances to the obstacles. *)
Definition distances (d : list Z) : Prop :=
  zlen d = nx * ny ∧ ∀ x y, in_grid nx ny x y → zget d (y * nx + x) = Some (nearest nx ny obstacle x y).

Lemma grid_positive x y : in_grid nx ny x y → 0 ≤ y * nx + x < 2 ^ 31.
Proof.
  intros [Hx Hy]. destruct Hwf as [[? ? ? ?] _ _]. unfold nx, ny, vi in *.
  pose proof (Z.mul_nonneg_nonneg y (vi_cell_num_x (lv_base l)) ltac:(lia) ltac:(lia)). split; [lia|].
  assert (y * vi_cell_num_x (lv_base l) + x < vi_cell_num_x (lv_base l) * vi_cell_num_y (lv_base l)) by nia.
  assert (vi_cell_num_x (lv_base l) * vi_cell_num_y (lv_base l) * 1 ≤
    vi_cell_num_x (lv_base l) * vi_cell_num_y (lv_base l) * vi_cell_num_t (lv_base l))
    by (apply Z.mul_le_mono_nonneg_l; nia). lia.
Qed.

Lemma ensure_obstacle_dist_spec :
  lv_obstacle_dist l = [] ∨ distances (lv_obstacle_dist l) →
  ∃ d, distances d ∧ ensure_obstacle_dist l = Ok (with_obstacle_dist l d).
Proof.
  intros Hc. pose proof Hwf as [Hd Hst _].
  unfold ensure_obstacle_dist. destruct (lv_obstacle_dist l) as [|z zs] eqn:E.
  2:{ destruct Hc as [?|Hc]; [done|]. exists (z :: zs). by rewrite <- E, with_obstacle_self in *. }
  destruct (dist_linf_spec nx ny ltac:(apply Hd) ltac:(apply Hd) obstacle (fun ix iy =>
     s ← vget (vi_states vi) (as_u64 (i32_add (i32_mul ix nt) (i32_mul (i32_mul iy nt) nx)));
     Ok (negb (s_free s)))) as (d & Ed & Hl & Hv).
  - intros x y [Hx Hy].
    destruct (ws_get _ _ _ _ x y 0 Hst ltac:(apply Hd) ltac:(apply Hd) Hx Hy) as (s & Hs & _).
    { pose proof (dims_t _ _ _ Hd). lia. }
    assert (as_u64 (i32_add (i32_mul x nt) (i32_mul (i32_mul y nt) nx)) = index nx nt x y 0) as ->.
    { pose proof (zget_Some_lt _ _ _ Hs) as Hi. rewrite (ws_len _ _ _ _ Hst) in Hi.
      fold vi nx ny nt in Hi, Hd |- *. unfold index in *. pose proof Hd as [? ? ? ?].
      pose proof (Z.mul_nonneg_nonneg x nt ltac:(lia) ltac:(lia)).
      pose proof (Z.mul_nonneg_nonneg y nt ltac:(lia) ltac:(lia)) as Hyt.
      pose proof (Z.mul_nonneg_nonneg (y * nt) nx Hyt ltac:(lia)).
      replace (y * (nt * nx)) with (y * nt * nx) in * by ring.
      assert (y * nt ≤ y * nt * nx) by nia.
      rewrite (i32_mul_small x), (i32_mul_small y), (i32_mul_small (y * nt)), i32_add_small, as_u64_small;
        unfold in_i32, in_u64; lia. }
    unfold obstacle. fold vi nx ny nt in Hs |- *. rewrite Hs, (proj2 (vget_ok _ _ _) Hs). done.
  - exists d. split; [by split|]. fold vi nx ny nt. by rewrite Ed.
Qed.
End inflation.

(** The band of [inflate_by_sigma] around the static margin. *)
Definition inner_edge (l : ValueIteratorLocal) : Z :=
  f64_as_u16 (fceil (fdiv (lv_safety_radius l) (vi_xy_resolution (lv_base l)))).
Definition outer_edge (l : ValueIteratorLocal) (extra_m : f64) : Z :=
  u16_sat_add (inner_edge l) (f64_as_u16 (fceil (fdiv extra_m (vi_xy_resolution (lv_base l))))).
Definition band_penalty (l : ValueIteratorLocal) : Z :=
  f64_as_u64 (fmul (lv_safety_radius_penalty l) (f64_of_Z PROB_BASE)).
Definition obstacle_near (l : ValueIteratorLocal) (x y : Z) : Z :=
  nearest (vi_cell_num_x (lv_base l)) (vi_cell_num_y (lv_base l)) (obstacle l) x y.
Definition in_band (l : ValueIteratorLocal) (extra_m : f64) (x y : Z) : bool :=
  (inner_edge l <? obstacle_near l x y) && (obstacle_near l x y <=? outer_edge l extra_m).

Lemma inflate_column_eq l d extra_m h x y :
  wf_vi (lv_base l) → window_in_map l → distances l d → Retouch h →
  let l' := repaint h (with_obstacle_dist l d) in
  inflate_column (inner_edge l) (outer_edge l extra_m) (band_penalty l) x y l' =
  if in_band l extra_m x y then update_column (raise (band_penalty l)) x y l' else Ok l'.
Proof.
  intros Hwf Hw Hd Hh. cbv zeta. set (l' := repaint h (with_obstacle_dist l d)).
  unfold inflate_column, update_column. rewrite !win_ok, !ok_bind.
  destruct (win l' x y) eqn:E; cbn [negb]; [|by destruct (in_band _ _ _ _)].
  change (win l x y = true) in E. apply win_map in E; [|done].
  change (lv_obstacle_dist l') with d.
  change (vi_cell_num_x (lv_base l')) with (vi_cell_num_x (lv_base l)).
  pose proof (grid_positive l Hwf x y E) as Hb.
  pose proof (Z.mul_nonneg_nonneg y (vi_cell_num_x (lv_base l)) ltac:(lia) ltac:(lia)).
  rewrite i32_mul_small, i32_add_small, as_u64_small by (unfold in_i32, in_u64; lia).
  rewrite (proj2 (vget_ok _ _ _) (proj2 Hd x y E)), ok_bind.
  fold (obstacle_near l x y). unfold in_band. rewrite Z.gtb_ltb.
  destruct (Z.leb_spec (obstacle_near l x y) (inner_edge l)), (Z.ltb_spec (inner_edge l) (obstacle_near l x y)),
    (Z.ltb_spec (outer_edge l extra_m) (obstacle_near l x y)),
    (Z.leb_spec (obstacle_near l x y) (outer_edge l extra_m)); try lia; done.
Qed.

(** Inflation by the spread of the pose paints exactly its band.  With no
    distance field yet, or with the one of the present obstacles, it returns
    without panicking; the states of the window whose L-infinity distance to
    the nearest obstacle lies beyond the static margin and within the extra one
    get at least the margin's penalty as [local_penalty], every other state and
    everything else of the planner is as before.  A spread that is not positive
    changes nothing. *)
Theorem inflate_by_sigma_band l extra_m :
  wf_vi (lv_base l) → window_in_map l →
  lv_obstacle_dist l = [] ∨ distances l (lv_obstacle_dist l) →
  if fle extra_m f0 then inflate_by_sigma l extra_m = Ok l else
  ∃ d, distances l d ∧
    inflate_by_sigma l extra_m =
    Ok (repaint (fun s => if in_win l s && in_band l extra_m (s_ix s) (s_iy s)
                          then raise (band_penalty l) s else s) (with_obstacle_dist l d)).
Proof.
  intros Hwf Hw Hc. unfold inflate_by_sigma. destruct (fle extra_m f0); [done|].
  destruct (ensure_obstacle_dist_spec l Hwf Hc) as (d & Hd & ->). exists d. split; [done|].
  rewrite ok_bind. cbv zeta. set (l1 := with_obstacle_dist l d).
  change (f64_as_u16 (fceil (fdiv (lv_safety_radius l1) (vi_xy_resolution (lv_base l1))))) with (inner_edge l).
  change (u16_sat_add (inner_edge l) (f64_as_u16 (fceil (fdiv extra_m (vi_xy_resolution (lv_base l1))))))
    with (outer_edge l extra_m).
  change (f64_as_u64 (fmul (lv_safety_radius_penalty l1) (f64_of_Z PROB_BASE))) with (band_penalty l).
  assert (Retouch (raise (band_penalty l))) as Hr by apply Retouch_raise, f64_as_u64_range.
  rewrite for_rect, (columns_if (raise (band_penalty l)) (fun c => in_band l extra_m c.1 c.2) id); [|done..|].
  2:{ intros c h Hh _. by apply inflate_column_eq. }
  rewrite list_fmap_id.
  rewrite columns_once; [|done| |done|done].
  2:{ intros s. unfold raise. cbn. f_equal. lia. }
  f_equal. apply repaint_ext. intros s _. change (in_win l1 s) with (in_win l s).
  destruct (in_win l s) eqn:E; [cbn|done].
  assert ((s_ix s, s_iy s) ∈ rect (lv_ix_min l1) (lv_ix_max l1) (lv_iy_min l1) (lv_iy_max l1)) as Hin
    by (apply elem_of_window_rect, (win_rect _ _ _ E)).
  rewrite bool_decide_decide. destruct (decide _) as [Hf|Hf]; rewrite list_elem_of_filter in Hf; cbn in Hf.
  - by rewrite (proj1 Hf).
  - destruct (in_band _ _ _ _); [|done]. by destruct Hf.
Qed.

Definition blocked_vi : ValueIterator :=
  sample_vi 4 1 1 [step_back; step_away]
    (with_free (sample_cell 0 0 true) false :: ((fun ix => sample_cell MAX_COST ix false) <$> seqZ 1 3)).

(** A planner with a square window over the whole corridor and a margin penalty of 2. *)
Definition sample_local : ValueIteratorLocal :=
  let l := set_local_xy_range (with_base (local_new [] 1) blocked_vi) f2 in
  with_window (mkLocal (lv_base l) f0_1 3 0 0 0 0 2 f2 (lv_shape l) f2 f2 f2 (f0, f0) f1 f0 None
    false f0 f2 []) 0 3 0 0.

Example band_of_sample :
  (l ← inflate_by_sigma sample_local f2; Ok (s_local_penalty <$> vi_states (lv_base l)))
  = Ok [0; 2 * PROB_BASE; 2 * PROB_BASE; 0].
Proof. vm_compute. reflexivity. Qed.

Lemma sample_local_ok : wf_vi (lv_base sample_local) ∧ window_in_map sample_local.
Proof. split; [apply check_vi_ok; reflexivity|]. unfold window_in_map. cbn. lia. Qed.

Lemma inflate_by_sigma_band_witness :
  ∃ d, distances sample_local d ∧
    inflate_by_sigma sample_local f2 =
    Ok (repaint (fun s => if in_win sample_local s && in_band sample_local f2 (s_ix s) (s_iy s)
                          then raise (band_penalty sample_local) s else s) (with_obstacle_dist sample_local d)).
Proof.
  apply (inflate_by_sigma_band sample_local f2 (proj1 sample_local_ok) (proj2 sample_local_ok)).
  left. reflexivity.
Defined.

(** ** Following the robot *)

Section follow.
Context (cos sin : f64 → f64).

Lemma update_axes_frame l x y t l1 :
  update_axes cos sin l x y t = Ok l1 → lv_base l1 = lv_base l ∧ lv_shape l1 = lv_shape l.
Proof.
  unfold update_axes. cbv zeta. destruct (negb _ || _ || _); [by intros [= <-]|].
  destruct (lv_prev_xy l) as [[px py]|]; [|by intros [= <-]].
  destruct (flt _ _); [by intros [= <-]|]. intros H. inv_ok. by subst.
Qed.

(** The first cell of the window on one axis, and the last. *)
Lemma window_axis n c r :
  0 ≤ n < 2 ^ 31 →
  0 ≤ (if i32_sub c r >=? 0 then i32_sub c r else 0) ∧
  (if i32_add c r <? n then i32_add c r else i32_sub n 1) < n.
Proof.
  intros Hn. rewrite Z.geb_leb. rewrite (i32_sub_small n) by (unfold in_i32; lia).
  destruct (Z.leb_spec 0 (i32_sub c r)), (Z.ltb_spec (i32_add c r) n); lia.
Qed.

Lemma window_axis_exact n c r i :
  0 ≤ n < 2 ^ 31 → in_i32 (c - r) → in_i32 (c + r) →
  (if i32_sub c r >=? 0 then i32_sub c r else 0) ≤ i ≤
    (if i32_add c r <? n then i32_add c r else i32_sub n 1) ↔ 0 ≤ i < n ∧ c - r ≤ i ≤ c + r.
Proof.
  intros Hn H1 H2. rewrite Z.geb_leb, (i32_sub_small n), i32_sub_small, i32_add_small
    by (done || unfold in_i32; lia).
  destruct (Z.leb_spec 0 (c - r)), (Z.ltb_spec (c + r) n); lia.
Qed.

(** The cell of the robot. *)
Definition robot_cell (l : ValueIteratorLocal) (x y : f64) : Z * Z := world_cell (lv_base l) x y.

(** What a new window keeps, and that it lies in the map. *)
Lemma set_local_window_frame l x y t l' :
  0 ≤ vi_cell_num_x (lv_base l) < 2 ^ 31 → 0 ≤ vi_cell_num_y (lv_base l) < 2 ^ 31 →
  set_local_window cos sin l x y t = Ok l' → lv_base l' = lv_base l ∧ window_in_map l'.
Proof.
  intros Hnx Hny. unfold set_local_window. intros (l1 & Ha & E)%bind_ok.
  destruct (update_axes_frame l x y t l1 Ha) as [Hb Hs]. cbv zeta in E. destruct (rect_radii _) as [rx ry].
  injection E as <-. split; [done|]. unfold window_in_map. cbn. rewrite Hb.
  pose proof (window_axis (vi_cell_num_x (lv_base l)) (f64_as_i32 (ffloor (fdiv (fsub x
    (vi_map_origin_x (lv_base l))) (vi_xy_resolution (lv_base l))))) rx Hnx).
  pose proof (window_axis (vi_cell_num_y (lv_base l)) (f64_as_i32 (ffloor (fdiv (fsub y
    (vi_map_origin_y (lv_base l))) (vi_xy_resolution (lv_base l))))) ry Hny). tauto.
Qed.

(** C35: the window stays inside the map.  Wherever the robot is, even outside
    the map and even where the [i32] bounds wrap, [set_local_window] returns as
    soon as the axes update does (which never fails for a shape that does not
    stretch), leaves the field alone and gives a window whose cells all lie in
    the map, on which [in_local_area] never panics.  The square window is
    exactly the cells of the map within the radii of the robot's cell. *)
Theorem set_local_window_in_map l x y t :
  0 ≤ vi_cell_num_x (lv_base l) < 2 ^ 31 → 0 ≤ vi_cell_num_y (lv_base l) < 2 ^ 31 →
  (dynamic (shape (lv_shape l)) = false → ∃ l1, update_axes cos sin l x y t = Ok l1) ∧
  ∀ l1, update_axes cos sin l x y t = Ok l1 →
  ∃ l', set_local_window cos sin l x y t = Ok l' ∧ lv_base l' = lv_base l ∧
    window_in_map l' ∧ (∀ ix iy, in_local_area l' ix iy = Ok (win l' ix iy)) ∧
    (∀ ix iy, win l' ix iy = true → in_map_area (lv_base l) ix iy = true) ∧
    let c := robot_cell l x y in let r := rect_radii l in
    (shape (lv_shape l) = Square →
     in_i32 (c.1 - r.1) → in_i32 (c.1 + r.1) → in_i32 (c.2 - r.2) → in_i32 (c.2 + r.2) →
     ∀ ix iy, win l' ix iy = true ↔
       in_map_area (lv_base l) ix iy = true ∧ c.1 - r.1 ≤ ix ≤ c.1 + r.1 ∧ c.2 - r.2 ≤ iy ≤ c.2 + r.2).
Proof.
  intros Hnx Hny. split.
  { intros Hd. unfold update_axes. rewrite Hd. by eexists. }
  intros l1 Ha. destruct (update_axes_frame l x y t l1 Ha) as [Hb Hs].
  assert (∃ l', set_local_window cos sin l x y t = Ok l') as [l' El].
  { unfold set_local_window. rewrite Ha, ok_bind. cbv zeta. destruct (rect_radii _). by eexists. }
  destruct (set_local_window_frame l x y t l' Hnx Hny El) as [Hl Hw].
  exists l'. split; [done|]. split; [done|]. unfold set_local_window in El. rewrite Ha, ok_bind in El. cbv zeta in El.
  destruct (rect_radii _) as [rx ry] eqn:Er. injection El as El.
  unfold rect_radii in Er. cbn in Er. rewrite Hb, Hs in Er. fold (rect_radii l) in Er.
  assert (∀ ix iy, in_map_area (lv_base l) ix iy = true ↔
    0 ≤ ix < vi_cell_num_x (lv_base l) ∧ 0 ≤ iy < vi_cell_num_y (lv_base l)) as Hmap.
  { intros ix iy. unfold in_map_area. rewrite !andb_true_iff, !Z.leb_le, !Z.ltb_lt. tauto. }
  split; [done|]. split; [apply win_ok|]. split.
  { intros ix iy Hin. apply Hmap. rewrite <- Hl. by apply (win_map l'). }
  cbv zeta. intros Hsq H1 H2 H3 H4 ix iy. rewrite Hmap.
  rewrite Er in *. cbn [fst snd] in *. unfold robot_cell, world_cell in *. cbn [fst snd] in *.
  pose proof (window_axis_exact _ _ _ ix Hnx H1 H2) as Ex.
  pose proof (window_axis_exact _ _ _ iy Hny H3 H4) as Ey.
  assert (win l' ix iy = true ↔ lv_ix_min l' ≤ ix ≤ lv_ix_max l' ∧ lv_iy_min l' ≤ iy ≤ lv_iy_max l') as Hrect.
  { split; [apply win_rect|]. intros [Hx Hy]. unfold win, in_local_area.
    rewrite (proj2 (Z.ltb_ge _ _) (proj1 Hx)), (proj2 (Z.ltb_ge _ _) (proj1 Hy)), !Z.gtb_ltb,
      (proj2 (Z.ltb_ge _ _) (proj2 Hx)), (proj2 (Z.ltb_ge _ _) (proj2 Hy)). cbn [orb].
    assert (lv_shape l' = lv_shape l1) as -> by by rewrite <- El. by rewrite Hs, Hsq. }
  rewrite Hrect, <- El. cbn. rewrite Hb, Ex, Ey. tauto.
Qed.
End follow.

Lemma set_local_window_in_map_witness :
  ∃ l', set_local_window (fun _ => f1) (fun _ => f0) sample_local f2 f0 f0 = Ok l' ∧
    window_in_map l' ∧ ∀ ix iy, in_local_area l' ix iy = Ok (win l' ix iy).
Proof.
  destruct (set_local_window_in_map (fun _ => f1) (fun _ => f0) sample_local f2 f0 f0) as [H1 H2].
  - vm_compute. split; [discriminate|reflexivity].
  - vm_compute. split; [discriminate|reflexivity].
  - destruct (H1 eq_refl) as [l1 E]. destruct (H2 l1 E) as (l' & ? & _ & ? & ? & _). by exists l'.
Defined.

(** ** The sweep of the window *)

(** The states of a column of the window, and of the window in the order of
    the sweep. *)
Definition column_order (l : ValueIteratorLocal) (c : Z * Z) : list Z :=
  if win l c.1 c.2
  then (fun t => index (vi_cell_num_x (lv_base l)) (vi_cell_num_t (lv_base l)) c.1 c.2 t)
         <$> seqZ 0 (vi_cell_num_t (lv_base l))
  else [].

Definition window_order (l : ValueIteratorLocal) : list Z :=
  rect (lv_ix_min l) (lv_ix_max l) (lv_iy_min l) (lv_iy_max l) ≫= column_order l.

(** The planner after sequential updates of [order]. *)
Definition swept (l : ValueIteratorLocal) (order : list Z) : ValueIteratorLocal :=
  restates l (vi_updates (lv_base l) order).

Lemma swept_swept l o1 o2 : swept (swept l o1) o2 = swept l (o1 ++ o2).
Proof. unfold swept, restates, vi_updates, updates. cbn. by rewrite foldl_app. Qed.

Lemma swept_wf l order : wf_vi (lv_base l) → wf_vi (lv_base (swept l order)).
Proof. intros [Hd Hst Ha]. split; [done| |done]. cbn. unfold vi_updates. by apply updates_wf. Qed.

Lemma swept_zlen l order : zlen (vi_states (lv_base (swept l order))) = zlen (vi_states (lv_base l)).
Proof. cbn. unfold vi_updates. by rewrite updates_zlen. Qed.

Lemma swept_static l order : same_static (vi_states (lv_base (swept l order))) (vi_states (lv_base l)).
Proof. unfold swept. cbn. unfold vi_updates. apply updates_static. Qed.

Lemma sweep_indices order l :
  wf_vi (lv_base l) → in_field (lv_base l) order →
  for_each order (fun i l => r ← value_iteration_local l i; Ok r.1) l = Ok (swept l order).
Proof.
  revert l. induction order as [|i order IH]; intros l Hwf Ho.
  { unfold swept. f_equal. symmetry. apply restates_self. }
  inversion_clear Ho as [|?? Hi Ho']. cbn [for_each].
  assert (value_iteration_local l i = Ok (swept l [i], delta (vi_cell_num_x (lv_base l))
    (vi_cell_num_y (lv_base l)) (vi_cell_num_t (lv_base l)) (vi_actions (lv_base l)) (vi_states (lv_base l)) i))
    as -> by (unfold value_iteration_local; by rewrite value_iteration_at_eq).
  rewrite !ok_bind. cbn [fst].
  rewrite IH; [by rewrite swept_swept|by apply swept_wf|]. unfold in_field. by rewrite swept_zlen.
Qed.

Lemma column_order_field l c :
  wf_vi (lv_base l) → window_in_map l → in_field (lv_base l) (column_order l c).
Proof.
  intros [[? ? ? ?] [Hlen _] _] Hw. unfold column_order, in_field.
  destruct (win l c.1 c.2) eqn:E; [|constructor]. apply win_map in E; [|done].
  apply Forall_fmap, Forall_seqZ. intros t Ht. cbn. rewrite Hlen. apply index_bounds; lia.
Qed.

Lemma local_column_eq l x y :
  wf_vi (lv_base l) → window_in_map l → local_column x y l = Ok (swept l (column_order l (x, y))).
Proof.
  intros Hwf Hw. unfold local_column. rewrite win_ok, ok_bind.
  pose proof (column_order_field l (x, y) Hwf Hw) as Ho. unfold column_order in *. cbn [fst snd] in *.
  destruct (win l x y) eqn:E; cbn [negb].
  2:{ unfold swept. f_equal. symmetry. apply restates_self. }
  rewrite <- sweep_indices by done. rewrite for_each_fmap. unfold for_range. rewrite Z.sub_0_r.
  apply win_map in E; [|done]. pose proof Hwf as [Hd Hst _].
  assert (∀ order l', lv_base l' = with_states (lv_base l) (vi_states (lv_base l')) →
    Forall (fun t => 0 ≤ t < vi_cell_num_t (lv_base l)) order →
    for_each order (fun t l => r ← value_iteration_local l (as_u64 (to_index (lv_base l) x y t)); Ok r.1) l' =
    for_each order (fun t l0 => r ← value_iteration_local l0
      (index (vi_cell_num_x (lv_base l)) (vi_cell_num_t (lv_base l)) x y t); Ok r.1) l') as H.
  2:{ apply H; [by destruct (lv_base l)|]. by apply Forall_seqZ. }
  induction order as [|t order IH]; intros l' Hl' Hf; [done|]. cbn [for_each].
  inversion_clear Hf as [|?? Ht Hf'].
  assert (as_u64 (to_index (lv_base l') x y t) =
    index (vi_cell_num_x (lv_base l)) (vi_cell_num_t (lv_base l)) x y t) as ->.
  { rewrite Hl'. unfold to_index. cbn. rewrite (to_index_raw_small _ _ _ _ _ _ Hd) by lia.
    pose proof (index_bounds _ _ _ x y t (proj1 E) (proj2 E) Ht). pose proof (dims_total _ _ _ Hd).
    apply as_u64_small. unfold in_u64. lia. }
  unfold value_iteration_local. destruct (value_iteration_at (lv_base l') _) as [r| |] eqn:Ev; [|done..].
  rewrite !ok_bind. apply IH; [|done]. cbn. unfold value_iteration_at in Ev. inv_ok. by rewrite Hl'.
Qed.

Lemma local_loop_eq l :
  wf_vi (lv_base l) → window_in_map l →
  local_value_iteration_loop l = Ok (swept l (window_order l)).
Proof.
  intros Hwf Hw. unfold local_value_iteration_loop. rewrite for_rect. unfold window_order.
  generalize (rect (lv_ix_min l) (lv_ix_max l) (lv_iy_min l) (lv_iy_max l)) as cs. intros cs.
  revert l Hwf Hw. induction cs as [|[x y] cs IH]; intros l Hwf Hw.
  { unfold swept. cbn. f_equal. symmetry. apply restates_self. }
  cbn [for_each fst snd]. rewrite local_column_eq by done. rewrite ok_bind, IH by (done || by apply swept_wf).
  by rewrite swept_swept, bind_cons.
Qed.

Section order.
Context (l : ValueIteratorLocal) (Hwf : wf_vi (lv_base l)) (Hw : window_in_map l).

Lemma elem_of_window_order i s :
  zget (vi_states (lv_base l)) i = Some s → i ∈ window_order l ↔ in_win l s = true.
Proof.
  pose proof Hwf as [Hd Hst _]. intros Hs. destruct (ws_state _ _ _ _ Hst _ _ Hs) as [Hx Hy Ht -> _ _ _].
  unfold window_order. rewrite list_elem_of_bind. split.
  - intros ([x y] & Hi & _). unfold column_order in Hi. cbn [fst snd] in Hi.
    destruct (win l x y) eqn:E; [|by apply elem_of_nil in Hi].
    apply list_elem_of_fmap in Hi as (t & Ei & Ht'). apply elem_of_seqZ in Ht'. pose proof (win_map _ _ _ Hw E).
    apply (index_inj _ (vi_cell_num_y (lv_base l))) in Ei as (<- & <- & _); [done|lia..].
  - intros E. exists (s_ix s, s_iy s). split.
    + unfold column_order. cbn [fst snd]. unfold in_win in E. rewrite E. apply list_elem_of_fmap.
      exists (s_it s). split; [done|]. apply elem_of_seqZ. lia.
    + apply elem_of_window_rect. by apply win_rect in E.
Qed.

Lemma window_order_NoDup : NoDup (window_order l).
Proof.
  pose proof Hwf as [[? ? ? ?] _ _]. unfold window_order. apply NoDup_bind.
  - intros c c' i _ _ Hi Hi'. unfold column_order in *.
    destruct (win l c.1 c.2) eqn:E; [|by apply elem_of_nil in Hi].
    destruct (win l c'.1 c'.2) eqn:E'; [|by apply elem_of_nil in Hi'].
    apply list_elem_of_fmap in Hi as (t & -> & Ht), Hi' as (t' & Ei & Ht').
    apply elem_of_seqZ in Ht, Ht'. pose proof (win_map _ _ _ Hw E). pose proof (win_map _ _ _ Hw E').
    apply (index_inj _ (vi_cell_num_y (lv_base l))) in Ei as (? & ? & _); [|lia..].
    destruct c, c'. cbn in *. by subst.
  - intros c _. unfold column_order. destruct (win l c.1 c.2) eqn:E; [|constructor].
    pose proof (win_map _ _ _ Hw E). apply NoDup_fmap_2_strong; [|apply NoDup_seqZ].
    intros t t' Ht Ht' Ei. apply elem_of_seqZ in Ht, Ht'.
    by apply (index_inj _ (vi_cell_num_y (lv_base l))) in Ei as (_ & _ & ?); [|lia..].
  - apply NoDup_bind; [| |apply NoDup_seqZ].
    + intros x x' c _ _ (? & -> & _)%list_elem_of_fmap (? & [= ? _] & _)%list_elem_of_fmap. done.
    + intros x _. apply NoDup_fmap_2_strong; [|apply NoDup_seqZ]. by intros y y' _ _ [= ].
Qed.
End order.

(** C36: the local sweep is a sequential sweep of the window.  From a window in
    the map the loop returns without an index out of range; the field it leaves
    is the one after a Bellman update of each state of the window, in order
    and once each, so it is well formed, and no state outside the window
    changes.  A sweep that moves no value leaves every updatable state of the
    window Bellman consistent. *)
Theorem local_value_iteration_loop_spec l :
  wf_vi (lv_base l) → window_in_map l →
  let vi := lv_base l in
  ∃ l', local_value_iteration_loop l = Ok l' ∧ l' = swept l (window_order l) ∧
    NoDup (window_order l) ∧
    (∀ i s, zget (vi_states vi) i = Some s → i ∈ window_order l ↔ in_win l s = true) ∧
    wf_vi (lv_base l') ∧ same_static (vi_states (lv_base l')) (vi_states vi) ∧
    (∀ i s, zget (vi_states vi) i = Some s → in_win l s = false →
       zget (vi_states (lv_base l')) i = Some s) ∧
    ((∀ i, cost_at (vi_states (lv_base l')) i = cost_at (vi_states vi) i) →
     ∀ i s, zget (vi_states (lv_base l')) i = Some s → in_win l s = true → updatable s = true →
       consistent (vi_cell_num_x vi) (vi_cell_num_y vi) (vi_cell_num_t vi) (vi_actions vi)
         (vi_states (lv_base l')) s).
Proof.
  intros Hwf Hw. cbv zeta. pose proof Hwf as [Hd _ Ha].
  exists (swept l (window_order l)). split; [by apply local_loop_eq|]. split; [done|].
  split; [by apply window_order_NoDup|]. split; [by apply elem_of_window_order|].
  split; [by apply swept_wf|]. split; [apply swept_static|]. split.
  - intros i s Hs Hout. unfold swept. cbn. unfold vi_updates. rewrite updates_other; [done|].
    rewrite (elem_of_window_order l Hwf Hw i s Hs). by rewrite Hout.
  - intros Hstill i s Hs Hin Hu.
    apply (updates_consistent _ _ _ _ (vi_states (lv_base l)) (window_order l) i);
      [by apply window_order_NoDup| |done..|by intros].
    pose proof (swept_static l (window_order l) i) as Hst.
    rewrite Hs in Hst. destruct (zget (vi_states (lv_base l)) i) as [s0|] eqn:Hs0; [|done].
    injection Hst as ? ? Ex Ey ? ? ?. apply (elem_of_window_order l Hwf Hw i s0 Hs0).
    unfold in_win in *. by rewrite <- Ex, <- Ey.
Qed.

Lemma local_value_iteration_loop_spec_witness :
  ∃ l', local_value_iteration_loop sample_local = Ok l' ∧ l' = swept sample_local [0; 1; 2; 3] ∧
    wf_vi (lv_base l').
Proof.
  destruct (local_value_iteration_loop_spec sample_local (proj1 sample_local_ok) (proj2 sample_local_ok))
    as (l' & E & Ho & _ & _ & Hwf & _).
  exists l'. split; [exact E|]. split; [exact Ho|exact Hwf].
Defined.
