(* ===== verification/LocalScan.v ===== *)
(** * What a laser scan does to the window (vi_lib/src/local.rs)

    [set_local_cost_attenuated] as one repaint of the field: the decay and the
    hits of the beams act on the penalties state by state, in the order of the
    beams, and the optional clearing opens the cells the beams cross. *)

From Stdlib Require Import ZArith Lia.
From stdpp Require Import base gmap strings list numbers.
From S2P Require Import Prelude Floats Model Bellman Original MapSetup Distance LocalPlanner LocalSpec.

Section scan.
Context (cos sin : f64 → f64) (msg : LaserScan) (x y t : f64).

(** ** The beams *)

(** The fractions of a beam at which the decay looks. *)
Definition fractions : list f64 :=
  match points_upto 16 f0_1 f0_1 f0_9 with Ok ds => ds | _ => [] end.

Definition beam_angle (i : Z) : f64 :=
  fadd (fadd t (fmul (ls_angle_increment msg) (f64_of_Z i))) (ls_angle_min msg).
Definition beam_range (i : Z) : f64 := default f0 (zget (ls_ranges msg) i).

Definition hit_cell (vi : ValueIterator) (i : Z) : Z * Z :=
  let r := beam_range i in
  world_cell vi (fadd x (fmul r (cos (beam_angle i)))) (fadd y (fmul r (sin (beam_angle i)))).

Definition decay_cells (vi : ValueIterator) (i : Z) : list (Z * Z) :=
  let r := beam_range i in
  (fun d => world_cell vi (fadd x (fmul (fmul r (cos (beam_angle i))) d))
              (fadd y (fmul (fmul r (sin (beam_angle i))) d))) <$> fractions.

(** The square a hit fills. *)
Definition hit_square (vi : ValueIterator) (radius i : Z) : list (Z * Z) :=
  let c := hit_cell vi i in
  rect (i32_sub c.1 radius) (i32_add c.1 radius) (i32_sub c.2 radius) (i32_add c.2 radius).

(** The [local_penalty] of a state in the window after beam [i]. *)
Definition beam_penalty (vi : ValueIterator) (inject radius : Z) (s : State) (p i : Z) : Z :=
  if bool_decide ((s_ix s, s_iy s) ∈ hit_square vi radius i) then inject
  else p / 2 ^ Z.of_nat (visits (decay_cells vi i) s).

Lemma fractions_eq : points_upto 16 f0_1 f0_1 f0_9 = Ok fractions.
Proof. vm_compute. reflexivity. Qed.

#[local] Opaque fractions points_upto.

Lemma iter_halve n s : Nat.iter n halve s = with_local_penalty s (s_local_penalty s / 2 ^ Z.of_nat n).
Proof.
  induction n as [|n IH]; [cbn; rewrite Z.div_1_r; by destruct s|].
  change (Nat.iter (S n) halve s) with (halve (Nat.iter n halve s)). rewrite IH. unfold halve. cbn. unfold with_local_penalty. cbn. f_equal.
  rewrite Nat2Z.inj_succ, Z.pow_succ_r, Z.mul_comm by lia. apply Z.div_div; lia.
Qed.

(** What beam [i] does to a state. *)
Definition beam_effect (l : ValueIteratorLocal) (inject radius i : Z) (s : State) : State :=
  if in_win l s
  then with_local_penalty s (beam_penalty (lv_base l) inject radius s (s_local_penalty s) i) else s.

Lemma beam_effect_eq l inject radius i s :
  (let s' := if in_win l s then Nat.iter (visits (decay_cells (lv_base l) i) s) halve s else s in
   if in_win l s' && bool_decide ((s_ix s', s_iy s') ∈ hit_square (lv_base l) radius i) then hit inject s' else s')
  = beam_effect l inject radius i s.
Proof.
  unfold beam_effect, beam_penalty, in_win. destruct (win l (s_ix s) (s_iy s)) eqn:E; cbv zeta;
    [|by rewrite E].
  rewrite iter_halve. cbn. rewrite E. cbn. by case_bool_decide.
Qed.

Lemma div_pow_u64 p n : in_u64 p → in_u64 (p / 2 ^ Z.of_nat n).
Proof.
  induction n as [|n IH]; intros Hp; [by rewrite Z.div_1_r|].
  rewrite Nat2Z.inj_succ, Z.pow_succ_r, Z.mul_comm, <- Z.div_div by lia. by apply halve_u64, IH.
Qed.

Lemma Retouch_beam l inject radius i : in_u64 inject → Retouch (beam_effect l inject radius i).
Proof.
  intros Hi. split; intros s; unfold beam_effect; destruct (in_win l s); try done. cbn.
  intros Hp. unfold beam_penalty. case_bool_decide; [done|]. by apply div_pow_u64.
Qed.

Lemma scan_beam_eq l inject radius i :
  in_u64 inject → wf_vi (lv_base l) → window_in_map l → 0 ≤ i < zlen (ls_ranges msg) →
  scan_beam cos sin msg x y t inject radius i l = Ok (repaint (beam_effect l inject radius i) l).
Proof.
  intros Hi Hwf Hw Hr. unfold scan_beam. cbv zeta. destruct (zget_lt _ _ Hr) as [r Er].
  rewrite (proj2 (vget_ok _ _ _) Er), ok_bind. fold (beam_angle i).
  assert (beam_range i = r) as Hbr by (unfold beam_range; by rewrite Er).
  destruct (world_cell (lv_base l) _ _) as [ix iy] eqn:Ec.
  assert (hit_cell (lv_base l) i = (ix, iy)) as Hc by (unfold hit_cell; cbv zeta; by rewrite Hbr).
  rewrite fractions_eq, ok_bind.
  set (g := fun d => world_cell (lv_base l) (fadd x (fmul (fmul r (cos (beam_angle i))) d))
    (fadd y (fmul (fmul r (sin (beam_angle i))) d))).
  assert (decay_cells (lv_base l) i = g <$> fractions) as Hg by (unfold decay_cells; cbv zeta; by rewrite Hbr).
  rewrite (columns_if halve (fun _ => true) g); [|apply _|exact Hwf|exact Hw|].
  2:{ intros d h Hh _. change (world_cell (lv_base (repaint h l))) with (world_cell (lv_base l)).
      fold (g d). by destruct (g d). }
  assert (∀ ds : list f64, filter (fun _ => true = true) ds = ds) as Hall.
  { induction ds as [|d ds IH]; [done|]. by rewrite list.filter_cons, decide_True, IH. }
  rewrite Hall.
  rewrite <- Hg, columns_eq, ok_bind by first [assumption | apply _].
  rewrite for_rect, columns_once; [|by apply Retouch_hit|reflexivity| |exact Hw].
  2:{ apply repaint_wf; [|exact Hwf]. apply (Retouch_if _ (fun s => Nat.iter (visits (decay_cells (lv_base l) i) s) halve s)).
      - apply Retouch_iter. apply _.
      - apply _. }
  f_equal. rewrite repaint_repaint. apply repaint_ext. intros s _. rewrite <- beam_effect_eq. cbv zeta.
  unfold hit_square. rewrite Hc. done.
Qed.

(** ** Clearing *)

(** The cells a beam opens: the walk of [clear_cell], on the cells alone. *)
Definition trace_cell (l : ValueIteratorLocal) (wx wy : f64) (cs : list (Z * Z))
    : res (list (Z * Z) * bool) :=
  let c := world_cell (lv_base l) wx wy in
  if win l c.1 c.2 then Ok (cs ++ [c], true) else Ok (cs, false).

Definition opened (fuel : nat) (l : ValueIteratorLocal) : res (list (Z * Z)) :=
  if lv_clear_map_from_scan l
  then walk_beams cos sin fuel msg x y t (fmul (vi_xy_resolution (lv_base l)) f0_5)
         (vi_xy_resolution (lv_base l)) (trace_cell l) []
  else Ok [].

Definition clear_in (cs : list (Z * Z)) (s : State) : State :=
  if bool_decide ((s_ix s, s_iy s) ∈ cs) then clear s else s.

#[local] Instance Retouch_clear_in cs : Retouch (clear_in cs).
Proof. apply (Retouch_if _ clear (fun s => s)); apply _. Qed.

Lemma clear_in_app cs c s : clear_in (cs ++ [c]) s = (if at_cell c s then clear (clear_in cs s) else clear_in cs s).
Proof.
  unfold clear_in.
  assert (at_cell c s = true ↔ (s_ix s, s_iy s) = c) as Hc.
  { destruct c as [cx cy]. unfold at_cell. cbn. rewrite andb_true_iff, !Z.eqb_eq.
    split; [by intros [-> ->]|by intros [= -> ->]]. }
  destruct (at_cell c s).
  - rewrite bool_decide_true by (apply elem_of_app; right; apply list_elem_of_singleton; by apply Hc).
    by case_bool_decide.
  - assert ((s_ix s, s_iy s) ∈ cs ++ [c] ↔ (s_ix s, s_iy s) ∈ cs) as E.
    { rewrite elem_of_app, list_elem_of_singleton. split; [intros [?|?%Hc]; done|by left]. }
    by rewrite (bool_decide_ext _ _ E).
Qed.

Lemma clear_cell_eq l cs wx wy :
  wf_vi (lv_base l) → window_in_map l →
  clear_cell wx wy (repaint (clear_in cs) l) =
  (r ← trace_cell l wx wy cs; Ok (repaint (clear_in r.1) l, r.2)).
Proof.
  intros Hwf Hw. unfold clear_cell, trace_cell.
  change (world_cell (lv_base (repaint (clear_in cs) l))) with (world_cell (lv_base l)).
  destruct (world_cell (lv_base l) wx wy) as [bx by_]. cbn [fst snd]. rewrite win_ok, win_repaint, ok_bind.
  destruct (win l bx by_) eqn:E; cbn [negb]; [|done]. rewrite !ok_bind. cbn [fst snd].
  rewrite update_column_eq by first [assumption | apply _ | by apply repaint_wf; [apply _|]].
  rewrite ok_bind, repaint_repaint, win_repaint, E. cbn [andb]. do 2 f_equal. apply repaint_ext. intros s _.
  rewrite clear_in_app. assert (at_cell (bx, by_) (clear_in cs s) = at_cell (bx, by_) s) as ->; [|done].
  unfold clear_in. by destruct (bool_decide _).
Qed.

Lemma walk_beam_eq l fuel ca sa step stop d cs :
  wf_vi (lv_base l) → window_in_map l →
  walk_beam fuel clear_cell x y ca sa step stop d (repaint (clear_in cs) l) =
  (cs' ← walk_beam fuel (trace_cell l) x y ca sa step stop d cs; Ok (repaint (clear_in cs') l)).
Proof.
  intros Hwf Hw. revert d cs. induction fuel as [|fuel IH]; intros d cs; [done|]. cbn [walk_beam].
  destruct (flt d stop); [|done]. rewrite clear_cell_eq by done.
  destruct (trace_cell l _ _ cs) as [[cs' b]| |]; [|done..]. rewrite !ok_bind. cbn [fst snd].
  destruct b; cbn [negb]; [apply IH|done].
Qed.

Lemma walk_beams_eq l fuel step stop_back :
  wf_vi (lv_base l) → window_in_map l →
  walk_beams cos sin fuel msg x y t step stop_back clear_cell l =
  (cs ← walk_beams cos sin fuel msg x y t step stop_back (trace_cell l) []; Ok (repaint (clear_in cs) l)).
Proof.
  intros Hwf Hw. rewrite <- (repaint_id (clear_in []) l) at 1 by done. unfold walk_beams, for_range.
  generalize (@nil (Z * Z)) as cs. induction (seqZ 0 _) as [|i ids IH]; intros cs; [done|]. cbn [for_each].
  destruct (vget (ls_ranges msg) i) as [r| |]; [|done..]. rewrite !ok_bind, walk_beam_eq by done.
  destruct (walk_beam _ (trace_cell l) _ _ _ _ _ _ _ cs) as [cs'| |]; [|done..]. rewrite !ok_bind. apply IH.
Qed.

(** Only cells of the window are opened. *)
Definition all_win (l : ValueIteratorLocal) (cs : list (Z * Z)) : Prop := ∀ c, c ∈ cs → win l c.1 c.2 = true.

Lemma trace_cell_window l wx wy cs r : all_win l cs → trace_cell l wx wy cs = Ok r → all_win l r.1.
Proof.
  intros Hcs. unfold trace_cell. destruct (win l _ _) eqn:Ew; intros [= <-]; [|done].
  intros c [?|Hc%list_elem_of_singleton]%elem_of_app; subst; auto.
Qed.

Lemma walk_beam_window l fuel ca sa step stop d cs cs' :
  all_win l cs → walk_beam fuel (trace_cell l) x y ca sa step stop d cs = Ok cs' → all_win l cs'.
Proof.
  revert d cs. induction fuel as [|fuel IH]; intros d cs Hcs E; [done|]. cbn [walk_beam] in E.
  destruct (flt d stop); [|by injection E as <-]. apply bind_ok in E as (r & Et & E).
  apply trace_cell_window in Et; [|done]. destruct (negb r.2); [by injection E as <-|by eapply IH].
Qed.

Lemma opened_window fuel l cs : opened fuel l = Ok cs → all_win l cs.
Proof.
  unfold opened. destruct (lv_clear_map_from_scan l); [|by intros [= <-] c ?%elem_of_nil].
  unfold walk_beams, for_range. intros E.
  apply (for_each_ok_inv (fun _ cs => all_win l cs) _ _ _ _ E); [by intros c ?%elem_of_nil|].
  intros k i cs1 cs2 _ Hcs E2. inv_ok. by eapply walk_beam_window.
Qed.

(** ** The whole scan *)

Definition scan_inject (l : ValueIteratorLocal) (shift : Z) : Z :=
  u64_shl (scan_strength (lv_scan_penalty l) shift) PROB_BASE_BIT.
Definition scan_radius (l : ValueIteratorLocal) : Z :=
  f64_as_i32 (fceil (fdiv (lv_scan_penalty_radius l) (vi_xy_resolution (lv_base l)))).

(** The [local_penalty] of a state of the window after all the beams. *)
Definition scanned (l : ValueIteratorLocal) (shift : Z) (s : State) : Z :=
  foldl (beam_penalty (lv_base l) (scan_inject l shift) (scan_radius l) s) (s_local_penalty s)
    (seqZ 0 (zlen (ls_ranges msg))).

Lemma beam_penalty_cell vi inject radius s s' p i :
  s_ix s = s_ix s' → s_iy s = s_iy s' →
  beam_penalty vi inject radius s p i = beam_penalty vi inject radius s' p i.
Proof. intros Hx Hy. unfold beam_penalty. by rewrite (visits_cell _ s s'), Hx, Hy. Qed.

(** A run of beams keeps the penalties machine words. *)
Lemma beams_u64 vi inject radius s bs p :
  in_u64 inject → in_u64 p → in_u64 (foldl (beam_penalty vi inject radius s) p bs).
Proof.
  intros Hi. revert p. induction bs as [|i bs IH]; intros p Hp; [done|]. cbn. apply IH.
  unfold beam_penalty. case_bool_decide; [done|]. by apply div_pow_u64.
Qed.

Lemma Retouch_beams l vi inject radius bs :
  in_u64 inject → Retouch (fun s => if in_win l s
    then with_local_penalty s (foldl (beam_penalty vi inject radius s) (s_local_penalty s) bs) else s).
Proof. intros Hi. split; intros s; destruct (in_win l s); try done. intros Hp. by apply beams_u64. Qed.

(** A run of beams. *)
Lemma beams_eq l inject radius bs :
  in_u64 inject → wf_vi (lv_base l) → window_in_map l → Forall (fun i => 0 ≤ i < zlen (ls_ranges msg)) bs →
  for_each bs (scan_beam cos sin msg x y t inject radius) l =
  Ok (repaint (fun s => if in_win l s
    then with_local_penalty s (foldl (beam_penalty (lv_base l) inject radius s) (s_local_penalty s) bs) else s) l).
Proof.
  intros Hi. revert l. induction bs as [|i bs IH]; intros l Hwf Hw Hb.
  { rewrite repaint_id; [done|]. intros s _. destruct (in_win l s); [by destruct s|done]. }
  inversion_clear Hb as [|?? Hi' Hb']. cbn [for_each]. rewrite scan_beam_eq, ok_bind by done.
  rewrite IH by (done || by apply repaint_wf; [apply Retouch_beam|]). f_equal.
  rewrite repaint_repaint. apply repaint_ext. intros s _. unfold in_win at 1. rewrite win_repaint.
  unfold beam_effect. destruct (in_win l s) eqn:E; unfold in_win in E; cbn [s_ix s_iy with_local_penalty];
    rewrite E; [|done].
  unfold with_local_penalty. cbn. f_equal.
Qed.

Lemma scan_inject_u64 l shift : in_u64 (scan_inject l shift).
Proof. apply (wrap_u_range 64). lia. Qed.

Lemma scanned_bound l shift s :
  in_u64 (s_local_penalty s) →
  0 ≤ scanned l shift s ≤ Z.max (s_local_penalty s) (scan_inject l shift).
Proof.
  intros [H0 _]. unfold scanned. pose proof (scan_inject_u64 l shift) as [Hi _].
  set (b := Z.max _ _). assert (0 ≤ s_local_penalty s ≤ b) as Hp by lia.
  assert (scan_inject l shift ≤ b) as Hib by lia. clearbody b. revert Hp. generalize (s_local_penalty s) as p.
  induction (seqZ 0 _) as [|i ids IH]; intros p Hp; [done|]. cbn. apply IH. unfold beam_penalty.
  case_bool_decide; [lia|]. clear - Hp. induction (visits _ s) as [|n IH]; [by rewrite Z.div_1_r|].
  rewrite Nat2Z.inj_succ, Z.pow_succ_r, Z.mul_comm, <- Z.div_div by lia.
  pose proof (Z.div_le_upper_bound (p / 2 ^ Z.of_nat n) 2 (p / 2 ^ Z.of_nat n)) as Hle.
  split; [apply Z.div_pos; lia|]. lia.
Qed.

(** A scan is one repaint of the window. *)
Lemma set_local_cost_attenuated_eq fuel l shift :
  wf_vi (lv_base l) → window_in_map l →
  set_local_cost_attenuated cos sin fuel l msg x y t shift =
    (cs ← opened fuel l;
     Ok (repaint (fun s => if in_win l s
                           then clear_in cs (with_local_penalty s (scanned l shift s)) else s) l)).
Proof.
  intros Hwf Hw. unfold set_local_cost_attenuated. cbv zeta. fold (scan_inject l shift) (scan_radius l).
  pose proof (scan_inject_u64 l shift) as Hi. unfold for_range. rewrite Z.sub_0_r.
  rewrite beams_eq, ok_bind by (done || (apply Forall_seqZ; lia)).
  set (l1 := repaint _ l). change (lv_clear_map_from_scan l1) with (lv_clear_map_from_scan l).
  unfold opened. destruct (lv_clear_map_from_scan l) eqn:Ef.
  + assert (wf_vi (lv_base l1)) as Hwf1.
    { apply repaint_wf; [|done]. by apply Retouch_beams. }
    rewrite walk_beams_eq by done. change (trace_cell l1) with (trace_cell l).
    destruct (walk_beams _ _ _ _ _ _ _ _ _ (trace_cell l) []) as [cs| |] eqn:Ecs; [|done..].
    rewrite !ok_bind. f_equal. unfold l1. rewrite repaint_repaint. apply repaint_ext. intros s _.
    destruct (in_win l s) eqn:E; [done|]. unfold clear_in. case_bool_decide as Hin; [|done].
    assert (all_win l cs) as Hall by (apply (opened_window fuel); unfold opened; by rewrite Ef).
    apply Hall in Hin. unfold in_win in E. cbn in Hin. congruence.
  + rewrite ok_bind. f_equal.
Qed.

(** C37: what a scan does to the field, exactly.  From a window in the map the
    scan never panics.  Each state of the window gets the [local_penalty] that
    the beams leave in turn: the injected strength when it lies in the square
    around the hit, otherwise its old value halved once per sampled point of
    the beam in its cell; it never exceeds the larger of the old value and the
    strength.  With [clear_map_from_scan], the cells the beams cross - all in
    the window - become free at the base penalty.  Nothing else changes.  The
    fuel only bounds the walk of the clearing beams; without clearing the scan
    always returns. *)
Theorem set_local_cost_attenuated_spec fuel l shift :
  wf_vi (lv_base l) → window_in_map l →
  set_local_cost_attenuated cos sin fuel l msg x y t shift =
    (cs ← opened fuel l;
     Ok (repaint (fun s => if in_win l s
                           then clear_in cs (with_local_penalty s (scanned l shift s)) else s) l)) ∧
  (∀ cs, opened fuel l = Ok cs → all_win l cs) ∧
  (lv_clear_map_from_scan l = false → opened fuel l = Ok []) ∧
  (∀ s, s ∈ vi_states (lv_base l) →
     0 ≤ scanned l shift s ≤ Z.max (s_local_penalty s) (scan_inject l shift)).
Proof.
  intros Hwf Hw. split; [|split; [by apply opened_window|split]].
  - by apply set_local_cost_attenuated_eq.
  - intros Hf. unfold opened. by rewrite Hf.
  - intros s Hs. apply elem_of_zget in Hs as [i Hs]. apply scanned_bound.
    apply (so_lpen _ _ _ _ _ (ws_state _ _ _ _ (wv_states _ Hwf) _ _ Hs)).
Qed.
End scan.

(** One beam of two cells along the corridor, hitting its third cell. *)
Definition sample_scan : LaserScan := {| ls_angle_min := f0; ls_angle_increment := f0_1; ls_ranges := [f2] |}.

Example sample_scan_hits :
  (l ← set_local_cost (fun _ => f1) (fun _ => f0) 0 sample_local sample_scan f0 f0 f0;
   Ok (s_local_penalty <$> vi_states (lv_base l))) = Ok [0; 3 * PROB_BASE; 3 * PROB_BASE; 3 * PROB_BASE].
Proof. vm_compute. reflexivity. Qed.

Lemma set_local_cost_attenuated_spec_witness :
  set_local_cost_attenuated (fun _ => f1) (fun _ => f0) 0 sample_local sample_scan f0 f0 f0 1 =
  Ok (repaint (fun s => if in_win sample_local s
        then clear_in [] (with_local_penalty s (scanned (fun _ => f1) (fun _ => f0) sample_scan f0 f0 f0
                                                   sample_local 1 s)) else s) sample_local).
Proof.
  destruct (set_local_cost_attenuated_spec (fun _ => f1) (fun _ => f0) sample_scan f0 f0 f0 0 sample_local 1
    (proj1 sample_local_ok) (proj2 sample_local_ok)) as (E & _ & Ho & _).
  rewrite E, (Ho eq_refl). reflexivity.
Defined.
