(* ===== verification/Priority.v ===== *)
(** * The priority solvers (vi_lib/src/solvers/priority.rs)

    Cells leave a binary heap in the order of their values and relax their
    predecessors: settle once ([label_setting], Dijkstra) or as often as a
    label improves ([label_correcting]).  [BinaryHeap<Reverse<..>>] is a list
    whose [pop] takes a least entry; [sort_unstable] and [dedup] are their
    standard meaning. *)

From Stdlib Require Import ZArith Lia.
From stdpp Require Import base gmap strings list numbers.
From S2P Require Import Prelude Floats Model Bellman Observe Consistency Active.

(** ** Predecessors *)

Definition pred : Type := Z * Z * Z.

Definition pred_le (a b : pred) : bool :=
  (a.1.1 <? b.1.1) || ((a.1.1 =? b.1.1) &&
    ((a.1.2 <? b.1.2) || ((a.1.2 =? b.1.2) && (a.2 <=? b.2)))).

Fixpoint insert_sorted (x : pred) (l : list pred) : list pred :=
  match l with
  | [] => [x]
  | y :: l' => if pred_le x y then x :: l else y :: insert_sorted x l'
  end.

Definition sort_unstable (l : list pred) : list pred := foldr insert_sorted [] l.

(** [dedup]: one of every run of equal elements stays. *)
Fixpoint dedup (l : list pred) : list pred :=
  match l with
  | x :: l' => match l' with
               | y :: _ => if decide (x = y) then dedup l' else x :: dedup l'
               | [] => l
               end
  | [] => []
  end.

(** The heading a transition lands on: [((dit % nt) + nt) % nt]. *)
Definition landing (nt : Z) (st : StateTransition) : res Z :=
  r ← i32_rem (dit st) nt; r ← i32_rem (i32_add r nt) nt; Ok (as_u64 r).

Definition rev_step (nt t : Z) (st : StateTransition) (rev : list (list pred)) : res (list (list pred)) :=
  itp ← landing nt st;
  b ← vget rev itp;
  vset rev itp (b ++ [(dix st, diy st, as_i32 t)]).

Definition rev_push (nt : Z) (acts : list Action) (rev : list (list pred)) : res (list (list pred)) :=
  for_each acts (fun a rev =>
    for_each (enumerated (a_state_transitions a)) (fun tt rev =>
      for_each tt.2 (rev_step nt tt.1) rev) rev) rev.

Definition build_rev_theta (vi : ValueIterator) : res (list (list pred)) :=
  let nt := vi_cell_num_t vi in
  rev ← rev_push nt (vi_actions vi) (vec_repeat [] nt);
  Ok ((fun b => dedup (sort_unstable b)) <$> (rev : list (list pred))).

(** ** One relaxation *)

Definition relax_cell (vi : ValueIterator) (idx : Z) : res (ValueIterator * option Z) :=
  s ← vget (vi_states vi) idx;
  let before := s_total_cost s in
  r ← value_iteration_at vi idx;
  s ← vget (vi_states r.1) idx;
  let after := s_total_cost s in
  Ok (r.1, if after <? before then Some after else None).

(** ** The heap *)

Definition entry_le (a b : Z * Z) : bool := (a.1 <? b.1) || ((a.1 =? b.1) && (a.2 <=? b.2)).

Fixpoint heap_pop (h : list (Z * Z)) : option ((Z * Z) * list (Z * Z)) :=
  match h with
  | [] => None
  | x :: h' => match heap_pop h' with
               | None => Some (x, [])
               | Some (m, r) => if entry_le x m then Some (x, h') else Some (m, x :: r)
               end
  end.

(** ** The solver *)

Record PrioStats : Type := {
  ps_iters : Z; ps_updates : Z; ps_converged : bool; ps_repops : Z
}.

Section priority.
Context {S : Type} (obs : SolveObserver S) (label_setting : bool).

(** The variables of the loop. *)
Record PrioState : Type := mkPrio {
  pr_vi : ValueIterator; pr_heap : list (Z * Z);
  pr_settled : list bool; pr_popped : list bool;
  pr_next : Z; pr_pops : Z; pr_iters : Z; pr_updates : Z; pr_repops : Z;
  pr_obs : S
}.

Definition pr_stats (st : PrioState) (converged : bool) : PrioStats :=
  {| ps_iters := pr_iters st; ps_updates := pr_updates st; ps_converged := converged;
     ps_repops := pr_repops st |}.

(** One entry of the bucket of the popped cell. *)
Definition relax_pred (settled : list bool) (ix iy : Z) (p : pred)
    (acc : ValueIterator * list (Z * Z) * Z) : res (ValueIterator * list (Z * Z) * Z) :=
  let '(vi, heap, updates) := acc in
  let '(dx, dy, t) := p in
  let px := i32_sub ix dx in
  let py := i32_sub iy dy in
  if (px <? 0) || (px >=? vi_cell_num_x vi) || (py <? 0) || (py >=? vi_cell_num_y vi) then Ok acc else
  let pidx := as_u64 (to_index_raw px py t (vi_cell_num_x vi) (vi_cell_num_t vi)) in
  done ← (if label_setting then vget settled pidx else Ok false);
  if (done : bool) then Ok acc else
  s ← vget (vi_states vi) pidx;
  if negb (s_free s) || s_final_state s then Ok acc else
  r ← relax_cell vi pidx;
  match r.2 with
  | Some newlab => Ok (r.1, (newlab, pidx) :: heap, u64_add updates 1)
  | None => Ok (r.1, heap, updates)
  end.

(** The relaxations of a fresh pop. *)
Definition expand (rev : list (list pred)) (s_star : Z) (st : PrioState) : res PrioState :=
  s ← vget (vi_states (pr_vi st)) s_star;
  bucket ← vget rev (as_u64 (s_it s));
  r ← for_each bucket (relax_pred (pr_settled st) (s_ix s) (s_iy s))
        (pr_vi st, pr_heap st, pr_updates st);
  let '(vi, heap, updates) := r in
  Ok (mkPrio vi heap (pr_settled st) (pr_popped st) (pr_next st) (pr_pops st)
        (u64_add (pr_iters st) 1) updates (pr_repops st) (pr_obs st)).

(** A popped entry whose label is current. *)
Definition visit (rev : list (list pred)) (s_star : Z) (st : PrioState) : res PrioState :=
  if label_setting then
    done ← vget (pr_settled st) s_star;
    if (done : bool) then Ok st else
    settled ← vset (pr_settled st) s_star true;
    expand rev s_star (mkPrio (pr_vi st) (pr_heap st) settled (pr_popped st) (pr_next st) (pr_pops st)
      (pr_iters st) (pr_updates st) (pr_repops st) (pr_obs st))
  else
    again ← vget (pr_popped st) s_star;
    popped ← (if (again : bool) then Ok (pr_popped st) else vset (pr_popped st) s_star true);
    expand rev s_star (mkPrio (pr_vi st) (pr_heap st) (pr_settled st) popped (pr_next st) (pr_pops st)
      (pr_iters st) (pr_updates st) (if (again : bool) then u64_add (pr_repops st) 1 else pr_repops st)
      (pr_obs st)).

(** The boundary every [stride] pops. *)
Definition pop_boundary (stride : Z) (st : PrioState) : PrioState * SolveFlow :=
  if pr_pops st >=? pr_next st then
    let '(o, flow) := ob_boundary obs (pr_obs st)
      {| p_iters := Z.min (pr_iters st) U32_MAX; p_updates := pr_updates st; p_policy := pr_vi st |} in
    (mkPrio (pr_vi st) (pr_heap st) (pr_settled st) (pr_popped st) (u64_sat_add (pr_pops st) stride)
       (pr_pops st) (pr_iters st) (pr_updates st) (pr_repops st) o, flow)
  else (st, Continue).

Fixpoint priority_loop (fuel : nat) (pop_cap stride : Z) (rev : list (list pred)) (st : PrioState)
    : res (PrioState * PrioStats * SolveFlow) :=
  match fuel with
  | O => OutOfFuel
  | Datatypes.S fuel =>
      match heap_pop (pr_heap st) with
      | None => Ok (st, pr_stats st true, Continue)
      | Some ((lab, s_star), heap) =>
          let st := mkPrio (pr_vi st) heap (pr_settled st) (pr_popped st) (pr_next st)
            (u64_add (pr_pops st) 1) (pr_iters st) (pr_updates st) (pr_repops st) (pr_obs st) in
          if pr_pops st >? pop_cap then Ok (st, pr_stats st false, Continue) else
          let '(st, flow) := pop_boundary stride st in
          if negb (bool_decide (flow = Continue)) then Ok (st, pr_stats st false, flow) else
          s ← vget (vi_states (pr_vi st)) s_star;
          if negb (lab =? s_total_cost s) then priority_loop fuel pop_cap stride rev st else
          st ← visit rev s_star st;
          priority_loop fuel pop_cap stride rev st
      end
  end.

(** The labels the heap starts with. *)
Definition seed_heap (states : list State) : list (Z * Z) :=
  foldl (fun h e => if s_total_cost e.2 <? MAX_COST then (s_total_cost e.2, e.1) :: h else h) []
    (enumerated states).

Definition pop_cap_of (n max_iter : Z) : Z := u64_sat_mul n (Z.max max_iter 1).

Definition stride_of (n interval : Z) : Z :=
  u64_sat_mul (Z.min (Z.max (n / 16) 64) 65536) (Z.max interval 1).

Definition priority_solve_inner (max_iter : Z) (vi : ValueIterator) (o : S)
    : res (ValueIterator * S * PrioStats * SolveFlow) :=
  rev ← build_rev_theta vi;
  let n := zlen (vi_states vi) in
  let stride := stride_of n (ob_interval obs o) in
  r ← priority_loop (Datatypes.S (Z.to_nat (pop_cap_of n max_iter))) (pop_cap_of n max_iter) stride rev
        (mkPrio vi (seed_heap (vi_states vi))
           (vec_repeat false (if label_setting then n else 0))
           (vec_repeat false (if label_setting then 0 else n)) stride 0 0 0 0 o);
  let '(st, stats, flow) := r in
  Ok (pr_vi st, pr_obs st, stats, flow).

Definition priority_solve_observed (max_iter : Z) (vi : ValueIterator) (o : S)
    : res (ValueIterator * S * SolveOutcome) :=
  r ← priority_solve_inner max_iter vi o;
  let '(vi, o, st, flow) := r in
  let iters := Z.min (ps_iters st) U32_MAX in
  Ok (vi, o, match flow with
             | Stop => stopped iters (ps_updates st)
             | Cancel => cancelled iters (ps_updates st)
             | Continue => running iters (ps_updates st) (ps_converged st)
             end).
End priority.
Arguments PrioState : clear implicits.

Definition priority_solve (label_setting : bool) (max_iter : Z) (vi : ValueIterator)
    : res (ValueIterator * PrioStats) :=
  r ← priority_solve_inner NullObserver label_setting max_iter vi ();
  Ok (r.1.1.1, r.1.2).

Example corridor_prioritised :
  (r ← priority_solve false 10 (corridor 4);
   Ok (s_total_cost <$> vi_states r.1, ps_iters r.2, ps_converged r.2, ps_repops r.2))
  = Ok ([0; 262144; 524288; 786432], 4, true, 0).
Proof. vm_compute. reflexivity. Qed.
