(* ===== verification/PrioritySpec.v ===== *)
(** * What the priority solvers guarantee (vi_lib/src/solvers/priority.rs)

    Termination within the pop cap without an index out of range, settling
    once, and what a converged label-correcting run leaves behind.  The
    certificate is the pending-cell invariant of Consistency.v with the heap
    in the part of the active set. *)

From Stdlib Require Import ZArith Lia.
From stdpp Require Import base gmap strings list numbers.
From S2P Require Import Prelude Floats Model Bellman Observe Consistency Original Active Priority.

(** ** Sorting and the heap *)

Lemma elem_of_insert_sorted x y l : y ∈ insert_sorted x l ↔ y = x ∨ y ∈ l.
Proof.
  induction l as [|z l IH]; cbn; [by rewrite list_elem_of_singleton, elem_of_nil; tauto|].
  destruct (pred_le x z); rewrite !elem_of_cons, ?IH; tauto.
Qed.

Lemma elem_of_sort y l : y ∈ sort_unstable l ↔ y ∈ l.
Proof.
  induction l as [|x l IH]; [done|]. unfold sort_unstable in *. cbn.
  by rewrite elem_of_insert_sorted, elem_of_cons, IH.
Qed.

Lemma elem_of_dedup y l : y ∈ dedup l ↔ y ∈ l.
Proof.
  induction l as [|x [|z l] IH]; [done|done|]. cbn [dedup] in *.
  destruct (decide (x = z)) as [->|]; rewrite !elem_of_cons in *; rewrite IH; tauto.
Qed.

Lemma heap_pop_None h : heap_pop h = None → h = [].
Proof. destruct h as [|x h]; [done|]. cbn. destruct (heap_pop h) as [[m r]|]; [by destruct (entry_le x m)|done]. Qed.

Lemma heap_pop_Some h m r : heap_pop h = Some (m, r) → h ≡ₚ m :: r.
Proof.
  revert m r. induction h as [|x h IH]; intros m r; [done|]. cbn.
  destruct (heap_pop h) as [[m' r']|] eqn:E.
  - specialize (IH m' r' eq_refl). destruct (entry_le x m'); intros [= <- <-]; [done|].
    rewrite IH. constructor.
  - intros [= <- <-]. by rewrite (heap_pop_None _ E).
Qed.

(** ** The predecessor table *)

Section rev.
Context (nx ny nt : Z) (acts : list Action).
Context (Hd : dims_ok nx ny nt) (Ha : Forall (wf_action nt) acts).

(** [tr] can be taken from heading [t]. *)
Definition taken (t : Z) (tr : StateTransition) : Prop :=
  ∃ a trs, a ∈ acts ∧ zget (a_state_transitions a) t = Some trs ∧ tr ∈ trs.

Definition holds (t : Z) (tr : StateTransition) (rev : list (list pred)) : Prop :=
  ∃ b, zget rev (Z.rem (dit tr + nt) nt) = Some b ∧ (dix tr, diy tr, t) ∈ b.

(** Every entry of the table comes from a transition. *)
Definition entries_ok (rev : list (list pred)) : Prop :=
  zlen rev = nt ∧ ∀ k b p, zget rev k = Some b → p ∈ b → ∃ tr, taken p.2 tr ∧ p.1 = (dix tr, diy tr) ∧
    k = Z.rem (dit tr + nt) nt.

Definition rev_le (r r' : list (list pred)) : Prop :=
  ∀ k b, zget r k = Some b → ∃ b', zget r' k = Some b' ∧ ∀ p, p ∈ b → p ∈ b'.

#[local] Instance rev_le_preorder : PreOrder rev_le.
Proof.
  split; [intros r k b Hb; by exists b|].
  intros r1 r2 r3 H12 H23 k b Hb. destruct (H12 k b Hb) as (b2 & Hb2 & H2).
  destruct (H23 k b2 Hb2) as (b3 & Hb3 & H3). exists b3. split; [done|]. auto.
Qed.

Lemma holds_le t tr r r' : holds t tr r → rev_le r r' → holds t tr r'.
Proof. intros (b & Hb & Hin) Hle. destruct (Hle _ _ Hb) as (b' & ? & ?). exists b'. auto. Qed.

Lemma taken_wf t tr : taken t tr → 0 ≤ t < nt ∧ wf_trans nt tr.
Proof.
  intros (a & trs & Hin & Hget & Htr).
  pose proof (proj1 (List.Forall_forall _ _) Ha a (proj1 (list_elem_of_In _ _) Hin)) as [Hlen Hwt].
  split; [rewrite <- Hlen; by eapply zget_Some_lt|by eapply Hwt].
Qed.

Lemma landing_eq tr : wf_trans nt tr → landing nt tr = Ok (Z.rem (dit tr + nt) nt).
Proof.
  intros Hw. pose proof Hw as [_ _ [Hdt Hsum] _]. destruct Hd as [_ _ Ht _].
  pose proof (target_theta nt tr Ht Hw) as Hth.
  unfold landing, i32_rem. rewrite (proj2 (Z.eqb_neq nt 0)) by lia.
  rewrite (proj2 (Z.eqb_neq nt (-1))), !andb_false_r by lia. rewrite !ok_bind.
  pose proof (Z.rem_bound_pos (dit tr) nt ltac:(lia) ltac:(lia)).
  pose proof (Z.rem_le (dit tr) nt ltac:(lia) ltac:(lia)).
  rewrite i32_add_small by (unfold in_i32; lia).
  assert (Z.rem (Z.rem (dit tr) nt + nt) nt = Z.rem (dit tr + nt) nt) as ->.
  { rewrite !Z.rem_mod_nonneg by lia. rewrite Z.add_mod_idemp_l by lia. done. }
  rewrite andb_false_r, ok_bind, as_u64_small; [done|unfold in_u64; lia].
Qed.

Lemma rev_step_ok t tr rev :
  entries_ok rev → taken t tr →
  ∃ rev', rev_step nt t tr rev = Ok rev' ∧ entries_ok rev' ∧ rev_le rev rev' ∧ holds t tr rev'.
Proof.
  intros [Hlen Hrev] Htk. destruct (taken_wf t tr Htk) as [Ht Hw]. pose proof (dims_t _ _ _ Hd).
  pose proof (target_theta nt tr ltac:(lia) Hw) as Hth.
  unfold rev_step. rewrite landing_eq, ok_bind by done.
  destruct (zget_lt rev (Z.rem (dit tr + nt) nt)) as [b Hb]; [lia|].
  rewrite (proj2 (vget_ok _ _ _) Hb), ok_bind, vset_ok by lia.
  assert (as_i32 t = t) as ->.
  { pose proof (dims_total _ _ _ Hd). destruct Hd. apply as_i32_small.
    assert (1 ≤ nx * ny) by nia. assert (1 * nt ≤ nx * ny * nt) by (apply Z.mul_le_mono_nonneg_r; lia). lia. }
  eexists. split; [done|]. split; [|split].
  - split; [by rewrite zlen_zset|]. intros k b' p. rewrite zget_zset by lia.
    destruct (decide _) as [<-|]; [|by apply Hrev]. intros [= <-].
    rewrite elem_of_app, list_elem_of_singleton. intros [Hp| ->]; [by apply (Hrev _ b)|].
    exists tr. done.
  - intros k b0 Hb0. rewrite zget_zset by lia. destruct (decide _) as [<-|]; [|by exists b0].
    eexists. split; [done|]. intros p Hp. apply elem_of_app. left. congruence.
  - eexists. split; [by rewrite zget_zset_eq by lia|]. apply elem_of_app. right. by left.
Qed.

Lemma rev_push_ok :
  ∃ rev, rev_push nt acts (vec_repeat [] nt) = Ok rev ∧ entries_ok rev ∧
    ∀ t tr, taken t tr → holds t tr rev.
Proof.
  pose proof (dims_t _ _ _ Hd).
  destruct (for_each_mono entries_ok rev_le
    (fun a rev => ∀ t trs tr, zget (a_state_transitions a) t = Some trs → tr ∈ trs → holds t tr rev)
    acts (fun a rev => for_each (enumerated (a_state_transitions a)) (fun tt rev =>
      for_each tt.2 (rev_step nt tt.1) rev) rev) (vec_repeat [] nt)) as (rev & E & Hok & _ & Hall).
  - apply _.
  - intros a r r' H1 Hle t trs tr ? ?. eapply holds_le; [by eapply H1|done].
  - split; [apply zlen_repeat; lia|]. intros k b p Hb. pose proof (zget_Some_lt _ _ _ Hb) as Hk.
    rewrite zlen_repeat in Hk by lia. rewrite zget_repeat in Hb by done. injection Hb as <-. by intros ?%elem_of_nil.
  - intros a rev Hin Hok.
    destruct (for_each_mono entries_ok rev_le (fun tt rev => ∀ tr, tr ∈ tt.2 → holds tt.1 tr rev)
      (enumerated (a_state_transitions a)) (fun tt rev => for_each tt.2 (rev_step nt tt.1) rev) rev)
      as (rev1 & E1 & Hok1 & Hle1 & Hall1); [apply _| |done| |].
    + intros tt r r' H1 Hle tr ?. eapply holds_le; eauto.
    + intros [t trs] r Htt Hr. apply elem_of_enumerated in Htt. cbn.
      apply (for_each_mono entries_ok rev_le (fun tr r => holds t tr r)); [apply _| |done|].
      * intros tr r1 r2. apply holds_le.
      * intros tr r1 Htr Hr1. apply rev_step_ok; [done|]. by exists a, trs.
    + exists rev1. split; [done|]. split; [done|]. split; [done|]. intros t trs tr Hg Htr.
      apply (Hall1 (t, trs)); [by apply elem_of_enumerated|done].
  - exists rev. split; [done|]. split; [done|]. intros t tr (a & trs & Hin & Hg & Htr). by eapply Hall.
Qed.
End rev.

(** The table of a planner. *)
Lemma build_rev_theta_ok vi :
  wf_vi vi → ∃ rev, build_rev_theta vi = Ok rev ∧
    entries_ok (vi_cell_num_t vi) (vi_actions vi) rev ∧
    ∀ t tr, taken (vi_actions vi) t tr → holds (vi_cell_num_t vi) t tr rev.
Proof.
  intros [Hd _ Ha]. unfold build_rev_theta.
  destruct (rev_push_ok _ _ _ _ Hd Ha) as (rev & -> & [Hlen Hok] & Hall). rewrite ok_bind.
  eexists. split; [done|]. split; [split|].
  - by rewrite zlen_fmap.
  - intros k b p. rewrite zget_fmap. destruct (zget rev k) as [b0|] eqn:Hb; [|done]. intros [= <-].
    rewrite elem_of_dedup, elem_of_sort. by apply Hok.
  - intros t tr H. destruct (Hall t tr H) as (b & Hb & Hin). eexists. rewrite zget_fmap, Hb.
    split; [done|]. by rewrite elem_of_dedup, elem_of_sort.
Qed.

(** ** One relaxation *)

Section run.
Context (vi0 : ValueIterator) (Hwf0 : wf_vi vi0).
Let nx := vi_cell_num_x vi0.
Let ny := vi_cell_num_y vi0.
Let nt := vi_cell_num_t vi0.
Let acts := vi_actions vi0.

(** From [i], some transition lands on [j]. *)
Definition leads (i j : Z) : Prop :=
  ∃ s tr, zget (vi_states vi0) i = Some s ∧ taken acts (s_it s) tr ∧ inside nx ny s tr = true ∧
    j = target nx nt s tr.

(** The fields a priority run can pass through: only cells that lead to a cell
    reached before are updated; [R] are cells that have been reached. *)
Inductive relaxed : list Z → list State → Prop :=
  | relaxed_start : relaxed [] (vi_states vi0)
  | relaxed_reach R st j v : relaxed R st → cost_at st j = Some v → v < MAX_COST → relaxed (j :: R) st
  | relaxed_step R st i j : relaxed R st → j ∈ R → leads i j → relaxed R (update nx ny nt acts st i).

(** On the way of some priority run, an update raises the value of [i]. *)
Definition raised (i : Z) : Prop :=
  ∃ R st j a b, relaxed R st ∧ j ∈ R ∧ leads i j ∧ cost_at st i = Some a ∧
    cost_at (update nx ny nt acts st i) i = Some b ∧ a < b.

(** The cells whose readers are still owed a relaxation. *)
Definition active (st : list State) (heap : list (Z * Z)) (j : Z) : Prop :=
  (∃ v, cost_at st j = Some v ∧ (v, j) ∈ heap) ∨ raised j.

Definition pend (prev todo : Z → Prop) (vi : ValueIterator) (heap : list (Z * Z)) : Prop :=
  pending_inv nx ny nt acts (vi_states vi0) (vi_states vi) prev todo (active (vi_states vi) heap).

(** [L] are cells known to have been reached. *)
Record core (L : list Z) (vi : ValueIterator) (heap : list (Z * Z)) : Prop := {
  co_wf : wf_vi vi;
  co_inplace : inplace vi0 vi;
  co_run : ∃ R, relaxed R (vi_states vi) ∧ ∀ j, j ∈ L → j ∈ R;
  co_heap : ∀ e, e ∈ heap → e.1 < MAX_COST ∧ 0 ≤ e.2 < zlen (vi_states vi0)
}.

Lemma core_reach vi heap j v :
  core [] vi heap → cost_at (vi_states vi) j = Some v → v < MAX_COST → core [j] vi heap.
Proof.
  intros [? ? (R & HR & _) ?] Hv Hlt. split; [done|done| |done]. exists (j :: R).
  split; [by eapply relaxed_reach|]. intros k ->%list_elem_of_singleton. left.
Qed.

Lemma core_forget L vi heap : core L vi heap → core [] vi heap.
Proof. intros [? ? (R & HR & _) ?]. split; [done|done| |done]. exists R. split; [done|]. by intros j ?%elem_of_nil. Qed.

Lemma pend_shrink prev todo todo' vi heap :
  pend prev todo vi heap →
  (∀ i s, zget (vi_states vi) i = Some s → updatable s = true → todo i →
     (∃ j, j ∈ reads nx ny nt acts (vi_states vi) s ∧ prev j) → todo' i) →
  pend prev todo' vi heap.
Proof.
  intros H Ht i s Hs Hu. destruct (H i s Hs Hu) as [?|[?|[(H1 & H2)|?]]]; [by left|by right; left| |by do 3 right].
  do 2 right. left. split; [|done]. by eapply Ht.
Qed.

Lemma pend_prev prev prev' vi heap : pend prev (fun _ => False) vi heap → pend prev' (fun _ => False) vi heap.
Proof.
  intros H i s Hs Hu. destruct (H i s Hs Hu) as [?|[?|[([] & _)|?]]]; [by left|by right; left|by do 3 right].
Qed.

Lemma cost_at_lt st j : 0 ≤ j < zlen st → ∃ v, cost_at st j = Some v.
Proof. intros Hj. unfold cost_at. destruct (zget_lt _ _ Hj) as [s ->]. by eexists. Qed.

Lemma relax_cell_spec vi heap i j0 :
  core [j0] vi heap → 0 ≤ i < zlen (vi_states vi0) → leads i j0 →
  ∃ vi' lab, relax_cell vi i = Ok (vi', lab) ∧
    let heap' := match lab with Some v => (v, i) :: heap | None => heap end in
    core [j0] vi' heap' ∧
    ∀ prev (todo todo' : Z → Prop), pend prev todo vi heap → (∀ k, todo k → k = i ∨ todo' k) →
      pend prev todo' vi' heap'.
Proof.
  intros [Hwf Hip (R & HR & HL) Hh] Hi Hlead.
  destruct (inplace_fields vi0 vi Hip) as (Ex & Ey & Et & Ea & El).
  pose proof Hwf as [Hd Hst Ha]. unfold relax_cell.
  destruct (zget_lt (vi_states vi) i) as [s Hs]; [lia|].
  rewrite (proj2 (vget_ok _ _ _) Hs), ok_bind. cbv zeta.
  rewrite value_iteration_at_eq, ok_bind by (done || lia). cbn [fst snd vi_states with_states].
  rewrite Ex, Ey, Et, Ea. fold nx ny nt acts. set (st' := update nx ny nt acts (vi_states vi) i).
  assert (zlen st' = zlen (vi_states vi)) as Hl' by apply zlen_update.
  destruct (zget_lt st' i) as [s' Hs']; [lia|]. rewrite (proj2 (vget_ok _ _ _) Hs'), ok_bind.
  eexists _, _. split; [done|]. cbv zeta.
  assert (cost_at (vi_states vi) i = Some (s_total_cost s)) as Hc by (unfold cost_at; by rewrite Hs).
  assert (cost_at st' i = Some (s_total_cost s')) as Hc' by (unfold cost_at; by rewrite Hs').
  assert (∀ j, active (vi_states vi) heap j → j ≠ i →
    active st' (match (if s_total_cost s' <? s_total_cost s then Some (s_total_cost s') else None) with
                | Some v => (v, i) :: heap | None => heap end) j) as Hkeep.
  { intros j [(v & Hv & Hin)|Hr] Hne; [|by right]. left. exists v. split.
    - unfold st'. by rewrite cost_update_ne.
    - destruct (_ <? _); [by right|done]. }
  split.
  - split; cbn [vi_states with_states].
    + rewrite Ex, Ey, Et, Ea in *. split; cbn; [by rewrite Ex, Ey, Et| |by rewrite Ea, Et].
      rewrite Ex, Ey, Et. by apply update_wf.
    + eapply inplace_trans; [exact Hip|]. split; [done|]. apply update_static.
    + exists R. split; [|done]. eapply relaxed_step; [done| |done]. apply HL. left.
    + intros e He. destruct (Z.ltb_spec (s_total_cost s') (s_total_cost s)); [|by apply Hh].
      apply elem_of_cons in He as [->|He]; [|by apply Hh]. cbn.
      pose proof (so_cost _ _ _ _ _ (ws_state _ _ _ _ Hst _ _ Hs)). split; [lia|done].
  - intros prev todo todo' Hp Ht. unfold pend in *. cbn [vi_states with_states]. fold st'.
    assert (delta nx ny nt acts (vi_states vi) i ≠ 0 → s_total_cost s' ≠ s_total_cost s) as Hdelta.
    { intros Hdz Heq. apply Hdz, delta_zero. fold st'. by rewrite Hc, Hc', Heq. }
    assert (s_total_cost s' ≠ s_total_cost s →
      active st' (match (if s_total_cost s' <? s_total_cost s then Some (s_total_cost s') else None) with
                | Some v => (v, i) :: heap | None => heap end) i) as Hmoved.
    { intros Hne. destruct (Z.ltb_spec (s_total_cost s') (s_total_cost s)).
      - left. exists (s_total_cost s'). split; [done|]. by left.
      - right. exists R, (vi_states vi), j0, (s_total_cost s), (s_total_cost s').
        split; [done|]. split; [apply HL; left|]. split; [done|]. split; [done|]. split; [done|]. lia. }
    eapply pending_inv_update; [exact Hp|exact Ht| |by intros ?%Hdelta%Hmoved].
    intros j Hj. destruct (decide (j = i)) as [->|Hne]; [|by apply Hkeep].
    destruct (decide (s_total_cost s' = s_total_cost s)) as [Heq|]; [|by apply Hmoved].
    destruct Hj as [(v & Hv & Hin)|Hr]; [|by right]. rewrite Hc in Hv. injection Hv as <-.
    left. exists (s_total_cost s). rewrite Heq, Z.ltb_irrefl in *. by split.
Qed.

(** ** The loop *)

Context (label_setting : bool).

(** The predecessor an entry of a bucket names, seen from the cell [(ix, iy)]. *)
Definition named (ix iy : Z) (p : pred) (i : Z) : Prop :=
  let x := ix - p.1.1 in let y := iy - p.1.2 in
  0 ≤ x < nx ∧ 0 ≤ y < ny ∧ i = index nx nt x y p.2.

Definition n0 : Z := zlen (vi_states vi0).

(** What the bucket of [j0], at [(ix, iy)], says of an entry. *)
Record entry_ok (ix iy j0 : Z) (p : pred) : Prop := {
  eo_ix : 0 ≤ ix < nx; eo_iy : 0 ≤ iy < ny; eo_t : 0 ≤ p.2 < nt;
  eo_dx : - 2 ^ 31 < p.1.1 < 2 ^ 31; eo_dy : - 2 ^ 31 < p.1.2 < 2 ^ 31;
  eo_leads : ∀ i, named ix iy p i → leads i j0
}.

(** A wrapped difference is negative, so the guard drops it. *)
Lemma i32_sub_guard a d : 0 ≤ a < 2 ^ 31 → - 2 ^ 31 < d < 2 ^ 31 → 0 ≤ i32_sub a d → i32_sub a d = a - d.
Proof.
  intros Ha Hdd Hr. destruct (Z.lt_ge_cases (a - d) (2 ^ 31)) as [Hlt|Hge]; [apply i32_sub_small; unfold in_i32; lia|].
  exfalso. revert Hr. unfold i32_sub, wrap_s.
  rewrite <- (Z.mod_unique (a - d + 2 ^ (32 - 1)) (2 ^ 32) 1 (a - d + 2 ^ 31 - 2 ^ 32)) by lia. lia.
Qed.

Lemma relax_pred_spec vi heap u settled ix iy p j0 :
  core [j0] vi heap → (label_setting = true → zlen settled = n0) → entry_ok ix iy j0 p →
  ∃ vi' heap' u', relax_pred label_setting settled ix iy p (vi, heap, u) = Ok (vi', heap', u') ∧
    core [j0] vi' heap' ∧
    (label_setting = false → ∀ prev (todo todo' : Z → Prop), pend prev todo vi heap →
       (∀ i, todo i → named ix iy p i ∨ todo' i) → pend prev todo' vi' heap').
Proof.
  intros Hco Hset [Hix Hiy Hp Hdx Hdy Hlead]. pose proof Hco as [Hwf Hip _ _].
  destruct (inplace_fields vi0 vi Hip) as (Ex & Ey & Et & Ea & El).
  pose proof Hwf as [Hd Hst Ha]. rewrite Ex, Ey, Et in Hd, Hst. fold nx ny nt in Hd, Hst.
  destruct p as [[dx dy] t]. cbn [fst snd] in *. unfold relax_pred. rewrite Ex, Ey, Et. fold nx ny nt.
  pose proof Hd as [Hx0 Hy0 Ht0 Htot].
  assert (nx < 2 ^ 31 ∧ ny < 2 ^ 31) as [Hnx Hny].
  { assert (1 ≤ nx * ny) by nia. split; nia. }
  assert (∀ (todo' : Z → Prop) prev todo, (∀ i, todo i → named ix iy (dx, dy, t) i ∨ todo' i) →
    (∀ i s, zget (vi_states vi) i = Some s → updatable s = true → ¬ named ix iy (dx, dy, t) i) →
    pend prev todo vi heap → pend prev todo' vi heap) as Hskip.
  { intros todo' prev todo Ht Hno Hpd. eapply pend_shrink; [exact Hpd|]. intros i s Hs Hu Hti _.
    destruct (Ht i Hti) as [Hn|?]; [|done]. by destruct (Hno i s Hs Hu). }
  destruct ((i32_sub ix dx <? 0) || (i32_sub ix dx >=? nx) || (i32_sub iy dy <? 0) || (i32_sub iy dy >=? ny))
    eqn:Eout.
  { exists vi, heap, u. split; [done|]. split; [done|]. intros _ prev todo todo' Hpd Ht.
    eapply Hskip; [exact Ht| |exact Hpd]. intros i s _ _ (Hx & Hy & _). cbn [fst snd] in *.
    rewrite !i32_sub_small in Eout by (unfold in_i32; lia). rewrite !Z.geb_leb in Eout.
    rewrite (proj2 (Z.ltb_ge _ _)), (proj2 (Z.leb_gt _ _)), (proj2 (Z.ltb_ge _ _)), (proj2 (Z.leb_gt _ _)) in Eout by lia.
    done. }
  set (x := i32_sub ix dx) in *. set (y := i32_sub iy dy) in *.
  apply orb_false_elim in Eout as [Eout Hy2]. apply orb_false_elim in Eout as [Eout Hy1].
  apply orb_false_elim in Eout as [Hx1 Hx2]. bool_to_prop.
  rewrite (to_index_raw_small nx ny nt) by (done || lia).
  pose proof (index_bounds nx ny nt x y t ltac:(lia) ltac:(lia) ltac:(lia)) as Hb.
  rewrite as_u64_small by (unfold in_u64; lia). set (i := index nx nt x y t) in *.
  assert (0 ≤ i < n0) as Hi by (unfold n0; rewrite <- El, (ws_len _ _ _ _ Hst); lia).
  assert (∀ k, named ix iy (dx, dy, t) k → k = i) as Hnamed.
  { intros k (Hx & Hy & ->). cbn [fst snd] in *. unfold i, x, y.
    rewrite !i32_sub_small by (unfold in_i32; lia). done. }
  assert (∃ b, (if label_setting then vget settled i else Ok false) = Ok b ∧ (label_setting = false → b = false))
    as (b & -> & Hb').
  { destruct label_setting; [|by exists false]. destruct (zget_lt settled i) as [b Eb]; [rewrite Hset; done|].
    exists b. split; [by apply vget_ok|done]. }
  rewrite ok_bind. destruct b.
  { exists vi, heap, u. split; [done|]. split; [done|]. intros Hf. by specialize (Hb' Hf). }
  destruct (zget_lt (vi_states vi) i) as [s Hs]; [unfold n0 in Hi; lia|].
  rewrite (proj2 (vget_ok _ _ _) Hs), ok_bind.
  destruct (negb (s_free s) || s_final_state s) eqn:Eu.
  { exists vi, heap, u. split; [done|]. split; [done|]. intros _ prev todo todo' Hpd Ht.
    eapply Hskip; [exact Ht| |exact Hpd]. intros k s' Hs' Hu Hn. apply Hnamed in Hn. subst k.
    rewrite Hs in Hs'. injection Hs' as <-. unfold updatable in Hu. apply andb_prop in Hu as [Hu1 Hu2].
    rewrite Hu1 in Eu. apply negb_true_iff in Hu2. by rewrite Hu2 in Eu. }
  assert (leads i j0) as Hli.
  { apply Hlead. unfold named. cbn [fst snd]. unfold i, x, y in *.
    assert (i32_sub ix dx = ix - dx) as E1 by (apply i32_sub_guard; lia).
    assert (i32_sub iy dy = iy - dy) as E2 by (apply i32_sub_guard; lia).
    rewrite E1, E2 in *. done. }
  destruct (relax_cell_spec vi heap i j0 Hco Hi Hli) as (vi' & lab & -> & Hco' & Hpd'). rewrite ok_bind. cbn [fst snd].
  assert (∀ heap' (u' : Z), core [j0] vi' heap' →
    (∀ prev todo todo' : Z → Prop, pend prev todo vi heap → (∀ k, todo k → k = i ∨ todo' k) → pend prev todo' vi' heap') →
    ∃ v h w, Ok (vi', heap', u') = Ok (v, h, w) ∧ core [j0] v h ∧ (label_setting = false → ∀ prev (todo todo' : Z → Prop),
      pend prev todo vi heap → (∀ k, todo k → named ix iy (dx, dy, t) k ∨ todo' k) → pend prev todo' v h)) as Hdone.
  { intros heap' u' H1 H2. exists vi', heap', u'. split; [done|]. split; [done|]. intros _ prev todo todo' Hpd Ht.
    eapply H2; [exact Hpd|]. intros k Hk. destruct (Ht k Hk) as [Hn%Hnamed|?]; auto. }
  destruct lab as [v|]; apply Hdone; done.
Qed.

(** The whole bucket. *)
Lemma relax_bucket vi heap u settled ix iy bucket j0 :
  core [j0] vi heap → (label_setting = true → zlen settled = n0) →
  (∀ p, p ∈ bucket → entry_ok ix iy j0 p) →
  ∃ vi' heap' u', for_each bucket (relax_pred label_setting settled ix iy) (vi, heap, u) = Ok (vi', heap', u') ∧
    core [j0] vi' heap' ∧
    (label_setting = false → ∀ prev, pend prev (fun i => ∃ p, p ∈ bucket ∧ named ix iy p i) vi heap →
       pend prev (fun _ => False) vi' heap').
Proof.
  intros Hco Hset. revert vi heap u Hco. induction bucket as [|p bucket IH]; intros vi heap u Hco Hb.
  { exists vi, heap, u. split; [done|]. split; [done|]. intros _ prev Hp.
    eapply pend_shrink; [exact Hp|]. by intros i s _ _ (p & []%elem_of_nil & _). }
  cbn [for_each].
  destruct (relax_pred_spec vi heap u settled ix iy p j0 Hco Hset (Hb p ltac:(left))) as (v1 & h1 & u1 & -> & Hco1 & Hp1).
  rewrite ok_bind. destruct (IH v1 h1 u1 Hco1 ltac:(intros; apply Hb; by right)) as (v2 & h2 & u2 & -> & Hco2 & Hp2).
  exists v2, h2, u2. split; [done|]. split; [done|]. intros Hls prev Hp. apply (Hp2 Hls).
  eapply (Hp1 Hls); [exact Hp|]. intros i (q & [->|Hq]%elem_of_cons & Hn); [by left|]. right. by exists q.
Qed.

(** ** Pops *)

Section pops.
Context {S : Type} (obs : SolveObserver S) (rev : list (list pred)).
Context (Hrev : entries_ok nt acts rev) (Hall : ∀ t tr, taken acts t tr → holds nt t tr rev).

Definition trues (l : list bool) : Z := zlen (filter (fun b => b = true) l).

Lemma trues_bounds l : 0 ≤ trues l ≤ zlen l.
Proof. unfold trues, zlen. pose proof (length_filter (fun b => b = true) l). lia. Qed.

Lemma trues_set l i : zget l i = Some false → trues (zset l i true) = trues l + 1.
Proof.
  intros Hi. pose proof (zget_Some_lt _ _ _ Hi) as Hlt. unfold zget, zset, trues, zlen in *.
  rewrite decide_True in Hi by lia. rewrite decide_True by lia.
  rewrite insert_take_drop by lia. rewrite <- (take_drop_middle l (Z.to_nat i) false) at 3 by done.
  rewrite !list.filter_app, !list.filter_cons, decide_True, decide_False by done.
  rewrite !length_app. cbn [length]. lia.
Qed.

(** What a converged run certifies. *)
Definition certified (vi : ValueIterator) (heap : list (Z * Z)) : Prop :=
  label_setting = false → pend (fun _ => False) (fun _ => False) vi heap.

Record prio_inv (st : PrioState S) : Prop := {
  pi_core : core [] (pr_vi st) (pr_heap st);
  pi_cert : certified (pr_vi st) (pr_heap st);
  pi_marks : if label_setting
             then zlen (pr_settled st) = n0 ∧ pr_iters st = trues (pr_settled st) ∧ pr_repops st = 0
             else zlen (pr_popped st) = n0
}.

Lemma core_heap_incl L vi heap heap' : core L vi heap → (∀ e, e ∈ heap' → e ∈ heap) → core L vi heap'.
Proof. intros [? ? ? H] Hi. split; auto. Qed.

(** Every cell that reads the popped one is named by its bucket. *)
Lemma readers_named L vi heap j b sj i s :
  core L vi heap → zget (vi_states vi) j = Some sj → zget rev (s_it sj) = Some b →
  zget (vi_states vi) i = Some s → j ∈ reads nx ny nt acts (vi_states vi) s →
  ∃ p, p ∈ b ∧ named (s_ix sj) (s_iy sj) p i.
Proof.
  intros [Hwf Hip _ _] Hj Hb Hs Hr. destruct (inplace_fields vi0 vi Hip) as (Ex & Ey & Et & Ea & El).
  pose proof Hwf as [Hd Hst Ha]. rewrite Ex, Ey, Et, Ea in *. fold nx ny nt acts in Hd, Hst, Ha.
  pose proof Hd as [Hx0 Hy0 Ht0 _].
  destruct (ws_state _ _ _ _ Hst _ _ Hs) as [Hix Hiy Hit -> _ _ _].
  destruct (ws_state _ _ _ _ Hst _ _ Hj) as [Hjx Hjy Hjt -> _ _ _].
  apply elem_of_reads in Hr as (a & tr & Hin & Htr & Ej & Hbl).
  pose proof (proj1 (List.Forall_forall _ _) Ha a (proj1 (list_elem_of_In _ _) Hin)) as Haa.
  pose proof (trans_of_wf nt a s tr Haa Htr) as Hwt.
  assert (inside nx ny s tr = true) as Hins.
  { apply not_false_iff_true. intros Hf. apply not_true_iff_false in Hbl. apply Hbl, existsb_exists.
    exists tr. split; [by apply list_elem_of_In|]. unfold blocked. by rewrite Hf. }
  pose proof (target_theta nt tr Ht0 Hwt) as Hth. unfold inside in Hins. bool_to_prop. unfold target in Ej.
  apply (index_inj nx ny nt) in Ej as (Ejx & Ejy & Ejt); [|lia..].
  destruct (Hall (s_it s) tr) as (b' & Hb' & Hp).
  { exists a, (trans_of a s). split; [done|]. split; [by apply (trans_of_get nt)|done]. }
  rewrite <- Ejt, Hb in Hb'. injection Hb' as <-.
  exists (dix tr, diy tr, s_it s). split; [done|]. unfold named. cbn [fst snd]. rewrite Ejx, Ejy.
  replace (s_ix s + dix tr - dix tr) with (s_ix s) by lia.
  by replace (s_iy s + diy tr - diy tr) with (s_iy s) by lia.
Qed.

(** An entry of the bucket of [j] names cells that lead to [j]. *)
Lemma named_leads L vi heap j sj p tr i :
  core L vi heap → zget (vi_states vi) j = Some sj → taken acts p.2 tr → p.1 = (dix tr, diy tr) →
  s_it sj = Z.rem (dit tr + nt) nt → named (s_ix sj) (s_iy sj) p i → leads i j.
Proof.
  intros [Hwf Hip _ _] Hj Htk Ep Et' (Hx & Hy & ->). destruct (inplace_fields vi0 vi Hip) as (Ex & Ey & Et & Ea & El).
  pose proof Hwf as [_ Hst _]. rewrite Ex, Ey, Et in Hst. pose proof Hwf0 as [Hd0 Hst0 Ha0].
  destruct (taken_wf nt acts Ha0 _ _ Htk) as [Ht _]. destruct (ws_state _ _ _ _ Hst _ _ Hj) as [Hjx Hjy _ -> _ _ _].
  destruct p as [[dx dy] t]. cbn [fst snd] in *. injection Ep as -> ->.
  destruct (ws_get _ _ _ _ (s_ix sj - dix tr) (s_iy sj - diy tr) t Hst0 ltac:(apply Hd0) ltac:(apply Hd0) Hx Hy Ht)
    as (s & Hs & Esx & Esy & Est).
  exists s, tr. split; [done|]. split; [by rewrite Est|]. unfold inside, target. rewrite Esx, Esy.
  replace (s_ix sj - dix tr + dix tr) with (s_ix sj) by lia.
  replace (s_iy sj - diy tr + diy tr) with (s_iy sj) by lia. rewrite <- Et'. split; [|done].
  fold nx ny nt in Hjx, Hjy. rewrite !andb_true_iff, !Z.leb_le, !Z.ltb_lt. lia.
Qed.

Lemma expand_spec j (st : PrioState S) :
  core [j] (pr_vi st) (pr_heap st) → 0 ≤ j < n0 →
  (label_setting = true → zlen (pr_settled st) = n0) →
  (label_setting = false → pend (fun k => k = j) (fun _ => True) (pr_vi st) (pr_heap st)) →
  ∃ st' : PrioState S, expand label_setting rev j st = Ok st' ∧ core [] (pr_vi st') (pr_heap st') ∧
    certified (pr_vi st') (pr_heap st') ∧ pr_settled st' = pr_settled st ∧ pr_popped st' = pr_popped st ∧
    pr_pops st' = pr_pops st ∧ pr_iters st' = u64_add (pr_iters st) 1 ∧ pr_repops st' = pr_repops st.
Proof.
  intros Hco Hj Hset Hp. pose proof Hco as [Hwf Hip _ _].
  destruct (inplace_fields vi0 _ Hip) as (Ex & Ey & Et & Ea & El).
  pose proof Hwf as [Hd Hst _]. rewrite Ex, Ey, Et in Hd, Hst. fold nx ny nt in Hd, Hst. destruct Hrev as [Hlen Hent].
  unfold expand. destruct (zget_lt (vi_states (pr_vi st)) j) as [s Hs]; [unfold n0 in Hj; lia|].
  rewrite (proj2 (vget_ok _ _ _) Hs), ok_bind. pose proof (ws_state _ _ _ _ Hst _ _ Hs) as [Hsx Hsy Hit _ _ _ _].
  assert (nt < 2 ^ 31) as Hnt.
  { destruct Hd as [? ? ? ?]. assert (1 ≤ nx * ny) by nia.
    assert (1 * nt ≤ nx * ny * nt) by (apply Z.mul_le_mono_nonneg_r; lia). lia. }
  rewrite as_u64_small by (unfold in_u64; lia).
  destruct (zget_lt rev (s_it s)) as [b Hb]; [lia|]. rewrite (proj2 (vget_ok _ _ _) Hb), ok_bind.
  destruct (relax_bucket (pr_vi st) (pr_heap st) (pr_updates st) (pr_settled st) (s_ix s) (s_iy s) b j Hco Hset)
    as (v & h & u & -> & Hco' & Hp').
  { intros p Hpb. destruct (Hent _ _ _ Hb Hpb) as (tr & Htk & Ep & Ek).
    destruct (taken_wf nt acts (wv_actions _ Hwf0) _ _ Htk) as [Ht [Hdx Hdy _ _]].
    split; [done|done|done|by rewrite Ep|by rewrite Ep|]. intros i. by eapply named_leads. }
  rewrite ok_bind. eexists. split; [done|]. cbn. split; [by eapply core_forget|]. split; [|done].
  intros Hls. apply (pend_prev (fun k => k = j)). apply (Hp' Hls). eapply pend_shrink; [by apply Hp|].
  intros i s' Hs' _ _ (k & Hk & ->). exact (readers_named _ _ _ j b s i s' Hco Hs Hb Hs' Hk).
Qed.

(** A fresh pop: [j] holds the popped label, which has left the heap. *)
Lemma visit_spec j v (st : PrioState S) :
  core [] (pr_vi st) (pr_heap st) → v < MAX_COST → 0 ≤ j < n0 → cost_at (vi_states (pr_vi st)) j = Some v →
  certified (pr_vi st) ((v, j) :: pr_heap st) →
  (if label_setting
   then zlen (pr_settled st) = n0 ∧ pr_iters st = trues (pr_settled st) ∧ pr_repops st = 0
   else zlen (pr_popped st) = n0) →
  ∃ st', visit label_setting rev j st = Ok st' ∧ prio_inv st' ∧ pr_pops st' = pr_pops st.
Proof.
  intros Hco Hlt Hj Hv Hcert Hm. pose proof (core_reach _ _ _ _ Hco Hv Hlt) as Hcoj.
  assert (label_setting = false → pend (fun k => k = j) (fun _ => True) (pr_vi st) (pr_heap st)) as Hp.
  { intros Hls i s Hs Hu. destruct (Hcert Hls i s Hs Hu) as [?|[(k & Hk & Ha)|[([] & _)|?]]]; [by left| |by do 3 right].
    destruct (decide (k = j)) as [->|Hne]; [right; right; left; split; [done|by exists j]|].
    right; left. exists k. split; [done|]. destruct Ha as [(w & Hw & Hin)|Hr]; [left|by right].
    exists w. split; [done|]. apply elem_of_cons in Hin as [[= _ ->]|Hin]; done. }
  unfold visit. destruct label_setting eqn:Els.
  - destruct Hm as (Hl & Hit & Hrp). destruct (zget_lt (pr_settled st) j) as [b Hb]; [lia|].
    rewrite (proj2 (vget_ok _ _ _) Hb), ok_bind. destruct b.
    + exists st. split; [done|]. split; [|done]. split; [done| |by rewrite Els].
      intros Hf. by rewrite Els in Hf.
    + rewrite vset_ok, ok_bind by lia.
      match goal with |- context [expand _ rev j ?w] => destruct (expand_spec j w) as
        (st' & E & Hco' & Hce' & Hs' & Hpp' & Hps' & Hit' & Hrp') end; cbn [pr_vi pr_heap pr_settled pr_repops pr_iters pr_pops pr_popped] in *.
      * done.
      * done.
      * intros _. by rewrite zlen_zset.
      * intros Hf. by rewrite Els in Hf.
      * rewrite Els in E. exists st'. split; [done|]. split; [|done]. split; [done|done|]. rewrite Els, Hs', Hit', Hrp'.
        split; [by rewrite zlen_zset|]. split; [|done]. rewrite trues_set, Hit by done.
        pose proof (trues_bounds (pr_settled st)) as Htb. destruct Hwf0 as [[? ? ? Htot] [Hlen _] _].
        unfold n0 in Hl. apply u64_add_small. unfold in_u64. lia.
  - destruct (zget_lt (pr_popped st) j) as [b Hb]; [lia|].
    rewrite (proj2 (vget_ok _ _ _) Hb), ok_bind.
    assert (∃ popped, (if b then Ok (pr_popped st) else vset (pr_popped st) j true) = Ok popped ∧ zlen popped = n0)
      as (popped & -> & Hl).
    { destruct b; [by eexists|]. rewrite vset_ok by lia. eexists. split; [done|]. by rewrite zlen_zset. }
    rewrite ok_bind.
    match goal with |- context [expand _ rev j ?w] => destruct (expand_spec j w) as
      (st' & E & Hco' & Hce' & Hs' & Hpp' & Hps' & Hit' & Hrp') end; cbn [pr_vi pr_heap pr_settled pr_repops pr_iters pr_pops pr_popped] in *.
    + done.
    + done.
    + intros Hf. by rewrite Els in Hf.
    + intros _. by apply Hp.
    + rewrite Els in E. exists st'. split; [done|]. split; [|done]. split; [done|done|]. by rewrite Els, Hpp'.
Qed.

(** Losing a stale entry. *)
Lemma certified_stale vi v j heap :
  certified vi ((v, j) :: heap) → cost_at (vi_states vi) j ≠ Some v → certified vi heap.
Proof.
  intros Hc Hne Hls i s Hs Hu. destruct (Hc Hls i s Hs Hu) as [?|[(k & Hk & Ha)|[([] & _)|?]]]; [by left| |by do 3 right].
  right; left. exists k. split; [done|]. destruct Ha as [(w & Hw & Hin)|Hr]; [left|by right].
  exists w. split; [done|]. apply elem_of_cons in Hin as [[= -> ->]|Hin]; [congruence|done].
Qed.

Lemma certified_perm vi h h' : h ≡ₚ h' → certified vi h → certified vi h'.
Proof.
  intros Hp Hc Hls i s Hs Hu. destruct (Hc Hls i s Hs Hu) as [?|[(k & Hk & Ha)|[([] & _)|?]]]; [by left| |by do 3 right].
  right; left. exists k. split; [done|]. destruct Ha as [(w & Hw & Hin)|Hr]; [left|by right].
  exists w. split; [done|]. by rewrite <- Hp.
Qed.

Lemma pop_boundary_fields stride (st : PrioState S) :
  let st' := (pop_boundary obs stride st).1 in
  pr_vi st' = pr_vi st ∧ pr_heap st' = pr_heap st ∧ pr_settled st' = pr_settled st ∧
  pr_popped st' = pr_popped st ∧ pr_pops st' = pr_pops st ∧ pr_iters st' = pr_iters st ∧
  pr_repops st' = pr_repops st.
Proof. unfold pop_boundary. destruct (_ >=? _); [|done]. by destruct (ob_boundary obs _ _). Qed.

(** The loop ends within the pop cap. *)
Lemma priority_loop_spec fuel cap stride (st : PrioState S) :
  prio_inv st → 0 ≤ pr_pops st ≤ cap → cap < U64_MAX → cap - pr_pops st < Z.of_nat fuel →
  ∃ st' b flow, priority_loop obs label_setting fuel cap stride rev st = Ok (st', pr_stats st' b, flow) ∧
    core [] (pr_vi st') (pr_heap st') ∧
    (if label_setting then pr_iters st' ≤ n0 ∧ pr_repops st' = 0 else True) ∧
    (b = true → flow = Continue ∧ pr_heap st' = [] ∧ certified (pr_vi st') []).
Proof.
  revert st. induction fuel as [|fuel IH]; intros st [Hco Hce Hm] Hpops Hcap Hfuel; [lia|]. cbn [priority_loop].
  assert (∀ settled iters repops, zlen settled = n0 ∧ iters = trues settled ∧ repops = 0 → iters ≤ n0 ∧ repops = 0) as Hls.
  { intros settled iters repops (Hl & -> & ->). pose proof (trues_bounds settled). lia. }
  destruct (heap_pop (pr_heap st)) as [[[lab j] heap]|] eqn:Epop.
  2:{ apply heap_pop_None in Epop. exists st, true, Continue. split; [done|]. split; [done|].
      split; [destruct label_setting; eauto|]. rewrite <- Epop. done. }
  apply heap_pop_Some in Epop. rewrite (u64_add_small (pr_pops st) 1) by (unfold in_u64, U64_MAX in *; lia).
  set (st1 := mkPrio (pr_vi st) heap _ _ _ _ _ _ _ _).
  assert (core [] (pr_vi st1) (pr_heap st1)) as Hco1.
  { eapply core_heap_incl; [exact Hco|]. cbn. intros e He. rewrite Epop. by right. }
  assert (lab < MAX_COST ∧ 0 ≤ j < n0) as [Hlab Hj].
  { apply (co_heap _ _ _ Hco (lab, j)). rewrite Epop. left. }
  assert (certified (pr_vi st1) ((lab, j) :: pr_heap st1)) as Hce1 by by eapply certified_perm.
  destruct (Z.gtb_spec (pr_pops st1) cap) as [Hover|Hunder]; cbn [pr_pops st1] in *.
  { exists st1, false, Continue. split; [done|]. split; [done|]. split; [destruct label_setting; [by eapply Hls|done]|done]. }
  pose proof (pop_boundary_fields stride st1) as Hf.
  destruct (pop_boundary obs stride st1) as [st2 flow] eqn:Eb. cbn [fst] in Hf.
  destruct Hf as (F1 & F2 & F3 & F4 & F5 & F6 & F7).
  assert (if label_setting
   then zlen (pr_settled st2) = n0 ∧ pr_iters st2 = trues (pr_settled st2) ∧ pr_repops st2 = 0
   else zlen (pr_popped st2) = n0) as Hm2 by (rewrite F3, F4, F6, F7; done).
  rewrite <- F1, <- F2 in Hco1, Hce1.
  destruct (negb (bool_decide (flow = Continue))).
  { exists st2, false, flow. split; [done|]. split; [done|]. split; [destruct label_setting; [by eapply Hls|done]|done]. }
  destruct (inplace_fields vi0 _ (co_inplace _ _ _ Hco1)) as (_ & _ & _ & _ & El).
  destruct (zget_lt (vi_states (pr_vi st2)) j) as [s Hs]; [unfold n0 in Hj; lia|].
  rewrite (proj2 (vget_ok _ _ _) Hs), ok_bind.
  assert (cost_at (vi_states (pr_vi st2)) j = Some (s_total_cost s)) as Hcost by (unfold cost_at; by rewrite Hs).
  destruct (Z.eqb_spec lab (s_total_cost s)) as [->|Hstale]; cbn [negb].
  - destruct (visit_spec j (s_total_cost s) st2 Hco1 Hlab Hj Hcost Hce1 Hm2) as (st3 & -> & Hinv & Hps).
    rewrite ok_bind. apply IH; [done|rewrite Hps, F5; cbn; lia|done|rewrite Hps, F5; cbn; lia].
  - apply IH; [|rewrite F5; cbn; lia|done|rewrite F5; cbn; lia]. split; [done| |done].
    eapply certified_stale; [exact Hce1|]. rewrite Hcost. by intros [= ?].
Qed.
End pops.
End run.

(** ** Properties *)

Lemma pop_cap_fits vi max_iter :
  wf_vi vi → 0 ≤ max_iter < 2 ^ 32 → 0 ≤ pop_cap_of (zlen (vi_states vi)) max_iter < U64_MAX.
Proof.
  intros [[? ? ? Htot] [Hlen _] _] Hm. unfold pop_cap_of, u64_sat_mul, U64_MAX.
  assert (0 ≤ zlen (vi_states vi) < 2 ^ 31) as Hn by (pose proof (zlen_nonneg (vi_states vi)); lia).
  assert (zlen (vi_states vi) * Z.max max_iter 1 ≤ 2 ^ 31 * 2 ^ 32) by (apply Z.mul_le_mono_nonneg; lia).
  pose proof (Z.mul_nonneg_nonneg (zlen (vi_states vi)) (Z.max max_iter 1) ltac:(lia) ltac:(lia)). lia.
Qed.

Lemma elem_of_seed_heap states v i :
  (v, i) ∈ seed_heap states ↔ ∃ s, zget states i = Some s ∧ s_total_cost s = v ∧ v < MAX_COST.
Proof.
  unfold seed_heap.
  assert (∀ es h, (v, i) ∈ foldl (fun h (e : Z * State) => if s_total_cost e.2 <? MAX_COST
      then (s_total_cost e.2, e.1) :: h else h) h es ↔
    (v, i) ∈ h ∨ ∃ s, (i, s) ∈ es ∧ s_total_cost s = v ∧ v < MAX_COST) as H.
  { induction es as [|[k s] es IH]; intros h; cbn [foldl fst snd].
    - split; [by left|]. by intros [?|(s & []%elem_of_nil & _)].
    - rewrite IH. destruct (Z.ltb_spec (s_total_cost s) MAX_COST); setoid_rewrite elem_of_cons; split.
      + intros [[[= -> ->]|?]|(r & ? & ?)]; [right; exists s; auto|by left|right; exists r; auto].
      + intros [?|(r & [[= -> ->]|?] & <- & ?)]; [left; by right|left; by left|right; exists r; auto].
      + intros [?|(r & ? & ?)]; [by left|right; exists r; auto].
      + intros [?|(r & [[= -> ->]|?] & <- & ?)]; [by left|lia|right; exists r; auto]. }
  rewrite H. split.
  - intros [[]%elem_of_nil|(s & Hs & ?)]. exists s. by rewrite <- elem_of_enumerated.
  - intros (s & Hs & ?). right. exists s. by rewrite elem_of_enumerated.
Qed.

Lemma seed_core vi : wf_vi vi → core vi [] vi (seed_heap (vi_states vi)).
Proof.
  intros Hwf. split; [done|apply inplace_refl| |].
  - exists []. split; [constructor|]. by intros j ?%elem_of_nil.
  - intros [v i] (s & Hs & _ & Hv)%elem_of_seed_heap. split; [done|]. by eapply zget_Some_lt.
Qed.

Lemma seed_certified vi label_setting : wf_vi vi → certified vi label_setting vi (seed_heap (vi_states vi)).
Proof.
  intros Hwf _. apply (pending_inv_weaken _ _ _ _ _ _ (fun _ => False) (fun _ => False)
    (fun j => ∃ s, zget (vi_states vi) j = Some s ∧ s_total_cost s < MAX_COST)); [| |done|done].
  - pose proof (round_inv_start (fun j : Z => j) vi
      (fun j => ∃ s, zget (vi_states vi) j = Some s ∧ s_total_cost s < MAX_COST) Hwf) as H.
    apply H. intros j s Hs Hv. by exists s.
  - intros j (s & Hs & Hv). left. exists (s_total_cost s). unfold cost_at. rewrite Hs.
    split; [done|]. apply elem_of_seed_heap. by exists s.
Qed.

(** What a run leaves behind, whatever the mode. *)
Lemma priority_solve_inner_spec {S} (obs : SolveObserver S) label_setting max_iter vi o :
  wf_vi vi → 0 ≤ max_iter < 2 ^ 32 →
  ∃ vi' o' st flow, priority_solve_inner obs label_setting max_iter vi o = Ok (vi', o', st, flow) ∧
    core vi [] vi' [] ∧
    (if label_setting then ps_iters st ≤ zlen (vi_states vi) ∧ ps_repops st = 0 else True) ∧
    (ps_converged st = true → flow = Continue ∧ certified vi label_setting vi' []).
Proof.
  intros Hwf Hm. unfold priority_solve_inner.
  destruct (build_rev_theta_ok vi Hwf) as (rev & -> & Hrev & Hall). rewrite ok_bind. cbv zeta.
  pose proof (pop_cap_fits vi max_iter Hwf Hm) as Hcap.
  match goal with |- context [priority_loop obs label_setting ?f ?c ?s rev ?st] =>
    destruct (priority_loop_spec vi Hwf label_setting obs rev Hrev Hall f c s st)
      as (st' & b & flow & -> & Hco & Hls & Hcv) end.
  - split; cbn; [by apply seed_core|by apply seed_certified|].
    destruct label_setting; [|by apply zlen_repeat, zlen_nonneg].
    split; [apply zlen_repeat, zlen_nonneg|]. split; [|done]. unfold trues, vec_repeat.
    induction (Z.to_nat _) as [|n IH]; [done|]. cbn [replicate]. by rewrite list.filter_cons, decide_False.
  - cbn. lia.
  - lia.
  - cbn. lia.
  - rewrite ok_bind. exists (pr_vi st'), (pr_obs st'), (pr_stats st' b), flow. split; [done|].
    split; [eapply core_heap_incl; [exact Hco|by intros e ?%elem_of_nil]|]. split.
    + destruct label_setting; [done|done].
    + intros Hb. destruct (Hcv Hb) as (? & _ & ?). done.
Qed.

(** C25: the priority solvers always end.  Whatever the observer answers, in
    both modes the solve returns within the pop cap, without an index out of
    range; the field stays well formed and only values and policies move.
    Settle-once processes every state at most once and reports no repeated
    pops; a run reported converged was not stopped by the observer. *)
Theorem priority_solve_terminates {S} (obs : SolveObserver S) label_setting max_iter vi o :
  wf_vi vi → 0 ≤ max_iter < 2 ^ 32 →
  ∃ vi' o' st flow, priority_solve_inner obs label_setting max_iter vi o = Ok (vi', o', st, flow) ∧
    wf_vi vi' ∧ inplace vi vi' ∧
    (label_setting = true → ps_iters st ≤ zlen (vi_states vi) ∧ ps_repops st = 0) ∧
    (ps_converged st = true → flow = Continue).
Proof.
  intros Hwf Hm.
  destruct (priority_solve_inner_spec obs label_setting max_iter vi o Hwf Hm)
    as (vi' & o' & st & flow & E & [Hwf' Hip _ _] & Hls & Hcv).
  exists vi', o', st, flow. split; [exact E|]. split; [done|]. split; [done|]. split; [by intros ->|].
  intros Hb. apply (Hcv Hb).
Qed.

Lemma priority_solve_terminates_witness :
  ∃ vi' o' st flow, priority_solve_inner NullObserver true 10 (corridor 4) () = Ok (vi', o', st, flow) ∧
    wf_vi vi' ∧ ps_iters st ≤ 4 ∧ ps_repops st = 0.
Proof.
  destruct (priority_solve_terminates NullObserver true 10 (corridor 4) ()) as (vi' & o' & st & flow & E & Hwf & _ & Hls & _).
  - apply check_vi_ok. reflexivity.
  - split; [discriminate|reflexivity].
  - exists vi', o', st, flow. split; [exact E|]. split; [exact Hwf|]. exact (Hls eq_refl).
Defined.



(** Raises do happen: an unreached successor weighs [MAX_COST * prob] modulo
    [2^64], which for a probability of 70369/[PROB_BASE] is less than its value
    once it is reached.  The run below is reported converged, and the value of
    cell 2 is lower than its backup. *)
Definition drift : Action :=
  sample_action 0 [{| dix := 1; diy := 0; dit := 0; prob := PROB_BASE - 70369 |};
                   {| dix := -1; diy := 0; dit := 0; prob := 70369 |}].
Definition jump : Action := sample_action 1 [{| dix := 2; diy := 0; dit := 0; prob := PROB_BASE |}].

Definition drift_vi : ValueIterator :=
  sample_vi 4 1 1 [drift; jump]
    [sample_cell MAX_COST 0 false; sample_cell MAX_COST 1 false; sample_cell MAX_COST 2 false;
     with_penalty (sample_cell 0 3 true) (10000 * PROB_BASE)].

Example priority_correcting_raise :
  (r ← priority_solve false 10 drift_vi;
   Ok (ps_converged r.2, s_total_cost <$> zget (vi_states r.1) 2,
       min_action_cost (vi_states r.1) (vi_actions drift_vi) 2 4 1 1))
  = Ok (true, Some 2413419062, Ok (Some (2565759229, Some 0))).
Proof. vm_compute. reflexivity. Qed.
