(* ===== verification/Bridge.v ===== *)
(** * Views of ROS messages (vi_lib/src/bridge.rs)

    Occupancy grids in and out of the planner: thresholding, block pooling to a
    coarser map, rendering of a value slice, and the goal heading in degrees. *)

From Stdlib Require Import ZArith Lia SpecFloat.
From stdpp Require Import base gmap strings list numbers.
From S2P Require Import Prelude Floats Model.

Record OccupancyGridView : Type := {
  gv_width : Z (* u32 *); gv_height : Z (* u32 *); gv_resolution : f64;
  gv_origin_x : f64; gv_origin_y : f64; gv_data : list Z (* i8 *)
}.

(** ** The goal heading *)

(** [x % y] on finite operands is exact; a NaN or infinite [x], or a zero [y],
    gives NaN. *)
Definition frem (x y : f64) : f64 :=
  match x, y with
  | S754_finite s m e, S754_finite _ m' e' =>
      let k := Z.min e e' in
      let r := Z.rem (Z.pos m * 2 ^ (e - k)) (Z.pos m' * 2 ^ (e' - k)) in
      if r =? 0 then S754_zero s else binary_normalize 53 1024 (if s then - r else r) k s
  | S754_zero s, S754_finite _ _ _ | S754_zero s, S754_infinity _ => S754_zero s
  | S754_finite _ _ _, S754_infinity _ => x
  | _, _ => S754_nan
  end.

(** [f64::rem_euclid] *)
Definition rem_euclid (x y : f64) : f64 := let r := frem x y in if flt r f0 then fadd r (fabs y) else r.

(** [f64::to_degrees]: the factor is the constant [57.29577951308232..]. *)
Definition to_degrees (x : f64) : f64 := fmul x (lit 8063664102031864 (-47)).

Definition yaw_to_goal_theta_deg (yaw_rad : f64) : Z := f64_as_i32 (rem_euclid (to_degrees yaw_rad) f360).

(** ** Occupancy in *)

Definition vi_cell (unknown_as_obstacle : bool) (v : Z) : Z :=
  if (v >=? 100) || ((v <? 0) && unknown_as_obstacle) then 100 else 0.

Definition occupancy_view_to_vi_grid (grid : OccupancyGridView) (unknown_as_obstacle : bool)
    : res OccupancyGrid :=
  _ ← rassert (zlen (gv_data grid) =? u64_mul (gv_width grid) (gv_height grid));
  Ok {| og_width := as_i32 (gv_width grid); og_height := as_i32 (gv_height grid);
        og_resolution := gv_resolution grid;
        og_origin_x := gv_origin_x grid; og_origin_y := gv_origin_y grid;
        og_origin_quat := {| q_x := f0; q_y := f0; q_z := f0; q_w := f1 |};
        og_data := vi_cell unknown_as_obstacle <$> gv_data grid |}.

(** ** Pooling *)

(** [for x in l { .. }] with a [break]: the body also says whether to stop. *)
Fixpoint for_break {A B} (l : list B) (body : B → A → res (A * bool)) (a : A) : res A :=
  match l with
  | [] => Ok a
  | x :: l => r ← body x a; let '(a, stop) := r in if (stop : bool) then Ok a else for_break l body a
  end.

(** Does the block of the output cell [(ox, oy)] hold a cell of the kind sought? *)
Definition block_row (data : list Z) (w s ox iy : Z) (optimistic : bool) : res bool :=
  for_break (seqZ 0 s) (fun dx (hit : bool) =>
    let ix := ox * s + dx in
    if ix >=? w then Ok (hit, true) else
    v ← vget data (iy * w + ix);
    if Bool.eqb (v =? 0) optimistic then Ok (true, true) else Ok (hit, false)) false.

Definition block_hit (data : list Z) (w h s ox oy : Z) (optimistic : bool) : res bool :=
  for_break (seqZ 0 s) (fun dy (hit : bool) =>
    let iy := oy * s + dy in
    if iy >=? h then Ok (hit, true) else
    b ← block_row data w s ox iy optimistic;
    Ok (if (b : bool) then (true, true) else (hit, false))) false.

Definition downsample (grid : OccupancyGrid) (scale : Z) (optimistic : bool) : res OccupancyGrid :=
  if scale <=? 1 then Ok grid else
  let w := as_u64 (og_width grid) in
  let h := as_u64 (og_height grid) in
  let s := as_u64 scale in
  let ow := div_ceil w s in
  let oh := div_ceil h s in
  data ← for_range 0 oh (fun oy data => for_range 0 ow (fun ox data =>
      hit ← block_hit (og_data grid) w h s ox oy optimistic;
      vset data (oy * ow + ox) (if Bool.eqb hit optimistic then 0 else 100)) data)
    (vec_repeat 0 (ow * oh));
  Ok {| og_width := as_i32 ow; og_height := as_i32 oh;
        og_resolution := fmul (og_resolution grid) (f64_of_Z scale);
        og_origin_x := og_origin_x grid; og_origin_y := og_origin_y grid;
        og_origin_quat := og_origin_quat grid; og_data := data |}.

Definition downsample_occupancy (grid : OccupancyGrid) (scale : Z) : res OccupancyGrid :=
  downsample grid scale false.
Definition downsample_occupancy_optimistic (grid : OccupancyGrid) (scale : Z) : res OccupancyGrid :=
  downsample grid scale true.

(** ** Values out *)

Definition occupancy_of_cost (threshold_steps c : Z) : Z :=
  if c >=? MAX_COST then -1 else
  let display := c / PROB_BASE in
  if threshold_steps =? 0 then (if display =? 0 then 0 else 100)
  else
    let scaled := u64_sat_mul display 100 / threshold_steps in
    if scaled >=? 100 then 100 else as_i8 scaled.

Definition value_slice_to_occupancy (value : list Z) (width height threshold_steps : Z) : res (list Z) :=
  _ ← rassert (zlen value =? u64_mul width height);
  Ok (occupancy_of_cost threshold_steps <$> value).

(** Half a turn to the right is 270 degrees; a heading just below zero is 360. *)
Example right_turn : yaw_to_goal_theta_deg (fneg (fdiv PI (f64_of_Z 2))) = 270.
Proof. vm_compute. reflexivity. Qed.
Example full_turn : yaw_to_goal_theta_deg (lit 4503599627370496 (-160)) = 0 ∧
  yaw_to_goal_theta_deg (fneg (lit 4503599627370496 (-160))) = 360.
Proof. split; vm_compute; reflexivity. Qed.

(** ** The search of a block *)

(** Stopping early does not change what a search finds, when past a stop every
    position stops. *)
Lemma for_break_search n (stop found : Z → bool) (body : Z → bool → res (bool * bool)) :
  0 ≤ n →
  (∀ d, 0 ≤ d < n → body d false =
     if stop d then Ok (false, true) else Ok (if found d then (true, true) else (false, false))) →
  (∀ d d', d ≤ d' → stop d = true → stop d' = true) →
  for_break (seqZ 0 n) body false = Ok (bool_decide (Exists (fun d => stop d = false ∧ found d = true) (seqZ 0 n))).
Proof.
  intros Hn Hbody Hmono.
  assert (∀ k lo, 0 ≤ lo → lo + Z.of_nat k ≤ n → for_break (seqZ lo (Z.of_nat k)) body false =
    Ok (bool_decide (Exists (fun d => stop d = false ∧ found d = true) (seqZ lo (Z.of_nat k))))) as H.
  2:{ specialize (H (Z.to_nat n) 0). rewrite Z2Nat.id in H by lia. apply H; lia. }
  induction k as [|k IH]; intros lo Hlo Hhi; [done|].
  rewrite seqZ_cons by lia. cbn [for_break]. rewrite Hbody by lia.
  replace (Z.pred (Z.of_nat (S k))) with (Z.of_nat k) by lia.
  destruct (stop lo) eqn:Es.
  - rewrite ok_bind. f_equal. symmetry. apply bool_decide_eq_false. rewrite Exists_cons.
    intros [[? _]|Hex]; [congruence|]. apply list.Exists_exists in Hex as (d & Hd & Hs & _).
    apply elem_of_seqZ in Hd. rewrite (Hmono lo d) in Hs by (done || lia). done.
  - destruct (found lo) eqn:Ef; rewrite ok_bind.
    + f_equal. symmetry. apply bool_decide_eq_true. rewrite Exists_cons. by left.
    + rewrite Z.succ_pred || idtac. replace (Z.succ lo) with (lo + 1) by lia. rewrite IH by lia. f_equal.
      apply bool_decide_ext. rewrite Exists_cons. split; [by right|]. intros [[_ ?]|?]; [congruence|done].
Qed.

Section pooling.
Context (grid : OccupancyGrid) (scale : Z) (optimistic : bool).
Let w := og_width grid.
Let h := og_height grid.
Context (Hw : 0 ≤ w < 2 ^ 31) (Hs : 1 < scale < 2 ^ 31).
Context (Hlen : zlen (og_data grid) = w * h).

(** The cell [(ix, iy)] of the map is of the kind sought. *)
Definition sought (ix iy : Z) : bool :=
  match zget (og_data grid) (iy * w + ix) with Some v => Bool.eqb (v =? 0) optimistic | None => false end.

(** Some cell of the block of [(ox, oy)] is. *)
Definition pooled (ox oy : Z) : Prop :=
  ∃ ix iy, 0 ≤ ix < w ∧ 0 ≤ iy < h ∧ ix / scale = ox ∧ iy / scale = oy ∧ sought ix iy = true.

Lemma in_block o i : i / scale = o ↔ o * scale ≤ i < o * scale + scale.
Proof.
  split.
  - intros <-. pose proof (Z.div_mod i scale ltac:(lia)). pose proof (Z.mod_pos_bound i scale ltac:(lia)). lia.
  - intros Hi. symmetry. apply (Z.div_unique _ _ _ (i - o * scale)); lia.
Qed.

Lemma block_row_eq ox iy :
  0 ≤ ox → 0 ≤ iy < h →
  block_row (og_data grid) w scale ox iy optimistic =
  Ok (bool_decide (Exists (fun dx => (ox * scale + dx >=? w) = false ∧ sought (ox * scale + dx) iy = true) (seqZ 0 scale))).
Proof.
  intros Hox Hiy. unfold block_row.
  apply (for_break_search scale (fun dx => ox * scale + dx >=? w) (fun dx => sought (ox * scale + dx) iy)); [lia| |].
  - intros d Hd. cbv zeta. rewrite Z.geb_leb. destruct (Z.leb_spec w (ox * scale + d)) as [|Hlt]; [done|].
    unfold sought. destruct (zget_lt (og_data grid) (iy * w + (ox * scale + d))) as [v Hv]; [rewrite Hlen; nia|].
    rewrite Hv, (proj2 (vget_ok _ _ _) Hv), ok_bind. by destruct (Bool.eqb _ _).
  - intros d d' Hd. rewrite !Z.geb_leb, !Z.leb_le. lia.
Qed.

Lemma block_hit_eq ox oy :
  0 ≤ ox → 0 ≤ oy → ∃ b, block_hit (og_data grid) w h scale ox oy optimistic = Ok b ∧ (b = true ↔ pooled ox oy).
Proof.
  intros Hox Hoy. unfold block_hit.
  set (row := fun iy => bool_decide (Exists (fun dx => (ox * scale + dx >=? w) = false ∧
    sought (ox * scale + dx) iy = true) (seqZ 0 scale))).
  eexists. split.
  - apply (for_break_search scale (fun dy => oy * scale + dy >=? h) (fun dy => row (oy * scale + dy))); [lia| |].
    + intros d Hd. cbv zeta. rewrite Z.geb_leb. destruct (Z.leb_spec h (oy * scale + d)); [done|].
      by rewrite block_row_eq, ok_bind by nia.
    + intros d d' Hd. rewrite !Z.geb_leb, !Z.leb_le. lia.
  - rewrite bool_decide_eq_true, list.Exists_exists. split.
    + intros (dy & Hdy & Hny & Hrow). apply elem_of_seqZ in Hdy. unfold row in Hrow.
      apply bool_decide_eq_true, list.Exists_exists in Hrow as (dx & Hdx & Hnx & Hf). apply elem_of_seqZ in Hdx.
      rewrite Z.geb_leb in Hny, Hnx. apply Z.leb_gt in Hny, Hnx.
      exists (ox * scale + dx), (oy * scale + dy). rewrite !in_block. repeat split; try lia; try done; nia.
    + intros (ix & iy & Hix & Hiy & Hbx & Hby & Hf). apply in_block in Hbx, Hby.
      exists (iy - oy * scale). rewrite elem_of_seqZ, Z.geb_leb, Z.leb_gt. split; [lia|]. split; [lia|].
      unfold row. apply bool_decide_eq_true, list.Exists_exists. exists (ix - ox * scale).
      rewrite elem_of_seqZ, Z.geb_leb, Z.leb_gt. split; [lia|]. split; [lia|].
      replace (ox * scale + (ix - ox * scale)) with ix by lia.
      by replace (oy * scale + (iy - oy * scale)) with iy by lia.
Qed.
End pooling.

(** ** Filling a raster *)

Lemma fill_raster (ow oh : Z) (body : Z → Z → list Z → res (list Z)) (Q : Z → Z → Z → Prop) data :
  0 ≤ ow → 0 ≤ oh → zlen data = ow * oh →
  (∀ ox oy d, 0 ≤ ox < ow → 0 ≤ oy < oh → zlen d = ow * oh →
     ∃ v, body oy ox d = Ok (zset d (oy * ow + ox) v) ∧ Q ox oy v) →
  ∃ d, for_range 0 oh (fun oy d => for_range 0 ow (body oy) d) data = Ok d ∧ zlen d = ow * oh ∧
    ∀ ox oy, 0 ≤ ox < ow → 0 ≤ oy < oh → ∃ v, zget d (oy * ow + ox) = Some v ∧ Q ox oy v.
Proof.
  intros How Hoh Hl Hbody.
  set (cell := fun ox oy d => ∃ v, zget d (oy * ow + ox) = Some v ∧ Q ox oy v).
  set (le := fun d d' : list Z => ∀ ox oy, 0 ≤ ox < ow → 0 ≤ oy < oh → cell ox oy d → cell ox oy d').
  assert (PreOrder le) by (split; [by intros d ox oy|intros a b c H1 H2 ox oy ? ? ?; auto]).
  destruct (for_each_mono (fun d => zlen d = ow * oh) le (fun oy d => 0 ≤ oy < oh → ∀ ox, 0 ≤ ox < ow → cell ox oy d)
    (seqZ 0 (oh - 0)) (fun oy d => for_range 0 ow (body oy) d) data) as (d & E & Hd & _ & Hall); try done.
  - intros oy d d' H1 Hle Hoy ox Hox. apply Hle; auto.
  - intros oy d Hoy Hd. apply elem_of_seqZ in Hoy.
    destruct (for_each_mono (fun d => zlen d = ow * oh) le (fun ox d => 0 ≤ ox < ow → cell ox oy d)
      (seqZ 0 (ow - 0)) (body oy) d) as (d' & E & Hd' & Hle' & Hall); try done.
    + intros ox d1 d2 H1 Hle Hox. apply Hle; auto. lia.
    + intros ox d1 Hox Hd1. apply elem_of_seqZ in Hox.
      destruct (Hbody ox oy d1) as (v & E & HQ); [lia|lia|done|].
      assert (0 ≤ oy * ow + ox < zlen d1) as Hpos by (rewrite Hd1; nia).
      exists (zset d1 (oy * ow + ox) v). split; [done|]. split; [by rewrite zlen_zset|]. split.
      * intros x y Hx Hy (u & Hu & HQu). destruct (decide (x = ox ∧ y = oy)) as [[-> ->]|Hne].
        { exists v. by rewrite zget_zset_eq. }
        exists u. rewrite zget_zset_ne; [done|]. intros Heq. apply Hne.
          destruct (digit_inj ow oy y ox x) as [-> ->]; [lia..|done].
      * intros _. exists v. by rewrite zget_zset_eq.
    + exists d'. split; [done|]. split; [done|]. split; [done|]. intros _ ox Hox. apply Hall; [|done].
      apply elem_of_seqZ. lia.
  - exists d. split; [done|]. split; [done|]. intros ox oy Hox Hoy. apply Hall; [|done|done].
    apply elem_of_seqZ. lia.
Qed.

(** C38: both downsamplings pool whole blocks.  On a grid with as many data as
    cells, a scale above 1 gives, without an index out of range, a grid of
    [ceil(width/scale)] by [ceil(height/scale)] cells of which each is decided
    by its block: the conservative one is occupied exactly when some cell of
    the block is not free, the optimistic one free exactly when some cell is
    free.  Every cell of the map belongs to the block of some output cell. *)
Theorem downsample_pools grid scale optimistic :
  0 ≤ og_width grid < 2 ^ 31 → 0 ≤ og_height grid < 2 ^ 31 → 1 < scale < 2 ^ 31 →
  zlen (og_data grid) = og_width grid * og_height grid →
  let ow := div_ceil (og_width grid) scale in let oh := div_ceil (og_height grid) scale in
  ∃ g, downsample grid scale optimistic = Ok g ∧ og_width g = ow ∧ og_height g = oh ∧
    zlen (og_data g) = ow * oh ∧
    (∀ ox oy, 0 ≤ ox < ow → 0 ≤ oy < oh → ∃ v, zget (og_data g) (oy * ow + ox) = Some v ∧
       (v = 0 ∨ v = 100) ∧
       (v = (if optimistic then 0 else 100) ↔ pooled grid scale optimistic ox oy)) ∧
    (∀ ix iy, 0 ≤ ix < og_width grid → 0 ≤ iy < og_height grid →
       0 ≤ ix / scale < ow ∧ 0 ≤ iy / scale < oh).
Proof.
  intros Hw Hh Hs Hlen ow oh. unfold downsample. rewrite (proj2 (Z.leb_gt _ _)) by lia.
  rewrite !as_u64_small by (unfold in_u64; lia). cbv zeta. fold ow oh.
  assert (∀ n, 0 ≤ n < 2 ^ 31 → 0 ≤ div_ceil n scale < 2 ^ 31) as Hdc.
  { intros n Hn. pose proof (div_ceil_bounds n scale ltac:(lia)). nia. }
  pose proof (Hdc _ Hw) as How. pose proof (Hdc _ Hh) as Hoh. fold ow in How. fold oh in Hoh.
  destruct (fill_raster ow oh (fun oy ox data =>
      hit ← block_hit (og_data grid) (og_width grid) (og_height grid) scale ox oy optimistic;
      vset data (oy * ow + ox) (if Bool.eqb hit optimistic then 0 else 100))
    (fun ox oy v => (v = 0 ∨ v = 100) ∧ (v = (if optimistic then 0 else 100) ↔ pooled grid scale optimistic ox oy))
    (vec_repeat 0 (ow * oh))) as (d & E & Hd & Hall); [lia|lia|apply zlen_repeat; nia| |].
  - intros ox oy d Hox Hoy Hd.
    destruct (block_hit_eq grid scale optimistic Hw Hs Hlen ox oy ltac:(lia) ltac:(lia)) as (b & -> & Hb).
    rewrite ok_bind, vset_ok by (rewrite Hd; nia). eexists. split; [done|]. rewrite <- Hb.
    destruct b, optimistic; cbn; split; (by left) || (by right) || done.
  - rewrite E, ok_bind. eexists. split; [done|]. cbn.
    split; [by apply as_i32_small|]. split; [by apply as_i32_small|]. split; [done|]. split; [done|].
    assert (∀ n i, 0 ≤ i < n → 0 ≤ i / scale < div_ceil n scale) as Hdiv.
    { intros n i Hi. pose proof (div_ceil_bounds n scale ltac:(lia)). split; [apply Z.div_pos; lia|].
      apply Z.div_lt_upper_bound; lia. }
    intros ix iy Hix Hiy. split; by apply Hdiv.
Qed.

Definition sample_grid : OccupancyGrid :=
  {| og_width := 3; og_height := 2; og_resolution := f0_1; og_origin_x := f0; og_origin_y := f0;
     og_origin_quat := quat_default; og_data := [0; 0; 0; 100; 0; -1] |}.

Example sample_grid_pooled :
  (a ← downsample_occupancy sample_grid 2; b ← downsample_occupancy_optimistic sample_grid 2;
   Ok (og_data a, og_data b)) = Ok ([100; 100], [0; 0]).
Proof. vm_compute. reflexivity. Qed.

Lemma downsample_pools_witness :
  ∃ g, downsample sample_grid 2 false = Ok g ∧ og_width g = 2 ∧ og_height g = 1 ∧ zlen (og_data g) = 2.
Proof.
  destruct (downsample_pools sample_grid 2 false) as (g & E & Hw & Hh & Hl & _).
  - split; [discriminate|reflexivity].
  - split; [discriminate|reflexivity].
  - split; reflexivity.
  - reflexivity.
  - exists g. split; [exact E|]. split; [exact Hw|]. split; [exact Hh|exact Hl].
Defined.

(** ** Rendering *)

(** The rendered bytes: unknown for unreached states only, otherwise a
    percentage that grows with the cost. *)
Lemma occupancy_of_cost_range t c :
  0 ≤ t → 0 ≤ c → (MAX_COST ≤ c ∧ occupancy_of_cost t c = -1) ∨ (c < MAX_COST ∧ 0 ≤ occupancy_of_cost t c ≤ 100).
Proof.
  intros Ht Hc. unfold occupancy_of_cost. rewrite Z.geb_leb.
  destruct (Z.leb_spec MAX_COST c); [by left|right; split; [done|]].
  cbv zeta. destruct (Z.eqb_spec t 0); [by destruct (_ =? 0)|].
  assert (0 ≤ c / PROB_BASE) by (apply Z.div_pos; [lia|done]).
  assert (0 ≤ u64_sat_mul (c / PROB_BASE) 100 / t).
  { apply Z.div_pos; [|lia]. unfold u64_sat_mul, U64_MAX. lia. }
  rewrite Z.geb_leb. destruct (Z.leb_spec 100 (u64_sat_mul (c / PROB_BASE) 100 / t)); [lia|].
  unfold as_i8, wrap_s. rewrite Z.mod_small; lia.
Qed.

Lemma occupancy_of_cost_mono t c c' :
  0 ≤ t → 0 ≤ c ≤ c' → c' < MAX_COST → occupancy_of_cost t c ≤ occupancy_of_cost t c'.
Proof.
  intros Ht Hc Hm. unfold occupancy_of_cost. rewrite !Z.geb_leb, !(proj2 (Z.leb_gt MAX_COST _)) by lia. cbv zeta.
  assert (0 ≤ c / PROB_BASE ≤ c' / PROB_BASE) as Hd by (split; [apply Z.div_pos; [lia|done]|apply Z.div_le_mono; [done|lia]]).
  destruct (Z.eqb_spec t 0).
  { destruct (Z.eqb_spec (c / PROB_BASE) 0), (Z.eqb_spec (c' / PROB_BASE) 0); lia. }
  assert (0 ≤ u64_sat_mul (c / PROB_BASE) 100 / t ≤ u64_sat_mul (c' / PROB_BASE) 100 / t) as Hs.
  { split; [apply Z.div_pos; [unfold u64_sat_mul, U64_MAX; lia|lia]|].
    apply Z.div_le_mono; [lia|]. unfold u64_sat_mul. lia. }
  unfold as_i8, wrap_s.
  destruct (Z.leb_spec 100 (u64_sat_mul (c / PROB_BASE) 100 / t)), (Z.leb_spec 100 (u64_sat_mul (c' / PROB_BASE) 100 / t));
    rewrite ?Z.mod_small by lia; lia.
Qed.

Lemma value_slice_to_occupancy_spec value w h t :
  0 ≤ w → 0 ≤ h → zlen value = w * h → w * h < 2 ^ 64 →
  value_slice_to_occupancy value w h t = Ok (occupancy_of_cost t <$> value).
Proof.
  intros ? ? Hl ?. unfold value_slice_to_occupancy.
  rewrite u64_mul_small by (unfold in_u64; nia). by rewrite Hl, Z.eqb_refl.
Qed.
