(* ===== verification/Solve.v ===== *)
(** * The solver table (vi_lib/src/solvers/mod.rs)

    The names, capabilities and dispatch of the solvers, and the contract every
    modelled solver of the table meets. *)

From Stdlib Require Import ZArith Lia.
From stdpp Require Import base gmap strings list numbers.
From S2P Require Import Prelude Floats Model Bellman Observe Consistency Original Active Frontier Stack Block.
From S2P Require Import Padded Par Async Schedule Engine ParUnsafe Fused FusedSolve Sparse SparseSolve Priority PrioritySpec.

Inductive U64Solver : Type :=
  | Reference | Frontier3D | Frontier2D | Frontier2DPar | Frontier2DParUnsafe | Frontier2DFused
  | Frontier2DSparse | Frontier2DSparseCompact (band : Z) | FrontierStack | BlockRefine | PyramidSweep
  | StreamMimic | PriorityLabelSetting | PriorityLabelCorrecting | SchurPortal (tile portal_thetas : Z).

#[global] Instance U64Solver_eq_dec : EqDecision U64Solver.
Proof. solve_decision. Defined.

Definition solver_from_name (s : string) : option U64Solver :=
  if bool_decide (s = "reference"%string) then Some Reference else
  if bool_decide (s = "frontier3d"%string) then Some Frontier3D else
  if bool_decide (s = "frontier2d"%string) then Some Frontier2D else
  if bool_decide (s = "frontier2d_par"%string) then Some Frontier2DPar else
  if bool_decide (s = "frontier2d_par_unsafe"%string) then Some Frontier2DParUnsafe else
  if bool_decide (s = "frontier2d_fused"%string) then Some Frontier2DFused else
  if bool_decide (s = "frontier2d_sparse"%string) then Some Frontier2DSparse else
  if bool_decide (s = "frontier2d_sparse_compact"%string) then Some (Frontier2DSparseCompact 0) else
  if bool_decide (s = "frontier_stack"%string) then Some FrontierStack else
  if bool_decide (s = "block_refine"%string) then Some BlockRefine else
  if bool_decide (s = "pyramid_sweep"%string) then Some PyramidSweep else
  if bool_decide (s = "stream_mimic"%string) then Some StreamMimic else
  if bool_decide (s = "prio_ls"%string) then Some PriorityLabelSetting else
  if bool_decide (s = "prio_lc"%string) then Some PriorityLabelCorrecting else
  if bool_decide (s = "schur"%string) then Some (SchurPortal 32 8) else
  None.

(** ** Capabilities *)

Inductive Partiality : Type := UpperBound | ExactPrefix.

#[global] Instance Partiality_eq_dec : EqDecision Partiality.
Proof. solve_decision. Defined.

Record SolverCaps : Type := {
  exact : bool; partial : Partiality; out_of_core : bool; parallel : bool; resweep : bool
}.

Definition solver_caps (solver : U64Solver) : SolverCaps :=
  {| exact := match solver with PriorityLabelSetting => false | _ => true end;
     partial := match solver with Frontier2DSparseCompact _ => ExactPrefix | _ => UpperBound end;
     resweep := negb match solver with
                     | Frontier2DSparseCompact _ | PriorityLabelSetting | PriorityLabelCorrecting => true
                     | _ => false
                     end;
     out_of_core := match solver with Frontier2DSparseCompact _ => true | _ => false end;
     parallel := match solver with
                 | Frontier2DPar | Frontier2DParUnsafe | Frontier2DFused | Frontier2DSparse
                 | Frontier2DSparseCompact _ => true
                 | _ => false
                 end |}.

Record U64SolveStats : Type := { st_iters : Z; st_updates : Z; st_converged : bool }.

(** ** Dispatch *)

Section solve.
Context (nthreads : Z) (sched : Z → list Event).

Section observed.
Context {S : Type} (obs : SolveObserver S).

(** The solvers of the table that have no model here: the out-of-core frontier
    and the Schur portals.  The environment does not ask the sparse solver to
    free the states. *)
Context (solve_compact_observed : Z → option Z → ValueIterator → S → res (ValueIterator * S * SolveOutcome)).
Context (schur_solve_observed : Z → Z → Z → Z → ValueIterator → S → res (ValueIterator * S * SolveOutcome)).

Definition solve_observed (solver : U64Solver) (max_iter : Z) (vi : ValueIterator) (o : S)
    : res (ValueIterator * S * SolveOutcome) :=
  match solver with
  | Reference => original_solve_observed obs max_iter vi o
  | Frontier3D => frontier3d_solve_observed obs max_iter vi o
  | Frontier2D => frontier2d_solve_observed obs max_iter vi o
  | Frontier2DPar => frontier2d_par_solve_observed obs max_iter nthreads vi o
  | Frontier2DFused => frontier2d_fused_solve_observed obs max_iter nthreads sched vi o
  | Frontier2DSparse => frontier2d_sparse_solve_observed obs max_iter nthreads sched false vi o
  | Frontier2DSparseCompact band =>
      solve_compact_observed max_iter (if band =? 0 then None else Some band) vi o
  | Frontier2DParUnsafe => frontier2d_par_unsafe_solve_observed obs max_iter nthreads sched vi o
  | FrontierStack => frontier_stack_solve_observed obs max_iter vi o
  | BlockRefine => block_refine_solve_observed obs max_iter vi o
  | PyramidSweep => pyramid_sweep_solve_observed obs max_iter vi o
  | StreamMimic => stream_mimic_solve_observed obs max_iter vi o
  | PriorityLabelSetting => priority_solve_observed obs true max_iter vi o
  | PriorityLabelCorrecting => priority_solve_observed obs false max_iter vi o
  | SchurPortal tile portal_thetas => schur_solve_observed max_iter (as_i32 tile) (as_i32 portal_thetas) 16 vi o
  end.
End observed.

Definition solve compact schur (solver : U64Solver) (max_iter : Z) (vi : ValueIterator)
    : res (ValueIterator * U64SolveStats) :=
  r ← solve_observed NullObserver compact schur solver max_iter vi ();
  let '(vi, _, o) := r in
  Ok (vi, {| st_iters := so_iters o; st_updates := so_updates o; st_converged := so_converged o |}).

(** ** The contract *)

(** The solvers with a model. *)
Definition modelled (solver : U64Solver) : bool :=
  match solver with Frontier2DSparseCompact _ | SchurPortal _ _ => false | _ => true end.

(** Those whose convergence is the emptiness of an active set of the field
    itself: a converged field is a fixed point of the backups. *)
Definition active_set (solver : U64Solver) : bool :=
  match solver with Frontier3D | Frontier2D | FrontierStack | BlockRefine => true | _ => false end.

(** What a solver needs of the planner beyond a well-formed field. *)
Definition solver_fits (solver : U64Solver) (mx my mt P : Z) (vi : ValueIterator) : Prop :=
  match solver with
  | Reference | StreamMimic => ready vi
  | Frontier3D | Frontier2D | FrontierStack => displacement vi = Ok (mx, my, mt) ∧ mx < 64
  | BlockRefine | PyramidSweep =>
      displacement vi = Ok (mx, my, mt) ∧ mx < 2 ^ 30 ∧ my < 2 ^ 30 ∧
      vi_cell_num_x vi < 2 ^ 30 ∧ vi_cell_num_y vi < 2 ^ 30
  | Frontier2DPar | Frontier2DParUnsafe => padded_fits vi mx my mt
  | Frontier2DFused => fused_fits vi mx my mt P
  | Frontier2DSparse => fused_fits vi mx my mt P ∧ vi_cell_num_t vi ≤ 64
  | _ => True
  end.

(** The threads of the asynchronous solvers exist and are scheduled fairly. *)
Definition threads_ok (vi : ValueIterator) : Prop :=
  0 < nthreads < 2 ^ 32 ∧ (∀ i e, e ∈ sched i → 0 ≤ ev_worker e < nthreads) ∧
  (∀ i, fair nthreads (sparse_passes vi nthreads) (sched i)).
End solve.

Lemma inplace_framed vi vi' : inplace vi vi' → framed vi vi'.
Proof.
  intros [E H]. split; [done|]. exists (vi_thread_status vi). rewrite E at 1. by destruct vi.
Qed.

(** What the callers of the table rely on, and how each family discharges it. *)
Definition contract {S} (strong : bool) (vi : ValueIterator) (r : res (ValueIterator * S * SolveOutcome)) : Prop :=
  ∃ vi' o' out, r = Ok (vi', o', out) ∧ wf_vi vi' ∧ framed vi vi' ∧
    (strong = true → so_converged out = true → active_fixed_point vi vi').

Lemma contract_solve_ok {S} strong vi (r : res (ValueIterator * S * SolveOutcome)) max_iter :
  (∃ vi' o' out, r = Ok (vi', o', out) ∧ solve_ok vi max_iter vi' out) → contract strong vi r.
Proof.
  intros (vi' & o' & out & E & Hwf & Hip & _ & Hfix). exists vi', o', out. split; [done|].
  split; [done|]. split; [by apply inplace_framed|]. auto.
Qed.

Lemma contract_inplace {S} vi (r : res (ValueIterator * S * SolveOutcome)) :
  (∃ vi' o' out, r = Ok (vi', o', out) ∧ wf_vi vi' ∧ inplace vi vi') → contract false vi r.
Proof.
  intros (vi' & o' & out & E & Hwf & Hip). exists vi', o', out. split; [done|].
  split; [done|]. split; [by apply inplace_framed|done].
Qed.

Lemma contract_padded {S} vi (r : res (ValueIterator * S * SolveOutcome)) bound max_iter :
  (∃ t, r = Ok t ∧ padded_ok vi bound max_iter t.1.1 t.2) → contract false vi r.
Proof.
  intros ([[vi' o'] out] & E & _ & Hwf & Hip & _). apply contract_inplace. by exists vi', o', out.
Qed.

Lemma contract_priority {S} (obs : SolveObserver S) ls max_iter vi o :
  wf_vi vi → 0 ≤ max_iter < 2 ^ 32 → contract false vi (priority_solve_observed obs ls max_iter vi o).
Proof.
  intros Hwf Hm. destruct (priority_solve_inner_spec obs ls max_iter vi o Hwf Hm)
    as (vi' & o' & st & flow & E & [Hwf' Hip _ _] & _).
  apply contract_inplace. unfold priority_solve_observed. rewrite E, ok_bind. by eexists _, _, _.
Qed.

Lemma enough_of_sparse vi nthreads (sched : Z → list Event) :
  wf_vi vi → 0 < nthreads → (∀ i, fair nthreads (sparse_passes vi nthreads) (sched i)) →
  ∀ i, fair nthreads (enough_passes vi nthreads) (sched i).
Proof.
  intros Hwf Hn Hf i. eapply fair_le; [|apply Hf]. pose proof Hwf as [[? ? ? _] _ _].
  unfold enough_passes, sparse_passes. nia.
Qed.

Lemma solve_contract {S} (obs : SolveObserver S) nthreads sched compact schur solver max_iter vi o
    mx my mt P :
  modelled solver = true → wf_vi vi → solver_fits solver mx my mt P vi → threads_ok nthreads sched vi →
  0 ≤ max_iter < 2 ^ 32 - 4 →
  ∃ vi' o' out, solve_observed nthreads sched obs compact schur solver max_iter vi o = Ok (vi', o', out) ∧
    wf_vi vi' ∧ framed vi vi' ∧
    (active_set solver = true → so_converged out = true → active_fixed_point vi vi').
Proof.
  intros Hmod Hwf Hfit (Hn & Hs & Hf) Hm.
  pose proof (enough_of_sparse vi nthreads sched Hwf (proj1 Hn) Hf) as Hf'.
  assert (0 ≤ max_iter < 2 ^ 32) as Hm' by lia.
  change (contract (active_set solver) vi
    (solve_observed nthreads sched obs compact schur solver max_iter vi o)).
  destruct solver; try discriminate Hmod; cbn [solve_observed active_set solver_fits] in *.
  - destruct (original_solve_spec obs max_iter vi o Hfit Hm') as (v & w & u & E & ? & ? & _). by exists v, w, u.
  - destruct Hfit. eapply contract_solve_ok, frontier3d_solve_spec; eauto.
  - destruct Hfit. eapply contract_solve_ok, frontier2d_solve_spec; eauto.
  - destruct (frontier2d_par_spec obs max_iter vi o mx my mt Hwf Hfit Hm') as (r & E & Hr).
    eapply contract_padded. by exists r.
  - eapply contract_padded, unsafe_spec; eauto.
  - eapply contract_padded, fused_spec; eauto.
  - destruct Hfit. eapply contract_padded, sparse_spec; eauto.
  - destruct Hfit. eapply contract_solve_ok, frontier_stack_solve_spec; eauto.
  - destruct Hfit as (? & ? & ? & ? & ?). eapply contract_solve_ok, block_refine_solve_spec; eauto.
  - destruct Hfit as (? & ? & ? & ? & ?).
    destruct (pyramid_sweep_solve_spec obs max_iter vi o mx my mt) as (v & w & u & E & ? & ? & _); try done.
    apply contract_inplace. by exists v, w, u.
  - destruct (original_solve_spec obs max_iter vi o Hfit Hm') as (v & w & u & E & ? & ? & _). by exists v, w, u.
  - by apply contract_priority.
  - by apply contract_priority.
Qed.

(** C27: the contract of the solver table.  Every modelled solver, on a
    well-formed planner that meets its requirements, whatever the observer
    answers and however the threads are scheduled (fairly), returns without a
    panic; the field it leaves is well formed and differs from the given one in
    values, policies and thread status only.  When one of the active-set
    solvers reports convergence, every updatable state holds its own backup
    unless nothing it reads was ever reached. *)
Theorem solve_observed_contract {S} (obs : SolveObserver S) nthreads sched compact schur solver max_iter vi o
    mx my mt P :
  modelled solver = true → wf_vi vi → solver_fits solver mx my mt P vi → threads_ok nthreads sched vi →
  0 ≤ max_iter < 2 ^ 32 - 4 →
  ∃ vi' o' out, solve_observed nthreads sched obs compact schur solver max_iter vi o = Ok (vi', o', out) ∧
    wf_vi vi' ∧ framed vi vi' ∧
    (active_set solver = true → so_converged out = true → active_fixed_point vi vi').
Proof. apply solve_contract. Qed.

Lemma corridor_threads : threads_ok 2 corridor_sched (corridor 3).
Proof.
  split; [lia|]. split.
  - intros i e. apply round_robin_workers.
  - intros i. apply round_robin_fair. vm_compute. discriminate.
Qed.

Lemma solve_observed_contract_witness :
  (∃ vi' o' out, solve_observed 2 corridor_sched NullObserver (fun _ _ _ _ => Panic)
     (fun _ _ _ _ _ _ => Panic) Frontier2DFused 10 (corridor 3) () = Ok (vi', o', out) ∧ wf_vi vi') ∧
  (∃ vi' o' out, solve_observed 2 corridor_sched NullObserver (fun _ _ _ _ => Panic)
     (fun _ _ _ _ _ _ => Panic) Frontier2D 10 (corridor 3) () = Ok (vi', o', out) ∧
     (so_converged out = true → active_fixed_point (corridor 3) vi')).
Proof.
  split.
  - destruct (solve_observed_contract NullObserver 2 corridor_sched (fun _ _ _ _ => Panic)
      (fun _ _ _ _ _ _ => Panic) Frontier2DFused 10 (corridor 3) () 1 1 0 PROB_BASE)
      as (v & w & u & E & Hwf & _).
    + reflexivity.
    + apply check_vi_ok. reflexivity.
    + exact corridor_fused_fits.
    + exact corridor_threads.
    + lia.
    + exists v, w, u. split; [exact E|exact Hwf].
  - destruct (solve_observed_contract NullObserver 2 corridor_sched (fun _ _ _ _ => Panic)
      (fun _ _ _ _ _ _ => Panic) Frontier2D 10 (corridor 3) () 1 1 0 PROB_BASE)
      as (v & w & u & E & _ & _ & Hfix).
    + reflexivity.
    + apply check_vi_ok. reflexivity.
    + split; [reflexivity|lia].
    + exact corridor_threads.
    + lia.
    + exists v, w, u. split; [exact E|]. exact (Hfix eq_refl).
Defined.

Example schur_named : solver_from_name "schur"%string = Some (SchurPortal 32 8) ∧ solver_from_name "dijkstra"%string = None.
Proof. split; reflexivity. Qed.
