(* ===== verification/Answers.v ===== *)
(** * What a solve answers to its observer

    The contract of vi_lib/src/solvers/observe.rs, for the whole table of
    solvers: a solve is a sequence of boundary calls answered [Continue], and it
    ends by itself, or because the last call was answered [Stop] or [Cancel] -
    and after a [Stop] the field it returns is the one [policy()] shows there. *)

From Stdlib Require Import ZArith Lia.
From stdpp Require Import base gmap strings list numbers.
From S2P Require Import Prelude Floats Model Bellman Observe Original Active Frontier Stack Block.
From S2P Require Import Padded Par Async Engine ParUnsafe Fused FusedLayout FusedSolve Sparse SparseSolve Priority Solve.

(** ** The answer *)

Section answered.
Context {S : Type} (obs : SolveObserver S).

(** From the observer's state [o], the solve returned the field, the state of
    the observer and the outcome. *)
Inductive answered : S → ValueIterator → S → SolveOutcome → Prop :=
| answered_end o vi out :
    so_stopped out = false → so_cancelled out = false → answered o vi o out
| answered_stop o pr o' out :
    ob_boundary obs o pr = (o', Stop) →
    so_stopped out = true → so_cancelled out = false → so_converged out = false →
    answered o (p_policy pr) o' out
| answered_cancel o pr vi o' out :
    ob_boundary obs o pr = (o', Cancel) →
    so_stopped out = false → so_cancelled out = true → so_converged out = false →
    answered o vi o' out
| answered_continue o pr o1 vi o' out :
    ob_boundary obs o pr = (o1, Continue) → answered o1 vi o' out → answered o vi o' out.

Definition answers (o : S) (r : res (ValueIterator * S * SolveOutcome)) : Prop :=
  ∀ vi o' out, r = Ok (vi, o', out) → answered o vi o' out.

(** The boundary block of the in-place solvers. *)
Lemma at_boundary_answers vi iters updates p o (go : BoundaryPacer → S → res (ValueIterator * S * SolveOutcome))
    v w out :
  match at_boundary obs vi iters updates p o with
  | (_, o', Some out) => Ok (vi, o', out)
  | (p', o', None) => go p' o'
  end = Ok (v, w, out) →
  (∀ p' o', answers o' (go p' o')) → answered o v w out.
Proof.
  unfold at_boundary. intros H Hgo. destruct (due p iters) as [[] p']; [|by eapply Hgo].
  set (pr := {| p_iters := iters; p_updates := updates; p_policy := vi |}) in *.
  destruct (ob_boundary obs o pr) as [o' []] eqn:E.
  - eapply answered_continue; [done|]. by eapply Hgo.
  - injection H as <- <- <-. by apply (answered_stop o pr).
  - injection H as <- <- <-. by apply (answered_cancel o pr).
Qed.

(** A last call and the outcome the solvers make of its answer. *)
Lemma flow_answers o pr o' flow iters updates conv vi :
  ob_boundary obs o pr = (o', flow) → flow ≠ Continue → vi = p_policy pr →
  answered o vi o' match flow with
                   | Stop => stopped iters updates
                   | Cancel => cancelled iters updates
                   | Continue => running iters updates conv
                   end.
Proof.
  intros E Hf ->. destruct flow; [done|by eapply answered_stop|by eapply answered_cancel].
Qed.
End answered.

(** Peels the binds and the tests off a run that returned. *)
Ltac returned_step H :=
  lazymatch type of H with
  | (_ ≫= _) = Ok _ => let E := fresh "E" in apply bind_ok in H as (? & E & H)
  | Panic = Ok _ => discriminate H
  | OutOfFuel = Ok _ => discriminate H
  | (match ?m with _ => _ end) = Ok _ => destruct m eqn:?
  end.

(** ** The in-place solvers *)

Section inplace.
Context {S : Type} (obs : SolveObserver S).

(** The end of a solve on its own. *)
Ltac ends H := injection H as <- <- <-; by apply answered_end.

Lemma original_loop_answers max_iter fuel vi prev iters p o :
  answers obs o (original_loop obs max_iter fuel vi prev iters p o).
Proof.
  revert vi prev iters p o. induction fuel as [|fuel IH]; intros vi prev iters p o v w out H; [done|].
  cbn [original_loop] in H. do 2 returned_step H. destruct (negb _); [ends H|]. destruct (_ >=? _); [ends H|].
  eapply at_boundary_answers; [exact H|]. intros p' o'. apply IH.
Qed.

Lemma original_answers max_iter vi o : answers obs o (original_solve_observed obs max_iter vi o).
Proof. apply original_loop_answers. Qed.

Lemma f2_loop_answers max_iter dx dy fuel vi fr u iters p o :
  answers obs o (f2_loop obs max_iter dx dy fuel vi fr u iters p o).
Proof.
  revert vi fr u iters p o. induction fuel as [|fuel IH]; intros vi fr u iters p o v w out H; [done|].
  cbn [f2_loop] in H. destruct (_ && _); [|ends H]. do 3 returned_step H. destruct x1 as [[vi1 u1] f1].
  destruct (0 <? _); [|by eapply IH]. eapply at_boundary_answers; [exact H|]. intros p' o'. apply IH.
Qed.

Lemma frontier2d_answers max_iter vi o : answers obs o (frontier2d_solve_observed obs max_iter vi o).
Proof.
  intros v w out H. unfold frontier2d_solve_observed in H. returned_step H. destruct x as [[mx my] mt].
  returned_step H. by eapply f2_loop_answers.
Qed.

Lemma f3_loop_answers max_iter dx dy dt fuel vi fr u iters p o :
  answers obs o (f3_loop obs max_iter dx dy dt fuel vi fr u iters p o).
Proof.
  revert vi fr u iters p o. induction fuel as [|fuel IH]; intros vi fr u iters p o v w out H; [done|].
  cbn [f3_loop] in H. destruct (_ && _); [|ends H]. do 3 returned_step H. destruct x1 as [[vi1 u1] f1].
  destruct (0 <? _); [|by eapply IH]. eapply at_boundary_answers; [exact H|]. intros p' o'. apply IH.
Qed.

Lemma frontier3d_answers max_iter vi o : answers obs o (frontier3d_solve_observed obs max_iter vi o).
Proof.
  intros v w out H. unfold frontier3d_solve_observed in H. returned_step H. destruct x as [[mx my] mt].
  returned_step H. by eapply f3_loop_answers.
Qed.

Lemma stack_loop_answers max_iter dx dy mt fuel vi fr u iters p o :
  answers obs o (stack_loop obs max_iter dx dy mt fuel vi fr u iters p o).
Proof.
  revert vi fr u iters p o. induction fuel as [|fuel IH]; intros vi fr u iters p o v w out H; [done|].
  cbn [stack_loop] in H. destruct (_ && _); [|ends H]. do 3 returned_step H. destruct x1 as [[vi1 u1] f1].
  destruct (0 <? _); [|by eapply IH]. eapply at_boundary_answers; [exact H|]. intros p' o'. apply IH.
Qed.

Lemma frontier_stack_answers max_iter vi o : answers obs o (frontier_stack_solve_observed obs max_iter vi o).
Proof.
  intros v w out H. unfold frontier_stack_solve_observed in H. returned_step H. destruct x as [[mx my] mt].
  returned_step H. by eapply stack_loop_answers.
Qed.

Lemma block_loop_answers max_iter block ls n_bx n_by rx ry nb passable fuel vi fr u iters p o :
  answers obs o (block_loop obs max_iter block ls n_bx n_by rx ry nb passable fuel vi fr u iters p o).
Proof.
  revert vi fr u iters p o. induction fuel as [|fuel IH]; intros vi fr u iters p o v w out H; [done|].
  cbn [block_loop] in H. destruct (negb _); [ends H|]. destruct (_ >=? _); [ends H|].
  do 2 returned_step H. destruct x0 as [[[vi1 u1] f1] moved]. destruct (negb _); [ends H|].
  eapply at_boundary_answers; [exact H|]. intros p' o'. apply IH.
Qed.

Lemma block_sized_answers block ls max_iter vi o : answers obs o (block_refine_sized obs block ls max_iter vi o).
Proof.
  intros v w out H. unfold block_refine_sized in H. do 3 returned_step H. destruct x1 as [[mx my] mt].
  do 3 returned_step H. by eapply block_loop_answers.
Qed.

Lemma block_refine_answers max_iter vi o : answers obs o (block_refine_solve_observed obs max_iter vi o).
Proof. apply block_sized_answers. Qed.

(** The later loops of a solve continue the chain of an earlier one. *)
Lemma answered_more o vi o1 out1 v w out :
  answered obs o vi o1 out1 → so_stopped out1 = false → so_cancelled out1 = false →
  answered obs o1 v w out → answered obs o v w out.
Proof.
  intros H. induction H as [| |  |]; intros Hs Hc Hrest; try congruence. eapply answered_continue; [done|]. auto.
Qed.

(** What it reports is told to the observer the same. *)
Lemma answered_out o vi w out out' :
  answered obs o vi w out → so_stopped out' = so_stopped out → so_cancelled out' = so_cancelled out →
  so_converged out' = so_converged out → answered obs o vi w out'.
Proof.
  intros H Es Ec Ev. induction H as [| |o pr vi w out E| ].
  - apply answered_end; congruence.
  - apply answered_stop; congruence.
  - apply (answered_cancel obs o pr); congruence.
  - eapply answered_continue; [done|]. auto.
Qed.
Lemma answered_unconverged o vi w out : answered obs o vi w out → so_stopped out = true → so_converged out = false.
Proof. intros H. induction H; intros Hs; [congruence|done..|auto]. Qed.
End inplace.

Lemma offset_answered {S} (obs : SolveObserver S) i u o vi w out :
  answered (OffsetObserver obs i u) o vi w out → answered obs o vi w out.
Proof.
  set (shift pr := {| p_iters := u32_sat_add (p_iters pr) i; p_updates := u64_sat_add (p_updates pr) u;
                      p_policy := p_policy pr |}).
  intros H. induction H as [|o pr o' out E|o pr vi o' out E|o pr o1 vi o' out E].
  - by apply answered_end.
  - by apply (answered_stop obs o (shift pr)).
  - by apply (answered_cancel obs o (shift pr)).
  - eapply (answered_continue obs o (shift pr)); [exact E|done].
Qed.

Lemma pyramid_levels_answers {S} (obs : SolveObserver S) max_iter sizes vi o it u conv :
  answers obs o (pyramid_levels obs max_iter sizes vi o it u conv).
Proof.
  revert vi o it u conv. induction sizes as [|block sizes IH]; intros vi o it u conv v w out H.
  { injection H as <- <- <-. by apply answered_end. }
  cbn [pyramid_levels] in H. returned_step H. destruct x as [[v1 o1] out1].
  apply block_sized_answers, offset_answered in E.
  destruct (so_stopped out1 || so_cancelled out1) eqn:Ef.
  { injection H as <- <- <-. by eapply answered_out. }
  apply orb_false_elim in Ef as [Es Ec]. eapply answered_more; [exact E|done..|].
  destruct (_ >=? _); [injection H as <- <- <-; by apply answered_end|]. by eapply IH.
Qed.

Lemma pyramid_answers {S} (obs : SolveObserver S) max_iter vi o :
  answers obs o (pyramid_sweep_solve_observed obs max_iter vi o).
Proof. apply pyramid_levels_answers. Qed.

Section priority.
Context {S : Type} (obs : SolveObserver S).

Lemma pop_boundary_answers stride st st' flow :
  pop_boundary obs stride st = (st', flow) →
  pr_vi st' = pr_vi st ∧
  ((pr_obs st' = pr_obs st ∧ flow = Continue) ∨
   ∃ pr, p_policy pr = pr_vi st ∧ ob_boundary obs (pr_obs st) pr = (pr_obs st', flow)).
Proof.
  unfold pop_boundary. destruct (_ >=? _); [|intros [= <- <-]; by split; [|left]].
  set (pr := {| p_iters := _; p_updates := _; p_policy := _ |}). destruct (ob_boundary obs _ pr) as [o f] eqn:E.
  intros [= <- <-]. split; [done|]. right. by exists pr.
Qed.

Lemma expand_obs ls rev s_star st st' : expand ls rev s_star st = Ok st' → pr_obs st' = pr_obs (S := S) st.
Proof. unfold expand. intros H. do 3 returned_step H. destruct x1 as [[vi heap] u]. by injection H as <-. Qed.

Lemma visit_obs ls rev s_star st st' : visit ls rev s_star st = Ok st' → pr_obs st' = pr_obs (S := S) st.
Proof.
  unfold visit. intros H. destruct ls.
  - returned_step H. destruct x; [by injection H as <-|]. returned_step H. by apply expand_obs in H.
  - do 2 returned_step H. by apply expand_obs in H.
Qed.

(** The end of the loop: the state, the flow, and the outcome made of them. *)
Lemma priority_loop_answers ls fuel cap stride rev st st' stats flow iters updates conv :
  priority_loop obs ls fuel cap stride rev st = Ok (st', stats, flow) →
  answered obs (pr_obs st) (pr_vi st') (pr_obs st')
    match flow with
    | Stop => stopped iters updates
    | Cancel => cancelled iters updates
    | Continue => running iters updates conv
    end.
Proof.
  revert st. induction fuel as [|fuel IH]; intros st H; [done|]. cbn [priority_loop] in H.
  destruct (heap_pop (pr_heap st)) as [[[lab s_star] heap]|].
  2:{ injection H as <- _ <-. by apply answered_end. }
  destruct (_ >? _). { injection H as <- _ <-. by apply answered_end. }
  destruct (pop_boundary _ _ _) as [st1 f1] eqn:Eb. apply pop_boundary_answers in Eb as [Ev Hb].
  cbn [pr_vi pr_obs] in Ev, Hb. destruct (negb _) eqn:Ef.
  - injection H as <- _ <-. apply negb_true_iff, bool_decide_eq_false in Ef.
    destruct Hb as [[_ ?]|(pr & Hpr & E)]; [done|]. eapply flow_answers; [exact E|done|by rewrite Ev, Hpr].
  - apply negb_false_iff, bool_decide_eq_true in Ef as ->.
    assert (answered obs (pr_obs st1) (pr_vi st') (pr_obs st')
      match flow with Stop => stopped iters updates | Cancel => cancelled iters updates
                 | Continue => running iters updates conv end) as Hrest.
    { returned_step H. destruct (negb _); [by apply IH|]. returned_step H. apply visit_obs in E0 as <-. by apply IH. }
    destruct Hb as [[<- _]|(pr & _ & E)]; [done|]. by eapply answered_continue.
Qed.

Lemma priority_answers ls max_iter vi o : answers obs o (priority_solve_observed obs ls max_iter vi o).
Proof.
  intros v w out H. unfold priority_solve_observed, priority_solve_inner in H. returned_step H.
  returned_step E. returned_step E. destruct x1 as [[st stats] flow]. injection E as <-. injection H as <- <- <-.
  eapply priority_loop_answers in E1. exact E1.
Qed.
End priority.

(** ** The parallel solvers

    They write the planner at a boundary that looks at the policy, and again at
    the end.  Writing the same values twice changes nothing, so whether a call
    looked does not show. *)

Lemma map_res_again {A} (f : A → res A) l ys :
  map_res f l = Ok ys → (∀ x y, f x = Ok y → f y = Ok y) → map_res f ys = Ok ys.
Proof.
  rewrite !map_res_ok. intros H Hf. induction H; constructor; eauto.
Qed.

Lemma numbered_again {A} (f : Z * A → res A) o (l ys : list A) :
  map_res f (numbered o l) = Ok ys → (∀ k x y, f (k, x) = Ok y → f (k, y) = Ok y) →
  map_res f (numbered o ys) = Ok ys.
Proof.
  revert o ys. induction l as [|x l IH]; intros o ys H Hf; [by injection H as <-|].
  rewrite numbered_cons in H. cbn [map_res] in H. do 2 returned_step H. injection H as <-.
  rewrite numbered_cons. cbn [map_res]. rewrite (Hf _ _ _ E), ok_bind. by erewrite IH.
Qed.

Lemma map_res_length {A B} (f : A → res B) l ys : map_res f l = Ok ys → length ys = length l.
Proof. intros H%map_res_ok. symmetry. by eapply Forall2_length. Qed.

(** Pieces of the same lengths are the chunks of what they make together. *)
Lemma chunks_from_again {A B} k fuel (l : list A) (parts : list (list B)) :
  (0 < k)%nat → (length l ≤ fuel)%nat →
  Forall2 (fun a b => length b = length a) (chunks_from fuel k l) parts →
  chunks_from fuel k (mjoin parts) = parts ∧ length (mjoin parts) = length l.
Proof.
  intros Hk. revert l parts. induction fuel as [|fuel IH]; intros l parts Hl H.
  { inversion H; subst. destruct l; [done|cbn in Hl; lia]. }
  destruct l as [|x l]; [by inversion H; subst|]. cbn [chunks_from] in H.
  inversion H as [|a p b ps Hp Hps E1 E2]. subst. destruct (IH (drop k (x :: l)) ps) as [Hc Hlen]; [|done|].
  { rewrite length_drop. cbn [length] in *. lia. }
  rewrite length_take in Hp. rewrite length_drop in Hlen.
  change (mjoin (p :: ps)) with (p ++ mjoin ps). split; [|rewrite length_app; cbn [length] in *; lia].
  assert (p ++ mjoin ps = [] → False) as Hne.
  { intros E%(f_equal length). rewrite length_app in E. cbn [length] in *. lia. }
  cbn [chunks_from]. destruct (p ++ mjoin ps) as [|y q] eqn:Eq; [done|]. rewrite <- Eq.
  destruct (Nat.le_gt_cases k (length p)).
  - assert (k = length p) as Ek by lia. rewrite Ek, take_app_length, drop_app_length. rewrite <- Ek at 1. by rewrite Hc.
  - assert (mjoin ps = []) as E0 by (apply nil_length_inv; cbn [length] in *; lia).
    rewrite E0, app_nil_r, take_ge, drop_ge by lia. rewrite E0 in Hc. by rewrite Hc.
Qed.

Lemma chunks_again {A B} k (l : list A) (parts : list (list B)) :
  0 < k → Forall2 (fun a b => length b = length a) (chunks k l) parts → chunks k (mjoin parts) = parts.
Proof.
  intros Hk H. unfold chunks in *. destruct (chunks_from_again (Z.to_nat k) (length l) l parts) as [E Hl]; [lia|done..|].
  by rewrite Hl.
Qed.

Lemma with_states_again vi st : with_states (with_states vi st) st = with_states vi st.
Proof. done. Qed.

Lemma par_materialise_again m nthreads vi v :
  par_materialise m nthreads vi = Ok v → par_materialise m nthreads v = Ok v.
Proof.
  unfold par_materialise, pad_write_back. intros H. do 2 returned_step H. injection H as <-.
  rewrite E, ok_bind. change (vi_states (with_states vi x0)) with x0.
  erewrite map_res_again; [by rewrite ok_bind, with_states_again|exact E0|].
  intros s s' Hs. cbn beta in *. do 2 returned_step Hs. injection Hs as <-.
  change (pad_state_index _ _ _ _ (with_value s x1.1 x2)) with (pad_state_index (p_nt m) (p_mx m) (p_my m) (p_nx_pad m) s).
  rewrite E1, ok_bind. cbn [with_value s_ix s_iy s_it]. by rewrite E2.
Qed.

Lemma unfuse_again g cp pen opt orig s s' :
  unfuse_state g cp pen opt orig s = Ok s' → unfuse_state g cp pen opt orig s' = Ok s'.
Proof.
  unfold unfuse_state. intros H. do 3 returned_step H. injection H as <-. cbn [with_value s_ix s_iy s_it].
  by rewrite E, ok_bind, E0, ok_bind, E1.
Qed.

Lemma write_back_fused_again vi g cp pen opt nthreads v :
  write_back_fused_on vi g cp pen opt nthreads = Ok v → write_back_fused_on v g cp pen opt nthreads = Ok v.
Proof.
  unfold write_back_fused_on. set (row_st := as_u64 _). set (band := u64_mul _ _).
  destruct (Z.eqb_spec band 0) as [|Hb]; [done|]. intros H. returned_step H. rename x into parts. injection H as <-.
  cbn [with_states vi_states vi_cell_num_y]. fold row_st. fold band. destruct (Z.eqb_spec band 0); [done|].
  assert (0 < band) as Hpos.
  { assert (0 ≤ band); [|lia]. unfold band, u64_mul. apply wrap_u_range. lia. }
  rewrite (chunks_again band (vi_states vi) parts Hpos).
  - change (@enumerated (list State)) with (@numbered (list State) 0) in *.
    erewrite numbered_again; [rewrite ok_bind; by destruct vi|exact E|].
    intros k part part' Hp. cbn [fst snd] in *. change (@enumerated State) with (@numbered State 0) in *.
    eapply numbered_again; [exact Hp|]. intros k' s s'. cbn [fst snd]. apply unfuse_again.
  - apply map_res_ok in E. change (@enumerated (list State)) with (@numbered (list State) 0) in E.
    revert E. generalize (chunks band (vi_states vi)) as cs, 0 as o. clear. intros cs o E.
    remember (numbered o cs) as l eqn:El. revert o cs El.
    induction E as [|p q l qs Hp _ IH]; intros o [|c cs] El; try (rewrite numbered_cons in El); try discriminate El.
    + constructor.
    + injection El as -> ->. constructor; [|by eapply IH]. apply map_res_length in Hp. rewrite Hp. cbn [snd].
      unfold enumerated. rewrite length_zip_with, length_seqZ. unfold zlen. lia.
Qed.

(** A boundary call is answered as if it looked at what the end would write. *)
Lemma materialize_answer {S} (obs : SolveObserver S) mat it up vi o v o1 flow :
  (∀ a b, mat a = Ok b → mat b = Ok b) →
  materialize_boundary obs mat it up (vi, o) = Ok ((v, o1), flow) →
  ∃ pr, ob_boundary obs o pr = (o1, flow) ∧
    ∀ shown, mat v = Ok shown → ob_boundary obs o (with_policy pr shown) = (o1, flow).
Proof.
  intros Hagain H. pose proof (materialize_shown _ _ _ _ _ _ _ _ _ H) as [Hv Hs].
  assert (∀ shown, mat v = Ok shown → mat vi = Ok shown) as Hback.
  { intros shown E. destruct Hv as [Ev| ->]; [|done]. apply Hagain in Ev as Ev'. congruence. }
  unfold materialize_boundary in H. returned_step H. destruct (ob_boundary _ _ _) as [o2 f2] eqn:Eb.
  injection H as <- <- <-. eexists. split; [exact Eb|]. intros shown E1. exact (Hs _ (Hback _ E1)).
Qed.

Section rounds.
Context {S M : Type} (obs : SolveObserver S).
Context (boundary : M → Z → Z → ValueIterator * S → res ((ValueIterator * S) * SolveFlow)).
Context (written : M → ValueIterator → res ValueIterator).

(** What a boundary call of the leader does, and what the end writes. *)
Context (Hboundary : ∀ mem it up v o seen o1 flow,
  boundary mem it up (v, o) = Ok ((seen, o1), flow) →
  ∃ pr, ob_boundary obs o pr = (o1, flow) ∧
    ∀ shown, written mem seen = Ok shown → ob_boundary obs o (with_policy pr shown) = (o1, flow)).

(** A stopped solve answers with what is written from the final arrays. *)
Definition leader_answered (o : S) (r : M * (ValueIterator * S) * SolveOutcome) : Prop :=
  let '(mem, (v, o'), out) := r in
  (so_stopped out = true → so_converged out = false ∧ so_cancelled out = false) ∧
  ∀ v', (so_stopped out = true → written mem v = Ok v') → answered obs o v' o' out.

(** One turn of the leader: the visit, if there is one, and the rest. *)
Lemma leader_turn visit (mem : M) it up (v0 : ValueIterator) (o0 : S) b flow (go : bool)
    (rest : res (M * (ValueIterator * S) * SolveOutcome)) conv r :
  (if (visit : bool) then boundary mem it up (v0, o0) else Ok ((v0, o0), Continue)) = Ok (b, flow) →
  (go = true → flow = Continue) →
  (if go then rest
   else Ok (mem, b, match flow with
                    | Stop => stopped it up
                    | Cancel => cancelled it up
                    | Continue => running it up conv
                    end)) = Ok r →
  (rest = Ok r → leader_answered b.2 r) →
  leader_answered o0 r.
Proof.
  intros Hv Hgo Hr Hrest. destruct b as [v1 o1].
  assert ((o1 = o0 ∧ flow = Continue) ∨ ∃ pr, ob_boundary obs o0 pr = (o1, flow) ∧
    ∀ shown, written mem v1 = Ok shown → ob_boundary obs o0 (with_policy pr shown) = (o1, flow)) as Hb.
  { destruct visit; [right; by eapply Hboundary|left]. by injection Hv as <- <- <-. }
  destruct go.
  - specialize (Hgo eq_refl) as ->. apply Hrest in Hr. destruct Hb as [[-> _]|(pr & E & _)]; [done|].
    destruct r as [[mem' [v o']] out]. destruct Hr as [Hc Ha]. split; [done|]. intros v' Hv'.
    eapply answered_continue; [exact E|by apply Ha].
  - injection Hr as <-. split; [by destruct flow|]. intros v' Hv'. destruct Hb as [[-> ->]|(pr & E & Hs)].
    + by apply answered_end.
    + destruct flow.
      * eapply answered_continue; [exact E|]. by apply answered_end.
      * by apply (answered_stop obs o0 (with_policy pr v')); [apply Hs, Hv'|..].
      * by eapply answered_cancel.
Qed.

Lemma engine_loop_answers eval nx ny nt dx dy nthreads max_iter interval sched fuel mem cand updates iters nb v0 o0 r :
  engine_loop eval nx ny nt dx dy nthreads max_iter interval sched boundary fuel mem cand updates iters nb (v0, o0) = Ok r →
  leader_answered o0 r.
Proof.
  revert mem cand updates iters nb v0 o0. induction fuel as [|fuel IH]; intros mem cand updates iters nb v0 o0 H; [done|].
  cbn [engine_loop] in H. do 3 returned_step H. destruct x1 as [b flow].
  eapply leader_turn; [exact E1| |exact H|].
  - intros [_ Hf]%andb_prop. by apply bool_decide_eq_true in Hf.
  - intros Hr. do 2 returned_step Hr. destruct b. by eapply IH.
Qed.

Lemma sparse_loop_answers eval nx ny nt mx my mt mw dx dy nthreads max_iter interval sched drop fuel mem masks prev cand
    updates iters nb v0 o0 r :
  sparse_loop eval nx ny nt mx my mt mw dx dy nthreads max_iter interval sched drop boundary fuel mem masks prev cand
    updates iters nb (v0, o0) = Ok r →
  leader_answered o0 r.
Proof.
  revert mem masks prev cand updates iters nb v0 o0.
  induction fuel as [|fuel IH]; intros mem masks prev cand updates iters nb v0 o0 H; [done|].
  cbn [sparse_loop] in H. do 3 returned_step H. destruct x1 as [[masks1 nf] prev1]. returned_step H.
  destruct x1 as [b flow]. eapply leader_turn; [exact E2| |exact H|].
  - intros [_ Hf]%andb_prop. by apply bool_decide_eq_true in Hf.
  - intros Hr. do 2 returned_step Hr. destruct b. by eapply IH.
Qed.

(** The end: nothing is written after a cancellation, and the field is written
    from the final arrays otherwise. *)
Lemma leader_end o mem v o' out (finish : res ValueIterator) r :
  leader_answered o (mem, (v, o'), out) →
  (so_stopped out = true → finish = written mem v) →
  (if so_cancelled out then Ok (v, o', out) else v ← finish; Ok (v, o', out)) = Ok r →
  answered obs o r.1.1 r.1.2 r.2.
Proof.
  intros [Hc Ha] Hfin H. destruct (so_cancelled out) eqn:Ec.
  - injection H as <-. apply Ha. intros Es. by destruct (Hc Es).
  - returned_step H. injection H as <-. apply Ha. intros Es. rewrite <- Hfin; done.
Qed.
End rounds.

Section parallel.
Context {S : Type} (obs : SolveObserver S) (max_iter nthreads : Z) (sched : Z → list Event).

Lemma par_loop_answers dx dy fuel m vi fr u iters p o :
  answers obs o (par_loop obs max_iter nthreads dx dy fuel m vi fr u iters p o).
Proof.
  revert m vi fr u iters p o. induction fuel as [|fuel IH]; intros m vi fr u iters p o v w out H; [done|].
  cbn [par_loop] in H. destruct (_ && _).
  2:{ unfold par_finish in H. returned_step H. injection H as <- <- <-. by apply answered_end. }
  do 4 returned_step H. destruct x2 as [[hot u1] f1]. destruct (0 <? _); [|by eapply IH].
  destruct (due p _) as [[] p']; [|by eapply IH]. returned_step H. destruct x2 as [[v1 o1] flow].
  apply materialize_answer in E3 as (pr & Eb & Hs); [|apply par_materialise_again]. destruct flow.
  - eapply answered_continue; [exact Eb|]. by eapply IH.
  - unfold par_finish in H. returned_step H. injection H as <- <- <-.
    apply (answered_stop obs o (with_policy pr x2)); [by apply Hs|done..].
  - injection H as <- <- <-. by apply (answered_cancel obs o pr).
Qed.

Lemma frontier2d_par_answers vi o : answers obs o (frontier2d_par_solve_observed obs max_iter nthreads vi o).
Proof.
  intros v w out H. unfold frontier2d_par_solve_observed in H. do 2 returned_step H. by eapply par_loop_answers.
Qed.

Lemma frontier2d_par_unsafe_answers vi o :
  answers obs o (frontier2d_par_unsafe_solve_observed obs max_iter nthreads sched vi o).
Proof.
  intros v w out H. unfold frontier2d_par_unsafe_solve_observed, async_gs_engine in H. do 5 returned_step H.
  destruct x3 as [[hot [v1 o1]] out1].
  eapply (engine_loop_answers obs _ (fun hot v => par_materialise (with_hot x hot) nthreads v)) in E3.
  - exact (leader_end obs _ o hot v1 o1 out1 _ (v, w, out) E3 (fun _ => eq_refl) H).
  - clear. intros hot it up v o seen o1 flow H. by apply materialize_answer in H; [|apply par_materialise_again].
Qed.

Lemma fused_materialise_again g pen eval_ok cp a b :
  fused_materialise nthreads g pen eval_ok cp a = Ok b → fused_materialise nthreads g pen eval_ok cp b = Ok b.
Proof.
  unfold fused_materialise. intros H. returned_step H. rewrite E, ok_bind. by eapply write_back_fused_again.
Qed.

Lemma fused_end g f cp o v o' out r :
  leader_answered obs (fun cp v => fused_materialise nthreads g (f_pen f) (f_eval_ok f) cp v) o (cp, (v, o'), out) →
  (if so_cancelled out then Ok (v, o', out) else
   opt ← final_policy_fused g (mkFused cp (f_pen f) (f_eval_ok f)) nthreads (so_converged out);
   v ← write_back_fused v g (mkFused cp (f_pen f) (f_eval_ok f)) opt nthreads;
   Ok (v, o', out)) = Ok r →
  answered obs o r.1.1 r.1.2 r.2.
Proof.
  intros Hl H.
  apply (leader_end obs _ o cp v o' out
    (opt ← final_policy_fused g (mkFused cp (f_pen f) (f_eval_ok f)) nthreads (so_converged out);
     write_back_fused v g (mkFused cp (f_pen f) (f_eval_ok f)) opt nthreads) r Hl).
  - intros Hs. destruct Hl as [Hc _]. destruct (Hc Hs) as [-> _]. reflexivity.
  - destruct (so_cancelled out); [exact H|]. do 2 returned_step H. rewrite E, ok_bind, E0. exact H.
Qed.

Lemma frontier2d_fused_answers vi o :
  answers obs o (frontier2d_fused_solve_observed obs max_iter nthreads sched vi o).
Proof.
  intros v w out H. unfold frontier2d_fused_solve_observed, async_gs_engine in H. do 6 returned_step H.
  destruct x4 as [[cp [v1 o1]] out1]. eapply engine_loop_answers in E4.
  - exact (fused_end x x0 cp o v1 o1 out1 (v, w, out) E4 H).
  - intros mem it up v0 o0 seen o2 flow Hb. by apply materialize_answer in Hb; [|apply fused_materialise_again].
Qed.

Lemma frontier2d_sparse_answers vi o :
  answers obs o (frontier2d_sparse_solve_observed obs max_iter nthreads sched false vi o).
Proof.
  intros v w out H. unfold frontier2d_sparse_solve_observed in H. do 3 returned_step H. destruct x1 as [[mx my] mt].
  do 5 returned_step H. destruct x5 as [[cp [v1 o1]] out1]. eapply sparse_loop_answers in E6.
  - exact (fused_end x x1 cp o v1 o1 out1 (v, w, out) E6 H).
  - intros mem it up v0 o0 seen o2 flow Hb. by apply materialize_answer in Hb; [|apply fused_materialise_again].
Qed.
End parallel.

(** ** The table *)

Lemma solve_observed_answered {S} nthreads sched (obs : SolveObserver S) compact schur solver max_iter vi o :
  modelled solver = true →
  answers obs o (solve_observed nthreads sched obs compact schur solver max_iter vi o).
Proof.
  intros Hm. destruct solver; try discriminate Hm; cbn [solve_observed].
  - apply original_answers.
  - apply frontier3d_answers.
  - apply frontier2d_answers.
  - apply frontier2d_par_answers.
  - apply frontier2d_par_unsafe_answers.
  - apply frontier2d_fused_answers.
  - apply frontier2d_sparse_answers.
  - apply frontier_stack_answers.
  - apply block_refine_answers.
  - apply pyramid_answers.
  - apply original_answers.
  - apply priority_answers.
  - apply priority_answers.
Qed.

(** ** Property *)


(** An observer that stops the solve at its [k]-th boundary. *)
Definition stop_at (k : Z) : SolveObserver Z :=
  {| ob_interval := fun _ => 1; ob_looks := fun _ _ _ => false;
     ob_boundary := fun n _ => (n + 1, if n + 1 >=? k then Stop else Continue); ob_blind := fun _ _ _ _ => eq_refl |}.

