(* ===== verification/Planner.v ===== *)
(** * Paths from a solved field (vi_lib/src/planner.rs, and the RAM sink of
    solvers/frontier2d_sparse_compact.rs)

    The greedy rollout against the [PolicyView] interface, its two
    implementations (the dense planner and the compact sink), path densification
    and the belief-weighted choice of an action. *)

From Stdlib Require Import ZArith Lia SpecFloat.
From stdpp Require Import base gmap strings list numbers.
From S2P Require Import Prelude Floats Model Bellman Active Bridge.

Inductive RolloutStatus : Type := ReachedGoal | NoAction | OutOfMap | LoopDetected | StepLimit.

#[global] Instance RolloutStatus_eq_dec : EqDecision RolloutStatus.
Proof. solve_decision. Defined.

Record PathPose : Type := { pp_x : f64; pp_y : f64; pp_yaw : f64 }.

Record Rollout : Type := { ro_poses : list PathPose; ro_status : RolloutStatus }.

Definition reached_goal (r : Rollout) : bool := bool_decide (ro_status r = ReachedGoal).

Definition REVISIT_LIMIT : Z := 8.

(** [f64::to_radians], [f64::sqrt], [powi(2)] *)
Definition to_radians (x : f64) : f64 := fmul x (fdiv PI f180).
Definition fsqrt (x : f64) : f64 := SFsqrt 53 1024 x.
Definition fsquare (x : f64) : f64 := fmul x x.

(** ** The view a rollout reads *)

(** [trait PolicyView]. *)
Class PolicyView (V : Type) : Type := {
  cell_num : V → Z * Z * Z;
  pv_xy_resolution : V → f64;
  map_origin : V → f64 * f64;
  map_origin_quat : V → Quaternion;
  pv_goal : V → f64 * f64 * Z;
  is_final : V → Z → Z → Z → res bool;
  action_index : V → Z → Z → Z → res (option Z);
  action_delta : V → Z → res (f64 * f64);
  value_at : V → Z → Z → Z → res Z;
  t_resolution : V → res f64
}.

(** The provided methods. *)
Definition default_t_resolution (nt : Z) : res f64 := q ← i32_div 360 nt; Ok (f64_of_Z q).

Definition pv_in_map_area {V} `{PolicyView V} (p : V) (ix iy : Z) : bool :=
  let '(nx, ny, _) := cell_num p in (ix >=? 0) && (ix <? nx) && (iy >=? 0) && (iy <? ny).

(** The dense planner. *)
Definition vi_state (vi : ValueIterator) (ix iy it : Z) : res State :=
  vget (vi_states vi) (as_u64 (to_index vi ix iy it)).

Definition vi_outside (vi : ValueIterator) (ix iy it : Z) : bool :=
  negb (in_map_area vi ix iy) || (it <? 0) || (it >=? vi_cell_num_t vi).

#[export] Instance vi_policy_view : PolicyView ValueIterator := {
  cell_num vi := (vi_cell_num_x vi, vi_cell_num_y vi, vi_cell_num_t vi);
  pv_xy_resolution := vi_xy_resolution;
  map_origin vi := (vi_map_origin_x vi, vi_map_origin_y vi);
  map_origin_quat := vi_map_origin_quat;
  pv_goal vi := (vi_goal_x vi, vi_goal_y vi, vi_goal_t vi);
  t_resolution vi := Ok (vi_t_resolution vi);
  is_final vi ix iy it :=
    if in_map_area vi ix iy && (it >=? 0) && (it <? vi_cell_num_t vi)
    then s ← vi_state vi ix iy it; Ok (s_final_state s) else Ok false;
  action_index vi ix iy it :=
    if vi_outside vi ix iy it then Ok None else
    s ← vi_state vi ix iy it;
    Ok (if negb (s_free s) || s_final_state s then None else s_optimal_action s);
  action_delta vi ai := a ← vget (vi_actions vi) ai; Ok (a_delta_fw a, a_delta_rot a);
  value_at vi ix iy it :=
    if vi_outside vi ix iy it then Ok MAX_COST else
    s ← vi_state vi ix iy it;
    Ok (if policy_invalidated s then MAX_COST else s_total_cost s)
}.

(** [RamSink] *)
Record RamSink : Type := { rs_total : list Z; rs_action : list Z }.

Definition ram_new (nstates : Z) : RamSink :=
  {| rs_total := vec_repeat MAX_COST nstates; rs_action := vec_repeat (-1) nstates |}.

(** [v[base..base + xs.len()].copy_from_slice(xs)] *)
Definition copy_from_slice (v : list Z) (base : Z) (xs : list Z) : res (list Z) :=
  if base + zlen xs <=? zlen v
  then Ok (take (Z.to_nat base) v ++ xs ++ drop (Z.to_nat (base + zlen xs)) v) else Panic.

Definition ram_write_column (s : RamSink) (base : Z) (values actions : list Z) : res RamSink :=
  t ← copy_from_slice (rs_total s) base values;
  a ← copy_from_slice (rs_action s) base actions;
  Ok {| rs_total := t; rs_action := a |}.

Definition ram_read (s : RamSink) (orig : Z) : res (Z * Z) :=
  v ← vget (rs_total s) orig; a ← vget (rs_action s) orig; Ok (v, a).

(** The compact view; [cp_sink] is the [read] of its [dyn CompactSink]. *)
Record CompactPolicy : Type := {
  cp_sink : Z → res (Z * Z);
  cp_actions : list Action;
  cp_cell_num_x : Z; cp_cell_num_y : Z; cp_cell_num_t : Z;
  cp_xy_resolution : f64; cp_map_origin_x : f64; cp_map_origin_y : f64;
  cp_goal_x : f64; cp_goal_y : f64; cp_goal_t : Z;
  cp_origin_quat : Quaternion
}.

(** [CompactPolicy::new] *)
Definition compact_new (sink : Z → res (Z * Z)) (actions : list Action) (cell_num : Z * Z * Z)
    (xy_resolution : f64) (map_origin : f64 * f64) (goal : f64 * f64 * Z) : CompactPolicy :=
  {| cp_sink := sink; cp_actions := actions;
     cp_cell_num_x := cell_num.1.1; cp_cell_num_y := cell_num.1.2; cp_cell_num_t := cell_num.2;
     cp_xy_resolution := xy_resolution; cp_map_origin_x := map_origin.1; cp_map_origin_y := map_origin.2;
     cp_goal_x := goal.1.1; cp_goal_y := goal.1.2; cp_goal_t := goal.2; cp_origin_quat := quat_default |}.

Definition with_origin_quat (p : CompactPolicy) (q : Quaternion) : CompactPolicy :=
  {| cp_sink := cp_sink p; cp_actions := cp_actions p;
     cp_cell_num_x := cp_cell_num_x p; cp_cell_num_y := cp_cell_num_y p; cp_cell_num_t := cp_cell_num_t p;
     cp_xy_resolution := cp_xy_resolution p; cp_map_origin_x := cp_map_origin_x p; cp_map_origin_y := cp_map_origin_y p;
     cp_goal_x := cp_goal_x p; cp_goal_y := cp_goal_y p; cp_goal_t := cp_goal_t p; cp_origin_quat := q |}.

Definition cp_orig (p : CompactPolicy) (ix iy it : Z) : Z :=
  u64_add (u64_add (as_u64 it) (u64_mul (as_u64 ix) (as_u64 (cp_cell_num_t p))))
    (u64_mul (u64_mul (as_u64 iy) (as_u64 (cp_cell_num_x p))) (as_u64 (cp_cell_num_t p))).

Definition cp_read (p : CompactPolicy) (ix iy it : Z) : res (Z * Z) :=
  if negb ((ix >=? 0) && (ix <? cp_cell_num_x p) && (iy >=? 0) && (iy <? cp_cell_num_y p))
     || (it <? 0) || (it >=? cp_cell_num_t p)
  then Ok (MAX_COST, -1) else cp_sink p (cp_orig p ix iy it).

#[export] Instance compact_policy_view : PolicyView CompactPolicy := {
  cell_num p := (cp_cell_num_x p, cp_cell_num_y p, cp_cell_num_t p);
  pv_xy_resolution := cp_xy_resolution;
  map_origin p := (cp_map_origin_x p, cp_map_origin_y p);
  map_origin_quat := cp_origin_quat;
  pv_goal p := (cp_goal_x p, cp_goal_y p, cp_goal_t p);
  t_resolution p := default_t_resolution (cp_cell_num_t p);
  is_final p ix iy it := r ← cp_read p ix iy it; Ok (r.1 =? 0);
  action_index p ix iy it :=
    r ← cp_read p ix iy it;
    let '(v, a) := r in
    Ok (if (v =? 0) || (v >=? MAX_COST) || (a <? 0) then None else Some (as_u64 a));
  action_delta p ai := a ← vget (cp_actions p) ai; Ok (a_delta_fw a, a_delta_rot a);
  value_at p ix iy it :=
    r ← cp_read p ix iy it;
    let '(value, action) := r in
    Ok (if (value >? 0) && (value <? MAX_COST) && (action <? 0) then MAX_COST else value)
}.

(** ** Cells of poses *)

Definition pose_to_cell_on {V} `{PolicyView V} (p : V) (x y yaw_rad : f64) : res (Z * Z * Z) :=
  let '(ox, oy) := map_origin p in
  let res := pv_xy_resolution p in
  let ix := f64_as_i32 (ffloor (fdiv (fsub x ox) res)) in
  let iy := f64_as_i32 (ffloor (fdiv (fsub y oy) res)) in
  let t := f64_as_i32 (fdiv (fmul f180 yaw_rad) PI) in
  r ← i32_rem (i32_add t (i32_mul 360 100)) 360;
  t_res ← t_resolution p;
  Ok (ix, iy, f64_as_i32 (ffloor (fdiv (f64_of_Z r) t_res))).

Definition pose_to_cell (vi : ValueIterator) (x y yaw_rad : f64) : res (Z * Z * Z) :=
  pose_to_cell_on vi x y yaw_rad.

Definition optimal_action_at (vi : ValueIterator) (ix iy it : Z) : res Z :=
  if (ix <? 0) || (iy <? 0) || (it <? 0) || (ix >=? vi_cell_num_x vi) || (iy >=? vi_cell_num_y vi)
     || (it >=? vi_cell_num_t vi) then Ok (-1) else
  s ← vi_state vi ix iy it;
  if negb (s_free s) || s_final_state s then Ok (-1) else
  match s_optimal_action s with
  | Some ai => a ← vget (vi_actions vi) ai; Ok (a_id a)
  | None => Ok (-1)
  end.

(** ** The rollout *)

Section rollout.
Context (cos sin : f64 → f64).
Context {V : Type} `{PolicyView V} (p : V).

(** One candidate of the search around the start. *)
Definition start_candidate (ix0 iy0 it dy dx : Z) (best : option (Z * Z * Z))
    : res (option (Z * Z * Z)) :=
  let ix := i32_add ix0 dx in
  let iy := i32_add iy0 dy in
  ai ← action_index p ix iy it;
  fin ← (match ai with None => is_final p ix iy it | Some _ => Ok true end);
  if negb fin then Ok best else
  let d2 := dx * dx + dy * dy in
  Ok (if match best with Some (bd, _, _) => d2 <? bd | None => true end
      then Some (d2, ix, iy) else best).

Definition find_plannable_start (x y yaw_rad : f64) (tolerance_cells : Z) : res (option (f64 * f64)) :=
  c ← pose_to_cell_on p x y yaw_rad;
  let '(ix0, iy0, it) := c in
  best ← for_incl (i32_sub 0 tolerance_cells) tolerance_cells (fun dy best =>
    for_incl (i32_sub 0 tolerance_cells) tolerance_cells (start_candidate ix0 iy0 it dy) best) None;
  let '(ox, oy) := map_origin p in
  let res := pv_xy_resolution p in
  Ok (match best with
      | Some (_, ix, iy) =>
          Some (fadd (fmul (fadd (f64_of_Z ix) f0_5) res) ox, fadd (fmul (fadd (f64_of_Z iy) f0_5) res) oy)
      | None => None
      end).

Definition normalize_deg (d : f64) : f64 := rem_euclid d f360.

(** The pose the loop holds: metres, and degrees. *)
Record Stance : Type := { sn_x : f64; sn_y : f64; sn_deg : f64 }.

Definition pose_of (s : Stance) : PathPose :=
  {| pp_x := sn_x s; pp_y := sn_y s; pp_yaw := to_radians (sn_deg s) |}.

Definition cell_of (s : Stance) : res (Z * Z * Z) :=
  pose_to_cell_on p (sn_x s) (sn_y s) (to_radians (sn_deg s)).

(** One application of an action: ahead, then the turn. *)
Definition advance (delta_fw delta_rot : f64) (s : Stance) : Stance :=
  let ang := to_radians (sn_deg s) in
  {| sn_x := fadd (sn_x s) (fmul delta_fw (cos ang));
     sn_y := fadd (sn_y s) (fmul delta_fw (sin ang));
     sn_deg := normalize_deg (fadd (sn_deg s) delta_rot) |}.

Definition goal_pose : PathPose :=
  let '(gx, gy, gt) := pv_goal p in {| pp_x := gx; pp_y := gy; pp_yaw := to_radians (f64_of_Z gt) |}.

Fixpoint rollout_loop (max_steps : nat) (s : Stance) (visits : gmap (Z * Z * Z) Z)
    (poses : list PathPose) : res Rollout :=
  match max_steps with
  | O => Ok {| ro_poses := poses; ro_status := StepLimit |}
  | S max_steps =>
      c ← cell_of s;
      let '(ix, iy, it) := c in
      let '(_, _, nt) := cell_num p in
      if negb (pv_in_map_area p ix iy) || (it <? 0) || (it >=? nt)
      then Ok {| ro_poses := poses; ro_status := OutOfMap |} else
      fin ← is_final p ix iy it;
      if (fin : bool) then Ok {| ro_poses := poses ++ [goal_pose]; ro_status := ReachedGoal |} else
      oa ← action_index p ix iy it;
      match oa with
      | None => Ok {| ro_poses := poses; ro_status := NoAction |}
      | Some ai =>
          let count := default 0 (visits !! c) + 1 in
          let visits := <[c := count]> visits in
          if count >? REVISIT_LIMIT then Ok {| ro_poses := poses; ro_status := LoopDetected |} else
          d ← action_delta p ai;
          let s := advance d.1 d.2 s in
          rollout_loop max_steps s visits (poses ++ [pose_of s])
      end
  end.

(** The start, moved to a plannable cell when its own has no action. *)
Definition rescue_start (start_x start_y start_yaw_rad : f64) (start_tolerance_cells : Z) : res (f64 * f64) :=
  c ← pose_to_cell_on p start_x start_y start_yaw_rad;
  let '(ix, iy, it) := c in
  on_final ← is_final p ix iy it;
  if (on_final : bool) then Ok (start_x, start_y) else
  ai ← action_index p ix iy it;
  if match ai with None => start_tolerance_cells >? 0 | Some _ => false end then
    r ← find_plannable_start start_x start_y start_yaw_rad start_tolerance_cells;
    Ok (default (start_x, start_y) r)
  else Ok (start_x, start_y).

Definition rollout_path_on (start_x start_y start_yaw_rad : f64) (max_steps : Z)
    (start_tolerance_cells : Z) : res Rollout :=
  xy ← rescue_start start_x start_y start_yaw_rad start_tolerance_cells;
  let s := {| sn_x := xy.1; sn_y := xy.2; sn_deg := normalize_deg (to_degrees start_yaw_rad) |} in
  rollout_loop (Z.to_nat max_steps) s ∅ [pose_of s].
End rollout.

(** ** Densification *)

Definition segment_len (p q : PathPose) : f64 :=
  fsqrt (fadd (fsquare (fsub (pp_x q) (pp_x p))) (fsquare (fsub (pp_y q) (pp_y p)))).

(** The [k]-th of the [n - 1] points put between [p] and [q]. *)
Definition between (p q : PathPose) (n k : Z) : PathPose :=
  let r := fdiv (f64_of_Z k) (f64_of_Z n) in
  {| pp_x := fadd (pp_x p) (fmul (fsub (pp_x q) (pp_x p)) r);
     pp_y := fadd (pp_y p) (fmul (fsub (pp_y q) (pp_y p)) r);
     pp_yaw := pp_yaw p |}.

Definition fill_segment (max_spacing : f64) (p q : PathPose) : list PathPose :=
  let dist := segment_len p q in
  if flt max_spacing dist
  then let n := f64_as_u64 (fceil (fdiv dist max_spacing)) in between p q n <$> seqZ 1 (n - 1)
  else [].

(** [poses.windows(2)] *)
Fixpoint windows2 {A} (l : list A) : list (A * A) :=
  match l with
  | x :: ((y :: _) as l') => (x, y) :: windows2 l'
  | _ => []
  end.

Definition densify (poses : list PathPose) (max_spacing : f64) : list PathPose :=
  if (zlen poses <? 2) || fle max_spacing f0 then poses else
  (w ← windows2 poses; w.1 :: fill_segment max_spacing w.1 w.2) ++ option_list (list.last poses).

(** ** QMDP *)

(** bridge.rs *)
Record PoseView : Type := { pv_x : f64; pv_y : f64; pv_yaw_rad : f64 }.

Definition QMDP_VETO_MASS : f64 := lit 7205759403792794 (-55).

Inductive QmdpDecision : Type := Goal | Act (ai : Z) | NoAct.

(** [a.total_cmp(&b) == Less].  The sign bit of a computed NaN depends on the
    machine: [nan_neg] says whether it is set. *)
Definition total_lt (nan_neg : bool) (a b : f64) : bool :=
  match a, b with
  | S754_nan, S754_nan => false
  | S754_nan, _ => nan_neg
  | _, S754_nan => negb nan_neg
  | S754_zero sa, S754_zero sb => sa && negb sb
  | _, _ => flt a b
  end.

(** [(0..n).min_by(total_cmp)]: the first least entry. *)
Fixpoint min_by_total (nan_neg : bool) (i : Z) (xs : list f64) (best : option (Z * f64)) : option Z :=
  match xs with
  | [] => fst <$> best
  | x :: xs =>
      min_by_total nan_neg (i + 1) xs
        (match best with
         | Some (j, b) => if total_lt nan_neg x b then Some (i, x) else Some (j, b)
         | None => Some (i, x)
         end)
  end.

(** Does a transition with mass land on a discarded policy? *)
Fixpoint lands_discarded (vi : ValueIterator) (s : State) (trans : list StateTransition) : res bool :=
  match trans with
  | [] => Ok false
  | t :: rest =>
      let x := i32_add (s_ix s) (dix t) in
      let y := i32_add (s_iy s) (diy t) in
      hit ← (if (prob t >? 0) && in_map_area vi x y then
        it ← i32_rem_euclid (dit t) (vi_cell_num_t vi);
        after ← vi_state vi x y it; Ok (policy_invalidated after)
      else Ok false);
      if (hit : bool) then Ok true else lands_discarded vi s rest
  end.

(** Q(s, a) *)
Definition qmdp_cost (vi : ValueIterator) (s : State) (a : Action) : res Z :=
  unavailable ← (if policy_invalidated s then Ok true
    else trans ← vget (a_state_transitions a) (s_it s); lands_discarded vi s trans);
  if (unavailable : bool) then Ok MAX_COST else action_cost vi s a.

Record Belief : Type := {
  qm_qb : list f64; qm_veto : list f64; qm_usable : f64; qm_final_mass : f64
}.

(** The inner loop over the actions, from index [ai]. *)
Definition qmdp_action (vi : ValueIterator) (s : State) (w : f64) (ai_a : Z * Action)
    (b : list f64 * list f64) : res (list f64 * list f64) :=
  let '(ai, a) := ai_a in
  q ← qmdp_cost vi s a;
  x ← vget b.1 ai;
  qb ← vset b.1 ai (fadd x (fmul w (f64_of_Z q)));
  if q =? MAX_COST
  then y ← vget b.2 ai; veto ← vset b.2 ai (fadd y w); Ok (qb, veto)
  else Ok (qb, b.2).

Definition qmdp_hypothesis (vi : ValueIterator) (h : PoseView * f64) (b : Belief) : res Belief :=
  let '(p, w) := h in
  if negb (flt f0 w) then Ok b else
  c ← pose_to_cell vi (pv_x p) (pv_y p) (pv_yaw_rad p);
  let '(ix, iy, it) := c in
  if negb (in_map_area vi ix iy) || (it <? 0) || (it >=? vi_cell_num_t vi) then Ok b else
  s ← vi_state vi ix iy it;
  if negb (s_free s) then Ok b else
  if s_final_state s then
    Ok {| qm_qb := qm_qb b; qm_veto := qm_veto b; qm_usable := qm_usable b;
          qm_final_mass := fadd (qm_final_mass b) w |}
  else
    r ← for_each (zip (seqZ 0 (zlen (vi_actions vi))) (vi_actions vi)) (qmdp_action vi s w)
          (qm_qb b, qm_veto b);
    Ok {| qm_qb := r.1; qm_veto := r.2; qm_usable := fadd (qm_usable b) w;
          qm_final_mass := qm_final_mass b |}.

Definition qmdp_decide (nan_neg : bool) (vi : ValueIterator) (hyps : list (PoseView * f64))
    : res QmdpDecision :=
  let n_act := zlen (vi_actions vi) in
  b ← for_each hyps (qmdp_hypothesis vi)
        {| qm_qb := vec_repeat f0 n_act; qm_veto := vec_repeat f0 n_act; qm_usable := f0; qm_final_mass := f0 |};
  let total := fadd (qm_usable b) (qm_final_mass b) in
  if fle total f0 then Ok NoAct else
  if fge (qm_final_mass b) (fmul f0_5 total) then Ok Goal else
  if fle (qm_usable b) f0 then Ok NoAct else
  best ← of_option (min_by_total nan_neg 0 (qm_qb b) None);
  v ← vget (qm_veto b) best;
  Ok (if flt (fmul QMDP_VETO_MASS (qm_usable b)) v then NoAct else Act best).
