(* ===== verification/PlannerSpec.v ===== *)
(** * What a rollout returns (vi_lib/src/planner.rs)

    Against the interface: a rollout returns, its poses are a walk of the policy,
    and its status says why it ended; when every step of the policy lowers the
    value, the walk ends on the goal.  For the two views: the compact sink of a
    solved field yields the rollouts of the field itself. *)

From Stdlib Require Import ZArith Lia SpecFloat.
From stdpp Require Import base gmap strings list numbers.
From S2P Require Import Prelude Floats Model Bellman Active Bridge Planner.

Definition is_Ok {A} (m : res A) : Prop := ∃ a, m = Ok a.

(** A view that answers every query. *)
Class PolicyLaws {V} `{PolicyView V} (p : V) : Prop := {
  pl_final ix iy it : is_Ok (is_final p ix iy it);
  pl_action ix iy it : is_Ok (action_index p ix iy it);
  pl_delta ix iy it ai : action_index p ix iy it = Ok (Some ai) → is_Ok (action_delta p ai);
  pl_t_resolution : is_Ok (t_resolution p)
}.

(** How often [c] occurs in [cs]. *)
Definition occurrences (c : Z * Z * Z) (cs : list (Z * Z * Z)) : Z := zlen (filter (.= c) cs).

Lemma occurrences_cons c c' cs :
  occurrences c (c' :: cs) = (if decide (c' = c) then 1 else 0) + occurrences c cs.
Proof.
  unfold occurrences, zlen. rewrite list.filter_cons. case_decide; cbn [length]; lia.
Qed.

Lemma occurrences_nonneg c cs : 0 ≤ occurrences c cs.
Proof. apply zlen_nonneg. Qed.

(** ** Walks of a policy *)

Section walk.
Context (cos sin : f64 → f64).
Context {V : Type} `{PolicyView V} (p : V).

Definition inside (c : Z * Z * Z) : bool :=
  let '(ix, iy, it) := c in
  pv_in_map_area p ix iy && negb (it <? 0) && negb (it >=? (cell_num p).2).

Definition final_at (c : Z * Z * Z) : res bool := let '(ix, iy, it) := c in is_final p ix iy it.
Definition action_at (c : Z * Z * Z) : res (option Z) :=
  let '(ix, iy, it) := c in action_index p ix iy it.
Definition cost_at (c : Z * Z * Z) : res Z := let '(ix, iy, it) := c in value_at p ix iy it.

(** In [s], on the unfinished cell [c], the policy's action leads to [s']. *)
Definition policy_step (s : Stance) (c : Z * Z * Z) (s' : Stance) : Prop :=
  ∃ ai d, cell_of p s = Ok c ∧ inside c = true ∧ final_at c = Ok false ∧
    action_at c = Ok (Some ai) ∧ action_delta p ai = Ok d ∧ s' = advance cos sin d.1 d.2 s.

(** [walk s cs tr l]: from [s] through the stances [tr], leaving the cells [cs], to [l]. *)
Inductive walk : Stance → list (Z * Z * Z) → list Stance → Stance → Prop :=
| walk_done s : walk s [] [] s
| walk_step s c s' cs tr l : policy_step s c s' → walk s' cs tr l → walk s (c :: cs) (s' :: tr) l.

(** What each status says of the walk that ends in [l]. *)
Definition ended (max_steps : nat) (st : RolloutStatus) (cs : list (Z * Z * Z)) (l : Stance) : Prop :=
  match st with
  | StepLimit => length cs = max_steps
  | OutOfMap => ∃ c, cell_of p l = Ok c ∧ inside c = false
  | ReachedGoal => ∃ c, cell_of p l = Ok c ∧ inside c = true ∧ final_at c = Ok true
  | NoAction => ∃ c, cell_of p l = Ok c ∧ inside c = true ∧ final_at c = Ok false ∧ action_at c = Ok None
  | LoopDetected => ∃ c, cell_of p l = Ok c ∧ inside c = true ∧ final_at c = Ok false ∧
      REVISIT_LIMIT ≤ occurrences c cs
  end.

Definition closing (st : RolloutStatus) : list PathPose :=
  match st with ReachedGoal => [goal_pose p] | _ => [] end.

Lemma walk_length s cs tr l : walk s cs tr l → length tr = length cs.
Proof. induction 1; cbn; congruence. Qed.

Context `{!PolicyLaws p}.

Lemma pose_to_cell_on_ok x y yaw : is_Ok (pose_to_cell_on p x y yaw).
Proof.
  unfold pose_to_cell_on. destruct (map_origin p) as [ox oy].
  unfold i32_rem. cbn [Z.eqb]. rewrite andb_false_r, ok_bind.
  destruct pl_t_resolution as [t ->]. rewrite ok_bind. by eexists.
Qed.

Lemma cell_of_ok s : is_Ok (cell_of p s).
Proof. apply pose_to_cell_on_ok. Qed.

Lemma final_at_ok c : is_Ok (final_at c).
Proof. destruct c as [[??]?]. apply pl_final. Qed.

Lemma action_at_ok c : is_Ok (action_at c).
Proof. destruct c as [[??]?]. apply pl_action. Qed.

(** One turn of the loop. *)
Lemma rollout_turn n s visits poses c :
  cell_of p s = Ok c →
  rollout_loop cos sin p (S n) s visits poses =
  if negb (inside c) then Ok {| ro_poses := poses; ro_status := OutOfMap |} else
  fin ← final_at c;
  if (fin : bool) then Ok {| ro_poses := poses ++ [goal_pose p]; ro_status := ReachedGoal |} else
  oa ← action_at c;
  match oa with
  | None => Ok {| ro_poses := poses; ro_status := NoAction |}
  | Some ai =>
      let count := default 0 (visits !! c) + 1 in
      if count >? REVISIT_LIMIT then Ok {| ro_poses := poses; ro_status := LoopDetected |} else
      d ← action_delta p ai;
      let s := advance cos sin d.1 d.2 s in
      rollout_loop cos sin p n s (<[c := count]> visits) (poses ++ [pose_of s])
  end.
Proof.
  intros E. cbn [rollout_loop]. rewrite E, ok_bind. destruct c as [[ix iy] it].
  unfold inside. destruct (cell_num p) as [[nx ny] nt] eqn:En. cbn.
  destruct (pv_in_map_area p ix iy), (it <? 0), (it >=? nt); reflexivity.
Qed.

Lemma rollout_loop_spec n s visits poses :
  (∀ c, default 0 (visits !! c) ≤ REVISIT_LIMIT) →
  ∃ st cs tr l,
    rollout_loop cos sin p n s visits poses =
      Ok {| ro_poses := poses ++ (pose_of <$> tr) ++ closing st; ro_status := st |} ∧
    walk s cs tr l ∧ (length cs ≤ n)%nat ∧
    (∀ c, default 0 (visits !! c) + occurrences c cs ≤ REVISIT_LIMIT) ∧
    match st with
    | LoopDetected => ∃ c, cell_of p l = Ok c ∧ inside c = true ∧ final_at c = Ok false ∧
        REVISIT_LIMIT ≤ default 0 (visits !! c) + occurrences c cs
    | _ => ended n st cs l
    end.
Proof.
  revert s visits poses. induction n as [|n IH]; intros s visits poses Hv.
  { exists StepLimit, [], [], s. cbn. rewrite app_nil_r. split; [done|]. split; [constructor|].
    split; [lia|]. split; [|done]. intros c. change (occurrences c []) with 0. specialize (Hv c). lia. }
  destruct (cell_of_ok s) as [c Hc]. rewrite (rollout_turn n s visits poses c Hc).
  assert (Hstop : ∀ c, default 0 (visits !! c) + occurrences c [] ≤ REVISIT_LIMIT).
  { intros c'. change (occurrences c' []) with 0. specialize (Hv c'). lia. }
  destruct (inside c) eqn:Hin; cbn [negb]; cycle 1.
  { exists OutOfMap, [], [], s. cbn [closing]. rewrite !app_nil_r.
    split_and!; [done|constructor|cbn; lia|done|cbn; eauto]. }
  destruct (final_at_ok c) as [[] Hfin]; rewrite Hfin, ok_bind.
  { exists ReachedGoal, [], [], s. split_and!; [done|constructor|cbn; lia|done|cbn; eauto]. }
  destruct (action_at_ok c) as [[ai|] Hact]; rewrite Hact, ok_bind; cycle 1.
  { exists NoAction, [], [], s. cbn [closing]. rewrite !app_nil_r.
    split_and!; [done|constructor|cbn; lia|done|cbn; eauto]. }
  cbn zeta. destruct (Z.gtb_spec (default 0 (visits !! c) + 1) REVISIT_LIMIT) as [Hr|Hr].
  { exists LoopDetected, [], [], s. cbn [closing]. rewrite !app_nil_r.
    split_and!; [done|constructor|cbn; lia|done|]. exists c. change (occurrences c []) with 0.
    split_and!; [done..|lia]. }
  assert (Hd : is_Ok (action_delta p ai)).
  { destruct c as [[ix iy] it]. by eapply (pl_delta ix iy it). }
  destruct Hd as [d Hd]. rewrite Hd, ok_bind.
  set (s' := advance cos sin d.1 d.2 s).
  assert (Hcnt : ∀ cs c', default 0 (<[c:=default 0 (visits !! c) + 1]> visits !! c') + occurrences c' cs
      = default 0 (visits !! c') + occurrences c' (c :: cs)).
  { intros cs c'. rewrite occurrences_cons. case_decide as E.
    - subst c'. rewrite lookup_insert_eq. cbn. lia.
    - rewrite lookup_insert_ne by done. lia. }
  destruct (IH s' (<[c := default 0 (visits !! c) + 1]> visits) (poses ++ [pose_of s']))
    as (st & cs & tr & l & E & Hw & Hl & Hocc & Hend).
  { intros c'. destruct (decide (c = c')) as [<-|]; [rewrite lookup_insert_eq; cbn; lia|].
    rewrite lookup_insert_ne by done. apply Hv. }
  exists st, (c :: cs), (s' :: tr), l. split_and!.
  - rewrite E. by rewrite <- app_assoc.
  - econstructor; [|exact Hw]. exists ai, d. done.
  - cbn. lia.
  - intros c'. rewrite <- Hcnt. apply Hocc.
  - destruct st; cbn in *; try done; [|lia].
    destruct Hend as (c' & ? & ? & ? & Ho). exists c'. rewrite <- Hcnt. done.
Qed.

(** ** The start *)

Definition plannable (c : Z * Z * Z) : Prop :=
  final_at c = Ok true ∨ ∃ ai, action_at c = Ok (Some ai).

Definition offset (c : Z * Z * Z) (d : Z * Z) : Z * Z * Z :=
  let '(ix, iy, it) := c in (i32_add ix d.2, i32_add iy d.1, it).

Definition sq (d : Z * Z) : Z := d.2 * d.2 + d.1 * d.1.

(** The offsets [(dy, dx)] of the square around a cell. *)
Definition square (tol : Z) : list (Z * Z) :=
  dy ← seqZ (- tol) (2 * tol + 1); pair dy <$> seqZ (- tol) (2 * tol + 1).

Definition cell_centre (c : Z * Z * Z) : f64 * f64 :=
  let '(ox, oy) := map_origin p in
  (fadd (fmul (fadd (f64_of_Z c.1.1) f0_5) (pv_xy_resolution p)) ox,
   fadd (fmul (fadd (f64_of_Z c.1.2) f0_5) (pv_xy_resolution p)) oy).

(** [d] is a nearest plannable offset of the square around [c]. *)
Definition nearest (c : Z * Z * Z) (tol : Z) (d : Z * Z) : Prop :=
  d ∈ square tol ∧ plannable (offset c d) ∧
  ∀ d', d' ∈ square tol → plannable (offset c d') → sq d ≤ sq d'.

Definition best_at (c : Z * Z * Z) (tol : Z) (best : option (Z * Z * Z)) : Prop :=
  match best with
  | None => True
  | Some (v, ix, iy) => ∃ d, d ∈ square tol ∧ v = sq d ∧ (ix, iy, c.2) = offset c d ∧ plannable (offset c d)
  end.

Definition at_most (v : Z) (best : option (Z * Z * Z)) : Prop :=
  match best with None => False | Some (v', _, _) => v' ≤ v end.

Lemma start_candidate_spec ix0 iy0 it dy dx best tol :
  (dy, dx) ∈ square tol → best_at (ix0, iy0, it) tol best →
  ∃ best', start_candidate p ix0 iy0 it dy dx best = Ok best' ∧ best_at (ix0, iy0, it) tol best' ∧
    (∀ v, at_most v best → at_most v best') ∧
    (plannable (offset (ix0, iy0, it) (dy, dx)) → at_most (sq (dy, dx)) best').
Proof.
  intros Hd Hb. unfold start_candidate. cbn zeta.
  set (c := offset (ix0, iy0, it) (dy, dx)).
  change (action_index p (i32_add ix0 dx) (i32_add iy0 dy) it) with (action_at c).
  change (is_final p (i32_add ix0 dx) (i32_add iy0 dy) it) with (final_at c).
  assert (Hpl : ∃ b : bool, (ai ← action_at c; fin ← match ai with None => final_at c | Some _ => Ok true end;
      if negb fin then Ok best else
      Ok (if match best with Some (bd, _, _) => sq (dy, dx) <? bd | None => true end
          then Some (sq (dy, dx), i32_add ix0 dx, i32_add iy0 dy) else best))
    = Ok (if b && match best with Some (bd, _, _) => sq (dy, dx) <? bd | None => true end
          then Some (sq (dy, dx), i32_add ix0 dx, i32_add iy0 dy) else best) ∧ (plannable c ↔ b = true)).
  { unfold plannable. destruct (action_at_ok c) as [[ai|] ->]; rewrite ok_bind.
    - exists true. rewrite ok_bind. split; [done|]. split; eauto.
    - destruct (final_at_ok c) as [b ->]. rewrite ok_bind. exists b. split; [by destruct b|].
      split; [|intros ->; auto]. intros [[= ->]|(? & [=])]. done. }
  destruct Hpl as (b & E & Hb'). unfold sq in E at 1 2. cbn [fst snd] in E. rewrite E. eexists. split; [done|].
  destruct b; cbn [andb]; cycle 1.
  { split; [done|]. split; [done|]. by intros ?%Hb'. }
  destruct best as [[[bd bx] by_]|]; [destruct (Z.ltb_spec (sq (dy, dx)) bd)|].
  all: split; [try done; exists (dy, dx); split_and!; try done; by apply Hb'|cbn; split; [|lia]].
  all: cbn; intros; lia || done.
Qed.
Lemma find_plannable_start_spec x y yaw tol c :
  0 ≤ tol < 2 ^ 31 → pose_to_cell_on p x y yaw = Ok c →
  ∃ r, find_plannable_start p x y yaw tol = Ok r ∧
    match r with
    | Some xy => ∃ d, nearest c tol d ∧ xy = cell_centre (offset c d)
    | None => ∀ d, d ∈ square tol → ¬ plannable (offset c d)
    end.
Proof.
  intros Htol Hc. unfold find_plannable_start. rewrite Hc, ok_bind. destruct c as [[ix0 iy0] it].
  rewrite i32_sub_small by (unfold in_i32; lia).
  set (F := fun (d : Z * Z) best => start_candidate p ix0 iy0 it d.1 d.2 best).
  replace (for_incl _ _ _ None) with (for_each (square tol) F None); cycle 1.
  { unfold for_incl, for_range, square. replace (tol + 1 - (0 - tol)) with (2 * tol + 1) by lia.
    rewrite <- for_each_bind. apply for_each_ext. intros dy a _. by rewrite for_each_fmap. }
  destruct (for_each_mono (best_at (ix0, iy0, it) tol)
      (fun a a' => ∀ v, at_most v a → at_most v a')
      (fun d a => plannable (offset (ix0, iy0, it) d) → at_most (sq d) a) (square tol) F None)
    as (best & E & Hb & _ & Hall).
  - split; [by intros ? ?|]. intros a b c H1 H2 v Hv. by apply H2, H1.
  - intros d a a' HP Hle Hd. by apply Hle, HP.
  - done.
  - intros [dy dx] a Hd Ha. unfold F. cbn [fst snd].
    destruct (start_candidate_spec ix0 iy0 it dy dx a tol Hd Ha) as (a' & ? & ? & ? & ?). eauto 6.
  - rewrite E, ok_bind. unfold cell_centre. destruct (map_origin p) as [ox oy].
    eexists. split; [done|]. destruct best as [[[v ix] iy]|]; cycle 1.
    { intros d Hd Hp. exact (Hall d Hd Hp). }
    destruct Hb as (d & Hd & -> & Eo & Hp). exists d. split; [|by rewrite <- Eo].
    split_and!; [done..|]. intros d' Hd' Hp'. exact (Hall d' Hd' Hp').
Qed.

(** Where a rollout from a pose starts: there, or, when its cell has no action
    and is not final, in the centre of a nearest plannable cell within the
    tolerance. *)
Definition start_rule (c : Z * Z * Z) (x y : f64) (tol : Z) (xy : f64 * f64) : Prop :=
  (xy = (x, y) ∧ (plannable c ∨ tol ≤ 0 ∨ ∀ d, d ∈ square tol → ¬ plannable (offset c d))) ∨
  (¬ plannable c ∧ 0 < tol ∧ ∃ d, nearest c tol d ∧ xy = cell_centre (offset c d)).

Lemma rescue_start_spec x y yaw tol :
  in_i32 tol →
  ∃ c xy, pose_to_cell_on p x y yaw = Ok c ∧ rescue_start p x y yaw tol = Ok xy ∧ start_rule c x y tol xy.
Proof.
  intros Htol. destruct (pose_to_cell_on_ok x y yaw) as [c Hc]. exists c.
  unfold rescue_start. rewrite Hc, ok_bind. destruct c as [[ix iy] it] eqn:Ec.
  destruct (final_at_ok c) as [b Hb]. destruct (action_at_ok c) as [o Ho]. subst c. cbn in Hb, Ho.
  rewrite Hb, ok_bind. unfold start_rule, plannable. cbn. rewrite Hb, Ho.
  destruct b; [exists (x, y); split_and!; [done..|left; eauto]|]. rewrite ok_bind.
  destruct o as [ai|]; [exists (x, y); split_and!; [done..|left; eauto 6]|].
  destruct (Z.gtb_spec tol 0) as [Hpos|]; [|exists (x, y); split_and!; [done..|left; auto]].
  destruct (find_plannable_start_spec x y yaw tol (ix, iy, it) ltac:(unfold in_i32 in Htol; lia) Hc)
    as (r & -> & Hr). rewrite ok_bind. exists (default (x, y) r). split; [done|]. split; [done|].
  destruct r as [xy|]; cbn; [|by left; auto].
  right. split; [|auto]. by intros [?|[? ?]].
Qed.

Definition start_stance (xy : f64 * f64) (yaw : f64) : Stance :=
  {| sn_x := xy.1; sn_y := xy.2; sn_deg := normalize_deg (to_degrees yaw) |}.

Lemma rollout_path_on_spec x y yaw max_steps tol xy :
  rescue_start p x y yaw tol = Ok xy →
  ∃ st cs tr l,
    rollout_path_on cos sin p x y yaw max_steps tol =
      Ok {| ro_poses := (pose_of <$> start_stance xy yaw :: tr) ++ closing st; ro_status := st |} ∧
    walk (start_stance xy yaw) cs tr l ∧ (length cs ≤ Z.to_nat max_steps)%nat ∧
    (∀ c, occurrences c cs ≤ REVISIT_LIMIT) ∧ ended (Z.to_nat max_steps) st cs l.
Proof.
  intros E. unfold rollout_path_on. rewrite E, ok_bind. cbn zeta.
  change {| sn_x := xy.1; sn_y := xy.2; sn_deg := normalize_deg (to_degrees yaw) |} with (start_stance xy yaw).
  destruct (rollout_loop_spec (Z.to_nat max_steps) (start_stance xy yaw) ∅ [pose_of (start_stance xy yaw)])
    as (st & cs & tr & l & Er & Hw & Hl & Hocc & Hend).
  { intros c. by rewrite lookup_empty. }
  exists st, cs, tr, l. split_and!; [exact Er|exact Hw|exact Hl| |].
  - exact Hocc.
  - by destruct st.
Qed.

(** ** Progress *)

Lemma walk_snoc s cs tr l c l' :
  walk s cs tr l → policy_step l c l' → walk s (cs ++ [c]) (tr ++ [l']) l'.
Proof. induction 1; intros Hs; cbn; econstructor; eauto. constructor. Qed.

(** [s] stands on a plannable cell of the map of value [v]. *)
Definition stands (s : Stance) (c : Z * Z * Z) (v : Z) : Prop :=
  cell_of p s = Ok c ∧ inside c = true ∧ plannable c ∧ cost_at c = Ok v ∧ 0 ≤ v.

(** Along the policy from [s0], every step lowers the value by [delta] at least. *)
Definition descending (delta : Z) (s0 : Stance) : Prop :=
  ∀ cs tr s c v s', walk s0 cs tr s → stands s c v → policy_step s c s' →
    ∃ c' v', stands s' c' v' ∧ v' + delta ≤ v.

Lemma descending_walk delta s0 cs0 tr0 s cs tr l c v :
  0 < delta → descending delta s0 → walk s0 cs0 tr0 s → stands s c v → walk s cs tr l →
  ∃ c' v', stands l c' v' ∧ v' + delta * zlen cs ≤ v ∧
    ∀ c'' , c'' ∈ cs → ∃ v'', cost_at c'' = Ok v'' ∧ v' < v''.
Proof.
  intros Hpos Hd H0 Hs Hw. revert cs0 tr0 c v H0 Hs.
  induction Hw as [s|s c1 s' cs tr l Hstep Hw IH]; intros cs0 tr0 c v H0 Hs.
  { exists c, v. split_and!; [done| |by intros ? ?%elem_of_nil]. unfold zlen. cbn. lia. }
  assert (c1 = c) as ->.
  { destruct Hstep as (? & ? & E & _). destruct Hs as (E' & _). congruence. }
  destruct (Hd cs0 tr0 s c v s' H0 Hs Hstep) as (c2 & v2 & Hs2 & Hle).
  destruct (IH (cs0 ++ [c]) (tr0 ++ [s']) c2 v2) as (c' & v' & Hl & Hle' & Hin); [|done|].
  { by eapply walk_snoc. }
  exists c', v'. split; [done|]. pose proof (zlen_nonneg cs).
  replace (zlen (c :: cs)) with (zlen cs + 1) by (unfold zlen; cbn; lia).
  split; [nia|]. intros c'' [->|?]%elem_of_cons; [|by apply Hin].
  destruct Hs as (_ & _ & _ & Ev & _). exists v. split; [done|nia].
Qed.

Lemma occurrences_absent c cs : c ∉ cs → occurrences c cs = 0.
Proof.
  induction cs as [|c' cs IH]; intros Hn; [done|]. rewrite occurrences_cons.
  apply not_elem_of_cons in Hn as [? ?]. rewrite decide_False by done. rewrite IH; done.
Qed.
End walk.

(** ** The dense view *)

(** Stored policies name actions. *)
Definition policies_named (vi : ValueIterator) : Prop :=
  ∀ i s a, zget (vi_states vi) i = Some s → s_optimal_action s = Some a → 0 ≤ a < zlen (vi_actions vi).

Lemma vi_outside_false vi ix iy it :
  vi_outside vi ix iy it = false ↔
  0 ≤ ix < vi_cell_num_x vi ∧ 0 ≤ iy < vi_cell_num_y vi ∧ 0 ≤ it < vi_cell_num_t vi.
Proof. unfold vi_outside, in_map_area. lia. Qed.

Lemma vi_state_get vi ix iy it :
  wf_vi vi → vi_outside vi ix iy it = false →
  ∃ s, vi_state vi ix iy it = Ok s ∧
    zget (vi_states vi) (index (vi_cell_num_x vi) (vi_cell_num_t vi) ix iy it) = Some s.
Proof.
  intros [Hd Hst _] (Hx & Hy & Ht)%vi_outside_false.
  destruct (ws_get _ _ _ _ ix iy it Hst (dims_x _ _ _ Hd) (dims_t _ _ _ Hd) Hx Hy Ht) as (s & Hs & _).
  exists s. split; [|done]. unfold vi_state, to_index.
  rewrite (to_index_raw_small _ (vi_cell_num_y vi)) by done.
  pose proof (index_bounds _ _ _ ix iy it Hx Hy Ht). pose proof (dims_total _ _ _ Hd).
  rewrite as_u64_small by (unfold in_u64; lia). by apply vget_ok.
Qed.

Lemma vi_is_final_eq vi ix iy it :
  is_final vi ix iy it =
  if vi_outside vi ix iy it then Ok false else s ← vi_state vi ix iy it; Ok (s_final_state s).
Proof.
  cbn. unfold vi_outside. rewrite Z.geb_leb, Z.ltb_antisym, (Z.geb_leb it (vi_cell_num_t vi)), Z.ltb_antisym.
  destruct (in_map_area vi ix iy), (0 <=? it), (vi_cell_num_t vi <=? it); reflexivity.
Qed.

#[export] Instance vi_policy_laws vi : wf_vi vi → policies_named vi → PolicyLaws vi.
Proof.
  intros Hwf Hn. split.
  - intros ix iy it. rewrite vi_is_final_eq. destruct (vi_outside vi ix iy it) eqn:E; [by eexists|].
    destruct (vi_state_get vi ix iy it Hwf E) as (s & -> & _). by eexists.
  - intros ix iy it. cbn. destruct (vi_outside vi ix iy it) eqn:E; [by eexists|].
    destruct (vi_state_get vi ix iy it Hwf E) as (s & -> & _). by eexists.
  - intros ix iy it ai. cbn. destruct (vi_outside vi ix iy it) eqn:E; [done|].
    destruct (vi_state_get vi ix iy it Hwf E) as (s & -> & Hs). cbn.
    destruct (negb (s_free s) || s_final_state s); [done|]. intros [= Ha].
    destruct (zget_lt (vi_actions vi) ai (Hn _ _ _ Hs Ha)) as [a Ea].
    apply vget_ok in Ea. rewrite Ea. by eexists.
  - by eexists.
Qed.

(** ** Views that agree *)

Record same_view {V W} `{PolicyView V, PolicyView W} (p : V) (q : W) : Prop := {
  sv_cell_num : cell_num p = cell_num q;
  sv_resolution : pv_xy_resolution p = pv_xy_resolution q;
  sv_origin : map_origin p = map_origin q;
  sv_quat : map_origin_quat p = map_origin_quat q;
  sv_goal : pv_goal p = pv_goal q;
  sv_t_resolution : t_resolution p = t_resolution q;
  sv_final ix iy it : is_final p ix iy it = is_final q ix iy it;
  sv_action ix iy it : action_index p ix iy it = action_index q ix iy it;
  sv_delta ai : action_delta p ai = action_delta q ai;
  sv_value ix iy it : value_at p ix iy it = value_at q ix iy it
}.

Section same_view.
Context (cos sin : f64 → f64).
Context {V W : Type} `{PolicyView V, PolicyView W} (p : V) (q : W) (Hpq : same_view p q).

Lemma same_pose_to_cell x y yaw : pose_to_cell_on p x y yaw = pose_to_cell_on q x y yaw.
Proof using Hpq.
  unfold pose_to_cell_on.
  by rewrite (sv_origin p q Hpq), (sv_resolution p q Hpq), (sv_t_resolution p q Hpq).
Qed.

Lemma same_start_candidate ix0 iy0 it dy dx best :
  start_candidate p ix0 iy0 it dy dx best = start_candidate q ix0 iy0 it dy dx best.
Proof using Hpq.
  unfold start_candidate. by rewrite (sv_action p q Hpq), (sv_final p q Hpq).
Qed.

Lemma same_rescue_start x y yaw tol : rescue_start p x y yaw tol = rescue_start q x y yaw tol.
Proof using Hpq.
  unfold rescue_start. rewrite same_pose_to_cell.
  destruct (pose_to_cell_on q x y yaw) as [[[ix iy] it]| |] eqn:Ec; [|done..]. rewrite !ok_bind.
  rewrite (sv_final p q Hpq), (sv_action p q Hpq).
  assert (find_plannable_start p x y yaw tol = find_plannable_start q x y yaw tol) as ->; [|done].
  unfold find_plannable_start. rewrite same_pose_to_cell, Ec, !ok_bind.
  rewrite (sv_origin p q Hpq), (sv_resolution p q Hpq).
  unfold for_incl, for_range. erewrite for_each_ext; [reflexivity|]. intros dy a _.
  apply for_each_ext. intros dx b _. apply same_start_candidate.
Qed.

Lemma same_rollout_loop n s visits poses :
  rollout_loop cos sin p n s visits poses = rollout_loop cos sin q n s visits poses.
Proof using Hpq.
  revert s visits poses. induction n as [|n IH]; intros s visits poses; [done|]. cbn [rollout_loop].
  unfold cell_of, goal_pose, pv_in_map_area.
  rewrite same_pose_to_cell, (sv_cell_num p q Hpq), (sv_goal p q Hpq).
  destruct (pose_to_cell_on q _ _ _) as [[[ix iy] it]| |]; [|done..]. rewrite !ok_bind.
  destruct (cell_num q) as [[nx ny] nt]. rewrite (sv_final p q Hpq), (sv_action p q Hpq).
  destruct (_ || _ || _); [done|].
  destruct (is_final q ix iy it) as [[]| |]; [done| |done..]. rewrite !ok_bind.
  destruct (action_index q ix iy it) as [[ai|]| |]; [|done..]. rewrite !ok_bind. cbn zeta.
  destruct (_ >? _); [done|]. rewrite (sv_delta p q Hpq).
  destruct (action_delta q ai) as [d| |]; [|done..]. rewrite !ok_bind. apply IH.
Qed.

Lemma same_rollout x y yaw max_steps tol :
  rollout_path_on cos sin p x y yaw max_steps tol = rollout_path_on cos sin q x y yaw max_steps tol.
Proof using Hpq.
  unfold rollout_path_on. rewrite same_rescue_start. destruct (rescue_start q x y yaw tol); [|done..].
  rewrite !ok_bind. apply same_rollout_loop.
Qed.
End same_view.

(** ** The compact view *)

Lemma copy_from_slice_spec v base xs :
  0 ≤ base → base + zlen xs ≤ zlen v →
  ∃ v', copy_from_slice v base xs = Ok v' ∧ zlen v' = zlen v ∧
    ∀ i, zget v' i = if decide (base ≤ i < base + zlen xs) then zget xs (i - base) else zget v i.
Proof.
  intros Hb Hl. unfold copy_from_slice. rewrite (proj2 (Z.leb_le _ _)) by done.
  eexists. split; [done|]. unfold zlen in *. rewrite !length_app, length_take, length_drop. split; [lia|].
  intros i. unfold zget. destruct (decide (0 ≤ i)) as [Hi|Hi].
  - destruct (decide (i < base)).
    + rewrite decide_False by lia.
      rewrite lookup_app_l by (rewrite length_take; lia). by rewrite lookup_take_lt by lia.
    + rewrite lookup_app_r by (rewrite length_take; lia). rewrite length_take.
      destruct (decide (i < base + Z.of_nat (length xs))).
      * rewrite decide_True, decide_True by lia. rewrite lookup_app_l by lia. f_equal. lia.
      * rewrite decide_False by lia. rewrite lookup_app_r by lia. rewrite lookup_drop. f_equal. lia.
  - repeat case_decide; try done; lia.
Qed.

(** Columns of a field, written one by one. *)
Definition action_code (s : State) : Z := default (-1) (s_optimal_action s).

Definition column {A} (f : State → A) (vi : ValueIterator) (c : Z) : list A :=
  f <$> take (Z.to_nat (vi_cell_num_t vi)) (drop (Z.to_nat (c * vi_cell_num_t vi)) (vi_states vi)).

Definition store_columns (vi : ValueIterator) : res RamSink :=
  for_range 0 (vi_cell_num_x vi * vi_cell_num_y vi) (fun c sink =>
      ram_write_column sink (c * vi_cell_num_t vi) (column s_total_cost vi c) (column action_code vi c))
    (ram_new (zlen (vi_states vi))).

(** The cells below [k] are written in [v]. *)
Definition written (f : State → Z) (st : list State) (k : Z) (v : list Z) : Prop :=
  zlen v = zlen st ∧ ∀ i, 0 ≤ i < k → zget v i = f <$> zget st i.

Lemma column_get {A} (f : State → A) vi c i :
  0 ≤ c → 0 < vi_cell_num_t vi → (c + 1) * vi_cell_num_t vi ≤ zlen (vi_states vi) →
  zlen (column f vi c) = vi_cell_num_t vi ∧
  (c * vi_cell_num_t vi ≤ i < (c + 1) * vi_cell_num_t vi →
   zget (column f vi c) (i - c * vi_cell_num_t vi) = f <$> zget (vi_states vi) i).
Proof.
  intros Hc Ht Hl. unfold column. rewrite zlen_fmap. unfold zlen in *. split.
  - rewrite length_take, length_drop. nia.
  - intros Hi. assert (0 ≤ c * vi_cell_num_t vi) by nia.
    rewrite zget_fmap. f_equal. unfold zget. rewrite !decide_True by lia.
    rewrite lookup_take_lt by lia. rewrite lookup_drop. f_equal. lia.
Qed.

Lemma written_step f vi c v :
  0 ≤ c → 0 < vi_cell_num_t vi → (c + 1) * vi_cell_num_t vi ≤ zlen (vi_states vi) →
  written f (vi_states vi) (c * vi_cell_num_t vi) v →
  ∃ v', copy_from_slice v (c * vi_cell_num_t vi) (column f vi c) = Ok v' ∧
    written f (vi_states vi) ((c + 1) * vi_cell_num_t vi) v'.
Proof.
  intros Hc Ht Hl [Hlen Hw]. destruct (column_get f vi c 0 Hc Ht Hl) as [Hcl _].
  destruct (copy_from_slice_spec v (c * vi_cell_num_t vi) (column f vi c)) as (v' & E & Hl' & Hg).
  { nia. } { rewrite Hcl, Hlen. lia. }
  exists v'. split; [done|]. split; [congruence|]. intros i Hi. rewrite Hg, Hcl. case_decide.
  - apply column_get; [done..|lia].
  - apply Hw. lia.
Qed.

Lemma store_columns_spec vi :
  wf_vi vi →
  ∃ sink, store_columns vi = Ok sink ∧
    ∀ i s, zget (vi_states vi) i = Some s → ram_read sink i = Ok (s_total_cost s, action_code s).
Proof.
  intros [[Hx Hy Ht _] [Hlen _] _]. unfold store_columns.
  set (nt := vi_cell_num_t vi) in *.
  destruct (for_range_inv (fun c sink => written s_total_cost (vi_states vi) (c * nt) (rs_total sink) ∧
      written action_code (vi_states vi) (c * nt) (rs_action sink)) 0 (vi_cell_num_x vi * vi_cell_num_y vi)
      (fun c sink => ram_write_column sink (c * nt) (column s_total_cost vi c) (column action_code vi c))
      (ram_new (zlen (vi_states vi)))) as (sink & E & [Hl1 H1] & [Hl2 H2]).
  - nia.
  - pose proof (zlen_nonneg (vi_states vi)).
    split; (split; [by apply zlen_repeat|intros; lia]).
  - intros c sink Hc [H1 H2]. assert ((c + 1) * nt ≤ zlen (vi_states vi)) by (rewrite Hlen; nia).
    destruct (written_step _ vi c _ ltac:(lia) Ht ltac:(done) H1) as (t & E1 & Ht').
    destruct (written_step _ vi c _ ltac:(lia) Ht ltac:(done) H2) as (a & E2 & Ha').
    fold nt in E1, E2. unfold ram_write_column. rewrite E1, ok_bind, E2, ok_bind. by eexists.
  - exists sink. split; [done|]. intros i s Hs. pose proof (zget_Some_lt _ _ _ Hs). unfold ram_read.
    assert (zget (rs_total sink) i = Some (s_total_cost s)) as ->%vget_ok by (rewrite H1, Hs by lia; done).
    assert (zget (rs_action sink) i = Some (action_code s)) as ->%vget_ok by (rewrite H2, Hs by lia; done).
    done.
Qed.

(** A solved field: zero marks the final cells, unreached is what is not free,
    and only reached, unfinished, free cells have a policy. *)
Record solved (s : State) : Prop := {
  sd_final : s_final_state s = true ↔ s_total_cost s = 0;
  sd_blocked : s_free s = false → s_total_cost s = MAX_COST;
  sd_policy a : s_optimal_action s = Some a →
    s_free s = true ∧ s_final_state s = false ∧ s_total_cost s < MAX_COST ∧ 0 ≤ a < 2 ^ 31
}.

(** The compact view of a field over a sink. *)
Definition compact_of (vi : ValueIterator) (sink : RamSink) : CompactPolicy :=
  with_origin_quat
    (compact_new (ram_read sink) (vi_actions vi) (cell_num vi) (vi_xy_resolution vi) (map_origin vi) (pv_goal vi))
    (map_origin_quat vi).

Lemma compact_outside vi sink ix iy it :
  cp_read (compact_of vi sink) ix iy it =
  if vi_outside vi ix iy it then Ok (MAX_COST, -1) else cp_sink (compact_of vi sink) (cp_orig (compact_of vi sink) ix iy it).
Proof.
  unfold cp_read, vi_outside, in_map_area. cbn. f_equal.
  rewrite !Z.geb_leb. destruct (0 <=? ix), (ix <? _), (0 <=? iy), (iy <? _); reflexivity.
Qed.

Lemma cp_orig_index vi sink ix iy it :
  wf_vi vi → vi_outside vi ix iy it = false →
  cp_orig (compact_of vi sink) ix iy it = index (vi_cell_num_x vi) (vi_cell_num_t vi) ix iy it.
Proof.
  intros [[Hx Hy Ht Htot] _ _] (Hix & Hiy & Hit)%vi_outside_false. unfold cp_orig, index. cbn.
  pose proof (index_bounds _ _ _ ix iy it Hix Hiy Hit) as Hb. unfold index in Hb.
  assert (0 ≤ ix * vi_cell_num_t vi) by nia. assert (0 < vi_cell_num_t vi * vi_cell_num_x vi) by nia.
  assert (0 ≤ iy * (vi_cell_num_t vi * vi_cell_num_x vi)) by nia. assert (0 ≤ iy * vi_cell_num_x vi) by nia.
  assert (vi_cell_num_t vi * vi_cell_num_x vi ≤ vi_cell_num_x vi * vi_cell_num_y vi * vi_cell_num_t vi) by nia.
  assert (iy * vi_cell_num_x vi ≤ iy * (vi_cell_num_t vi * vi_cell_num_x vi)) by nia.
  rewrite !as_u64_small by (unfold in_u64; nia).
  rewrite (u64_mul_small ix) by (unfold in_u64; lia).
  rewrite (u64_mul_small iy) by (unfold in_u64; lia).
  rewrite u64_mul_small by (unfold in_u64; lia).
  rewrite (u64_add_small it) by (unfold in_u64; lia).
  rewrite u64_add_small by (unfold in_u64; lia). lia.
Qed.

Lemma compact_read vi sink ix iy it :
  wf_vi vi → vi_outside vi ix iy it = false →
  (∀ i s, zget (vi_states vi) i = Some s → ram_read sink i = Ok (s_total_cost s, action_code s)) →
  ∃ s, s ∈ vi_states vi ∧ vi_state vi ix iy it = Ok s ∧ 0 ≤ s_total_cost s ≤ MAX_COST ∧
    cp_read (compact_of vi sink) ix iy it = Ok (s_total_cost s, action_code s).
Proof.
  intros Hwf Hout Hs. destruct (vi_state_get vi ix iy it Hwf Hout) as (s & E & Hg).
  exists s. split; [by eapply elem_of_zget_1|]. split; [done|].
  split; [apply (so_cost _ _ _ _ _ (ws_state _ _ _ _ (wv_states vi Hwf) _ _ Hg))|].
  rewrite compact_outside, Hout, cp_orig_index by done. cbn. by apply Hs.
Qed.

(** What the two views say of one solved state. *)
Lemma solved_views s :
  0 ≤ s_total_cost s ≤ MAX_COST → solved s →
  (s_total_cost s =? 0) = s_final_state s ∧
  (if (s_total_cost s =? 0) || (s_total_cost s >=? MAX_COST) || (action_code s <? 0)
   then None else Some (as_u64 (action_code s))) =
    (if negb (s_free s) || s_final_state s then None else s_optimal_action s) ∧
  (if (s_total_cost s >? 0) && (s_total_cost s <? MAX_COST) && (action_code s <? 0)
   then MAX_COST else s_total_cost s) = (if policy_invalidated s then MAX_COST else s_total_cost s).
Proof.
  intros Hc [Hf Hb Hp]. unfold policy_invalidated, action_code.
  assert ((s_total_cost s =? 0) = s_final_state s) as E.
  { destruct (s_final_state s); [apply Z.eqb_eq; by apply Hf|].
    apply Z.eqb_neq. intros ?%Hf. done. }
  rewrite E. split; [done|].
  destruct (s_optimal_action s) as [a|]; cbn [from_option]; unfold id.
  - destruct (Hp a eq_refl) as (-> & -> & Hlt & Ha). rewrite as_u64_small by (unfold in_u64; lia).
    cbn. rewrite andb_false_r. replace (a <? 0) with false by lia. rewrite andb_false_r, orb_false_r.
    replace (s_total_cost s >=? MAX_COST) with false by lia. done.
  - cbn. rewrite orb_true_r, !andb_true_r. split; [by destruct (_ || _)|].
    destruct (s_free s); [|rewrite Hb by done; by destruct (_ && _)]. cbn.
    destruct (s_final_state s); cbn.
    + rewrite (proj1 Hf) by done. done.
    + apply Z.eqb_neq in E. by replace (s_total_cost s >? 0) with true by lia.
Qed.

Lemma compact_same_view vi sink :
  wf_vi vi → Forall solved (vi_states vi) →
  t_resolution vi = default_t_resolution (vi_cell_num_t vi) →
  (∀ i s, zget (vi_states vi) i = Some s → ram_read sink i = Ok (s_total_cost s, action_code s)) →
  same_view (compact_of vi sink) vi.
Proof.
  intros Hwf Hsol Ht Hs. split; try done.
  - intros ix iy it. rewrite vi_is_final_eq. cbn [is_final compact_policy_view].
    destruct (vi_outside vi ix iy it) eqn:Ho; [by rewrite compact_outside, Ho|].
    destruct (compact_read vi sink ix iy it Hwf Ho Hs) as (s & Hin & -> & Hc & ->).
    rewrite !ok_bind. cbn. f_equal. apply solved_views; [done|]. by eapply Forall_forall, list_elem_of_In.
  - intros ix iy it. cbn [action_index compact_policy_view vi_policy_view].
    destruct (vi_outside vi ix iy it) eqn:Ho; [by rewrite compact_outside, Ho|].
    destruct (compact_read vi sink ix iy it Hwf Ho Hs) as (s & Hin & -> & Hc & ->).
    rewrite !ok_bind. f_equal. apply solved_views; [done|]. by eapply Forall_forall, list_elem_of_In.
  - intros ix iy it. cbn [value_at compact_policy_view vi_policy_view].
    destruct (vi_outside vi ix iy it) eqn:Ho; [by rewrite compact_outside, Ho|].
    destruct (compact_read vi sink ix iy it Hwf Ho Hs) as (s & Hin & -> & Hc & ->).
    rewrite !ok_bind. f_equal. apply solved_views; [done|]. by eapply Forall_forall, list_elem_of_In.
Qed.

Section properties.
Context (cos sin : f64 → f64).

(** C11: a rollout returns, whatever the view answers: its start follows the
    rescue rule (the start itself, or the centre of a nearest plannable cell at
    the same heading when the start has no action), its poses are those of a walk
    in which every cell's own action is applied once, no longer than the step
    limit and leaving no cell more than eight times, closed by the exact goal pose
    when it ends on the goal; the status is the reason it ended. *)
Theorem rollout_path_on_walk {V} `{PolicyView V} (p : V) x y yaw max_steps tol :
  PolicyLaws p → in_i32 tol →
  ∃ c xy st cs tr l,
    pose_to_cell_on p x y yaw = Ok c ∧ start_rule p c x y tol xy ∧
    rollout_path_on cos sin p x y yaw max_steps tol =
      Ok {| ro_poses := (pose_of <$> start_stance xy yaw :: tr) ++ closing p st; ro_status := st |} ∧
    walk cos sin p (start_stance xy yaw) cs tr l ∧ (length cs ≤ Z.to_nat max_steps)%nat ∧
    (∀ c, occurrences c cs ≤ REVISIT_LIMIT) ∧ ended p (Z.to_nat max_steps) st cs l.
Proof.
  intros Hp Htol. destruct (rescue_start_spec p x y yaw tol Htol) as (c & xy & Hc & Hr & Hs).
  destruct (rollout_path_on_spec cos sin p x y yaw max_steps tol xy Hr)
    as (st & cs & tr & l & E & Hw & Hl & Hocc & Hend).
  by exists c, xy, st, cs, tr, l.
Qed.

(** C12: when the start is on a plannable cell of value [v] and every step of the
    policy from there lowers the value by at least [delta], the rollout reaches the
    goal within [v / delta] steps and ends with the exact goal pose: neither the
    revisit limit nor a sufficient step limit cuts it short. *)
Theorem rollout_path_on_reaches_goal {V} `{PolicyView V} (p : V) x y yaw max_steps tol xy c v delta :
  PolicyLaws p → rescue_start p x y yaw tol = Ok xy →
  stands p (start_stance xy yaw) c v → 0 < delta →
  descending cos sin p delta (start_stance xy yaw) → v < delta * max_steps →
  ∃ cs tr l,
    rollout_path_on cos sin p x y yaw max_steps tol =
      Ok {| ro_poses := (pose_of <$> start_stance xy yaw :: tr) ++ [goal_pose p]; ro_status := ReachedGoal |} ∧
    walk cos sin p (start_stance xy yaw) cs tr l ∧ zlen tr ≤ v / delta.
Proof.
  intros Hp Hr Hs Hpos Hd Hmax.
  destruct (rollout_path_on_spec cos sin p x y yaw max_steps tol xy Hr)
    as (st & cs & tr & l & E & Hw & Hl & Hocc & Hend).
  destruct (descending_walk cos sin p delta _ [] [] _ cs tr l c v Hpos Hd ltac:(constructor) Hs Hw)
    as (c' & v' & (Ec & Hin & Hpl & Ev & Hv') & Hle & Habove).
  assert (st = ReachedGoal) as ->.
  { destruct st; cbn in Hend; [done|exfalso..].
    - destruct Hend as (c2 & Ec2 & _ & Hf & Ha). assert (c2 = c') as -> by congruence.
      destruct Hpl as [?|[? ?]]; congruence.
    - destruct Hend as (c2 & Ec2 & Ho). congruence.
    - destruct Hend as (c2 & Ec2 & _ & _ & Ho). assert (c2 = c') as -> by congruence.
      rewrite occurrences_absent in Ho; [by cbv in Ho|].
      intros (v2 & Ev2 & ?)%Habove. assert (v2 = v') by congruence. lia.
    - unfold zlen in Hle. nia. }
  exists cs, tr, l. split_and!; [done..|]. apply walk_length in Hw.
  apply Z.div_le_lower_bound; [done|]. unfold zlen in *. lia.
Qed.

(** C13: the columns of a solved field, written one by one into a fresh RAM sink,
    give a compact view that answers every query as the dense planner does: same
    final cells, actions and values, and the same rollout from every pose. *)
Theorem compact_rollout_agrees vi :
  wf_vi vi → Forall solved (vi_states vi) →
  t_resolution vi = default_t_resolution (vi_cell_num_t vi) →
  ∃ sink, store_columns vi = Ok sink ∧ same_view (compact_of vi sink) vi ∧
    ∀ x y yaw max_steps tol,
      rollout_path_on cos sin (compact_of vi sink) x y yaw max_steps tol =
      rollout_path_on cos sin vi x y yaw max_steps tol.
Proof.
  intros Hwf Hsol Ht. destruct (store_columns_spec vi Hwf) as (sink & E & Hs).
  pose proof (compact_same_view vi sink Hwf Hsol Ht Hs) as Hv.
  exists sink. split_and!; [done..|]. intros. by apply same_rollout.
Qed.
End properties.

(** ** A run

    Three cells in a row, the goal on the left and one action: a metre ahead,
    where ahead is to the left ([cos] is -1). *)
Definition sample_path : ValueIterator :=
  sample_vi 3 1 1 [{| a_name := "ahead"; a_delta_fw := f1; a_delta_rot := f0; a_id := 0;
                      a_state_transitions := [[{| dix := -1; diy := 0; dit := 0; prob := PROB_BASE |}]] |}]
    [with_value (sample_cell 0 0 true) 0 None;
     with_value (sample_cell 0 1 false) PROB_BASE (Some 0);
     with_value (sample_cell 0 2 false) (2 * PROB_BASE) (Some 0)].

Definition leftwards : f64 → f64 := fun _ => fneg f1.
Definition level : f64 → f64 := fun _ => f0.
Definition at_x (x : f64) : Stance := {| sn_x := x; sn_y := f0_5; sn_deg := f0 |}.
Definition f1_5 : f64 := fadd f1 f0_5.
Definition f2_5 : f64 := fadd f1 f1_5.

Lemma sample_path_wf : wf_vi sample_path.
Proof. apply check_vi_ok. vm_compute. reflexivity. Qed.

Lemma sample_path_named : policies_named sample_path.
Proof.
  intros i s a Hs Ha. apply elem_of_zget_1 in Hs. cbn in Hs.
  repeat (apply elem_of_cons in Hs as [->|Hs]; [cbn in Ha; simplify_eq; try done; vm_compute; done|]).
  by apply elem_of_nil in Hs.
Qed.

#[export] Instance sample_path_laws : PolicyLaws sample_path.
Proof. apply vi_policy_laws; [apply sample_path_wf|apply sample_path_named]. Qed.

Lemma sample_path_solved : Forall solved (vi_states sample_path).
Proof.
  apply Forall_forall. intros s Hs%list_elem_of_In. cbn in Hs.
  repeat (apply elem_of_cons in Hs as [->|Hs]; [constructor; cbn; intros; simplify_eq; try done; lia|]).
  by apply elem_of_nil in Hs.
Qed.

(** From half a metre, a metre and a half and two metres and a half, the walk goes left. *)
Lemma sample_step s c s' :
  policy_step leftwards level sample_path s c s' →
  (s = at_x f2_5 → s' = at_x f1_5) ∧ (s = at_x f1_5 → s' = at_x f0_5) ∧ s ≠ at_x f0_5.
Proof.
  intros (ai & d & Hc & Hin & Hf & Ha & Hd & ->). split_and!; intros ->; vm_compute in Hc; simplify_eq;
    vm_compute in Hf; vm_compute in Ha; simplify_eq; vm_compute in Hd; simplify_eq; reflexivity.
Qed.

Lemma sample_walk s cs tr l :
  walk leftwards level sample_path s cs tr l → s ∈ at_x <$> [f2_5; f1_5; f0_5] →
  l ∈ at_x <$> [f2_5; f1_5; f0_5].
Proof.
  induction 1 as [|s c s' cs tr l (H1 & H2 & H3)%sample_step _ IH]; [done|]. intros Hs. apply IH.
  cbn in *. set_solver.
Qed.

Lemma sample_stands : stands sample_path (at_x f2_5) (2, 0, 0) (2 * PROB_BASE) ∧
  stands sample_path (at_x f1_5) (1, 0, 0) PROB_BASE ∧ stands sample_path (at_x f0_5) (0, 0, 0) 0.
Proof.
  split_and!; (split_and!; [vm_compute; reflexivity..| |vm_compute; reflexivity|vm_compute; congruence]);
    [right; exists 0|right; exists 0|left]; vm_compute; reflexivity.
Qed.

Lemma stands_inj {V} `{PolicyView V} (p : V) s c v c' v' : stands p s c v → stands p s c' v' → v = v'.
Proof. intros (E & _ & _ & Ev & _) (E' & _ & _ & Ev' & _). assert (c = c') as -> by congruence. congruence. Qed.

Lemma sample_descending : descending leftwards level sample_path PROB_BASE (at_x f2_5).
Proof.
  intros cs tr s c v s' Hw Hs (H1 & H2 & H3)%sample_step.
  destruct sample_stands as (S2 & S1 & S0).
  apply sample_walk in Hw; [|cbn; set_solver]. cbn in Hw.
  apply elem_of_cons in Hw as [->|Hw]; [|apply elem_of_cons in Hw as [->|Hw%list_elem_of_singleton]; [|done]].
  - rewrite H1 by done. exists (1, 0, 0), PROB_BASE. split; [done|].
    rewrite (stands_inj _ _ _ _ _ _ Hs S2). lia.
  - rewrite H2 by done. exists (0, 0, 0), 0. split; [done|].
    rewrite (stands_inj _ _ _ _ _ _ Hs S1). lia.
Qed.

(** Two steps to the left, then the goal pose; one step is not enough. *)
Example sample_rollout :
  (fun r => (pp_x <$> ro_poses r, ro_status r)) <$>
    rollout_path_on leftwards level sample_path f2_5 f0_5 f0 10 0 =
  Ok ([f2_5; f1_5; f0_5; f0], ReachedGoal) ∧
  ro_status <$> rollout_path_on leftwards level sample_path f2_5 f0_5 f0 2 0 = Ok StepLimit.
Proof. split; vm_compute; reflexivity. Qed.

Lemma rollout_path_on_walk_witness :
  ∃ xy, start_rule sample_path (2, 0, 0) f2_5 f0_5 3 xy ∧
    is_Ok (rollout_path_on leftwards level sample_path f2_5 f0_5 f0 10 3).
Proof.
  destruct (rollout_path_on_walk leftwards level sample_path f2_5 f0_5 f0 10 3 sample_path_laws)
    as (c & xy & st & cs & tr & l & Hc & Hs & E & _); [unfold in_i32; lia|].
  exists xy. split; [|by eexists].
  assert (c = (2, 0, 0)) as <-; [|exact Hs]. vm_compute in Hc. congruence.
Defined.

Lemma rollout_path_on_reaches_goal_witness :
  ∃ poses, rollout_path_on leftwards level sample_path f2_5 f0_5 f0 10 0 =
    Ok {| ro_poses := poses; ro_status := ReachedGoal |}.
Proof.
  destruct (rollout_path_on_reaches_goal leftwards level sample_path f2_5 f0_5 f0 10 0 (f2_5, f0_5) (2, 0, 0)
    (2 * PROB_BASE) PROB_BASE sample_path_laws) as (cs & tr & l & E & _).
  - reflexivity.
  - exact (proj1 sample_stands).
  - reflexivity.
  - exact sample_descending.
  - reflexivity.
  - eexists. exact E.
Defined.

Lemma compact_rollout_agrees_witness :
  ∃ sink, store_columns sample_path = Ok sink ∧
    rollout_path_on leftwards level (compact_of sample_path sink) f2_5 f0_5 f0 10 0 =
    rollout_path_on leftwards level sample_path f2_5 f0_5 f0 10 0.
Proof.
  destruct (compact_rollout_agrees leftwards level sample_path sample_path_wf sample_path_solved)
    as (sink & E & _ & H); [reflexivity|].
  exists sink. split; [exact E|apply H].
Defined.

(** ** Densification *)

(** Every pose of the path is kept, in order. *)
Lemma densify_keeps poses max_spacing : poses `sublist_of` densify poses max_spacing.
Proof.
  unfold densify. destruct (_ || _); [done|].
  induction poses as [|q [|q' poses] IH]; [done|reflexivity|].
  change (windows2 (q :: q' :: poses)) with ((q, q') :: windows2 (q' :: poses)).
  rewrite bind_cons, <- app_assoc. cbn [fst snd app]. apply sublist_skip, sublist_inserts_l. exact IH.
Qed.
