(* ===== verification/Plan.v ===== *)
(** * From a solve to a path

    The composition of the parallel solvers with the rollout: what a converged
    solve stores is a field the rollout can follow.  The stored policy is proper:
    no transition of it leaves the map, meets an obstacle or reaches a cell without
    a value, and from every reached cell some chain of its transitions ends on the
    goal within the cell's value. *)

From Stdlib Require Import ZArith Lia.
From stdpp Require Import base gmap strings list numbers relations.
From S2P Require Import Prelude Floats Model Bellman Observe Consistency Chaotic Padded Clamped Par.
From S2P Require Import Async Schedule Engine FusedSolve SparseSolve Planner PlannerSpec.

Section proper.
Context (vi : ValueIterator).
Abbreviation nx := (vi_cell_num_x vi).
Abbreviation ny := (vi_cell_num_y vi).
Abbreviation nt := (vi_cell_num_t vi).
Abbreviation st := (vi_states vi).

(** The action [a] of [s] cannot fail: all its transitions land on free, reached cells. *)
Definition safe_action (s : State) (a : Action) : Prop :=
  ∀ tr, tr ∈ trans_of a s →
    blocked nx ny nt st s tr = false ∧ ∀ s', zget st (target nx nt s tr) = Some s' → s_total_cost s' < MAX_COST.

(** A transition of the stored policy, of positive probability, that lowers the value. *)
Definition leads (i j : Z) : Prop :=
  ∃ s k a tr s', zget st i = Some s ∧ s_optimal_action s = Some k ∧ zget (vi_actions vi) k = Some a ∧
    tr ∈ trans_of a s ∧ 0 < prob tr ∧ j = target nx nt s tr ∧ zget st j = Some s' ∧
    s_free s' = true ∧ s_total_cost s' + PROB_BASE ≤ s_total_cost s.

(** The policy of every reached, unfinished cell. *)
Definition proper_at (i : Z) (s : State) : Prop :=
  ∃ k a j, s_optimal_action s = Some k ∧ zget (vi_actions vi) k = Some a ∧ safe_action s a ∧ leads i j.

(** A chain of the policy from a reached cell to the goal. *)
Definition escapes (i : Z) (s : State) : Prop :=
  ∃ n j s', nsteps leads n i j ∧ zget st j = Some s' ∧ s_final_state s' = true ∧
    Z.of_nat n * PROB_BASE ≤ s_total_cost s.

Lemma proper_escapes :
  (∀ i s, zget st i = Some s → 0 ≤ s_total_cost s) →
  (∀ i s, zget st i = Some s → s_total_cost s < MAX_COST → s_final_state s = false → proper_at i s) →
  ∀ i s, zget st i = Some s → s_total_cost s < MAX_COST → escapes i s.
Proof.
  intros Hnn Hp i s Hs Hlt. pose proof (Hnn i s Hs) as H0.
  remember (s_total_cost s) as v eqn:Ev. revert i s Hs Ev Hlt.
  induction (Z.lt_wf 0 v) as [v _ IH]. intros i s Hs -> Hlt. unfold escapes.
  destruct (s_final_state s) eqn:Ef.
  { exists 0%nat, i, s. split_and!; [constructor|done..|lia]. }
  destruct (Hp i s Hs Hlt Ef) as (_ & _ & j & _ & _ & _ & Hij).
  pose proof Hij as (s1 & _ & _ & _ & s' & Hs1 & _ & _ & _ & _ & _ & Hs' & _ & Hle). simplify_eq.
  assert (0 < PROB_BASE) by done. pose proof (Hnn j s' Hs').
  destruct (IH (s_total_cost s') ltac:(lia) ltac:(lia) j s' Hs' eq_refl ltac:(lia))
    as (n & k & s2 & Hn & Hk & Hf & Hb).
  exists (S n), k, s2. split_and!; [by econstructor|done..|lia].
Qed.
End proper.

Section solution.
Context (vi : ValueIterator) (Hwf : wf_vi vi) (mx my mt P : Z) (Hfit : fused_fits vi mx my mt P).
Context (Hpen : ∀ i s, zget (vi_states vi) i = Some s → PROB_BASE ≤ cell_pen s).
Abbreviation nx := (vi_cell_num_x vi).
Abbreviation ny := (vi_cell_num_y vi).
Abbreviation nt := (vi_cell_num_t vi).
Abbreviation st := (vi_states vi).
Abbreviation acts := (vi_actions vi).
Context (V : valuation) (Hrounds : rtc (field_round vi) (field_value st) V) (Hfix : field_fixed vi V).

Lemma zget_clamped_costs s l ai k :
  zget (clamped_costs nx ny nt st (fun _ _ => V) s ai l) k =
  (fun a => clamped_cost nx ny nt st (fun _ => V) s (trans_of a s)) <$> zget l k.
Proof.
  revert ai k. induction l as [|a l IH]; intros ai k; [unfold zget; cbn; by case_decide|]. cbn.
  destruct (decide (0 < k)).
  - rewrite !zget_cons by done. apply IH.
  - unfold zget. case_decide; [|done]. by replace k with 0 by lia.
Qed.

Lemma cost_sum_least s k trs lo :
  (∀ tr, tr ∈ trs → 0 ≤ prob tr ∧ (0 < prob tr → lo ≤ target_cost nx nt st V s tr)) →
  lo * prob_total trs ≤ cost_sum nx nt st (fun _ => V) s k trs.
Proof.
  revert k. induction trs as [|tr trs IH]; intros k Htr; [cbn; lia|].
  unfold prob_total. cbn. fold (prob_total trs).
  specialize (IH (k + 1) ltac:(intros; apply Htr; by right)).
  destruct (Htr tr ltac:(left)) as [? Hlo]. destruct (decide (0 < prob tr)).
  - specialize (Hlo ltac:(done)). nia.
  - replace (prob tr) with 0 by lia. lia.
Qed.

Lemma not_stopped s k trs :
  some_stopped nx ny nt st (fun _ => V) s k trs = false →
  ∀ tr, tr ∈ trs → blocked nx ny nt st s tr = false ∧ V (target nx nt s tr) ≠ MAX_COST.
Proof.
  revert k. induction trs as [|tr trs IH]; intros k; cbn; [by intros _ ? ?%elem_of_nil|].
  intros [[Hb Hm%Z.eqb_neq]%orb_false_elim Hrest]%orb_false_elim tr' [->|Hin]%elem_of_cons; [done|].
  by apply (IH (k + 1)).
Qed.

Lemma solution_load : load_ok st (fun _ => V) (zlen st * P).
Proof.
  destruct Hfit as [_ [HP HPpen Hsmall Hprob] Hg _].
  destruct (goal_field_start nx ny nt acts st P HP Hg) as [Hb Hsup].
  destruct (clamped_rounds nx ny nt acts st P HP HPpen Hsmall Hprob (wv_states vi Hwf) _ V Hb Hsup Hrounds)
    as (Hb' & _ & _).
  apply dom_load. apply bounded_dom; [done|apply zlen_nonneg|done].
Qed.

Lemma solution_static i s : zget st i = Some s → updatable s = false → V i = s_total_cost s.
Proof.
  intros Hs Hu. rewrite (rounds_inactive _ _ (field_value st) V i Hrounds).
  - unfold field_value. by rewrite Hs.
  - intros (s' & Hs' & Hu'). simplify_eq. congruence.
Qed.

(** What the fixed point says of a reached cell. *)
Lemma solution_policy i s :
  zget st i = Some s → updatable s = true → V i < MAX_COST →
  ∃ k a tr, policy_at vi nx ny nt st (is_updatable vi) V i = Some k ∧ zget acts k = Some a ∧
    (∀ tr, tr ∈ trans_of a s → blocked nx ny nt st s tr = false ∧ V (target nx nt s tr) ≠ MAX_COST) ∧
    tr ∈ trans_of a s ∧ 0 < prob tr ∧ V (target nx nt s tr) + PROB_BASE ≤ V i.
Proof.
  intros Hs Hu Hlt. assert (EV : V i = (clamped_best nx ny nt acts st V s).1).
  { rewrite (Hfix i) by (by exists s). unfold field_backup, backup_at. by rewrite Hs. }
  unfold policy_at, is_updatable. rewrite Hs, Hu. unfold clamped_best, clamped_any in *.
  pose proof (argmin_from_spec MAX_COST (clamped_costs nx ny nt st (fun _ _ => V) s 0 acts)) as (_ & _ & Ho).
  set (r := argmin_from 0 _ _) in *. destruct r as [m [k|]]; cbn in EV, Ho |- *; [|lia].
  destruct Ho as (Hk & Hm & _). rewrite zget_clamped_costs in Hk.
  apply fmap_Some in Hk as (a & Ha & Ec). subst m.
  assert (Hns : some_stopped nx ny nt st (fun _ => V) s 0 (trans_of a s) = false).
  { destruct (some_stopped _ _ _ _ _ _ _ _) eqn:E; [|done]. unfold clamped_cost in Ec. rewrite E in Ec. lia. }
  pose proof (not_stopped s 0 _ Hns) as Hsafe.
  destruct Hfit as [_ [HP HPpen Hsmall Hprob] _ _]. pose proof (zlen_nonneg st).
  assert (Hin : a ∈ acts) by (by eapply elem_of_zget_1).
  assert (Hit : 0 ≤ s_it s < nt) by (by apply (state_heading nx ny nt st (wv_states vi Hwf) i)).
  destruct (clamped_cost_exact nx ny nt acts st P HPpen Hprob (fun _ => V) s a (zlen st * P) Hin Hit
    ltac:(nia) ltac:(nia) solution_load Hns) as [Ex _].
  destruct (Hprob s a Hin Hit) as [Htot Hp]. exists k, a.
  destruct (decide (Exists (fun tr => 0 < prob tr ∧ target_cost nx nt st V s tr ≤ V i) (trans_of a s)))
    as [(tr & Htr & Hpos & Hle)%list.Exists_exists|Hno].
  - exists tr. split_and!; try done. destruct (Hsafe tr Htr) as [Hb _].
    destruct (unblocked_target _ _ _ _ _ _ Hb) as (b & Hb' & _).
    unfold target_cost in Hle. rewrite Hb' in Hle. pose proof (Hpen _ _ Hb'). lia.
  - exfalso. assert ((V i + 1) * PROB_BASE ≤ cost_sum nx nt st (fun _ => V) s 0 (trans_of a s)) as Hle.
    { rewrite <- Htot. apply cost_sum_least. intros tr Htr. split; [by apply Hp|]. intros Hpos.
      destruct (decide (target_cost nx nt st V s tr ≤ V i)); [|lia].
      exfalso. apply Hno, list.Exists_exists. eauto. }
    apply (Z.div_le_mono _ _ PROB_BASE) in Hle; [|done]. rewrite Z.div_mul in Hle by done.
    rewrite <- Ex, <- Ec in Hle. lia.
Qed.
Abbreviation sol := (field_solution vi V).

Lemma sol_state i s' :
  zget (vi_states sol) i = Some s' →
  ∃ s, zget st i = Some s ∧ s' = with_value s (V i) (policy_at vi nx ny nt st (is_updatable vi) V i).
Proof. cbn. rewrite zget_revalue. intros (s & Hs & ->)%fmap_Some. by exists s. Qed.

Lemma sol_get i s :
  zget st i = Some s →
  zget (vi_states sol) i = Some (with_value s (V i) (policy_at vi nx ny nt st (is_updatable vi) V i)).
Proof. intros Hs. cbn. by rewrite zget_revalue, Hs. Qed.

(** A cell no solver updates keeps its value: 0 on the goal, unreached otherwise. *)
Lemma solution_inactive i s :
  zget st i = Some s → updatable s = false →
  V i = (if s_final_state s then 0 else MAX_COST) ∧ (s_final_state s = true → s_free s = true).
Proof.
  intros Hs Hu. destruct Hfit as [_ _ Hg Hocc].
  rewrite (solution_static i s Hs Hu), (Hg i s Hs). split; [done|]. intros Hf.
  destruct (s_free s) eqn:Efr; [done|]. pose proof (Hocc i s Hs Efr) as Hm.
  rewrite (Hg i s Hs), Hf in Hm. done.
Qed.

Lemma solution_value i s : zget st i = Some s → 0 ≤ V i ≤ MAX_COST.
Proof.
  intros Hs. destruct (solution_load 0 i) as [-> |Hv]; [by eapply zget_Some_lt|consts; lia|].
  destruct Hfit as [_ [HP _ Hsmall _] _ _]. pose proof (zlen_nonneg st). consts. nia.
Qed.

Lemma solution_proper i s' :
  zget (vi_states sol) i = Some s' → s_total_cost s' < MAX_COST → s_final_state s' = false → proper_at sol i s'.
Proof.
  intros Hs'. pose proof Hs' as (s & Hs & ->)%sol_state. cbn. intros Hlt Hf.
  destruct (updatable s) eqn:Eu; cycle 1.
  { destruct (solution_inactive i s Hs Eu) as [E _]. rewrite Hf in E. lia. }
  destruct (solution_policy i s Hs Eu Hlt) as (k & a & tr & Hk & Ha & Hsafe & Htr & Hpos & Hle).
  assert (Hss : same_static st (vi_states sol)) by (symmetry; apply revalue_static).
  exists k, a, (target nx nt s tr). split_and!; [exact Hk|exact Ha| |].
  - intros tr' Htr'. destruct (Hsafe tr' Htr') as [Hb Hm]. split.
    + rewrite <- Hb. symmetry. apply (blocked_static nx ny nt st (vi_states sol) s tr' Hss).
    + intros s2 (s0 & Hs0 & ->)%sol_state. cbn.
      pose proof (solution_value _ _ Hs0) as [_ Hmax]. clear -Hm Hmax.
      change (V (target nx nt s tr') < MAX_COST). change (V (target nx nt s tr') ≤ MAX_COST) in Hmax. lia.
  - destruct (Hsafe tr Htr) as [Hb _].
    destruct (unblocked_target _ _ _ _ _ _ Hb) as (b & Hb' & _).
    exists (with_value s (V i) (policy_at vi nx ny nt st (is_updatable vi) V i)), k, a, tr,
      (with_value b (V (target nx nt s tr)) (policy_at vi nx ny nt st (is_updatable vi) V (target nx nt s tr))).
    split_and!; [exact Hs'|exact Hk|exact Ha|exact Htr|exact Hpos|done|by apply sol_get| |exact Hle].
    cbn. unfold blocked in Hb. rewrite Hb' in Hb. apply orb_false_elim in Hb as [_ Hb]. by destruct (s_free b).
Qed.
Lemma solution_policy_inactive i s :
  zget st i = Some s → updatable s = false → policy_at vi nx ny nt st (is_updatable vi) V i = None.
Proof. intros Hs Hu. unfold policy_at, is_updatable. by rewrite Hs, Hu. Qed.

Lemma solution_solved : zlen acts < 2 ^ 31 → Forall solved (vi_states sol) ∧ policies_named sol.
Proof.
  intros Hacts.
  assert (Hpol : ∀ i s k, zget st i = Some s → policy_at vi nx ny nt st (is_updatable vi) V i = Some k →
      updatable s = true ∧ V i < MAX_COST ∧ 0 ≤ k < zlen acts).
  { intros i s k Hs Hk. destruct (updatable s) eqn:Eu; cycle 1.
    { by rewrite (solution_policy_inactive i s Hs Eu) in Hk. }
    assert (Hlt : V i < MAX_COST).
    { destruct (solution_value i s Hs). destruct (decide (V i = MAX_COST)) as [Em|]; [|lia].
      rewrite <- (unreached_policy vi V i Hfix) in Hk. unfold policy_at in Hk. rewrite Em in Hk.
      cbn in Hk. by rewrite andb_false_r in Hk. }
    destruct (solution_policy i s Hs Eu Hlt) as (k' & a & tr & Hk' & Ha & _).
    assert (k' = k) as -> by congruence. apply zget_Some_lt in Ha. done. }
  split; [|intros i s' k (s & Hs & ->)%sol_state Hk; by apply (Hpol i s k Hs)].
  apply Forall_forall. intros s' Hin.
  apply elem_of_zget in Hin as (i & (s & Hs & ->)%sol_state). split; cbn.
  - destruct (updatable s) eqn:Eu.
    + unfold updatable in Eu. apply andb_prop in Eu as [Efr Ef%negb_true_iff]. rewrite Ef. split; [done|].
      intros E0. assert (updatable s = true) by (unfold updatable; by rewrite Efr, Ef).
      destruct (solution_policy i s Hs) as (k & a & tr & _ & _ & Hsafe & Htr & _ & Hle); [done|by rewrite E0|].
      destruct (Hsafe tr Htr) as [Hb _]. destruct (unblocked_target _ _ _ _ _ _ Hb) as (b & Hb' & _).
      pose proof (solution_value _ _ Hb'). consts. lia.
    + destruct (solution_inactive i s Hs Eu) as [-> _]. by destruct (s_final_state s).
  - intros Efr. destruct (solution_inactive i s Hs) as [-> Hf]; [unfold updatable; by rewrite Efr|].
    destruct (s_final_state s); [|done]. by rewrite Hf in Efr.
  - intros k Hk. destruct (Hpol i s k Hs Hk) as (Hu & Hlt & ?).
    unfold updatable in Hu. apply andb_prop in Hu as [? ?%negb_true_iff]. split_and!; try done; lia.
Qed.
End solution.

Lemma parallel_solution {S} (obs : SolveObserver S) vi o mx my mt P r :
  wf_vi vi → fused_fits vi mx my mt P → parallel_solve obs vi o r →
  so_converged r.2 = true → so_cancelled r.2 = false →
  wf_vi r.1.1 ∧ ∃ V, r.1.1 = field_solution vi V ∧ rtc (field_round vi) (field_value (vi_states vi)) V ∧
    field_fixed vi V.
Proof.
  intros Hwf Hfit Hr Hc Hn.
  destruct (parallel_solve_ok obs vi o mx my mt P r Hwf Hfit Hr) as (b & m & _ & Hwf' & _ & Hs).
  destruct (Hs Hn) as (V & E & Hrounds & Hfix & _). split; [done|].
  exists V. split; [exact E|]. split; [exact Hrounds|]. by apply Hfix.
Qed.

Lemma parallel_plan_spec {S} (obs : SolveObserver S) vi o mx my mt P vi' o' out :
  wf_vi vi → fused_fits vi mx my mt P → zlen (vi_actions vi) < 2 ^ 31 →
  (∀ i s, zget (vi_states vi) i = Some s → PROB_BASE ≤ cell_pen s) →
  parallel_solve obs vi o (vi', o', out) → so_converged out = true → so_cancelled out = false →
  wf_vi vi' ∧ PolicyLaws vi' ∧ Forall solved (vi_states vi') ∧
  ∀ i s, zget (vi_states vi') i = Some s → s_total_cost s < MAX_COST →
    (s_final_state s = false → proper_at vi' i s) ∧ escapes vi' i s.
Proof.
  intros Hwf Hfit Hacts Hpen Hr Hc Hn.
  destruct (parallel_solution obs vi o mx my mt P _ Hwf Hfit Hr Hc Hn) as (Hwf' & V & E & Hrounds & Hfix).
  cbn in E, Hwf'. subst vi'.
  destruct (solution_solved vi Hwf mx my mt P Hfit Hpen V Hrounds Hfix Hacts) as [Hsol Hnamed].
  pose proof (solution_proper vi Hwf mx my mt P Hfit Hpen V Hrounds Hfix) as Hp.
  split; [done|]. split; [by apply vi_policy_laws|]. split; [done|]. intros i s Hs Hlt.
  split; [by apply Hp|]. apply proper_escapes; [|exact Hp|done..].
  intros j s' Hs'. apply (ws_state _ _ _ _ (wv_states _ Hwf') _ _ Hs').
Qed.

(** The plan of a converged solve, stored column by column, reads back unchanged. *)
Corollary parallel_plan_stored {S} (obs : SolveObserver S) vi o mx my mt P vi' o' out :
  wf_vi vi → fused_fits vi mx my mt P → zlen (vi_actions vi) < 2 ^ 31 →
  (∀ i s, zget (vi_states vi) i = Some s → PROB_BASE ≤ cell_pen s) →
  parallel_solve obs vi o (vi', o', out) → so_converged out = true → so_cancelled out = false →
  t_resolution vi' = default_t_resolution (vi_cell_num_t vi') →
  ∃ sink, store_columns vi' = Ok sink ∧ same_view (compact_of vi' sink) vi'.
Proof.
  intros Hwf Hfit Hacts Hpen Hr Hc Hn Ht.
  destruct (parallel_plan_spec obs vi o mx my mt P vi' o' out Hwf Hfit Hacts Hpen Hr Hc Hn)
    as (Hwf' & _ & Hsol & _).
  destruct (store_columns_spec vi' Hwf') as (sink & E & Hs). exists sink. split; [done|].
  by apply compact_same_view.
Qed.

(** C10: a converged solve of any of the four parallel solvers, under any schedule
    and number of threads, yields a plan that works: the field answers every query
    of a rollout; zero marks exactly the goal cells and unreached exactly the cells
    without a value; the policy of every reached cell has only transitions that
    stay in the map on free, reached cells; and from every reached cell the policy
    has a chain of transitions of positive probability to the goal, no longer than
    the value of the cell over [PROB_BASE], each lowering the value by at least the
    penalty of a step. *)
Theorem parallel_plan_proper {S} (obs : SolveObserver S) vi o mx my mt P vi' o' out :
  wf_vi vi → fused_fits vi mx my mt P → zlen (vi_actions vi) < 2 ^ 31 →
  (∀ i s, zget (vi_states vi) i = Some s → PROB_BASE ≤ cell_pen s) →
  parallel_solve obs vi o (vi', o', out) → so_converged out = true → so_cancelled out = false →
  wf_vi vi' ∧ PolicyLaws vi' ∧ Forall solved (vi_states vi') ∧
  ∀ i s, zget (vi_states vi') i = Some s → s_total_cost s < MAX_COST →
    (s_final_state s = false → proper_at vi' i s) ∧ escapes vi' i s.
Proof. apply parallel_plan_spec. Qed.

Lemma parallel_plan_proper_witness :
  ∃ vi' out, frontier2d_par_solve_observed NullObserver 10 4 (corridor 3) () = Ok (vi', (), out) ∧
    ∀ s, zget (vi_states vi') 2 = Some s → escapes vi' 2 s.
Proof.
  eexists _, _. split; [vm_compute; reflexivity|]. intros s Hs.
  edestruct (parallel_plan_proper NullObserver (corridor 3) () 1 1 0 PROB_BASE) as (_ & _ & _ & H);
    [| | | |apply (solve_par _ _ _ 10 4); [lia|vm_compute; reflexivity]| | |].
  - apply check_vi_ok. reflexivity.
  - exact corridor_fused_fits.
  - reflexivity.
  - intros i s' Hs'%elem_of_zget_1. cbn in Hs'.
    repeat (apply elem_of_cons in Hs' as [->|Hs']; [discriminate|]). by apply elem_of_nil in Hs'.
  - reflexivity.
  - reflexivity.
  - apply (H 2 s Hs). vm_compute in Hs. injection Hs as <-. reflexivity.
Defined.
