(* ===== verification/Core.v ===== *)
(** * The state of the planner core (vi_planner/src/core/mod.rs, global.rs)

    The record [PlannerCore] of a core whose solver keeps the field in memory
    (the dense path: the follow patch, the penalty table and the repair tiles
    of the compact path are absent), with the queue of cells to repair
    ([DenseSweep]) and the manager of the jobs ([Manager]).  The removal of
    policies that rest on a cost that rose is here too; the jobs are in
    GlobalJob.v and LocalJob.v. *)

From Stdlib Require Import ZArith Lia.
From stdpp Require Import base gmap strings list numbers.
From S2P Require Import Prelude Floats Model Bellman Bitboard Active LocalPlanner Solve.

(** ** Configuration *)

Record BuildParams : Type := {
  bp_grid : OccupancyGrid;
  bp_actions : list Action;
  bp_theta_cell_num : Z;
  bp_map_penalty_radius : f64;
  bp_map_penalty : f64;
  bp_goal_margin_radius : f64;
  bp_goal_margin_theta : Z;
  bp_local_xy_range : f64;
  bp_local_shape : LocalShapeConfig;
  bp_patch_slack_cells : Z;
  bp_repair_interior_cells : Z
}.

Inductive FollowKind : Type := FollowGreedy | FollowDwa | FollowMppi.

Definition follow_kind_from_name (s : string) : option FollowKind :=
  if bool_decide (s = "greedy"%string) then Some FollowGreedy
  else if bool_decide (s = "dwa"%string) then Some FollowDwa
  else if bool_decide (s = "mppi"%string) then Some FollowMppi
  else None.

(** The fields the dense path reads. *)
Record PlanConfig : Type := {
  pc_scan_penalty_radius : f64;
  pc_scan_penalty : Z;
  pc_solver : U64Solver;
  pc_max_solve_iter : Z;
  pc_solve_chunk : Z;
  pc_max_rollout_steps : Z;
  pc_start_tolerance_cells : Z;
  pc_path_spacing : f64;
  pc_action_tolerance_cells : Z;
  pc_follow_controller : FollowKind;
  pc_dwa_tick_s : f64;
  pc_dwa_horizon_s : f64;
  pc_dwa_n_v : Z;
  pc_dwa_n_w : Z;
  pc_dwa_lethal_penalty : f64;
  pc_mppi_samples : Z;
  pc_mppi_lambda : f64;
  pc_mppi_sigma_v : f64;
  pc_mppi_sigma_w_deg : f64;
  pc_sigma_margin_gain : f64;
  pc_map_clear_from_scan : bool;
  pc_global_sweep : bool;
  pc_early_start : bool
}.

Definition use_compact (cfg : PlanConfig) : bool := out_of_core (solver_caps (pc_solver cfg)).

(** ** The cached field *)

Record CachedGoal : Type := mkCached {
  cg_goal_x : f64; cg_goal_y : f64; cg_goal_t_deg : Z;
  cg_field : ValueIteratorLocal;
  cg_partial : bool
}.

Definition with_field (c : CachedGoal) (f : ValueIteratorLocal) : CachedGoal :=
  mkCached (cg_goal_x c) (cg_goal_y c) (cg_goal_t_deg c) f (cg_partial c).

Definition mark_complete (c : CachedGoal) : CachedGoal :=
  mkCached (cg_goal_x c) (cg_goal_y c) (cg_goal_t_deg c) (cg_field c) false.

(** [a == b] on [(f64, f64, i32)] *)
Definition goal_matches (a b : f64 * f64 * Z) : bool :=
  feq a.1.1 b.1.1 && feq a.1.2 b.1.2 && (a.2 =? b.2).

(** ** The queue of the dense repair *)

Record DenseSweep : Type := mkSweep {
  ds_pending : option Bitboard2D;
  ds_cands : list (Z * Z);
  ds_pos : Z;
  ds_visits : Z;
  ds_last_visits : Z;
  ds_reach : option Z
}.

Definition sweep_default : DenseSweep := mkSweep None [] 0 0 0 None.

(** A rectangle, clipped to the map, joins the seeds of the next round. *)
Definition seed_rect (nx ny : Z) (r : Z * Z * Z * Z) (sw : DenseSweep) : res DenseSweep :=
  let '(x0, x1, y0, y1) := r in
  let bb := match ds_pending sw with Some bb => bb | None => bb2_new (as_u32 nx) (as_u32 ny) end in
  bb ← for_incl (Z.max y0 0) (Z.min y1 (i32_sub ny 1)) (fun iy bb =>
         for_incl (Z.max x0 0) (Z.min x1 (i32_sub nx 1)) (fun ix bb =>
           bb2_set bb (as_u32 ix) (as_u32 iy)) bb) bb;
  Ok (mkSweep (Some bb) (ds_cands sw) (ds_pos sw) (ds_visits sw) (ds_last_visits sw) (ds_reach sw)).

Definition sweep_settle (sw : DenseSweep) : DenseSweep :=
  mkSweep (ds_pending sw) (ds_cands sw) (ds_pos sw) 0 (ds_visits sw) (ds_reach sw).

Definition sweep_clear (sw : DenseSweep) : DenseSweep :=
  sweep_settle (mkSweep None [] 0 (ds_visits sw) (ds_last_visits sw) (ds_reach sw)).

(** The largest move of a transition, in cells. *)
Definition transition_reach (vi : ValueIterator) : Z :=
  foldr (fun t m => Z.max m (Z.max (i32_abs (dix t)) (i32_abs (diy t)))) 0
    (vi_actions vi ≫= fun a => mjoin (a_state_transitions a)).

(** ** The manager *)

Record Predecessor : Type := mkPred { p_dx : Z; p_dy : Z; p_theta : Z; p_action : Z }.

Record Invalidation : Type := mkInv {
  inv_reverse : list (list Predecessor);
  inv_pending : list (Z * Z * Z)
}.

Record Manager : Type := mkManager {
  m_epoch : Z;
  m_serial : Z;
  m_owner : option Z;
  m_owned : gset (Z * Z);
  m_deferred : gset (Z * Z);
  m_certified : bool;
  m_in_flight : option Z;
  m_local_in_flight : option Z;
  m_local_revision : Z;
  m_boundary_revision : Z;
  m_invalidation : Invalidation
}.

Definition manager_default : Manager :=
  mkManager 0 0 None ∅ ∅ false None None 0 0 (mkInv [] []).

Definition invalidating (m : Manager) : bool :=
  match inv_pending (m_invalidation m) with [] => false | _ => true end.

Definition local_pending (m : Manager) : bool :=
  negb (bool_decide (m_owned m = ∅)) && negb (m_certified m).

(** [self.epoch += 1], and the like: [u64] counters. *)
Definition with_epoch (m : Manager) (e : Z) : Manager :=
  mkManager e (m_serial m) (m_owner m) (m_owned m) (m_deferred m) (m_certified m) (m_in_flight m)
    (m_local_in_flight m) (m_local_revision m) (m_boundary_revision m) (m_invalidation m).
Definition with_serial (m : Manager) (s : Z) : Manager :=
  mkManager (m_epoch m) s (m_owner m) (m_owned m) (m_deferred m) (m_certified m) (m_in_flight m)
    (m_local_in_flight m) (m_local_revision m) (m_boundary_revision m) (m_invalidation m).
Definition with_owner (m : Manager) (o : option Z) : Manager :=
  mkManager (m_epoch m) (m_serial m) o (m_owned m) (m_deferred m) (m_certified m) (m_in_flight m)
    (m_local_in_flight m) (m_local_revision m) (m_boundary_revision m) (m_invalidation m).
Definition with_owned (m : Manager) (o : gset (Z * Z)) : Manager :=
  mkManager (m_epoch m) (m_serial m) (m_owner m) o (m_deferred m) (m_certified m) (m_in_flight m)
    (m_local_in_flight m) (m_local_revision m) (m_boundary_revision m) (m_invalidation m).
Definition with_deferred (m : Manager) (d : gset (Z * Z)) : Manager :=
  mkManager (m_epoch m) (m_serial m) (m_owner m) (m_owned m) d (m_certified m) (m_in_flight m)
    (m_local_in_flight m) (m_local_revision m) (m_boundary_revision m) (m_invalidation m).
Definition with_certified (m : Manager) (c : bool) : Manager :=
  mkManager (m_epoch m) (m_serial m) (m_owner m) (m_owned m) (m_deferred m) c (m_in_flight m)
    (m_local_in_flight m) (m_local_revision m) (m_boundary_revision m) (m_invalidation m).
Definition with_in_flight (m : Manager) (i : option Z) : Manager :=
  mkManager (m_epoch m) (m_serial m) (m_owner m) (m_owned m) (m_deferred m) (m_certified m) i
    (m_local_in_flight m) (m_local_revision m) (m_boundary_revision m) (m_invalidation m).
Definition with_local_in_flight (m : Manager) (i : option Z) : Manager :=
  mkManager (m_epoch m) (m_serial m) (m_owner m) (m_owned m) (m_deferred m) (m_certified m)
    (m_in_flight m) i (m_local_revision m) (m_boundary_revision m) (m_invalidation m).
Definition with_local_revision (m : Manager) (r : Z) : Manager :=
  mkManager (m_epoch m) (m_serial m) (m_owner m) (m_owned m) (m_deferred m) (m_certified m)
    (m_in_flight m) (m_local_in_flight m) r (m_boundary_revision m) (m_invalidation m).
Definition with_boundary_revision (m : Manager) (r : Z) : Manager :=
  mkManager (m_epoch m) (m_serial m) (m_owner m) (m_owned m) (m_deferred m) (m_certified m)
    (m_in_flight m) (m_local_in_flight m) (m_local_revision m) r (m_invalidation m).
Definition with_invalidation (m : Manager) (i : Invalidation) : Manager :=
  mkManager (m_epoch m) (m_serial m) (m_owner m) (m_owned m) (m_deferred m) (m_certified m)
    (m_in_flight m) (m_local_in_flight m) (m_local_revision m) (m_boundary_revision m) i.

Definition next_epoch (m : Manager) : Manager := with_epoch m (u64_add (m_epoch m) 1).
Definition next_serial (m : Manager) : Manager := with_serial m (u64_add (m_serial m) 1).
Definition next_local_revision (m : Manager) : Manager :=
  with_local_revision m (u64_add (m_local_revision m) 1).
Definition next_boundary_revision (m : Manager) : Manager :=
  with_boundary_revision m (u64_add (m_boundary_revision m) 1).

(** ** The core *)

Record PlannerCore : Type := mkCore {
  co_build : BuildParams;
  co_cfg : PlanConfig;
  co_cached : option CachedGoal;
  co_sweep : DenseSweep;
  co_global : Manager;
  co_dirty : bool
}.

Definition core_new (build : BuildParams) (cfg : PlanConfig) : PlannerCore :=
  mkCore build cfg None sweep_default manager_default false.

Definition with_cached (c : PlannerCore) (g : option CachedGoal) : PlannerCore :=
  mkCore (co_build c) (co_cfg c) g (co_sweep c) (co_global c) (co_dirty c).
Definition with_sweep (c : PlannerCore) (s : DenseSweep) : PlannerCore :=
  mkCore (co_build c) (co_cfg c) (co_cached c) s (co_global c) (co_dirty c).
Definition with_global (c : PlannerCore) (m : Manager) : PlannerCore :=
  mkCore (co_build c) (co_cfg c) (co_cached c) (co_sweep c) m (co_dirty c).
Definition with_dirty (c : PlannerCore) (d : bool) : PlannerCore :=
  mkCore (co_build c) (co_cfg c) (co_cached c) (co_sweep c) (co_global c) d.

Definition on_manager (f : Manager → Manager) (c : PlannerCore) : PlannerCore :=
  with_global c (f (co_global c)).

(** [self.local()] of the dense path *)
Definition local (c : PlannerCore) : option ValueIteratorLocal := cg_field <$> co_cached c.

(** Writing through [self.local_mut()] *)
Definition with_local (c : PlannerCore) (f : ValueIteratorLocal) : PlannerCore :=
  with_cached c ((fun g => with_field g f) <$> co_cached c).

Definition is_partial (c : PlannerCore) : bool :=
  match co_cached c with Some g => cg_partial g | None => false end.

(** ** Queueing work *)

Definition enqueue_global (rect : Z * Z * Z * Z) (c : PlannerCore) : res PlannerCore :=
  let grid := bp_grid (co_build c) in
  sw ← seed_rect (og_width grid) (og_height grid) rect (co_sweep c);
  Ok (with_dirty (with_sweep c sw) true).

Definition seed_sweep_all (c : PlannerCore) : res PlannerCore :=
  match co_cached c with
  | None => Ok c
  | Some g =>
      let vi := lv_base (cg_field g) in
      let '(nx, ny) := (vi_cell_num_x vi, vi_cell_num_y vi) in
      sw ← seed_rect nx ny (0, i32_sub nx 1, 0, i32_sub ny 1) (co_sweep c);
      Ok (with_sweep c sw)
  end.

Definition global_queued (c : PlannerCore) : bool :=
  invalidating (co_global c)
  || (ds_pos (co_sweep c) <? zlen (ds_cands (co_sweep c)))
  || match ds_pending (co_sweep c) with Some p => bb2_popcount p >? 0 | None => false end.

Definition is_dirty (c : PlannerCore) : bool :=
  co_dirty c || bool_decide (is_Some (m_in_flight (co_global c)))
  || bool_decide (is_Some (m_local_in_flight (co_global c)))
  || local_pending (co_global c) || negb (bool_decide (m_deferred (co_global c) = ∅)).

Definition settle_global (c : PlannerCore) : PlannerCore * bool :=
  let m := co_global c in
  let done_ := negb (global_queued c) && bool_decide (m_in_flight m = None)
    && bool_decide (m_local_in_flight m = None)
    && (bool_decide (m_owned m = ∅) || m_certified m)
    && bool_decide (m_deferred m = ∅) in
  let c := with_dirty c (negb done_) in
  if done_ then
    let c := if ds_visits (co_sweep c) >? 0 then with_sweep c (sweep_settle (co_sweep c)) else c in
    (with_cached c (mark_complete <$> co_cached c), true)
  else (c, false).

Definition restart_global_check (c : PlannerCore) : res (PlannerCore * bool) :=
  if bool_decide (co_cached c = None) || bool_decide (is_Some (m_in_flight (co_global c)))
     || global_queued c then Ok (c, false) else
  c ← seed_sweep_all c;
  Ok (with_dirty c true, true).

(** Everything in flight is forgotten: the goal is about to change. *)
Definition invalidate_global_jobs (c : PlannerCore) : PlannerCore :=
  let m := co_global c in
  let m := with_in_flight (next_epoch m) None in
  let m := with_owned (with_local_in_flight m None) ∅ in
  let m := with_certified (with_deferred m ∅) false in
  let m := with_invalidation m (mkInv (inv_reverse (m_invalidation m)) []) in
  with_sweep (with_dirty (with_global c m) false) (sweep_clear (co_sweep c)).

(** What [sweep_work] and [sweep_progress] report. *)
Definition sweep_work (c : PlannerCore) : Z := ds_last_visits (co_sweep c).

Definition sweep_progress (c : PlannerCore) : option (Z * Z) :=
  let m := co_global c in
  let outstanding :=
    (if bool_decide (is_Some (m_in_flight m)) then 1 else 0)
    + (if bool_decide (is_Some (m_local_in_flight m)) then 1 else 0)
    + Z.of_nat (size (m_deferred m)) in
  let sw := co_sweep c in
  let queued := zlen (ds_cands sw) - ds_pos sw
    + match ds_pending sw with Some b => bb2_popcount b | None => 0 end + outstanding in
  if queued >? 0 then Some (ds_visits sw, queued) else None.

(** ** Removing policies that rest on a cost that rose (global/invalidate.rs) *)

(** Costs whose policy was removed do not take part in a calculation. *)
Definition repair_state (s : State) : State :=
  if policy_invalidated s then with_total_cost s MAX_COST else s.

Definition repair_values (vi : ValueIterator) : ValueIterator :=
  with_states vi (repair_state <$> vi_states vi).

(** The predecessors every transition of positive probability gives. *)
Definition reverse_table (nt : Z) (acts : list Action) : res (list (list Predecessor)) :=
  for_each (enumerated acts) (fun a rev =>
    for_each (enumerated (a_state_transitions a.2)) (fun th rev =>
      for_each th.2 (fun t rev =>
        if prob t >? 0 then
          k ← i32_rem_euclid (dit t) nt;
          l ← vget rev k;
          vset rev k (l ++ [mkPred (dix t) (diy t) (as_i32 th.1) a.1])
        else Ok rev) rev) rev)
    (vec_repeat [] nt).

Definition all_headings (nt : Z) (cells : list (Z * Z)) : list (Z * Z * Z) :=
  cells ≫= fun xy => (fun th => (xy.1, xy.2, th)) <$> seqZ 0 nt.

Definition queue_cost_increases (cells : list (Z * Z)) (c : PlannerCore) : res PlannerCore :=
  if bool_decide (cells = []) || negb (pc_global_sweep (co_cfg c)) then Ok c else
  let inv := m_invalidation (co_global c) in
  rev ← match inv_reverse inv with
        | _ :: _ => Ok (Some (inv_reverse inv))
        | [] =>
            match local c with
            | None => Ok None
            | Some l =>
                rev ← reverse_table (vi_cell_num_t (lv_base l)) (vi_actions (lv_base l));
                Ok (Some rev)
            end
        end;
  match rev with
  | None => Ok c
  | Some rev =>
      let m := with_invalidation (co_global c)
                 (mkInv rev (inv_pending inv ++ all_headings (as_i32 (zlen rev)) cells)) in
      let m := with_certified (next_boundary_revision (next_epoch m)) false in
      Ok (with_global c m)
  end.

(** Tests the stored action, then clears it. *)
Definition invalidate_policy_state (x y theta action : Z) (c : PlannerCore)
    : res (PlannerCore * bool) :=
  match co_cached c with
  | None => Ok (c, false)
  | Some g =>
      let l := cg_field g in
      let vi := lv_base l in
      let idx := as_u64 (to_index vi x y theta) in
      s ← vget (vi_states vi) idx;
      if negb (s_free s) || s_final_state s
         || negb (bool_decide (s_optimal_action s = Some action)) then Ok (c, false) else
      st ← vset (vi_states vi) idx (with_value s (s_total_cost s) None);
      Ok (with_cached c (Some (with_field g (with_base l (with_states vi st)))), true)
  end.

Definition push_pending (s : Z * Z * Z) (m : Manager) : Manager :=
  let inv := m_invalidation m in
  with_invalidation m (mkInv (inv_reverse inv) (inv_pending inv ++ [s])).

(** One predecessor of the state taken from the queue. *)
Definition invalidate_predecessor (x y : Z) (p : Predecessor) (c : PlannerCore) : res PlannerCore :=
  let grid := bp_grid (co_build c) in
  let '(px, py) := (i32_sub x (p_dx p), i32_sub y (p_dy p)) in
  if (px <? 0) || (py <? 0) || (px >=? og_width grid) || (py >=? og_height grid) then Ok c else
  r ← invalidate_policy_state px py (p_theta p) (p_action p) c;
  let '(c, removed) := r in
  if (removed : bool) then
    enqueue_global (px, px, py, py) (on_manager (push_pending (px, py, p_theta p)) c)
  else Ok c.

(** At most [budget] states are taken from the queue; [true] when it is empty. *)
Fixpoint advance_invalidations (budget : nat) (c : PlannerCore) : res (PlannerCore * bool) :=
  let inv := m_invalidation (co_global c) in
  match budget with
  | O => Ok (c, negb (invalidating (co_global c)))
  | S budget =>
      match inv_pending inv with
      | [] => Ok (c, true)
      | (x, y, theta) :: rest =>
          let c := on_manager (fun m => with_invalidation m (mkInv (inv_reverse inv) rest)) c in
          preds ← vget (inv_reverse inv) (as_u64 theta);
          c ← for_each preds (invalidate_predecessor x y) c;
          advance_invalidations budget c
      end
  end.
