(* ===== verification/Ctrl.v ===== *)
(** * Continuous control (vi_lib/src/ctrl.rs)

    A solved field read continuously: the interpolated value [v_hat], the dynamic
    window [dwa_decide] over constant commands, the sampling controller
    [mppi_decide] over sequences of commands, and the reflex [lost_creep] of a lost
    robot, which reads the scan only.  [cos], [sin], [ln] and [exp] are arguments. *)

From Stdlib Require Import ZArith Lia SpecFloat.
From stdpp Require Import base gmap strings list numbers.
From S2P Require Import Prelude Floats Model Bellman Active Bridge Planner.

Definition f2 : f64 := f64_of_Z 2.
(** The literals [1e-9], [1e-6], [0.999], [0.25]. *)
Definition nano : f64 := fdiv f1 (f64_of_Z (10 ^ 9)).
Definition micro : f64 := fdiv f1 (f64_of_Z (10 ^ 6)).
Definition f0_999 : f64 := fdiv (f64_of_Z 999) (f64_of_Z 1000).
Definition f0_25 : f64 := fdiv f1 (f64_of_Z 4).

(** [f64::clamp]: panics on bounds that are not in order. *)
Definition fclamp (x lo hi : f64) : res f64 :=
  if negb (fle lo hi) then Panic else Ok (if flt x lo then lo else if flt hi x then hi else x).

(** [f64::round]: half away from zero. *)
Definition fround (x : f64) : f64 :=
  match x with
  | S754_finite s m e =>
      if 0 <=? e then x else
      let r := (Zpos m + 2 ^ (- e - 1)) / 2 ^ (- e) in
      binary_normalize 53 1024 (if s then - r else r) 0 s
  | _ => x
  end.

Definition fsignum (x : f64) : f64 :=
  match x with
  | S754_nan => x
  | S754_zero s | S754_infinity s | S754_finite s _ _ => if s then fneg f1 else f1
  end.

Definition is_finite (x : f64) : bool :=
  match x with S754_zero _ | S754_finite _ _ _ => true | _ => false end.

Definition f64_as_isize (x : f64) : Z := f64_as_int (- 2 ^ 63) (2 ^ 63 - 1) x.

(** ** The reflex of a lost robot *)

Definition wrap_rad (a : f64) : f64 := fsub (rem_euclid (fadd a PI) (fmul f2 PI)) PI.

Definition CONE_RAD : f64 := fdiv (f64_of_Z 44) (f64_of_Z 100).
Definition GO_CLEAR_M : f64 := fdiv (f64_of_Z 12) (f64_of_Z 10).
Definition CREEP_CLEAR_M : f64 := fdiv (f64_of_Z 6) (f64_of_Z 10).
Definition ALIGN_RAD : f64 := fdiv (f64_of_Z 35) (f64_of_Z 100).
Definition CREEP_FW : f64 := fdiv (f64_of_Z 15) (f64_of_Z 100).
Definition ROT_DEG : f64 := f64_of_Z 20.

Section creep.
Context (scan : LaserScan) (max_range : f64).

Definition beam_inc : f64 := fmax (fabs (ls_angle_increment scan)) nano.

(** The range of beam [i]; a beam that sees nothing is open. *)
Definition beam (i : Z) : res f64 :=
  v ← vget (ls_ranges scan) (i mod zlen (ls_ranges scan));
  Ok (if is_finite v && flt f0 v then fmin v max_range else max_range).

Definition cone : Z := f64_as_isize (fceil (fdiv CONE_RAD beam_inc)).

Definition beam_of (b : f64) : Z :=
  f64_as_isize (fround (fdiv (rem_euclid (fsub b (ls_angle_min scan)) (fmul f2 PI)) beam_inc)).

(** The least range of the cone around [b]. *)
Definition open_at (b : f64) : res f64 :=
  for_incl (- cone) cone (fun d acc => r ← beam (as_i64 (beam_of b + d)); Ok (fmin acc r)) INFINITY.

(** The loop over the headings: the nearest one that is clear, and the most open
    one.  The increment is at least [1e-9], so [i + step] does not wrap. *)
Fixpoint creep_headings (fuel : nat) (step i : Z) (clear : option f64) (any : f64 * f64) : res (option f64 * (f64 * f64)) :=
  if i <? zlen (ls_ranges scan) then
    match fuel with
    | O => OutOfFuel
    | S fuel =>
        let b := wrap_rad (fadd (ls_angle_min scan) (fmul (f64_of_Z i) beam_inc)) in
        o ← open_at b;
        let clear :=
          if flt GO_CLEAR_M o && match clear with Some bb => flt (fabs b) (fabs bb) | None => true end
          then Some b else clear in
        let any :=
          if flt (fadd any.2 nano) o || (fle (fabs (fsub o any.2)) nano && flt (fabs b) (fabs any.1))
          then (b, o) else any in
        creep_headings fuel step (i + step) clear any
    end
  else Ok (clear, any).

(** The heading to make for. *)
Definition creep_target (preferred_rad : option f64) : res f64 :=
  go ← (match preferred_rad with
        | Some b => o ← open_at b; Ok (if flt GO_CLEAR_M o then Some (wrap_rad b) else None)
        | None => Ok None
        end);
  match go with
  | Some t => Ok t
  | None =>
      r ← creep_headings (Z.to_nat (zlen (ls_ranges scan))) (Z.max cone 1) 0 None (f0, fneg INFINITY);
      Ok (default r.2.1 r.1)
  end.

(** A turn keeps its direction until the robot moves again. *)
Definition commit_turn (last_rot_deg natural : f64) : f64 :=
  if negb (feq last_rot_deg f0) then fsignum last_rot_deg else natural.

Definition lost_creep (preferred_rad : option f64) (last_rot_deg : f64) : res (f64 * f64) :=
  if zlen (ls_ranges scan) =? 0 then Ok (f0, f0) else
  target ← creep_target preferred_rad;
  if flt ALIGN_RAD (fabs target) then
    let dir := if flt f2 (fabs target) then f1 else fsignum target in
    Ok (f0, fmul ROT_DEG (commit_turn last_rot_deg dir))
  else
  front ← open_at f0;
  Ok (if flt GO_CLEAR_M front then (f0_3, f0)
      else if flt CREEP_CLEAR_M front then (CREEP_FW, f0)
      else (f0, fmul ROT_DEG (commit_turn last_rot_deg f1))).
End creep.

(** ** The field, read continuously *)

(** [trait CostView] *)
Class CostView (K : Type) : Type := {
  free_at : K → Z → Z → res bool;
  penalty_at : K → Z → Z → res Z
}.

#[export] Instance vi_cost_view : CostView ValueIterator := {
  free_at vi ix iy := if in_map_area vi ix iy then s ← vi_state vi ix iy 0; Ok (s_free s) else Ok false;
  penalty_at vi ix iy :=
    if negb (in_map_area vi ix iy) then Ok 0 else
    s ← vi_state vi ix iy 0; Ok (u64_add (s_penalty s) (s_local_penalty s))
}.

Definition ctrl_normalize_deg (d : f64) : f64 := let d := frem d f360 in if flt d f0 then fadd d f360 else d.

Section view.
Context (cos sin : f64 → f64).
Context {V K : Type} `{PolicyView V} `{CostView K} (p : V) (cost : K).

(** The corners of the cell around a point and their weights. *)
Definition corners (ix0 iy0 it0 it1 : Z) (fx fy ft : f64) : list (Z * Z * Z * (f64 * f64 * f64)) :=
  flat_map (fun '(dix, wx) => flat_map (fun '(diy, wy) =>
    map (fun '(it, wt) => (i32_add ix0 dix, i32_add iy0 diy, it, (wx, wy, wt))) [(it0, fsub f1 ft); (it1, ft)])
    [(0, fsub f1 fy); (1, fy)]) [(0, fsub f1 fx); (1, fx)].

Fixpoint interpolate (cs : list (Z * Z * Z * (f64 * f64 * f64))) (acc : f64) : res (option f64) :=
  match cs with
  | [] => Ok (Some acc)
  | (ix, iy, it, (wx, wy, wt)) :: cs =>
      v ← value_at p ix iy it;
      if v >=? MAX_COST then Ok None
      else interpolate cs (fadd acc (fmul (fmul (fmul (f64_of_Z v) wx) wy) wt))
  end.

Definition v_hat (x y yaw_rad : f64) : res (option f64) :=
  let '(ox, oy) := map_origin p in
  let res := pv_xy_resolution p in
  let nt := (cell_num p).2 in
  t_res ← t_resolution p;
  let ux := fsub (fdiv (fsub x ox) res) f0_5 in
  let uy := fsub (fdiv (fsub y oy) res) f0_5 in
  let fxf := ffloor ux in
  let fyf := ffloor uy in
  let ut := fsub (fdiv (ctrl_normalize_deg (to_degrees yaw_rad)) t_res) f0_5 in
  let ftf := ffloor ut in
  r ← i32_rem (f64_as_i32 ftf) nt;
  it0 ← i32_rem (i32_add r nt) nt;
  it1 ← i32_rem (i32_add it0 1) nt;
  interpolate (corners (f64_as_i32 fxf) (f64_as_i32 fyf) it0 it1 (fsub ux fxf) (fsub uy fyf) (fsub ut ftf)) f0.

Definition theta_cell (yaw_rad : f64) : res Z :=
  let t := f64_as_i32 (fdiv (fmul f180 yaw_rad) PI) in
  r ← i32_rem (i32_add t (i32_mul 360 100)) 360;
  t_res ← t_resolution p;
  Ok (f64_as_i32 (ffloor (fdiv (f64_of_Z r) t_res))).

(** ** The motion of a command *)

Definition unicycle_step (s : f64 * f64 * f64) (v w_rad_s dt : f64) : f64 * f64 * f64 :=
  let '(x, y, yaw_rad) := s in
  if flt (fabs w_rad_s) nano
  then (fadd x (fmul (fmul v dt) (cos yaw_rad)), fadd y (fmul (fmul v dt) (sin yaw_rad)), yaw_rad)
  else
    let r := fdiv v w_rad_s in
    let yaw2 := fadd yaw_rad (fmul w_rad_s dt) in
    (fadd x (fmul r (fsub (sin yaw2) (sin yaw_rad))), fsub y (fmul r (fsub (cos yaw2) (cos yaw_rad))), yaw2).

(** The cell of a point. *)
Definition xy_cell (x y : f64) : Z * Z :=
  let '(ox, oy) := map_origin p in
  let res := pv_xy_resolution p in
  (f64_as_i32 (ffloor (fdiv (fsub x ox) res)), f64_as_i32 (ffloor (fdiv (fsub y oy) res))).

(** Where a step lands: the goal, or on free ground, or the command is rejected.
    A threshold of 0 is no threshold. *)
Inductive Landing : Type := LandGoal | LandFree | LandRejected.

Definition step_landing (lethal : Z) (s : f64 * f64 * f64) : res Landing :=
  let '(x, y, yaw) := s in
  let '(ix, iy) := xy_cell x y in
  free ← free_at cost ix iy;
  if negb free then Ok LandRejected else
  t ← theta_cell yaw;
  fin ← is_final p ix iy t;
  if (fin : bool) then Ok LandGoal else
  if lethal >? 0 then pen ← penalty_at cost ix iy; Ok (if pen >=? lethal then LandRejected else LandFree)
  else Ok LandFree.

(** The end of a simulated motion: rejected, at the goal after a number of steps
    or a time, or driven to its end. *)
Inductive Drive (T : Type) : Type :=
  | DriveRejected
  | DriveGoal (t : T)
  | Driven (s : f64 * f64 * f64) (t : T).
Arguments DriveRejected {T}.
Arguments DriveGoal {T} _.
Arguments Driven {T} _ _.

(** [n] steps of a constant command, from step [t] on; [tick] advances the time. *)
Fixpoint drive {T} (tick : T → T) (lethal : Z) (n : nat) (v w_rad dt : f64) (s : f64 * f64 * f64) (t : T)
    : res (Drive T) :=
  match n with
  | O => Ok (Driven s t)
  | S n =>
      let s := unicycle_step s v w_rad dt in
      let t := tick t in
      l ← step_landing lethal s;
      match l with
      | LandRejected => Ok DriveRejected
      | LandGoal => Ok (DriveGoal t)
      | LandFree => drive tick lethal n v w_rad dt s t
      end
  end.
End view.
Arguments DriveRejected {T}.
Arguments DriveGoal {T} _.
Arguments Driven {T} _ _.

(** ** The dynamic window *)

Record DwaConfig : Type := {
  dw_v_min : f64; dw_v_max : f64; dw_w_max_deg : f64; dw_n_v : Z; dw_n_w : Z; dw_horizon_s : f64; dw_tick_s : f64;
  dw_collide_step_m : f64; dw_lethal_penalty : Z
}.

Definition greatest (f : Action → f64) (acts : list Action) : f64 := foldl (fun acc a => fmax acc (f a)) f0 acts.
Definition least (f : Action → f64) (acts : list Action) : f64 := foldl (fun acc a => fmin acc (f a)) f0 acts.

Definition dwa_from_actions (acts : list Action) (tick_s : f64) : DwaConfig :=
  {| dw_v_min := least a_delta_fw acts; dw_v_max := greatest a_delta_fw acts;
     dw_w_max_deg := greatest (fun a => fabs (a_delta_rot a)) acts; dw_n_v := 7; dw_n_w := 11; dw_horizon_s := f1;
     dw_tick_s := tick_s; dw_collide_step_m := f0; dw_lethal_penalty := 0 |}.

Record DwaChoice : Type := mkChoice { dc_v : f64; dc_w_deg : f64; dc_cost : f64; dc_hits_goal : bool }.

Definition GOAL_BONUS : f64 := f64_of_Z (10 ^ 18).

Section dwa.
Context (cos sin : f64 → f64).
Context {V K : Type} `{PolicyView V} `{CostView K} (p : V) (cost : K).

(** The time step of a candidate and the number of its steps. *)
Definition candidate_dt (cfg : DwaConfig) (v step_m : f64) : f64 :=
  if flt nano (fabs v) then fmin (fdiv step_m (fabs v)) (dw_tick_s cfg) else dw_tick_s cfg.
Definition candidate_steps (cfg : DwaConfig) (dt : f64) : Z :=
  f64_as_u64 (fmax (fceil (fdiv (dw_horizon_s cfg) dt)) f1).

Definition eval_candidate (cfg : DwaConfig) (s : f64 * f64 * f64) (v w_deg step_m : f64) : res (option DwaChoice) :=
  let dt := candidate_dt cfg v step_m in
  d ← drive cos sin p cost (Z.add 1) (dw_lethal_penalty cfg) (Z.to_nat (candidate_steps cfg dt)) v (to_radians w_deg) dt s 0;
  match d with
  | DriveRejected => Ok None
  | DriveGoal k => Ok (Some (mkChoice v w_deg (fsub (fmul (f64_of_Z k) dt) GOAL_BONUS) true))
  | Driven (x, y, yaw) _ =>
      vh ← v_hat p x y yaw;
      Ok (match vh with Some c => Some (mkChoice v w_deg c false) | None => None end)
  end.

(** The commands of the grid. *)
Definition candidate_v (cfg : DwaConfig) (i : Z) : f64 :=
  let rv := if dw_n_v cfg >? 1 then fdiv (f64_of_Z i) (f64_of_Z (dw_n_v cfg - 1)) else f1 in
  fadd (dw_v_min cfg) (fmul (fsub (dw_v_max cfg) (dw_v_min cfg)) rv).
Definition candidate_w (cfg : DwaConfig) (j : Z) : f64 :=
  let rw := if dw_n_w cfg >? 1 then fdiv (f64_of_Z j) (f64_of_Z (dw_n_w cfg - 1)) else f0_5 in
  fadd (fneg (dw_w_max_deg cfg)) (fmul (fmul f2 (dw_w_max_deg cfg)) rw).

Definition better (c : DwaChoice) (best : option DwaChoice) : option DwaChoice :=
  if match best with Some b => flt (dc_cost c) (dc_cost b) | None => true end then Some c else best.

Definition collide_step (step_m : f64) : f64 := if flt f0 step_m then step_m else fmul (pv_xy_resolution p) f0_5.

Definition dwa_best (cfg : DwaConfig) (s : f64 * f64 * f64) : res (option DwaChoice) :=
  for_range 0 (Z.max (dw_n_v cfg) 1) (fun i best =>
    for_range 0 (Z.max (dw_n_w cfg) 1) (fun j best =>
      c ← eval_candidate cfg s (candidate_v cfg i) (candidate_w cfg j) (collide_step (dw_collide_step_m cfg));
      Ok (match c with Some c => better c best | None => best end)) best) None.

Definition dwa_decide (cfg : DwaConfig) (x y yaw_rad : f64) : res (option DwaChoice) :=
  let '(cix, ciy) := xy_cell p x y in
  free ← free_at cost cix ciy;
  if negb free then Ok None else
  best ← dwa_best cfg (x, y, yaw_rad);
  match best with
  | None => Ok None
  | Some b =>
      if dc_hits_goal b then Ok (Some b) else
      now ← v_hat p x y yaw_rad;
      Ok (match now with Some v_now => if fge (dc_cost b) v_now then None else Some b | None => Some b end)
  end.
End dwa.

(** ** Sampling sequences of commands *)

Record MppiConfig : Type := {
  mp_v_min : f64; mp_v_max : f64; mp_w_max_deg : f64; mp_n_samples : Z; mp_horizon_s : f64; mp_tick_s : f64;
  mp_lambda : f64; mp_sigma_v : f64; mp_sigma_w_deg : f64; mp_alpha : f64; mp_gamma : f64;
  mp_collide_step_m : f64; mp_seed : Z
}.

Definition mppi_from_actions (acts : list Action) (tick_s : f64) : MppiConfig :=
  let v_max := greatest a_delta_fw acts in
  let v_min := least a_delta_fw acts in
  let w_max := greatest (fun a => fabs (a_delta_rot a)) acts in
  {| mp_v_min := v_min; mp_v_max := v_max; mp_w_max_deg := w_max; mp_n_samples := 256; mp_horizon_s := f1;
     mp_tick_s := tick_s; mp_lambda := f1; mp_sigma_v := fmul f0_25 (fsub v_max v_min);
     mp_sigma_w_deg := fmul f0_25 w_max; mp_alpha := fdiv (f64_of_Z 8) (f64_of_Z 10); mp_gamma := f0_1;
     mp_collide_step_m := f0; mp_seed := 0x5EED0BADF00D |}.

Definition mppi_steps (cfg : MppiConfig) : Z :=
  f64_as_u64 (fmax (fceil (fdiv (mp_horizon_s cfg) (fmax (mp_tick_s cfg) micro))) f1).

Record MppiState : Type := mkMppi { ms_nominal : list (f64 * f64); ms_rng : Z }.

Definition mppi_new (seed : Z) : MppiState := mkMppi [] (Z.lor seed 1).
Definition mppi_reset (s : MppiState) : MppiState := mkMppi [] (ms_rng s).

(** *** Random numbers *)

(** xorshift64*: the next state and the number drawn. *)
Definition next_u64 (rng : Z) : Z * Z :=
  let x := Z.lxor rng (u64_shl rng 13) in
  let x := Z.lxor x (Z.shiftr x 7) in
  let x := Z.lxor x (u64_shl x 17) in
  (x, u64_mul x 0x2545F4914F6CDD1D).

Definition next_unit (rng : Z) : Z * f64 :=
  let '(rng, u) := next_u64 rng in
  (rng, fdiv (f64_of_Z (Z.shiftr u 11 + 1)) (f64_of_Z (2 ^ 53))).

Section mppi.
Context (cos sin ln exp : f64 → f64).

(** Box-Muller. *)
Definition next_gauss_pair (rng : Z) : Z * (f64 * f64) :=
  let '(rng, u) := next_unit rng in
  let r := fsqrt (fmul (fneg f2) (ln u)) in
  let '(rng, u) := next_unit rng in
  let th := fmul (fmul f2 PI) u in
  (rng, (fmul r (cos th), fmul r (sin th))).

(** *** One sample *)

(** The correlated noise of a sample from its [n]-th command on, and its penalty. *)
Fixpoint noise (cfg : MppiConfig) (a b : f64) (n : nat) (ev ew pen : f64) (rng : Z) : list (f64 * f64) * f64 * Z :=
  match n with
  | O => ([], pen, rng)
  | S n =>
      let pen := fadd pen (fadd (fsquare (fdiv ev (fmax (mp_sigma_v cfg) nano)))
                                (fsquare (fdiv ew (fmax (mp_sigma_w_deg cfg) nano)))) in
      let '(rng, (gv, gw)) := next_gauss_pair rng in
      let ev' := fadd (fmul a ev) (fmul (fmul b (mp_sigma_v cfg)) gv) in
      let ew' := fadd (fmul a ew) (fmul (fmul b (mp_sigma_w_deg cfg)) gw) in
      let '(es, pen, rng) := noise cfg a b n ev' ew' pen rng in
      ((ev, ew) :: es, pen, rng)
  end.

(** The perturbation of sample [i]; sample 0 has none. *)
Definition perturbation (cfg : MppiConfig) (a b : f64) (h : nat) (i rng : Z) : list (f64 * f64) * f64 * Z :=
  if i >? 0 then
    let '(rng, (gv, gw)) := next_gauss_pair rng in
    noise cfg a b h (fmul gv (mp_sigma_v cfg)) (fmul gw (mp_sigma_w_deg cfg)) f0 rng
  else (replicate h (f0, f0), f0, rng).

Definition clamp_command (cfg : MppiConfig) (v w : f64) : res (f64 * f64) :=
  v ← fclamp v (mp_v_min cfg) (mp_v_max cfg);
  w ← fclamp w (fneg (mp_w_max_deg cfg)) (mp_w_max_deg cfg);
  Ok (v, w).

Context {V K : Type} `{PolicyView V} `{CostView K} (p : V) (cost : K).

(** The small steps of a command of one tick. *)
Definition command_steps (cfg : MppiConfig) (v step_m : f64) : Z :=
  Z.max (f64_as_u64 (fceil (fdiv (fmul (fabs v) (mp_tick_s cfg)) step_m))) 1.

(** The commands one after the other; the time is the sum of the steps. *)
Fixpoint drive_seq (cfg : MppiConfig) (step_m : f64) (seq : list (f64 * f64)) (s : f64 * f64 * f64) (t : f64)
    : res (Drive f64) :=
  match seq with
  | [] => Ok (Driven s t)
  | (v, w_deg) :: seq =>
      let m := command_steps cfg v step_m in
      let dt := fdiv (mp_tick_s cfg) (f64_of_Z m) in
      d ← drive cos sin p cost (fun t => fadd t dt) 0 (Z.to_nat m) v (to_radians w_deg) dt s t;
      match d with
      | Driven s t => drive_seq cfg step_m seq s t
      | DriveRejected => Ok DriveRejected
      | DriveGoal t => Ok (DriveGoal t)
      end
  end.

Definition rollout_seq (cfg : MppiConfig) (s : f64 * f64 * f64) (seq : list (f64 * f64)) (step_m : f64)
    : res (option (f64 * bool)) :=
  d ← drive_seq cfg step_m seq s f0;
  match d with
  | DriveRejected => Ok None
  | DriveGoal t => Ok (Some (fsub t GOAL_BONUS, true))
  | Driven (x, y, yaw) _ => vh ← v_hat p x y yaw; Ok (match vh with Some c => Some (c, false) | None => None end)
  end.

(** A sample: its commands, its perturbation, and its value and penalty when it
    is not rejected. *)
Record Sample : Type := mkSample {
  sa_seq : list (f64 * f64); sa_eps : list (f64 * f64); sa_eval : option (f64 * bool * f64)
}.

Fixpoint zip_res {A B C} (f : A → B → res C) (l : list A) (k : list B) : res (list C) :=
  match l, k with
  | x :: l, y :: k => z ← f x y; zs ← zip_res f l k; Ok (z :: zs)
  | _, _ => Ok []
  end.

Definition draw_sample (cfg : MppiConfig) (a b : f64) (base : list (f64 * f64)) (s : f64 * f64 * f64) (step_m : f64)
    (i rng : Z) : res (Sample * Z) :=
  let h := length base in
  let '(eps, pen, rng) := perturbation cfg a b h i rng in
  seq ← zip_res (fun u e => clamp_command cfg (fadd u.1 e.1) (fadd u.2 e.2)) base eps;
  r ← rollout_seq cfg s seq step_m;
  Ok (mkSample seq eps (match r with
      | Some (c, hits) => Some (c, hits, fdiv (fmul (mp_gamma cfg) pen) (f64_of_Z (Z.of_nat h)))
      | None => None
      end), rng).

Definition draw_samples (cfg : MppiConfig) (a b : f64) (base : list (f64 * f64)) (s : f64 * f64 * f64) (step_m : f64)
    (rng : Z) : res (list Sample * Z) :=
  for_range 0 (Z.max (mp_n_samples cfg) 2) (fun i '(samples, rng) =>
    r ← draw_sample cfg a b base s step_m i rng;
    let '(sample, rng) := r in
    Ok (samples ++ [sample], rng)) ([], rng).

(** *** The average *)

(** The accepted samples: the ones that hit the goal, if any does. *)
Definition accepted (samples : list Sample) : list (Sample * (f64 * bool * f64)) :=
  omap (fun s => (fun e => (s, e)) <$> sa_eval s) samples.
Definition hits (e : Sample * (f64 * bool * f64)) : bool := e.2.1.2.
Definition sample_cost (e : Sample * (f64 * bool * f64)) : f64 := e.2.1.1.
Definition sample_pool (evals : list (Sample * (f64 * bool * f64))) : list (Sample * (f64 * bool * f64)) :=
  List.filter (fun e => Bool.eqb (hits e) (existsb hits evals)) evals.

(** [iter().sum::<f64>()] *)
Definition fsum (l : list f64) : f64 := foldl fadd f0 l.

Definition least_cost (pool : list (Sample * (f64 * bool * f64))) : f64 := foldl (fun m e => fmin m (sample_cost e)) INFINITY pool.

(** The weighted sum of the perturbations, and the sum of the weights. *)
Definition weigh (cfg : MppiConfig) (pool : list (Sample * (f64 * bool * f64))) (h : nat) : list (f64 * f64) * f64 :=
  let smin := least_cost pool in
  let mean_dev := fdiv (fsum (map (fun e => fsub (sample_cost e) smin) pool)) (f64_of_Z (zlen pool)) in
  foldl (fun '(du, wsum) e =>
    let ndev := if flt f0 mean_dev then fdiv (fsub (sample_cost e) smin) mean_dev else f0 in
    let w := exp (fdiv (fneg (fadd ndev e.2.2)) (fmax (mp_lambda cfg) micro)) in
    (zip_with (fun d ep => (fadd d.1 (fmul w ep.1), fadd d.2 (fmul w ep.2))) du (sa_eps e.1), fadd wsum w))
    (replicate h (f0, f0), f0) pool.

(** The moving average over three commands, two at the ends. *)
Definition smooth_at (cfg : MppiConfig) (raw : list (f64 * f64)) (j : Z) : res (f64 * f64) :=
  let lo := Z.max 0 (j - 1) in
  let hi := Z.min (j + 1) (zlen raw - 1) in
  let n := f64_of_Z (hi - lo + 1) in
  let part := take (Z.to_nat (hi - lo + 1)) (drop (Z.to_nat lo) raw) in
  clamp_command cfg (fdiv (fsum part.*1) n) (fdiv (fsum part.*2) n).

Definition averaged (cfg : MppiConfig) (base : list (f64 * f64)) (pool : list (Sample * (f64 * bool * f64)))
    : res (list (f64 * f64)) :=
  let '(du, wsum) := weigh cfg pool (length base) in
  nominal ← zip_res (fun u d => clamp_command cfg (fadd u.1 (fdiv d.1 wsum)) (fadd u.2 (fdiv d.2 wsum))) base du;
  if zlen base >=? 2 then map_res (smooth_at cfg nominal) (seqZ 0 (zlen nominal)) else Ok nominal.

(** [min_by(partial_cmp().unwrap())]: the first of the least; a NaN panics. *)
Fixpoint min_by_cost (best : Sample * (f64 * bool * f64)) (pool : list (Sample * (f64 * bool * f64)))
    : res (Sample * (f64 * bool * f64)) :=
  match pool with
  | [] => Ok best
  | e :: pool =>
      if is_nan (sample_cost best) || is_nan (sample_cost e) then Panic
      else min_by_cost (if flt (sample_cost e) (sample_cost best) then e else best) pool
  end.

(** *** The decision *)

(** The nominal sequence of the last tick, one command on.  The element that
    [rotate_left] moves to the end is the executed one. *)
Definition warm_start (h : Z) (nominal : list (f64 * f64)) : list (f64 * f64) :=
  if zlen nominal =? h then drop 1 nominal ++ take 1 nominal
  else take (Z.to_nat h) nominal ++ replicate (Z.to_nat h - length nominal) (f0, f0).

Definition choose_sequence (cfg : MppiConfig) (s : f64 * f64 * f64) (step_m : f64) (nominal : list (f64 * f64))
    (pool : list (Sample * (f64 * bool * f64))) : res (list (f64 * f64) * f64 * bool) :=
  r ← rollout_seq cfg s nominal step_m;
  match r with
  | Some (c, h) => Ok (nominal, c, h)
  | None =>
      match pool with
      | [] => Panic
      | e :: pool => e ← min_by_cost e pool; Ok (sa_seq e.1, sample_cost e, hits e)
      end
  end.

Definition mppi_decide (cfg : MppiConfig) (state : MppiState) (x y yaw_rad : f64) : res (MppiState * option DwaChoice) :=
  let '(cix, ciy) := xy_cell p x y in
  free ← free_at cost cix ciy;
  if negb free then Ok (state, None) else
  let step_m := collide_step p (mp_collide_step_m cfg) in
  let base := warm_start (mppi_steps cfg) (ms_nominal state) in
  a ← fclamp (mp_alpha cfg) f0 f0_999;
  let b := fsqrt (fsub f1 (fmul a a)) in
  r ← draw_samples cfg a b base (x, y, yaw_rad) step_m (ms_rng state);
  let '(samples, rng) := r in
  let evals := accepted samples in
  if zlen evals =? 0 then Ok (mkMppi base rng, None) else
  let pool := sample_pool evals in
  nominal ← averaged cfg base pool;
  r ← choose_sequence cfg (x, y, yaw_rad) step_m nominal pool;
  let '(chosen, c, h) := r in
  u ← vget chosen 0;
  Ok (mkMppi chosen rng, Some (mkChoice u.1 u.2 c h)).
End mppi.
