(* ===== verification/CtrlSpec.v ===== *)
(** * What the continuous controllers promise

    Against views that answer every query: the dynamic window picks a command of
    its grid whose simulated motion stays on free ground, and no accepted command
    is better; the sequence that the sampling controller hands on was driven
    through as well; the random state never dies; and the reflex of a lost robot
    moves only into a clear cone. *)

From Stdlib Require Import ZArith Lia SpecFloat.
From stdpp Require Import base gmap strings list numbers.
From S2P Require Import Prelude Floats Model Bellman Active Bridge Planner PlannerSpec Ctrl.

(** ** The views *)

Class ViewLaws {V} `{PolicyView V} (p : V) : Prop := {
  vl_final ix iy it : is_Ok (is_final p ix iy it);
  vl_value ix iy it : is_Ok (value_at p ix iy it);
  vl_t_resolution : is_Ok (t_resolution p);
  vl_headings : 0 < (cell_num p).2
}.

Class CostLaws {K} `{CostView K} (k : K) : Prop := {
  cl_free ix iy : is_Ok (free_at k ix iy);
  cl_penalty ix iy : is_Ok (penalty_at k ix iy)
}.

Lemma headings_of_wf vi : wf_vi vi → 0 < vi_cell_num_t vi.
Proof. intros [Hd _ _]. pose proof (dims_t _ _ _ Hd). lia. Qed.

#[export] Instance vi_view_laws vi : wf_vi vi → ViewLaws vi.
Proof.
  intros Hwf. split.
  - intros ix iy it. rewrite vi_is_final_eq. destruct (vi_outside vi ix iy it) eqn:E; [by eexists|].
    destruct (vi_state_get vi ix iy it Hwf E) as (s & -> & _). by eexists.
  - intros ix iy it. cbn. destruct (vi_outside vi ix iy it) eqn:E; [by eexists|].
    destruct (vi_state_get vi ix iy it Hwf E) as (s & -> & _). by eexists.
  - by eexists.
  - by apply headings_of_wf.
Qed.

Lemma vi_outside_0 vi ix iy : wf_vi vi → in_map_area vi ix iy = true → vi_outside vi ix iy 0 = false.
Proof. intros Hwf%headings_of_wf E. unfold vi_outside. rewrite E. lia. Qed.

#[export] Instance vi_cost_laws vi : wf_vi vi → CostLaws vi.
Proof.
  intros Hwf. split; intros ix iy; cbn; destruct (in_map_area vi ix iy) eqn:E; try (by eexists).
  all: destruct (vi_state_get vi ix iy 0 Hwf (vi_outside_0 vi ix iy Hwf E)) as (s & -> & _); by eexists.
Qed.

Lemma i32_rem_pos a b : 0 < b → is_Ok (i32_rem a b).
Proof. intros. unfold i32_rem. destruct (Z.eqb_spec b 0); [lia|]. destruct (Z.eqb_spec b (-1)); [lia|]. rewrite andb_false_r. by eexists. Qed.

(** ** Motions *)

Section motion.
Context (cos sin : f64 → f64).
Context {V K : Type} `{PolicyView V} `{CostView K} (p : V) (cost : K) `{!ViewLaws p} `{!CostLaws cost}.

Lemma interpolate_ok cs acc : is_Ok (interpolate p cs acc).
Proof.
  revert acc. induction cs as [|[[[ix iy] it] [[wx wy] wt]] cs IH]; intros acc; [by eexists|]. cbn [interpolate].
  destruct (vl_value ix iy it) as [v ->]. rewrite ok_bind. destruct (v >=? MAX_COST); [by eexists|apply IH].
Qed.

Lemma v_hat_ok x y yaw : is_Ok (v_hat p x y yaw).
Proof.
  unfold v_hat. destruct (map_origin p) as [ox oy]. destruct vl_t_resolution as [t ->]. rewrite ok_bind.
  pose proof vl_headings as Hn. do 3 (edestruct i32_rem_pos as [? ->]; [exact Hn|]; rewrite ok_bind). apply interpolate_ok.
Qed.

Lemma theta_cell_ok yaw : is_Ok (theta_cell p yaw).
Proof.
  unfold theta_cell. edestruct i32_rem_pos as [? ->]; [|]; [lia|]. rewrite ok_bind.
  destruct vl_t_resolution as [t ->]. by eexists.
Qed.

Lemma landing_ok lethal s : is_Ok (step_landing p cost lethal s).
Proof.
  unfold step_landing. destruct s as [[x y] yaw], (xy_cell p x y) as [ix iy]. destruct (cl_free (k := cost) ix iy) as [f ->].
  rewrite ok_bind. destruct (negb f); [by eexists|]. destruct (theta_cell_ok yaw) as [t ->]. rewrite ok_bind.
  destruct (vl_final ix iy t) as [[] ->]; rewrite ok_bind; [by eexists|]. destruct (lethal >? 0); [|by eexists].
  destruct (cl_penalty (k := cost) ix iy) as [q ->]. by eexists.
Qed.

(** The point lies on a free cell. *)
Definition on_free (s : f64 * f64 * f64) : Prop :=
  free_at cost (xy_cell p s.1.1 s.1.2).1 (xy_cell p s.1.1 s.1.2).2 = Ok true.

(** Below the threshold, when there is one. *)
Definition below (lethal : Z) (s : f64 * f64 * f64) : Prop :=
  0 < lethal → ∃ q, penalty_at cost (xy_cell p s.1.1 s.1.2).1 (xy_cell p s.1.1 s.1.2).2 = Ok q ∧ q < lethal.

(** The point is at the goal. *)
Definition on_goal (s : f64 * f64 * f64) : Prop :=
  ∃ t, theta_cell p s.2 = Ok t ∧ is_final p (xy_cell p s.1.1 s.1.2).1 (xy_cell p s.1.1 s.1.2).2 t = Ok true.

Lemma landing_spec lethal s l :
  step_landing p cost lethal s = Ok l →
  match l with
  | LandRejected => True
  | LandGoal => on_free s ∧ on_goal s
  | LandFree => on_free s ∧ below lethal s
  end.
Proof.
  unfold step_landing, on_free, on_goal, below. destruct s as [[x y] yaw]. cbn [fst snd].
  destruct (xy_cell p x y) as [ix iy]. cbn [fst snd]. intros (f & Ef & H1)%bind_ok. rewrite Ef.
  destruct f; [cbn [negb] in H1|by injection H1 as <-]. apply bind_ok in H1 as (t & Et & H1).
  apply bind_ok in H1 as (fin & Efin & H1). destruct fin; [injection H1 as <-; by eauto|].
  destruct (Z.gtb_spec lethal 0); [|injection H1 as <-; split; [done|lia]].
  apply bind_ok in H1 as (q & Eq & H1). injection H1 as <-. destruct (Z.geb_spec q lethal); [done|]. eauto.
Qed.

(** The points a constant command leads through, and a sequence of commands. *)
Fixpoint trace (n : nat) (v w dt : f64) (s : f64 * f64 * f64) : list (f64 * f64 * f64) :=
  match n with
  | O => []
  | S n => let s := unicycle_step cos sin s v w dt in s :: trace n v w dt s
  end.

(** A motion over free ground to its end, or up to the goal. *)
Definition drives (lethal : Z) (tr : list (f64 * f64 * f64)) (goal : bool) : Prop :=
  if goal then ∃ tr1 s tr2, tr = tr1 ++ s :: tr2 ∧ Forall on_free (tr1 ++ [s]) ∧ Forall (below lethal) tr1 ∧ on_goal s
  else Forall on_free tr ∧ Forall (below lethal) tr.

Lemma drives_cons lethal s tr goal : on_free s → below lethal s → drives lethal tr goal → drives lethal (s :: tr) goal.
Proof.
  intros Hf Hb. destruct goal; cbn; [|intros [??]; by split; constructor].
  intros (tr1 & g & tr2 & -> & H1 & H2 & H3). exists (s :: tr1), g, tr2. split_and!; [done|by constructor..|done].
Qed.

Lemma drives_app lethal tr tr' goal : drives lethal tr false → drives lethal tr' goal → drives lethal (tr ++ tr') goal.
Proof.
  intros [Hf Hb]. revert Hb. induction Hf as [|s tr Hs _ IH]; intros Hb; [done|]. apply list.Forall_cons_1 in Hb as [? Hb].
  intros Ht. rewrite <- app_comm_cons. apply drives_cons; auto.
Qed.

Lemma drives_goal_app lethal tr tr' : drives lethal tr true → drives lethal (tr ++ tr') true.
Proof. intros (tr1 & g & tr2 & -> & ?). exists tr1, g, (tr2 ++ tr'). split; [by rewrite <- app_assoc|done]. Qed.

Lemma drive_spec {T} (tick : T → T) lethal n v w dt s t :
  ∃ d, drive cos sin p cost tick lethal n v w dt s t = Ok d ∧
    match d with
    | DriveRejected => True
    | DriveGoal _ => drives lethal (trace n v w dt s) true
    | Driven s' _ => drives lethal (trace n v w dt s) false ∧ s' = List.last (trace n v w dt s) s
    end.
Proof.
  revert s t. induction n as [|n IH]; intros s t; [by eexists|]. cbn [drive trace].
  set (s1 := unicycle_step _ _ _ _ _ _). destruct (landing_ok lethal s1) as [l El]. rewrite El, ok_bind.
  apply landing_spec in El. destruct l.
  - eexists. split; [done|]. destruct El. exists [], s1, (trace n v w dt s1). split_and!; [done|by constructor|done..].
  - destruct El as [Hf Hb]. destruct (IH s1 (tick t)) as (d & -> & Hd). exists d. split; [done|]. destruct d as [|t'|s' t']; [done|by apply drives_cons|].
    destruct Hd as [? ->]. split; [by apply drives_cons|]. 
    assert (∀ (l : list (f64 * f64 * f64)) a b, List.last (a :: l) b = List.last l a) as Hlast; [|by rewrite Hlast].
    clear. intros l. induction l as [|c l IH]; intros a b; [done|]. by rewrite (IH c a), <- (IH c b).
  - by eexists.
Qed.
End motion.

(** ** The best of a list *)

(** [best] is a candidate and no candidate is better. *)
Definition least_of {D} (cand : D → option DwaChoice) (l : list D) (best : option DwaChoice) : Prop :=
  match best with
  | None => ∀ d, d ∈ l → cand d = None
  | Some c => (∃ d, d ∈ l ∧ cand d = Some c) ∧
      ∀ d c', d ∈ l → cand d = Some c' → flt (dc_cost c') (dc_cost c) = false
  end.

Lemma scan_better {D} (cand : D → option DwaChoice) (body : D → option DwaChoice → res (option DwaChoice)) l :
  (∀ d best, body d best = Ok (match cand d with Some c => better c best | None => best end)) →
  ∃ best, for_each l body None = Ok best ∧ least_of cand l best.
Proof.
  intros Hbody. induction l as [|d l IH] using rev_ind; [exists None; split; [done|by intros d ?%elem_of_nil]|].
  destruct IH as (best & E & Hb). rewrite for_each_app, E, ok_bind. cbn [for_each]. rewrite Hbody, ok_bind.
  eexists. split; [done|]. destruct (cand d) as [c|] eqn:Ed.
  - unfold better. destruct best as [b|]; [destruct (flt (dc_cost c) (dc_cost b)) eqn:Elt|].
    + destruct Hb as [_ Hb]. split; [exists d; split; [set_solver|done]|].
      intros d' c' [Hd|Hd]%elem_of_app Hc'.
      * apply not_true_iff_false. intros Hlt. pose proof (flt_trans _ _ _ Hlt Elt) as H. by rewrite (Hb d' c' Hd Hc') in H.
      * apply list_elem_of_singleton in Hd as ->. rewrite Ed in Hc'. injection Hc' as <-. apply flt_irrefl.
    + destruct Hb as [(d0 & Hd0 & E0) Hb]. split; [exists d0; split; [set_solver|done]|].
      intros d' c' [Hd|Hd]%elem_of_app Hc'; [by eapply Hb|].
      apply list_elem_of_singleton in Hd as ->. rewrite Ed in Hc'. by injection Hc' as <-.
    + split; [exists d; split; [set_solver|done]|]. intros d' c' [Hd|Hd]%elem_of_app Hc'; [by rewrite (Hb d' Hd) in Hc'|].
      apply list_elem_of_singleton in Hd as ->. rewrite Ed in Hc'. injection Hc' as <-. apply flt_irrefl.
  - destruct best as [b|].
    + destruct Hb as [(d0 & Hd0 & E0) Hb]. split; [exists d0; split; [set_solver|done]|].
      intros d' c' [Hd|Hd]%elem_of_app Hc'; [by eapply Hb|]. apply list_elem_of_singleton in Hd as ->. congruence.
    + intros d' [Hd|Hd]%elem_of_app; [by apply Hb|]. by apply list_elem_of_singleton in Hd as ->.
Qed.

(** ** The dynamic window *)

Section dwa.
Context (cos sin : f64 → f64).
Context {V K : Type} `{PolicyView V} `{CostView K} (p : V) (cost : K) `{!ViewLaws p} `{!CostLaws cost}.

(** The points the simulation of a command visits. *)
Definition candidate_trace (cfg : DwaConfig) (s : f64 * f64 * f64) (v w_deg step_m : f64) : list (f64 * f64 * f64) :=
  let dt := candidate_dt cfg v step_m in
  trace cos sin (Z.to_nat (candidate_steps cfg dt)) v (to_radians w_deg) dt s.

(** What an accepted command is: its motion is over free ground, and it is valued
    at its end, unless it goes through the goal. *)
Lemma eval_candidate_spec cfg s v w step_m :
  ∃ o, eval_candidate cos sin p cost cfg s v w step_m = Ok o ∧
    ∀ c, o = Some c → dc_v c = v ∧ dc_w_deg c = w ∧
      drives p cost (dw_lethal_penalty cfg) (candidate_trace cfg s v w step_m) (dc_hits_goal c) ∧
      (dc_hits_goal c = false →
         let e := List.last (candidate_trace cfg s v w step_m) s in v_hat p e.1.1 e.1.2 e.2 = Ok (Some (dc_cost c))).
Proof.
  unfold eval_candidate, candidate_trace. set (dt := candidate_dt cfg v step_m). set (n := Z.to_nat _).
  destruct (drive_spec cos sin p cost (Z.add 1) (dw_lethal_penalty cfg) n v (to_radians w) dt s 0) as (d & -> & Hd).
  rewrite ok_bind. destruct d as [|k|[[x y] yaw] k].
  - eexists. split; [done|done].
  - eexists. split; [done|]. intros c [= <-]. by split_and!.
  - destruct (v_hat_ok p x y yaw) as [[c|] E]; rewrite E; cbn; eexists; (split; [done|]); [|done].
    intros ? [= <-]. destruct Hd as [Hd <-]. by split_and!.
Qed.

(** The command at a place of the grid. *)
Definition grid (cfg : DwaConfig) : list (Z * Z) :=
  i ← seqZ 0 (Z.max (dw_n_v cfg) 1); (λ j, (i, j)) <$> seqZ 0 (Z.max (dw_n_w cfg) 1).
Definition command (cfg : DwaConfig) (ij : Z * Z) : f64 * f64 := (candidate_v cfg ij.1, candidate_w cfg ij.2).

(** The evaluation of a command, of which [eval_candidate_spec] says that it returns. *)
Definition value_of (cfg : DwaConfig) (s : f64 * f64 * f64) (u : f64 * f64) : option DwaChoice :=
  match eval_candidate cos sin p cost cfg s u.1 u.2 (collide_step p (dw_collide_step_m cfg)) with
  | Ok o => o
  | _ => None
  end.

Lemma dwa_best_spec cfg s :
  ∃ best, dwa_best cos sin p cost cfg s = Ok best ∧ least_of (fun ij => value_of cfg s (command cfg ij)) (grid cfg) best.
Proof.
  unfold dwa_best. set (F := fun (ij : Z * Z) best =>
    c ← eval_candidate cos sin p cost cfg s (candidate_v cfg ij.1) (candidate_w cfg ij.2) (collide_step p (dw_collide_step_m cfg));
    Ok (match c with Some c => better c best | None => best end)).
  destruct (scan_better (fun ij => value_of cfg s (command cfg ij)) F (grid cfg)) as (best & E & Hb).
  { intros ij best. unfold F, value_of. destruct (eval_candidate_spec cfg s (candidate_v cfg ij.1) (candidate_w cfg ij.2)
      (collide_step p (dw_collide_step_m cfg))) as (o & E & _). cbn [command fst snd]. by rewrite E. }
  exists best. split; [|done]. rewrite <- E. unfold for_range, grid. rewrite !Z.sub_0_r, <- for_each_bind.
  apply for_each_ext. intros i a _. by rewrite for_each_fmap.
Qed.

(** A command that was accepted, from the pose. *)
Definition drivable (cfg : DwaConfig) (s : f64 * f64 * f64) (c : DwaChoice) : Prop :=
  drives p cost (dw_lethal_penalty cfg)
    (candidate_trace cfg s (dc_v c) (dc_w_deg c) (collide_step p (dw_collide_step_m cfg))) (dc_hits_goal c).

Lemma value_of_drivable cfg s u c : value_of cfg s u = Some c → (dc_v c, dc_w_deg c) = u ∧ drivable cfg s c.
Proof.
  unfold value_of, drivable. destruct u as [v w]. cbn [fst snd].
  destruct (eval_candidate_spec cfg s v w (collide_step p (dw_collide_step_m cfg))) as (o & -> & Ho).
  intros ->. destruct (Ho c eq_refl) as (-> & -> & ? & _). done.
Qed.

(** The decision of the dynamic window. *)
Definition dwa_says (cfg : DwaConfig) (s : f64 * f64 * f64) (o : option DwaChoice) : Prop :=
  let cands := fun ij => value_of cfg s (command cfg ij) in
  match o with
  | Some c => on_free p cost s ∧ least_of cands (grid cfg) (Some c) ∧ drivable cfg s c ∧
      (dc_hits_goal c = false → ∀ now, v_hat p s.1.1 s.1.2 s.2 = Ok (Some now) → fge (dc_cost c) now = false)
  | None => ¬ on_free p cost s ∨ least_of cands (grid cfg) None ∨
      ∃ c now, least_of cands (grid cfg) (Some c) ∧ dc_hits_goal c = false ∧
        v_hat p s.1.1 s.1.2 s.2 = Ok (Some now) ∧ fge (dc_cost c) now = true
  end.

Lemma dwa_decide_spec cfg x y yaw :
  ∃ o, dwa_decide cos sin p cost cfg x y yaw = Ok o ∧ dwa_says cfg (x, y, yaw) o.
Proof.
  unfold dwa_decide, dwa_says, on_free. cbn [fst snd]. destruct (xy_cell p x y) as [ix iy]. cbn [fst snd].
  destruct (cl_free (k := cost) ix iy) as [f ->]. rewrite ok_bind.
  destruct f; [|by exists None; split; [|left]]. destruct (dwa_best_spec cfg (x, y, yaw)) as (best & -> & Hb).
  rewrite ok_bind. cbn [negb]. destruct best as [c|]; [|exists None; split; [done|by right; left]].
  pose proof Hb as [(ij & _ & Hc%value_of_drivable) _]. destruct Hc as [_ Hc].
  destruct (dc_hits_goal c) eqn:Eg; [exists (Some c); split; [done|]; split_and!; try done; congruence|].
  destruct (v_hat_ok p x y yaw) as [o Eo]. rewrite Eo, ok_bind. destruct o as [now|].
  - destruct (fge (dc_cost c) now) eqn:Ef.
    + exists None. split; [done|]. right. right. by exists c, now.
    + exists (Some c). split; [done|]. split_and!; try done. intros _ now' [= <-]. done.
  - exists (Some c). split; [done|]. split_and!; try done.
Qed.
End dwa.

(** ** Random numbers *)

Definition rng_ok (x : Z) : Prop := x ≠ 0 ∧ in_u64 x.

Lemma lxor_u64 a b : in_u64 a → in_u64 b → in_u64 (Z.lxor a b).
Proof.
  unfold in_u64. intros Ha Hb. assert (0 ≤ Z.lxor a b) as Hx by (apply Z.lxor_nonneg; lia). split; [done|].
  destruct (Z.eq_dec (Z.lxor a b) 0) as [->|Hn]; [lia|]. apply Z.log2_lt_pow2; [lia|].
  pose proof (Z.log2_lxor a b ltac:(lia) ltac:(lia)).
  assert (Z.log2 a < 64) by (destruct (Z.eq_dec a 0) as [->|]; [done|apply Z.log2_lt_pow2; lia]).
  assert (Z.log2 b < 64) by (destruct (Z.eq_dec b 0) as [->|]; [done|apply Z.log2_lt_pow2; lia]). lia.
Qed.

Lemma xor_shl_ok x k : 0 < k → rng_ok x → rng_ok (Z.lxor x (u64_shl x k)).
Proof.
  intros Hk [Hx Hu]. assert (in_u64 (u64_shl x k)) as Hs.
  { unfold u64_shl, wrap_u, in_u64. apply Z.mod_pos_bound. lia. }
  split; [|by apply lxor_u64]. intros E%Z.lxor_eq. apply Hx. apply Z.bits_inj_0. intros n.
  induction n as [n IH] using (well_founded_induction (Z.lt_wf 0)).
  destruct (Z.ltb_spec n 0) as [?|Hn]; [by apply Z.testbit_neg_r|].
  rewrite E. unfold u64_shl, wrap_u. destruct (Z.ltb_spec n 64).
  - rewrite Z.mod_pow2_bits_low, Z.shiftl_spec by lia. destruct (Z.ltb_spec (n - k) 0); [by apply Z.testbit_neg_r|].
    apply IH. lia.
  - apply Z.mod_pow2_bits_high. lia.
Qed.

Lemma xor_shr_ok x k : 0 < k → rng_ok x → rng_ok (Z.lxor x (Z.shiftr x k)).
Proof.
  unfold rng_ok, in_u64. intros Hk [Hx Hu]. pose proof (proj1 (Z.pow_gt_1 2 k ltac:(lia)) Hk) as Hp.
  assert (0 ≤ Z.shiftr x k < x) as Hs.
  { rewrite Z.shiftr_div_pow2 by lia. split; [apply Z.div_pos; lia|]. apply Z.div_lt; lia. }
  split; [intros E%Z.lxor_eq; lia|]. apply lxor_u64; unfold in_u64; lia.
Qed.

(** xorshift keeps the state off zero, where it would stay. *)
Lemma next_u64_ok rng : rng_ok rng → rng_ok (next_u64 rng).1.
Proof. intros H. cbn [next_u64 fst]. apply xor_shl_ok; [done|]. apply xor_shr_ok; [done|]. by apply xor_shl_ok. Qed.

Lemma next_unit_ok rng : rng_ok rng → rng_ok (next_unit rng).1.
Proof. intros H%next_u64_ok. unfold next_unit. by destruct (next_u64 rng). Qed.

Lemma mppi_new_ok seed : in_u64 seed → rng_ok (ms_rng (mppi_new seed)).
Proof.
  unfold in_u64. intros Hs. split; cbn.
  - intros [_ ?]%Z.lor_eq_0_iff. done.
  - assert (0 ≤ Z.lor seed 1) by (apply Z.lor_nonneg; lia). split; [done|]. apply Z.log2_lt_pow2.
    + destruct (Z.eq_dec (Z.lor seed 1) 0) as [[_ ?]%Z.lor_eq_0_iff|]; [done|lia].
    + rewrite Z.log2_lor by lia. destruct (Z.eq_dec seed 0) as [->|]; [done|]. apply Z.max_lub_lt; [apply Z.log2_lt_pow2; lia|done].
Qed.

(** ** The sampling controller *)

Lemma zip_res_ok {A B C} (f : A → B → res C) (Q : C → Prop) l k :
  (∀ x y, ∃ z, f x y = Ok z ∧ Q z) → length k = length l →
  ∃ zs, zip_res f l k = Ok zs ∧ length zs = length l ∧ Forall Q zs.
Proof.
  intros Hf. revert k. induction l as [|x l IH]; intros [|y k] Hk; try done; [by exists []|]. cbn [zip_res].
  destruct (Hf x y) as (z & -> & Hz). rewrite ok_bind. destruct (IH k) as (zs & -> & Hl & HQ); [by injection Hk|].
  rewrite ok_bind. exists (z :: zs). split; [done|]. split; [cbn; lia|by constructor].
Qed.

Section noise.
Context (cos sin ln exp : f64 → f64).

Lemma next_gauss_ok rng : rng_ok rng → rng_ok (next_gauss_pair cos sin ln rng).1.
Proof.
  intros H%next_unit_ok. unfold next_gauss_pair. destruct (next_unit rng) as [r1 u1]. cbn in H.
  apply next_unit_ok in H. by destruct (next_unit r1).
Qed.

Lemma noise_ok cfg a b n ev ew pen rng es pen' rng' :
  noise cos sin ln cfg a b n ev ew pen rng = (es, pen', rng') → rng_ok rng → length es = n ∧ rng_ok rng'.
Proof.
  revert ev ew pen rng es. induction n as [|n IH]; intros ev ew pen rng es E H; cbn [noise] in E; [by injection E as <- <- <-|].
  apply next_gauss_ok in H. destruct (next_gauss_pair cos sin ln rng) as [r1 [gv gw]]. cbn [fst] in H.
  destruct (noise _ _ _ _ _ _ _ _ _ _ _) as [[es1 pen1] r2] eqn:E1. injection E as <- <- <-.
  apply IH in E1 as [<- ?]; [done|done].
Qed.

Lemma perturbation_ok cfg a b h i rng es pen rng' :
  perturbation cos sin ln cfg a b h i rng = (es, pen, rng') → rng_ok rng → length es = h ∧ rng_ok rng'.
Proof.
  unfold perturbation. intros E H. destruct (i >? 0).
  - apply next_gauss_ok in H. destruct (next_gauss_pair cos sin ln rng) as [r1 [gv gw]]. by eapply noise_ok.
  - injection E as <- <- <-. by rewrite length_replicate.
Qed.
End noise.

(** Commands within the limits. *)
Definition in_limits (cfg : MppiConfig) (u : f64 * f64) : Prop :=
  flt u.1 (mp_v_min cfg) = false ∧ flt (mp_v_max cfg) u.1 = false ∧
  flt u.2 (fneg (mp_w_max_deg cfg)) = false ∧ flt (mp_w_max_deg cfg) u.2 = false.

(** The limits are in order. *)
Definition limits_ok (cfg : MppiConfig) : Prop :=
  fle (mp_v_min cfg) (mp_v_max cfg) = true ∧ fle (fneg (mp_w_max_deg cfg)) (mp_w_max_deg cfg) = true.

Lemma fclamp_ok x lo hi : fle lo hi = true → ∃ y, fclamp x lo hi = Ok y ∧ flt y lo = false ∧ flt hi y = false.
Proof.
  intros H. unfold fclamp. rewrite H. cbn. apply fle_flt in H. destruct (flt x lo) eqn:El.
  - exists lo. by rewrite flt_irrefl.
  - destruct (flt hi x) eqn:Eh; [exists hi; by rewrite flt_irrefl|by exists x].
Qed.

Lemma clamp_command_ok cfg v w : limits_ok cfg → ∃ u, clamp_command cfg v w = Ok u ∧ in_limits cfg u.
Proof.
  intros [Hv Hw]. unfold clamp_command. destruct (fclamp_ok v _ _ Hv) as (v' & -> & ?). rewrite ok_bind.
  destruct (fclamp_ok w _ _ Hw) as (w' & -> & ?). rewrite ok_bind. exists (v', w'). split; [done|]. unfold in_limits. cbn [fst snd]. tauto.
Qed.

Section mppi.
Context (cos sin ln exp : f64 → f64).
Context {V K : Type} `{PolicyView V} `{CostView K} (p : V) (cost : K) `{!ViewLaws p} `{!CostLaws cost}.

(** The points a sequence of commands leads through. *)
Fixpoint seq_trace (cfg : MppiConfig) (step_m : f64) (seq : list (f64 * f64)) (s : f64 * f64 * f64)
    : list (f64 * f64 * f64) :=
  match seq with
  | [] => []
  | (v, w_deg) :: seq =>
      let m := command_steps cfg v step_m in
      let tr := trace cos sin (Z.to_nat m) v (to_radians w_deg) (fdiv (mp_tick_s cfg) (f64_of_Z m)) s in
      tr ++ seq_trace cfg step_m seq (List.last tr s)
  end.

Lemma drive_seq_spec cfg step_m seq s t :
  ∃ d, drive_seq cos sin p cost cfg step_m seq s t = Ok d ∧
    match d with
    | DriveRejected => True
    | DriveGoal _ => drives p cost 0 (seq_trace cfg step_m seq s) true
    | Driven _ _ => drives p cost 0 (seq_trace cfg step_m seq s) false
    end.
Proof.
  revert s t. induction seq as [|[v w] seq IH]; intros s t; [eexists; split; [done|]; by split|]. cbn [drive_seq seq_trace].
  set (m := command_steps cfg v step_m). set (dt := fdiv _ _).
  destruct (drive_spec cos sin p cost (fun t => fadd t dt) 0 (Z.to_nat m) v (to_radians w) dt s t) as (d & -> & Hd).
  rewrite ok_bind. destruct d as [|t'|s' t']; [by eexists| |].
  - eexists. split; [done|]. by apply drives_goal_app.
  - destruct Hd as [Hd ->]. destruct (IH (List.last (trace cos sin (Z.to_nat m) v (to_radians w) dt s) s) t') as (d & -> & Hd').
    exists d. split; [done|]. destruct d; [done|by apply drives_app..].
Qed.

Lemma rollout_seq_spec cfg s seq step_m :
  ∃ o, rollout_seq cos sin p cost cfg s seq step_m = Ok o ∧
    ∀ c h, o = Some (c, h) → drives p cost 0 (seq_trace cfg step_m seq s) h.
Proof.
  unfold rollout_seq. destruct (drive_seq_spec cfg step_m seq s f0) as (d & -> & Hd). rewrite ok_bind.
  destruct d as [|t|[[x y] yaw] t].
  - eexists. split; [done|done].
  - eexists. split; [done|]. by intros ? ? [= <- <-].
  - destruct (v_hat_ok p x y yaw) as [[c|] ->]; cbn; eexists; (split; [done|]); [|done]. by intros ? ? [= <- <-].
Qed.

(** A sample of a base sequence: as long, within the limits, and valued as its
    motion is. *)
Record sample_ok (cfg : MppiConfig) (h : nat) (s : f64 * f64 * f64) (step_m : f64) (sa : Sample) : Prop := {
  so_seq : length (sa_seq sa) = h;
  so_eps : length (sa_eps sa) = h;
  so_limits : Forall (in_limits cfg) (sa_seq sa);
  so_eval c hit pen : sa_eval sa = Some (c, hit, pen) →
    rollout_seq cos sin p cost cfg s (sa_seq sa) step_m = Ok (Some (c, hit))
}.

Lemma draw_sample_ok cfg a b base s step_m i rng :
  limits_ok cfg → rng_ok rng →
  ∃ sa rng', draw_sample cos sin ln p cost cfg a b base s step_m i rng = Ok (sa, rng') ∧
    sample_ok cfg (length base) s step_m sa ∧ rng_ok rng'.
Proof.
  intros Hl Hr. unfold draw_sample. destruct (perturbation _ _ _ _ _ _ _ _ _) as [[es pen] rng'] eqn:E.
  apply perturbation_ok in E as [He Hr']; [|done].
  destruct (zip_res_ok (fun u e => clamp_command cfg (fadd u.1 e.1) (fadd u.2 e.2)) (in_limits cfg) base es) as (seq & -> & Hs & Hlim).
  { intros u e. by apply clamp_command_ok. }
  { done. }
  rewrite ok_bind. destruct (rollout_seq_spec cfg s seq step_m) as (o & Eo & _). rewrite Eo, ok_bind.
  eexists _, rng'. split; [done|]. split; [|done]. split; cbn; try done.
  intros c hit q. destruct o as [[c' h']|]; [|done]. by intros [= -> -> _].
Qed.

Lemma draw_samples_ok cfg a b base s step_m rng :
  limits_ok cfg → rng_ok rng →
  ∃ samples rng', draw_samples cos sin ln p cost cfg a b base s step_m rng = Ok (samples, rng') ∧
    Forall (sample_ok cfg (length base) s step_m) samples ∧ rng_ok rng' ∧ samples ≠ [].
Proof.
  intros Hl Hr. unfold draw_samples.
  destruct (for_range_inv (fun i x => Forall (sample_ok cfg (length base) s step_m) x.1 ∧ rng_ok x.2 ∧ zlen x.1 = i) 0 (Z.max (mp_n_samples cfg) 2)
    (fun i '(samples, rng) =>
      r ← draw_sample cos sin ln p cost cfg a b base s step_m i rng;
      let '(sample, rng) := r in Ok (samples ++ [sample], rng)) ([], rng)) as ([samples rng'] & -> & H1 & H2 & H3).
  - lia.
  - by split_and!; [constructor| |].
  - intros i [ss r] _ (Hss & Hr' & Hn). cbn [fst snd] in *. destruct (draw_sample_ok cfg a b base s step_m i r Hl Hr') as (sa & r2 & -> & ? & ?).
    rewrite ok_bind. eexists. split; [done|]. cbn [fst snd]. split_and!; [by apply Forall_app_2; [|constructor]|done|].
    rewrite zlen_app. unfold zlen in *. cbn. lia.
  - exists samples, rng'. split; [done|]. split_and!; [done..|]. cbn [fst] in H3. intros ->. unfold zlen in H3. cbn in H3. lia.
Qed.

(** *** The average *)

(** An accepted sample is in a pool with its value. *)
Definition pooled (cfg : MppiConfig) (h : nat) (s : f64 * f64 * f64) (step_m : f64) (e : Sample * (f64 * bool * f64)) : Prop :=
  sample_ok cfg h s step_m e.1 ∧ sa_eval e.1 = Some e.2.

Lemma accepted_pooled cfg h s step_m samples :
  Forall (sample_ok cfg h s step_m) samples → Forall (pooled cfg h s step_m) (accepted samples).
Proof.
  intros Hs. apply list.Forall_forall. intros e He. apply list_elem_of_omap in He as (sa & Hin & He).
  destruct (sa_eval sa) as [v|] eqn:Ev; [|done]. injection He as <-. split; [|done]. by apply (proj1 (list.Forall_forall _ _) Hs).
Qed.

Lemma sample_pool_spec cfg h s step_m evals :
  Forall (pooled cfg h s step_m) evals → evals ≠ [] →
  Forall (pooled cfg h s step_m) (sample_pool evals) ∧ sample_pool evals ≠ [].
Proof.
  intros Hp Hne. split.
  - rewrite list.Forall_forall in Hp |- *. intros e He. apply Hp. apply list_elem_of_In in He. apply List.filter_In in He as [He _].
    by apply list_elem_of_In.
  - intros E. assert (∃ e, e ∈ evals ∧ Bool.eqb (hits e) (existsb hits evals) = true) as (e & He & Hb).
    { destruct (existsb hits evals) eqn:Ex.
      - apply existsb_exists in Ex as (e & He & Hh). exists e. rewrite Hh. split; [by apply list_elem_of_In|done].
      - destruct evals as [|e evals]; [done|]. exists e. split; [by left|]. cbn [existsb] in Ex.
        apply orb_false_iff in Ex as [-> _]. done. }
    assert (e ∈ sample_pool evals) as Hin; [|rewrite E in Hin; by apply elem_of_nil in Hin].
    apply list_elem_of_In. apply List.filter_In. split; [by apply list_elem_of_In|done].
Qed.

Lemma weigh_length cfg pool h :
  (∀ e, e ∈ pool → length (sa_eps e.1) = h) → length (weigh exp cfg pool h).1 = h.
Proof.
  intros Hp. unfold weigh. set (step := fun '(du, wsum) e => _).
  assert (∀ l acc, (∀ e, e ∈ l → length (sa_eps e.1) = h) → length acc.1 = h → length (foldl step acc l).1 = h) as Hf.
  { intros l. induction l as [|e l IH]; intros [du ws] He Hl; [done|]. cbn [foldl]. apply IH; [intros; apply He; by right|].
    cbn [step fst]. cbn [fst] in Hl. rewrite length_zip_with, (He e) by by left. lia. }
  apply (Hf pool (replicate h (f0, f0), f0)); [done|]. apply length_replicate.
Qed.

Lemma averaged_ok cfg base s step_m pool :
  limits_ok cfg → Forall (pooled cfg (length base) s step_m) pool →
  ∃ nominal, averaged exp cfg base pool = Ok nominal ∧ length nominal = length base ∧ Forall (in_limits cfg) nominal.
Proof.
  intros Hl Hp. unfold averaged.
  pose proof (weigh_length cfg pool (length base)) as Hw. destruct (weigh exp cfg pool (length base)) as [du ws].
  destruct (zip_res_ok (fun u d => clamp_command cfg (fadd u.1 (fdiv d.1 ws)) (fadd u.2 (fdiv d.2 ws))) (in_limits cfg) base du)
    as (nom & -> & Hn & Hlim).
  { intros u e. by apply clamp_command_ok. }
  { apply Hw. intros e He. by apply (proj1 (list.Forall_forall _ _) Hp e He). }
  rewrite ok_bind. destruct (_ >=? 2); [|by exists nom].
  destruct (map_res_spec (smooth_at cfg nom) (fun _ u => in_limits cfg u) (seqZ 0 (zlen nom))) as (ys & -> & Hy & HQ).
  { intros j _. by apply clamp_command_ok. }
  exists ys. split; [done|]. split.
  - unfold zlen in *. rewrite length_seqZ in Hy. lia.
  - apply list.Forall_forall. intros u Hu. apply elem_of_zget in Hu as [i Hi]. pose proof (zget_Some_lt _ _ _ Hi) as Hlt.
    destruct (zget_lt (seqZ 0 (zlen nom)) i ltac:(lia)) as [j Hj]. destruct (HQ i j Hj) as (u' & Hu' & HQ'). congruence.
Qed.

(** The fallback returns one of the pool, unless a value is not a number. *)
Lemma min_by_cost_spec best pool :
  (∃ e, min_by_cost best pool = Ok e ∧ (e = best ∨ e ∈ pool)) ∨
  (min_by_cost best pool = Panic ∧ ∃ e, (e = best ∨ e ∈ pool) ∧ is_nan (sample_cost e) = true).
Proof.
  revert best. induction pool as [|e pool IH]; intros best; [left; by eauto|]. cbn [min_by_cost].
  destruct (is_nan (sample_cost best)) eqn:Eb; [right; split; [done|]; by eauto|].
  destruct (is_nan (sample_cost e)) eqn:Ee; [right; split; [done|]; exists e; split; [right; by left|done]|].
  cbn [orb]. set (b := if flt _ _ then e else best). assert (b = best ∨ b = e) as Hb by (unfold b; destruct (flt _ _); auto).
  destruct (IH b) as [(r & Er & Hr)|(Er & r & Hr & Hn)].
  - left. exists r. split; [done|]. destruct Hr as [->|?]; [destruct Hb as [->| ->]; [by left|right; by left]|right; by right].
  - right. split; [done|]. exists r. split; [|done].
    destruct Hr as [->|?]; [destruct Hb as [->| ->]; [by left|right; by left]|right; by right].
Qed.

(** A value of a sequence that is not a number. *)
Definition nan_value (cfg : MppiConfig) (s : f64 * f64 * f64) (step_m : f64) : Prop :=
  ∃ seq c hit, rollout_seq cos sin p cost cfg s seq step_m = Ok (Some (c, hit)) ∧ is_nan c = true.

Lemma choose_sequence_spec cfg h s step_m nominal pool :
  Forall (pooled cfg h s step_m) pool → pool ≠ [] → length nominal = h → Forall (in_limits cfg) nominal →
  (∃ seq c hit, choose_sequence cos sin p cost cfg s step_m nominal pool = Ok (seq, c, hit) ∧
     length seq = h ∧ Forall (in_limits cfg) seq ∧
     rollout_seq cos sin p cost cfg s seq step_m = Ok (Some (c, hit))) ∨
  (choose_sequence cos sin p cost cfg s step_m nominal pool = Panic ∧ nan_value cfg s step_m).
Proof.
  intros Hp Hne Hn Hl. unfold choose_sequence. destruct (rollout_seq_spec cfg s nominal step_m) as (o & Eo & _).
  rewrite Eo, ok_bind. destruct o as [[c hit]|]; [left; exists nominal, c, hit; by split_and!|].
  destruct pool as [|e pool]; [done|].
  assert (∀ e', e' = e ∨ e' ∈ pool → pooled cfg h s step_m e') as Hall.
  { intros e' He. apply (proj1 (list.Forall_forall _ _) Hp). destruct He as [->|?]; [by left|by right]. }
  assert (∀ e', pooled cfg h s step_m e' →
    rollout_seq cos sin p cost cfg s (sa_seq e'.1) step_m = Ok (Some (sample_cost e', hits e'))) as Hroll.
  { intros [sa [[c hit] pen]] [Hs E]. cbn in E. by apply (so_eval _ _ _ _ _ Hs) in E. }
  destruct (min_by_cost_spec e pool) as [(r & -> & Hr%Hall)|(-> & r & Hr%Hall & Hnan)]; [left|right].
  - rewrite ok_bind. exists (sa_seq r.1), (sample_cost r), (hits r). split; [done|].
    split; [apply Hr|]. split; [apply Hr|]. by apply Hroll.
  - split; [done|]. exists (sa_seq r.1), (sample_cost r), (hits r). split; [by apply Hroll|done].
Qed.

Lemma warm_start_length h nominal : 0 ≤ h → zlen (warm_start h nominal) = h.
Proof.
  intros Hh. unfold warm_start, zlen. destruct (Z.eqb_spec (Z.of_nat (length nominal)) h) as [E|E].
  - rewrite length_app, length_drop, length_take. lia.
  - rewrite length_app, length_take, length_replicate. lia.
Qed.

(** ** The decision *)

Definition pose_step (cfg : MppiConfig) : f64 := collide_step p (mp_collide_step_m cfg).

(** What the answer says: the sequence handed on was driven through. *)
Definition mppi_says (cfg : MppiConfig) (state : MppiState) (s : f64 * f64 * f64) (state' : MppiState) (o : option DwaChoice) : Prop :=
  match o with
  | Some c => on_free p cost s ∧ zlen (ms_nominal state') = mppi_steps cfg ∧
      zget (ms_nominal state') 0 = Some (dc_v c, dc_w_deg c) ∧ Forall (in_limits cfg) (ms_nominal state') ∧
      rollout_seq cos sin p cost cfg s (ms_nominal state') (pose_step cfg) = Ok (Some (dc_cost c, dc_hits_goal c)) ∧
      drives p cost 0 (seq_trace cfg (pose_step cfg) (ms_nominal state') s) (dc_hits_goal c)
  | None => (¬ on_free p cost s ∧ state' = state) ∨
      (ms_nominal state' = warm_start (mppi_steps cfg) (ms_nominal state) ∧
       ∃ a b samples, draw_samples cos sin ln p cost cfg a b (ms_nominal state') s (pose_step cfg) (ms_rng state)
           = Ok (samples, ms_rng state') ∧ samples ≠ [] ∧ ∀ sa, sa ∈ samples → sa_eval sa = None)
  end.

Lemma mppi_decide_spec cfg state x y yaw :
  limits_ok cfg → 0 < mppi_steps cfg → rng_ok (ms_rng state) →
  (∃ state' o, mppi_decide cos sin ln exp p cost cfg state x y yaw = Ok (state', o) ∧ rng_ok (ms_rng state') ∧
     mppi_says cfg state (x, y, yaw) state' o) ∨
  (mppi_decide cos sin ln exp p cost cfg state x y yaw = Panic ∧ nan_value cfg (x, y, yaw) (pose_step cfg)).
Proof.
  intros Hl Hh Hr. unfold mppi_decide, mppi_says, on_free. cbn [fst snd]. destruct (xy_cell p x y) as [ix iy]. cbn [fst snd].
  destruct (cl_free (k := cost) ix iy) as [f ->]. rewrite ok_bind.
  destruct f; [|left; exists state, None; split; [done|]; split; [done|]; by left].
  cbn [negb]. destruct (fclamp_ok (mp_alpha cfg) f0 f0_999 eq_refl) as (a & -> & _). rewrite ok_bind.
  set (base := warm_start _ _). set (b := fsqrt _). fold (pose_step cfg).
  pose proof (warm_start_length (mppi_steps cfg) (ms_nominal state) ltac:(lia)) as Hb. fold base in Hb.
  destruct (draw_samples_ok cfg a b base (x, y, yaw) (pose_step cfg) (ms_rng state) Hl Hr) as (ss & rng' & Es & Hss & Hr' & Hne).
  rewrite Es, ok_bind. pose proof (accepted_pooled _ _ _ _ _ Hss) as Hacc.
  destruct (Z.eqb_spec (zlen (accepted ss)) 0) as [E0|E0].
  { left. eexists _, None. split; [done|]. split; [done|]. right. split; [done|]. exists a, b, ss. split; [done|]. split; [done|].
    intros sa Hin. destruct (sa_eval sa) as [v|] eqn:Ev; [|done]. exfalso.
    assert ((sa, v) ∈ accepted ss) as He by (apply list_elem_of_omap; exists sa; by rewrite Ev).
    destruct (accepted ss); [by apply elem_of_nil in He|]. unfold zlen in E0. cbn in E0. lia. }
  destruct (sample_pool_spec _ _ _ _ _ Hacc) as [Hpool Hpne]; [by intros Hnil; rewrite Hnil in E0|].
  destruct (averaged_ok cfg base _ _ _ Hl Hpool) as (nom & -> & Hn & Hnl). rewrite ok_bind.
  destruct (choose_sequence_spec cfg (length base) _ _ nom _ Hpool Hpne Hn Hnl) as [(seq & c & hit & -> & Hsl & Hlim & Hroll)|[-> Hnan]];
    [left|by right].
  rewrite ok_bind. destruct (zget_lt seq 0) as [[v w] Hu]; [unfold zlen in *; lia|]. pose proof Hu as Hu'.
  apply vget_ok in Hu' as ->. rewrite ok_bind. eexists _, _. split; [done|]. split; [done|]. cbn.
  destruct (rollout_seq_spec cfg (x, y, yaw) seq (pose_step cfg)) as (o & Eo & Ho). rewrite Hroll in Eo. injection Eo as <-.
  split_and!; [done|unfold zlen in *; lia|done..|by apply (Ho c hit)].
Qed.
End mppi.

(** ** The reflex of a lost robot *)

#[local] Opaque GO_CLEAR_M CREEP_CLEAR_M ALIGN_RAD CREEP_FW ROT_DEG flt.

Section creep.
Context (scan : LaserScan) (max_range : f64) (Hn : 0 < zlen (ls_ranges scan)) (Hmax : is_nan max_range = false).
Abbreviation beams := (beam scan max_range).
Abbreviation opens := (open_at scan max_range).

Lemma beam_ok i : ∃ r, beams i = Ok r ∧ is_nan r = false.
Proof.
  unfold beam. destruct (zget_lt (ls_ranges scan) (i mod zlen (ls_ranges scan))) as [v Hv]; [apply Z.mod_pos_bound; lia|].
  apply vget_ok in Hv as ->. rewrite ok_bind. eexists. split; [done|]. destruct (is_finite v) eqn:Ef; [|done].
  destruct (flt f0 v); [|done]. cbn [andb]. unfold fmin. destruct (is_nan v) eqn:Ev; [done|]. rewrite Hmax. by destruct (flt _ _).
Qed.

(** A cone that is wider open than [c] is so at each of its beams. *)
Lemma open_at_spec b :
  ∃ o, opens b = Ok o ∧ is_nan o = false ∧
    ∀ c, flt c o = true → ∀ d, - cone scan ≤ d ≤ cone scan → ∃ r, beams (as_i64 (beam_of scan b + d)) = Ok r ∧ flt c r = true.
Proof.
  unfold open_at, for_incl. destruct (Z.leb_spec (- cone scan) (cone scan + 1)).
  - destruct (for_range_inv (fun i acc => is_nan acc = false ∧ ∀ c, flt c acc = true → ∀ d, - cone scan ≤ d < i →
        ∃ r, beams (as_i64 (beam_of scan b + d)) = Ok r ∧ flt c r = true) (- cone scan) (cone scan + 1)
      (fun d acc => r ← beams (as_i64 (beam_of scan b + d)); Ok (fmin acc r)) INFINITY) as (o & -> & Ho & Hc); [lia| | |].
    + split; [done|]. intros. lia.
    + intros i acc _ [Ha Hacc]. destruct (beam_ok (as_i64 (beam_of scan b + i))) as (r & Er & Hr). rewrite Er, ok_bind.
      eexists. split; [done|]. unfold fmin. rewrite Ha, Hr. split; [by destruct (flt r acc)|]. intros c Hc d Hd.
      assert (flt c acc = true ∧ flt c r = true) as [H1 H2].
      { destruct (flt r acc) eqn:E; [split; [by eapply flt_trans|done]|]. split; [done|by eapply flt_le_trans]. }
      destruct (decide (d = i)) as [->|]; [by exists r|]. apply Hacc; [done|lia].
    + exists o. split; [done|]. split; [done|]. intros c Hlt d Hd. apply Hc; [done|lia].
  - rewrite for_range_empty by lia. exists INFINITY. split; [done|]. split; [done|]. intros. lia.
Qed.

#[local] Opaque open_at.

(** *** The heading to make for *)

Definition heading (i : Z) : f64 := wrap_rad (fadd (ls_angle_min scan) (fmul (f64_of_Z i) (beam_inc scan))).

(** A heading whose cone is clear. *)
Definition clear_heading (i : Z) : Prop := ∃ o, opens (heading i) = Ok o ∧ flt GO_CLEAR_M o = true.

(** [b] is the nearest of the clear headings among the ones that satisfy [P]. *)
Definition nearest_clear (P : Z → Prop) (b : option f64) : Prop :=
  match b with
  | Some b => (∃ i, P i ∧ clear_heading i ∧ b = heading i) ∧ ∀ i, P i → clear_heading i → flt (fabs (heading i)) (fabs b) = false
  | None => ∀ i, P i → ¬ clear_heading i
  end.

Lemma nearest_clear_ext (P Q : Z → Prop) b : (∀ i, P i ↔ Q i) → nearest_clear P b → nearest_clear Q b.
Proof. intros HPQ. destruct b; cbn; by setoid_rewrite HPQ. Qed.

Lemma nearest_clear_add (P : Z → Prop) clear i o :
  opens (heading i) = Ok o → nearest_clear P clear →
  nearest_clear (fun j => P j ∨ j = i)
    (if flt GO_CLEAR_M o && match clear with Some b => flt (fabs (heading i)) (fabs b) | None => true end
     then Some (heading i) else clear).
Proof.
  intros Eo Hc. destruct (flt GO_CLEAR_M o) eqn:Eg; cbn [andb].
  - assert (clear_heading i) as Hi by exact (ex_intro _ o (conj Eo Eg)). destruct clear as [b|]; [destruct (flt _ (fabs b)) eqn:El|]; cbn.
    + split; [exists i; by auto|]. destruct Hc as [_ Hc]. intros j [Hj| ->] Hcj; [|apply flt_irrefl].
      apply not_true_iff_false. intros Hlt. pose proof (flt_trans _ _ _ Hlt El) as H. by rewrite (Hc j Hj Hcj) in H.
    + destruct Hc as [(j & Hj & Hcj & ->) Hc]. split; [exists j; by auto|]. intros j' [Hj'| ->] Hcj'; [exact (Hc j' Hj' Hcj')|exact El].
    + split; [exists i; by auto|]. intros j [Hj| ->] Hcj; [destruct (Hc j Hj Hcj)|apply flt_irrefl].
  - assert (¬ clear_heading i) as Hi by (intros (o' & Eo' & Ho'); congruence). destruct clear as [b|]; cbn.
    + destruct Hc as [(j & Hj & Hcj & ->) Hc]. split; [exists j; by auto|]. intros j' [Hj'| ->] Hcj'; [exact (Hc j' Hj' Hcj')|destruct (Hi Hcj')].
    + intros j [Hj| ->]; [by apply Hc|done].
Qed.

(** Every [step]-th beam, the first [k] of them. *)
Definition scanned (step : Z) (i : Z) : Prop := ∃ j, 0 ≤ j ∧ i = step * j ∧ i < zlen (ls_ranges scan).
Definition scanned_to (step k i : Z) : Prop := ∃ j, 0 ≤ j < k ∧ i = step * j ∧ i < zlen (ls_ranges scan).

Lemma creep_headings_spec fuel step k clear any :
  0 < step → 0 ≤ k → zlen (ls_ranges scan) - step * k ≤ Z.of_nat fuel →
  nearest_clear (scanned_to step k) clear →
  ∃ clear' any', creep_headings scan max_range fuel step (step * k) clear any = Ok (clear', any') ∧
    nearest_clear (scanned step) clear'.
Proof.
  intros Hs. revert k clear any. induction fuel as [|fuel IH]; intros k clear any Hk Hf Hc; cbn [creep_headings];
    destruct (Z.ltb_spec (step * k) (zlen (ls_ranges scan))) as [Hlt|Hge]; try lia.
  2: {
    fold (heading (step * k)). destruct (open_at_spec (heading (step * k))) as (o & Eo & _). rewrite Eo, ok_bind.
    replace (step * k + step) with (step * (k + 1)) by lia. apply IH; [lia|lia|].
    eapply nearest_clear_ext; [|by apply (nearest_clear_add _ _ _ _ Eo Hc)]. intros i. split.
    - intros [(j & ? & ? & ?)| ->]; [exists j|exists k]; lia.
    - intros (j & ? & -> & ?). destruct (decide (j = k)) as [->|]; [by right|left; exists j; lia]. }
  all: eexists _, _; split; [done|]; eapply nearest_clear_ext; [|exact Hc]; intros i; split; intros (j & ? & -> & ?); exists j; nia.
Qed.

(** The heading a lost robot makes for. *)
Definition creep_heading (preferred_rad : option f64) (target : f64) : Prop :=
  (∃ b o, preferred_rad = Some b ∧ opens b = Ok o ∧ flt GO_CLEAR_M o = true ∧ target = wrap_rad b) ∨
  ((∀ b o, preferred_rad = Some b → opens b = Ok o → flt GO_CLEAR_M o = false) ∧
   (nearest_clear (scanned (Z.max (cone scan) 1)) (Some target) ∨ nearest_clear (scanned (Z.max (cone scan) 1)) None)).

Lemma creep_target_spec preferred_rad :
  ∃ target, creep_target scan max_range preferred_rad = Ok target ∧ creep_heading preferred_rad target.
Proof.
  unfold creep_target, creep_heading.
  assert (∃ go, (match preferred_rad with
      | Some b => o ← opens b; Ok (if flt GO_CLEAR_M o then Some (wrap_rad b) else None)
      | None => Ok None
      end) = Ok go ∧ match go with
        | Some t => ∃ b o, preferred_rad = Some b ∧ opens b = Ok o ∧ flt GO_CLEAR_M o = true ∧ t = wrap_rad b
        | None => ∀ b o, preferred_rad = Some b → opens b = Ok o → flt GO_CLEAR_M o = false
        end) as (go & -> & Hgo).
  { destruct preferred_rad as [b|]; [|by exists None]. destruct (open_at_spec b) as (o & Eo & _). rewrite Eo, ok_bind.
    eexists. split; [done|]. destruct (flt GO_CLEAR_M o) eqn:Eg.
    - exists b, o. exact (conj eq_refl (conj Eo (conj Eg eq_refl))).
    - intros b' o' [= <-] Eo'. rewrite Eo' in Eo. injection Eo as ->. exact Eg. }
  rewrite ok_bind. destruct go as [t|]; [exists t; by auto|].
  destruct (creep_headings_spec (Z.to_nat (zlen (ls_ranges scan))) (Z.max (cone scan) 1) 0 None (f0, fneg INFINITY))
    as (clear & any & E & Hc); [lia|lia|lia|intros i (j & ? & _); lia|]. rewrite Z.mul_0_r in E. rewrite E, ok_bind.
  eexists. split; [done|]. right. split; [done|]. cbn [fst snd]. destruct clear as [b|]; [by left|by right].
Qed.

(** Every beam of the front cone reads more than [c]. *)
Definition front_clear (c : f64) : Prop :=
  ∀ d, - cone scan ≤ d ≤ cone scan → ∃ r, beams (as_i64 (beam_of scan f0 + d)) = Ok r ∧ flt c r = true.

(** The command: full speed or a crawl ahead, or a turn. *)
Definition turns (last_rot_deg : f64) (u : f64 * f64) (dir : f64) : Prop :=
  u = (f0, fmul ROT_DEG (commit_turn last_rot_deg dir)).

Definition creep_says (preferred_rad : option f64) (last_rot_deg : f64) (u : f64 * f64) : Prop :=
  ∃ target, creep_heading preferred_rad target ∧
    if flt ALIGN_RAD (fabs target)
    then turns last_rot_deg u (if flt f2 (fabs target) then f1 else fsignum target)
    else (u = (f0_3, f0) ∧ front_clear GO_CLEAR_M) ∨ (u = (CREEP_FW, f0) ∧ front_clear CREEP_CLEAR_M) ∨
         turns last_rot_deg u f1.

Lemma lost_creep_says preferred_rad last_rot_deg :
  ∃ u, lost_creep scan max_range preferred_rad last_rot_deg = Ok u ∧ creep_says preferred_rad last_rot_deg u.
Proof.
  unfold lost_creep, creep_says. destruct (Z.eqb_spec (zlen (ls_ranges scan)) 0); [lia|].
  destruct (creep_target_spec preferred_rad) as (t & -> & Ht). rewrite ok_bind.
  destruct (flt ALIGN_RAD (fabs t)) eqn:Ea; [eexists; split; [done|]; exists t; by rewrite Ea|].
  destruct (open_at_spec f0) as (o & Eo & _ & Hc). rewrite Eo, ok_bind. eexists. split; [done|]. exists t. rewrite Ea.
  split; [done|]. destruct (flt GO_CLEAR_M o) eqn:Eg; [left; split; [done|exact (Hc _ Eg)]|].
  destruct (flt CREEP_CLEAR_M o) eqn:Ec; [right; left; split; [done|exact (Hc _ Ec)]|]. by right; right.
Qed.
End creep.

(** ** Properties *)

(** C22: a lost robot creeps safely.  Whatever the scan, the preferred heading and
    the last command, the reflex answers; on an empty scan it stands still.  Else it
    makes for the preferred heading if its cone is clear, or for the nearest one
    whose cone is clear among the scanned headings (for some other one only if none
    is clear).  It drives ahead only when every beam of the front cone reads more
    than 0.6 m, at full speed only above 1.2 m; otherwise it turns on the spot, and a
    turn that has begun keeps its direction. *)
Theorem lost_creep_safe scan max_range preferred_rad last_rot_deg :
  is_nan max_range = false →
  ∃ v w, lost_creep scan max_range preferred_rad last_rot_deg = Ok (v, w) ∧
    (ls_ranges scan = [] → v = f0 ∧ w = f0) ∧
    (ls_ranges scan ≠ [] → creep_says scan max_range preferred_rad last_rot_deg (v, w) ∧
       (v = f0 ∨ v = CREEP_FW ∨ v = f0_3) ∧
       (v ≠ f0 → w = f0 ∧ front_clear scan max_range CREEP_CLEAR_M) ∧
       (v = f0_3 → front_clear scan max_range GO_CLEAR_M) ∧
       (v = f0 → feq last_rot_deg f0 = false → w = fmul ROT_DEG (fsignum last_rot_deg))).
Proof.
  intros Hmax. destruct (ls_ranges scan) as [|r rs] eqn:Er.
  { exists f0, f0. split; [unfold lost_creep; by rewrite Er|]. split; [done|done]. }
  assert (0 < zlen (ls_ranges scan)) as Hn by (rewrite Er; unfold zlen; cbn; lia).
  destruct (lost_creep_says scan max_range Hn Hmax preferred_rad last_rot_deg) as ([v w] & E & Hs).
  exists v, w. split; [done|]. split; [done|]. intros _. split; [done|]. destruct Hs as (t & _ & Ht).
  assert (∀ dir, turns last_rot_deg (v, w) dir → v = f0 ∧ (feq last_rot_deg f0 = false → w = fmul ROT_DEG (fsignum last_rot_deg))) as Hturn.
  { intros dir [= -> ->]. split; [done|]. intros Hl. unfold commit_turn. by rewrite Hl. }
  destruct (flt ALIGN_RAD (fabs t)); [apply Hturn in Ht as [-> ?]; split_and!; auto; done|].
  destruct Ht as [[[= -> ->] Hc]|[[[= -> ->] Hc]|Ht]].
  - split; [by auto|]. split; [|done]. intros _. split; [done|]. intros d Hd. destruct (Hc d Hd) as (q & Eq & Hq).
    exists q. split; [done|]. by apply (flt_trans _ GO_CLEAR_M).
  - split; [right; left; reflexivity|]. split; [intros _; exact (conj eq_refl Hc)|].
    split; intros Ev; vm_compute in Ev; discriminate Ev.
  - apply Hturn in Ht as [-> ?]. split_and!; auto; done.
Qed.

(** C21: the sampling controller hands on a plan it has driven through.  Whatever the
    random numbers and however the samples average, a command that is answered opens
    a sequence within the limits, as long as the horizon, whose simulated motion
    stays on free cells to its end or up to the goal, and whose value is the one
    reported; without a command the robot is not on free ground or every sample was
    rejected.  The state of the random numbers stays alive.  The one panic is the
    comparison of values of which one is not a number. *)
Theorem mppi_decide_safe {V K} `{PolicyView V} `{CostView K} (cos sin ln exp : f64 → f64) (p : V) (cost : K) cfg state x y yaw :
  ViewLaws p → CostLaws cost → limits_ok cfg → 0 < mppi_steps cfg → rng_ok (ms_rng state) →
  (∃ state' o, mppi_decide cos sin ln exp p cost cfg state x y yaw = Ok (state', o) ∧ rng_ok (ms_rng state') ∧
     mppi_says cos sin ln p cost cfg state (x, y, yaw) state' o) ∨
  (mppi_decide cos sin ln exp p cost cfg state x y yaw = Panic ∧
     nan_value cos sin p cost cfg (x, y, yaw) (pose_step p cfg)).
Proof. intros Hp Hk. by apply mppi_decide_spec. Qed.

(** The command of the last tick comes back at the end of the warm start: the tail
    of the old sequence is not repeated. *)
Lemma warm_start_tail h u us : zlen (u :: us) = h → warm_start h (u :: us) = us ++ [u].
Proof. intros <-. unfold warm_start. by rewrite Z.eqb_refl. Qed.

(** ** Samples *)

Definition open_scan : LaserScan :=
  {| ls_angle_min := f0; ls_angle_increment := fdiv PI (f64_of_Z 4); ls_ranges := replicate 8 (f64_of_Z 5) |}.

Lemma lost_creep_safe_witness :
  ∃ v w, lost_creep open_scan (f64_of_Z 60) None f0 = Ok (v, w) ∧ v = f0_3 ∧ w = f0.
Proof.
  destruct (lost_creep_safe open_scan (f64_of_Z 60) None f0 eq_refl) as (v & w & E & _ & Hs).
  exists v, w. split; [exact E|]. assert (lost_creep open_scan (f64_of_Z 60) None f0 = Ok (f0_3, f0)) as E' by (vm_compute; reflexivity).
  rewrite E' in E. injection E as <- <-. split; [reflexivity|]. exact (proj1 (proj1 (proj2 (proj2 (Hs ltac:(discriminate)))) ltac:(discriminate))).
Defined.

(** A robot that may roll at up to one cell in a step of a second. *)
Definition sample_mppi : MppiConfig :=
  {| mp_v_min := fneg f1; mp_v_max := f1; mp_w_max_deg := f1; mp_n_samples := 2; mp_horizon_s := f1; mp_tick_s := f1;
     mp_lambda := f1; mp_sigma_v := f1; mp_sigma_w_deg := f0; mp_alpha := f0_5; mp_gamma := f0_1;
     mp_collide_step_m := f1; mp_seed := 1 |}.

Lemma mppi_decide_safe_witness :
  ∃ state' o, mppi_decide (fun _ => f1) (fun _ => f0) (fun _ => fneg f1) (fun _ => f1) sample_path sample_path sample_mppi
    (mppi_new 1) f0_5 f0_5 f0 = Ok (state', o) ∧ rng_ok (ms_rng state') ∧
    mppi_says (fun _ => f1) (fun _ => f0) (fun _ => fneg f1) sample_path sample_path sample_mppi (mppi_new 1)
      (f0_5, f0_5, f0) state' o.
Proof.
  destruct (mppi_decide_safe (fun _ => f1) (fun _ => f0) (fun _ => fneg f1) (fun _ => f1) sample_path sample_path sample_mppi
    (mppi_new 1) f0_5 f0_5 f0 (vi_view_laws _ sample_path_wf) (vi_cost_laws _ sample_path_wf)) as [H|[E _]].
  - split; vm_compute; reflexivity.
  - vm_compute. reflexivity.
  - apply mppi_new_ok. unfold in_u64. lia.
  - exact H.
  - exfalso. vm_compute in E. discriminate E.
Defined.
