(* ===== verification/Follow.v ===== *)
(** * The decision of a control tick (vi_planner/src/core/follow.rs, core/mod.rs)

    [decide] and [decide_qmdp] of the core, and the controllers they delegate to:
    the greedy one, and the two that ask Ctrl for a command and fall back on it.  The greedy decision is characterised on every branch, and
    the images of the field that the node publishes are here as well. *)

From Stdlib Require Import ZArith Lia.
From stdpp Require Import base gmap strings list numbers.
From S2P Require Import Prelude Floats Model Bellman Bridge LocalPlanner Planner PlannerSpec Solve Core Ctrl CtrlSpec.

(** [enum Decision] *)
Inductive TickDecision : Type :=
  | TickGoal
  | TickAction (id : option Z) (fw rot_deg : f64)
  | TickNone.

(** [iter().find(|a| a.id == id)] *)
Fixpoint find_action (id : Z) (acts : list Action) : option Action :=
  match acts with
  | [] => None
  | a :: acts => if a_id a =? id then Some a else find_action id acts
  end.

(** [action_at] of core/mod.rs *)
Definition tick_action_at (vi : ValueIterator) (ix iy it : Z) : res (option TickDecision) :=
  id ← optimal_action_at vi ix iy it;
  if id <? 0 then Ok None else
  Ok ((fun a => TickAction (Some (as_u64 id)) (a_delta_fw a) (a_delta_rot a)) <$> find_action id (vi_actions vi)).

(** [is_final] of core/mod.rs *)
Definition tick_is_final (vi : ValueIterator) (ix iy it : Z) : res bool :=
  if in_map_area vi ix iy && (it >=? 0) && (it <? vi_cell_num_t vi)
  then s ← vi_state vi ix iy it; Ok (s_final_state s) else Ok false.

(** What a cell offers to a robot that borrows from it. *)
Definition tick_candidate (vi : ValueIterator) (ix iy it : Z) : res (option TickDecision) :=
  fin ← tick_is_final vi ix iy it;
  if (fin : bool) then Ok (Some TickGoal) else tick_action_at vi ix iy it.

Definition borrow_step (vi : ValueIterator) (ix iy it dy dx : Z) (best : option (Z * TickDecision))
    : res (option (Z * TickDecision)) :=
  if (dx =? 0) && (dy =? 0) then Ok best else
  cand ← tick_candidate vi (i32_add ix dx) (i32_add iy dy) it;
  Ok (match cand with
      | None => best
      | Some d =>
          let d2 := dx * dx + dy * dy in
          if match best with Some (bd, _) => d2 <? bd | None => true end then Some (d2, d) else best
      end).

(** [GreedyController::decide] *)
Definition greedy_decide (cfg : PlanConfig) (vi : ValueIterator) (pose : PoseView) : res TickDecision :=
  c ← pose_to_cell vi (pv_x pose) (pv_y pose) (pv_yaw_rad pose);
  let '(ix, iy, it) := c in
  fin ← tick_is_final vi ix iy it;
  if (fin : bool) then Ok TickGoal else
  own ← tick_action_at vi ix iy it;
  match own with
  | Some d => Ok d
  | None =>
      let tol := pc_action_tolerance_cells cfg in
      best ← for_incl (i32_sub 0 tol) tol (fun dy best =>
        for_incl (i32_sub 0 tol) tol (borrow_step vi ix iy it dy) best) None;
      Ok (match best with Some (_, d) => d | None => TickNone end)
  end.

(** ** The controllers *)

(** [Box<dyn FollowController>]; [MppiController] keeps its state in a lock that
    only a tick takes. *)
Inductive FollowController : Type :=
  | GreedyController
  | DwaController (dwa : DwaConfig)
  | MppiController (mppi : MppiConfig) (state : MppiState).

Definition milli : f64 := fdiv f1 (f64_of_Z 1000).

(** [DwaController::new] *)
Definition dwa_controller_new (cfg : PlanConfig) (acts : list Action) : DwaConfig :=
  let d := dwa_from_actions acts (fmax (pc_dwa_tick_s cfg) milli) in
  {| dw_v_min := dw_v_min d; dw_v_max := dw_v_max d; dw_w_max_deg := dw_w_max_deg d;
     dw_n_v := Z.max (pc_dwa_n_v cfg) 2; dw_n_w := Z.max (pc_dwa_n_w cfg) 3;
     dw_horizon_s := fmax (pc_dwa_horizon_s cfg) (pc_dwa_tick_s cfg); dw_tick_s := dw_tick_s d;
     dw_collide_step_m := dw_collide_step_m d;
     dw_lethal_penalty := f64_as_u64 (fmul (fmax (pc_dwa_lethal_penalty cfg) f0) (f64_of_Z PROB_BASE)) |}.

(** [MppiController::new] *)
Definition mppi_controller_new (cfg : PlanConfig) (acts : list Action) : MppiConfig :=
  let m := mppi_from_actions acts (fmax (pc_dwa_tick_s cfg) milli) in
  {| mp_v_min := mp_v_min m; mp_v_max := mp_v_max m; mp_w_max_deg := mp_w_max_deg m;
     mp_n_samples := Z.max (pc_mppi_samples cfg) 2; mp_horizon_s := fmax (pc_dwa_horizon_s cfg) (pc_dwa_tick_s cfg);
     mp_tick_s := mp_tick_s m; mp_lambda := pc_mppi_lambda cfg;
     mp_sigma_v := if flt f0 (pc_mppi_sigma_v cfg) then pc_mppi_sigma_v cfg else mp_sigma_v m;
     mp_sigma_w_deg := if flt f0 (pc_mppi_sigma_w_deg cfg) then pc_mppi_sigma_w_deg cfg else mp_sigma_w_deg m;
     mp_alpha := mp_alpha m; mp_gamma := mp_gamma m; mp_collide_step_m := mp_collide_step_m m; mp_seed := mp_seed m |}.

Definition make_controller (cfg : PlanConfig) (acts : list Action) : FollowController :=
  match pc_follow_controller cfg with
  | FollowGreedy => GreedyController
  | FollowDwa => DwaController (dwa_controller_new cfg acts)
  | FollowMppi => let m := mppi_controller_new cfg acts in MppiController m (mppi_new (mp_seed m))
  end.

Section controllers.
Context (cos sin ln exp : f64 → f64).

(** [DwaController::decide] *)
Definition dwa_controller_decide (dwa : DwaConfig) (cfg : PlanConfig) (vi : ValueIterator) (pose : PoseView) : res TickDecision :=
  c ← pose_to_cell vi (pv_x pose) (pv_y pose) (pv_yaw_rad pose);
  let '(ix, iy, it) := c in
  fin ← tick_is_final vi ix iy it;
  if (fin : bool) then Ok TickGoal else
  r ← dwa_decide cos sin vi vi dwa (pv_x pose) (pv_y pose) (pv_yaw_rad pose);
  match r with
  | Some c => Ok (TickAction None (dc_v c) (dc_w_deg c))
  | None => greedy_decide cfg vi pose
  end.

(** [MppiController::decide]: without a command the nominal sequence is dropped. *)
Definition mppi_controller_decide (mppi : MppiConfig) (cfg : PlanConfig) (vi : ValueIterator) (pose : PoseView)
    (state : MppiState) : res (MppiState * TickDecision) :=
  c ← pose_to_cell vi (pv_x pose) (pv_y pose) (pv_yaw_rad pose);
  let '(ix, iy, it) := c in
  fin ← tick_is_final vi ix iy it;
  if (fin : bool) then Ok (state, TickGoal) else
  r ← mppi_decide cos sin ln exp vi vi mppi state (pv_x pose) (pv_y pose) (pv_yaw_rad pose);
  let '(state, o) := r in
  match o with
  | Some c => Ok (state, TickAction None (dc_v c) (dc_w_deg c))
  | None => d ← greedy_decide cfg vi pose; Ok (mppi_reset state, d)
  end.

(** [FollowController::decide] *)
Definition controller_decide (cfg : PlanConfig) (vi : ValueIterator) (pose : PoseView) (k : FollowController)
    : res (FollowController * TickDecision) :=
  match k with
  | GreedyController => d ← greedy_decide cfg vi pose; Ok (k, d)
  | DwaController dwa => d ← dwa_controller_decide dwa cfg vi pose; Ok (k, d)
  | MppiController mppi state =>
      r ← mppi_controller_decide mppi cfg vi pose state; let '(state, d) := r in Ok (MppiController mppi state, d)
  end.

(** [PlannerCore::decide] *)
Definition decide_tick (pose : PoseView) (c : PlannerCore) (k : FollowController) : res (FollowController * TickDecision) :=
  match local c with
  | None => Ok (k, TickNone)
  | Some l =>
      let vi := lv_base l in
      p ← pose_to_cell vi (pv_x pose) (pv_y pose) (pv_yaw_rad pose);
      let '(x, y, t) := p in
      fin ← tick_is_final vi x y t;
      if (fin : bool) then Ok (k, TickGoal) else
      if invalidating (co_global c) then Ok (k, TickNone) else
      controller_decide (co_cfg c) vi pose k
  end.
End controllers.

(** [quality_shift] of core/mod.rs; [log2] is an argument. *)
Definition quality_shift (log2 : f64 → f64) (quality gate : f64) : Z :=
  if fle gate f0 || fge quality gate then 0 else
  if fle quality f0 then 11 else
  Z.min (f64_as_u32 (fceil (log2 (fdiv gate quality)))) 11.

(** [PlannerCore::decide_qmdp] *)
Definition decide_qmdp (nan_neg : bool) (hyps : list (PoseView * f64)) (c : PlannerCore) : res TickDecision :=
  match local c with
  | None => Ok TickNone
  | Some l =>
      q ← qmdp_decide nan_neg (lv_base l) hyps;
      match q with
      | Goal => Ok TickGoal
      | Act ai =>
          if invalidating (co_global c) then Ok TickNone else
          a ← vget (vi_actions (lv_base l)) ai;
          Ok (TickAction (Some (as_u64 (a_id a))) (a_delta_fw a) (a_delta_rot a))
      | NoAct => Ok TickNone
      end
  end.

(** ** Images of the field *)

(** Rows [lo..hi] of the values at heading 0. *)
Definition value_rows {V} `{PolicyView V} (p : V) (lo hi : Z) : res (list Z) :=
  let '(nx, _, _) := cell_num p in
  rows ← map_res (fun y => map_res (fun x => value_at p x (as_i32 y) 0) (seqZ 0 nx)) (seqZ lo (hi - lo));
  Ok (@mjoin list _ Z rows).

Definition grid_of_values {V} `{PolicyView V} (p : V) (width height : Z) (origin_y : f64) (data : list Z)
    : OccupancyGrid :=
  {| og_width := width; og_height := height; og_resolution := pv_xy_resolution p;
     og_origin_x := (map_origin p).1; og_origin_y := origin_y; og_origin_quat := map_origin_quat p;
     og_data := data |}.

(** [value_grid_on]; the [vec![0; w * h]] of a map with a negative side does not
    fit the address space. *)
Definition value_grid_on {V} `{PolicyView V} (p : V) (threshold_steps : Z) : res OccupancyGrid :=
  let '(nx, ny, _) := cell_num p in
  if (nx <? 0) || (ny <? 0) then Panic else
  slice ← value_rows p 0 ny;
  data ← value_slice_to_occupancy slice (as_u64 nx) (as_u64 ny) threshold_steps;
  Ok (grid_of_values p nx ny (map_origin p).2 data).

(** [PlannerCore::value_grid] *)
Definition value_grid (threshold_steps : Z) (c : PlannerCore) : res (option OccupancyGrid) :=
  match co_cached c with
  | None => Ok None
  | Some g => r ← value_grid_on (lv_base (cg_field g)) threshold_steps; Ok (Some r)
  end.

(** [PlannerCore::value_grid_rows] (core/value_grid.rs) *)
Definition value_grid_rows (lo hi threshold_steps : Z) (c : PlannerCore)
    : res (option (Z * OccupancyGrid * Z)) :=
  match co_cached c with
  | None => Ok None
  | Some g =>
      let p := lv_base (cg_field g) in
      let '(nx, ny, _) := cell_num p in
      let stop := Z.min hi (as_u64 ny) in
      if lo >=? stop then Ok None else
      values ← value_rows p lo stop;
      data ← value_slice_to_occupancy values (as_u64 nx) (stop - lo) threshold_steps;
      Ok (Some (m_epoch (co_global c),
        grid_of_values p nx (as_i32 (stop - lo))
          (fadd (map_origin p).2 (fmul (f64_of_Z lo) (pv_xy_resolution p))) data,
        as_u64 ny))
  end.

(** One cell of the image of the window. *)
Definition window_value (l : ValueIteratorLocal) (it iy ix : Z) : res Z :=
  b ← in_local_area l ix iy;
  if (b : bool) then s ← vi_state (lv_base l) ix iy it; Ok (s_total_cost s) else Ok MAX_COST.

(** [PlannerCore::window_value_grid] *)
Definition window_value_grid (pose : PoseView) (threshold_steps : Z) (c : PlannerCore)
    : res (option OccupancyGrid) :=
  match local c with
  | None => Ok None
  | Some l =>
      let vi := lv_base l in
      p ← pose_to_cell vi (pv_x pose) (pv_y pose) (pv_yaw_rad pose);
      if i32_sub (vi_cell_num_t vi) 1 <? 0 then Panic else
      let it := Z.min (Z.max p.2 0) (i32_sub (vi_cell_num_t vi) 1) in
      let '(x0, x1, y0, y1) := (lv_ix_min l, lv_ix_max l, lv_iy_min l, lv_iy_max l) in
      if (x1 <? x0) || (y1 <? y0) then Ok None else
      let '(w, h) := (as_u64 (i32_add (i32_sub x1 x0) 1), as_u64 (i32_add (i32_sub y1 y0) 1)) in
      rows ← map_res (fun iy => map_res (window_value l it iy) (seqZ x0 (x1 + 1 - x0))) (seqZ y0 (y1 + 1 - y0));
      data ← value_slice_to_occupancy (mjoin rows) w h threshold_steps;
      Ok (Some {| og_width := as_i32 w; og_height := as_i32 h; og_resolution := vi_xy_resolution vi;
        og_origin_x := fadd (vi_map_origin_x vi) (fmul (f64_of_Z x0) (vi_xy_resolution vi));
        og_origin_y := fadd (vi_map_origin_y vi) (fmul (f64_of_Z y0) (vi_xy_resolution vi));
        og_origin_quat := vi_map_origin_quat vi; og_data := data |})
  end.

(** [PlannerCore::goal_distance] *)
Definition goal_distance (x y : f64) (c : PlannerCore) : option f64 :=
  (fun g => fsqrt (fadd (fsquare (fsub (cg_goal_x g) x)) (fsquare (fsub (cg_goal_y g) y)))) <$> co_cached c.

(** ** What a cell offers *)

(** Actions are told apart by their ids. *)
Definition ids_ok (acts : list Action) : Prop :=
  (∀ a, a ∈ acts → 0 ≤ a_id a < 2 ^ 31) ∧ NoDup (a_id <$> acts).

Definition order_of (a : Action) : TickDecision := TickAction (Some (a_id a)) (a_delta_fw a) (a_delta_rot a).

(** The goal, the action of the policy, or nothing. *)
Definition offered (vi : ValueIterator) (c : Z * Z * Z) : option TickDecision :=
  let '(ix, iy, it) := c in
  if vi_outside vi ix iy it then None else
  s ← zget (vi_states vi) (index (vi_cell_num_x vi) (vi_cell_num_t vi) ix iy it);
  if s_final_state s then Some TickGoal else
  if negb (s_free s) then None else
  ai ← s_optimal_action s;
  order_of <$> zget (vi_actions vi) ai.

Definition is_goal (o : option TickDecision) : bool := match o with Some TickGoal => true | _ => false end.

Lemma find_action_elem acts i a : ids_ok acts → zget acts i = Some a → find_action (a_id a) acts = Some a.
Proof.
  intros [_ Hnd] Ha%elem_of_zget_1. induction acts as [|b acts IH]; [by apply elem_of_nil in Ha|].
  rewrite fmap_cons in Hnd. apply list.NoDup_cons in Hnd as [Hb Hnd]. cbn [find_action].
  apply elem_of_cons in Ha as [->|Ha]; [by rewrite Z.eqb_refl|].
  destruct (Z.eqb_spec (a_id b) (a_id a)) as [E|]; [|by apply IH].
  exfalso. apply Hb. rewrite E. by apply list_elem_of_fmap_2.
Qed.

Section offers.
Context (vi : ValueIterator) (Hwf : wf_vi vi) (Hn : policies_named vi) (Hids : ids_ok (vi_actions vi)).

Lemma tick_is_final_eq ix iy it :
  tick_is_final vi ix iy it = Ok (is_goal (offered vi (ix, iy, it))).
Proof.
  change (tick_is_final vi ix iy it) with (is_final vi ix iy it). rewrite vi_is_final_eq. unfold offered.
  destruct (vi_outside vi ix iy it) eqn:Eo; [done|]. destruct (vi_state_get vi ix iy it Hwf Eo) as (s & -> & ->).
  cbn. destruct (s_final_state s); [done|]. destruct (negb _); [done|]. destruct (s_optimal_action s) as [ai|]; [|done].
  cbn. by destruct (zget (vi_actions vi) ai).
Qed.

Lemma tick_action_at_eq ix iy it :
  is_goal (offered vi (ix, iy, it)) = false → tick_action_at vi ix iy it = Ok (offered vi (ix, iy, it)).
Proof.
  unfold tick_action_at, offered, optimal_action_at.
  assert ((ix <? 0) || (iy <? 0) || (it <? 0) || (ix >=? vi_cell_num_x vi) || (iy >=? vi_cell_num_y vi)
    || (it >=? vi_cell_num_t vi) = vi_outside vi ix iy it) as ->.
  { unfold vi_outside, in_map_area. lia. }
  destruct (vi_outside vi ix iy it) eqn:Eo; [done|]. destruct (vi_state_get vi ix iy it Hwf Eo) as (s & -> & Hs).
  rewrite Hs. cbn. destruct (s_final_state s); [done|]. intros _. rewrite orb_false_r.
  destruct (s_free s); cbn; [|done]. destruct (s_optimal_action s) as [ai|] eqn:Ea; [|done]. cbn.
  destruct (zget_lt (vi_actions vi) ai (Hn _ _ _ Hs Ea)) as [a Ha]. pose proof Ha as Ha'. apply vget_ok in Ha' as ->.
  rewrite ok_bind, Ha. pose proof (elem_of_zget_1 _ _ _ Ha) as Hin. apply Hids in Hin as Hid. cbn.
  destruct (Z.ltb_spec (a_id a) 0); [lia|]. rewrite (find_action_elem _ _ _ Hids Ha). cbn. unfold order_of.
  by rewrite as_u64_small by (unfold in_u64; lia).
Qed.

Lemma tick_candidate_eq ix iy it : tick_candidate vi ix iy it = Ok (offered vi (ix, iy, it)).
Proof.
  unfold tick_candidate. rewrite tick_is_final_eq, ok_bind.
  destruct (is_goal _) eqn:E; [|by apply tick_action_at_eq]. by destruct (offered _ _) as [[]|].
Qed.

(** ** The nearest offer *)

(** The loop keeps the first of the least ones. *)
Section scan.
Context {X D : Type} (cand : D → option X) (cost : D → Z) (body : D → option (Z * X) → res (option (Z * X))).
Context (Hbody : ∀ d best, body d best =
  Ok (match cand d with
      | None => best
      | Some x => if match best with Some (bd, _) => cost d <? bd | None => true end then Some (cost d, x) else best
      end)).

Lemma scan_least l :
  ∃ best, for_each l body None = Ok best ∧
    match best with
    | None => ∀ d, d ∈ l → cand d = None
    | Some (v, x) => ∃ l1 d l2, l = l1 ++ d :: l2 ∧ cand d = Some x ∧ v = cost d ∧
        (∀ d', d' ∈ l1 → is_Some (cand d') → cost d < cost d') ∧ (∀ d', d' ∈ l2 → is_Some (cand d') → cost d ≤ cost d')
    end.
Proof.
  induction l as [|e l IH] using rev_ind; [exists None; split; [done|by intros d ?%elem_of_nil]|].
  destruct IH as (best & E & Hb). rewrite for_each_app, E, ok_bind. cbn [for_each]. rewrite Hbody, ok_bind.
  eexists. split; [done|]. destruct (cand e) as [x|] eqn:Ee.
  - destruct best as [[v y]|]; [destruct (Z.ltb_spec (cost e) v)|].
    + exists l, e, []. split_and!; [done..| |by intros d ?%elem_of_nil].
      destruct Hb as (l1 & d & l2 & -> & _ & -> & H1 & H2). intros d' [Hd|[->|Hd]%elem_of_cons]%elem_of_app Hs; [|lia|].
      * specialize (H1 d' Hd Hs). lia.
      * specialize (H2 d' Hd Hs). lia.
    + destruct Hb as (l1 & d & l2 & -> & Hd & -> & H1 & H2). exists l1, d, (l2 ++ [e]).
      split_and!; [by rewrite <- app_assoc|done..|]. intros d' [Hd'|Hd']%elem_of_app Hs; [by apply H2|].
      apply list_elem_of_singleton in Hd' as ->. done.
    + exists l, e, []. split_and!; [done..| |by intros d ?%elem_of_nil]. intros d' Hd [z Hz]. rewrite (Hb d' Hd) in Hz. done.
  - destruct best as [[v y]|].
    + destruct Hb as (l1 & d & l2 & -> & Hd & -> & H1 & H2). exists l1, d, (l2 ++ [e]).
      split_and!; [by rewrite <- app_assoc|done..|]. intros d' [Hd'|Hd']%elem_of_app Hs; [by apply H2|].
      apply list_elem_of_singleton in Hd' as ->. rewrite Ee in Hs. by destruct Hs.
    + intros d [Hd|Hd]%elem_of_app; [by apply Hb|]. by apply list_elem_of_singleton in Hd as ->.
Qed.
End scan.

(** What the greedy controller decides in a cell: the offer of the cell, or the
    first of the nearest offers of the square around it. *)
Definition greedy_from (c : Z * Z * Z) (tol : Z) (d : TickDecision) : Prop :=
  match offered vi c with
  | Some own => d = own
  | None =>
      let cands := filter (fun o : Z * Z => o ≠ (0, 0)) (square tol) in
      (d = TickNone ∧ ∀ o, o ∈ cands → offered vi (offset c o) = None) ∨
      (∃ l1 o l2, cands = l1 ++ o :: l2 ∧ offered vi (offset c o) = Some d ∧
        (∀ o', o' ∈ l1 → is_Some (offered vi (offset c o')) → sq o < sq o') ∧
        (∀ o', o' ∈ l2 → is_Some (offered vi (offset c o')) → sq o ≤ sq o'))
  end.

(** The own cell of the square, skipped by the loop. *)
Lemma for_each_skip {A B} (P : B → Prop) `{!∀ x, Decision (P x)} (f : B → A → res A) l a :
  for_each l (fun x a => if bool_decide (P x) then f x a else Ok a) a = for_each (filter P l) f a.
Proof.
  revert a. induction l as [|x l IH]; intros a; [done|]. cbn [for_each]. rewrite list.filter_cons.
  case_bool_decide; case_decide; try done; [|by rewrite ok_bind].
  cbn [for_each]. destruct (f x a); [rewrite !ok_bind; apply IH|done|done].
Qed.

Lemma greedy_decide_spec cfg pose :
  0 ≤ pc_action_tolerance_cells cfg < 2 ^ 31 →
  ∃ c d, pose_to_cell vi (pv_x pose) (pv_y pose) (pv_yaw_rad pose) = Ok c ∧
    greedy_decide cfg vi pose = Ok d ∧ greedy_from c (pc_action_tolerance_cells cfg) d.
Proof.
  intros Ht. pose proof (vi_policy_laws vi Hwf Hn) as Hlaws. destruct (pose_to_cell_on_ok vi (pv_x pose) (pv_y pose) (pv_yaw_rad pose)) as [c Hc]. exists c.
  unfold greedy_decide, pose_to_cell. rewrite Hc, ok_bind. destruct c as [[ix iy] it].
  rewrite tick_is_final_eq, ok_bind. unfold greedy_from. destruct (is_goal _) eqn:Eg.
  { exists TickGoal. destruct (offered vi (ix, iy, it)) as [[]|]; by try done. }
  rewrite (tick_action_at_eq _ _ _ Eg), ok_bind.
  destruct (offered vi (ix, iy, it)) as [own|]; [by exists own|].
  rewrite i32_sub_small by (unfold in_i32; lia). set (tol := pc_action_tolerance_cells cfg) in *.
  set (F := fun (o : Z * Z) best => borrow_step vi ix iy it o.1 o.2 best).
  replace (for_incl _ _ _ None) with (for_each (square tol) F None); cycle 1.
  { unfold for_incl, for_range, square. replace (tol + 1 - (0 - tol)) with (2 * tol + 1) by lia.
    rewrite <- for_each_bind. apply for_each_ext. intros dy a _. by rewrite for_each_fmap. }
  set (G := fun (o : Z * Z) (best : option (Z * TickDecision)) =>
    Ok (match offered vi (offset (ix, iy, it) o) with
        | None => best
        | Some d => if match best with Some (bd, _) => sq o <? bd | None => true end then Some (sq o, d) else best
        end)).
  rewrite (for_each_ext _ F (fun o best => if bool_decide (o ≠ (0, 0)) then G o best else Ok best)); cycle 1.
  { intros [dy dx] best _. unfold F, borrow_step, G. cbn [fst snd].
    destruct (Z.eqb_spec dx 0) as [->|Hx]; destruct (Z.eqb_spec dy 0) as [->|Hy]; cbn [andb];
      [rewrite bool_decide_false by (intros Hne; by apply Hne); done|rewrite bool_decide_true by congruence..].
    all: rewrite tick_candidate_eq, ok_bind; reflexivity. }
  rewrite (for_each_skip (fun o : Z * Z => o ≠ (0, 0)) G).
  destruct (scan_least (fun o => offered vi (offset (ix, iy, it) o)) sq G) with (l := filter (fun o : Z * Z => o ≠ (0, 0)) (square tol))
    as (best & -> & Hb); [done|].
  rewrite ok_bind. destruct best as [[v d]|].
  - exists d. split; [done|]. split; [done|]. right. destruct Hb as (l1 & o & l2 & El & Ho & _ & H1 & H2).
    by exists l1, o, l2.
  - exists TickNone. split; [done|]. split; [done|]. by left.
Qed.
End offers.

(** ** Property *)

(** C20: a tick of the greedy follower.  It always decides: on a goal cell it says
    so, also while cost increases are drained; otherwise, while they are, it gives
    no command.  Else it obeys the policy of the cell, and where there is none, the
    nearest cell with a goal or a policy within the tolerance at the same heading
    (the first of the nearest ones, row by row), and it gives no command exactly
    when no such cell has one. *)
Theorem decide_tick_greedy cos sin ln exp pose c l :
  local c = Some l → wf_vi (lv_base l) → policies_named (lv_base l) → ids_ok (vi_actions (lv_base l)) →
  0 ≤ pc_action_tolerance_cells (co_cfg c) < 2 ^ 31 →
  ∃ cell d, pose_to_cell (lv_base l) (pv_x pose) (pv_y pose) (pv_yaw_rad pose) = Ok cell ∧
    decide_tick cos sin ln exp pose c GreedyController = Ok (GreedyController, d) ∧
    if is_goal (offered (lv_base l) cell) then d = TickGoal
    else if invalidating (co_global c) then d = TickNone
    else greedy_from (lv_base l) cell (pc_action_tolerance_cells (co_cfg c)) d.
Proof.
  intros El Hwf Hn Hids Ht.
  destruct (greedy_decide_spec (lv_base l) Hwf Hn Hids (co_cfg c) pose Ht) as (cell & d & Ec & Ed & Hd).
  exists cell. unfold decide_tick, controller_decide. rewrite El, Ec, ok_bind. destruct cell as [[x y] t].
  rewrite (tick_is_final_eq (lv_base l) Hwf), ok_bind.
  destruct (is_goal _); [by exists TickGoal|]. destruct (invalidating _); [by exists TickNone|].
  exists d. rewrite Ed, ok_bind. by split_and!.
Qed.

(** C19: a tick of the follower with the dynamic window.  On a goal cell, and while
    cost increases are drained, it answers as the greedy one.  Else, when it commands
    a velocity, that velocity is one of the grid whose simulated motion stays on free
    cells below the penalty threshold to the end of the horizon or up to the goal, no
    accepted velocity of the grid has a smaller value, and unless it reaches the goal
    its value is below the one of the pose; and when it does not, the robot is not on
    free ground, or every velocity of the grid was rejected, or the best one makes no
    progress - then the greedy decision is taken. *)
Theorem decide_tick_dwa cos sin ln exp dwa pose c l :
  local c = Some l → wf_vi (lv_base l) → policies_named (lv_base l) → ids_ok (vi_actions (lv_base l)) →
  0 ≤ pc_action_tolerance_cells (co_cfg c) < 2 ^ 31 →
  ∃ cell d, pose_to_cell (lv_base l) (pv_x pose) (pv_y pose) (pv_yaw_rad pose) = Ok cell ∧
    decide_tick cos sin ln exp pose c (DwaController dwa) = Ok (DwaController dwa, d) ∧
    if is_goal (offered (lv_base l) cell) then d = TickGoal
    else if invalidating (co_global c) then d = TickNone
    else ∃ o, dwa_says cos sin (lv_base l) (lv_base l) dwa (pv_x pose, pv_y pose, pv_yaw_rad pose) o ∧
      match o with
      | Some ch => d = TickAction None (dc_v ch) (dc_w_deg ch)
      | None => greedy_from (lv_base l) cell (pc_action_tolerance_cells (co_cfg c)) d
      end.
Proof.
  intros El Hwf Hn Hids Ht.
  destruct (greedy_decide_spec (lv_base l) Hwf Hn Hids (co_cfg c) pose Ht) as (cell & d & Ec & Ed & Hd).
  pose proof (vi_view_laws _ Hwf). pose proof (vi_cost_laws _ Hwf).
  destruct (dwa_decide_spec cos sin (lv_base l) (lv_base l) dwa (pv_x pose) (pv_y pose) (pv_yaw_rad pose)) as (o & Eo & Ho).
  exists cell. unfold decide_tick, controller_decide, dwa_controller_decide. rewrite El, Ec, ok_bind. destruct cell as [[x y] t].
  rewrite (tick_is_final_eq (lv_base l) Hwf), !ok_bind.
  destruct (is_goal _) eqn:Eg; [by exists TickGoal|]. destruct (invalidating _); [by exists TickNone|].
  rewrite (tick_is_final_eq (lv_base l) Hwf), ok_bind, Eg, Eo, ok_bind. destruct o as [ch|].
  - eexists. split; [done|]. split; [done|]. by exists (Some ch).
  - exists d. rewrite Ed. split; [done|]. split; [done|]. by exists None.
Qed.

(** Between the cells of the sample path: a robot off the path to the right
    borrows from its last cell. *)
Definition borrower : PlannerCore :=
  with_cached (core_new {| bp_grid := {| og_width := 3; og_height := 1; og_resolution := f1; og_origin_x := f0;
        og_origin_y := f0; og_origin_quat := quat_default; og_data := [0; 0; 0] |};
      bp_actions := []; bp_theta_cell_num := 1; bp_map_penalty_radius := f0; bp_map_penalty := f0;
      bp_goal_margin_radius := f0; bp_goal_margin_theta := 0; bp_local_xy_range := f1; bp_local_shape := shape_default;
      bp_patch_slack_cells := 0; bp_repair_interior_cells := 16 |}
    {| pc_scan_penalty_radius := f0; pc_scan_penalty := 0; pc_solver := Reference; pc_max_solve_iter := 10;
       pc_solve_chunk := 1; pc_max_rollout_steps := 10; pc_start_tolerance_cells := 0; pc_path_spacing := f0;
       pc_action_tolerance_cells := 2; pc_follow_controller := FollowGreedy;
       pc_dwa_tick_s := f0_1; pc_dwa_horizon_s := f1; pc_dwa_n_v := 2; pc_dwa_n_w := 3; pc_dwa_lethal_penalty := f0;
       pc_mppi_samples := 2; pc_mppi_lambda := f1; pc_mppi_sigma_v := f0; pc_mppi_sigma_w_deg := f0; pc_sigma_margin_gain := f0;
       pc_map_clear_from_scan := false; pc_global_sweep := true; pc_early_start := false |})
    (Some (mkCached f0 f0 0 (with_base (local_new [] 1) sample_path) false)).

Lemma decide_tick_greedy_witness :
  ∃ d, decide_tick id id id id {| pv_x := fadd f1 f2_5; pv_y := f0_5; pv_yaw_rad := f0 |} borrower GreedyController
    = Ok (GreedyController, d) ∧ greedy_from sample_path (3, 0, 0) 2 d.
Proof.
  destruct (decide_tick_greedy id id id id
    {| pv_x := fadd f1 f2_5; pv_y := f0_5; pv_yaw_rad := f0 |} borrower (with_base (local_new [] 1) sample_path))
    as (cell & d & Ec & Ed & Hd).
  - reflexivity.
  - exact sample_path_wf.
  - exact sample_path_named.
  - split; [|vm_compute; apply list.NoDup_singleton].
    intros a [->|Ha]%elem_of_cons; [cbn; lia|by apply elem_of_nil in Ha].
  - cbn. lia.
  - exists d. split; [exact Ed|]. vm_compute in Ec. injection Ec as <-. exact Hd.
Defined.

(** One cell right of the goal of the sample path: rolling back reaches it. *)
Definition roll_back : DwaConfig :=
  {| dw_v_min := fneg f1; dw_v_max := f0; dw_w_max_deg := f0; dw_n_v := 2; dw_n_w := 1; dw_horizon_s := f1;
     dw_tick_s := f1; dw_collide_step_m := f1; dw_lethal_penalty := 0 |}.
#[local] Abbreviation beside_goal := {| pv_x := fadd f1 f0_5; pv_y := f0_5; pv_yaw_rad := f0 |}.

Lemma decide_tick_dwa_witness :
  ∃ d, decide_tick (fun _ => f1) (fun _ => f0) id id beside_goal borrower (DwaController roll_back)
      = Ok (DwaController roll_back, d) ∧ d = TickAction None (fneg f1) f0 ∧
    ∃ o, dwa_says (fun _ => f1) (fun _ => f0) sample_path sample_path roll_back (fadd f1 f0_5, f0_5, f0) o ∧ is_Some o.
Proof.
  destruct (decide_tick_dwa (fun _ => f1) (fun _ => f0) id id roll_back beside_goal borrower (with_base (local_new [] 1) sample_path))
    as (cell & d & Ec & Ed & Hd).
  - reflexivity.
  - exact sample_path_wf.
  - exact sample_path_named.
  - split; [|vm_compute; apply list.NoDup_singleton].
    intros a [->|Ha]%elem_of_cons; [cbn; lia|by apply elem_of_nil in Ha].
  - cbn. lia.
  - assert (decide_tick (fun _ => f1) (fun _ => f0) id id beside_goal borrower (DwaController roll_back)
      = Ok (DwaController roll_back, TickAction None (fneg f1) f0)) as E by (vm_compute; reflexivity).
    rewrite E in Ed. injection Ed as <-. exists (TickAction None (fneg f1) f0). split; [exact E|]. split; [reflexivity|].
    vm_compute in Ec. injection Ec as <-.
    destruct (is_goal _) eqn:Eg; [vm_compute in Eg; discriminate Eg|].
    destruct (invalidating _) eqn:Ei; [vm_compute in Ei; discriminate Ei|].
    destruct Hd as ([ch|] & Ho & Hch); [exists (Some ch); split; [exact Ho|by exists ch]|].
    exfalso. unfold greedy_from in Hch. vm_compute in Hch. discriminate Hch.
Defined.
