(* ===== verification/Entry.v ===== *)
(** * Solving and planning (vi_planner/src/core/mod.rs)

    The entry points of a core that keeps its field in memory: a goal is
    prepared ([prepare_goal_with_progress]: from the cache, from the prefetcher,
    or by a solve), a solve may hand the field over before it has converged
    (the early start), and a plan is a rollout of the cached field.  The flag
    that cancels a solve is set by other threads: its loads are an argument. *)

From Stdlib Require Import ZArith Lia.
From stdpp Require Import base gmap strings list numbers.
From S2P Require Import Prelude Floats Model Bellman Observe Bridge Async MapSetup LocalPlanner Planner Solve Core.

(** ** Results *)

Record SolveStats : Type := { ss_solved_now : bool; ss_iters : Z; ss_adopted : bool; ss_partial : bool }.

Record PlanStats : Type := {
  ps_solved_now : bool; ps_iters : Z; ps_adopted : bool; ps_partial : bool; ps_poses : Z
}.

Inductive PlanError : Type :=
  | Cancelled
  | NotConverged
  | RolloutFailed (s : RolloutStatus)
  | Sink (e : string)
  | Patch (e : string)
  | Unsupported (e : string).

(** [{s:?}] *)
Definition status_text (s : RolloutStatus) : string :=
  match s with
  | ReachedGoal => "ReachedGoal" | NoAction => "NoAction" | OutOfMap => "OutOfMap"
  | LoopDetected => "LoopDetected" | StepLimit => "StepLimit"
  end.

(** [Display for PlanError] *)
Definition plan_error_text (e : PlanError) : string :=
  match e with
  | Cancelled => "cancelled (preempted)"
  | NotConverged => "value iteration did not converge"
  | RolloutFailed s => "policy rollout failed: " +:+ status_text s
  | Sink e => "compact output sink unavailable: " +:+ e
  | Patch e => "follow patch cannot be built: " +:+ e
  | Unsupported e => "unsupported in this configuration: " +:+ e
  end.

(** ** The prefetcher, as the core sees it *)

(** [Option<Prefetcher>]: [adopt] may wait, and loads the cancel flag from its
    [n]-th load on; [note_goal] orders the next waypoint. *)
Class Prefetching (F : Type) : Type := {
  pf_adopt : (Z → bool) → Z → PoseView → Z → F → res (F * Z * option CachedGoal);
  pf_note_goal : PoseView → F → res F
}.

(** No prefetcher. *)
#[export] Instance no_prefetch : Prefetching unit := {
  pf_adopt _ n _ _ f := Ok (f, n, None);
  pf_note_goal _ f := Ok f
}.

Definition cache_matches (goal : PoseView) (goal_t_deg : Z) (c : PlannerCore) : bool :=
  match co_cached c with
  | None => false
  | Some g => goal_matches (cg_goal_x g, cg_goal_y g, cg_goal_t_deg g) (pv_x goal, pv_y goal, goal_t_deg)
  end.

Definition is_cached_goal (goal : PoseView) (c : PlannerCore) : bool :=
  cache_matches goal (yaw_to_goal_theta_deg (pv_yaw_rad goal)) c.

Definition discard_partial (c : PlannerCore) : PlannerCore * bool :=
  if is_partial c then (with_cached (invalidate_global_jobs c) None, true) else (c, false).

(** The core a goal is solved for: nothing cached, nothing queued, nobody at work. *)
Definition cleared_core (c : PlannerCore) : PlannerCore :=
  let c := with_dirty (with_cached (invalidate_global_jobs c) None) false in
  with_sweep c (sweep_clear (co_sweep c)).

(** A prepared field enters the cache; one that is not solved to the end is
    queued as a whole. *)
Definition install (g : CachedGoal) (partial : bool) (c : PlannerCore) : res PlannerCore :=
  let c := with_cached c (Some g) in
  if partial then seed_sweep_all (with_dirty c true) else Ok c.

Section entry.
(** [cos], [sin]; the fuel of the sampling loops; the available threads; the
    threads of the solvers and their schedule; the solvers without a model. *)
Context (cos sin : f64 → f64) (fuel : nat) (par nthreads : Z) (sched : Z → list Event).
Context {P : Type} (on_progress : P → ValueIterator → P) (cancel : Z → bool).

(** What the caller has seen: the loads of the cancel flag so far, the state of
    the progress callback; and whether a callback panicked. *)
Record World : Type := mkWorld { wo_loads : Z; wo_progress : P; wo_panicked : bool }.

Context (compact : Z → option Z → ValueIterator → World → res (ValueIterator * World * SolveOutcome)).
Context (schur : Z → Z → Z → Z → ValueIterator → World → res (ValueIterator * World * SolveOutcome)).

Definition load_cancel (w : World) : bool * World :=
  (cancel (wo_loads w), mkWorld (wo_loads w + 1) (wo_progress w) (wo_panicked w)).

(** ** The director of a solve *)

Definition reaches_goal {V} `{PolicyView V} (p : V) (cfg : PlanConfig) (from : PoseView) : res bool :=
  r ← rollout_path_on cos sin p (pv_x from) (pv_y from) (pv_yaw_rad from) (pc_max_rollout_steps cfg)
        (pc_start_tolerance_cells cfg);
  Ok (reached_goal r).

(** [boundary]: a panic of the rollout unwinds the solve; here it stops it and
    leaves its mark. *)
Definition director_boundary (cfg : PlanConfig) (from : option PoseView) (w : World) (probe : SolveProbe)
    : World * SolveFlow :=
  let '(c, w) := load_cancel w in
  if (c : bool) then (w, Cancel) else
  let p := p_policy probe in
  let w := mkWorld (wo_loads w) (on_progress (wo_progress w) p) (wo_panicked w) in
  match from with
  | None => (w, Continue)
  | Some from =>
      match reaches_goal p cfg from with
      | Ok true => (w, Stop)
      | Ok false => (w, Continue)
      | _ => (mkWorld (wo_loads w) (wo_progress w) true, Stop)
      end
  end.

(** A cancelled call does not look at the field. *)
Lemma director_blind cfg from w pr v :
  negb (cancel (wo_loads w)) = false →
  director_boundary cfg from w (with_policy pr v) = director_boundary cfg from w pr.
Proof. unfold director_boundary, load_cancel. by destruct (cancel (wo_loads w)). Qed.

Definition SolveDirector (cfg : PlanConfig) (from : option PoseView) : SolveObserver World :=
  {| ob_interval := fun _ => Z.max (pc_solve_chunk cfg) 1;
     ob_looks := fun w _ _ => negb (cancel (wo_loads w));
     ob_boundary := director_boundary cfg from; ob_blind := director_blind cfg from |}.

(** The field of the map, before a goal is set. *)
Definition map_field (build : BuildParams) : res ValueIteratorLocal :=
  l ← local_set_map_with_occupancy_grid cos sin fuel par (local_new (bp_actions build) 1) (bp_grid build)
        (bp_theta_cell_num build) (bp_map_penalty_radius build) (bp_map_penalty build)
        (bp_goal_margin_radius build) (bp_goal_margin_theta build);
  Ok (set_local_shape l (bp_local_shape build)).

(** The solve of a field that has its goal. *)
Definition directed_solve (cfg : PlanConfig) (from : option PoseView) (vi : ValueIterator) (w : World)
    : res (ValueIterator * World * SolveOutcome) :=
  r ← solve_observed nthreads sched (SolveDirector cfg from) compact schur (pc_solver cfg) (pc_max_solve_iter cfg) vi w;
  if wo_panicked r.1.2 then Panic else Ok r.

(** The answer of [solve_dense] carries the [iters] and [partial] of the stats. *)
Definition solve_dense (goal : PoseView) (goal_t_deg : Z) (from : option PoseView) (c : PlannerCore) (w : World)
    : res (World * (PlanError + ValueIteratorLocal * Z * bool)) :=
  let '(stop, w) := load_cancel w in
  if (stop : bool) then Ok (w, inl Cancelled) else
  l ← map_field (co_build c);
  r ← directed_solve (co_cfg c) from (set_goal (lv_base l) (pv_x goal) (pv_y goal) goal_t_deg) w;
  let '(vi, w, out) := r in
  Ok (w, if so_cancelled out then inl Cancelled
         else if negb (so_converged out) && negb (so_stopped out) then inl NotConverged
         else inr (with_base l vi, so_iters out, so_stopped out)).

Section prefetched.
Context {F : Type} `{Prefetching F}.

(** A field from the prefetcher, or one solved now. *)
Definition obtain_field (goal : PoseView) (goal_t_deg : Z) (from : option PoseView) (c : PlannerCore) (w : World) (f : F)
    : res (World * F * (PlanError + CachedGoal * SolveStats)) :=
  a ← pf_adopt cancel (wo_loads w) goal goal_t_deg f;
  let '(f, n, adopted) := a in
  let w := mkWorld n (wo_progress w) (wo_panicked w) in
  match adopted with
  | Some g => Ok (w, f, inr (g, {| ss_solved_now := true; ss_iters := 0; ss_adopted := true; ss_partial := false |}))
  | None =>
      r ← solve_dense goal goal_t_deg (if pc_early_start (co_cfg c) then from else None) c w;
      let '(w, s) := r in
      Ok (w, f, match s with
                | inl e => inl e
                | inr (field, iters, partial) =>
                    inr (mkCached (pv_x goal) (pv_y goal) goal_t_deg field partial,
                         {| ss_solved_now := true; ss_iters := iters; ss_adopted := false; ss_partial := partial |})
                end)
  end.

Definition prepare_goal_with_progress (goal : PoseView) (from : option PoseView) (c : PlannerCore) (w : World) (f : F)
    : res (PlannerCore * World * F * (PlanError + SolveStats)) :=
  let goal_t_deg := yaw_to_goal_theta_deg (pv_yaw_rad goal) in
  if cache_matches goal goal_t_deg c then
    f ← pf_note_goal goal f;
    Ok (c, w, f, inr {| ss_solved_now := false; ss_iters := 0; ss_adopted := false; ss_partial := is_partial c |})
  else
    let c := cleared_core c in
    r ← obtain_field goal goal_t_deg from c w f;
    let '(w, f, s) := r in
    match s with
    | inl e => Ok (c, w, f, inl e)
    | inr (g, stats) =>
        c ← install g (ss_partial stats) c;
        f ← pf_note_goal goal f;
        Ok (c, w, f, inr stats)
    end.

(** ** Plans *)

Definition rollout (start : PoseView) (c : PlannerCore) : res Rollout :=
  match co_cached c with
  | None => Ok {| ro_poses := []; ro_status := NoAction |}
  | Some g =>
      rollout_path_on cos sin (lv_base (cg_field g)) (pv_x start) (pv_y start) (pv_yaw_rad start)
        (pc_max_rollout_steps (co_cfg c)) (pc_start_tolerance_cells (co_cfg c))
  end.

(** The answer to the caller, from the last rollout. *)
Definition plan_answer (cfg : PlanConfig) (s : SolveStats) (r : Rollout) : PlanError + list PathPose * PlanStats :=
  if negb (reached_goal r) then inl (RolloutFailed (ro_status r)) else
  let poses := if flt f0 (pc_path_spacing cfg) then densify (ro_poses r) (pc_path_spacing cfg) else ro_poses r in
  inr (poses, {| ps_solved_now := ss_solved_now s; ps_iters := ss_iters s; ps_adopted := ss_adopted s;
                 ps_partial := ss_partial s; ps_poses := zlen poses |}).

Definition plan_with_progress (start goal : PoseView) (c : PlannerCore) (w : World) (f : F)
    : res (PlannerCore * World * F * (PlanError + list PathPose * PlanStats)) :=
  p ← prepare_goal_with_progress goal (Some start) c w f;
  let '(c, w, f, s) := p in
  match s with
  | inl e => Ok (c, w, f, inl e)
  | inr s =>
      r ← rollout start c;
      let '(c', discarded) := if negb (reached_goal r) then discard_partial c else (c, false) in
      if (discarded : bool) then
        p ← prepare_goal_with_progress goal None c' w f;
        let '(c, w, f, s) := p in
        match s with
        | inl e => Ok (c, w, f, inl e)
        | inr s => r ← rollout start c; Ok (c, w, f, plan_answer (co_cfg c) s r)
        end
      else Ok (c', w, f, plan_answer (co_cfg c') s r)
  end.
End prefetched.
End entry.
Arguments World _ : clear implicits.
Arguments mkWorld {P} _ _ _.
Arguments wo_loads {P} _.
Arguments wo_progress {P} _.
Arguments wo_panicked {P} _.

(** ** Without a progress callback *)

Section silent.
Context (cos sin : f64 → f64) (fuel : nat) (par nthreads : Z) (sched : Z → list Event).
Context {P : Type} (cancel : Z → bool).
Context (compact : Z → option Z → ValueIterator → World P → res (ValueIterator * World P * SolveOutcome)).
Context (schur : Z → Z → Z → Z → ValueIterator → World P → res (ValueIterator * World P * SolveOutcome)).
Abbreviation silent := (fun (p : P) (_ : ValueIterator) => p).

Definition prepare_goal {F} `{Prefetching F} (goal : PoseView) (c : PlannerCore) (w : World P) (f : F)
    : res (PlannerCore * World P * F * (PlanError + SolveStats)) :=
  prepare_goal_with_progress cos sin fuel par nthreads sched silent cancel compact schur goal None c w f.

Definition plan {F} `{Prefetching F} (start goal : PoseView) (c : PlannerCore) (w : World P) (f : F)
    : res (PlannerCore * World P * F * (PlanError + list PathPose * PlanStats)) :=
  plan_with_progress cos sin fuel par nthreads sched silent cancel compact schur start goal c w f.

(** A field with a goal in every target region: the robot is lost. *)
Definition prepare_reloc_goal (targets : list (f64 * f64)) (c : PlannerCore) (w : World P)
    : res (PlannerCore * World P * (PlanError + SolveStats)) :=
  if use_compact (co_cfg c) then Ok (c, w, inl (Unsupported "active relocalization needs the dense path")) else
  match targets with
  | [] => Ok (c, w, inl (Unsupported "no relocalization targets"))
  | (tx, ty) :: _ =>
      let '(stop, w) := load_cancel cancel w in
      if (stop : bool) then Ok (c, w, inl Cancelled) else
      let c := cleared_core c in
      l ← map_field cos sin fuel par (co_build c);
      let radius := fmax (bp_goal_margin_radius (co_build c)) (vi_xy_resolution (lv_base l)) in
      vi ← set_goal_region (lv_base l) targets radius;
      r ← directed_solve cos sin nthreads sched silent cancel compact schur (co_cfg c) None vi w;
      let '(vi, w, out) := r in
      Ok (if so_cancelled out then (c, w, inl Cancelled)
          else if negb (so_converged out) then (c, w, inl NotConverged)
          else (with_cached c (Some (mkCached tx ty 0 (with_base l vi) false)), w,
                inr {| ss_solved_now := true; ss_iters := so_iters out; ss_adopted := false; ss_partial := false |}))
  end.
End silent.
