(* ===== verification/CoreSpec.v ===== *)
(** * The repair queue and the fields of a planner core

    What a core must satisfy for its operations not to panic ([core_ok]), and
    the effect of queueing work: [seed_rect] adds exactly the cells of the
    clipped rectangle, [enqueue_global] touches nothing else. *)

From Stdlib Require Import ZArith Lia.
From stdpp Require Import base gmap strings list numbers.
From S2P Require Import Prelude Floats Model Bellman Consistency Bitboard BitboardOps BitboardEnum Active LocalPlanner LocalSpec Solve Core.

(** ** Seeds *)

Definition seeded (sw : DenseSweep) (x y : Z) : bool :=
  match ds_pending sw with Some bb => has2 bb x y | None => false end.

(** The candidates the current round has still to visit. *)
Definition remaining (sw : DenseSweep) : list (Z * Z) := drop (Z.to_nat (ds_pos sw)) (ds_cands sw).

Definition in_map (nx ny x y : Z) : Prop := 0 ≤ x < nx ∧ 0 ≤ y < ny.

Record sweep_ok (nx ny : Z) (sw : DenseSweep) : Prop := {
  sk_board : ∀ bb, ds_pending sw = Some bb → wf2 bb ∧ b2_map_x bb = nx ∧ b2_map_y bb = ny;
  sk_cands : ∀ x y, (x, y) ∈ ds_cands sw → in_map nx ny x y;
  sk_pos : 0 ≤ ds_pos sw ≤ zlen (ds_cands sw)
}.

Lemma set_cells (l : list (Z * Z)) bb :
  wf2 bb → (∀ c, c ∈ l → in2 bb c.1 c.2) →
  ∃ bb', for_each l (fun c bb => bb2_set bb (as_u32 c.1) (as_u32 c.2)) bb = Ok bb' ∧ wf2 bb' ∧
    same_dims2 bb' bb ∧ ∀ x y, in2 bb x y → has2 bb' x y = has2 bb x y || bool_decide ((x, y) ∈ l).
Proof.
  revert bb. induction l as [|[x0 y0] l IH]; intros bb Hbb Hin.
  { exists bb. split; [done|]. split; [done|]. split; [done|]. intros x y _.
    rewrite bool_decide_false by apply not_elem_of_nil. by rewrite orb_false_r. }
  pose proof (Hin (x0, y0) ltac:(left)) as Hc. cbn in Hc. cbn [for_each fst snd].
  assert (b2_map_y bb < 2 ^ 31) as Hy.
  { pose proof (wf2_wpr bb Hbb). pose proof (w2_x _ Hbb). pose proof (w2_size _ Hbb).
    destruct Hc as [? ?]. assert (0 < b2_wpr bb) by lia. nia. }
  pose proof (w2_x _ Hbb). destruct Hc as [Hx0 Hy0].
  rewrite !as_u32_small by lia.
  destruct (bb2_set_eq bb x0 y0 Hbb) as (b1 & -> & Hb1 & [Dx Dy] & Hh); [by split|].
  rewrite ok_bind. destruct (IH b1 Hb1) as (b2 & -> & Hb2 & [Dx2 Dy2] & Hh2).
  { intros c Hc. unfold in2. rewrite Dx, Dy. apply Hin. by right. }
  exists b2. split; [done|]. split; [done|]. split; [split; congruence|]. intros x y Hxy.
  rewrite Hh2 by (unfold in2 in *; by rewrite Dx, Dy). rewrite Hh by done.
  rewrite <- orb_assoc. f_equal. apply Bool.eq_iff_eq_true.
  rewrite orb_true_iff, !bool_decide_eq_true, elem_of_cons.
  split; [intros [[-> ->]|?]; auto|intros [[= -> ->]|?]; auto].
Qed.

Section queue.
Context (nx ny : Z) (Hx : 0 < nx < 2 ^ 31) (Hy : 0 < ny < 2 ^ 31) (Hw : ny * words_per_row nx < 2 ^ 31).

Lemma seed_rect_spec x0 x1 y0 y1 sw :
  sweep_ok nx ny sw →
  ∃ sw', seed_rect nx ny (x0, x1, y0, y1) sw = Ok sw' ∧ sweep_ok nx ny sw' ∧
    (∃ p, sw' = mkSweep p (ds_cands sw) (ds_pos sw) (ds_visits sw) (ds_last_visits sw) (ds_reach sw)) ∧
    ∀ x y, in_map nx ny x y →
      (seeded sw' x y = true ↔ seeded sw x y = true ∨ x0 ≤ x ≤ x1 ∧ y0 ≤ y ≤ y1).
Proof.
  intros [Hb Hc Hp]. unfold seed_rect.
  set (bb := match ds_pending sw with Some bb => bb | None => _ end).
  assert (wf2 bb ∧ b2_map_x bb = nx ∧ b2_map_y bb = ny ∧ ∀ x y, has2 bb x y = seeded sw x y)
    as (Hbb & Dx & Dy & Hold).
  { unfold bb, seeded. destruct (ds_pending sw) as [b|]; [by destruct (Hb b) as (? & ? & ?)|].
    rewrite !as_u32_small by lia. destruct (bb2_new_wf nx ny) as [? ?]; [lia..|]. done. }
  rewrite !i32_sub_small by (unfold in_i32; lia). rewrite for_rect.
  set (l := rect _ _ _ _).
  replace (for_each l _ bb)
    with (for_each (prod_swap <$> l) (fun c bb => bb2_set bb (as_u32 c.1) (as_u32 c.2)) bb)
    by by rewrite for_each_fmap.
  assert (∀ x y, (x, y) ∈ prod_swap <$> l ↔ in_map nx ny x y ∧ x0 ≤ x ≤ x1 ∧ y0 ≤ y ≤ y1) as Hl.
  { intros x y. rewrite list_elem_of_fmap. split.
    - intros ([y' x'] & [= -> ->] & H%elem_of_window_rect). unfold in_map. lia.
    - intros H. exists (y, x). split; [done|]. apply elem_of_window_rect. unfold in_map in H. lia. }
  destruct (set_cells (prod_swap <$> l) bb Hbb) as (b1 & -> & Hb1 & [D1 D2] & Hh).
  { intros [x y] Hxy%Hl. unfold in2. cbn. rewrite Dx, Dy. apply Hxy. }
  rewrite ok_bind. eexists. split; [done|]. split; [|split; [by eexists|]].
  - split; cbn; try done. intros ? [= <-]. split; [done|]. split; congruence.
  - intros x y Hxy. unfold seeded at 1. cbn. rewrite Hh by (unfold in2; by rewrite Dx, Dy).
    rewrite orb_true_iff, Hold, bool_decide_eq_true, Hl. tauto.
Qed.
End queue.

(** ** Cores *)

(** The geometry a core works with. *)
Record geo : Type := { g_nx : Z; g_ny : Z; g_nt : Z; g_acts : list Action }.

Record core_ok (g : geo) (c : PlannerCore) : Prop := {
  ck_dims : dims_ok (g_nx g) (g_ny g) (g_nt g);
  ck_acts : Forall (wf_action (g_nt g)) (g_acts g);
  ck_grid : og_width (bp_grid (co_build c)) = g_nx g ∧ og_height (bp_grid (co_build c)) = g_ny g;
  ck_sweep : sweep_ok (g_nx g) (g_ny g) (co_sweep c);
  ck_field : ∀ cg, co_cached c = Some cg →
    let vi := lv_base (cg_field cg) in
    wf_vi vi ∧ vi_cell_num_x vi = g_nx g ∧ vi_cell_num_y vi = g_ny g ∧ vi_cell_num_t vi = g_nt g ∧
    vi_actions vi = g_acts g
}.

Lemma geo_bounds g c : core_ok g c →
  0 < g_nx g < 2 ^ 31 ∧ 0 < g_ny g < 2 ^ 31 ∧ 0 < g_nt g < 2 ^ 31 ∧
  g_ny g * words_per_row (g_nx g) < 2 ^ 31.
Proof.
  intros [[Hx Hy Ht Htot] _ _ _ _].
  assert (g_nx g * g_ny g ≤ g_nx g * g_ny g * g_nt g) by nia.
  assert (words_per_row (g_nx g) ≤ g_nx g).
  { pose proof (words_per_row_bounds (g_nx g) ltac:(lia)). lia. }
  split; [nia|]. split; [nia|]. split; nia.
Qed.

(** [c'] is [c] with more cells queued. *)
Definition queues (c c' : PlannerCore) (new : Z → Z → Prop) (g : geo) : Prop :=
  ∃ p d, c' = with_dirty (with_sweep c (mkSweep p (ds_cands (co_sweep c)) (ds_pos (co_sweep c))
             (ds_visits (co_sweep c)) (ds_last_visits (co_sweep c)) (ds_reach (co_sweep c)))) d ∧
  ∀ x y, in_map (g_nx g) (g_ny g) x y →
    (seeded (co_sweep c') x y = true ↔ seeded (co_sweep c) x y = true ∨ new x y).

Lemma queues_none c g : queues c c (fun _ _ => False) g.
Proof.
  exists (ds_pending (co_sweep c)), (co_dirty c). split; [by destruct c as [? ? ? [] ? ?]|].
  intros x y _. tauto.
Qed.

Lemma queues_trans c1 c2 c3 n1 n2 g :
  queues c1 c2 n1 g → queues c2 c3 n2 g → queues c1 c3 (fun x y => n1 x y ∨ n2 x y) g.
Proof.
  intros (p1 & d1 & E1 & H1) (p2 & d2 & E2 & H2). exists p2, d2. split.
  - rewrite E2, E1. reflexivity.
  - intros x y Hxy. rewrite H2, H1 by done. tauto.
Qed.

Lemma queues_ext c c' n1 n2 g : (∀ x y, n1 x y ↔ n2 x y) → queues c c' n1 g → queues c c' n2 g.
Proof.
  intros Hn (p & d & E & H). exists p, d. split; [done|]. intros x y Hxy. by rewrite H, Hn.
Qed.

Lemma enqueue_global_spec g c x0 x1 y0 y1 :
  core_ok g c →
  ∃ c', enqueue_global (x0, x1, y0, y1) c = Ok c' ∧ core_ok g c' ∧
    queues c c' (fun x y => x0 ≤ x ≤ x1 ∧ y0 ≤ y ≤ y1) g.
Proof.
  intros Hc. destruct (geo_bounds g c Hc) as (Hx & Hy & _ & Hw).
  pose proof Hc as [Hd Ha [Gx Gy] Hs Hf]. unfold enqueue_global. rewrite Gx, Gy.
  destruct (seed_rect_spec (g_nx g) (g_ny g) Hx Hy Hw x0 x1 y0 y1 (co_sweep c) Hs)
    as (sw & -> & Hsw & [p ->] & Hq).
  rewrite ok_bind. eexists. split; [done|]. split; [by split|]. exists p, true. split; [done|exact Hq].
Qed.

(** What [enqueue_global] leaves alone. *)
Lemma queues_frame c c' n g :
  queues c c' n g →
  co_build c' = co_build c ∧ co_cfg c' = co_cfg c ∧ co_cached c' = co_cached c ∧ co_global c' = co_global c ∧
  ds_cands (co_sweep c') = ds_cands (co_sweep c) ∧ ds_pos (co_sweep c') = ds_pos (co_sweep c) ∧
  ds_reach (co_sweep c') = ds_reach (co_sweep c).
Proof. by intros (p & d & -> & _). Qed.

(** ** A sample core: a solved corridor of four cells, the goal at its left end *)

Definition solved_cell (ix : Z) : State := with_value (sample_cell 0 ix false) (ix * PROB_BASE) (Some 0).

Definition sample_field (st : list State) : ValueIteratorLocal :=
  with_window (with_base (local_new [] 1) (sample_vi 4 1 1 [step_back; step_away] st)) 2 3 0 0.

Definition sample_states : list State := sample_cell 0 0 true :: (solved_cell <$> [1; 2; 3]).

Definition sample_cfg : PlanConfig :=
  {| pc_scan_penalty_radius := f0; pc_scan_penalty := 0; pc_solver := Frontier2D; pc_max_solve_iter := 100;
     pc_solve_chunk := 1; pc_max_rollout_steps := 100; pc_start_tolerance_cells := 0; pc_path_spacing := f0;
     pc_action_tolerance_cells := 0; pc_follow_controller := FollowGreedy;
     pc_dwa_tick_s := f0_1; pc_dwa_horizon_s := f1; pc_dwa_n_v := 2; pc_dwa_n_w := 3; pc_dwa_lethal_penalty := f0;
     pc_mppi_samples := 2; pc_mppi_lambda := f1; pc_mppi_sigma_v := f0; pc_mppi_sigma_w_deg := f0; pc_sigma_margin_gain := f0;
     pc_map_clear_from_scan := false; pc_global_sweep := true; pc_early_start := true |}.

Definition sample_build : BuildParams :=
  {| bp_grid := {| og_width := 4; og_height := 1; og_resolution := f1; og_origin_x := f0; og_origin_y := f0;
                   og_origin_quat := quat_default; og_data := [0; 0; 0; 0] |};
     bp_actions := [step_back; step_away]; bp_theta_cell_num := 1; bp_map_penalty_radius := f0;
     bp_map_penalty := f0; bp_goal_margin_radius := f0; bp_goal_margin_theta := 0; bp_local_xy_range := f1;
     bp_local_shape := shape_default; bp_patch_slack_cells := 0; bp_repair_interior_cells := 16 |}.

Definition sample_goal (st : list State) : CachedGoal := mkCached f0 f0 0 (sample_field st) false.

Definition sample_core (st : list State) : PlannerCore :=
  with_cached (core_new sample_build sample_cfg) (Some (sample_goal st)).

Definition sample_geo : geo := {| g_nx := 4; g_ny := 1; g_nt := 1; g_acts := [step_back; step_away] |}.

Lemma sample_core_ok st :
  check_vi (sample_vi 4 1 1 [step_back; step_away] st) = true → core_ok sample_geo (sample_core st).
Proof.
  intros H%check_vi_ok. destruct H as [Hd Hst Ha]. split; cbn; try done.
  - split; cbn; [done|by intros x y ?%elem_of_nil|done].
  - intros cg [= <-]. done.
Qed.
