(* ===== verification/Invalidate.v ===== *)
(** * Policies that rest on a cost that rose (vi_planner/src/core/global/invalidate.rs)

    A stored policy rests on the cells its action may lead to.  When the cost
    of some columns rises, [queue_cost_increases] and [advance_invalidations]
    discard exactly the policies from which a raised column can be reached
    along stored actions, however the work is cut into calls. *)

From Stdlib Require Import ZArith Lia.
From stdpp Require Import base gmap strings list numbers.
From S2P Require Import Prelude Floats Model Bellman Consistency Bitboard BitboardOps BitboardEnum Active LocalPlanner LocalSpec Solve Core CoreSpec.

(** ** The reverse table *)

(** The entries of the table, in the order they are pushed. *)
Definition transitions_of (acts : list Action) : list (Z * Z * StateTransition) :=
  enumerated acts ≫= fun a => enumerated (a_state_transitions a.2) ≫= fun th =>
    (fun t => (a.1, th.1, t)) <$> th.2.

Lemma elem_of_transitions acts k th tr :
  (k, th, tr) ∈ transitions_of acts ↔
  ∃ a trs, zget acts k = Some a ∧ zget (a_state_transitions a) th = Some trs ∧ tr ∈ trs.
Proof.
  unfold transitions_of. rewrite list_elem_of_bind. split.
  - intros ([k' a] & H & Hk%elem_of_enumerated).
    apply list_elem_of_bind in H as ([th' trs] & H & Hth%elem_of_enumerated).
    apply list_elem_of_fmap in H as (t & [= -> -> ->] & Ht). by exists a, trs.
  - intros (a & trs & Hk & Hth & Htr). exists (k, a). split; [|by apply elem_of_enumerated].
    apply list_elem_of_bind. exists (th, trs). split; [|by apply elem_of_enumerated].
    apply list_elem_of_fmap. by exists tr.
Qed.

(** The predecessors listed under heading [r]. *)
Definition entries (rev : list (list Predecessor)) (r : Z) : list Predecessor := default [] (zget rev r).

Section table.
Context (nt : Z) (acts : list Action) (Ht : 0 < nt < 2 ^ 31) (Ha : Forall (wf_action nt) acts).

Definition entry_of (e : Z * Z * StateTransition) : Predecessor :=
  mkPred (dix e.2) (diy e.2) e.1.2 e.1.1.

(** The innermost body of [reverse_table]. *)
Definition push_entry (e : Z * Z * StateTransition) (rev : list (list Predecessor))
    : res (list (list Predecessor)) :=
  if prob e.2 >? 0 then
    k ← i32_rem_euclid (dit e.2) nt;
    l ← vget rev k;
    vset rev k (l ++ [mkPred (dix e.2) (diy e.2) (as_i32 e.1.2) e.1.1])
  else Ok rev.

(** [e] is listed under heading [r]. *)
Definition lists (r : Z) (e : Z * Z * StateTransition) (p : Predecessor) : Prop :=
  0 < prob e.2 ∧ dit e.2 mod nt = r ∧ p = entry_of e.

Lemma transitions_wf e : e ∈ transitions_of acts → wf_trans nt e.2 ∧ 0 ≤ e.1.2 < nt.
Proof.
  destruct e as [[k th] tr]. intros (a & trs & Hk & Hth & Htr)%elem_of_transitions.
  assert (wf_action nt a) as Haa.
  { rewrite List.Forall_forall in Ha. apply Ha, list_elem_of_In. by eapply elem_of_zget_1. }
  split; [by eapply (wa_trans _ _ Haa)|]. rewrite <- (wa_len _ _ Haa). by eapply zget_Some_lt.
Qed.

Lemma push_entry_spec e rev :
  e ∈ transitions_of acts → zlen rev = nt →
  ∃ rev', push_entry e rev = Ok rev' ∧ zlen rev' = nt ∧
    ∀ r p, 0 ≤ r < nt → (p ∈ entries rev' r ↔ p ∈ entries rev r ∨ lists r e p).
Proof.
  intros He Hr. destruct (transitions_wf e He) as [_ Hth]. unfold push_entry, lists.
  destruct (prob e.2 >? 0) eqn:Ep.
  2:{ exists rev. split; [done|]. split; [done|]. intros r p _. split; [auto|].
      intros [?|(? & _)]; [done|lia]. }
  unfold i32_rem_euclid. destruct (Z.eqb_spec nt 0); [lia|]. destruct (Z.eqb_spec nt (-1)); [lia|].
  rewrite andb_false_r, ok_bind, Z.abs_eq by lia.
  pose proof (Z.mod_pos_bound (dit e.2) nt ltac:(lia)) as Hm. set (r0 := dit e.2 mod nt) in *.
  destruct (zget_lt rev r0) as [l0 Hl0]; [lia|].
  assert (vget rev r0 = Ok l0) as -> by by apply vget_ok.
  rewrite ok_bind, vset_ok by lia. rewrite as_i32_small by lia. fold (entry_of e).
  eexists. split; [done|]. split; [by rewrite zlen_zset|]. intros r p Hrr.
  assert (entries (zset rev r0 (l0 ++ [entry_of e])) r =
          if decide (r0 = r) then l0 ++ [entry_of e] else entries rev r) as ->.
  { unfold entries. rewrite zget_zset by lia. by case_decide. }
  destruct (decide (r0 = r)) as [<-|Hne].
  - unfold entries. rewrite Hl0. cbn. rewrite elem_of_app, list_elem_of_singleton.
    split; [intros [?| ->]; [auto|]|intros [?|(_ & _ & ?)]; auto].
    right. split; [lia|done].
  - split; [auto|intros [?|(_ & E & _)]; done].
Qed.

Lemma push_entries_spec l rev :
  (∀ e, e ∈ l → e ∈ transitions_of acts) → zlen rev = nt →
  ∃ rev', for_each l push_entry rev = Ok rev' ∧ zlen rev' = nt ∧
    ∀ r p, 0 ≤ r < nt → (p ∈ entries rev' r ↔ p ∈ entries rev r ∨ ∃ e, e ∈ l ∧ lists r e p).
Proof.
  revert rev. induction l as [|e l IH]; intros rev Hl Hr; cbn [for_each].
  { exists rev. split; [done|]. split; [done|]. intros r p _. split; [auto|].
    intros [?|(e & []%elem_of_nil & _)]; done. }
  destruct (push_entry_spec e rev (Hl _ ltac:(left)) Hr) as (rev1 & -> & Hr1 & H1).
  rewrite ok_bind. destruct (IH rev1) as (rev2 & -> & Hr2 & H2); [by intros; apply Hl; right|done|].
  exists rev2. split; [done|]. split; [done|]. intros r p Hrr. rewrite H2, H1 by done. split.
  - intros [[?|?]|(e' & ? & ?)]; [auto|right; exists e|right; exists e'].
    + split; [left|done].
    + split; [by right|done].
  - intros [?|(e' & [->|?]%elem_of_cons & ?)]; [auto|auto|]. right. by exists e'.
Qed.

Lemma reverse_table_spec :
  ∃ rev, reverse_table nt acts = Ok rev ∧ zlen rev = nt ∧
    ∀ r p, 0 ≤ r < nt → (p ∈ entries rev r ↔ ∃ e, e ∈ transitions_of acts ∧ lists r e p).
Proof.
  assert (reverse_table nt acts = for_each (transitions_of acts) push_entry (vec_repeat [] nt)) as ->.
  { unfold reverse_table, transitions_of. rewrite <- for_each_bind. apply for_each_ext.
    intros a rev _. rewrite <- for_each_bind. apply for_each_ext.
    intros th rev' _. by rewrite for_each_fmap. }
  destruct (push_entries_spec (transitions_of acts) (vec_repeat [] nt)) as (rev & -> & Hl & He);
    [done|apply zlen_repeat; lia|].
  exists rev. split; [done|]. split; [done|]. intros r p Hr. rewrite He by done.
  unfold entries at 1. rewrite zget_repeat by lia. cbn. split; [intros [[]%elem_of_nil|?]; done|auto].
Qed.
End table.

(** ** Resting on a cell *)

(** The stored action of [s] may lead to the cell [j]. *)
Definition rests_on (g : geo) (s : State) (j : Z) : Prop :=
  updatable s = true ∧
  ∃ k a tr, s_optimal_action s = Some k ∧ zget (g_acts g) k = Some a ∧ tr ∈ trans_of a s ∧
    0 < prob tr ∧ inside (g_nx g) (g_ny g) s tr = true ∧ target (g_nx g) (g_nt g) s tr = j.

Definition idx (g : geo) (m : Z * Z * Z) : Z := index (g_nx g) (g_nt g) m.1.1 m.1.2 m.2.

Definition on_field (g : geo) (m : Z * Z * Z) : Prop :=
  in_map (g_nx g) (g_ny g) m.1.1 m.1.2 ∧ 0 ≤ m.2 < g_nt g.

Definition place (s : State) : Z * Z * Z := (s_ix s, s_iy s, s_it s).

(** The states from which stored actions may lead to one of [seeds]. *)
Inductive affected (g : geo) (st : list State) (seeds : list (Z * Z * Z)) : Z → Prop :=
| affected_raised m : m ∈ seeds → affected g st seeds (idx g m)
| affected_rests i s j :
    zget st i = Some s → rests_on g s j → affected g st seeds j → affected g st seeds i.

(** The states whose policy has to go. *)
Definition stale (g : geo) (st : list State) (seeds : list (Z * Z * Z)) (s : State) : Prop :=
  ∃ j, affected g st seeds j ∧ rests_on g s j.

(** [s.optimal_action = None] *)
Definition cleared (s : State) : State := with_value s (s_total_cost s) None.

Definition states (c : PlannerCore) : list State :=
  match local c with Some l => vi_states (lv_base l) | None => [] end.

Lemma states_cached c i s :
  zget (states c) i = Some s →
  ∃ cg, co_cached c = Some cg ∧ zget (vi_states (lv_base (cg_field cg))) i = Some s.
Proof.
  unfold states, local. destruct (co_cached c) as [cg|]; [by exists cg|].
  intros Hs%zget_Some_lt. unfold zlen in Hs. cbn in Hs. lia.
Qed.

Definition pending_states (c : PlannerCore) : list (Z * Z * Z) := inv_pending (m_invalidation (co_global c)).

(** The states that hold an action. *)
Definition holding (st : list State) : nat := length (filter (fun s => is_Some (s_optimal_action s)) st).

Lemma holding_clear st i s k :
  zget st i = Some s → s_optimal_action s = Some k → holding st = S (holding (zset st i (cleared s))).
Proof.
  unfold zget, zset, holding. case_decide; [|done]. intros Hs Hk.
  rewrite <- (take_drop_middle st (Z.to_nat i) s Hs) at 1.
  rewrite insert_take_drop by (by eapply lookup_lt_Some).
  rewrite !list.filter_app, !length_app, !list.filter_cons, decide_True by (rewrite Hk; eauto).
  rewrite decide_False by by intros [? [=]]. cbn. lia.
Qed.

Lemma i32_sub_inside x d n :
  0 ≤ x < 2 ^ 31 → - 2 ^ 31 < d < 2 ^ 31 → n < 2 ^ 31 →
  (0 ≤ i32_sub x d < n ↔ 0 ≤ x - d < n) ∧ (0 ≤ x - d < n → i32_sub x d = x - d).
Proof.
  intros. destruct (decide (x - d < 2 ^ 31)).
  - rewrite i32_sub_small by (unfold in_i32; lia). done.
  - assert (i32_sub x d = x - d - 2 ^ 32) as ->.
    { unfold i32_sub, wrap_s. rewrite <- (Z_mod_plus_full _ (-1)), Z.mod_small; lia. }
    lia.
Qed.

(** ** The closure *)

(** The states taken from the queue and those still in it. *)
Definition marks (done_ : list (Z * Z * Z)) (c : PlannerCore) : list (Z * Z * Z) := done_ ++ pending_states c.

Section closure.
Context (g : geo) (c0 : PlannerCore) (cg0 : CachedGoal) (rev : list (list Predecessor)).
Context (seeds : list (Z * Z * Z)).
Context (Hrev : reverse_table (g_nt g) (g_acts g) = Ok rev).

#[local] Abbreviation st0 := (vi_states (lv_base (cg_field cg0))).

(** [done_] has been taken from the queue; nothing but actions, the queues and
    the dirty flag differ from [c0]. *)
Record inv_run (done_ : list (Z * Z * Z)) (c : PlannerCore) : Prop := {
  ir_ok : core_ok g c;
  ir_build : co_build c = co_build c0 ∧ co_cfg c = co_cfg c0;
  ir_cached : co_cached c = Some (with_field cg0 (restates (cg_field cg0) (states c)));
  ir_global : co_global c = with_invalidation (co_global c0) (mkInv rev (pending_states c));
  ir_field : ∀ m, m ∈ marks done_ c → on_field g m;
  ir_cell : ∀ i s, zget st0 i = Some s →
    zget (states c) i = Some s ∨
    zget (states c) i = Some (cleared s) ∧ s_optimal_action s ≠ None ∧
    (∃ m, m ∈ marks done_ c ∧ rests_on g s (idx g m)) ∧ place s ∈ marks done_ c ∧
    seeded (co_sweep c) (s_ix s) (s_iy s) = true;
  ir_marks : ∀ m, m ∈ marks done_ c → affected g st0 seeds (idx g m);
  ir_seeds : ∀ m, m ∈ seeds → m ∈ marks done_ c;
  ir_sweep : ∃ p, co_sweep c = mkSweep p (ds_cands (co_sweep c0)) (ds_pos (co_sweep c0))
    (ds_visits (co_sweep c0)) (ds_last_visits (co_sweep c0)) (ds_reach (co_sweep c0));
  ir_grow : ∀ x y, in_map (g_nx g) (g_ny g) x y → seeded (co_sweep c0) x y = true → seeded (co_sweep c) x y = true;
  ir_len : zlen (states c) = zlen st0;
  ir_count : (length (marks done_ c) + holding (states c) = length seeds + holding st0)%nat
}.

(** Nothing rests on the states of [done_]. *)
Definition none_rests (done_ : list (Z * Z * Z)) (c : PlannerCore) : Prop :=
  ∀ m i s, m ∈ done_ → zget (states c) i = Some s → ¬ rests_on g s (idx g m).

(** [c'] has the states of [c], some of them cleared. *)
Definition clears (c c' : PlannerCore) : Prop :=
  ∀ i s', zget (states c') i = Some s' → ∃ s, zget (states c) i = Some s ∧ (s' = s ∨ s' = cleared s).

#[local] Instance clears_preorder : PreOrder clears.
Proof.
  split; [intros c i s Hs; eauto|]. intros c1 c2 c3 H1 H2 i s3 (s2 & Hs2 & E2)%H2.
  destruct (H1 _ _ Hs2) as (s1 & Hs1 & E1). exists s1. split; [done|].
  destruct E1 as [-> | ->], E2 as [-> | ->]; auto.
Qed.

Lemma cleared_rests s j : ¬ rests_on g (cleared s) j.
Proof. intros (_ & k & a & tr & [=] & _). Qed.

Lemma none_rests_clears done_ c c' : clears c c' → none_rests done_ c → none_rests done_ c'.
Proof.
  intros Hc Hn m i s' Hm (s & Hs & [-> | ->])%Hc; [by eapply Hn|apply cleared_rests].
Qed.

(** The state an entry of the table points back to. *)
Definition matches (x y : Z) (p : Predecessor) (c : PlannerCore) (s : State) : Prop :=
  in_map (g_nx g) (g_ny g) (x - p_dx p) (y - p_dy p) ∧
  zget (states c) (idx g (x - p_dx p, y - p_dy p, p_theta p)) = Some s ∧
  updatable s = true ∧ s_optimal_action s = Some (p_action p).

(** An entry of the table that matches a state is a reason to clear it, and
    every reason is an entry. *)
Lemma entry_rests m p c s :
  core_ok g c → on_field g m → p ∈ entries rev m.2 → matches m.1.1 m.1.2 p c s → rests_on g s (idx g m).
Proof.
  intros Hok [[Hx Hy] Hth] Hp (Hm & Hs & Hu & Ha). destruct (geo_bounds g c Hok) as (_ & _ & Hnt & _).
  pose proof Hok as [Hd Hacts _ _ Hf].
  destruct (reverse_table_spec _ _ Hnt Hacts) as (rev' & Hrev' & _ & He).
  rewrite Hrev in Hrev'. injection Hrev' as <-. apply He in Hp as ([[k th] tr] & Htr & Hpos & Hmod & ->); [|done].
  destruct (transitions_wf _ _ Hacts _ Htr) as [Hw Hth'].
  apply elem_of_transitions in Htr as (a & trs & Hk & Htrs & Htr). cbn in *.
  destruct (states_cached c _ _ Hs) as (cg & Ec & Hs1).
  destruct (Hf cg Ec) as ([_ Hst _] & Ex & Ey & Et & _).
  rewrite Ex, Ey, Et in Hst. destruct Hm as [Hpx Hpy].
  destruct (ws_state _ _ _ _ Hst _ _ Hs1) as [Six Siy Sit E _ _ _]. unfold idx in E. cbn in E.
  destruct (index_inj _ (g_ny g) _ _ _ _ _ _ _ Hpx Hpy Hth' Six Siy Sit E) as (E1 & E2 & E3).
  split; [done|]. exists k, a, tr. split; [done|]. split; [done|].
  split; [by unfold trans_of; rewrite <- E3, Htrs|]. split; [done|].
  unfold inside, target, idx. destruct m as [[x y] th']. cbn in *. rewrite <- E1, <- E2. split.
  { rewrite !andb_true_iff, !Z.leb_le, !Z.ltb_lt. lia. }
  f_equal; try lia. destruct Hw. rewrite Z.rem_mod_nonneg by lia.
  replace (dit tr + g_nt g) with (dit tr + 1 * g_nt g) by lia. by rewrite Z_mod_plus_full.
Qed.

Lemma rests_entry m i c s :
  core_ok g c → on_field g m → zget (states c) i = Some s → rests_on g s (idx g m) →
  ∃ p, p ∈ entries rev m.2 ∧ matches m.1.1 m.1.2 p c s.
Proof.
  intros Hok [[Hx Hy] Hth] Hs (Hu & k & a & tr & Hopt & Hk & Htr & Hpos & Hin & Htgt).
  destruct (geo_bounds g c Hok) as (_ & _ & Hnt & _). pose proof Hok as [Hd Hacts _ _ Hf].
  destruct (reverse_table_spec _ _ Hnt Hacts) as (rev' & Hrev' & _ & He).
  rewrite Hrev in Hrev'. injection Hrev' as <-.
  destruct (states_cached c _ _ Hs) as (cg & Ec & Hs').
  destruct (Hf cg Ec) as ([_ Hst _] & Ex & Ey & Et & _).
  rewrite Ex, Ey, Et in Hst. destruct (ws_state _ _ _ _ Hst _ _ Hs') as [Six Siy Sit E _ _ _].
  assert (wf_action (g_nt g) a) as Haa.
  { rewrite List.Forall_forall in Hacts. apply Hacts, list_elem_of_In. by eapply elem_of_zget_1. }
  pose proof (trans_of_get _ _ _ Haa Sit) as Htrs. pose proof (trans_of_wf _ _ _ _ Haa Htr) as Hw.
  unfold inside in Hin. rewrite !andb_true_iff, !Z.leb_le, !Z.ltb_lt in Hin.
  destruct Hin as [[[? ?] ?] ?]. unfold target, idx in Htgt.
  apply (index_inj _ (g_ny g)) in Htgt as (E1 & E2 & E3); [|lia..|apply target_theta; [lia|done]|done|done|done].
  destruct m as [[x y] th]. cbn in *.
  exists (mkPred (dix tr) (diy tr) (s_it s) k). split.
  - apply He; [done|]. exists (k, s_it s, tr). split.
    { apply elem_of_transitions. by exists a, (trans_of a s). }
    split; [done|]. split; [|done]. cbn. rewrite <- E3. destruct Hw.
    rewrite Z.rem_mod_nonneg by lia. replace (dit tr + g_nt g) with (dit tr + 1 * g_nt g) by lia.
    by rewrite Z_mod_plus_full.
  - unfold matches. cbn. replace (x - dix tr) with (s_ix s) by lia.
    replace (y - diy tr) with (s_iy s) by lia. split; [split; lia|]. split; [|done].
    unfold idx. cbn. by rewrite <- E.
Qed.

Lemma wf_clear nx ny nt st i s : wf_states nx ny nt st → zget st i = Some s → wf_states nx ny nt (zset st i (cleared s)).
Proof.
  intros [Hl Hst] Hs. split; [by rewrite zlen_zset|]. intros j s'.
  rewrite zget_zset by (by eapply zget_Some_lt). case_decide as Hij; [|apply Hst].
  intros [= <-]. subst j. destruct (Hst _ _ Hs). by split.
Qed.

(** The core after one state has lost its action. *)
Definition after_clear (c : PlannerCore) (i : Z) (s : State) : PlannerCore :=
  with_cached c (Some (with_field cg0 (restates (cg_field cg0) (zset (states c) i (cleared s))))).

Lemma after_clear_ok done_ c i s :
  inv_run done_ c → zget (states c) i = Some s → core_ok g (after_clear c i s).
Proof.
  intros H Hs. pose proof (ir_ok _ _ H) as [Hd Ha Hg Hsw Hf]. split; [done..|].
  intros cg [= <-]. destruct (Hf _ (ir_cached _ _ H)) as ([Hd' Hst' Ha'] & Ex & Ey & Et & Ea).
  split; [|done]. split; cbn in *; [done|by apply wf_clear|done].
Qed.

Lemma field_index done_ c m :
  inv_run done_ c → on_field g m →
  to_index (with_states (lv_base (cg_field cg0)) (states c)) m.1.1 m.1.2 m.2 = idx g m ∧
  ∃ s, zget (states c) (idx g m) = Some s ∧ place s = m ∧ 0 ≤ idx g m < 2 ^ 31.
Proof.
  intros H [[Hx Hy] Ht]. pose proof (ir_ok _ _ H) as Hok. pose proof Hok as [Hd _ _ _ Hf].
  destruct (Hf _ (ir_cached _ _ H)) as ([Hd' Hst' _] & Ex & Ey & Et & _). cbn in *.
  unfold to_index. cbn. rewrite Ex, Et, (to_index_raw_small _ (g_ny g)) by done. split; [done|].
  rewrite Ex, Ey, Et in Hst'. pose proof Hd as [? ? ? ?].
  destruct (ws_get _ _ _ _ m.1.1 m.1.2 m.2 Hst') as (s & Hs & E1 & E2 & E3); [done..|].
  exists s. split; [done|]. split; [unfold place; rewrite E1, E2, E3; by destruct m as [[? ?] ?]|].
  apply zget_Some_lt in Hs. rewrite (ws_len _ _ _ _ Hst') in Hs. unfold idx. lia.
Qed.

Lemma invalidate_policy_state_spec done_ c m k :
  inv_run done_ c → on_field g m →
  (∃ s, zget (states c) (idx g m) = Some s ∧ updatable s = true ∧ s_optimal_action s = Some k ∧
     place s = m ∧
     invalidate_policy_state m.1.1 m.1.2 m.2 k c = Ok (after_clear c (idx g m) s, true))
  ∨ invalidate_policy_state m.1.1 m.1.2 m.2 k c = Ok (c, false) ∧
    ∀ s, zget (states c) (idx g m) = Some s → ¬ (updatable s = true ∧ s_optimal_action s = Some k).
Proof.
  intros H Hm. destruct (field_index _ _ _ H Hm) as (Ei & s & Hs & Hp & Hi).
  unfold invalidate_policy_state. rewrite (ir_cached _ _ H). cbn [cg_field with_field lv_base restates with_base].
  rewrite Ei, as_u64_small by (unfold in_u64; lia). cbn [vi_states with_states].
  assert (vget (states c) (idx g m) = Ok s) as -> by by apply vget_ok. rewrite ok_bind.
  destruct (negb (s_free s) || s_final_state s || negb (bool_decide (s_optimal_action s = Some k))) eqn:E.
  - right. split; [done|]. intros s' Hs' [Hu Hk]. rewrite Hs in Hs'. injection Hs' as <-.
    unfold updatable in Hu. rewrite Hk, bool_decide_true in E by done.
    destruct (s_free s), (s_final_state s); done.
  - left. apply orb_false_iff in E as [[E1 E2]%orb_false_iff E3].
    exists s. split; [done|]. split; [unfold updatable; by destruct (s_free s), (s_final_state s)|].
    split; [by apply negb_false_iff, bool_decide_eq_true in E3|]. split; [done|].
    rewrite vset_ok by (by eapply zget_Some_lt). by rewrite ok_bind.
Qed.

(** One entry of the table: what it points back to is cleared and queued. *)
Lemma invalidate_predecessor_spec done_ c m p :
  inv_run done_ c → m ∈ done_ → p ∈ entries rev m.2 → 0 ≤ p_theta p < g_nt g →
  - 2 ^ 31 < p_dx p < 2 ^ 31 → - 2 ^ 31 < p_dy p < 2 ^ 31 →
  ∃ c', invalidate_predecessor m.1.1 m.1.2 p c = Ok c' ∧ inv_run done_ c' ∧ clears c c' ∧
    ∀ s, ¬ matches m.1.1 m.1.2 p c' s.
Proof.
  intros H Hm Hp Hth Hdx Hdy. pose proof (ir_ok _ _ H) as Hok.
  destruct (geo_bounds g c Hok) as (Bx & By & Bt & _).
  assert (on_field g m) as Hf by (apply (ir_field _ _ H), elem_of_app; by left).
  pose proof Hf as [[Hx Hy] _].
  destruct (i32_sub_inside m.1.1 (p_dx p) (g_nx g)) as [Gx Ex]; [lia..|].
  destruct (i32_sub_inside m.1.2 (p_dy p) (g_ny g)) as [Gy Ey]; [lia..|].
  unfold invalidate_predecessor. destruct (ck_grid _ _ Hok) as [-> ->].
  destruct (_ || _) eqn:Eout.
  { exists c. split; [done|]. split; [done|]. split; [reflexivity|]. intros s ([? ?] & _). lia. }
  assert (in_map (g_nx g) (g_ny g) (m.1.1 - p_dx p) (m.1.2 - p_dy p)) as Hin by (split; lia).
  destruct Hin as [Hix Hiy]. rewrite Ex, Ey by done.
  set (q := (m.1.1 - p_dx p, m.1.2 - p_dy p, p_theta p)).
  assert (on_field g q) as Hq by by split.
  destruct (invalidate_policy_state_spec done_ c q (p_action p) H Hq)
    as [(s & Hs & Hu & Hk & Hps & Einv)|[Einv Hno]]; unfold q in Einv; cbn [fst snd] in Einv; rewrite Einv, ok_bind.
  2:{ exists c. split; [done|]. split; [done|]. split; [reflexivity|].
      intros s (_ & Hs & Hu & Hk). by eapply Hno. }
  fold q in Einv. set (c1 := after_clear c (idx g q) s).
  pose proof (after_clear_ok done_ c (idx g q) s H Hs) as Hok1.
  destruct (enqueue_global_spec g (on_manager (push_pending q) c1) (m.1.1 - p_dx p) (m.1.1 - p_dx p)
    (m.1.2 - p_dy p) (m.1.2 - p_dy p)) as (c' & Ec' & Hok' & (pd & dd & Ed & Hseed)).
  { destruct Hok1. by split. }
  cbn [co_sweep on_manager with_global c1 after_clear with_cached] in Ed, Hseed.
  exists c'. split; [exact Ec'|].
  assert (states c' = zset (states c) (idx g q) (cleared s)) as Est by by rewrite Ed.
  assert (pending_states c' = pending_states c ++ [q]) as Epend by by rewrite Ed.
  assert (rests_on g s (idx g m)) as Hrest.
  { by apply (entry_rests m p c s). }
  assert (∀ x, x ∈ marks done_ c' ↔ x ∈ marks done_ c ∨ x = q) as Hmarks.
  { intros x. unfold marks. rewrite Epend, app_assoc, elem_of_app, list_elem_of_singleton. done. }
  assert (zget st0 (idx g q) = Some s) as Hs0.
  { pose proof (zget_Some_lt _ _ _ Hs) as Hlt. rewrite (ir_len _ _ H) in Hlt.
    destruct (zget_lt st0 _ Hlt) as [s0 Hs0]. rewrite Hs0.
    destruct (ir_cell _ _ H _ _ Hs0) as [E|[E _]]; rewrite Hs in E; injection E as E; [by f_equal|].
    by rewrite E in Hk. }
  split; [|split].
  - destruct H as [_ [Hb Hcf] Hca Hgl Hfi Hce Hma Hse [ps Hsw] Hgr Hle Hco]. split; try done.
    + by rewrite Ed.
    + rewrite Ed at 1. cbn. by rewrite Est.
    + rewrite Ed at 1. cbn. unfold push_pending. rewrite Hgl. cbn. by rewrite Epend.
    + intros x [?| ->]%Hmarks; [by apply Hfi|done].
    + intros i s0 Hs0'. rewrite Est, zget_zset by (by eapply zget_Some_lt).
      case_decide as Hi.
      * subst i. rewrite Hs0 in Hs0'. injection Hs0' as <-. right.
        split; [done|]. split; [by rewrite Hk|]. split; [exists m; split; [apply Hmarks; left; apply elem_of_app; by left|done]|].
        split; [apply Hmarks; by right|].
        injection Hps as -> -> _. apply Hseed; [by split|]. right. lia.
      * destruct (Hce i s0 Hs0') as [?|(E & Hn & (j & Hj & Hr) & Hpl & Hsd)]; [by left|right].
        split; [done|]. split; [done|]. split; [exists j; split; [apply Hmarks; by left|done]|].
        split; [apply Hmarks; by left|]. apply Hseed; [|by left].
        apply Hfi in Hpl as [? _]. exact H.
    + intros x [?| ->]%Hmarks; [by apply Hma|]. apply (affected_rests g st0 seeds _ s (idx g m) Hs0 Hrest).
      apply Hma, elem_of_app. by left.
    + intros x ?. apply Hmarks. left. by apply Hse.
    + exists pd. rewrite Ed. cbn. by rewrite Hsw.
    + intros x y Hxy Hsd. apply Hseed; [done|]. left. by apply Hgr.
    + by rewrite Est, zlen_zset.
    + unfold marks in *. rewrite Epend, Est, !length_app in *. cbn [length].
      rewrite (holding_clear (states c) _ s (p_action p) Hs Hk) in Hco. lia.
  - intros i s'. rewrite Est, zget_zset by (by eapply zget_Some_lt).
    case_decide as Hi; [|by eauto]. subst i. intros [= <-]. exists s. auto.
  - intros s' (_ & Hs' & _ & Hk'). fold q in Hs'.
    rewrite Est, zget_zset_eq in Hs' by (by eapply zget_Some_lt). by injection Hs' as <-.
Qed.

(** Every entry of the table, for one state taken from the queue. *)
Lemma invalidate_preds_spec done_ c m :
  inv_run done_ c → m ∈ done_ →
  ∃ c', for_each (entries rev m.2) (invalidate_predecessor m.1.1 m.1.2) c = Ok c' ∧
    inv_run done_ c' ∧ clears c c' ∧
    ∀ p, p ∈ entries rev m.2 → ∀ s, ¬ matches m.1.1 m.1.2 p c' s.
Proof.
  intros H Hm. apply (for_each_mono (inv_run done_) clears (fun p c => ∀ s, ¬ matches m.1.1 m.1.2 p c s));
    [apply _| |done|].
  - intros p c1 c2 Hno Hc s (Hin & Hs & Hu & Ha). apply Hc in Hs as (s1 & Hs1 & [-> | ->]).
    + eapply Hno. by split.
    + done.
  - intros p c1 Hp H1. pose proof (ir_ok _ _ H1) as Hok. destruct (geo_bounds g c1 Hok) as (_ & _ & Hnt & _).
    assert (on_field g m) as [_ Hth] by (apply (ir_field _ _ H1), elem_of_app; by left).
    destruct (reverse_table_spec _ _ Hnt (ck_acts _ _ Hok)) as (rev' & Hrev' & _ & He).
    rewrite Hrev in Hrev'. injection Hrev' as <-. pose proof Hp as Hp'.
    apply He in Hp' as (e & Htr & _ & _ & ->); [|done].
    destruct (transitions_wf _ _ (ck_acts _ _ Hok) _ Htr) as [[] ?].
    by apply (invalidate_predecessor_spec done_ c1 m).
Qed.

(** Taking a state from the queue. *)
Lemma pop_inv done_ c m rest_ :
  inv_run done_ c → pending_states c = m :: rest_ →
  inv_run (done_ ++ [m])
    (on_manager (fun m' => with_invalidation m' (mkInv (inv_reverse (m_invalidation (co_global c))) rest_)) c).
Proof.
  intros H Ep. set (c1 := on_manager _ c).
  assert (marks (done_ ++ [m]) c1 = marks done_ c) as Em.
  { unfold marks. rewrite Ep. cbn. by rewrite <- app_assoc. }
  destruct H as [[? ? ? ? ?] Hb Hca Hgl Hfi Hce Hma Hse Hsw Hgr Hle Hco]. split; rewrite ?Em; try done.
  cbn. rewrite Hgl. by cbn.
Qed.

Lemma advance_spec n done_ c :
  inv_run done_ c → none_rests done_ c →
  ∃ done' c' b, advance_invalidations n c = Ok (c', b) ∧ inv_run done' c' ∧ none_rests done' c' ∧
    (b = true ↔ pending_states c' = []) ∧ (b = false → length done' = length done_ + n)%nat.
Proof.
  revert done_ c. induction n as [|n IH]; intros done_ c H Hn; cbn [advance_invalidations].
  { exists done_, c, (negb (invalidating (co_global c))). split; [done|]. split; [done|]. split; [done|].
    split; [|lia]. unfold invalidating, pending_states. by destruct (inv_pending _). }
  fold (pending_states c). destruct (pending_states c) as [|m rest_] eqn:Ep.
  { exists done_, c, true. by rewrite Ep. }
  pose proof (pop_inv done_ c m rest_ H Ep) as H1. set (c1 := on_manager _ c) in *.
  destruct m as [[x y] theta]. set (m := (x, y, theta)) in *.
  assert (on_field g m) as [_ Hth].
  { apply (ir_field _ _ H1), elem_of_app. left. apply elem_of_app. right. left. }
  pose proof (ir_ok _ _ H) as Hok. destruct (geo_bounds g c Hok) as (_ & _ & Hnt & _).
  destruct (reverse_table_spec _ _ Hnt (ck_acts _ _ Hok)) as (rev' & Hrev' & Hrl & _).
  rewrite Hrev in Hrev'. injection Hrev' as <-. cbn in Hth.
  destruct (zget_lt rev theta) as [preds Hpreds]; [lia|].
  rewrite as_u64_small by (unfold in_u64; lia).
  assert (vget (inv_reverse (m_invalidation (co_global c))) theta = Ok (entries rev theta)) as ->.
  { apply vget_ok. rewrite (ir_global _ _ H). cbn. unfold entries. by rewrite Hpreds. }
  rewrite ok_bind.
  destruct (invalidate_preds_spec (done_ ++ [m]) c1 m H1) as (c2 & E2 & H2 & Hcl & Hno).
  { apply elem_of_app. right. left. }
  cbn [m fst snd] in E2. rewrite E2, ok_bind.
  destruct (IH (done_ ++ [m]) c2 H2) as (done' & c' & b & E & H' & Hn' & Hb & Hl).
  - intros m' i s Hm' Hs Hr. apply elem_of_app in Hm' as [Hm'|Hm'%list_elem_of_singleton].
    + apply (none_rests_clears done_ c1 c2 Hcl Hn m' i s Hm' Hs Hr).
    + subst m'. destruct (rests_entry m i c2 s (ir_ok _ _ H2)) as (p & Hp & Hma); [|done|done|].
      { apply (ir_field _ _ H2), elem_of_app. left. apply elem_of_app. right. left. }
      by eapply Hno.
  - exists done', c', b. split; [done|]. split; [done|]. split; [done|]. split; [done|].
    intros Hbf. rewrite (Hl Hbf), length_app. cbn. lia.
Qed.

(** When the queue is empty, exactly the stale states have been cleared. *)
Lemma closure_done done_ c :
  inv_run done_ c → none_rests done_ c → pending_states c = [] →
  ∀ i s, zget st0 i = Some s →
    (stale g st0 seeds s → zget (states c) i = Some (cleared s) ∧ s_optimal_action s ≠ None ∧
       seeded (co_sweep c) (s_ix s) (s_iy s) = true) ∧
    (¬ stale g st0 seeds s → zget (states c) i = Some s).
Proof.
  intros H Hn Ep.
  assert (marks done_ c = done_) as Em by (unfold marks; by rewrite Ep, app_nil_r).
  assert (∀ j, affected g st0 seeds j → ∃ m, m ∈ done_ ∧ j = idx g m) as Haff.
  { intros j Hj. induction Hj as [m Hm|i s j Hs Hr Hj (m & Hm & ->)].
    { exists m. split; [|done]. rewrite <- Em. by apply (ir_seeds _ _ H). }
    destruct (ir_cell _ _ H i s Hs) as [E|(E & _ & _ & Hp & _)]; [by destruct (Hn m i s Hm E)|].
    exists (place s). rewrite <- Em. split; [done|].
    pose proof (ir_ok _ _ H) as Hok. destruct (ck_field _ _ Hok _ (ir_cached _ _ H)) as ([_ Hst _] & Ex & Ey & Et & _).
    cbn in *. rewrite Ex, Ey, Et in Hst. destruct (ws_state _ _ _ _ Hst _ _ E) as [_ _ _ Ei _ _ _]. done. }
  intros i s Hs. split.
  - intros (j & Hj & Hr). destruct (Haff j Hj) as (m & Hm & ->).
    destruct (ir_cell _ _ H i s Hs) as [E|(E & ? & _ & _ & ?)]; [by destruct (Hn m i s Hm E)|done].
  - intros Hno. destruct (ir_cell _ _ H i s Hs) as [E|(_ & _ & (m & Hm & Hr) & _)]; [done|].
    destruct Hno. exists (idx g m). split; [|done]. by apply (ir_marks _ _ H).
Qed.
End closure.

(** A larger budget gives the same result. *)
Lemma advance_more n k c c' :
  advance_invalidations n c = Ok (c', true) → advance_invalidations (n + k) c = Ok (c', true).
Proof.
  revert c. induction n as [|n IH]; intros c; cbn [advance_invalidations plus].
  - intros [= <- E]. unfold invalidating in E. destruct (inv_pending _) eqn:Ep; [|done].
    destruct k; cbn; unfold invalidating; by rewrite Ep.
  - destruct (inv_pending _) as [|[[x y] th] l]; [done|].
    intros (preds & -> & (c1 & E1 & E2)%bind_ok)%bind_ok. rewrite ok_bind, E1, ok_bind. by apply IH.
Qed.

(** Calls in a row are one call with the sum of the budgets. *)
Lemma advance_split n k c c' :
  advance_invalidations n c = Ok (c', false) →
  advance_invalidations (n + k) c = advance_invalidations k c'.
Proof.
  revert c. induction n as [|n IH]; intros c; cbn [advance_invalidations plus].
  - by intros [= <- _].
  - destruct (inv_pending _) as [|[[x y] th] l]; [done|].
    intros (preds & -> & (c1 & E1 & E2)%bind_ok)%bind_ok. rewrite ok_bind, E1, ok_bind. by apply IH.
Qed.

(** ** Properties *)

(** The table a core has cached is the one of its actions. *)
Definition table_ok (g : geo) (c : PlannerCore) : Prop :=
  inv_reverse (m_invalidation (co_global c)) = [] ∧ pending_states c = [] ∨
  reverse_table (g_nt g) (g_acts g) = Ok (inv_reverse (m_invalidation (co_global c))).

Lemma elem_of_all_headings nt cells m :
  m ∈ all_headings nt cells ↔ m.1 ∈ cells ∧ 0 ≤ m.2 < nt.
Proof.
  unfold all_headings. rewrite list_elem_of_bind. destruct m as [[x y] th]. cbn. split.
  - intros ([x' y'] & H & Hin). apply list_elem_of_fmap in H as (t & [= -> -> ->] & Ht%elem_of_seqZ).
    split; [done|lia].
  - intros [Hin Ht]. exists (x, y). split; [|done]. apply list_elem_of_fmap. exists th.
    split; [done|]. apply elem_of_seqZ. lia.
Qed.

(** A core at the start of a drain. *)
Lemma inv_run_start g c cg rev :
  core_ok g c → co_cached c = Some cg → inv_reverse (m_invalidation (co_global c)) = rev →
  (∀ m, m ∈ pending_states c → on_field g m) →
  inv_run g c cg rev (pending_states c) [] c.
Proof.
  intros Hok Hc Hr Hp.
  assert (states c = vi_states (lv_base (cg_field cg))) as Est by (unfold states, local; by rewrite Hc).
  split; try done.
  - rewrite Hc, Est, restates_self. by destruct cg.
  - rewrite <- Hr. by destruct c as [? ? ? ? [? ? ? ? ? ? ? ? ? ? []] ?].
  - intros i s Hi. left. by rewrite Est.
  - intros m Hm. by apply affected_raised.
  - exists (ds_pending (co_sweep c)). by destruct (co_sweep c).
  - by rewrite Est.
  - by rewrite Est.
Qed.

Lemma queue_cost_increases_spec g c cg cells :
  core_ok g c → co_cached c = Some cg → pc_global_sweep (co_cfg c) = true → table_ok g c →
  cells ≠ [] →
  ∃ rev, reverse_table (g_nt g) (g_acts g) = Ok rev ∧
    queue_cost_increases cells c =
      Ok (with_global c (with_certified (next_boundary_revision (next_epoch
        (with_invalidation (co_global c) (mkInv rev (pending_states c ++ all_headings (g_nt g) cells))))) false)).
Proof.
  intros Hok Hc Hs Ht Hne. destruct (geo_bounds g c Hok) as (_ & _ & Hnt & _).
  destruct (reverse_table_spec _ _ Hnt (ck_acts _ _ Hok)) as (rev & Hrev & Hl & _).
  destruct (ck_field _ _ Hok cg Hc) as (Hwf & Ex & Ey & Et & Ea).
  exists rev. split; [done|]. unfold queue_cost_increases. rewrite bool_decide_false by done.
  rewrite Hs. cbn [orb negb]. set (inv := m_invalidation (co_global c)).
  assert ((match inv_reverse inv with
           | _ :: _ => Ok (Some (inv_reverse inv))
           | [] => match local c with
                   | None => Ok None
                   | Some l => rev ← reverse_table (vi_cell_num_t (lv_base l)) (vi_actions (lv_base l));
                               Ok (Some rev)
                   end
           end) = Ok (Some rev)) as ->.
  { destruct Ht as [[Ht _]|Ht]; fold inv in Ht.
    - rewrite Ht. unfold local. rewrite Hc. cbn. by rewrite Et, Ea, Hrev.
    - rewrite Hrev in Ht. injection Ht as Er. rewrite <- Er. destruct rev; [|done].
      unfold zlen in Hl. cbn in Hl. lia. }
  rewrite ok_bind. assert (as_i32 (zlen rev) = g_nt g) as -> by (rewrite Hl; apply as_i32_small; lia).
  done.
Qed.

(** Draining the queue of any core: states are only cleared, and what is
    cleared is queued for repair. *)
Lemma drain_spec g c cg n :
  core_ok g c → co_cached c = Some cg → table_ok g c → (∀ m, m ∈ pending_states c → on_field g m) →
  ∃ c' b rev, advance_invalidations n c = Ok (c', b) ∧ core_ok g c' ∧
    co_build c' = co_build c ∧ co_cfg c' = co_cfg c ∧
    co_cached c' = Some (with_field cg (restates (cg_field cg) (states c'))) ∧
    co_global c' = with_invalidation (co_global c) (mkInv rev (pending_states c')) ∧ table_ok g c' ∧
    (b = true ↔ pending_states c' = []) ∧ (∀ m, m ∈ pending_states c' → on_field g m) ∧
    (∃ p, co_sweep c' = mkSweep p (ds_cands (co_sweep c)) (ds_pos (co_sweep c))
       (ds_visits (co_sweep c)) (ds_last_visits (co_sweep c)) (ds_reach (co_sweep c))) ∧
    (∀ x y, in_map (g_nx g) (g_ny g) x y → seeded (co_sweep c) x y = true → seeded (co_sweep c') x y = true) ∧
    zlen (states c') = zlen (states c) ∧
    ∀ i s, zget (states c) i = Some s →
      zget (states c') i = Some s ∨
      zget (states c') i = Some (cleared s) ∧ seeded (co_sweep c') (s_ix s) (s_iy s) = true.
Proof.
  intros Hok Hc Ht Hp.
  assert (states c = vi_states (lv_base (cg_field cg))) as Est by (unfold states, local; by rewrite Hc).
  set (rev := inv_reverse (m_invalidation (co_global c))).
  pose proof (inv_run_start g c cg rev Hok Hc eq_refl Hp) as H0.
  assert (∃ d c' b, advance_invalidations n c = Ok (c', b) ∧ inv_run g c cg rev (pending_states c) d c' ∧
    (b = true ↔ pending_states c' = []) ∧ table_ok g c') as (d & c' & b & E & H & Hb & Ht').
  { destruct Ht as [[Hr Hnil]|Hrev].
    - exists [], c, true. split; [|split; [done|split; [done|by left]]].
      unfold pending_states in Hnil. destruct n; cbn [advance_invalidations]; unfold invalidating; by rewrite Hnil.
    - destruct (advance_spec g c cg rev (pending_states c) Hrev n [] c H0) as (d & c' & b & E & H & _ & Hb & _).
      { intros m i s []%elem_of_nil. }
      exists d, c', b. split; [done|]. split; [done|]. split; [done|]. right.
      rewrite (ir_global _ _ _ _ _ _ _ H). done. }
  exists c', b, rev. destruct H as [? [? ?] ? ? Hf Hce ? ? ? ? Hl _]. rewrite Est.
  split; [done|]. split; [done|]. split; [done|]. split; [done|]. split; [done|]. split; [done|].
  split; [done|]. split; [done|]. split.
  { intros m Hm. apply Hf. unfold marks. apply elem_of_app. by right. }
  split; [done|]. split; [done|]. split; [done|].
  intros i s Hi. destruct (Hce i s Hi) as [?|(? & _ & _ & _ & ?)]; [by left|by right].
Qed.

(** C40: raising costs discards exactly the policies that rest on them.  On a
    well-formed dense core without a pending invalidation, queueing the raised
    columns and draining the queue, in one call or several, never panics and
    clears the action of exactly the states from which a raised column can be
    reached along stored actions of positive probability; values, penalties,
    flags and every other policy stay, each cleared cell is queued for repair,
    and [columns * headings + states] steps are enough. *)
Theorem invalidation_exact g c cg cells :
  let st := vi_states (lv_base (cg_field cg)) in
  let raised := all_headings (g_nt g) cells in
  let steps := (length raised + holding st)%nat in
  core_ok g c → co_cached c = Some cg → pc_global_sweep (co_cfg c) = true → table_ok g c →
  pending_states c = [] → cells ≠ [] → (∀ x y, (x, y) ∈ cells → in_map (g_nx g) (g_ny g) x y) →
  ∃ c1 c2, queue_cost_increases cells c = Ok c1 ∧
    (∀ n, (steps ≤ n)%nat → advance_invalidations n c1 = Ok (c2, true)) ∧
    (∀ i s, zget st i = Some s →
       (stale g st raised s → zget (states c2) i = Some (cleared s) ∧ s_optimal_action s ≠ None ∧
          seeded (co_sweep c2) (s_ix s) (s_iy s) = true) ∧
       (¬ stale g st raised s → zget (states c2) i = Some s)) ∧
    zlen (states c2) = zlen st ∧ core_ok g c2 ∧ pending_states c2 = [] ∧
    m_epoch (co_global c2) = u64_add (m_epoch (co_global c)) 1 ∧ m_certified (co_global c2) = false.
Proof.
  intros st raised steps Hok Hc Hs Ht Hp Hne Hin.
  destruct (queue_cost_increases_spec g c cg cells) as (rev & Hrev & E1); [done..|].
  set (c1 := with_global c _) in E1.
  assert (pending_states c1 = raised) as Ep1 by (unfold pending_states; cbn; by rewrite Hp).
  assert (states c1 = st) as Est by (unfold states, local; cbn; by rewrite Hc).
  assert (inv_run g c1 cg rev raised [] c1) as H1.
  { rewrite <- Ep1. apply inv_run_start; [by destruct Hok|done..|].
    intros m Hm. rewrite Ep1 in Hm. apply elem_of_all_headings in Hm as [Hm ?].
    split; [|done]. destruct m as [[x y] th]. by apply Hin. }
  destruct (advance_spec g c1 cg rev raised Hrev steps [] c1 H1) as (d & c2 & b & E2 & H2 & Hn & Hb & Hl).
  { intros m i s []%elem_of_nil. }
  assert (pending_states c2 = []) as Hp2.
  { destruct b; [by apply Hb|]. pose proof (ir_count _ _ _ _ _ _ _ H2) as Hcnt. fold st in Hcnt.
    unfold marks in Hcnt. rewrite length_app, (Hl eq_refl) in Hcnt. unfold steps in *. cbn in Hcnt.
    destruct (pending_states c2); [done|]. cbn in Hcnt. lia. }
  apply Hb in Hp2 as Hbt. subst b.
  exists c1, c2. split; [done|]. split.
  { intros n Hle. replace n with (steps + (n - steps))%nat by lia. by apply advance_more. }
  split; [by apply (closure_done g c1 cg rev raised d)|].
  split; [by apply (ir_len _ _ _ _ _ _ _ H2)|]. split; [by apply (ir_ok _ _ _ _ _ _ _ H2)|]. split; [done|].
  rewrite (ir_global _ _ _ _ _ _ _ H2). cbn. done.
Qed.

Lemma invalidation_exact_witness :
  ∃ c1 c2, queue_cost_increases [(1, 0)] (sample_core sample_states) = Ok c1 ∧
    (∀ n, (4 ≤ n)%nat → advance_invalidations n c1 = Ok (c2, true)).
Proof.
  destruct (invalidation_exact sample_geo (sample_core sample_states) (sample_goal sample_states) [(1, 0)])
    as (c1 & c2 & E1 & E2 & _).
  - apply sample_core_ok. reflexivity.
  - reflexivity.
  - reflexivity.
  - left. split; reflexivity.
  - reflexivity.
  - discriminate.
  - intros x y [= -> ->]%list_elem_of_singleton. unfold in_map. cbn. lia.
  - exists c1, c2. split; [exact E1|exact E2].
Defined.

(** The two cells behind the raised one lose their policy, the raised one keeps it. *)
Example invalidation_of_sample :
  (c ← queue_cost_increases [(1, 0)] (sample_core sample_states);
   r ← advance_invalidations 5 c; Ok (s_optimal_action <$> states r.1, r.2))
  = Ok ([None; Some 0; None; None], true).
Proof. vm_compute. reflexivity. Qed.
