(* ===== verification/GlobalJob.v ===== *)
(** * Repair jobs over the whole field (vi_planner/src/core/global.rs, global/job.rs)

    A job is a snapshot of a bounded batch of queued cells with the halo their
    transitions reach.  It is prepared and committed under the lock of the
    core and run outside it; a commit publishes the columns that nobody has
    touched in between and queues what moved. *)

From Stdlib Require Import ZArith Lia.
From stdpp Require Import base gmap strings list numbers sorting.
From S2P Require Import Prelude Floats Model Bellman Bitboard Active MapSetup LocalPlanner Core.

(** ** The job *)

Definition unchanged (a b : State) : bool :=
  (s_total_cost a =? s_total_cost b) && bool_decide (s_optimal_action a = s_optimal_action b)
  && eqb (s_free a) (s_free b) && eqb (s_final_state a) (s_final_state b)
  && (s_penalty a =? s_penalty b) && (s_local_penalty a =? s_local_penalty b).

Record GlobalJob : Type := mkJob {
  gj_epoch : Z; gj_id : Z;
  gj_vi : ValueIterator;
  gj_before : list State;
  gj_origin : Z * Z;
  gj_cells : list (Z * Z);
  gj_compact : bool;
  gj_reverse : bool * bool;
  gj_delta : Z;
  gj_ran : bool
}.

(** One update of a job, with the saturating sum of the changes. *)
Definition job_update (x y t : Z) (p : ValueIterator * Z) : res (ValueIterator * Z) :=
  r ← value_iteration_at p.1 (as_u64 (to_index p.1 x y t));
  Ok (r.1, u64_sat_add p.2 r.2).

(** Every heading of every cell, once. *)
Definition job_pass (vi : ValueIterator) (cells : list (Z * Z)) : res (ValueIterator * Z) :=
  for_each cells (fun xy p => for_range 0 (vi_cell_num_t p.1) (job_update xy.1 xy.2) p) (vi, 0).

(** The order of a compact job's cells. *)
Definition job_key (reverse : bool * bool) (c : Z * Z) : Z * Z :=
  (if reverse.2 then - c.2 else c.2, if reverse.1 then - c.1 else c.1).

Definition key_le (reverse : bool * bool) (a b : Z * Z) : Prop :=
  let '(ka, kb) := (job_key reverse a, job_key reverse b) in
  ka.1 < kb.1 ∨ ka.1 = kb.1 ∧ ka.2 ≤ kb.2.

#[global] Instance key_le_dec reverse : RelDecision (key_le reverse).
Proof. unfold key_le. intros a b. apply _. Defined.

Definition with_run (j : GlobalJob) (vi : ValueIterator) (cells : list (Z * Z)) (delta : Z) : GlobalJob :=
  mkJob (gj_epoch j) (gj_id j) vi (gj_before j) (gj_origin j) cells (gj_compact j) (gj_reverse j)
    delta true.

Definition job_run (j : GlobalJob) : res GlobalJob :=
  if gj_ran j then Ok j else
  let cells := if gj_compact j then merge_sort (key_le (gj_reverse j)) (gj_cells j) else gj_cells j in
  r ← job_pass (gj_vi j) cells;
  if gj_compact j && (r.2 >? 0) then
    let cells := reverse cells in
    r' ← job_pass r.1 cells;
    Ok (with_run j r'.1 cells (u64_sat_add r.2 r'.2))
  else Ok (with_run j r.1 cells r.2).

(** The actions and the geometry of a field, without its states. *)
Definition geometry (base : ValueIterator) (nx ny : Z) : ValueIterator :=
  let vi := vi_new (vi_actions base) 1 in
  mkVI [] (vi_actions vi) (vi_sweep_orders vi) (vi_thread_status vi) (vi_status vi) (vi_goal_x vi)
    (vi_goal_y vi) (vi_goal_margin_radius vi) (vi_goal_t vi) (vi_goal_margin_theta vi) (vi_thread_num vi)
    (vi_xy_resolution base) (vi_t_resolution base) nx ny (vi_cell_num_t base)
    (vi_map_origin_x vi) (vi_map_origin_y vi) (vi_map_origin_quat vi).

Definition shift_state (s : State) (x0 y0 : Z) : State :=
  mkState (s_total_cost s) (s_penalty s) (s_local_penalty s) (i32_sub (s_ix s) x0) (i32_sub (s_iy s) y0)
    (s_it s) (s_free s) (s_final_state s) (s_optimal_action s).

(** A copy of the states of a rectangle, moved to its corner. *)
Definition snapshot (base : ValueIterator) (x0 x1 y0 y1 : Z) : res ValueIterator :=
  st ← for_incl y0 y1 (fun y st => for_incl x0 x1 (fun x st =>
         for_range 0 (vi_cell_num_t base) (fun t st =>
           s ← vget (vi_states base) (as_u64 (to_index base x y t));
           Ok (st ++ [shift_state s x0 y0])) st) st) [];
  Ok (with_states (geometry base (i32_add (i32_sub x1 x0) 1) (i32_add (i32_sub y1 y0) 1)) st).

(** ** Preparing a job *)

(** Cells from the front of the candidates, while the budget lasts and the
    batch stays within 32 cells in either direction. *)
Fixpoint take_batch (budget : Z) (cands : list (Z * Z)) (box : Z * Z * Z * Z) (cells : list (Z * Z))
    : Z * Z * Z * Z * list (Z * Z) :=
  match cands with
  | [] => (box, cells)
  | c :: rest =>
      if negb (zlen cells <? budget) then (box, cells) else
      let '(x, y) := (as_i32 c.1, as_i32 c.2) in
      let '(x0, x1, y0, y1) := box in
      let '(bx0, bx1, by0, by1) := (Z.min x0 x, Z.max x1 x, Z.min y0 y, Z.max y1 y) in
      if (i32_sub bx1 bx0 >=? 32) || (i32_sub by1 by0 >=? 32) then (box, cells)
      else take_batch budget rest (bx0, bx1, by0, by1) (cells ++ [(x, y)])
  end.

(** The reach of a transition, measured once. *)
Definition sweep_reach (base : ValueIterator) (sw : DenseSweep) : res Z :=
  match ds_reach sw with
  | Some r => Ok r
  | None =>
      let r := transition_reach base in
      _ ← rassert ((1 <=? r) && (r <? 64));
      Ok (as_u32 r)
  end.

(** A new round starts when the candidates of the last one are used up. *)
Definition refill (reach : Z) (sw : DenseSweep) : res DenseSweep :=
  if ds_pos sw >=? zlen (ds_cands sw) then
    match ds_pending sw with
    | None => Ok (mkSweep None [] 0 (ds_visits sw) (ds_last_visits sw) (Some reach))
    | Some seed =>
        d ← dilate2d seed reach reach;
        cands ← enumerate2 d;
        Ok (mkSweep None cands 0 (ds_visits sw) (ds_last_visits sw) (Some reach))
    end
  else Ok (mkSweep (ds_pending sw) (ds_cands sw) (ds_pos sw) (ds_visits sw) (ds_last_visits sw) (Some reach)).

(** Cells the local worker owns are left to it. *)
Fixpoint assign_cells (origin : Z * Z) (candidates : list (Z * Z)) (m : Manager) (cells : list (Z * Z))
    : Manager * list (Z * Z) :=
  match candidates with
  | [] => (m, cells)
  | c :: rest =>
      if bool_decide (c ∈ m_owned m) then
        assign_cells origin rest
          (if m_certified m then m else with_deferred m ({[c]} ∪ m_deferred m)) cells
      else assign_cells origin rest m
             (cells ++ [(i32_sub c.1 origin.1, i32_sub c.2 origin.2)])
  end.

Definition sweep_at (sw : DenseSweep) (pos visits : Z) : DenseSweep :=
  mkSweep (ds_pending sw) (ds_cands sw) pos visits (ds_last_visits sw) (ds_reach sw).

(** The batch, its snapshot and the job, once there are candidates. *)
Definition build_job (max_states reach : Z) (base : ValueIterator) (c : PlannerCore)
    : res (PlannerCore * option GlobalJob) :=
  let sw := co_sweep c in
  let budget := Z.max (max_states / Z.max (vi_cell_num_t base) 1) 1 in
  xy ← vget (ds_cands sw) (ds_pos sw);
  let '(x, y) := (as_i32 xy.1, as_i32 xy.2) in
  let '(x0, x1, y0, y1, candidates) :=
    take_batch budget (drop (Z.to_nat (ds_pos sw)) (ds_cands sw)) (x, x, y, y) [] in
  let '(x0, y0) := (Z.max (i32_sub x0 reach) 0, Z.max (i32_sub y0 reach) 0) in
  let '(x1, y1) := (Z.min (i32_add x1 reach) (i32_sub (vi_cell_num_x base) 1),
                    Z.min (i32_add y1 reach) (i32_sub (vi_cell_num_y base) 1)) in
  vi ← snapshot base x0 x1 y0 y1;
  let '(m, cells) := assign_cells (x0, y0) candidates (co_global c) [] in
  let sw := sweep_at sw (ds_pos sw + zlen candidates) (ds_visits sw + zlen cells) in
  let m := next_serial m in
  let m := with_in_flight m (Some (m_serial m)) in
  let job := mkJob (m_epoch m) (m_serial m) (repair_values vi) (vi_states vi) (x0, y0) cells false
               (false, false) 0 false in
  Ok (with_dirty (with_global (with_sweep c sw) m) true, Some job).

Definition prepare_global_job (max_states : Z) (c : PlannerCore) : res (PlannerCore * option GlobalJob) :=
  r ← advance_invalidations (Z.to_nat (Z.max 1 (Z.min max_states 5000))) c;
  let '(c, drained) := r in
  if negb drained then Ok (c, None) else
  if bool_decide (is_Some (m_in_flight (co_global c))) then Ok (c, None) else
  match co_cached c with
  | None => Ok (c, None)
  | Some g =>
      let base := lv_base (cg_field g) in
      reach ← sweep_reach base (co_sweep c);
      sw ← refill reach (co_sweep c);
      let c := with_sweep c sw in
      if bool_decide (ds_cands sw = []) then Ok ((settle_global c).1, None)
      else build_job max_states reach base c
  end.

(** ** Committing a job *)

(** [iter.all(f)] *)
Fixpoint all_res {A} (f : A → res bool) (l : list A) : res bool :=
  match l with
  | [] => Ok true
  | x :: l => b ← f x; if (b : bool) then all_res f l else Ok false
  end.

(** What the commit has found so far. *)
Record Found : Type := mkFound {
  fo_core : PlannerCore;
  fo_changed : list (Z * Z);
  fo_retry : list (Z * Z)
}.

(** The states of one column: taken from the job, with a note when one moved. *)
Definition publish_column (src : ValueIterator) (nt i dst : Z) (l : ValueIteratorLocal)
    : res (ValueIteratorLocal * bool) :=
  for_range 0 nt (fun t p =>
    s ← vget (vi_states src) (i + t);
    live ← vget (vi_states (lv_base p.1)) (dst + t);
    let moved := negb (s_total_cost live =? s_total_cost s)
                 || negb (bool_decide (s_optimal_action live = s_optimal_action s)) in
    st ← vset (vi_states (lv_base p.1)) (dst + t) (with_value live (s_total_cost s) (s_optimal_action s));
    Ok (with_base p.1 (with_states (lv_base p.1) st), p.2 || moved)) (l, false).

Definition commit_cell (job : GlobalJob) (xy : Z * Z) (f : Found) : res Found :=
  let c := fo_core f in
  let nt := vi_cell_num_t (gj_vi job) in
  let '(gx, gy) := (i32_add xy.1 (gj_origin job).1, i32_add xy.2 (gj_origin job).2) in
  let m := co_global c in
  if bool_decide ((gx, gy) ∈ m_owned m) then
    Ok (mkFound (if m_certified m then c else with_global c (with_deferred m ({[(gx, gy)]} ∪ m_deferred m)))
          (fo_changed f) (fo_retry f))
  else if negb (gj_ran job) then Ok (mkFound c (fo_changed f) (fo_retry f ++ [(gx, gy)])) else
  let i := as_u64 (to_index (gj_vi job) xy.1 xy.2 0) in
  g ← of_option (co_cached c);
  let l := cg_field g in
  let dst := as_u64 (to_index (lv_base l) gx gy 0) in
  same ← all_res (fun t =>
           live ← vget (vi_states (lv_base l)) (dst + t);
           b ← vget (gj_before job) (i + t);
           Ok (unchanged live b)) (seqZ 0 nt);
  if negb same then Ok (mkFound c (fo_changed f) (fo_retry f ++ [(gx, gy)])) else
  r ← publish_column (gj_vi job) nt i dst l;
  Ok (mkFound (with_cached c (Some (with_field g r.1)))
        (if (r.2 : bool) then fo_changed f ++ [(gx, gy)] else fo_changed f) (fo_retry f)).

Definition enqueue_cell (xy : Z * Z) (c : PlannerCore) : res PlannerCore :=
  enqueue_global (xy.1, xy.1, xy.2, xy.2) c.

Definition global_cell (job : GlobalJob) (xy : Z * Z) : Z * Z :=
  (i32_add xy.1 (gj_origin job).1, i32_add xy.2 (gj_origin job).2).

Definition commit_global_job (job : GlobalJob) (c : PlannerCore) : res (PlannerCore * Z * bool) :=
  let m := co_global c in
  if negb (gj_epoch job =? m_epoch m) || negb (bool_decide (m_in_flight m = Some (gj_id job))) then
    c ← (if bool_decide (m_in_flight m = Some (gj_id job)) then
           for_each (gj_cells job) (fun xy => enqueue_cell (global_cell job xy))
             (on_manager (fun m => with_in_flight m None) c)
         else Ok c);
    Ok (c, 0, negb (is_dirty c))
  else
    f ← for_each (gj_cells job) (commit_cell job)
          (mkFound (on_manager (fun m => with_in_flight m None) c) [] []);
    c ← for_each (fo_changed f ++ fo_retry f) enqueue_cell (fo_core f);
    let c := if bool_decide (fo_changed f = []) then c
             else on_manager (fun m => with_certified (next_boundary_revision m) false) c in
    let '(c, done_) := settle_global c in
    Ok (c, gj_delta job, done_).

(** A job prepared, run and committed in one go. *)
Definition sweep_global (max_states : Z) (c : PlannerCore) : res (PlannerCore * Z * bool) :=
  r ← prepare_global_job max_states c;
  match r with
  | (c, None) => Ok (c, 0, negb (is_dirty c))
  | (c, Some job) => job ← job_run job; commit_global_job job c
  end.
