(* ===== verification/LocalJob.v ===== *)
(** * The local worker (vi_planner/src/core/global/ownership.rs, global/local.rs, mod.rs)

    Who owns the cells of the follower's window, the local job over them, and
    the entry points of a control tick that change the inputs of the field:
    moving the window, observing a scan, widening the margins. *)

From Stdlib Require Import ZArith Lia.
From stdpp Require Import base gmap strings list numbers.
From S2P Require Import Prelude Floats Model Bellman Bitboard Active MapSetup LocalPlanner LocalSpec Planner Core GlobalJob.

(** ** Ownership *)

(** The cells of the window, row by row. *)
Definition window_cells (l : ValueIteratorLocal) : res (list (Z * Z)) :=
  for_incl (lv_iy_min l) (lv_iy_max l) (fun y cells =>
    for_incl (lv_ix_min l) (lv_ix_max l) (fun x cells =>
      inside ← in_local_area l x y;
      Ok (if (inside : bool) then cells ++ [(x, y)] else cells)) cells) [].

(** The cells an owner would hold: the window, clipped to the map. *)
Definition claimed_cells (c : PlannerCore) : res (gset (Z * Z)) :=
  match m_owner (co_global c), local c with
  | Some _, Some l =>
      cells ← window_cells l;
      let grid := bp_grid (co_build c) in
      Ok (list_to_set (filter (fun p => 0 ≤ p.1 ∧ 0 ≤ p.2 ∧ p.1 < og_width grid ∧ p.2 < og_height grid) cells))
  | _, _ => Ok ∅
  end.

Definition enqueue_cells (cells : gset (Z * Z)) (c : PlannerCore) : res PlannerCore :=
  for_each (elements cells) enqueue_cell c.

Definition update_local_ownership (c : PlannerCore) : res PlannerCore :=
  owned ← claimed_cells c;
  c ← (if bool_decide (owned = m_owned (co_global c)) then Ok c else
         c ← (if m_certified (co_global c) then Ok c else enqueue_cells (m_owned (co_global c) ∖ owned) c);
         Ok (on_manager (fun m => with_certified (next_local_revision m) false) c));
  let c := on_manager (fun m => with_owned m owned) c in
  let released := m_deferred (co_global c) ∖ owned in
  enqueue_cells released (on_manager (fun m => with_deferred m (m_deferred m ∩ owned)) c).

(** The latest claim wins. *)
Definition claim_local (c : PlannerCore) : res (PlannerCore * Z) :=
  let c := on_manager next_serial c in
  let owner := m_serial (co_global c) in
  c ← update_local_ownership
        (on_manager (fun m => with_certified (with_local_in_flight (with_owner m (Some owner)) None) false) c);
  Ok (c, owner).

Definition release_local (owner : Z) (c : PlannerCore) : res PlannerCore :=
  if bool_decide (m_owner (co_global c) = Some owner) then
    update_local_ownership (on_manager (fun m => with_local_in_flight (with_owner m None) None) c)
  else Ok c.

Definition certify_local (c : PlannerCore) : PlannerCore :=
  on_manager (fun m => with_deferred (with_certified m true) ∅) c.

(** ** Inputs of the window *)

Definition inputs_of (s : State) : bool * Z * Z := (s_free s, s_penalty s, s_local_penalty s).

(** The inputs of the window's cells, read at the first heading. *)
Definition local_inputs (c : PlannerCore) : res (list (bool * Z * Z)) :=
  match local c with
  | None => Ok []
  | Some l =>
      cells ← window_cells l;
      map_res (fun xy =>
        s ← vget (vi_states (lv_base l)) (as_u64 (to_index (lv_base l) xy.1 xy.2 0));
        Ok (inputs_of s)) cells
  end.

(** The cost of entering the cell rose. *)
Definition input_rose (old : bool * Z * Z) (s : State) : bool :=
  let '(free, penalty, local_penalty) := old in
  free && (negb (s_free s)
           || (u64_add (s_penalty s) (s_local_penalty s) >? u64_add penalty local_penalty)).

(** The cells of the window whose cost rose, against the inputs taken before. *)
Fixpoint rises (l : ValueIteratorLocal) (cells : list (Z * Z)) (old : list (bool * Z * Z))
    : res (list (Z * Z)) :=
  match cells, old with
  | xy :: cells, o :: old =>
      s ← vget (vi_states (lv_base l)) (as_u64 (to_index (lv_base l) xy.1 xy.2 0));
      rest ← rises l cells old;
      Ok (if input_rose o s then xy :: rest else rest)
  | _, _ => Ok []
  end.

Definition invalidate_local_inputs (before : list (bool * Z * Z)) (c : PlannerCore) : res PlannerCore :=
  now ← local_inputs c;
  if bool_decide (before = now) then Ok c else
  let c := on_manager (fun m => next_local_revision (with_certified m false)) c in
  match local c with
  | None => Ok c
  | Some l =>
      cells ← window_cells l;
      increased ← rises l cells before;
      c ← queue_cost_increases increased c;
      enqueue_global (lv_ix_min l, lv_ix_max l, lv_iy_min l, lv_iy_max l) c
  end.

(** ** The control tick *)

Section libm.
Context (cos sin : f64 → f64).

Definition set_window (pose : PoseView) (c : PlannerCore) : res PlannerCore :=
  match local c with
  | None => Ok c
  | Some l =>
      l ← set_local_window cos sin l (pv_x pose) (pv_y pose) (pv_yaw_rad pose);
      update_local_ownership (with_local c l)
  end.

(** [vi.clear_map_from_scan = ...; vi.scan_penalty_radius = ...; vi.scan_penalty = ...] *)
Definition with_scan_settings (l : ValueIteratorLocal) (map_clear : bool) (radius : f64) (penalty : Z)
    : ValueIteratorLocal :=
  mkLocal (lv_base l) radius penalty (lv_ix_min l) (lv_ix_max l) (lv_iy_min l) (lv_iy_max l)
    (lv_ixy_range l) (lv_xy_range l) (lv_shape l) (lv_a_fwd l) (lv_a_bwd l) (lv_lat l)
    (lv_center l) (lv_cos_t l) (lv_sin_t l) (lv_prev_xy l) map_clear
    (lv_safety_radius l) (lv_safety_radius_penalty l) (lv_obstacle_dist l).

(** The window's inputs change by [f]; what rested on them is invalidated. *)
Definition change_inputs (f : ValueIteratorLocal → res ValueIteratorLocal) (c : PlannerCore)
    : res PlannerCore :=
  before ← local_inputs c;
  c ← match local c with
      | None => Ok c
      | Some l => l ← f l; Ok (with_local c l)
      end;
  invalidate_local_inputs before c.

Definition observe_scan_gated (fuel : nat) (scan : LaserScan) (pose : PoseView) (shift : Z) (c : PlannerCore)
    : res PlannerCore :=
  let cfg := co_cfg c in
  change_inputs (fun l =>
    set_local_cost_attenuated cos sin fuel
      (with_scan_settings l (pc_map_clear_from_scan cfg) (pc_scan_penalty_radius cfg) (pc_scan_penalty cfg))
      scan (pv_x pose) (pv_y pose) (pv_yaw_rad pose) shift) c.

Definition core_inflate_by_sigma (sigma_m : f64) (c : PlannerCore) : res PlannerCore :=
  let gain := pc_sigma_margin_gain (co_cfg c) in
  if fle gain f0 || fle sigma_m f0 then Ok c else
  let extra := fmin (fmul sigma_m gain) (min_radius_m (bp_local_shape (co_build c))) in
  change_inputs (fun l => inflate_by_sigma l extra) c.
End libm.

(** ** The local job *)

Record LocalJob : Type := mkLocalJob {
  lj_epoch : Z; lj_owner : Z; lj_id : Z; lj_revision : Z; lj_boundary_revision : Z;
  lj_vi : ValueIterator;
  lj_origin : Z * Z;
  lj_cells : list (Z * Z);
  lj_delta : Z;
  lj_ran : bool
}.

Definition lj_with (j : LocalJob) (vi : ValueIterator) (delta : Z) : LocalJob :=
  mkLocalJob (lj_epoch j) (lj_owner j) (lj_id j) (lj_revision j) (lj_boundary_revision j) vi (lj_origin j)
    (lj_cells j) delta true.

(** One sequential pass: [run]. *)
Definition local_run (j : LocalJob) : res LocalJob :=
  if lj_ran j then Ok j else
  r ← for_each (lj_cells j) (fun xy p => for_range 0 (vi_cell_num_t p.1) (job_update xy.1 xy.2) p)
        (lj_vi j, lj_delta j);
  Ok (lj_with j r.1 r.2).

(** What a helper thread computes for its cells, reading the shared snapshot. *)
Definition helper_updates (vi : ValueIterator) (cells : list (Z * Z)) : res (list (Z * Z * option Z)) :=
  for_each cells (fun xy out => for_range 0 (vi_cell_num_t vi) (fun t out =>
    let idx := as_u64 (to_index vi xy.1 xy.2 t) in
    u ← bellman_update vi idx;
    Ok (match u with Some (cost, action) => out ++ [(idx, cost, action)] | None => out end)) out) [].

(** Writing one update back. *)
Definition write_update (u : Z * Z * option Z) (p : ValueIterator * Z) : res (ValueIterator * Z) :=
  let '(idx, cost, action) := u in
  s ← vget (vi_states p.1) idx;
  st ← vset (vi_states p.1) idx (with_value s cost action);
  Ok (with_states p.1 st, u64_sat_add p.2 (Z.abs (s_total_cost s - cost))).

(** [run_parallel]; [clocks k] says whether the CPU clock of helper [k] could
    be read.  [false]: an error, and the job is as it was. *)
Definition local_run_parallel (clocks : Z → bool) (threads : Z) (j : LocalJob) : res (LocalJob * bool) :=
  if lj_ran j then Ok (j, true) else
  if (threads <=? 1) || bool_decide (lj_cells j = []) then j ← local_run j; Ok (j, true) else
  let chunk := div_ceil (zlen (lj_cells j)) threads in
  let parts := chunks chunk (lj_cells j) in
  results ← map_res (helper_updates (lj_vi j)) parts;
  if negb (forallb clocks (seqZ 0 (zlen parts))) then Ok (j, false) else
  r ← for_each results (fun updates p => for_each updates write_update p) (lj_vi j, lj_delta j);
  Ok (lj_with j r.1 r.2, true).

Definition prepare_local_job (c : PlannerCore) : res (PlannerCore * option LocalJob) :=
  r ← advance_invalidations 512 c;
  let '(c, drained) := r in
  if negb drained then Ok (c, None) else
  match m_owner (co_global c) with
  | None => Ok (c, None)
  | Some owner =>
      let m := co_global c in
      if bool_decide (is_Some (m_local_in_flight m)) || bool_decide (m_owned m = ∅) then Ok (c, None) else
      match local c with
      | None => Ok (c, None)
      | Some l =>
          let base := lv_base l in
          let reach := transition_reach base in
          let '(x0, y0) := (Z.max (i32_sub (lv_ix_min l) reach) 0, Z.max (i32_sub (lv_iy_min l) reach) 0) in
          let '(x1, y1) := (Z.min (i32_add (lv_ix_max l) reach) (i32_sub (vi_cell_num_x base) 1),
                            Z.min (i32_add (lv_iy_max l) reach) (i32_sub (vi_cell_num_y base) 1)) in
          vi ← snapshot base x0 x1 y0 y1;
          cells ← for_incl (lv_ix_min l) (lv_ix_max l) (fun x cells =>
                    for_incl (lv_iy_min l) (lv_iy_max l) (fun y cells =>
                      inside ← in_local_area l x y;
                      Ok (if (inside : bool) && bool_decide ((x, y) ∈ m_owned m)
                          then cells ++ [(i32_sub x x0, i32_sub y y0)] else cells)) cells) [];
          let m := next_serial m in
          let m := with_local_in_flight m (Some (m_serial m)) in
          Ok (with_global c m,
              Some (mkLocalJob (m_epoch m) owner (m_serial m) (m_local_revision m) (m_boundary_revision m)
                      (repair_values vi) (x0, y0) cells 0 false))
      end
  end.

(** One column of the local commit. *)
Definition local_commit_cell (job : LocalJob) (xy : Z * Z) (p : ValueIteratorLocal * list (Z * Z))
    : res (ValueIteratorLocal * list (Z * Z)) :=
  let '(gx, gy) := (i32_add xy.1 (lj_origin job).1, i32_add xy.2 (lj_origin job).2) in
  let dst := as_u64 (to_index (lv_base p.1) gx gy 0) in
  let src := as_u64 (to_index (lj_vi job) xy.1 xy.2 0) in
  r ← publish_column (lj_vi job) (vi_cell_num_t (lj_vi job)) src dst p.1;
  let '(l, moved) := r in
  Ok (l, if (moved : bool) then p.2 ++ [(gx, gy)] else p.2).

(** [None]: stale or unexecuted work, nothing published. *)
Definition commit_local_job (job : LocalJob) (c : PlannerCore) : res (PlannerCore * option Z) :=
  let m := co_global c in
  let mine := bool_decide (m_local_in_flight m = Some (lj_id job)) in
  if negb (lj_epoch job =? m_epoch m) || negb (bool_decide (m_owner m = Some (lj_owner job))) || negb mine then
    Ok (if mine then on_manager (fun m => with_local_in_flight m None) c else c, None)
  else
    let c := on_manager (fun m => with_local_in_flight m None) c in
    if negb (lj_ran job) || negb (lj_revision job =? m_local_revision m) then Ok (c, None) else
    match local c with
    | None => Ok (c, None)
    | Some l =>
        r ← for_each (lj_cells job) (local_commit_cell job) (l, []);
        let '(l, changed) := r in
        c ← for_each changed enqueue_cell (with_local c l);
        let c := on_manager (fun m => with_certified m false) c in
        let c := if (lj_delta job =? 0) && (lj_boundary_revision job =? m_boundary_revision (co_global c))
                 then certify_local c else c in
        Ok ((settle_global c).1, Some (lj_delta job))
    end.

(** The order of the queue a core is seeded with, for witnesses. *)
Example window_of_sample : window_cells sample_local = Ok [(0, 0); (1, 0); (2, 0); (3, 0)].
Proof. vm_compute. reflexivity. Qed.
