(* ===== verification/Repair.v ===== *)
(** * When the background repair is complete

    The repair of the dense field keeps one promise: a state that is not
    Bellman consistent lies within the reach of a queued cell, among the
    candidates of the current round, or in the job that is out ([covered]).
    This file defines the promise and shows what a backup can see of a change;
    RepairJob.v shows that the jobs keep it. *)

From Stdlib Require Import ZArith Lia.
From stdpp Require Import base gmap strings list numbers.
From S2P Require Import Prelude Floats Model Bellman Consistency Bitboard BitboardOps BitboardEnum Active LocalPlanner LocalSpec Core CoreSpec Invalidate.

(** ** Backups over two fields

    [sees] relates a state of a field with its image in another field: the
    same transitions stay inside, and lead to entries with the same inputs. *)

Definition same_entry (a b : State) : Prop :=
  s_free a = s_free b ∧ s_total_cost a = s_total_cost b ∧ s_penalty a = s_penalty b ∧
  s_local_penalty a = s_local_penalty b.

#[global] Instance same_entry_equiv : Equivalence same_entry.
Proof.
  unfold same_entry. split; [done|intros ? ? (? & ? & ? & ?); by repeat split|].
  intros ? ? ? (? & ? & ? & ?) (? & ? & ? & ?). repeat split; congruence.
Qed.

Section transport.
Context (nt : Z) (acts : list Action).

Record sees (nx ny : Z) (st : list State) (s : State) (nx' ny' : Z) (st' : list State) (s' : State) : Prop := {
  se_it : s_it s = s_it s';
  se_inside : ∀ a tr, a ∈ acts → tr ∈ trans_of a s → inside nx ny s tr = inside nx' ny' s' tr;
  se_entry : ∀ a tr, a ∈ acts → tr ∈ trans_of a s → inside nx ny s tr = true →
    ∃ b b', zget st (target nx nt s tr) = Some b ∧ zget st' (target nx' nt s' tr) = Some b' ∧ same_entry b b'
}.

Section two.
Context (nx ny nx' ny' : Z) (st st' : list State) (s s' : State) (H : sees nx ny st s nx' ny' st' s').

Lemma sees_trans a : trans_of a s = trans_of a s'.
Proof. unfold trans_of. by rewrite (se_it _ _ _ _ _ _ _ _ H). Qed.

Lemma sees_blocked a tr :
  a ∈ acts → tr ∈ trans_of a s → blocked nx ny nt st s tr = blocked nx' ny' nt st' s' tr.
Proof.
  intros Ha Htr. unfold blocked. rewrite <- (se_inside _ _ _ _ _ _ _ _ H a tr) by done.
  destruct (inside nx ny s tr) eqn:E; [|done]. cbn.
  destruct (se_entry _ _ _ _ _ _ _ _ H a tr) as (b & b' & -> & -> & (-> & _)); done.
Qed.

Lemma sees_existsb a :
  a ∈ acts → existsb (blocked nx ny nt st s) (trans_of a s) = existsb (blocked nx' ny' nt st' s') (trans_of a s').
Proof.
  intros Ha. rewrite <- sees_trans. pose proof (sees_blocked a) as Hb. revert Hb.
  generalize (trans_of a s) as l. induction l as [|tr l IH]; intros Hb; [done|]. cbn.
  rewrite Hb by first [done|by left]. rewrite IH; [done|]. intros. apply Hb; [done|by right].
Qed.

Lemma sees_open a tr :
  a ∈ acts → tr ∈ trans_of a s → existsb (blocked nx ny nt st s) (trans_of a s) = false →
  ∃ b b', zget st (target nx nt s tr) = Some b ∧ zget st' (target nx' nt s' tr) = Some b' ∧ same_entry b b'.
Proof.
  intros Ha Htr He. apply (se_entry _ _ _ _ _ _ _ _ H a); [done..|].
  destruct (inside nx ny s tr) eqn:E; [done|].
  assert (existsb (blocked nx ny nt st s) (trans_of a s) = true); [|congruence].
  apply existsb_exists. exists tr. split; [by apply list_elem_of_In|]. unfold blocked. by rewrite E.
Qed.

Lemma sees_bellman : bellman nx ny nt acts st s = bellman nx' ny' nt acts st' s'.
Proof.
  unfold bellman, action_costs. f_equal. apply list_fmap_ext. intros k a Hk%list_elem_of_lookup_2.
  unfold backup. rewrite <- sees_existsb by done.
  destruct (existsb _ _) eqn:Ee; [done|]. do 2 f_equal. rewrite <- sees_trans.
  pose proof (fun tr Htr => sees_open a tr Hk Htr Ee) as Hopen. revert Hopen. clear Ee.
  generalize (trans_of a s) as l. induction l as [|tr l IH]; intros Hopen; [done|]. cbn.
  rewrite IH by (intros; apply Hopen; by right). f_equal. f_equal. unfold succ_cost, entry_cost.
  destruct (Hopen tr ltac:(left)) as (b & b' & -> & -> & (_ & -> & -> & ->)). done.
Qed.

(** What is read on the one side is read on the other, at the same cost. *)
Lemma sees_reads j' :
  j' ∈ reads nx' ny' nt acts st' s' → ∃ j, j ∈ reads nx ny nt acts st s ∧ cost_at st j = cost_at st' j'.
Proof.
  intros (a & tr & Ha & Htr & -> & He)%elem_of_reads. rewrite <- sees_trans in Htr.
  rewrite <- sees_existsb in He by done.
  destruct (sees_open a tr Ha Htr He) as (b & b' & E & E' & (_ & Hc & _)).
  exists (target nx nt s tr). split; [apply elem_of_reads; by eauto 8|].
  unfold cost_at. rewrite E, E'. cbn. by rewrite Hc.
Qed.
End two.
End transport.

(** ** The promise *)

(** The field the repair calculates with. *)
Definition repaired (st : list State) : list State := repair_state <$> st.

Definition g_bellman (g : geo) (st : list State) (s : State) : Z * option Z :=
  bellman (g_nx g) (g_ny g) (g_nt g) (g_acts g) st s.
Definition g_reads (g : geo) (st : list State) (s : State) : list Z :=
  reads (g_nx g) (g_ny g) (g_nt g) (g_acts g) st s.
Definition g_sees (g : geo) (st : list State) (s : State) (st' : list State) (s' : State) : Prop :=
  sees (g_nt g) (g_acts g) (g_nx g) (g_ny g) st s (g_nx g) (g_ny g) st' s'.

(** Unreached, and reading unreached cells only. *)
Definition quiet (g : geo) (st : list State) (s : State) : Prop :=
  s_total_cost s = MAX_COST ∧ s_optimal_action s = None ∧
  ∀ j, j ∈ g_reads g st s → cost_at st j = Some MAX_COST.

Definition good (g : geo) (st : list State) (s : State) : Prop :=
  policy_invalidated s = false ∧
  (g_bellman g (repaired st) s = (s_total_cost s, s_optimal_action s) ∨ quiet g (repaired st) s).

Definition reach_of (acts : list Action) : Z :=
  foldr (fun t m => Z.max m (Z.max (i32_abs (dix t)) (i32_abs (diy t)))) 0
    (acts ≫= fun a => mjoin (a_state_transitions a)).

Definition near (g : geo) (x y x' y' : Z) : Prop :=
  Z.abs (x - x') ≤ reach_of (g_acts g) ∧ Z.abs (y - y') ≤ reach_of (g_acts g).

#[global] Instance near_dec g x y x' y' : Decision (near g x y x' y').
Proof. unfold near. apply _. Defined.

(** A cell within the reach of a queued one. *)
Definition near_seed (g : geo) (sw : DenseSweep) (x y : Z) : Prop :=
  ∃ x' y', in_map (g_nx g) (g_ny g) x' y' ∧ seeded sw x' y' = true ∧ near g x y x' y'.

Lemma reach_nonneg acts : 0 ≤ reach_of acts.
Proof.
  unfold reach_of. induction (acts ≫= _) as [|t l IH]; cbn; lia.
Qed.

Lemma near_refl g x y : near g x y x y.
Proof. unfold near. pose proof (reach_nonneg (g_acts g)). lia. Qed.

Lemma seed_near g sw x y : in_map (g_nx g) (g_ny g) x y → seeded sw x y = true → near_seed g sw x y.
Proof. intros. exists x, y. split; [done|]. split; [done|apply near_refl]. Qed.

(** Every transition of a state stays within the reach. *)
Lemma reach_spec nt acts a s tr :
  Forall (wf_action nt) acts → a ∈ acts → tr ∈ trans_of a s →
  Z.abs (dix tr) ≤ reach_of acts ∧ Z.abs (diy tr) ≤ reach_of acts.
Proof.
  intros Ha Hin Htr.
  assert (wf_trans nt tr) as [Hx Hy _ _].
  { apply (trans_of_wf nt a s); [|done]. rewrite List.Forall_forall in Ha. by apply Ha, list_elem_of_In. }
  assert (tr ∈ acts ≫= fun a => mjoin (a_state_transitions a)) as Hall.
  { apply list_elem_of_bind. exists a. split; [|done]. apply list_elem_of_join.
    unfold trans_of in Htr. destruct (zget _ _) as [l|] eqn:E; [|by apply elem_of_nil in Htr].
    exists l. split; [done|]. by eapply elem_of_zget_1. }
  unfold reach_of. revert Hall. induction (acts ≫= _) as [|t l IH]; intros Hall; [by apply elem_of_nil in Hall|].
  cbn. apply elem_of_cons in Hall as [<-|Hall]; [|specialize (IH Hall); lia].
  unfold i32_abs. destruct (Z.eqb_spec (dix tr) (- 2 ^ 31)); [lia|].
  destruct (Z.eqb_spec (diy tr) (- 2 ^ 31)); lia.
Qed.

(** Where a transition leads. *)
Lemma target_place g st s i tr a :
  dims_ok (g_nx g) (g_ny g) (g_nt g) → Forall (wf_action (g_nt g)) (g_acts g) →
  wf_states (g_nx g) (g_ny g) (g_nt g) st → zget st i = Some s → a ∈ g_acts g → tr ∈ trans_of a s →
  inside (g_nx g) (g_ny g) s tr = true →
  ∃ b, zget st (target (g_nx g) (g_nt g) s tr) = Some b ∧
    s_ix b = s_ix s + dix tr ∧ s_iy b = s_iy s + diy tr ∧ s_it b = Z.rem (dit tr + g_nt g) (g_nt g) ∧
    near g (s_ix s) (s_iy s) (s_ix b) (s_iy b).
Proof.
  intros Hd Ha Hst Hs Hin Htr Hi. pose proof Hd as [Hx Hy Ht _].
  assert (wf_trans (g_nt g) tr) as Hw.
  { apply (trans_of_wf _ a s); [|done]. rewrite List.Forall_forall in Ha. by apply Ha, list_elem_of_In. }
  unfold inside in Hi. rewrite !andb_true_iff, !Z.leb_le, !Z.ltb_lt in Hi. destruct Hi as [[[? ?] ?] ?].
  destruct (ws_get _ _ _ st (s_ix s + dix tr) (s_iy s + diy tr) (Z.rem (dit tr + g_nt g) (g_nt g)) Hst)
    as (b & Hb & Ex & Ey & Et); [done|done|lia|lia|by apply target_theta|].
  exists b. unfold target. rewrite Hb, Ex, Ey, Et. split; [done|]. split; [done|]. split; [done|].
  split; [done|]. destruct (reach_spec _ _ a s tr Ha Hin Htr). unfold near. lia.
Qed.
