(* ===== verification/RepairJob.v ===== *)
(** * What a repair job computes and publishes (vi_planner/src/core/global.rs, global/job.rs)

    The pass of a job is a sequential sweep of its cells over the snapshot;
    [job_ok] ties the snapshot to the live field, and [published_good] shows
    that a column the commit publishes is consistent with the live field
    unless a cell near it has been queued. *)

From Stdlib Require Import ZArith Lia.
From stdpp Require Import base gmap strings list numbers.
From S2P Require Import Prelude Floats Model Bellman Consistency Original Bitboard BitboardOps BitboardEnum Active MapSetup LocalPlanner LocalSpec Core CoreSpec Invalidate GlobalJob Repair.

(** ** The pass of a job *)

(** The states of the cells, in the order of the pass. *)
Definition job_order (lx nt : Z) (cells : list (Z * Z)) : list Z :=
  cells ≫= fun c => (fun t => index lx nt c.1 c.2 t) <$> seqZ 0 nt.

Lemma elem_of_job_order lx nt cells i :
  i ∈ job_order lx nt cells ↔ ∃ x y t, (x, y) ∈ cells ∧ 0 ≤ t < nt ∧ i = index lx nt x y t.
Proof.
  unfold job_order. rewrite list_elem_of_bind. split.
  - intros ([x y] & H & Hin). apply list_elem_of_fmap in H as (t & -> & Ht%elem_of_seqZ).
    exists x, y, t. split; [done|]. split; [lia|done].
  - intros (x & y & t & Hin & Ht & ->). exists (x, y). split; [|done].
    apply list_elem_of_fmap. exists t. split; [done|]. apply elem_of_seqZ. lia.
Qed.

Lemma job_order_NoDup lx ly nt cells :
  (∀ x y, (x, y) ∈ cells → in_map lx ly x y) → NoDup cells → NoDup (job_order lx nt cells).
Proof.
  intros Hin Hnd. unfold job_order. apply NoDup_bind; [| |done].
  - intros [x y] [x' y'] i Hc Hc' Hi Hi'.
    apply list_elem_of_fmap in Hi as (t & -> & Ht%elem_of_seqZ), Hi' as (t' & Ei & Ht'%elem_of_seqZ).
    destruct (Hin _ _ Hc), (Hin _ _ Hc'). cbn in Ei.
    apply (index_inj _ ly) in Ei as (-> & -> & _); [done|lia..].
  - intros [x y] Hc. destruct (Hin _ _ Hc). apply NoDup_fmap_2_strong; [|apply NoDup_seqZ].
    intros t t' Ht%elem_of_seqZ Ht'%elem_of_seqZ Ei. cbn in Ei.
    by apply (index_inj _ ly) in Ei as (_ & _ & ?); [|lia..].
Qed.

(** Two fields of the same values. *)
Definition same_costs (st st' : list State) : Prop := ∀ i, cost_at st' i = cost_at st i.

Lemma update_same_costs nx ny nt acts st i :
  delta nx ny nt acts st i = 0 → same_costs st (update nx ny nt acts st i).
Proof.
  intros H%delta_zero j. destruct (decide (i = j)) as [<-|Hne]; [done|]. by apply cost_update_ne.
Qed.

(** The sum of the changes is 0 only when no value moved. *)
Lemma job_indices order vi d :
  wf_vi vi → in_field vi order → 0 ≤ d →
  ∃ d', for_each order (fun i p => r ← value_iteration_at p.1 i; Ok (r.1, u64_sat_add p.2 r.2)) (vi, d)
    = Ok (with_states vi (vi_updates vi order), d') ∧
    0 ≤ d' ∧ (d' = 0 → d = 0 ∧ same_costs (vi_states vi) (vi_updates vi order)).
Proof.
  revert vi d. induction order as [|i order IH]; intros vi d Hwf Ho Hd0.
  { exists d. unfold vi_updates. cbn. split; [by destruct vi|]. done. }
  inversion_clear Ho as [|?? Hi Ho']. cbn [for_each fst snd].
  rewrite value_iteration_at_eq by done. rewrite !ok_bind. cbn [fst snd].
  set (δ := delta _ _ _ _ _ _). pose proof (delta_nonneg (vi_cell_num_x vi) (vi_cell_num_y vi) (vi_cell_num_t vi)
    (vi_actions vi) (vi_states vi) i) as Hδ. fold δ in Hδ.
  assert (0 ≤ u64_sat_add d δ ∧ (u64_sat_add d δ = 0 → d = 0 ∧ δ = 0)) as [Hn0 Hz0]
    by (unfold u64_sat_add, U64_MAX; lia).
  match goal with |- context [for_each order _ (?v, ?m')] => destruct (IH v m') as (d' & E & Hn & Hz) end.
  - destruct Hwf as [Hd Hst Ha]. split; cbn; try done. by apply update_wf.
  - unfold in_field. cbn. by rewrite zlen_update.
  - done.
  - exists d'. split; [exact E|]. split; [done|]. intros Hd'. destruct (Hz Hd') as [Hs Hc].
    destruct (Hz0 Hs) as [? Hδ0]. split; [done|]. intros k. etransitivity; [apply Hc|]. by apply update_same_costs.
Qed.

Lemma job_pass_eq vi cells :
  wf_vi vi → (∀ x y, (x, y) ∈ cells → in_map (vi_cell_num_x vi) (vi_cell_num_y vi) x y) →
  let order := job_order (vi_cell_num_x vi) (vi_cell_num_t vi) cells in
  ∃ d, job_pass vi cells = Ok (with_states vi (vi_updates vi order), d) ∧
    0 ≤ d ∧ (d = 0 → same_costs (vi_states vi) (vi_updates vi order)).
Proof.
  intros Hwf Hin. pose proof Hwf as [Hd Hst _]. unfold job_pass.
  set (step := fun (i : Z) (p : ValueIterator * Z) =>
    r ← value_iteration_at p.1 i; Ok (r.1, u64_sat_add p.2 r.2)).
  assert (∀ x y ts p, in_map (vi_cell_num_x vi) (vi_cell_num_y vi) x y →
    Forall (fun t => 0 ≤ t < vi_cell_num_t vi) ts → p.1 = with_states vi (vi_states p.1) →
    for_each ts (job_update x y) p =
      for_each ((fun t => index (vi_cell_num_x vi) (vi_cell_num_t vi) x y t) <$> ts) step p ∧
    ∀ p', for_each ts (job_update x y) p = Ok p' → p'.1 = with_states vi (vi_states p'.1)) as Hcol.
  { intros x y ts. induction ts as [|t ts IH]; intros p Hxy Hts Hp; [by split; [|intros p' [= <-]]|].
    inversion_clear Hts as [|?? Ht Hts']. cbn [for_each fmap list_fmap].
    assert (job_update x y t p = step (index (vi_cell_num_x vi) (vi_cell_num_t vi) x y t) p) as ->.
    { unfold job_update, step. do 2 f_equal.
      rewrite Hp. unfold to_index. cbn. destruct Hxy as [Hx Hy].
      rewrite (to_index_raw_small _ _ _ _ _ _ Hd) by done.
      pose proof (index_bounds _ _ _ x y t Hx Hy Ht). pose proof (dims_total _ _ _ Hd).
      apply as_u64_small. unfold in_u64. lia. }
    destruct (step _ p) as [r| |] eqn:Ev; [|split; [done|cbn; discriminate]..].
    rewrite !ok_bind. apply IH; [done..|]. unfold step in Ev.
    apply bind_ok in Ev as (r1 & Ev & [= <-]). cbn. unfold value_iteration_at in Ev.
    apply bind_ok in Ev as (r2 & _ & [= <-]). cbn. by rewrite Hp. }
  assert (∀ l p, (∀ x y, (x, y) ∈ l → in_map (vi_cell_num_x vi) (vi_cell_num_y vi) x y) →
    p.1 = with_states vi (vi_states p.1) →
    for_each l (fun xy p => for_range 0 (vi_cell_num_t p.1) (job_update xy.1 xy.2) p) p =
    for_each (job_order (vi_cell_num_x vi) (vi_cell_num_t vi) l) step p) as H.
  { induction l as [|[x y] l IH]; intros p Hl Hp; [done|].
    unfold job_order. rewrite bind_cons, for_each_app. fold (job_order (vi_cell_num_x vi) (vi_cell_num_t vi) l).
    cbn [for_each fst snd].
    assert (vi_cell_num_t p.1 = vi_cell_num_t vi) as -> by by rewrite Hp.
    destruct (Hcol x y (seqZ 0 (vi_cell_num_t vi)) p) as [E Hkeep]; [apply Hl; left|by apply Forall_seqZ|done|].
    unfold for_range. rewrite Z.sub_0_r, E in *.
    destruct (for_each _ step p) as [p1| |]; [|done..]. rewrite !ok_bind.
    apply IH; [intros; apply Hl; by right|by apply Hkeep]. }
  rewrite H by (done || by destruct vi). set (order := job_order _ _ cells).
  destruct (job_indices order vi 0 Hwf) as (d & E & Hn & Hz); [|done|exists d; split; [done|]; split; [done|]; intros ?; by apply Hz].
  unfold in_field, order. apply List.Forall_forall. intros i Hi%list_elem_of_In.
  apply elem_of_job_order in Hi as (x & y & t & Hxy & Ht & ->). apply Hin in Hxy as [? ?].
  rewrite (ws_len _ _ _ _ Hst). by apply index_bounds.
Qed.

(** ** The tie between a job and the live field *)

Record job_ok (g : geo) (st : list State) (sw : DenseSweep) (j : GlobalJob) : Prop := {
  jo_wf : wf_vi (gj_vi j);
  jo_nt : vi_cell_num_t (gj_vi j) = g_nt g ∧ vi_actions (gj_vi j) = g_acts g;
  jo_box : 0 ≤ (gj_origin j).1 ∧ (gj_origin j).1 + vi_cell_num_x (gj_vi j) ≤ g_nx g ∧
           0 ≤ (gj_origin j).2 ∧ (gj_origin j).2 + vi_cell_num_y (gj_vi j) ≤ g_ny g;
  jo_before : wf_states (vi_cell_num_x (gj_vi j)) (vi_cell_num_y (gj_vi j)) (g_nt g) (gj_before j);
  jo_nodup : NoDup (gj_cells j);
  jo_cells : ∀ x y, (x, y) ∈ gj_cells j →
    in_map (vi_cell_num_x (gj_vi j)) (vi_cell_num_y (gj_vi j)) x y ∧
    ∀ x' y', in_map (g_nx g) (g_ny g) x' y' → near g ((gj_origin j).1 + x) ((gj_origin j).2 + y) x' y' →
      in_map (vi_cell_num_x (gj_vi j)) (vi_cell_num_y (gj_vi j)) (x' - (gj_origin j).1) (y' - (gj_origin j).2);
  jo_live : ∀ x y t s b, in_map (vi_cell_num_x (gj_vi j)) (vi_cell_num_y (gj_vi j)) x y → 0 ≤ t < g_nt g →
    zget st (index (g_nx g) (g_nt g) ((gj_origin j).1 + x) ((gj_origin j).2 + y) t) = Some s →
    zget (gj_before j) (index (vi_cell_num_x (gj_vi j)) (g_nt g) x y t) = Some b →
    unchanged s b = true ∨ seeded sw ((gj_origin j).1 + x) ((gj_origin j).2 + y) = true;
  jo_states : vi_states (gj_vi j) =
    if gj_ran j
    then updates (vi_cell_num_x (gj_vi j)) (vi_cell_num_y (gj_vi j)) (g_nt g) (g_acts g) (repaired (gj_before j))
           (job_order (vi_cell_num_x (gj_vi j)) (g_nt g) (gj_cells j))
    else repaired (gj_before j);
  jo_dense : gj_compact j = false
}.

Lemma repair_state_static s : static_part (repair_state s) = static_part s.
Proof. unfold repair_state. by destruct (policy_invalidated s). Qed.

Lemma zget_repaired st i : zget (repaired st) i = repair_state <$> zget st i.
Proof. apply zget_fmap. Qed.

Lemma repaired_static st : same_static (repaired st) st.
Proof. intros i. rewrite zget_repaired. destruct (zget st i); [|done]. cbn. by rewrite repair_state_static. Qed.

Lemma repaired_wf nx ny nt st : wf_states nx ny nt st → wf_states nx ny nt (repaired st).
Proof.
  intros [Hl Hst]. split; [unfold repaired; by rewrite zlen_fmap|].
  intros i s. rewrite zget_repaired. destruct (zget st i) as [s0|] eqn:E; [|done]. intros [= <-].
  destruct (Hst _ _ E). unfold repair_state. destruct (policy_invalidated s0); [|by split].
  split; cbn; done.
Qed.

Lemma unchanged_spec a b :
  unchanged a b = true ↔
  s_total_cost a = s_total_cost b ∧ s_optimal_action a = s_optimal_action b ∧ s_free a = s_free b ∧
  s_final_state a = s_final_state b ∧ s_penalty a = s_penalty b ∧ s_local_penalty a = s_local_penalty b.
Proof.
  unfold unchanged. rewrite !andb_true_iff, !Z.eqb_eq, bool_decide_eq_true, !eqb_true_iff. tauto.
Qed.

Lemma unchanged_repaired a b : unchanged a b = true → same_entry (repair_state a) (repair_state b).
Proof.
  intros (E1 & E2 & E3 & E4 & E5 & E6)%unchanged_spec.
  assert (policy_invalidated a = policy_invalidated b) as E by (unfold policy_invalidated; by rewrite E1, E2, E3, E4).
  unfold repair_state. rewrite E. by destruct (policy_invalidated b).
Qed.

(** Running a job keeps the tie. *)
Lemma job_run_ok g st sw j :
  job_ok g st sw j → ∃ j', job_run j = Ok j' ∧ job_ok g st sw j' ∧
    gj_id j' = gj_id j ∧ gj_epoch j' = gj_epoch j ∧ gj_cells j' = gj_cells j ∧ gj_origin j' = gj_origin j ∧
    gj_ran j' = true.
Proof.
  intros H. unfold job_run. destruct (gj_ran j) eqn:Er; [by exists j|].
  rewrite (jo_dense _ _ _ _ H). cbn [andb].
  destruct (job_pass_eq (gj_vi j) (gj_cells j) (jo_wf _ _ _ _ H)) as (d & -> & _).
  { intros x y Hxy. by apply (jo_cells _ _ _ _ H). }
  rewrite ok_bind. eexists. split; [done|]. split; [|done].
  destruct H as [[Hd Hst Ha] [Ht Hac] Hb Hbe Hn Hc Hl Hs Hde]. rewrite Er in Hs.
  split; cbn; try done.
  - split; cbn; [done| |done]. unfold vi_updates. by apply updates_wf.
  - unfold vi_updates. by rewrite Ht, Hac, Hs.
Qed.

(** ** Published columns *)

Definition near_seed_b (g : geo) (sw : DenseSweep) (x y : Z) : bool :=
  existsb (fun c => seeded sw c.1 c.2 && bool_decide (near g x y c.1 c.2)) (rect 0 (g_nx g - 1) 0 (g_ny g - 1)).

Lemma near_seed_b_spec g sw x y : near_seed_b g sw x y = true ↔ near_seed g sw x y.
Proof.
  unfold near_seed_b. rewrite existsb_exists. setoid_rewrite <- list_elem_of_In. split.
  - intros ([x' y'] & Hin%elem_of_window_rect & [Hs Hn%bool_decide_eq_true]%andb_true_iff).
    exists x', y'. split; [split; lia|]. done.
  - intros (x' & y' & [? ?] & Hs & Hn). exists (x', y'). split; [apply elem_of_window_rect; lia|].
    cbn. rewrite Hs. by apply bool_decide_eq_true.
Qed.

Lemma near_seed_dec g sw x y : near_seed g sw x y ∨ ¬ near_seed g sw x y.
Proof. rewrite <- near_seed_b_spec. destruct (near_seed_b g sw x y); [by left|by right]. Qed.

(** The job has another cost for the column than the live field. *)
Definition job_differs (g : geo) (st : list State) (j : GlobalJob) (x y : Z) : bool :=
  existsb (fun t => negb (bool_decide
    (cost_at (vi_states (gj_vi j)) (index (vi_cell_num_x (gj_vi j)) (g_nt g) x y t) =
     cost_at (repaired st) (index (g_nx g) (g_nt g) ((gj_origin j).1 + x) ((gj_origin j).2 + y) t))))
    (seqZ 0 (g_nt g)).

(** Among the columns of the job that are not to be written there is one within
    the reach of [(x, y)] that the job found different. *)
Definition undermined (g : geo) (st : list State) (hold : Z → Z → bool) (j : GlobalJob) (x y : Z) : bool :=
  existsb (fun c => hold c.1 c.2 && job_differs g st j c.1 c.2 &&
    bool_decide (near g ((gj_origin j).1 + x) ((gj_origin j).2 + y) ((gj_origin j).1 + c.1) ((gj_origin j).2 + c.2)))
    (gj_cells j).

(** An updated state holds an action or costs [MAX_COST]. *)
Lemma update_settled nx ny nt acts st i s :
  zget (update nx ny nt acts st i) i = Some s → policy_invalidated s = false.
Proof.
  destruct (zget st i) as [s0|] eqn:E; [|by unfold update; rewrite E, E].
  rewrite (update_self _ _ _ _ _ _ s0 E). destruct (updatable s0) eqn:Hu; intros [= <-].
  - unfold policy_invalidated. cbn.
    pose proof (argmin_from_spec MAX_COST (action_costs nx ny nt acts st s0)) as (_ & _ & Ho).
    fold (bellman nx ny nt acts st s0) in Ho.
    destruct (bellman nx ny nt acts st s0) as [m [k|]]; cbn in *; [by rewrite andb_false_r|].
    subst m. rewrite Z.ltb_irrefl. by rewrite !andb_false_r.
  - unfold policy_invalidated. unfold updatable in Hu. by rewrite Hu.
Qed.

Lemma updates_settled nx ny nt acts order st i s :
  i ∈ order → zget (updates nx ny nt acts st order) i = Some s → policy_invalidated s = false.
Proof.
  revert st s. induction order as [|k o IH] using rev_ind; intros st s Hi; [by apply elem_of_nil in Hi|].
  unfold updates. rewrite foldl_app. cbn [foldl]. fold (updates nx ny nt acts st o).
  destruct (decide (i = k)) as [->|Hne]; [apply update_settled|].
  rewrite update_other by done. apply IH.
  apply elem_of_app in Hi as [?|?%list_elem_of_singleton]; done.
Qed.

(** ** A box of the field

    A rectangle of the map, with its corner at [(ox, oy)], and a field [F] over it. *)

Section box.
Context (g : geo) (ox oy lx ly : Z) (F : list State).
Context (Ha : Forall (wf_action (g_nt g)) (g_acts g)) (Ht : 0 < g_nt g).

(** What a state of the box reads lies in the box and within the reach. *)
Lemma reads_place f i :
  i ∈ reads lx ly (g_nt g) (g_acts g) F f →
  ∃ x y t, i = index lx (g_nt g) x y t ∧ in_map lx ly x y ∧ 0 ≤ t < g_nt g ∧
    near g (s_ix f) (s_iy f) x y.
Proof.
  intros (a & tr & Hain & Htr & -> & He)%elem_of_reads. destruct (reach_spec _ _ a f tr Ha Hain Htr) as [Rx Ry].
  assert (wf_action (g_nt g) a) as Haa by (rewrite List.Forall_forall in Ha; by apply Ha, list_elem_of_In).
  assert (inside lx ly f tr = true) as Hi.
  { destruct (inside lx ly f tr) eqn:E; [done|].
    assert (existsb (blocked lx ly (g_nt g) F f) (trans_of a f) = true); [|congruence].
    apply existsb_exists. exists tr. split; [by apply list_elem_of_In|]. unfold blocked. by rewrite E. }
  unfold inside in Hi. rewrite !andb_true_iff, !Z.leb_le, !Z.ltb_lt in Hi.
  exists (s_ix f + dix tr), (s_iy f + diy tr), (Z.rem (dit tr + g_nt g) (g_nt g)).
  split; [done|]. split; [split; lia|]. split; [apply target_theta; [done|by eapply trans_of_wf]|]. unfold near. lia.
Qed.

(** A state of the box and its image in the map see the same, when the entries
    within the reach agree. *)
Lemma box_sees st f s :
  s_it s = s_it f → s_ix s = ox + s_ix f → s_iy s = oy + s_iy f →
  (∀ x y, in_map lx ly x y → in_map (g_nx g) (g_ny g) (ox + x) (oy + y)) →
  (∀ x y, in_map (g_nx g) (g_ny g) x y → near g (ox + s_ix f) (oy + s_iy f) x y → in_map lx ly (x - ox) (y - oy)) →
  (∀ x y t, in_map lx ly x y → near g (ox + s_ix f) (oy + s_iy f) (ox + x) (oy + y) → 0 ≤ t < g_nt g →
     ∃ a b, zget F (index lx (g_nt g) x y t) = Some a ∧
       zget st (index (g_nx g) (g_nt g) (ox + x) (oy + y) t) = Some b ∧ same_entry a b) →
  sees (g_nt g) (g_acts g) lx ly F f (g_nx g) (g_ny g) st s.
Proof.
  intros Et Ex Ey Hmap Hbox Hent.
  assert (∀ a tr, a ∈ g_acts g → tr ∈ trans_of a f →
    inside lx ly f tr = inside (g_nx g) (g_ny g) s tr ∧
    (inside lx ly f tr = true → in_map lx ly (s_ix f + dix tr) (s_iy f + diy tr) ∧
       near g (ox + s_ix f) (oy + s_iy f) (ox + (s_ix f + dix tr)) (oy + (s_iy f + diy tr)) ∧
       0 ≤ Z.rem (dit tr + g_nt g) (g_nt g) < g_nt g)) as Hmove.
  { intros a tr Hain Htr. destruct (reach_spec _ _ a f tr Ha Hain Htr) as [Rx Ry].
    assert (wf_action (g_nt g) a) as Haa by (rewrite List.Forall_forall in Ha; by apply Ha, list_elem_of_In).
    assert (inside lx ly f tr = true ↔ in_map lx ly (s_ix f + dix tr) (s_iy f + diy tr)) as I1.
    { unfold inside, in_map. rewrite !andb_true_iff, !Z.leb_le, !Z.ltb_lt. tauto. }
    assert (inside (g_nx g) (g_ny g) s tr = true ↔
            in_map (g_nx g) (g_ny g) (ox + (s_ix f + dix tr)) (oy + (s_iy f + diy tr))) as I2.
    { unfold inside, in_map. rewrite !andb_true_iff, !Z.leb_le, !Z.ltb_lt, Ex, Ey, !Z.add_assoc. tauto. }
    assert (near g (ox + s_ix f) (oy + s_iy f) (ox + (s_ix f + dix tr)) (oy + (s_iy f + diy tr))) as Hn by (unfold near; lia).
    split.
    - apply Bool.eq_iff_eq_true. rewrite I1, I2. split; [apply Hmap|]. intros Hm. specialize (Hbox _ _ Hm Hn).
      by replace (ox + (s_ix f + dix tr) - ox) with (s_ix f + dix tr) in Hbox by lia;
        replace (oy + (s_iy f + diy tr) - oy) with (s_iy f + diy tr) in Hbox by lia.
    - intros Hi%I1. split; [done|]. split; [done|]. apply target_theta; [done|]. by eapply trans_of_wf. }
  split; [done|intros a tr Hain Htr; by apply (Hmove a tr)|].
  intros a tr Hain Htr Hi. destruct (Hmove a tr Hain Htr) as [_ Hm]. destruct (Hm Hi) as (Hin & Hn & Hth).
  destruct (Hent _ _ _ Hin Hn Hth) as (a' & b & Ha' & Hb & Hse).
  exists a', b. unfold target. rewrite Ex, Ey, <- !Z.add_assoc. done.
Qed.
End box.

Section published.
Context (g : geo) (st st' : list State) (sw sw' : DenseSweep) (j : GlobalJob).
Context (H : job_ok g st sw j) (Hran : gj_ran j = true).
Context (Hd : dims_ok (g_nx g) (g_ny g) (g_nt g)) (Ha : Forall (wf_action (g_nt g)) (g_acts g)).
Context (Hst : wf_states (g_nx g) (g_ny g) (g_nt g) st) (Hst' : wf_states (g_nx g) (g_ny g) (g_nt g) st').
Context (Hgrow : ∀ x y, in_map (g_nx g) (g_ny g) x y → seeded sw x y = true → seeded sw' x y = true).
Context (hold : Z → Z → bool).

#[local] Abbreviation ox := (gj_origin j).1.
#[local] Abbreviation oy := (gj_origin j).2.
#[local] Abbreviation lx := (vi_cell_num_x (gj_vi j)).
#[local] Abbreviation ly := (vi_cell_num_y (gj_vi j)).
#[local] Abbreviation F := (vi_states (gj_vi j)).
#[local] Abbreviation gidx x y t := (index (g_nx g) (g_nt g) (ox + x) (oy + y) t).
#[local] Abbreviation lidx x y t := (index lx (g_nt g) x y t).

(** What the commit did to the column [(x, y)] of the job. *)
Definition kept (x y : Z) : Prop :=
  (∀ t, 0 ≤ t < g_nt g → zget st' (gidx x y t) = zget st (gidx x y t)) ∧
  ((x, y) ∈ gj_cells j → seeded sw' (ox + x) (oy + y) = true).

Definition published (x y : Z) : Prop :=
  (x, y) ∈ gj_cells j ∧
  ∀ t, 0 ≤ t < g_nt g → ∃ s b f,
    zget st (gidx x y t) = Some s ∧ zget (gj_before j) (lidx x y t) = Some b ∧
    zget F (lidx x y t) = Some f ∧ unchanged s b = true ∧
    zget st' (gidx x y t) = Some (with_value s (s_total_cost f) (s_optimal_action f)) ∧
    (s_total_cost s ≠ s_total_cost f ∨ s_optimal_action s ≠ s_optimal_action f →
     seeded sw' (ox + x) (oy + y) = true).

Definition withheld (x y : Z) : Prop :=
  hold x y = true ∧ ∀ t, 0 ≤ t < g_nt g → zget st' (gidx x y t) = zget st (gidx x y t).

Context (Hcell : ∀ x y, in_map lx ly x y → kept x y ∨ published x y ∨ ((x, y) ∈ gj_cells j ∧ withheld x y)).

Lemma job_dims : dims_ok lx ly (g_nt g).
Proof. destruct (jo_wf _ _ _ _ H) as [Hd' _ _]. by rewrite (proj1 (jo_nt _ _ _ _ H)) in Hd'. Qed.

Lemma box_map x y : in_map lx ly x y → in_map (g_nx g) (g_ny g) (ox + x) (oy + y).
Proof. intros [? ?]. destruct (jo_box _ _ _ _ H) as (? & ? & ? & ?). split; lia. Qed.

Lemma final_states :
  F = updates lx ly (g_nt g) (g_acts g) (repaired (gj_before j)) (job_order lx (g_nt g) (gj_cells j)).
Proof. by rewrite (jo_states _ _ _ _ H), Hran. Qed.

Lemma final_static : same_static F (gj_before j).
Proof. rewrite final_states. etransitivity; [apply updates_static|apply repaired_static]. Qed.

Lemma final_wf : wf_states lx ly (g_nt g) F.
Proof. destruct (jo_wf _ _ _ _ H) as [_ Hw _]. by rewrite (proj1 (jo_nt _ _ _ _ H)) in Hw. Qed.

(** A withheld column whose costs the job did not change. *)
Lemma withheld_column x y t :
  in_map lx ly x y → seeded sw' (ox + x) (oy + y) ≠ true → 0 ≤ t < g_nt g →
  withheld x y → job_differs g st j x y = false →
  ∃ f r, zget F (lidx x y t) = Some f ∧ zget (repaired st') (gidx x y t) = Some r ∧ same_entry f r ∧
    cost_at F (lidx x y t) = cost_at (repaired (gj_before j)) (lidx x y t).
Proof.
  intros Hxy Hns Ht [_ Hsame] Hdiff. pose proof job_dims as [? ? ? _]. pose proof Hd as [? ? ? _].
  destruct (box_map _ _ Hxy) as [Gx Gy]. destruct Hxy as [Hx Hy].
  destruct (ws_get _ _ _ _ x y t (jo_before _ _ _ _ H)) as (b & Hb & _); [lia..|].
  destruct (ws_get _ _ _ _ (ox + x) (oy + y) t Hst) as (s & Hs & _); [lia..|].
  destruct (ws_get _ _ _ _ x y t final_wf) as (f & Hf & _); [lia..|].
  assert (unchanged s b = true) as Hun.
  { destruct (jo_live _ _ _ _ H x y t s b) as [?|Hc]; [by split|done|done|done|done|]. by destruct Hns; apply Hgrow. }
  assert (s_total_cost f = s_total_cost (repair_state s)) as Hc.
  { destruct (decide (s_total_cost f = s_total_cost (repair_state s))) as [?|Hne]; [done|exfalso].
    assert (job_differs g st j x y = true); [|congruence]. apply existsb_exists. exists t.
    split; [apply list_elem_of_In, elem_of_seqZ; lia|]. apply negb_true_iff, bool_decide_eq_false. unfold cost_at.
    rewrite Hf, zget_repaired, Hs. cbn. by intros [= ?]. }
  pose proof (final_static (lidx x y t)) as Hstat. rewrite Hf, Hb in Hstat. cbn in Hstat.
  unfold static_part in Hstat. injection Hstat as Sp Sl _ _ _ Sf Sn.
  destruct (unchanged_repaired s b Hun) as (_ & Ec & _ & _).
  pose proof (repair_state_static s) as Hrs. unfold static_part in Hrs. injection Hrs as Rp Rl _ _ _ Rf _.
  apply unchanged_spec in Hun as (_ & _ & U3 & _ & U5 & U6).
  exists f, (repair_state s). split; [done|]. rewrite zget_repaired, Hsame, Hs by done. split; [done|]. split.
  - unfold same_entry. repeat split; congruence.
  - unfold cost_at. rewrite Hf, zget_repaired, Hb. cbn. congruence.
Qed.

(** The entry of a column with nothing queued at it: the live field, repaired,
    agrees with the job, and the job left its cost alone. *)
Lemma quiet_column x y t :
  in_map lx ly x y → seeded sw' (ox + x) (oy + y) ≠ true → 0 ≤ t < g_nt g →
  ((x, y) ∈ gj_cells j → hold x y = true → job_differs g st j x y = false) →
  ∃ f r, zget F (lidx x y t) = Some f ∧ zget (repaired st') (gidx x y t) = Some r ∧ same_entry f r ∧
    cost_at F (lidx x y t) = cost_at (repaired (gj_before j)) (lidx x y t).
Proof.
  intros Hxy Hns Ht Hdiff. pose proof job_dims as [? ? ? _]. pose proof Hd as [? ? ? _].
  destruct (box_map _ _ Hxy) as [Gx Gy]. pose proof Hxy as [Hx Hy].
  destruct (ws_get _ _ _ _ x y t (jo_before _ _ _ _ H)) as (b & Hb & _); [lia..|].
  destruct (Hcell x y Hxy) as [[Hk Hs]|[[Hin Hp]|[Hin Hw]]]; [| |by apply withheld_column; [..|apply Hdiff, Hw]].
  - destruct (ws_get _ _ _ _ (ox + x) (oy + y) t Hst) as (s & Hs0 & _); [lia..|].
    assert ((x, y) ∉ gj_cells j) as Hnot by (intros Hc; by apply Hns, Hs).
    assert (zget F (lidx x y t) = Some (repair_state b)) as HF.
    { rewrite final_states, updates_other, zget_repaired, Hb; [done|].
      intros (x' & y' & t' & Hc & Ht' & E)%elem_of_job_order.
      destruct (jo_cells _ _ _ _ H _ _ Hc) as [[? ?] _].
      by apply (index_inj _ ly) in E as (-> & -> & _); [|lia..]. }
    exists (repair_state b), (repair_state s). split; [done|].
    rewrite zget_repaired, Hk, Hs0 by done. split; [done|]. split.
    + symmetry. apply unchanged_repaired.
      destruct (jo_live _ _ _ _ H x y t s b) as [?|Hc]; [by split|done|done|done|done|].
      by destruct Hns; apply Hgrow.
    + unfold cost_at. rewrite HF, zget_repaired, Hb. done.
  - destruct (Hp t Ht) as (s & b' & f & Hs0 & Hb' & Hf & Hun & Hs' & Hmv).
    rewrite Hb in Hb'. injection Hb' as <-.
    assert (s_total_cost s = s_total_cost f ∧ s_optimal_action s = s_optimal_action f) as [Ec Eo].
    { split.
      - destruct (decide (s_total_cost s = s_total_cost f)); [done|]. destruct Hns. auto.
      - destruct (decide (s_optimal_action s = s_optimal_action f)); [done|]. destruct Hns. auto. }
    assert (policy_invalidated f = false) as Hpf.
    { rewrite final_states in Hf. eapply updates_settled; [|exact Hf].
      apply elem_of_job_order. by exists x, y, t. }
    pose proof (final_static (lidx x y t)) as Hstat. rewrite Hf, Hb in Hstat. cbn in Hstat.
    unfold static_part in Hstat. injection Hstat as Sp Sl _ _ _ Sf Sn.
    apply unchanged_spec in Hun as (U1 & U2 & U3 & U4 & U5 & U6).
    exists f, (repair_state (with_value s (s_total_cost f) (s_optimal_action f))).
    split; [done|]. rewrite zget_repaired, Hs'. split; [done|].
    assert (policy_invalidated (with_value s (s_total_cost f) (s_optimal_action f)) = false) as Hps.
    { unfold policy_invalidated in *. cbn. by rewrite U3, U4, <- Sf, <- Sn. }
    assert (policy_invalidated b = false) as Hpb.
    { unfold policy_invalidated in *. by rewrite <- U1, <- U2, Ec, Eo, <- Sf, <- Sn. }
    unfold repair_state at 1. rewrite Hps. split.
    + unfold same_entry. cbn. repeat split; congruence.
    + unfold cost_at. rewrite Hf, zget_repaired, Hb. cbn. unfold repair_state. rewrite Hpb. cbn. congruence.
Qed.

(** A published state has its policy. *)
Lemma published_policy x y t s' :
  published x y → 0 ≤ t < g_nt g → zget st' (gidx x y t) = Some s' → policy_invalidated s' = false.
Proof.
  intros [Hin Hp] Ht Hs'. destruct (Hp t Ht) as (s & b & f & _ & Hb & Hf & Hun & Es' & _). rewrite Hs' in Es'. injection Es' as ->.
  pose proof (final_static (lidx x y t)) as Hstat. rewrite Hf, Hb in Hstat. cbn in Hstat.
  unfold static_part in Hstat. injection Hstat as _ _ _ _ _ Sf Sn.
  apply unchanged_spec in Hun as (_ & _ & U3 & U4 & _ & _).
  assert (policy_invalidated f = false) as Hpf.
  { rewrite final_states in Hf. eapply updates_settled; [|exact Hf]. apply elem_of_job_order. by exists x, y, t. }
  unfold policy_invalidated in *. cbn. by rewrite U3, U4, <- Sf, <- Sn.
Qed.

Lemma published_good x y t s' :
  in_map lx ly x y → published x y → 0 ≤ t < g_nt g → zget st' (gidx x y t) = Some s' → updatable s' = true →
  good g st' s' ∨ near_seed g sw' (ox + x) (oy + y) ∨ undermined g st hold j x y = true.
Proof.
  intros Hxy [Hin Hp] Ht Hs' Hu. pose proof (published_policy x y t s' (conj Hin Hp) Ht Hs') as Hpol.
  destruct (near_seed_dec g sw' (ox + x) (oy + y)) as [?|Hno]; [by right; left|].
  destruct (undermined g st hold j x y) eqn:Hund; [by do 2 right|left].
  pose proof job_dims as Hdj. pose proof Hdj as [? ? ? _]. pose proof Hd as [? ? ? _].
  pose proof (box_map _ _ Hxy) as Gxy. pose proof Gxy as [Gx Gy]. pose proof Hxy as [Hx Hy].
  destruct (Hp t Ht) as (s & b & f & Hs0 & Hb & Hf & Hun & Es' & _). rewrite Hs' in Es'. injection Es' as ->.
  pose proof (final_static (lidx x y t)) as Hstat. rewrite Hf, Hb in Hstat. cbn in Hstat.
  unfold static_part in Hstat. injection Hstat as _ _ _ _ _ Sf Sn.
  apply unchanged_spec in Hun as (_ & _ & U3 & U4 & _ & _).
  destruct (ws_state _ _ _ _ final_wf _ _ Hf) as [Fx Fy Ft Fi _ _ _].
  apply (index_inj _ ly) in Fi as (Ex & Ey & Et); [|done..].
  destruct (ws_state _ _ _ _ Hst' _ _ Hs') as [Lx Ly Lt Li _ _ _].
  apply (index_inj _ (g_ny g)) in Li as (Ex' & Ey' & Et'); [|done..].
  assert (updatable f = true) as Huf.
  { unfold updatable in *. cbn in Hu. by rewrite Sf, Sn, <- U3, <- U4. }
  destruct (jo_cells _ _ _ _ H _ _ Hin) as [_ Hbox].
  assert (∀ x' y', near g (ox + x) (oy + y) (ox + x') (oy + y') → in_map lx ly x' y' →
    seeded sw' (ox + x') (oy + y') ≠ true) as Hquiet.
  { intros x' y' Hn Hm Hs. apply Hno. exists (ox + x'), (oy + y'). split; [by apply box_map|]. done. }
  assert (∀ x' y', near g (ox + x) (oy + y) (ox + x') (oy + y') →
    (x', y') ∈ gj_cells j → hold x' y' = true → job_differs g st j x' y' = false) as Hdiff.
  { intros x' y' Hn Hc Hh. destruct (job_differs g st j x' y') eqn:E; [|done].
    assert (undermined g st hold j x y = true); [|congruence]. apply existsb_exists. exists (x', y').
    split; [by apply list_elem_of_In|]. cbn. rewrite Hh, E. by apply bool_decide_eq_true. }
  assert (consistent lx ly (g_nt g) (g_acts g) F f) as Hcons.
  { rewrite final_states in Hf |- *. eapply (updates_consistent lx ly (g_nt g) (g_acts g)); [| |exact Hf|done|].
    - apply (job_order_NoDup lx ly); [|by apply (jo_nodup _ _ _ _ H)].
      intros x' y' Hc. by apply (jo_cells _ _ _ _ H).
    - apply elem_of_job_order. by exists x, y, t.
    - rewrite <- final_states. intros i (x' & y' & t' & -> & Hm & Ht' & Hn)%reads_place; [|done|lia].
      rewrite <- Ex, <- Ey in Hn.
      assert (near g (ox + x) (oy + y) (ox + x') (oy + y')) as Hn' by (unfold near in *; lia).
      destruct (quiet_column x' y' t') as (_ & _ & _ & _ & _ & E); [done|by apply Hquiet|done|by apply Hdiff|done]. }
  split.
  - exact Hpol.
  - left. unfold g_bellman. rewrite <- (sees_bellman (g_nt g) (g_acts g) lx ly (g_nx g) (g_ny g) F (repaired st') f); [exact Hcons|].
    apply (box_sees g ox oy); [done|lia|congruence|by rewrite <- Ex, <- Ex'|by rewrite <- Ey, <- Ey'|apply box_map|by rewrite <- Ex, <- Ey|].
    intros x' y' t' Hm Hn Ht'. rewrite <- Ex, <- Ey in Hn.
    destruct (quiet_column x' y' t' Hm (Hquiet _ _ Hn Hm) Ht' (Hdiff _ _ Hn)) as (f' & r & ? & ? & ? & _). eauto.
Qed.
End published.
