(* ===== verification/RepairCommit.v ===== *)
(** * Committing a repair job (vi_planner/src/core/global.rs, [commit_global_job])

    The commit never panics, a column of the window is left alone, every other column
    of the job is either published or queued again, a published column that
    moved is queued too, and nothing else changes. *)

From Stdlib Require Import ZArith Lia.
From stdpp Require Import base gmap strings list numbers.
From S2P Require Import Prelude Floats Model Bellman Consistency Original Bitboard BitboardOps BitboardEnum Active MapSetup LocalPlanner LocalSpec Core CoreSpec Invalidate GlobalJob Repair RepairJob.

(** ** Columns *)

Lemma all_res_spec {A} (f : A → res bool) (p : A → bool) l :
  (∀ x, x ∈ l → f x = Ok (p x)) → all_res f l = Ok (forallb p l).
Proof.
  induction l as [|x l IH]; intros H; [done|]. cbn. rewrite H, ok_bind by left.
  destruct (p x); [|done]. apply IH. intros. apply H. by right.
Qed.

Lemma publish_column_spec src nt i dst l (S Fl : Z → State) :
  0 ≤ nt → 0 ≤ dst →
  (∀ t, 0 ≤ t < nt → zget (vi_states src) (i + t) = Some (Fl t)) →
  (∀ t, 0 ≤ t < nt → zget (vi_states (lv_base l)) (dst + t) = Some (S t)) →
  ∃ st' mv, publish_column src nt i dst l = Ok (restates l st', mv) ∧
    zlen st' = zlen (vi_states (lv_base l)) ∧
    (∀ k, ¬ dst ≤ k < dst + nt → zget st' k = zget (vi_states (lv_base l)) k) ∧
    (∀ t, 0 ≤ t < nt → zget st' (dst + t) = Some (with_value (S t) (s_total_cost (Fl t)) (s_optimal_action (Fl t)))) ∧
    (mv = false → ∀ t, 0 ≤ t < nt →
       s_total_cost (S t) = s_total_cost (Fl t) ∧ s_optimal_action (S t) = s_optimal_action (Fl t)).
Proof.
  intros Hnt Hdst Hsrc Hlive. unfold publish_column.
  destruct (for_range_inv (fun n (p : ValueIteratorLocal * bool) =>
      ∃ st', p.1 = restates l st' ∧ zlen st' = zlen (vi_states (lv_base l)) ∧
      (∀ k, ¬ dst ≤ k < dst + n → zget st' k = zget (vi_states (lv_base l)) k) ∧
      (∀ t, 0 ≤ t < n → zget st' (dst + t) = Some (with_value (S t) (s_total_cost (Fl t)) (s_optimal_action (Fl t)))) ∧
      (p.2 = false → ∀ t, 0 ≤ t < n →
         s_total_cost (S t) = s_total_cost (Fl t) ∧ s_optimal_action (S t) = s_optimal_action (Fl t)))
    0 nt (fun t p =>
      s ← vget (vi_states src) (i + t);
      live ← vget (vi_states (lv_base p.1)) (dst + t);
      let moved := negb (s_total_cost live =? s_total_cost s)
                   || negb (bool_decide (s_optimal_action live = s_optimal_action s)) in
      st ← vset (vi_states (lv_base p.1)) (dst + t) (with_value live (s_total_cost s) (s_optimal_action s));
      Ok (with_base p.1 (with_states (lv_base p.1) st), p.2 || moved)) (l, false))
    as ([l' mv] & E & (st' & El & Hl & Ho & Hc & Hm)).
  - done.
  - exists (vi_states (lv_base l)). rewrite restates_self. split; [done|]. split; [done|].
    split; [done|]. split; [lia|]. lia.
  - intros t [l1 mv1] Ht (st1 & El & Hl & Ho & Hc & Hm). cbn [fst snd] in *. subst l1.
    assert (vget (vi_states src) (i + t) = Ok (Fl t)) as -> by by apply vget_ok, Hsrc.
    cbn [lv_base restates with_base vi_states with_states].
    assert (zget st1 (dst + t) = Some (S t)) as Hs by (rewrite Ho by lia; by apply Hlive).
    assert (vget st1 (dst + t) = Ok (S t)) as -> by by apply vget_ok.
    rewrite !ok_bind, vset_ok by (by eapply zget_Some_lt). rewrite ok_bind.
    eexists. split; [done|].
    exists (zset st1 (dst + t) (with_value (S t) (s_total_cost (Fl t)) (s_optimal_action (Fl t)))).
    split; [done|]. split; [by rewrite zlen_zset|]. split; [|split].
    + intros k Hk. rewrite zget_zset_ne by lia. apply Ho. lia.
    + intros t' Ht'. destruct (decide (t' = t)) as [->|Hne].
      * apply zget_zset_eq. by eapply zget_Some_lt.
      * rewrite zget_zset_ne by lia. apply Hc. lia.
    + cbn [snd]. intros [Hf Hmv]%orb_false_iff t' Ht'.
      apply orb_false_iff in Hmv as [M1 M2].
      destruct (decide (t' = t)) as [->|Hne]; [|apply Hm; [done|lia]].
      apply negb_false_iff in M1, M2. apply Z.eqb_eq in M1. by apply bool_decide_eq_true in M2.
  - cbn [fst snd] in *. exists st', mv. rewrite E, El. done.
Qed.

(** ** Queueing cells *)

Lemma enqueue_cells_spec g l c :
  core_ok g c → ∃ c', for_each l enqueue_cell c = Ok c' ∧ core_ok g c' ∧ queues c c' (fun x y => (x, y) ∈ l) g.
Proof.
  revert c. induction l as [|[x y] l IH]; intros c Hc.
  { exists c. split; [done|]. split; [done|]. eapply queues_ext; [|apply queues_none].
    intros x y. split; [done|by intros ?%elem_of_nil]. }
  cbn [for_each]. change (enqueue_cell (x, y) c) with (enqueue_global (x, x, y, y) c).
  destruct (enqueue_global_spec g c x x y y Hc) as (c1 & -> & Hc1 & Hq1). rewrite ok_bind.
  destruct (IH c1 Hc1) as (c2 & -> & Hc2 & Hq2). exists c2. split; [done|]. split; [done|].
  eapply queues_ext; [|eapply queues_trans; [exact Hq1|exact Hq2]].
  intros x' y'. cbn. rewrite elem_of_cons. split.
  - intros [?|?]; [left; f_equal; lia|by right].
  - intros [[= -> ->]|?]; [left; lia|by right].
Qed.

(** ** Settling *)

(** Nothing left to do, and nobody who could add to it. *)
Definition idle (c : PlannerCore) : Prop :=
  let m := co_global c in
  global_queued c = false ∧ m_in_flight m = None ∧ m_local_in_flight m = None ∧
  (m_owned m = ∅ ∨ m_certified m = true) ∧ m_deferred m = ∅.

Lemma settle_global_spec c :
  ∃ c' b, settle_global c = (c', b) ∧
    co_build c' = co_build c ∧ co_cfg c' = co_cfg c ∧ co_global c' = co_global c ∧ states c' = states c ∧
    ds_pending (co_sweep c') = ds_pending (co_sweep c) ∧ ds_cands (co_sweep c') = ds_cands (co_sweep c) ∧
    ds_pos (co_sweep c') = ds_pos (co_sweep c) ∧ ds_reach (co_sweep c') = ds_reach (co_sweep c) ∧
    co_cached c' = (if b then mark_complete <$> co_cached c else co_cached c) ∧
    (b = true → is_partial c' = false ∧ idle c').
Proof.
  unfold settle_global. destruct (negb (global_queued c) && _ && _ && _ && _) eqn:E.
  2:{ eexists _, false. split; [done|]. repeat (split; [done|]). done. }
  rewrite !andb_true_iff, orb_true_iff, negb_true_iff, !bool_decide_eq_true in E.
  destruct E as [[[[E1 E2] E3] E4] E5].
  set (c1 := with_dirty c (negb true)). fold c1.
  set (c2 := if ds_visits (co_sweep c1) >? 0 then with_sweep c1 (sweep_settle (co_sweep c1)) else c1).
  assert (co_build c2 = co_build c ∧ co_cfg c2 = co_cfg c ∧ co_global c2 = co_global c ∧ co_cached c2 = co_cached c ∧
    ds_pending (co_sweep c2) = ds_pending (co_sweep c) ∧ ds_cands (co_sweep c2) = ds_cands (co_sweep c) ∧
    ds_pos (co_sweep c2) = ds_pos (co_sweep c) ∧ ds_reach (co_sweep c2) = ds_reach (co_sweep c))
    as (? & ? & Eg & Ec & Ep & Ek & Eo & ?) by by unfold c2; destruct (_ >? 0).
  eexists _, true. split; [done|]. cbn. split; [done|]. split; [done|]. split; [done|]. split.
  { unfold states, local. cbn. rewrite Ec. by destruct (co_cached c). }
  split; [done|]. split; [done|]. split; [done|]. split; [done|].
  split; [by rewrite Ec|]. intros _. split; [unfold is_partial; cbn; by destruct (co_cached c2)|].
  unfold idle. cbn. rewrite Eg. split; [|done]. unfold global_queued in *. cbn. by rewrite Eg, Ep, Ek, Eo.
Qed.

Lemma settle_ok g c : core_ok g c → core_ok g (settle_global c).1.
Proof.
  intros [? ? ? Hsw Hfld].
  destruct (settle_global_spec c) as (c' & b & -> & Eb & _ & _ & _ & Ep & Ek & Eo & _ & Ecc & _). cbn [fst].
  split; try done; [by rewrite Eb| |].
  - destruct Hsw as [? ? ?]. split; [by rewrite Ep|by rewrite Ek|by rewrite Eo, Ek].
  - intros cg' Hcg'. rewrite Ecc in Hcg'. destruct b; [|by apply Hfld].
    destruct (co_cached c) as [cg|]; [|done]. injection Hcg' as <-. by apply (Hfld cg).
Qed.

(** The same claims, counters and invalidations. *)
Definition same_office (c c' : PlannerCore) : Prop :=
  let '(m, m') := (co_global c, co_global c') in
  m_owner m' = m_owner m ∧ m_owned m' = m_owned m ∧ m_local_in_flight m' = m_local_in_flight m ∧
  m_serial m' = m_serial m ∧ m_epoch m' = m_epoch m ∧ m_local_revision m' = m_local_revision m ∧
  m_invalidation m' = m_invalidation m.

(** ** The columns of a job *)

Section commit.
Context (g : geo) (c0 : PlannerCore) (cg : CachedGoal) (sw : DenseSweep) (j : GlobalJob).
Context (Hok : core_ok g c0) (Hcg : co_cached c0 = Some cg).
Context (H : job_ok g (states c0) sw j).

#[local] Abbreviation ox := (gj_origin j).1.
#[local] Abbreviation oy := (gj_origin j).2.
#[local] Abbreviation lx := (vi_cell_num_x (gj_vi j)).
#[local] Abbreviation ly := (vi_cell_num_y (gj_vi j)).
#[local] Abbreviation gidx x y t := (index (g_nx g) (g_nt g) (ox + x) (oy + y) t).
#[local] Abbreviation lidx x y t := (index lx (g_nt g) x y t).

(** The column belongs to the local worker. *)
Definition held (x y : Z) : Prop := (ox + x, oy + y) ∈ m_owned (co_global c0).

Definition held_cells (cells : list (Z * Z)) : gset (Z * Z) :=
  list_to_set (filter (fun c => c ∈ m_owned (co_global c0)) ((fun c => (ox + c.1, oy + c.2)) <$> cells)).

Lemma held_cells_in cells x y : (x, y) ∈ cells → held x y → (ox + x, oy + y) ∈ held_cells cells.
Proof.
  intros Hin Hh. apply elem_of_list_to_set, list_elem_of_filter. split; [done|].
  apply list_elem_of_fmap. by exists (x, y).
Qed.

Lemma held_cells_owned cells : held_cells cells ⊆ m_owned (co_global c0).
Proof. intros c [Hc _]%elem_of_list_to_set%list_elem_of_filter. done. Qed.

Lemma held_cells_snoc cells x y :
  held_cells (cells ++ [(x, y)]) =
  held_cells cells ∪ (if decide ((ox + x, oy + y) ∈ m_owned (co_global c0)) then {[(ox + x, oy + y)]} else ∅).
Proof.
  unfold held_cells. rewrite fmap_app, list.filter_app, list_to_set_app_L. f_equal. cbn [fmap list_fmap fst snd]. rewrite filter_cons.
  case_decide; cbn; set_solver.
Qed.

(** The column took the values of the job. *)
Definition taken (st' : list State) (x y : Z) (moved : Prop) : Prop :=
  (gj_ran j = true ∧ ¬ held x y) ∧
  ∀ t, 0 ≤ t < g_nt g → ∃ s b f,
    zget (states c0) (gidx x y t) = Some s ∧ zget (gj_before j) (lidx x y t) = Some b ∧
    zget (vi_states (gj_vi j)) (lidx x y t) = Some f ∧ unchanged s b = true ∧
    zget st' (gidx x y t) = Some (with_value s (s_total_cost f) (s_optimal_action f)) ∧
    (s_total_cost s ≠ s_total_cost f ∨ s_optimal_action s ≠ s_optimal_action f → moved).

Definition same_column (st' : list State) (x y : Z) : Prop :=
  ∀ t, 0 ≤ t < g_nt g → zget st' (gidx x y t) = zget (states c0) (gidx x y t).

(** The core a commit has reached: the field with other values, the manager with more cells deferred. *)
Definition reached (c : PlannerCore) : Prop :=
  c = with_cached (with_global c0 (with_deferred (co_global c0) (m_deferred (co_global c))))
        (Some (with_field cg (restates (cg_field cg) (states c)))).

Record commit_inv (pre : list (Z * Z)) (f : Found) : Prop := {
  ci_core : reached (fo_core f);
  ci_defer : m_deferred (co_global (fo_core f)) =
    if m_certified (co_global c0) then m_deferred (co_global c0) else m_deferred (co_global c0) ∪ held_cells pre;
  ci_wf : wf_states (g_nx g) (g_ny g) (g_nt g) (states (fo_core f));
  ci_out : ∀ i, (∀ x y t, (x, y) ∈ pre → 0 ≤ t < g_nt g → i ≠ gidx x y t) →
    zget (states (fo_core f)) i = zget (states c0) i;
  ci_cell : ∀ x y, (x, y) ∈ pre →
    ((ox + x, oy + y) ∈ fo_retry f ∨ held x y) ∧ same_column (states (fo_core f)) x y
    ∨ taken (states (fo_core f)) x y ((ox + x, oy + y) ∈ fo_changed f);
  ci_lists : ∀ q, q ∈ fo_changed f ++ fo_retry f → ∃ x y, (x, y) ∈ pre ∧ q = (ox + x, oy + y)
}.

Lemma field_facts :
  states c0 = vi_states (lv_base (cg_field cg)) ∧ wf_states (g_nx g) (g_ny g) (g_nt g) (states c0) ∧
  vi_cell_num_x (lv_base (cg_field cg)) = g_nx g ∧ vi_cell_num_t (lv_base (cg_field cg)) = g_nt g.
Proof.
  destruct (ck_field _ _ Hok _ Hcg) as ([_ Hst _] & Ex & Ey & Et & _). rewrite Ex, Ey, Et in Hst.
  assert (states c0 = vi_states (lv_base (cg_field cg))) as -> by (unfold states, local; by rewrite Hcg). done.
Qed.

Lemma commit_start : commit_inv [] (mkFound c0 [] []).
Proof.
  destruct field_facts as (Est & Hst & _). split; cbn.
  - unfold reached. rewrite Est, restates_self. destruct c0 as [? ? ? ? [] ?], cg. cbn in *. by rewrite Hcg.
  - destruct (m_certified _); [done|]. unfold held_cells. cbn. set_solver.
  - done.
  - done.
  - intros x y []%elem_of_nil.
  - intros q []%elem_of_nil.
Qed.

(** A column that is not among [pre] still holds its states. *)
Lemma fresh_column pre f x y :
  commit_inv pre f → (∀ x' y', (x', y') ∈ pre → (x', y') ∈ gj_cells j) → (x, y) ∈ gj_cells j → (x, y) ∉ pre →
  ∀ t, 0 ≤ t < g_nt g → zget (states (fo_core f)) (gidx x y t) = zget (states c0) (gidx x y t).
Proof.
  intros Hf Hpre Hin Hnot t Ht. apply (ci_out _ _ Hf). intros x' y' t' Hc Ht' E.
  pose proof (ck_dims _ _ Hok) as [? ? ? _].
  destruct (box_map g _ sw j H x y) as [? ?]; [by apply (jo_cells _ _ _ _ H)|].
  destruct (box_map g _ sw j H x' y') as [? ?]; [by apply (jo_cells _ _ _ _ H), Hpre|].
  apply (index_inj _ (g_ny g)) in E as (E1 & E2 & _); [|lia..].
  by assert (x = x') as -> by lia; assert (y = y') as -> by lia.
Qed.

(** Cells of nobody's are not deferred. *)
Lemma defer_free pre x y d :
  ¬ held x y → d = (if m_certified (co_global c0) then m_deferred (co_global c0) else m_deferred (co_global c0) ∪ held_cells pre) →
  d = (if m_certified (co_global c0) then m_deferred (co_global c0)
       else m_deferred (co_global c0) ∪ held_cells (pre ++ [(x, y)])).
Proof.
  intros Hh ->. destruct (m_certified _); [done|]. rewrite held_cells_snoc, decide_False by done. by rewrite union_empty_r_L.
Qed.

(** A column is put back to work. *)
Lemma commit_retry pre f x y :
  commit_inv pre f → (∀ x' y', (x', y') ∈ pre → (x', y') ∈ gj_cells j) → (x, y) ∈ gj_cells j → (x, y) ∉ pre → ¬ held x y →
  commit_inv (pre ++ [(x, y)]) (mkFound (fo_core f) (fo_changed f) (fo_retry f ++ [(ox + x, oy + y)])).
Proof.
  intros Hf Hpre Hin Hnot Hfree. pose proof (fresh_column pre f x y Hf Hpre Hin Hnot) as Hcol.
  destruct Hf as [Hco Hde Hwf Hout Hce Hli]. split; cbn; [done|by apply defer_free|done| | |].
  - intros i Hi. apply Hout. intros x' y' t' Hc. apply Hi. apply elem_of_app. by left.
  - intros x' y' [Hc|[= -> ->]%list_elem_of_singleton]%elem_of_app.
    + destruct (Hce _ _ Hc) as [[Hr ?]|?]; [left|by right]. split; [|done].
      destruct Hr; [left; apply elem_of_app; by left|by right].
    + left. split; [left; apply elem_of_app; right; left|exact Hcol].
  - intros q. rewrite app_assoc, elem_of_app, list_elem_of_singleton. intros [Hq| ->].
    + destruct (Hli q Hq) as (x' & y' & ? & ?). exists x', y'. split; [apply elem_of_app; by left|done].
    + exists x, y. split; [apply elem_of_app; right; left|done].
Qed.

(** A column of the local worker is left to it. *)
Lemma commit_held pre f x y c :
  commit_inv pre f → (∀ x' y', (x', y') ∈ pre → (x', y') ∈ gj_cells j) → (x, y) ∈ gj_cells j → (x, y) ∉ pre →
  held x y → c = (if m_certified (co_global (fo_core f)) then fo_core f
    else with_global (fo_core f) (with_deferred (co_global (fo_core f))
           ({[(ox + x, oy + y)]} ∪ m_deferred (co_global (fo_core f))))) →
  commit_inv (pre ++ [(x, y)]) (mkFound c (fo_changed f) (fo_retry f)).
Proof.
  intros Hf Hpre Hin Hnot Hheld Ec. pose proof (fresh_column pre f x y Hf Hpre Hin Hnot) as Hcol.
  destruct Hf as [Hco Hde Hwf Hout Hce Hli].
  assert (states c = states (fo_core f) ∧ reached c ∧ m_deferred (co_global c) =
    if m_certified (co_global c0) then m_deferred (co_global c0)
    else m_deferred (co_global c0) ∪ held_cells (pre ++ [(x, y)])) as (Es & Hr & Hd).
  { assert (m_certified (co_global (fo_core f)) = m_certified (co_global c0)) as Em by by rewrite Hco.
    rewrite Em in Ec. rewrite held_cells_snoc, decide_True by done.
    destruct (m_certified (co_global c0)); rewrite Ec; [done|]. split; [done|]. split.
    - unfold reached in *.
      assert (∀ D, with_deferred (co_global (fo_core f)) D = with_deferred (co_global c0) D) as -> by (intros; by rewrite Hco).
      rewrite Hco at 1. done.
    - cbn. rewrite Hde. set_solver. }
  split; cbn; rewrite ?Es; [done|done|done| | |].
  - intros i Hi. apply Hout. intros x' y' t' Hc. apply Hi. apply elem_of_app. by left.
  - intros x' y' [Hc|[= -> ->]%list_elem_of_singleton]%elem_of_app; [by apply Hce|].
    left. split; [by right|exact Hcol].
  - intros q Hq. destruct (Hli q Hq) as (x' & y' & ? & ?). exists x', y'. split; [apply elem_of_app; by left|done].
Qed.

Lemma commit_cell_spec pre f x y :
  commit_inv pre f → (∀ x' y', (x', y') ∈ pre → (x', y') ∈ gj_cells j) → (x, y) ∈ gj_cells j → (x, y) ∉ pre →
  ∃ f', commit_cell j (x, y) f = Ok f' ∧ commit_inv (pre ++ [(x, y)]) f'.
Proof.
  intros Hf Hpre Hin Hnot. pose proof (fresh_column pre f x y Hf Hpre Hin Hnot) as Hcol.
  pose proof field_facts as (Est & Hst & Ex & Et). pose proof (ck_dims _ _ Hok) as Hd. pose proof Hd as [D1 D2 D3 D4].
  pose proof (job_dims _ _ _ _ H) as Hdj. pose proof Hdj as [J1 J2 J3 J4].
  destruct (jo_cells _ _ _ _ H x y Hin) as [Hxy _]. pose proof Hxy as [Hx Hy].
  destruct (box_map g _ sw j H x y Hxy) as [Gx Gy]. destruct (geo_bounds g c0 Hok) as (Bx & By & Bt & _).
  unfold commit_cell. cbn [fst snd].
  assert (i32_add x ox = ox + x) as -> by (rewrite i32_add_small by (unfold in_i32; lia); lia).
  assert (i32_add y oy = oy + y) as -> by (rewrite i32_add_small by (unfold in_i32; lia); lia).
  pose proof (ci_core _ _ Hf) as Hreach. unfold reached in Hreach.
  assert (m_owned (co_global (fo_core f)) = m_owned (co_global c0)) as Eg by (by rewrite Hreach).
  rewrite Eg. destruct (decide ((ox + x, oy + y) ∈ m_owned (co_global c0))) as [Hheld|Hheld].
  { rewrite bool_decide_true by done. eexists. split; [done|]. by eapply commit_held. }
  rewrite bool_decide_false by done.
  destruct (gj_ran j) eqn:Er; cbn [negb]; [|eexists; split; [done|by apply commit_retry]].
  assert (co_cached (fo_core f) = Some (with_field cg (restates (cg_field cg) (states (fo_core f))))) as ->
    by (by rewrite Hreach at 1).
  cbn [of_option]. rewrite ok_bind. cbn [cg_field with_field].
  change (lv_base (restates (cg_field cg) (states (fo_core f)))) with (with_states (lv_base (cg_field cg)) (states (fo_core f))).
  assert (as_u64 (to_index (gj_vi j) x y 0) = lidx x y 0) as ->.
  { unfold to_index. rewrite (proj1 (jo_nt _ _ _ _ H)), (to_index_raw_small _ ly) by (done || lia).
    pose proof (index_bounds lx ly (g_nt g) x y 0 Hx Hy ltac:(lia)). apply as_u64_small. unfold in_u64. lia. }
  assert (as_u64 (to_index (with_states (lv_base (cg_field cg)) (states (fo_core f))) (ox + x) (oy + y) 0)
          = gidx x y 0) as ->.
  { unfold to_index. cbn. rewrite Ex, Et, (to_index_raw_small _ (g_ny g)) by (done || lia).
    pose proof (index_bounds (g_nx g) (g_ny g) (g_nt g) (ox + x) (oy + y) 0 Gx Gy ltac:(lia)).
    apply as_u64_small. unfold in_u64. lia. }
  assert (∀ t, gidx x y 0 + t = gidx x y t) as Egi by (intros; unfold index; lia).
  assert (∀ t, lidx x y 0 + t = lidx x y t) as Eli by (intros; unfold index; lia).
  rewrite (proj1 (jo_nt _ _ _ _ H)). cbn [vi_states with_states].
  assert (∃ S, ∀ t, 0 ≤ t < g_nt g → zget (states c0) (gidx x y t) = Some (S t)) as [S HS].
  { exists (fun t => default (sample_cell 0 0 false) (zget (states c0) (gidx x y t))). intros t Ht.
    destruct (ws_get _ _ _ _ (ox + x) (oy + y) t Hst) as (s & -> & _); done. }
  assert (∃ Bf, ∀ t, 0 ≤ t < g_nt g → zget (gj_before j) (lidx x y t) = Some (Bf t)) as [Bf HB].
  { exists (fun t => default (sample_cell 0 0 false) (zget (gj_before j) (lidx x y t))). intros t Ht.
    destruct (ws_get _ _ _ _ x y t (jo_before _ _ _ _ H)) as (s & -> & _); done. }
  assert (∃ Fl, ∀ t, 0 ≤ t < g_nt g → zget (vi_states (gj_vi j)) (lidx x y t) = Some (Fl t)) as [Fl HF].
  { exists (fun t => default (sample_cell 0 0 false) (zget (vi_states (gj_vi j)) (lidx x y t))). intros t Ht.
    destruct (ws_get _ _ _ _ x y t (final_wf _ _ _ _ H)) as (s & -> & _); done. }
  rewrite (all_res_spec _ (fun t => unchanged (S t) (Bf t))).
  2:{ intros t Ht%elem_of_seqZ. rewrite Egi, Eli.
      assert (vget (states (fo_core f)) (gidx x y t) = Ok (S t)) as ->
        by (apply vget_ok; rewrite Hcol by lia; apply HS; lia).
      assert (vget (gj_before j) (lidx x y t) = Ok (Bf t)) as -> by (apply vget_ok, HB; lia). done. }
  rewrite ok_bind. destruct (forallb _ _) eqn:Eall; cbn [negb]; [|eexists; split; [done|by apply commit_retry]].
  rewrite forallb_forall in Eall.
  pose proof (index_bounds (g_nx g) (g_ny g) (g_nt g) (ox + x) (oy + y) 0 Gx Gy ltac:(lia)) as Hb0.
  destruct (publish_column_spec (gj_vi j) (g_nt g) (lidx x y 0) (gidx x y 0)
    (restates (cg_field cg) (states (fo_core f))) S Fl) as (st' & mv & E & Hl & Ho & Hc & Hm); [lia|lia|..].
  { intros t Ht. rewrite Eli. by apply HF. }
  { intros t Ht. rewrite Egi. cbn. rewrite Hcol by done. by apply HS. }
  rewrite E, ok_bind. cbn [fst snd]. eexists. split; [done|].
  assert (∀ i, (∀ t, 0 ≤ t < g_nt g → i ≠ gidx x y t) → zget st' i = zget (states (fo_core f)) i) as Hout'.
  { intros i Hi. apply Ho. intros Hr. apply (Hi (i - gidx x y 0)); [lia|]. rewrite <- Egi. lia. }
  assert (∀ t, 0 ≤ t < g_nt g →
    zget st' (gidx x y t) = Some (with_value (S t) (s_total_cost (Fl t)) (s_optimal_action (Fl t)))) as Hc'.
  { intros t Ht. rewrite <- Egi. by apply Hc. }
  assert (∀ i x' y' t', (x', y') ∈ pre → 0 ≤ t' < g_nt g → i = gidx x' y' t' →
    zget st' i = zget (states (fo_core f)) i) as Hother.
  { intros i x' y' t' Hpr Ht' ->. apply Hout'. intros t Ht Ee.
    destruct (box_map g _ sw j H x' y') as [? ?]; [by apply (jo_cells _ _ _ _ H), Hpre|].
    apply (index_inj _ (g_ny g)) in Ee as (E1 & E2 & _); [|lia..].
    assert (x' = x) as -> by lia. by assert (y' = y) as -> by lia. }
  set (ch := if mv then _ else _).
  assert (∀ q, q ∈ fo_changed f → q ∈ ch) as Hch by (intros q Hq; unfold ch; destruct mv; [apply elem_of_app; by left|done]).
  assert (∀ C, states (with_cached (fo_core f) (Some (with_field C (restates (cg_field cg) st')))) = st') as Estf by done.
  destruct Hf as [Hco Hde Hwf Hoo Hce Hli]. split; cbn [fo_core fo_changed fo_retry].
  - unfold reached. rewrite Estf. rewrite Hreach at 1. done.
  - by apply defer_free.
  - rewrite Estf. split; [rewrite Hl; apply (ws_len _ _ _ _ Hwf)|].
    intros i s Hi. destruct (decide (gidx x y 0 ≤ i < gidx x y 0 + g_nt g)) as [Hr|Hr].
    + assert (i = gidx x y (i - gidx x y 0)) as Ei by (rewrite <- Egi; lia).
      rewrite Ei in Hi |- *. set (t := i - gidx x y 0) in *. rewrite Hc' in Hi by lia. injection Hi as <-.
      pose proof (HS t ltac:(lia)) as Hs. apply (ws_state _ _ _ _ Hst) in Hs. destruct Hs.
      pose proof (HF t ltac:(lia)) as Hf. apply (ws_state _ _ _ _ (final_wf _ _ _ _ H)) in Hf. destruct Hf.
      by split.
    + rewrite Ho in Hi by done. by apply (ws_state _ _ _ _ Hwf).
  - intros i Hi. rewrite Estf. rewrite Hout'.
    + apply Hoo. intros x' y' t' Hpr. apply Hi, elem_of_app. by left.
    + intros t Ht. apply Hi; [apply elem_of_app; right; left|done].
  - intros x' y' [Hpr|[= -> ->]%list_elem_of_singleton]%elem_of_app; rewrite Estf.
    + destruct (Hce x' y' Hpr) as [[Hr Hs]|[Hran Ht]]; [left|right].
      * split; [done|]. intros t Ht. rewrite (Hother _ x' y' t) by done. by apply Hs.
      * split; [done|]. intros t Ht'. destruct (Ht t Ht') as (s & b & fl & ? & ? & ? & ? & Hst'' & Hmv).
        exists s, b, fl. rewrite (Hother _ x' y' t) by done. repeat (split; [done|]). auto.
    + right. split; [by split|]. intros t Ht. exists (S t), (Bf t), (Fl t).
      split; [by apply HS|]. split; [by apply HB|]. split; [by apply HF|].
      split; [apply Eall, list_elem_of_In, elem_of_seqZ; lia|]. split; [by apply Hc'|].
      intros Hmv. unfold ch. destruct mv; [apply elem_of_app; right; left|].
      destruct (Hm eq_refl t Ht). tauto.
  - intros q [Hq|Hq]%elem_of_app.
    + unfold ch in Hq. destruct mv; [apply elem_of_app in Hq as [Hq|Hq%list_elem_of_singleton]|].
      * destruct (Hli q) as (x' & y' & ? & ?); [apply elem_of_app; by left|].
        exists x', y'. split; [apply elem_of_app; by left|done].
      * exists x, y. split; [apply elem_of_app; right; left|done].
      * destruct (Hli q) as (x' & y' & ? & ?); [apply elem_of_app; by left|].
        exists x', y'. split; [apply elem_of_app; by left|done].
    + destruct (Hli q) as (x' & y' & ? & ?); [apply elem_of_app; by right|].
      exists x', y'. split; [apply elem_of_app; by left|done].
Qed.

Lemma commit_cells_spec :
  ∃ f, for_each (gj_cells j) (commit_cell j) (mkFound c0 [] []) = Ok f ∧ commit_inv (gj_cells j) f.
Proof.
  assert (∀ l pre f, pre ++ l = gj_cells j → commit_inv pre f →
    ∃ f', for_each l (commit_cell j) f = Ok f' ∧ commit_inv (gj_cells j) f') as Hl.
  { induction l as [|[x y] l IH]; intros pre f E Hf.
    { exists f. rewrite app_nil_r in E. by subst. }
    cbn [for_each]. pose proof (jo_nodup _ _ _ _ H) as Hnd. rewrite <- E in Hnd.
    apply list.NoDup_app in Hnd as (_ & Hdis & _).
    destruct (commit_cell_spec pre f x y Hf) as (f1 & -> & Hf1).
    - intros x' y' Hp. rewrite <- E. apply elem_of_app. by left.
    - rewrite <- E. apply elem_of_app. right. left.
    - intros Hc. apply (Hdis _ Hc). left.
    - rewrite ok_bind. apply (IH (pre ++ [(x, y)])); [by rewrite <- app_assoc|done]. }
  apply (Hl (gj_cells j) []); [done|apply commit_start].
Qed.
End commit.

(** ** The whole commit *)

(** Nothing to queue for: the commit left the field as it was. *)
Lemma commit_unmoved g c0 cg sw j f :
  core_ok g c0 → co_cached c0 = Some cg → job_ok g (states c0) sw j →
  commit_inv g c0 cg j (gj_cells j) f → fo_changed f = [] → states (fo_core f) = states c0.
Proof.
  intros Hok Hcg H [_ _ Hwf Hout Hce _] Hno. destruct (field_facts g c0 cg Hok Hcg) as (_ & Hst & _).
  apply zget_ext; [by rewrite (ws_len _ _ _ _ Hwf), (ws_len _ _ _ _ Hst)|]. intros i Hi.
  set (place := fun c : Z * Z => ((gj_origin j).1 + c.1, (gj_origin j).2 + c.2)).
  destruct (decide (i ∈ job_order (g_nx g) (g_nt g) (place <$> gj_cells j))) as [Hp|Hn].
  2:{ apply Hout. intros x y t Hin Ht ->. apply Hn, elem_of_job_order. do 3 eexists. split; [|done].
      apply list_elem_of_fmap. by exists (x, y). }
  apply elem_of_job_order in Hp as (x' & y' & t & Hin' & Ht & ->).
  apply list_elem_of_fmap in Hin' as ([x y] & [= -> ->] & Hin). cbn [fst snd].
  destruct (Hce x y Hin) as [[_ Hs]|[_ Ht']]; [by apply Hs|].
  destruct (Ht' t Ht) as (s & b & fl & Hs & _ & _ & _ & Hs' & Hmv). rewrite Hs', Hs. f_equal.
  rewrite Hno in Hmv. destruct (decide (s_total_cost s = s_total_cost fl)) as [E1|];
    [|exfalso; eapply not_elem_of_nil; apply Hmv; by left].
  destruct (decide (s_optimal_action s = s_optimal_action fl)) as [E2|];
    [|exfalso; eapply not_elem_of_nil; apply Hmv; by right].
  rewrite <- E1, <- E2. by destruct s.
Qed.

(** What a commit leaves of the manager and of the queue. *)
Record commit_frame (g : geo) (cg : CachedGoal) (c c' : PlannerCore) : Prop := {
  cf_ok : core_ok g c';
  cf_cached : ∃ cg', co_cached c' = Some cg' ∧ cg_field cg' = restates (cg_field cg) (states c');
  cf_build : co_build c' = co_build c;
  cf_manager : same_office c c';
  cf_defer : if m_certified (co_global c) then m_deferred (co_global c') = m_deferred (co_global c)
             else m_deferred (co_global c') ⊆ m_deferred (co_global c) ∪ m_owned (co_global c);
  cf_cert : states c' = states c ∧ m_certified (co_global c') = m_certified (co_global c) ∧
              m_boundary_revision (co_global c') = m_boundary_revision (co_global c)
            ∨ m_certified (co_global c') = false ∧
              m_boundary_revision (co_global c') = u64_add (m_boundary_revision (co_global c)) 1;
  cf_flight : m_in_flight (co_global c') = None;
  cf_sweep : ds_cands (co_sweep c') = ds_cands (co_sweep c) ∧ ds_pos (co_sweep c') = ds_pos (co_sweep c) ∧
             ds_reach (co_sweep c') = ds_reach (co_sweep c);
  cf_grow : ∀ x y, in_map (g_nx g) (g_ny g) x y → seeded (co_sweep c) x y = true → seeded (co_sweep c') x y = true
}.

Section whole.
Context (g : geo) (c : PlannerCore) (cg : CachedGoal) (j : GlobalJob).
Context (Hok : core_ok g c) (Hcg : co_cached c = Some cg) (Hfl : m_in_flight (co_global c) = Some (gj_id j)).
Context (H : job_ok g (states c) (co_sweep c) j).

#[local] Abbreviation ox := (gj_origin j).1.
#[local] Abbreviation oy := (gj_origin j).2.
#[local] Abbreviation gidx x y t := (index (g_nx g) (g_nt g) (ox + x) (oy + y) t).
#[local] Abbreviation c0 := (on_manager (fun m => with_in_flight m None) c).

(** What became of the columns of the job. *)
Definition commit_columns (c' : PlannerCore) : Prop :=
  (∀ x y, (x, y) ∈ gj_cells j →
     (same_column g c j (states c') x y ∧ (seeded (co_sweep c') (ox + x) (oy + y) = true ∨ held c j x y))
     ∨ taken g c j (states c') x y (seeded (co_sweep c') (ox + x) (oy + y) = true)) ∧
  ∀ i, (∀ x y t, (x, y) ∈ gj_cells j → 0 ≤ t < g_nt g → i ≠ gidx x y t) →
    zget (states c') i = zget (states c) i.

(** The cells of the window are noted, for as long as it is not certified. *)
Definition commit_notes (c' : PlannerCore) : Prop :=
  gj_epoch j = m_epoch (co_global c) → m_deferred (co_global c') =
    if m_certified (co_global c) then m_deferred (co_global c)
    else m_deferred (co_global c) ∪ held_cells c j (gj_cells j).

Lemma job_cell_map x y : (x, y) ∈ gj_cells j → in_map (g_nx g) (g_ny g) (ox + x) (oy + y).
Proof. intros Hin. apply (box_map g _ _ j H). by apply (jo_cells _ _ _ _ H). Qed.

Lemma global_cell_eq x y : (x, y) ∈ gj_cells j → global_cell j (x, y) = (ox + x, oy + y).
Proof.
  intros Hin. destruct (job_cell_map x y Hin) as [Gx Gy]. destruct (geo_bounds g c Hok) as (? & ? & _ & _).
  unfold global_cell. cbn. destruct (jo_box _ _ _ _ H) as (? & ? & ? & ?).
  destruct (jo_cells _ _ _ _ H x y Hin) as [[? ?] _].
  rewrite !i32_add_small by (unfold in_i32; lia). f_equal; lia.
Qed.

(** A job of an old epoch is queued again. *)
Lemma commit_stale :
  ∃ c', for_each (gj_cells j) (fun xy => enqueue_cell (global_cell j xy)) c0 = Ok c' ∧ commit_frame g cg c c' ∧
    commit_columns c' ∧ is_partial c' = is_partial c.
Proof.
  assert (core_ok g c0) as Hok0 by (by destruct Hok; split).
  replace (for_each (gj_cells j) (fun xy => enqueue_cell (global_cell j xy)) c0)
    with (for_each (global_cell j <$> gj_cells j) enqueue_cell c0) by by rewrite for_each_fmap.
  destruct (enqueue_cells_spec g (global_cell j <$> gj_cells j) c0 Hok0) as (c' & -> & Hok' & Hq).
  exists c'. split; [done|]. pose proof (queues_frame _ _ _ _ Hq) as (Ebu & _ & Ec & Eg & E1 & E2 & E3).
  assert (states c' = states c) as Es by (unfold states, local; by rewrite Ec).
  destruct Hq as (_ & _ & _ & Hq). split; [|split; [split|unfold is_partial; by rewrite Ec]].
  - split; unfold same_office; rewrite ?Eg, ?Ec; try done.
    + exists cg. split; [done|]. rewrite Es. symmetry. unfold states, local. rewrite Hcg. apply restates_self.
    + cbn. destruct (m_certified _); set_solver.
    + by left.
    + intros x y Hxy Hs. apply Hq; [done|by left].
  - intros x y Hin. left. split; [intros t Ht; by rewrite Es|]. left.
    apply Hq; [by apply job_cell_map|]. right. apply list_elem_of_fmap. exists (x, y). by rewrite global_cell_eq.
  - intros i _. by rewrite Es.
Qed.

(** The columns published, what moved queued, and the certificate of the window withdrawn. *)
Lemma commit_current :
  ∃ f c1, for_each (gj_cells j) (commit_cell j) (mkFound c0 [] []) = Ok f ∧
    for_each (fo_changed f ++ fo_retry f) enqueue_cell (fo_core f) = Ok c1 ∧
    let c2 := if bool_decide (fo_changed f = []) then c1
              else on_manager (fun m => with_certified (next_boundary_revision m) false) c1 in
    commit_frame g cg c (settle_global c2).1 ∧ commit_columns (settle_global c2).1 ∧
    (is_partial c = true → is_partial (settle_global c2).1 = false → idle (settle_global c2).1) ∧
    commit_notes (settle_global c2).1.
Proof.
  assert (core_ok g c0) as Hok0 by (by destruct Hok; split).
  destruct (commit_cells_spec g c0 cg (co_sweep c) j Hok0 Hcg H) as (f & Ef & Hf). exists f.
  pose proof (commit_unmoved g c0 cg _ j f Hok0 Hcg H Hf) as Hunm. destruct Hf as [Hco Hde Hwf Hout Hce Hli].
  unfold reached in Hco.
  assert (core_ok g (fo_core f)) as Hokf.
  { rewrite Hco. destruct Hok0 as [? ? ? ? Hfld]. split; try done. cbn. intros cg' [= <-].
    destruct (Hfld _ Hcg) as ([? ? ?] & Ex & Ey & Et & Ea). cbn. split; [|done].
    split; cbn; [done|by rewrite Ex, Ey, Et|done]. }
  destruct (enqueue_cells_spec g (fo_changed f ++ fo_retry f) (fo_core f) Hokf) as (c1 & E1 & Hok1 & Hq).
  exists c1. split; [done|]. split; [done|]. intros c2.
  pose proof (queues_frame _ _ _ _ Hq) as (Ebu & _ & Ec1 & Eg1 & K1 & K2 & K3).
  assert (co_sweep (fo_core f) = co_sweep c) as Esf by by rewrite Hco.
  assert (co_build c2 = co_build c ∧ core_ok g c2 ∧ co_cached c2 = co_cached (fo_core f) ∧ co_sweep c2 = co_sweep c1 ∧ same_office c c2 ∧
    m_deferred (co_global c2) = m_deferred (co_global (fo_core f)) ∧ m_in_flight (co_global c2) = None ∧
    (states (fo_core f) = states c ∧ m_certified (co_global c2) = m_certified (co_global c) ∧
       m_boundary_revision (co_global c2) = m_boundary_revision (co_global c)
     ∨ m_certified (co_global c2) = false ∧
       m_boundary_revision (co_global c2) = u64_add (m_boundary_revision (co_global c)) 1))
    as (Ebu2 & Hok2 & Ec2 & Es2 & Hsame & Ed2 & Ef2 & Hcert).
  { assert (co_global (fo_core f) = with_deferred (co_global c0) (m_deferred (co_global (fo_core f)))) as Efg
      by by rewrite Hco at 1.
    assert (co_build (fo_core f) = co_build c) as Ebf by by rewrite Hco. rewrite Ebf in Ebu. clear Hco. unfold same_office, c2. case_bool_decide as Hch; cbn; rewrite Eg1, Ec1, Efg;
      (split; [exact Ebu|split; [by destruct Hok1; split|]]); cbn; repeat (split; [done|]); [left|by right].
    split; [by apply Hunm|done]. }
  clear Hunm. clearbody c2.
  pose proof (settle_ok g c2 Hok2) as Hok3.
  destruct (settle_global_spec c2) as (c3 & b & Es3 & Eb & Ecf & Eg3 & Est3 & Ep3 & Ek3 & Eo3 & Er3 & Ecc & Hb).
  rewrite Es3 in *. cbn [fst] in *.
  assert (∀ x y, seeded (co_sweep c3) x y = seeded (co_sweep c1) x y) as Eseed
    by (intros; unfold seeded; by rewrite Ep3, Es2).
  assert (states c3 = states (fo_core f)) as Est by (rewrite Est3; unfold states, local; by rewrite Ec2).
  assert (∀ x y, (x, y) ∈ gj_cells j → (ox + x, oy + y) ∈ fo_changed f ++ fo_retry f →
    seeded (co_sweep c3) (ox + x) (oy + y) = true) as Hseed.
  { intros x y Hin Hq'. rewrite Eseed. destruct Hq as (_ & _ & _ & Hq). apply Hq; [by apply job_cell_map|by right]. }
  split; [|split; [split|split]].
  - split; unfold same_office; rewrite ?Eg3; try done.
    + rewrite Ecc, Ec2, Hco, Est. destruct b; cbn; eauto.
    + by rewrite Eb.
    + rewrite Ed2, Hde. cbn. pose proof (held_cells_owned c0 j (gj_cells j)) as Hho. cbn in Hho.
      destruct (m_certified _); [done|set_solver].
    + rewrite Est. exact Hcert.
    + rewrite Ek3, Eo3, Er3, Es2, K1, K2, K3, Esf. done.
    + intros x y Hxy Hs. rewrite Eseed. destruct Hq as (_ & _ & _ & Hq). apply Hq; [done|]. left. by rewrite Esf.
  - intros x y Hin. rewrite Est. destruct (Hce x y Hin) as [[Hr Hs]|[Hran Ht]]; [left|right].
    + split; [exact Hs|]. destruct Hr as [Hr|Hr]; [left|by right]. apply Hseed; [done|]. apply elem_of_app. by right.
    + split; [done|]. intros t Htt. destruct (Ht t Htt) as (s & bb & fl & ? & ? & ? & ? & ? & Hmv).
      exists s, bb, fl. repeat (split; [done|]). intros Hne. apply Hseed; [done|]. apply elem_of_app. left. auto.
  - intros i Hi. rewrite Est. apply Hout. intros x y t Hc. by apply Hi.
  - intros Hp Hp'. destruct b; [by apply Hb|]. unfold is_partial in Hp, Hp'. rewrite Ecc, Ec2, Hco in Hp'.
    rewrite Hcg in Hp. cbn in *. congruence.
  - intros _. rewrite Eg3, Ed2, Hde. done.
Qed.

Lemma commit_global_spec :
  ∃ c' d b, commit_global_job j c = Ok (c', d, b) ∧ commit_frame g cg c c' ∧ commit_columns c' ∧
    (is_partial c = true → is_partial c' = false → idle c') ∧ commit_notes c'.
Proof.
  unfold commit_global_job. rewrite bool_decide_true by done. cbn [negb].
  destruct (negb (gj_epoch j =? m_epoch (co_global c))) eqn:Ep; cbn [orb].
  - destruct commit_stale as (c' & -> & Hf & Hc & Hp). rewrite ok_bind. eexists _, _, _. split; [done|].
    split; [done|]. split; [done|]. split; [congruence|]. intros Ee. exfalso. lia.
  - destruct commit_current as (f & c1 & -> & E & Hf). rewrite ok_bind, E, ok_bind. cbv zeta in Hf |- *.
    destruct (settle_global _) as [c3 b]. by exists c3, (gj_delta j), b.
Qed.
End whole.
