(* ===== verification/RepairPrepare.v ===== *)
(** * Preparing a repair job (vi_planner/src/core/global.rs, [prepare_global_job])

    The batch, its bounding box and the snapshot: a fresh job is tied to the
    live field ([job_ok]), and refilling the candidates covers every cell near
    a seed. *)

From Stdlib Require Import ZArith Lia.
From stdpp Require Import base gmap strings list numbers.
From S2P Require Import Prelude Floats Model Bellman Consistency Original Bitboard BitboardOps BitboardEnum Active MapSetup LocalPlanner LocalSpec Core CoreSpec Invalidate GlobalJob Repair RepairJob RepairCommit.

(** ** The batch *)

Definition in_box (b : Z * Z * Z * Z) (c : Z * Z) : Prop :=
  let '(x0, x1, y0, y1) := b in x0 ≤ c.1 ≤ x1 ∧ y0 ≤ c.2 ≤ y1.

Lemma take_batch_spec nx ny budget cands box acc :
  nx < 2 ^ 31 → ny < 2 ^ 31 → (∀ x y, (x, y) ∈ cands → in_map nx ny x y) →
  (let '(x0, x1, y0, y1) := box in 0 ≤ x0 ∧ x0 ≤ x1 ∧ x1 < nx ∧ 0 ≤ y0 ∧ y0 ≤ y1 ∧ y1 < ny) →
  (∀ c, c ∈ acc → in_box box c) →
  ∃ box' n, take_batch budget cands box acc = (box', acc ++ take n cands) ∧
    (let '(x0, x1, y0, y1) := box' in 0 ≤ x0 ∧ x0 ≤ x1 ∧ x1 < nx ∧ 0 ≤ y0 ∧ y0 ≤ y1 ∧ y1 < ny) ∧
    (∀ c, c ∈ acc ++ take n cands → in_box box' c).
Proof.
  intros Hnx Hny. revert box acc. induction cands as [|[x y] cands IH]; intros box acc Hin Hbox Hacc.
  { exists box, 0%nat. cbn. by rewrite app_nil_r. }
  cbn [take_batch fst snd]. destruct (negb _).
  { exists box, 0%nat. cbn. by rewrite app_nil_r. }
  destruct (Hin x y ltac:(left)) as [Hx Hy]. rewrite !as_i32_small by lia.
  destruct box as [[[x0 x1] y0] y1]. destruct (_ || _).
  { exists (x0, x1, y0, y1), 0%nat. cbn. by rewrite app_nil_r. }
  destruct (IH (Z.min x0 x, Z.max x1 x, Z.min y0 y, Z.max y1 y) (acc ++ [(x, y)])) as (box' & n & E & Hb & Hc).
  - intros x' y' Hxy. apply Hin. by right.
  - lia.
  - intros c [Hc| ->%list_elem_of_singleton]%elem_of_app; [|cbn; lia].
    apply Hacc in Hc. unfold in_box in *. lia.
  - exists box', (S n). rewrite <- app_assoc in E, Hc. cbn [take]. done.
Qed.

(** ** The snapshot *)

Lemma list_bind_singleton {A B} (f : A → B) (l : list A) : (l ≫= fun x => [f x]) = f <$> l.
Proof. induction l as [|x l IH]; [done|]. rewrite bind_cons, IH. done. Qed.

Lemma list_bind_fmap_l {A B C} (f : A → B) (k : B → list C) (l : list A) :
  (f <$> l) ≫= k = l ≫= fun x => k (f x).
Proof. induction l as [|x l IH]; [done|]. cbn [fmap list_fmap]. by rewrite !bind_cons, <- IH. Qed.

(** Nested loops over a box visit its positions in row-major order. *)
Lemma box_seq lx ly nt (f : Z → Z → Z → State) (h : Z → State) :
  0 ≤ lx → 0 ≤ ly → 0 ≤ nt →
  (∀ x y t, 0 ≤ x < lx → 0 ≤ y < ly → 0 ≤ t < nt → f x y t = h (index lx nt x y t)) →
  (seqZ 0 ly ≫= fun y => seqZ 0 lx ≫= fun x => (fun t => f x y t) <$> seqZ 0 nt) = h <$> seqZ 0 (lx * ly * nt).
Proof.
  intros Hx Hy Ht Hf. replace (lx * ly * nt) with (ly * (lx * nt)) by lia.
  rewrite <- (seqZ_mul ly (lx * nt)), list_fmap_bind_r by lia. apply list_bind_ext_mem.
  intros y Hyin%elem_of_seqZ. rewrite <- (seqZ_mul lx nt), list_fmap_bind_r, list_fmap_bind_r by lia.
  apply list_bind_ext_mem. intros x Hxin%elem_of_seqZ.
  rewrite <- !list_fmap_compose. apply list_fmap_ext. intros ? t Htin%list_elem_of_lookup_2%elem_of_seqZ.
  cbn. rewrite Hf by lia. f_equal. unfold index. lia.
Qed.

Lemma seqZ_shift a n : seqZ a n = Z.add a <$> seqZ 0 n.
Proof. rewrite fmap_add_seqZ. f_equal. lia. Qed.

Section snapshot.
Context (g : geo) (base : ValueIterator) (x0 x1 y0 y1 : Z).
Context (Hd : dims_ok (g_nx g) (g_ny g) (g_nt g)) (Hwf : wf_vi base).
Context (Ex : vi_cell_num_x base = g_nx g) (Ey : vi_cell_num_y base = g_ny g) (Et : vi_cell_num_t base = g_nt g)
  (Ea : vi_actions base = g_acts g).
Context (Hx0 : 0 ≤ x0) (Hx01 : x0 ≤ x1) (Hx1 : x1 < g_nx g) (Hy0 : 0 ≤ y0) (Hy01 : y0 ≤ y1) (Hy1 : y1 < g_ny g).

#[local] Abbreviation lx := (x1 - x0 + 1).
#[local] Abbreviation ly := (y1 - y0 + 1).

Lemma snapshot_spec :
  ∃ vi, snapshot base x0 x1 y0 y1 = Ok vi ∧ wf_vi vi ∧ vi_cell_num_x vi = lx ∧ vi_cell_num_y vi = ly ∧
    vi_cell_num_t vi = g_nt g ∧ vi_actions vi = g_acts g ∧
    ∀ x y t, in_map lx ly x y → 0 ≤ t < g_nt g → ∃ s,
      zget (vi_states base) (index (g_nx g) (g_nt g) (x0 + x) (y0 + y) t) = Some s ∧
      zget (vi_states vi) (index lx (g_nt g) x y t) = Some (shift_state s x0 y0).
Proof.
  pose proof Hd as [D1 D2 D3 D4]. pose proof (wv_states _ Hwf) as Hst. rewrite Ex, Ey, Et in Hst.
  set (at_ := fun x y t => default (sample_cell 0 0 false) (zget (vi_states base) (index (g_nx g) (g_nt g) x y t))).
  assert (∀ x y t, in_map (g_nx g) (g_ny g) x y → 0 ≤ t < g_nt g →
    zget (vi_states base) (index (g_nx g) (g_nt g) x y t) = Some (at_ x y t) ∧
    s_ix (at_ x y t) = x ∧ s_iy (at_ x y t) = y ∧ s_it (at_ x y t) = t) as Hat.
  { intros x y t [? ?] ?. unfold at_. destruct (ws_get _ _ _ _ x y t Hst) as (s & -> & ?); [done..|]. done. }
  set (f := fun x y t => shift_state (at_ (x0 + x) (y0 + y) t) x0 y0).
  set (h := fun i => f (cx lx (g_nt g) i) (cy lx (g_nt g) i) (ct (g_nt g) i)).
  assert (snapshot base x0 x1 y0 y1 =
    Ok (with_states (geometry base lx ly) (h <$> seqZ 0 (lx * ly * g_nt g)))) as E.
  { unfold snapshot. rewrite Et.
    assert (for_incl y0 y1 (fun y st => for_incl x0 x1 (fun x st =>
         for_range 0 (g_nt g) (fun t st =>
           s ← vget (vi_states base) (as_u64 (to_index base x y t));
           Ok (st ++ [shift_state s x0 y0])) st) st) [] = Ok ([] ++
       (seqZ y0 (y1 + 1 - y0) ≫= fun y => seqZ x0 (x1 + 1 - x0) ≫= fun x =>
          (fun t => shift_state (at_ x y t) x0 y0) <$> seqZ 0 (g_nt g)))) as ->.
    { unfold for_incl, for_range. apply for_each_append. intros y out Hy%elem_of_seqZ.
      apply for_each_append. intros x out' Hx%elem_of_seqZ.
      rewrite <- list_bind_singleton, Z.sub_0_r. apply for_each_append. intros t out'' Ht%elem_of_seqZ.
      destruct (Hat x y t) as [Hg _]; [split; lia|lia|].
      assert (as_u64 (to_index base x y t) = index (g_nx g) (g_nt g) x y t) as ->.
      { unfold to_index. rewrite Ex, Et, (to_index_raw_small _ (g_ny g)) by (done || lia).
        pose proof (index_bounds (g_nx g) (g_ny g) (g_nt g) x y t ltac:(lia) ltac:(lia) ltac:(lia)).
        apply as_u64_small. unfold in_u64. lia. }
      assert (vget (vi_states base) (index (g_nx g) (g_nt g) x y t) = Ok (at_ x y t)) as -> by by apply vget_ok.
      done. }
    rewrite ok_bind. cbn [app].
    assert (g_nx g < 2 ^ 31 ∧ g_ny g < 2 ^ 31) as [? ?] by (split; nia).
    rewrite !i32_sub_small by (unfold in_i32; lia). rewrite !i32_add_small by (unfold in_i32; lia).
    do 2 f_equal. rewrite (seqZ_shift y0), (seqZ_shift x0), list_bind_fmap_l.
    rewrite <- (box_seq lx ly (g_nt g) f h) by first [lia|
      intros x y t ? ? ?; unfold h; by destruct (coords_index lx (g_nt g) x y t) as (-> & -> & ->)].
    replace (y1 + 1 - y0) with ly by lia. replace (x1 + 1 - x0) with lx by lia.
    apply list_bind_ext_mem. intros y _. rewrite list_bind_fmap_l. done. }
  assert (∀ x y t, in_map lx ly x y → 0 ≤ t < g_nt g →
    zget (h <$> seqZ 0 (lx * ly * g_nt g)) (index lx (g_nt g) x y t) = Some (f x y t)) as Hget.
  { intros x y t [? ?] Ht. rewrite zget_fmap.
    pose proof (index_bounds lx ly (g_nt g) x y t ltac:(done) ltac:(done) Ht) as Hb.
    assert (zget (seqZ 0 (lx * ly * g_nt g)) (index lx (g_nt g) x y t) = Some (index lx (g_nt g) x y t)) as ->.
    { unfold zget. rewrite decide_True by lia. apply lookup_seqZ. lia. }
    cbn. unfold h. by destruct (coords_index lx (g_nt g) x y t) as (-> & -> & ->). }
  eexists. split; [exact E|]. cbn [vi_cell_num_x vi_cell_num_y vi_cell_num_t vi_actions vi_states with_states geometry].
  split; [|split; [done|split; [done|split; [done|split; [done|]]]]].
  - assert (lx * ly * g_nt g ≤ g_nx g * g_ny g * g_nt g) as Hle.
    { apply Z.mul_le_mono_nonneg_r; [lia|]. apply Z.mul_le_mono_nonneg; lia. }
    assert (g_nx g < 2 ^ 31 ∧ g_ny g < 2 ^ 31) as [? ?] by (split; nia).
    assert (0 ≤ lx * ly * g_nt g) as Hnn by (repeat apply Z.mul_nonneg_nonneg; lia).
    split; cbn; rewrite ?Et; [split; lia| |].
    2:{ pose proof (wv_actions _ Hwf) as Hact. by rewrite Et in Hact. }
    split; [rewrite zlen_fmap; unfold zlen; rewrite length_seqZ; lia|].
    intros i s Hi. assert (0 ≤ i < lx * ly * g_nt g) as Hr.
    { apply zget_Some_lt in Hi. rewrite zlen_fmap in Hi. unfold zlen in Hi. rewrite length_seqZ in Hi. lia. }
    destruct (index_surj lx ly (g_nt g) i) as (x & y & t & Hx & Hy & Ht & ->); [lia|lia|done|].
    rewrite Hget in Hi by (done || by split). injection Hi as <-. unfold f.
    destruct (Hat (x0 + x) (y0 + y) t) as (Hg & E1 & E2 & E3); [split; lia|done|].
    destruct (ws_state _ _ _ _ Hst _ _ Hg) as [? ? ? ? ? ? ?].
    unfold shift_state. split; cbn; rewrite ?i32_sub_small by (unfold in_i32; lia); rewrite ?E1, ?E2, ?E3; try done; try lia.
    f_equal; lia.
  - intros x y t [Hx Hy] Ht. exists (at_ (x0 + x) (y0 + y) t). split; [apply Hat; [split; lia|done]|].
    by apply Hget.
Qed.
End snapshot.

(** ** A new round *)

Lemma refill_spec g sw :
  0 < g_nx g → sweep_ok (g_nx g) (g_ny g) sw → NoDup (ds_cands sw) → reach_of (g_acts g) < 64 →
  ∃ sw', refill (reach_of (g_acts g)) sw = Ok sw' ∧ sweep_ok (g_nx g) (g_ny g) sw' ∧ NoDup (ds_cands sw') ∧
    ds_reach sw' = Some (reach_of (g_acts g)) ∧
    (ds_pos sw < zlen (ds_cands sw) ∧ ds_pending sw' = ds_pending sw ∧ ds_cands sw' = ds_cands sw ∧
       ds_pos sw' = ds_pos sw
     ∨ remaining sw = [] ∧ ds_pos sw' = 0 ∧ ds_pending sw' = None ∧
       ∀ x y, in_map (g_nx g) (g_ny g) x y → ((x, y) ∈ ds_cands sw' ↔ near_seed g sw x y)).
Proof.
  intros Hnx [Hb Hc Hp] Hnd Hr. unfold refill. destruct (ds_pos sw >=? zlen (ds_cands sw)) eqn:E.
  2:{ eexists. split; [done|]. split; [by split|]. split; [done|]. split; [done|]. left. cbn. split; [lia|done]. }
  assert (remaining sw = []) as Hrem.
  { unfold remaining. apply drop_ge. unfold zlen in *. lia. }
  destruct (ds_pending sw) as [bb|] eqn:Ep.
  - destruct (Hb bb eq_refl) as (Hwf & Ex & Ey). pose proof (reach_nonneg (g_acts g)).
    destruct (dilate2d_eq bb (reach_of (g_acts g)) (reach_of (g_acts g)) Hwf) as (d & -> & Hd & [Dx Dy] & Hh);
      [lia..|].
    rewrite ok_bind, enumerate2_eq, ok_bind by (done || lia).
    assert (∀ x y, (x, y) ∈ cells2 d ↔ in_map (g_nx g) (g_ny g) x y ∧ near_seed g sw x y) as Hcells.
    { intros x y. rewrite elem_of_cells2. unfold in2. rewrite Dx, Dy, Ex, Ey. split.
      - intros [Hxy Hs]. split; [done|]. rewrite Hh in Hs by (unfold in2; by rewrite Ex, Ey).
        destruct Hs as (x' & y' & [? ?] & ? & ? & Hs). exists x', y'. rewrite Ex, Ey in *.
        split; [done|]. unfold seeded. by rewrite Ep.
      - intros [Hxy (x' & y' & [? ?] & Hs & [? ?])]. split; [done|].
        apply Hh; [unfold in2; by rewrite Ex, Ey|]. exists x', y'.
        split; [unfold in2; by rewrite Ex, Ey|]. unfold seeded in Hs. by rewrite Ep in Hs. }
    eexists. split; [done|]. split.
    { split; cbn; [done| |unfold zlen; lia]. intros x y Hxy%Hcells. by destruct Hxy. }
    split; [apply NoDup_cells2|]. split; [done|]. right. cbn. split; [done|]. split; [done|]. split; [done|].
    intros x y Hxy. rewrite Hcells. tauto.
  - eexists. split; [done|]. split; [split; cbn; [done|by intros x y ?%elem_of_nil|done]|].
    split; [constructor|]. split; [done|]. right. cbn. split; [done|]. split; [done|]. split; [done|].
    intros x y _. split; [by intros ?%elem_of_nil|]. intros (x' & y' & _ & Hs & _).
    unfold seeded in Hs. by rewrite Ep in Hs.
Qed.

(** ** The job *)

(** The cells of the local worker are passed over; unless its certificate
    stands they are noted. *)
Lemma assign_cells_spec origin cands m acc :
  ∃ D, assign_cells origin cands m acc = (with_deferred m D,
         acc ++ ((fun c => (i32_sub c.1 origin.1, i32_sub c.2 origin.2)) <$> filter (fun c => c ∉ m_owned m) cands)) ∧
    if m_certified m then D = m_deferred m else D ⊆ m_deferred m ∪ m_owned m.
Proof.
  revert m acc. induction cands as [|c cands IH]; intros m acc; cbn [assign_cells].
  { exists (m_deferred m). rewrite app_nil_r. split; [by destruct m|]. destruct (m_certified m); set_solver. }
  rewrite list.filter_cons. case_bool_decide as Hc.
  - rewrite decide_False by auto. destruct (m_certified m) eqn:Em.
    + destruct (IH m acc) as (D & -> & HD). rewrite Em in HD. by exists D.
    + destruct (IH (with_deferred m ({[c]} ∪ m_deferred m)) acc) as (D & -> & HD). exists D. split; [by destruct m|].
      cbn in HD. rewrite Em in HD. set_solver.
  - rewrite decide_True by done. destruct (IH m (acc ++ [(i32_sub c.1 origin.1, i32_sub c.2 origin.2)])) as (D & -> & HD).
    exists D. split; [|done]. by rewrite <- app_assoc.
Qed.

(** The reach the code asserts, and room for it beside the map. *)
Definition reach_fits (g : geo) : Prop :=
  1 ≤ reach_of (g_acts g) < 64 ∧ g_nx g + reach_of (g_acts g) < 2 ^ 31 ∧ g_ny g + reach_of (g_acts g) < 2 ^ 31.

(** A core with candidates gives a job over the front of them. *)
Lemma build_job_spec g n c cg :
  core_ok g c → co_cached c = Some cg → NoDup (ds_cands (co_sweep c)) →
  ds_pos (co_sweep c) < zlen (ds_cands (co_sweep c)) → reach_fits g →
  ∃ c' j k D, build_job n (reach_of (g_acts g)) (lv_base (cg_field cg)) c = Ok (c', Some j) ∧
    c' = with_dirty (with_global (with_sweep c (co_sweep c'))
           (with_in_flight (next_serial (with_deferred (co_global c) D)) (Some (gj_id j)))) true ∧
    (if m_certified (co_global c) then D = m_deferred (co_global c)
     else D ⊆ m_deferred (co_global c) ∪ m_owned (co_global c)) ∧
    sweep_ok (g_nx g) (g_ny g) (co_sweep c') ∧
    ds_pending (co_sweep c') = ds_pending (co_sweep c) ∧ ds_cands (co_sweep c') = ds_cands (co_sweep c) ∧
    ds_reach (co_sweep c') = ds_reach (co_sweep c) ∧
    remaining (co_sweep c') = drop k (remaining (co_sweep c)) ∧
    (∀ x y, (x, y) ∈ take k (remaining (co_sweep c)) → (x, y) ∉ m_owned (co_global c) →
       (x - (gj_origin j).1, y - (gj_origin j).2) ∈ gj_cells j) ∧
    job_ok g (states c) (co_sweep c') j.
Proof.
  intros Hok Hcg Hnd Hpos (HR & RX & RY). pose proof Hok as [Hd Ha _ Hsw Hfld].
  pose proof Hsw as [Hb Hcin Hp].
  destruct (Hfld _ Hcg) as (Hwf & Ex & Ey & Et & Eac). pose proof (wv_states _ Hwf) as Hst. rewrite Ex, Ey, Et in Hst.
  destruct (geo_bounds g c Hok) as (Bx & By & Bt & _).
  set (R := reach_of (g_acts g)) in *. unfold build_job. set (sw := co_sweep c) in *.
  destruct (zget_lt (ds_cands sw) (ds_pos sw)) as [[xc yc] Hxc]; [lia|].
  assert (vget (ds_cands sw) (ds_pos sw) = Ok (xc, yc)) as -> by by apply vget_ok.
  rewrite ok_bind. cbn [fst snd].
  destruct (Hcin xc yc) as [Hxm Hym]; [by eapply elem_of_zget_1|]. rewrite !as_i32_small by lia.
  fold (remaining sw). set (budget := Z.max _ 1).
  assert (∀ x y, (x, y) ∈ remaining sw → in_map (g_nx g) (g_ny g) x y) as Hrem.
  { intros x y Hxy. apply Hcin. unfold remaining in Hxy.
    apply list_elem_of_lookup in Hxy as [i Hi]. rewrite lookup_drop in Hi. by eapply list_elem_of_lookup_2. }
  destruct (take_batch_spec (g_nx g) (g_ny g) budget (remaining sw) (xc, xc, yc, yc) [])
    as ([[[bx0 bx1] by0] by1] & k & -> & Hbox & Hin); [lia|lia|done|lia|by intros c0 ?%elem_of_nil|].
  cbn [app] in Hin |- *. rewrite Ex, Ey.
  rewrite !(i32_sub_small _ R), !(i32_add_small _ R), !(i32_sub_small _ 1) by (unfold in_i32; lia).
  set (x0 := Z.max (bx0 - R) 0). set (y0 := Z.max (by0 - R) 0).
  set (x1 := Z.min (bx1 + R) (g_nx g - 1)). set (y1 := Z.min (by1 + R) (g_ny g - 1)).
  destruct (snapshot_spec g (lv_base (cg_field cg)) x0 x1 y0 y1 Hd Hwf Ex Ey Et Eac)
    as (vi & -> & Hvi & Lx & Ly & Lt & La & Hget); [lia..|].
  rewrite ok_bind.
  destruct (assign_cells_spec (x0, y0) (take k (remaining sw)) (co_global c) []) as (D & -> & HD). cbn [app].
  set (free := filter _ _). set (cells := _ <$> free). eexists _, _, k, D. split; [done|]. cbn [gj_id gj_origin gj_cells fst snd].
  set (sw' := sweep_at sw _ _).
  assert (∀ c1, c1 ∈ take k (remaining sw) → bx0 ≤ c1.1 ≤ bx1 ∧ by0 ≤ c1.2 ≤ by1) as Hin' by (intros c1 Hc1; by apply Hin in Hc1).
  assert (∀ c1, c1 ∈ free → bx0 ≤ c1.1 ≤ bx1 ∧ by0 ≤ c1.2 ≤ by1) as Hfree.
  { intros c1 Hc1. apply list_elem_of_filter in Hc1 as [_ Hc1]. by apply Hin'. }
  assert (cells = (fun c1 => (c1.1 - x0, c1.2 - y0)) <$> free) as Ecells.
  { apply list_fmap_ext. intros ? c1 Hc1%list_elem_of_lookup_2%Hfree.
    cbn [fst snd]. rewrite !i32_sub_small by (unfold in_i32; lia). done. }
  assert (remaining sw' = drop k (remaining sw)) as Hdrop.
  { unfold remaining, sw', sweep_at. cbn. rewrite drop_drop.
    destruct (decide (k ≤ length (remaining sw))%nat) as [Hk|Hk].
    - f_equal. unfold zlen. rewrite length_take. unfold remaining in Hk |- *. rewrite length_drop in *. lia.
    - unfold zlen. rewrite length_take, Nat.min_r by lia. unfold remaining in *. rewrite length_drop in *.
      rewrite !drop_ge by lia. done. }
  split; [done|]. split; [exact HD|]. split.
  { split; cbn; [done|done|]. unfold zlen. rewrite length_take. unfold remaining. rewrite length_drop.
    unfold zlen in *. lia. }
  split; [done|]. split; [done|]. split; [done|]. split; [done|]. split.
  { intros x y Hxy Ho. rewrite Ecells. apply list_elem_of_fmap. exists (x, y). split; [done|].
    by apply list_elem_of_filter. }
  assert (states c = vi_states (lv_base (cg_field cg))) as Est by (unfold states, local; by rewrite Hcg).
  assert (vi_states (repair_values vi) = repaired (vi_states vi)) as Erep by done.
  assert (wf_states (x1 - x0 + 1) (y1 - y0 + 1) (g_nt g) (vi_states vi)) as Hbef.
  { pose proof (wv_states _ Hvi) as Hw. by rewrite Lx, Ly, Lt in Hw. }
  split; cbn; rewrite ?Lx, ?Ly, ?Lt, ?La.
  - destruct Hvi as [D1 D2 D3]. split; cbn; [done| |done]. apply repaired_wf. exact D2.
  - done.
  - lia.
  - done.
  - rewrite Ecells. apply NoDup_fmap_2_strong.
    + intros [a b] [a' b'] _ _ [= ? ?]. f_equal; lia.
    + unfold free, remaining. eapply sublist_NoDup; [exact Hnd|]. etransitivity; [apply sublist_filter|].
      etransitivity; [apply sublist_take|apply sublist_drop].
  - intros x y Hxy. rewrite Ecells in Hxy. apply list_elem_of_fmap in Hxy as ([a b] & [= -> ->] & Hab).
    apply Hfree in Hab. cbn in Hab. split; [split; lia|]. intros x' y' [? ?] [N1 N2]. fold R in N1, N2.
    split; lia.
  - intros x y t s b Hxy Ht Hs Hbe. left. destruct (Hget x y t Hxy Ht) as (s0 & H1 & H2).
    rewrite Est, H1 in Hs. injection Hs as <-. rewrite H2 in Hbe. injection Hbe as <-.
    by apply unchanged_spec.
  - done.
  - done.
Qed.
