(* ===== verification/LocalRun.v ===== *)
(** * Running a local job (vi_planner/src/core/global/local.rs)

    The sequential pass ([local_run]) and the parallel one
    ([local_run_parallel]) over the snapshot of a local job.  Both leave a
    field whose columns are consistent when the reported change is 0
    ([pass_result]); the parallel one is a Jacobi pass whatever the number of
    threads. *)

From Stdlib Require Import ZArith Lia.
From stdpp Require Import base gmap strings list numbers.
From S2P Require Import Prelude Floats Model Bellman Consistency Original Bitboard Active MapSetup LocalPlanner Core CoreSpec GlobalJob LocalJob Repair RepairJob.

(** What a pass over the cells [order] may leave behind. *)
Record pass_result (nx ny nt : Z) (acts : list Action) (order : list Z) (st st' : list State) (d : Z) : Prop := {
  pr_static : same_static st' st;
  pr_wf : wf_states nx ny nt st → wf_states nx ny nt st';
  pr_out : ∀ i, i ∉ order → zget st' i = zget st i;
  pr_settled : ∀ i s, i ∈ order → zget st' i = Some s → policy_invalidated s = false;
  pr_zero : d = 0 → same_costs st st' ∧
    ∀ i s, i ∈ order → zget st' i = Some s → updatable s = true → consistent nx ny nt acts st' s
}.

(** What a minimisation stores is never an invalidated policy. *)
Lemma bellman_settled nx ny nt acts st s s' :
  static_part s' = static_part s → updatable s' = true →
  (s_total_cost s', s_optimal_action s') = bellman nx ny nt acts st s → policy_invalidated s' = false.
Proof.
  intros Hs Hu E. unfold policy_invalidated. pose proof (argmin_from_spec MAX_COST (action_costs nx ny nt acts st s)) as (_ & _ & Ho).
  fold (bellman nx ny nt acts st s) in Ho. rewrite <- E in Ho. cbn in Ho.
  destruct (s_optimal_action s'); [by rewrite andb_false_r|]. rewrite Ho, Z.ltb_irrefl. by rewrite !andb_false_r.
Qed.

(** ** The parallel pass *)

Section jacobi.
Context (nx ny nt : Z) (acts : list Action).

(** What a helper finds for one state. *)
Definition finds (st : list State) (i : Z) : list (Z * Z * option Z) :=
  match zget st i with
  | Some s => if updatable s then [(i, (bellman nx ny nt acts st s).1, (bellman nx ny nt acts st s).2)] else []
  | None => []
  end.

(** Every state of [order] updated against the same snapshot. *)
Definition jacobi (order : list Z) (st : list State) (i : Z) (s : State) : State :=
  if bool_decide (i ∈ order) && updatable s
  then with_value s (bellman nx ny nt acts st s).1 (bellman nx ny nt acts st s).2 else s.

Lemma elem_of_finds st order u :
  u ∈ order ≫= finds st ↔ ∃ s, u.1.1 ∈ order ∧ zget st u.1.1 = Some s ∧ updatable s = true ∧
    u = (u.1.1, (bellman nx ny nt acts st s).1, (bellman nx ny nt acts st s).2).
Proof.
  rewrite list_elem_of_bind. unfold finds. split.
  - intros (i & Hu & Hi). destruct (zget st i) as [s|] eqn:Hs; [|by apply elem_of_nil in Hu].
    destruct (updatable s) eqn:E; [|by apply elem_of_nil in Hu]. apply list_elem_of_singleton in Hu as ->.
    cbn. eauto.
  - intros (s & Hin & Hs & Hu & E). exists u.1.1. rewrite Hs, Hu. split; [|done]. rewrite <- E. left.
Qed.

Lemma finds_NoDup st order : NoDup order → NoDup ((fun u : Z * Z * option Z => u.1.1) <$> (order ≫= finds st)).
Proof.
  induction 1 as [|i order Hi _ IH]; [constructor|]. rewrite bind_cons, fmap_app. apply list.NoDup_app.
  split; [|split; [|done]].
  - unfold finds. destruct (zget st i) as [s|]; [|constructor]. destruct (updatable s); [|constructor].
    apply NoDup_singleton.
  - intros k Hk Hk'. apply Hi.
    assert (k = i) as ->.
    { unfold finds in Hk. destruct (zget st i) as [s|]; [|by apply elem_of_nil in Hk].
      destruct (updatable s); [|by apply elem_of_nil in Hk]. by apply list_elem_of_singleton in Hk. }
    apply list_elem_of_fmap in Hk' as (u & Eu & Hu). apply elem_of_finds in Hu as (s & Hin & _). by rewrite Eu.
Qed.

(** Writing a list of updates back. *)
Lemma write_updates us vi d :
  NoDup ((fun u : Z * Z * option Z => u.1.1) <$> us) → (∀ u, u ∈ us → is_Some (zget (vi_states vi) u.1.1)) → 0 ≤ d →
  ∃ st d', for_each us write_update (vi, d) = Ok (with_states vi st, d') ∧ zlen st = zlen (vi_states vi) ∧
    (∀ i, (∀ u, u ∈ us → u.1.1 ≠ i) → zget st i = zget (vi_states vi) i) ∧
    (∀ u, u ∈ us → ∃ s, zget (vi_states vi) u.1.1 = Some s ∧ zget st u.1.1 = Some (with_value s u.1.2 u.2)) ∧
    0 ≤ d' ∧ (d' = 0 → d = 0 ∧ ∀ u s, u ∈ us → zget (vi_states vi) u.1.1 = Some s → s_total_cost s = u.1.2).
Proof.
  revert vi d. induction us as [|[[i cost] act] us IH]; intros vi d Hnd Hin Hd.
  { exists (vi_states vi), d. split; [by destruct vi|]. split; [done|]. split; [done|].
    split; [by intros u ?%elem_of_nil|]. split; [done|]. intros ->. split; [done|]. by intros u s ?%elem_of_nil. }
  cbn [fmap list_fmap] in Hnd. apply list.NoDup_cons in Hnd as [Hi Hnd]. cbn [fst] in Hi.
  destruct (Hin (i, cost, act) ltac:(left)) as [s Hs]. cbn [fst] in Hs.
  set (st1 := zset (vi_states vi) i (with_value s cost act)).
  assert (write_update (i, cost, act) (vi, d) =
    Ok (with_states vi st1, u64_sat_add d (Z.abs (s_total_cost s - cost)))) as E1.
  { unfold write_update. cbn [fst snd]. rewrite (proj2 (vget_ok _ _ _) Hs), ok_bind.
    by rewrite vset_ok by (by eapply zget_Some_lt). }
  cbn [for_each]. rewrite E1, ok_bind.
  assert (∀ u, u ∈ us → u.1.1 ≠ i) as Hne.
  { intros u Hu <-. apply Hi, list_elem_of_fmap. by exists u. }
  assert (∀ k, k ≠ i → zget st1 k = zget (vi_states vi) k) as Hk by (intros; by apply zget_zset_ne).
  assert (0 ≤ u64_sat_add d (Z.abs (s_total_cost s - cost)) ∧
    (u64_sat_add d (Z.abs (s_total_cost s - cost)) = 0 → d = 0 ∧ s_total_cost s = cost)) as [Hn Hz]
    by (unfold u64_sat_add, U64_MAX; lia).
  destruct (IH (with_states vi st1) (u64_sat_add d (Z.abs (s_total_cost s - cost))) Hnd) as
    (st & d' & E & Hl & Ho & Hu & Hd' & Hz'); [|done|].
  { intros u Hu. cbn. rewrite Hk by (by apply Hne). apply Hin. by right. }
  cbn in E, Hl, Ho, Hu, Hz'. exists st, d'. split; [exact E|]. split; [by rewrite Hl; apply zlen_zset|].
  split; [|split; [|split; [done|]]].
  - intros k Hne'. rewrite Ho by (intros u Hin'; apply Hne'; by right). apply Hk.
    pose proof (Hne' (i, cost, act) ltac:(left)) as H. cbn in H. congruence.
  - intros u [->|Hin']%elem_of_cons.
    + exists s. split; [done|]. cbn. rewrite Ho by (intros u Hu'; by apply Hne).
      apply zget_zset_eq. by eapply zget_Some_lt.
    + destruct (Hu u Hin') as (s1 & Hs1 & ?). rewrite Hk in Hs1 by (by apply Hne). by exists s1.
  - intros H0. destruct (Hz' H0) as [Hs0 Hall]. destruct (Hz Hs0) as [-> Hc]. split; [done|].
    intros u s1 [->|Hin']%elem_of_cons Hs1; [cbn in *; congruence|]. apply (Hall u); [done|].
    by rewrite Hk by (by apply Hne).
Qed.
End jacobi.

Lemma job_order_bind {A} lx nt cells (f : Z → list A) :
  job_order lx nt cells ≫= f = cells ≫= fun c => ((fun t => index lx nt c.1 c.2 t) <$> seqZ 0 nt) ≫= f.
Proof. unfold job_order. induction cells as [|c l IH]; [done|]. by rewrite !bind_cons, bind_app, IH. Qed.

Section run.
Context (vi : ValueIterator) (cells : list (Z * Z)).
Context (Hwf : wf_vi vi) (Hin : ∀ x y, (x, y) ∈ cells → in_map (vi_cell_num_x vi) (vi_cell_num_y vi) x y)
  (Hnd : NoDup cells).

#[local] Abbreviation nx := (vi_cell_num_x vi).
#[local] Abbreviation ny := (vi_cell_num_y vi).
#[local] Abbreviation nt := (vi_cell_num_t vi).
#[local] Abbreviation acts := (vi_actions vi).
#[local] Abbreviation st := (vi_states vi).
#[local] Abbreviation order := (job_order nx nt cells).

Lemma run_order : NoDup order ∧ ∀ i, i ∈ order → 0 ≤ i < zlen st.
Proof.
  destruct Hwf as [Hd Hst _]. split; [by apply (job_order_NoDup _ ny)|]. rewrite (ws_len _ _ _ _ Hst).
  intros i (x & y & t & Hxy & Ht & ->)%elem_of_job_order. apply Hin in Hxy as [? ?]. by apply index_bounds.
Qed.

(** ** The sequential pass *)

Lemma updates_result d : (d = 0 → same_costs st (vi_updates vi order)) →
  pass_result nx ny nt acts order st (vi_updates vi order) d.
Proof.
  intros Hz. destruct Hwf as [Hd Hst Ha]. pose proof run_order as [Ho _]. unfold vi_updates. split.
  - apply updates_static.
  - intros. by apply updates_wf.
  - intros i Hi. by apply updates_other.
  - intros i s Hi Hs. by apply (updates_settled nx ny nt acts order st i).
  - intros H0. specialize (Hz H0). split; [done|]. intros i s Hi Hs Hu.
    apply (updates_consistent nx ny nt acts st order i s); [done..|]. intros j _. apply Hz.
Qed.

Lemma helper_updates_eq l :
  (∀ x y, (x, y) ∈ l → in_map nx ny x y) → helper_updates vi l = Ok (job_order nx nt l ≫= finds nx ny nt acts st).
Proof.
  intros Hl. destruct Hwf as [Hd Hst _]. unfold helper_updates.
  rewrite (for_each_append (fun c => ((fun t => index nx nt c.1 c.2 t) <$> seqZ 0 nt) ≫= finds nx ny nt acts st)).
  { cbn [app]. f_equal. symmetry. apply job_order_bind. }
  intros [x y] out Hxy. destruct (Hl x y Hxy) as [Hx Hy]. unfold for_range. rewrite Z.sub_0_r.
  rewrite <- (list_fmap_id (seqZ 0 nt)) at 1. rewrite (for_each_append (fun t => finds nx ny nt acts st (index nx nt x y t))).
  { f_equal. f_equal. rewrite list_fmap_id. generalize (seqZ 0 nt) as ts. induction ts as [|t ts IH]; [done|].
    cbn [fmap list_fmap]. by rewrite !bind_cons, IH. }
  intros t out'. rewrite list_fmap_id. intros Ht%elem_of_seqZ. cbn [fst snd].
  destruct (ws_get _ _ _ _ x y t Hst) as (s & Hs & _); [apply Hd|apply Hd|done|done|lia|].
  assert (as_u64 (to_index vi x y t) = index nx nt x y t) as ->.
  { unfold to_index. rewrite (to_index_raw_small _ _ _ _ _ _ Hd) by (done || lia).
    pose proof (zget_Some_lt _ _ _ Hs) as Hr. pose proof (dims_total _ _ _ Hd). rewrite (ws_len _ _ _ _ Hst) in Hr.
    apply as_u64_small. unfold in_u64. lia. }
  unfold bellman_update. rewrite (min_action_cost_eq nx ny nt acts) with (s := s) by (done || apply Hwf).
  rewrite ok_bind. unfold finds. rewrite Hs. destruct (updatable s); [|by rewrite app_nil_r].
  by destruct (bellman nx ny nt acts st s).
Qed.

(** What the helpers wrote, read back. *)
Lemma jacobi_result st' d :
  wf_states nx ny nt st' → zlen st' = zlen st →
  (∀ i s, zget st i = Some s → zget st' i = Some (jacobi nx ny nt acts order st i s)) →
  (d = 0 → same_costs st st') → pass_result nx ny nt acts order st st' d.
Proof.
  intros Hst' Hl Hj Hz.
  assert (∀ i s', zget st' i = Some s' → ∃ s, zget st i = Some s ∧ s' = jacobi nx ny nt acts order st i s) as Hback.
  { intros i s' Hs'. destruct (zget_lt st i) as [s Hs]; [rewrite <- Hl; by eapply zget_Some_lt|].
    rewrite (Hj i s Hs) in Hs'. injection Hs' as <-. eauto. }
  assert (same_static st' st) as Hstat.
  { intros i. destruct (zget st i) as [s|] eqn:Hs.
    - rewrite (Hj i s Hs). cbn. f_equal. unfold jacobi. by destruct (_ && _).
    - destruct (zget st' i) as [s'|] eqn:Hs'; [|done]. destruct (Hback i s' Hs') as (s & E & _). congruence. }
  assert (∀ i s s', i ∈ order → zget st i = Some s → s' = jacobi nx ny nt acts order st i s → updatable s' = true →
    static_part s' = static_part s ∧ bellman nx ny nt acts st s = (s_total_cost s', s_optimal_action s')) as Hup.
  { intros i s s' Hi Hs -> Hu. unfold jacobi in *. rewrite bool_decide_true in * by done.
    destruct (updatable s) eqn:E; cbn [andb] in *; [|congruence]. split; [done|]. cbn. by destruct (bellman _ _ _ _ _ _). }
  split.
  - done.
  - done.
  - intros i Hi. destruct (zget st i) as [s|] eqn:Hs.
    + rewrite (Hj i s Hs). unfold jacobi. by rewrite bool_decide_false.
    + destruct (zget st' i) as [s'|] eqn:Hs'; [|done]. destruct (Hback i s' Hs') as (s & E & _). congruence.
  - intros i s' Hi Hs'. destruct (Hback i s' Hs') as (s & Hs & E). destruct (updatable s') eqn:Eu.
    + destruct (Hup i s s' Hi Hs E Eu) as [Hst1 Hb]. by apply (bellman_settled nx ny nt acts st s s').
    + unfold policy_invalidated, updatable in *. by rewrite Eu.
  - intros H0. specialize (Hz H0). split; [done|]. intros i s' Hi Hs' Hu. destruct (Hback i s' Hs') as (s & Hs & E).
    destruct (Hup i s s' Hi Hs E Hu) as [Hst1 Hb]. unfold consistent. rewrite <- Hb.
    rewrite (bellman_cell _ _ _ _ _ s' s) by done. apply bellman_local; [done|]. intros j _. apply Hz.
Qed.

Lemma write_result :
  ∃ st' d, for_each (order ≫= finds nx ny nt acts st) write_update (vi, 0) = Ok (with_states vi st', d) ∧
    zlen st' = zlen st ∧ (∀ i s, zget st i = Some s → zget st' i = Some (jacobi nx ny nt acts order st i s)) ∧
    pass_result nx ny nt acts order st st' d.
Proof.
  destruct Hwf as [Hd Hst Ha]. destruct run_order as [Ho Hr].
  destruct (write_updates (order ≫= finds nx ny nt acts st) vi 0) as (st' & d & E & Hl & Hout & Hus & Hn & Hz).
  - by apply finds_NoDup.
  - intros u (s & _ & Hs & _)%elem_of_finds. by exists s.
  - done.
  - assert (∀ i s, zget st i = Some s → zget st' i = Some (jacobi nx ny nt acts order st i s)) as Hj.
    { intros i s Hs. unfold jacobi. destruct (bool_decide (i ∈ order) && updatable s) eqn:Eb.
      - apply andb_true_iff in Eb as [Hi Hu]. apply bool_decide_eq_true in Hi.
        destruct (Hus (i, (bellman nx ny nt acts st s).1, (bellman nx ny nt acts st s).2)) as (s1 & Hs1 & E1).
        + apply elem_of_finds. exists s. done.
        + cbn in Hs1, E1. congruence.
      - rewrite Hout; [done|]. intros u (s1 & Hi & Hs1 & Hu & _)%elem_of_finds <-. rewrite Hs in Hs1.
        injection Hs1 as <-. by rewrite bool_decide_true, Hu in Eb. }
    exists st', d. split; [exact E|]. split; [exact Hl|]. split; [exact Hj|]. apply jacobi_result; [|done|done|].
    + split; [by rewrite Hl; apply (ws_len _ _ _ _ Hst)|]. intros i s' Hs'.
      destruct (zget_lt st i) as [s Hs]; [rewrite <- Hl; by eapply zget_Some_lt|].
      rewrite (Hj i s Hs) in Hs'. injection Hs' as <-. destruct (ws_state _ _ _ _ Hst _ _ Hs). unfold jacobi.
      destruct (_ && _); split; try done. cbn. by apply bellman_range.
    + intros H0 i. destruct (Hz H0) as [_ Hc]. unfold cost_at. destruct (zget st i) as [s|] eqn:Hs.
      * rewrite (Hj i s Hs). cbn. f_equal. unfold jacobi. destruct (bool_decide (i ∈ order) && updatable s) eqn:Eb; [|done].
        apply andb_true_iff in Eb as [Hi Hu]. apply bool_decide_eq_true in Hi. cbn. symmetry.
        apply (Hc (i, (bellman nx ny nt acts st s).1, (bellman nx ny nt acts st s).2) s); [|done].
        apply elem_of_finds. exists s. done.
      * destruct (zget st' i) as [s'|] eqn:Hs'; [|done].
        pose proof (zget_Some_lt _ _ _ Hs') as Hr'. rewrite Hl in Hr'. destruct (zget_lt st i Hr'). congruence.
Qed.
End run.

(** ** Both ways to run a job *)

Section both.
Context (j : LocalJob).
Context (Hwf : wf_vi (lj_vi j)) (Hnd : NoDup (lj_cells j)) (Hran : lj_ran j = false) (Hd : lj_delta j = 0).
Context (Hin : ∀ x y, (x, y) ∈ lj_cells j → in_map (vi_cell_num_x (lj_vi j)) (vi_cell_num_y (lj_vi j)) x y).

#[local] Abbreviation nx := (vi_cell_num_x (lj_vi j)).
#[local] Abbreviation ny := (vi_cell_num_y (lj_vi j)).
#[local] Abbreviation nt := (vi_cell_num_t (lj_vi j)).
#[local] Abbreviation acts := (vi_actions (lj_vi j)).
#[local] Abbreviation st := (vi_states (lj_vi j)).
#[local] Abbreviation order := (job_order nx nt (lj_cells j)).

Lemma local_run_ok :
  ∃ st' d, local_run j = Ok (lj_with j (with_states (lj_vi j) st') d) ∧ pass_result nx ny nt acts order st st' d.
Proof.
  unfold local_run. rewrite Hran, Hd. destruct (job_pass_eq (lj_vi j) (lj_cells j) Hwf Hin) as (d & E & Hn & Hz).
  unfold job_pass in E. rewrite E, ok_bind. cbn [fst snd]. eexists _, _. split; [done|].
  by apply updates_result.
Qed.

(** The helpers' shares, put together, do not depend on how many there are. *)
Lemma run_parallel_eq clocks threads :
  2 ≤ threads → lj_cells j ≠ [] →
  local_run_parallel clocks threads j =
  if forallb clocks (seqZ 0 (zlen (chunks (div_ceil (zlen (lj_cells j)) threads) (lj_cells j)))) then
    r ← for_each (order ≫= finds nx ny nt acts st) write_update (lj_vi j, 0); Ok (lj_with j r.1 r.2, true)
  else Ok (j, false).
Proof.
  intros Ht Hne. unfold local_run_parallel. rewrite Hran, (proj2 (Z.leb_gt _ _)), bool_decide_false by (done || lia).
  cbn [orb]. set (chunk := div_ceil _ _). rewrite Hd.
  assert (0 < chunk) as Hc.
  { assert (0 < zlen (lj_cells j)) by (destruct (lj_cells j); [done|unfold zlen; cbn; lia]).
    unfold chunk, div_ceil. apply Z.div_str_pos. lia. }
  rewrite (map_res_pure _ (fun part => job_order nx nt part ≫= finds nx ny nt acts st)).
  2:{ intros part Hp. apply helper_updates_eq; [done|]. intros x y Hxy. apply Hin. by eapply elem_of_chunks. }
  rewrite ok_bind. destruct (forallb _ _); cbn [negb]; [|done].
  rewrite for_each_fmap, (for_each_bind (fun part => job_order nx nt part ≫= finds nx ny nt acts st)).
  assert ((chunks chunk (lj_cells j) ≫= fun part => job_order nx nt part ≫= finds nx ny nt acts st)
          = order ≫= finds nx ny nt acts st) as ->; [|done].
  rewrite job_order_bind, <- (chunks_bind chunk _ (lj_cells j) Hc). apply list_bind_ext_mem. intros part _. apply job_order_bind.
Qed.

Lemma local_parallel_ok clocks threads :
  ∃ j' b, local_run_parallel clocks threads j = Ok (j', b) ∧
    (b = false ∧ j' = j ∨ b = true ∧ ∃ st' d, j' = lj_with j (with_states (lj_vi j) st') d ∧
       pass_result nx ny nt acts order st st' d).
Proof.
  destruct (decide (2 ≤ threads ∧ lj_cells j ≠ [])) as [[Ht Hne]|Hseq].
  - rewrite run_parallel_eq by done. destruct (forallb _ _); [|exists j, false; auto].
    destruct (write_result (lj_vi j) (lj_cells j) Hwf Hin Hnd) as (st' & d & -> & _ & _ & Hp).
    rewrite ok_bind. eexists _, true. split; [done|]. right. split; [done|]. exists st', d. done.
  - unfold local_run_parallel. rewrite Hran.
    assert ((threads <=? 1) || bool_decide (lj_cells j = []) = true) as ->.
    { apply orb_true_iff. destruct (decide (lj_cells j = [])); [right; by apply bool_decide_eq_true|left].
      apply Z.leb_le. destruct (decide (2 ≤ threads)); [by destruct Hseq|lia]. }
    destruct local_run_ok as (st' & d & -> & Hp). rewrite ok_bind. eexists _, true. split; [done|]. right. eauto.
Qed.
End both.

(** C39: the parallel local pass is one Jacobi pass, and the number of helper
    threads does not show.  With two threads or more and readable CPU clocks
    it returns a job with every assigned updatable state set to the minimum
    over the frozen snapshot, every other state as before, and a change of 0
    only when every assigned state is consistent; any other number of threads
    gives the same job.  When a clock cannot be read the job comes back as it
    was, not run. *)
Theorem run_parallel_jacobi j clocks threads :
  wf_vi (lj_vi j) → NoDup (lj_cells j) → lj_ran j = false → lj_delta j = 0 →
  (∀ x y, (x, y) ∈ lj_cells j → in_map (vi_cell_num_x (lj_vi j)) (vi_cell_num_y (lj_vi j)) x y) →
  lj_cells j ≠ [] → 2 ≤ threads →
  let '(nx, ny, nt, acts, st) := (vi_cell_num_x (lj_vi j), vi_cell_num_y (lj_vi j), vi_cell_num_t (lj_vi j),
    vi_actions (lj_vi j), vi_states (lj_vi j)) in
  ∃ st' d,
    (∀ clocks' threads', 2 ≤ threads' → (∀ k, clocks' k = true) →
       local_run_parallel clocks' threads' j = Ok (lj_with j (with_states (lj_vi j) st') d, true)) ∧
    (∀ i s, zget st i = Some s → zget st' i = Some (
       if bool_decide ((s_ix s, s_iy s) ∈ lj_cells j) && updatable s
       then with_value s (bellman nx ny nt acts st s).1 (bellman nx ny nt acts st s).2 else s)) ∧
    (d = 0 → ∀ i s, zget st' i = Some s → (s_ix s, s_iy s) ∈ lj_cells j → updatable s = true →
       consistent nx ny nt acts st' s) ∧
    (clocks 0 = false → local_run_parallel clocks threads j = Ok (j, false)).
Proof.
  intros Hwf Hnd Hran Hd Hin Hne Ht. pose proof Hwf as [Hdim Hst _].
  destruct (write_result (lj_vi j) (lj_cells j) Hwf Hin Hnd) as (st' & d & E & Hl & Hj & Hp).
  assert (∀ i s, zget (vi_states (lj_vi j)) i = Some s →
    (i ∈ job_order (vi_cell_num_x (lj_vi j)) (vi_cell_num_t (lj_vi j)) (lj_cells j) ↔ (s_ix s, s_iy s) ∈ lj_cells j)) as Hcell.
  { intros i s Hs. destruct (ws_state _ _ _ _ Hst _ _ Hs) as [Hx Hy Hts Ei _ _ _].
    rewrite elem_of_job_order. split.
    - intros (x & y & t & Hxy & Htt & E'). destruct (Hin x y Hxy). rewrite Ei in E'.
      by apply (index_inj _ (vi_cell_num_y (lj_vi j))) in E' as (-> & -> & _).
    - intros Hc. eauto 6. }
  exists st', d. split; [|split; [|split]].
  - intros clocks' threads' Ht' Hc. rewrite run_parallel_eq by done.
    rewrite (proj2 (forallb_forall _ _)) by (intros k _; apply Hc). by rewrite E, ok_bind.
  - intros i s Hs. rewrite (Hj i s Hs). f_equal. unfold jacobi. by rewrite (bool_decide_ext _ _ (Hcell i s Hs)).
  - intros H0 i s' Hs' Hc Hu. destruct (pr_zero _ _ _ _ _ _ _ _ Hp H0) as [_ Hz]. apply (Hz i); [|done|done].
    destruct (zget_lt (vi_states (lj_vi j)) i) as [s Hs]; [rewrite <- Hl; by eapply zget_Some_lt|].
    apply (Hcell i s Hs). pose proof (pr_static _ _ _ _ _ _ _ _ Hp i) as Hstat. rewrite Hs, Hs' in Hstat.
    unfold static_part in Hstat. cbn in Hstat. by injection Hstat as _ _ <- <- _ _ _.
  - intros Hc. rewrite run_parallel_eq by done. set (parts := chunks _ _).
    assert (0 < zlen parts) as Hp0.
    { assert (0 < div_ceil (zlen (lj_cells j)) threads) as Hch.
      { assert (0 < zlen (lj_cells j)) by (destruct (lj_cells j); [done|unfold zlen; cbn; lia]).
        unfold div_ceil. apply Z.div_str_pos. lia. }
      pose proof (mjoin_chunks _ (lj_cells j) Hch) as Hm. fold parts in Hm.
      destruct parts; [by rewrite <- Hm in Hne|unfold zlen; cbn; lia]. }
    destruct (forallb _ _) eqn:Ef; [|done]. rewrite forallb_forall in Ef.
    rewrite Ef in Hc; [done|]. apply list_elem_of_In, elem_of_seqZ. lia.
Qed.

(** Two cells of the unsolved corridor, by three helpers. *)
Definition sample_local_job : LocalJob :=
  mkLocalJob 0 1 2 0 0 (sample_vi 4 1 1 [step_back; step_away]
    (sample_cell 0 0 true :: ((fun ix => sample_cell MAX_COST ix false) <$> [1; 2; 3]%Z))) (0, 0) [(1, 0); (2, 0)] 0 false.

Lemma run_parallel_jacobi_witness :
  local_run_parallel (fun _ => false) 3 sample_local_job = Ok (sample_local_job, false) ∧
  ∃ j', local_run_parallel (fun _ => true) 3 sample_local_job = Ok (j', true) ∧
    local_run_parallel (fun _ => true) 2 sample_local_job = Ok (j', true).
Proof.
  destruct (run_parallel_jacobi sample_local_job (fun _ => false) 3) as (st' & d & H & _ & _ & Hf).
  - apply check_vi_ok. reflexivity.
  - apply list.NoDup_cons. split; [by intros [= ]%list_elem_of_singleton|apply NoDup_singleton].
  - reflexivity.
  - reflexivity.
  - intros x y Hxy. unfold sample_local_job in Hxy. cbn in Hxy. unfold in_map. cbn.
    apply elem_of_cons in Hxy as [[= -> ->]|[= -> ->]%list_elem_of_singleton]; lia.
  - discriminate.
  - lia.
  - split; [by apply Hf|]. eexists. split; [apply H; [lia|done]|apply H; [lia|done]].
Defined.
