(* ===== verification/RepairInv.v ===== *)
(** * The invariant of the repair (vi_planner/src/core/global.rs, global/ownership.rs)

    What stays true while a global and a local worker repair the field and the
    control ticks move the window and its inputs: [repair_inv].  Its heart is
    the coverage of Repair.v, with the window of an uncertified local worker as
    one more place where work is left, and a set of cells that overtaken commits
    left behind as an exception; the rest ties the jobs that are out, and the
    certificate of the window, to the live field.  The counters of the
    manager are bounded by the number of steps taken, so none has wrapped. *)

From Stdlib Require Import ZArith Lia.
From stdpp Require Import base gmap strings list numbers.
From S2P Require Import Prelude Floats Model Bellman Consistency Original Bitboard BitboardOps BitboardEnum Active MapSetup LocalPlanner LocalSpec Planner Solve Core CoreSpec Invalidate GlobalJob LocalJob Repair RepairJob RepairCommit RepairPrepare LocalRun.

(** ** Coverage *)

(** The cells of the job that is out. *)
Definition out_cell (o : option GlobalJob) (x y : Z) : Prop :=
  match o with Some j => (x - (gj_origin j).1, y - (gj_origin j).2) ∈ gj_cells j | None => False end.

(** The cell is in the window of a local worker that has not certified it. *)
Definition in_hand (c : PlannerCore) (x y : Z) : Prop :=
  (x, y) ∈ m_owned (co_global c) ∧ m_certified (co_global c) = false.

Definition covered (g : geo) (c : PlannerCore) (o : option GlobalJob) (x y : Z) : Prop :=
  near_seed g (co_sweep c) x y ∨ (x, y) ∈ remaining (co_sweep c) ∨ out_cell o x y ∨ in_hand c x y.

(** What nobody has to come back to: a consistent state, or one of a cell in
    [W] that an overtaken commit may have left behind; it has its policy. *)
Definition fine (g : geo) (W : gset (Z * Z)) (st : list State) (s : State) : Prop :=
  good g st s ∨ (s_ix s, s_iy s) ∈ W ∧ policy_invalidated s = false.

(** The inputs of a column do not depend on the heading. *)
Definition uniform (st : list State) : Prop :=
  ∀ i i' s s', zget st i = Some s → zget st i' = Some s' → s_ix s = s_ix s' → s_iy s = s_iy s' →
    inputs_of s = inputs_of s'.

(** ** The window and its certificate *)

Record office_ok (g : geo) (c : PlannerCore) : Prop := {
  of_owned : claimed_cells c = Ok (m_owned (co_global c));
  of_defer : m_deferred (co_global c) ⊆ m_owned (co_global c);
  of_cert : m_certified (co_global c) = true →
    pending_states c = [] ∧ m_deferred (co_global c) = ∅ ∧
    ∀ i s, zget (states c) i = Some s → updatable s = true → (s_ix s, s_iy s) ∈ m_owned (co_global c) →
      good g (states c) s
}.

(** ** Local jobs *)

(** The commit of the job would be accepted. *)
Definition accepted (c : PlannerCore) (j : LocalJob) : Prop :=
  let m := co_global c in
  m_local_in_flight m = Some (lj_id j) ∧ lj_epoch j = m_epoch m ∧ m_owner m = Some (lj_owner j) ∧
  lj_revision j = m_local_revision m.

(** It could certify the window. *)
Definition current (c : PlannerCore) (j : LocalJob) : Prop :=
  accepted c j ∧ lj_boundary_revision j = m_boundary_revision (co_global c).

(** The job was made no later than now. *)
Definition older (c : PlannerCore) (j : LocalJob) : Prop :=
  let m := co_global c in
  lj_id j ≤ m_serial m ∧ lj_epoch j ≤ m_epoch m ∧ lj_revision j ≤ m_local_revision m ∧
  lj_boundary_revision j ≤ m_boundary_revision m.

(** The job on its own: the snapshot [before] it was made from, and what its pass left. *)
Record local_shape (g : geo) (before : list State) (j : LocalJob) : Prop := {
  lh_wf : wf_vi (lj_vi j);
  lh_nt : vi_cell_num_t (lj_vi j) = g_nt g ∧ vi_actions (lj_vi j) = g_acts g;
  lh_box : 0 ≤ (lj_origin j).1 ∧ (lj_origin j).1 + vi_cell_num_x (lj_vi j) ≤ g_nx g ∧
           0 ≤ (lj_origin j).2 ∧ (lj_origin j).2 + vi_cell_num_y (lj_vi j) ≤ g_ny g;
  lh_before : wf_states (vi_cell_num_x (lj_vi j)) (vi_cell_num_y (lj_vi j)) (g_nt g) before;
  lh_nodup : NoDup (lj_cells j);
  lh_cells : ∀ x y, (x, y) ∈ lj_cells j →
    in_map (vi_cell_num_x (lj_vi j)) (vi_cell_num_y (lj_vi j)) x y ∧
    ∀ x' y', in_map (g_nx g) (g_ny g) x' y' → near g ((lj_origin j).1 + x) ((lj_origin j).2 + y) x' y' →
      in_map (vi_cell_num_x (lj_vi j)) (vi_cell_num_y (lj_vi j)) (x' - (lj_origin j).1) (y' - (lj_origin j).2);
  lh_states : if lj_ran j
    then pass_result (vi_cell_num_x (lj_vi j)) (vi_cell_num_y (lj_vi j)) (g_nt g) (g_acts g)
           (job_order (vi_cell_num_x (lj_vi j)) (g_nt g) (lj_cells j)) (repaired before)
           (vi_states (lj_vi j)) (lj_delta j)
    else vi_states (lj_vi j) = repaired before ∧ lj_delta j = 0
}.

(** The live field is still the snapshot, and the job has the whole window. *)
Record live_link (g : geo) (c : PlannerCore) (before : list State) (j : LocalJob) : Prop := {
  ll_drained : pending_states c = [];
  ll_cells : ∀ x y, (x, y) ∈ m_owned (co_global c) → (x - (lj_origin j).1, y - (lj_origin j).2) ∈ lj_cells j;
  ll_same : ∀ x y t s b, in_map (vi_cell_num_x (lj_vi j)) (vi_cell_num_y (lj_vi j)) x y → 0 ≤ t < g_nt g →
    zget (states c) (index (g_nx g) (g_nt g) ((lj_origin j).1 + x) ((lj_origin j).2 + y) t) = Some s →
    zget before (index (vi_cell_num_x (lj_vi j)) (g_nt g) x y t) = Some b → unchanged s b = true
}.

(** The job keeps to the window. *)
Definition cells_owned (c : PlannerCore) (j : LocalJob) : Prop :=
  ∀ x y, (x, y) ∈ lj_cells j → ((lj_origin j).1 + x, (lj_origin j).2 + y) ∈ m_owned (co_global c).

Definition local_ok (g : geo) (c : PlannerCore) (j : LocalJob) : Prop :=
  older c j ∧ (accepted c j → cells_owned c j) ∧
  ∃ before, local_shape g before j ∧ (current c j → live_link g c before j).

(** ** The invariant *)

Definition counters_ok (N : Z) (c : PlannerCore) : Prop :=
  let m := co_global c in
  0 ≤ m_serial m ≤ N ∧ 0 ≤ m_epoch m ≤ N ∧ 0 ≤ m_local_revision m ≤ N ∧ 0 ≤ m_boundary_revision m ≤ N.

Record repair_inv (g : geo) (N : Z) (W : gset (Z * Z)) (c : PlannerCore) (o : option GlobalJob) (ls : list LocalJob) : Prop := {
  ri_ok : core_ok g c;
  ri_fits : reach_fits g;
  ri_cached : ∃ cg, co_cached c = Some cg ∧ window_in_map (cg_field cg);
  ri_office : office_ok g c;
  ri_count : counters_ok N c;
  ri_local : ∀ j, j ∈ ls → local_ok g c j;
  ri_reach : ∀ r, ds_reach (co_sweep c) = Some r → r = reach_of (g_acts g);
  ri_nodup : NoDup (ds_cands (co_sweep c));
  ri_table : table_ok g c;
  ri_pend : ∀ m, m ∈ pending_states c → on_field g m;
  ri_flight : m_in_flight (co_global c) = gj_id <$> o;
  ri_job : ∀ j, o = Some j → job_ok g (states c) (co_sweep c) j;
  ri_uniform : uniform (states c);
  ri_cov : ∀ i s, zget (states c) i = Some s → updatable s = true →
    fine g W (states c) s ∨ covered g c o (s_ix s) (s_iy s)
}.

Lemma states_wf g c cg : core_ok g c → co_cached c = Some cg → wf_states (g_nx g) (g_ny g) (g_nt g) (states c).
Proof.
  intros Hok Hc. destruct (ck_field _ _ Hok _ Hc) as ([_ Hst _] & Ex & Ey & Et & _). rewrite Ex, Ey, Et in Hst.
  unfold states, local. by rewrite Hc.
Qed.

(** ** What a change of the field can spoil *)

(** Away from the changed cells the field is seen as it was. *)
Lemma sees_unchanged g st st' s i :
  dims_ok (g_nx g) (g_ny g) (g_nt g) → Forall (wf_action (g_nt g)) (g_acts g) →
  wf_states (g_nx g) (g_ny g) (g_nt g) st → zlen st' = zlen st → zget st i = Some s →
  (∀ k b, zget st k = Some b → near g (s_ix s) (s_iy s) (s_ix b) (s_iy b) →
     ∃ b', zget st' k = Some b' ∧ same_entry (repair_state b) (repair_state b')) →
  g_sees g (repaired st) s (repaired st') s.
Proof.
  intros Hd Ha Hst Hl Hs Hk. split; [done|done|]. intros a tr Hin Htr Hi.
  destruct (target_place g st s i tr a Hd Ha Hst Hs Hin Htr Hi) as (b & Hb & _ & _ & _ & Hn).
  destruct (Hk _ _ Hb Hn) as (b' & Hb' & Hse). rewrite !zget_repaired, Hb, Hb'. eauto.
Qed.

Lemma good_sees g st st' s : g_sees g (repaired st) s (repaired st') s → good g st s → good g st' s.
Proof.
  intros Hse [Hp Hg]. split; [done|]. destruct Hg as [E|(E1 & E2 & Hr)].
  - left. unfold g_bellman in *. rewrite <- E. symmetry. exact (sees_bellman _ _ _ _ _ _ _ _ _ _ Hse).
  - right. split; [done|]. split; [done|]. intros k Hk.
    destruct (sees_reads _ _ _ _ _ _ _ _ _ _ Hse k Hk) as (k' & Hk' & E).
    unfold cost_at in *. rewrite <- E. by apply Hr.
Qed.

(** A state whose neighbourhood changed only at queued cells stays good, or is
    near one of them. *)
Lemma good_or_near g st st' sw s i :
  dims_ok (g_nx g) (g_ny g) (g_nt g) → Forall (wf_action (g_nt g)) (g_acts g) →
  wf_states (g_nx g) (g_ny g) (g_nt g) st → zlen st' = zlen st → zget st i = Some s → good g st s →
  (∀ k b, zget st k = Some b → ∃ b', zget st' k = Some b' ∧
     (same_entry (repair_state b) (repair_state b') ∨ seeded sw (s_ix b) (s_iy b) = true)) →
  good g st' s ∨ near_seed g sw (s_ix s) (s_iy s).
Proof.
  intros Hd Ha Hst Hl Hs Hg Hk. destruct (near_seed_dec g sw (s_ix s) (s_iy s)) as [?|Hno]; [by right|left].
  eapply good_sees; [|exact Hg]. eapply (sees_unchanged g st st' s i); [done..|].
  intros k b Hb Hn. destruct (Hk k b Hb) as (b' & Hb' & [?|Hsd]); [eauto|].
  destruct Hno. destruct (ws_state _ _ _ _ Hst _ _ Hb) as [? ? _ _ _ _ _].
  exists (s_ix b), (s_iy b). split; [by split|]. split; [done|exact Hn].
Qed.

Lemma near_seed_grow g sw sw' x y :
  (∀ a b, in_map (g_nx g) (g_ny g) a b → seeded sw a b = true → seeded sw' a b = true) →
  near_seed g sw x y → near_seed g sw' x y.
Proof. intros Hg (a & b & Hm & Hs & Hn). exists a, b. auto. Qed.

Lemma job_ok_grow g st sw sw' j :
  (∀ a b, in_map (g_nx g) (g_ny g) a b → seeded sw a b = true → seeded sw' a b = true) →
  job_ok g st sw j → job_ok g st sw' j.
Proof.
  intros Hg H. destruct H as [? ? ? ? ? ? Hl ? ?] eqn:E. split; try done.
  intros x y t s b Hxy Ht Hs Hb. destruct (Hl x y t s b Hxy Ht Hs Hb); [by left|right].
  apply Hg; [|done]. by apply (box_map g st sw j H).
Qed.

Lemma inputs_unchanged_entry s s' :
  s_total_cost s' = s_total_cost s → s_optimal_action s' = s_optimal_action s →
  s_final_state s' = s_final_state s → inputs_of s' = inputs_of s → same_entry (repair_state s) (repair_state s').
Proof.
  intros E1 E2 E3 [= E4 E5 E6].
  assert (policy_invalidated s' = policy_invalidated s) as E by (unfold policy_invalidated; by rewrite E1, E2, E3, E4).
  unfold repair_state. rewrite E. destruct (policy_invalidated s); unfold same_entry; cbn; done.
Qed.

(** Changes at queued cells only. *)
Record changes_at (g : geo) (st st' : list State) (sw' : DenseSweep) : Prop := {
  ca_len : zlen st' = zlen st;
  ca_state : ∀ k b, zget st k = Some b → ∃ b', zget st' k = Some b' ∧ place b' = place b ∧
    (b' = b ∨ seeded sw' (s_ix b) (s_iy b) = true)
}.

Lemma changes_back g st st' sw' k b' :
  changes_at g st st' sw' → zget st' k = Some b' → ∃ b, zget st k = Some b ∧ place b' = place b ∧
    (b' = b ∨ seeded sw' (s_ix b) (s_iy b) = true).
Proof.
  intros [Hl Hs] Hb'. pose proof (zget_Some_lt _ _ _ Hb') as Hr. rewrite Hl in Hr.
  destruct (zget_lt st k Hr) as [b Hb]. destruct (Hs k b Hb) as (b1 & Hb1 & ?). rewrite Hb' in Hb1.
  injection Hb1 as <-. by exists b.
Qed.

(** ** Changes of the field *)

(** A change at queued cells keeps the promise, whatever is out, when the
    window in hand is accounted for. *)
Lemma cov_change g N W c c' o ls :
  repair_inv g N W c o ls →
  ds_cands (co_sweep c') = ds_cands (co_sweep c) → ds_pos (co_sweep c') = ds_pos (co_sweep c) →
  (∀ x y, in_map (g_nx g) (g_ny g) x y → seeded (co_sweep c) x y = true → seeded (co_sweep c') x y = true) →
  changes_at g (states c) (states c') (co_sweep c') →
  (∀ i s, zget (states c') i = Some s → updatable s = true → in_hand c (s_ix s) (s_iy s) →
     fine g W (states c') s ∨ covered g c' o (s_ix s) (s_iy s)) →
  ∀ i s, zget (states c') i = Some s → updatable s = true →
    fine g W (states c') s ∨ covered g c' o (s_ix s) (s_iy s).
Proof.
  intros H Ec Ep Hgrow Hch Hhand i s' Hi Hus.
  destruct (ri_cached _ _ _ _ _ _ H) as (cg & Hcg & _). pose proof (ri_ok _ _ _ _ _ _ H) as Hok0.
  pose proof (states_wf g c cg Hok0 Hcg) as Hst.
  destruct (changes_back _ _ _ _ _ _ Hch Hi) as (s & Hs & [= Ex Ey _] & Heq).
  destruct (ws_state _ _ _ _ Hst _ _ Hs) as [Sx Sy _ _ _ _ _].
  destruct Heq as [-> | Hsd]; [|right; left; rewrite Ex, Ey; by apply seed_near].
  destruct (ri_cov _ _ _ _ _ _ H i s Hs Hus) as [[Hgood|?]|[Hn|[Hr|[Hr|Hr]]]].
  - assert (good g (states c') s ∨ near_seed g (co_sweep c') (s_ix s) (s_iy s)) as [?|?]; [|by left; left|by right; left].
    apply (good_or_near g (states c) (states c') (co_sweep c') s i); [apply Hok0|apply Hok0|done|apply Hch|done|done|].
    intros k b Hb. destruct (ca_state _ _ _ _ Hch k b Hb) as (b' & Hb' & _ & Heq).
    exists b'. split; [done|]. destruct Heq as [-> | ?]; [by left|by right].
  - left. by right.
  - right. left. by eapply near_seed_grow.
  - right. right. left. unfold remaining. by rewrite Ec, Ep.
  - right. right. right. by left.
  - by apply (Hhand i).
Qed.

(** The invariant survives a change of the field at queued cells, as long as
    the queues only grow and the window and the local jobs are accounted for. *)
Lemma repair_inv_change g N N' W c c' o ls cg' :
  repair_inv g N W c o ls → core_ok g c' → co_cached c' = Some cg' → window_in_map (cg_field cg') →
  office_ok g c' → counters_ok N' c' → (∀ j, j ∈ ls → local_ok g c' j) →
  ds_cands (co_sweep c') = ds_cands (co_sweep c) → ds_pos (co_sweep c') = ds_pos (co_sweep c) →
  ds_reach (co_sweep c') = ds_reach (co_sweep c) →
  (∀ x y, in_map (g_nx g) (g_ny g) x y → seeded (co_sweep c) x y = true → seeded (co_sweep c') x y = true) →
  table_ok g c' → (∀ m, m ∈ pending_states c' → on_field g m) →
  m_in_flight (co_global c') = m_in_flight (co_global c) → uniform (states c') →
  changes_at g (states c) (states c') (co_sweep c') →
  (∀ i s, zget (states c') i = Some s → updatable s = true → in_hand c (s_ix s) (s_iy s) →
     fine g W (states c') s ∨ covered g c' o (s_ix s) (s_iy s)) →
  repair_inv g N' W c' o ls.
Proof.
  intros H Hok Hc Hw Hoff Hcnt Hls Ec Ep Er Hgrow Ht Hp Efl Hu Hch Hhand.
  pose proof (cov_change g N W c c' o ls H Ec Ep Hgrow Hch Hhand) as Hcov'.
  pose proof H as [Hok0 Hfit (cg & Hcg & Hwin) _ _ _ Hre Hnd _ _ Hfl Hj _ _].
  pose proof (states_wf g c cg Hok0 Hcg) as Hst.
  split; try done.
  - by exists cg'.
  - by rewrite Er.
  - by rewrite Ec.
  - by rewrite Efl.
  - intros j Hoj. specialize (Hj j Hoj). pose proof (job_ok_grow g _ _ (co_sweep c') j Hgrow Hj) as Hj'.
    destruct Hj' as [? ? Hbox ? ? ? Hl ? ?]. split; try done. intros x y t s' b Hxy Htt Hs' Hb.
    destruct (changes_back _ _ _ _ _ _ Hch Hs') as (s & Hs & _ & [-> | Hsd]); [by eapply Hl|right].
    destruct (ws_state _ _ _ _ Hst _ _ Hs) as [? ? ? Ei _ _ _].
    destruct (box_map g _ _ j Hj x y Hxy) as [? ?].
    apply (index_inj _ (g_ny g)) in Ei as (-> & -> & _); done.
Qed.

Lemma changes_refl g st sw : changes_at g st st sw.
Proof. split; [done|]. intros k b Hb. exists b. auto. Qed.

(** Only the queue, the jobs or the notes of the manager changed. *)
Lemma repair_inv_queue g N N' W c c' o ls ls' cg' :
  repair_inv g N W c o ls → core_ok g c' → co_cached c' = Some cg' → window_in_map (cg_field cg') →
  office_ok g c' → counters_ok N' c' → (∀ j, j ∈ ls' → local_ok g c' j) →
  m_invalidation (co_global c') = m_invalidation (co_global c) → m_in_flight (co_global c') = m_in_flight (co_global c) →
  states c' = states c →
  (∀ r, ds_reach (co_sweep c') = Some r → r = reach_of (g_acts g)) → NoDup (ds_cands (co_sweep c')) →
  (∀ j, o = Some j → job_ok g (states c) (co_sweep c') j) →
  (∀ i s, zget (states c) i = Some s → updatable s = true → covered g c o (s_ix s) (s_iy s) →
     fine g W (states c) s ∨ covered g c' o (s_ix s) (s_iy s)) →
  repair_inv g N' W c' o ls'.
Proof.
  intros H Hok Hc Hw Hoff Hcnt Hls Ei Efl Es Hr Hnd Hj Hcov. split; rewrite ?Es; try done.
  - apply H.
  - by exists cg'.
  - unfold table_ok, pending_states. rewrite Ei. apply H.
  - unfold pending_states. rewrite Ei. apply H.
  - rewrite Efl. apply H.
  - apply H.
  - intros i s Hi Hu. destruct (ri_cov _ _ _ _ _ _ H i s Hi Hu) as [?|Hcv]; [by left|by eapply Hcov].
Qed.

(** ** Local jobs and the certificate across a step *)

Definition counters_grow (c c' : PlannerCore) : Prop :=
  let '(m, m') := (co_global c, co_global c') in
  m_serial m ≤ m_serial m' ∧ m_epoch m ≤ m_epoch m' ∧ m_local_revision m ≤ m_local_revision m' ∧
  m_boundary_revision m ≤ m_boundary_revision m'.

Lemma older_grow c c' j : counters_grow c c' → older c j → older c' j.
Proof. unfold counters_grow, older. cbn. lia. Qed.

(** The commit would be refused. *)
Lemma local_ok_stale g c c' j : local_ok g c j → counters_grow c c' → ¬ accepted c' j → local_ok g c' j.
Proof.
  intros (Ho & _ & b & Hs & _) Hg Hn. split; [by eapply older_grow|]. split; [done|].
  exists b. split; [done|]. by intros [? _].
Qed.

(** It could no longer certify. *)
Lemma local_ok_outdated g c c' j :
  local_ok g c j → counters_grow c c' → m_owned (co_global c') = m_owned (co_global c) →
  (accepted c' j → accepted c j) → ¬ current c' j → local_ok g c' j.
Proof.
  intros (Ho & Hi & b & Hs & _) Hg Eo Ha Hn. split; [by eapply older_grow|]. split; [|by exists b].
  intros Hc%Ha%Hi. unfold cells_owned. by rewrite Eo.
Qed.

Lemma local_ok_calm g c c' j :
  local_ok g c j → counters_grow c c' → states c' = states c → m_owned (co_global c') = m_owned (co_global c) →
  m_invalidation (co_global c') = m_invalidation (co_global c) →
  m_boundary_revision (co_global c') = m_boundary_revision (co_global c) → (accepted c' j → accepted c j) →
  local_ok g c' j.
Proof.
  intros (Ho & Hin & b & Hs & Hl) Hg Es Eo Ei Eb Ha. split; [by eapply older_grow|].
  split; [intros Hc%Ha%Hin; unfold cells_owned; by rewrite Eo|]. exists b. split; [done|].
  intros [Hc%Ha Hbd]. destruct Hl as [Hd Hce Hsame]; [split; [done|congruence]|]. split.
  - unfold pending_states in *. by rewrite Ei.
  - by rewrite Eo.
  - by rewrite Es.
Qed.

(** The calls that leave the claims of the window alone. *)
Lemma same_office_accepted c c' j : same_office c c' → accepted c' j → accepted c j.
Proof.
  unfold same_office, accepted. cbn. intros (E1 & E2 & E3 & E4 & E5 & E6 & E7). by rewrite E1, E3, E5, E6.
Qed.

Lemma counters_refl c c' :
  same_office c c' → m_boundary_revision (co_global c') = m_boundary_revision (co_global c) → counters_grow c c'.
Proof.
  unfold same_office, counters_grow. cbn. intros (E1 & E2 & E3 & E4 & E5 & E6 & E7) E8. rewrite E4, E5, E6, E8. lia.
Qed.

Lemma claimed_same c c' l l' :
  co_build c' = co_build c → m_owner (co_global c') = m_owner (co_global c) → local c = Some l → local c' = Some l' →
  window_cells l' = window_cells l → claimed_cells c' = claimed_cells c.
Proof. intros Eb Eo El El' Ew. unfold claimed_cells. by rewrite Eo, El, El', Ew, Eb. Qed.

Lemma window_cells_restates l st : window_cells (restates l st) = window_cells l.
Proof. done. Qed.

(** A certificate that stands, or none. *)
Lemma office_calm g c c' :
  office_ok g c → claimed_cells c' = claimed_cells c → m_owned (co_global c') = m_owned (co_global c) →
  m_deferred (co_global c') ⊆ m_owned (co_global c) →
  (m_certified (co_global c') = true → m_certified (co_global c) = true ∧ m_deferred (co_global c') = ∅ ∧
     pending_states c' = [] ∧ states c' = states c) →
  office_ok g c'.
Proof.
  intros [H1 H2 H3] Ec Eo Hd Hcert. split; rewrite ?Eo; [by rewrite Ec|done|]. intros (Hc & ? & ? & Es)%Hcert.
  rewrite Es. split; [done|]. split; [done|]. by apply H3.
Qed.

(** The same manager over the same field. *)
Lemma office_same g c c' :
  co_build c' = co_build c → co_global c' = co_global c → local c' = local c → office_ok g c → office_ok g c'.
Proof.
  intros Eb Eg El [H1 H2 H3]. assert (states c' = states c) as Es by (unfold states; by rewrite El).
  split; rewrite ?Eg, ?Es; [|done|by unfold pending_states in *; rewrite Eg].
  unfold claimed_cells in *. by rewrite Eg, El, Eb.
Qed.

Lemma local_ok_same g c c' j :
  co_global c' = co_global c → local c' = local c → local_ok g c j → local_ok g c' j.
Proof.
  intros Eg El H. apply (local_ok_calm g c); [done|unfold counters_grow; rewrite Eg; cbn; lia|
    unfold states; by rewrite El|by rewrite Eg|by rewrite Eg|by rewrite Eg|]. unfold accepted. by rewrite Eg.
Qed.

(** ** The cells left behind

    A history of the run, not part of the program: the cells [W] that a commit
    has published beside a withheld one and that nothing queued since is near. *)

Definition window_holds (c : PlannerCore) (j : GlobalJob) (x y : Z) : bool :=
  bool_decide (((gj_origin j).1 + x, (gj_origin j).2 + y) ∈ m_owned (co_global c)).

(** The cells of a job outside the window, within the reach of a cell the
    window has taken over whose column the job found different. *)
Definition beside (g : geo) (c : PlannerCore) (j : GlobalJob) : gset (Z * Z) :=
  list_to_set ((fun xy => ((gj_origin j).1 + xy.1, (gj_origin j).2 + xy.2)) <$>
    filter (fun xy => negb (window_holds c j xy.1 xy.2) && undermined g (states c) (window_holds c j) j xy.1 xy.2 = true)
      (gj_cells j)).

(** A cell near a queued one is evaluated again. *)
Definition rechecked (g : geo) (c : PlannerCore) (W : gset (Z * Z)) : gset (Z * Z) :=
  filter (fun xy => near_seed_b g (co_sweep c) xy.1 xy.2 = false) W.

Lemma elem_of_beside g c j x y :
  (x, y) ∈ gj_cells j → ((gj_origin j).1 + x, (gj_origin j).2 + y) ∉ m_owned (co_global c) →
  undermined g (states c) (window_holds c j) j x y = true →
  ((gj_origin j).1 + x, (gj_origin j).2 + y) ∈ beside g c j.
Proof.
  intros Hin Hno Hu. apply elem_of_list_to_set, list_elem_of_fmap. exists (x, y). split; [done|].
  apply list_elem_of_filter. split; [|done]. cbn. unfold window_holds at 1. by rewrite bool_decide_false, Hu.
Qed.

(** When the window has none of the job's cells, nothing is left behind. *)
Lemma beside_empty g c j : (∀ x y, (x, y) ∈ gj_cells j → window_holds c j x y = false) → beside g c j = ∅.
Proof.
  intros H. unfold beside. destruct (filter _ (gj_cells j)) as [|xy l] eqn:E; [done|exfalso].
  assert (xy ∈ xy :: l) as Hin by left. rewrite <- E in Hin. apply list_elem_of_filter in Hin as [Hf _].
  apply andb_true_iff in Hf as [_ Hu]. apply existsb_exists in Hu as ([x' y'] & Hc%list_elem_of_In & Ec).
  cbn in Ec. by rewrite H in Ec.
Qed.

Lemma fine_grow g W W' st s : W ⊆ W' → fine g W st s → fine g W' st s.
Proof. intros Hs [?|[? ?]]; [by left|right]. split; [by apply Hs|done]. Qed.

Lemma repair_inv_behind g N W W' c o ls : repair_inv g N W c o ls → W ⊆ W' → repair_inv g N W' c o ls.
Proof.
  intros H Hs. destruct H as [? ? ? ? ? ? ? ? ? ? ? ? ? Hcov] eqn:E. split; try done. intros i s Hi Hu.
  destruct (Hcov i s Hi Hu) as [?|?]; [left; by eapply fine_grow|by right].
Qed.

Lemma repair_inv_recheck g N W c o ls : repair_inv g N W c o ls → repair_inv g N (rechecked g c W) c o ls.
Proof.
  intros H. destruct H as [? ? ? ? ? ? ? ? ? ? ? ? ? Hcov] eqn:E. split; try done. intros i s Hi Hu.
  destruct (Hcov i s Hi Hu) as [[?|[Hw Hp]]|?]; [by left; left| |by right].
  destruct (near_seed_b g (co_sweep c) (s_ix s) (s_iy s)) eqn:En.
  - right. left. by apply near_seed_b_spec.
  - left. right. split; [|done]. by apply elem_of_filter.
Qed.

Lemma counters_more N N' c : counters_ok N c → N ≤ N' → counters_ok N' c.
Proof. unfold counters_ok. cbn. lia. Qed.
