(* ===== verification/RepairLoop.v ===== *)
(** * The global worker keeps the invariant (vi_planner/src/core/global.rs)

    Draining invalidations, restarting the check, and preparing, running and
    committing a global job: none of them panics, and each keeps [repair_inv]
    of RepairInv.v.  Only an idle manager completes the field. *)

From Stdlib Require Import ZArith Lia.
From stdpp Require Import base gmap strings list numbers.
From S2P Require Import Prelude Floats Model Bellman Consistency Original Bitboard BitboardOps BitboardEnum Active MapSetup LocalPlanner LocalSpec Planner Solve Core CoreSpec Invalidate GlobalJob LocalJob Repair RepairJob RepairCommit RepairPrepare LocalRun RepairInv.

(** ** Draining and restarting *)

(** Values and actions are no input: clearing an action keeps the columns uniform. *)
Lemma uniform_values st st' :
  uniform st → (∀ k b', zget st' k = Some b' → ∃ b, zget st k = Some b ∧ static_part b' = static_part b) →
  uniform st'.
Proof.
  intros Hu Hs i i' s s' Hi Hi' Ex Ey. destruct (Hs _ _ Hi) as (a & Ha & Ea), (Hs _ _ Hi') as (a' & Ha' & Eb).
  unfold static_part in *. injection Ea as ? ? ? ? ? ? ?. injection Eb as ? ? ? ? ? ? ?.
  assert (inputs_of a = inputs_of a') as E by (apply (Hu i i'); congruence).
  unfold inputs_of in *. congruence.
Qed.

Lemma drained_now c n : pending_states c = [] → advance_invalidations n c = Ok (c, true).
Proof. unfold pending_states. intros E. destruct n; cbn; [unfold invalidating|]; by rewrite E. Qed.

Lemma inv_local g N W c o ls : repair_inv g N W c o ls → ∃ cg, co_cached c = Some cg ∧ local c = Some (cg_field cg) ∧
  states c = vi_states (lv_base (cg_field cg)).
Proof.
  intros H. destruct (ri_cached _ _ _ _ _ _ H) as (cg & Hcg & _). exists cg. unfold states, local. by rewrite Hcg.
Qed.

Lemma drain_keeps g N W c o ls n :
  repair_inv g N W c o ls →
  ∃ c' b, advance_invalidations n c = Ok (c', b) ∧ repair_inv g N W c' o ls ∧ (b = true ↔ pending_states c' = []) ∧
    is_partial c' = is_partial c.
Proof.
  intros H. destruct (pending_states c) as [|p0 ps] eqn:Epend.
  { exists c, true. split; [by apply drained_now|]. split; [done|]. split; [by rewrite Epend|done]. }
  pose proof (ri_cached _ _ _ _ _ _ H) as (cg & Hcg & Hwin). pose proof (ri_office _ _ _ _ _ _ H) as Hoff.
  destruct (drain_spec g c cg n (ri_ok _ _ _ _ _ _ H) Hcg (ri_table _ _ _ _ _ _ H) (ri_pend _ _ _ _ _ _ H))
    as (c' & b & rev & -> & Hok' & Eb' & _ & Hc' & Hg' & Ht' & Hb & Hp' & [p Hsw] & Hgrow & Hl & Hce).
  exists c', b. split; [done|]. split; [|split; [done|unfold is_partial; by rewrite Hc', Hcg]].
  assert (m_certified (co_global c) = false) as Hnc.
  { destruct (m_certified _) eqn:E; [|done]. destruct (of_cert _ _ Hoff E) as [Hp0 _]. congruence. }
  assert (changes_at g (states c) (states c') (co_sweep c')) as Hch.
  { split; [done|]. intros k s Hs. destruct (Hce k s Hs) as [E|[E ?]]; rewrite E; eauto. }
  assert (claimed_cells c' = claimed_cells c) as Ecl.
  { apply (claimed_same c c' (cg_field cg) (restates (cg_field cg) (states c'))); [done|by rewrite Hg'| | |done].
    - unfold local. by rewrite Hcg.
    - unfold local. by rewrite Hc'. }
  eapply repair_inv_change; [exact H|done|exact Hc'|done| | | | | | |done|done|done| | |done|];
    rewrite ?Hsw, ?Hg'; try done.
  - apply (office_calm g c); rewrite ?Hg'; try done; [apply Hoff|]. cbn. congruence.
  - unfold counters_ok. rewrite Hg'. apply H.
  - intros j Hj. apply (local_ok_outdated g c); [by apply H|unfold counters_grow; rewrite Hg'; cbn; lia|by rewrite Hg'| |].
    { unfold accepted. by rewrite Hg'. }
    intros Hcur. assert (current c j) as Hcur' by (unfold current, accepted in *; rewrite Hg' in Hcur; exact Hcur).
    destruct (ri_local _ _ _ _ _ _ H j Hj) as (_ & _ & bf & _ & Hl0). destruct (Hl0 Hcur') as [Hd _ _]. congruence.
  - apply (uniform_values (states c)); [apply H|]. intros k b' Hb'.
    destruct (changes_back _ _ _ _ _ _ Hch Hb') as (b0 & Hb0 & _). exists b0. split; [done|].
    destruct (Hce _ _ Hb0) as [E|[E _]]; rewrite Hb' in E; by injection E as ->.
  - intros i s _ _ Hh. right. right. right. right. unfold in_hand in *. by rewrite Hg'.
Qed.

Lemma seed_sweep_all_spec g c cg :
  core_ok g c → co_cached c = Some cg →
  ∃ sw, seed_sweep_all c = Ok (with_sweep c sw) ∧ sweep_ok (g_nx g) (g_ny g) sw ∧
    (∃ p, sw = mkSweep p (ds_cands (co_sweep c)) (ds_pos (co_sweep c)) (ds_visits (co_sweep c))
            (ds_last_visits (co_sweep c)) (ds_reach (co_sweep c))) ∧
    ∀ x y, in_map (g_nx g) (g_ny g) x y → seeded sw x y = true.
Proof.
  intros Hok Hcg. destruct (geo_bounds g c Hok) as (Bx & By & _ & Bw).
  destruct (ck_field _ _ Hok _ Hcg) as (_ & Ex & Ey & _). unfold seed_sweep_all. rewrite Hcg, Ex, Ey.
  destruct (seed_rect_spec (g_nx g) (g_ny g) Bx By Bw 0 (i32_sub (g_nx g) 1) 0 (i32_sub (g_ny g) 1) (co_sweep c)
    (ck_sweep _ _ Hok)) as (sw & -> & Hsw & Hp & Hs).
  rewrite ok_bind. exists sw. split; [done|]. split; [done|]. split; [done|].
  intros x y Hxy. apply Hs; [done|]. right. rewrite !i32_sub_small by (unfold in_i32; lia).
  destruct Hxy. lia.
Qed.

Lemma restart_keeps g N W c o ls :
  repair_inv g N W c o ls →
  ∃ c' b, restart_global_check c = Ok (c', b) ∧ repair_inv g N W c' o ls ∧ is_partial c' = is_partial c.
Proof.
  intros H. pose proof (ri_cached _ _ _ _ _ _ H) as (cg & Hcg & Hwin). unfold restart_global_check.
  destruct (_ || _ || _); [by exists c, false|].
  pose proof (ri_ok _ _ _ _ _ _ H) as Hok.
  destruct (seed_sweep_all_spec g c cg Hok Hcg) as (sw & -> & Hsw & [p Ep] & Hall).
  rewrite ok_bind. eexists _, _. split; [done|]. split; [|done].
  assert (∀ x y, in_map (g_nx g) (g_ny g) x y → seeded (co_sweep c) x y = true → seeded sw x y = true) as Hgrow
    by (intros; by apply Hall).
  eapply repair_inv_queue; [exact H| |exact Hcg|done| |apply H| |done|done|done| | | |]; cbn.
  - destruct Hok. by split.
  - apply (office_same g c); [done..|apply H].
  - intros j Hj. apply (local_ok_same g c); [done..|by apply H].
  - rewrite Ep. apply H.
  - rewrite Ep. apply H.
  - intros j Hj. eapply job_ok_grow; [exact Hgrow|]. by apply H.
  - intros i s _ _ [Hn|[Hr|Ho]]; right; [left; by eapply near_seed_grow| |by right; right].
    right. left. unfold remaining in *. cbn. by rewrite Ep.
Qed.

Lemma run_keeps g N W c j ls :
  repair_inv g N W c (Some j) ls → ∃ j', job_run j = Ok j' ∧ repair_inv g N W c (Some j') ls.
Proof.
  intros H. destruct (job_run_ok g _ _ j (ri_job _ _ _ _ _ _ H j eq_refl)) as (j' & -> & Hj' & Eid & _ & Ece & Eor & _).
  exists j'. split; [done|]. destruct H as [? ? ? ? ? ? ? ? ? ? Hfl Hj ? Hcov]. split; try done.
  - rewrite Hfl. cbn. by rewrite Eid.
  - by intros ? [= <-].
  - intros i s Hi Hu. destruct (Hcov i s Hi Hu) as [?|[?|[?|[Ho|?]]]];
      [by left|right; by left|right; right; by left| |right; right; right; by right].
    right. right. right. left. unfold out_cell in *. by rewrite Eor, Ece.
Qed.

(** ** Committing a job *)

Lemma with_value_self s : with_value s (s_total_cost s) (s_optimal_action s) = s.
Proof. by destruct s. Qed.

(** The column of the live field a state of the job's box lies in. *)
Lemma column_of g st i s :
  wf_states (g_nx g) (g_ny g) (g_nt g) st → zget st i = Some s →
  in_map (g_nx g) (g_ny g) (s_ix s) (s_iy s) ∧ 0 ≤ s_it s < g_nt g ∧
  i = index (g_nx g) (g_nt g) (s_ix s) (s_iy s) (s_it s).
Proof. intros Hst Hs. destruct (ws_state _ _ _ _ Hst _ _ Hs) as [? ? ? ? _ _ _]. done. Qed.

Section commit.
Context (g : geo) (N : Z) (W : gset (Z * Z)) (c c' : PlannerCore) (cg : CachedGoal) (j : GlobalJob) (ls : list LocalJob).
Context (H : repair_inv g N W c (Some j) ls) (HN : N + 1 < 2 ^ 64).
Context (Hcg : co_cached c = Some cg) (Hfr : commit_frame g cg c c') (Hcol : commit_columns g c j c').

#[local] Abbreviation ox := (gj_origin j).1.
#[local] Abbreviation oy := (gj_origin j).2.

Lemma commit_job : job_ok g (states c) (co_sweep c) j.
Proof. exact (ri_job _ _ _ _ _ _ H j eq_refl). Qed.

(** A state either kept its value and action, or lies in a taken column. *)
Lemma commit_state k b :
  zget (states c) k = Some b →
  zget (states c') k = Some b ∨
  ∃ f, zget (states c') k = Some (with_value b (s_total_cost f) (s_optimal_action f)) ∧
    (s_total_cost b ≠ s_total_cost f ∨ s_optimal_action b ≠ s_optimal_action f →
     seeded (co_sweep c') (s_ix b) (s_iy b) = true).
Proof.
  intros Hb. pose proof (states_wf g c cg (ri_ok _ _ _ _ _ _ H) Hcg) as Hst.
  destruct (column_of g _ _ _ Hst Hb) as (Hxy & Ht & Ek).
  destruct (decide ((s_ix b - ox, s_iy b - oy) ∈ gj_cells j)) as [Hin|Hno].
  - destruct (proj1 Hcol _ _ Hin) as [[Hs _]|[_ Ht']].
    + left. specialize (Hs _ Ht). cbn in Hs. rewrite <- Hb, Ek.
      replace (ox + (s_ix b - ox)) with (s_ix b) in Hs by lia. by replace (oy + (s_iy b - oy)) with (s_iy b) in Hs by lia.
    + right. destruct (Ht' _ Ht) as (s & b0 & f & Es & _ & _ & _ & Es' & Hmv).
      replace (ox + (s_ix b - ox)) with (s_ix b) in * by lia. replace (oy + (s_iy b - oy)) with (s_iy b) in * by lia.
      rewrite <- Ek, Hb in Es. injection Es as <-. rewrite <- Ek in Es'. eauto.
  - left. rewrite (proj2 Hcol); [done|]. intros x y t Hin Htt E. apply Hno.
    destruct (jo_cells _ _ _ _ commit_job x y Hin) as [Hm _].
    destruct (box_map g _ _ j commit_job x y Hm) as [? ?]. destruct Hxy as [? ?]. rewrite Ek in E.
    apply (index_inj _ (g_ny g)) in E as (-> & -> & _); [|done..].
    by replace (ox + x - ox) with x by lia; replace (oy + y - oy) with y by lia.
Qed.

Lemma commit_changes : changes_at g (states c) (states c') (co_sweep c').
Proof.
  pose proof (states_wf g c cg (ri_ok _ _ _ _ _ _ H) Hcg) as Hst.
  destruct (cf_cached _ _ _ _ Hfr) as (cg' & Hcg' & _).
  pose proof (states_wf g c' cg' (cf_ok _ _ _ _ Hfr) Hcg') as Hst'.
  split; [by rewrite (ws_len _ _ _ _ Hst), (ws_len _ _ _ _ Hst')|].
  intros k b Hb. destruct (commit_state k b Hb) as [E|(f & E & Hmv)]; [by exists b; auto|].
  eexists. split; [done|]. split; [done|].
  destruct (decide (s_total_cost b = s_total_cost f)) as [E1|]; [|right; auto].
  destruct (decide (s_optimal_action b = s_optimal_action f)) as [E2|]; [|right; auto].
  left. rewrite <- E1, <- E2. apply with_value_self.
Qed.

Lemma commit_box x y :
  in_map (vi_cell_num_x (gj_vi j)) (vi_cell_num_y (gj_vi j)) x y →
  kept g (states c) (states c') (co_sweep c') j x y
  ∨ published g (states c) (states c') (co_sweep c') j x y
  ∨ ((x, y) ∈ gj_cells j ∧ withheld g (states c) (states c') j (window_holds c j) x y).
Proof.
  intros Hxy. destruct (decide ((x, y) ∈ gj_cells j)) as [Hin|Hno].
  - destruct (proj1 Hcol x y Hin) as [[Hs [Hsd|Hh]]|[_ Ht]]; [left; by split| |right; left; by split].
    right. right. split; [done|]. split; [by apply bool_decide_eq_true|done].
  - left. split; [|done]. intros t Ht. apply (proj2 Hcol). intros x' y' t' Hin Ht' E. apply Hno.
    destruct (jo_cells _ _ _ _ commit_job x' y' Hin) as [Hm _].
    destruct (box_map g _ _ j commit_job x' y' Hm) as [? ?].
    destruct (box_map g _ _ j commit_job x y Hxy) as [? ?].
    apply (index_inj _ (g_ny g)) in E as (Ex & Ey & _); [|done..].
    by replace x with x' by lia; replace y with y' by lia.
Qed.

Lemma commit_office : office_ok g c'.
Proof.
  pose proof (ri_office _ _ _ _ _ _ H) as Hoff. destruct (cf_manager _ _ _ _ Hfr) as (E1 & E2 & _ & _ & _ & _ & E7).
  destruct (cf_cached _ _ _ _ Hfr) as (cg' & Hcg' & Ecg').
  assert (claimed_cells c' = claimed_cells c) as Ecl.
  { apply (claimed_same c c' (cg_field cg) (cg_field cg')); [|done|by unfold local; rewrite Hcg|by unfold local; rewrite Hcg'|].
    - apply Hfr.
    - by rewrite Ecg'. }
  pose proof (cf_defer _ _ _ _ Hfr) as Hd. pose proof (of_defer _ _ Hoff) as Hd0.
  apply (office_calm g c); [done|done|done| |].
  - destruct (m_certified (co_global c)); [by rewrite Hd|]. set_solver.
  - intros Hc. destruct (cf_cert _ _ _ _ Hfr) as [(Es & Ec & _)|[Ec _]]; [|congruence].
    rewrite Ec in Hc. rewrite Hc in Hd. destruct (of_cert _ _ Hoff Hc) as (Hp & Hdef & _).
    split; [done|]. split; [by rewrite Hd|]. split; [|done]. unfold pending_states. by rewrite E7.
Qed.

Lemma commit_locals i : i ∈ ls → local_ok g c' i.
Proof.
  intros Hi. pose proof (ri_local _ _ _ _ _ _ H i Hi) as Hl. pose proof (ri_count _ _ _ _ _ _ H) as (C1 & C2 & C3 & C4).
  pose proof (cf_manager _ _ _ _ Hfr) as Hm.
  destruct (cf_cert _ _ _ _ Hfr) as [(Es & Ec & Eb)|[Ec Eb]].
  - apply (local_ok_calm g c); [done|by apply counters_refl|done|apply Hm|apply Hm|done|by apply same_office_accepted].
  - rewrite u64_add_small in Eb by (unfold in_u64; lia).
    apply (local_ok_outdated g c); [done| |apply Hm|by apply same_office_accepted|].
    + unfold counters_grow. destruct Hm as (_ & _ & _ & -> & -> & -> & _). rewrite Eb. lia.
    + intros [_ E5]. destruct Hl as [(_ & _ & _ & Ho) _]. lia.
Qed.

Lemma commit_count : counters_ok (N + 1) c'.
Proof.
  pose proof (ri_count _ _ _ _ _ _ H) as (C1 & C2 & C3 & C4). unfold counters_ok.
  destruct (cf_manager _ _ _ _ Hfr) as (_ & _ & _ & -> & -> & -> & _).
  destruct (cf_cert _ _ _ _ Hfr) as [(_ & _ & ->)|[_ ->]]; [lia|].
  rewrite u64_add_small by (unfold in_u64; lia). lia.
Qed.

(** What is in hand stays in hand. *)
Lemma commit_in_hand x y : in_hand c x y → in_hand c' x y.
Proof.
  intros [Ho Hc]. destruct (cf_manager _ _ _ _ Hfr) as (_ & E2 & _). split; [by rewrite E2|].
  destruct (cf_cert _ _ _ _ Hfr) as [(_ & -> & _)|[-> _]]; done.
Qed.

(** A cell of the window is in its worker's hand, or consistent. *)
Lemma commit_owned i s :
  zget (states c') i = Some s → updatable s = true → (s_ix s, s_iy s) ∈ m_owned (co_global c) →
  good g (states c') s ∨ in_hand c' (s_ix s) (s_iy s).
Proof.
  intros Hi Hu Ho. destruct (cf_manager _ _ _ _ Hfr) as (_ & E2 & _).
  assert (m_certified (co_global c') = false → in_hand c' (s_ix s) (s_iy s)) as Hh by (intros ?; split; [by rewrite E2|done]).
  destruct (m_certified (co_global c')) eqn:Ec; [left|right; by apply Hh].
  destruct (cf_cert _ _ _ _ Hfr) as [(Es & Ec' & _)|[? _]]; [|congruence]. rewrite Es in Hi |- *.
  destruct (of_cert _ _ (ri_office _ _ _ _ _ _ H)) as (_ & _ & Hg); [congruence|]. by apply (Hg i).
Qed.

(** A cell of the job. *)
Lemma commit_job_cell i s :
  zget (states c') i = Some s → updatable s = true → (s_ix s - ox, s_iy s - oy) ∈ gj_cells j →
  fine g (W ∪ beside g c j) (states c') s ∨ covered g c' None (s_ix s) (s_iy s).
Proof.
  intros Hs' Hu Ho. pose proof commit_job as Hj. destruct (jo_cells _ _ _ _ Hj _ _ Ho) as [Hm _].
  destruct (cf_cached _ _ _ _ Hfr) as (cg' & Hcg' & _).
  pose proof (states_wf g c cg (ri_ok _ _ _ _ _ _ H) Hcg) as Hst.
  pose proof (states_wf g c' cg' (cf_ok _ _ _ _ Hfr) Hcg') as Hst'.
  destruct (column_of g _ _ _ Hst' Hs') as (Hxy & Ht & Ei).
  assert (ox + (s_ix s - ox) = s_ix s ∧ oy + (s_iy s - oy) = s_iy s) as [Ex Ey] by lia.
  destruct (proj1 Hcol _ _ Ho) as [[Hs [Hsd|Hh]]|[[Hran Hnh] Htk]].
  - right. left. apply seed_near; [done|]. by rewrite Ex, Ey in Hsd.
  - unfold held in Hh. rewrite Ex, Ey in Hh.
    destruct (commit_owned i s Hs' Hu Hh) as [?|?]; [by left; left|by do 4 right].
  - assert (published g (states c) (states c') (co_sweep c') j (s_ix s - ox) (s_iy s - oy)) as Hp by by split.
    assert (zget (states c') (index (g_nx g) (g_nt g) (ox + (s_ix s - ox)) (oy + (s_iy s - oy)) (s_it s)) = Some s) as Hs2
      by (by rewrite Ex, Ey, <- Ei).
    destruct (published_good g (states c) (states c') (co_sweep c) (co_sweep c') j Hj Hran
      (ck_dims _ _ (ri_ok _ _ _ _ _ _ H)) (ck_acts _ _ (ri_ok _ _ _ _ _ _ H)) Hst Hst' (cf_grow _ _ _ _ Hfr)
      (window_holds c j) commit_box (s_ix s - ox) (s_iy s - oy) (s_it s) s Hm Hp Ht Hs2 Hu) as [?|[Hn|Hund]];
      [by left; left|right; left; by rewrite Ex, Ey in Hn|].
    left. right. split.
    + apply elem_of_union. right. rewrite <- Ex, <- Ey. by apply elem_of_beside.
    + by apply (published_policy g (states c) (states c') (co_sweep c) (co_sweep c') j Hj Hran
        (s_ix s - ox) (s_iy s - oy) (s_it s)).
Qed.

Lemma commit_inv_kept : repair_inv g (N + 1) (W ∪ beside g c j) c' None ls.
Proof.
  pose proof commit_job as Hj. pose proof commit_changes as Hch.
  destruct (cf_cached _ _ _ _ Hfr) as (cg' & Hcg' & Ecg').
  pose proof (states_wf g c cg (ri_ok _ _ _ _ _ _ H) Hcg) as Hst.
  pose proof (states_wf g c' cg' (cf_ok _ _ _ _ Hfr) Hcg') as Hst'.
  destruct (cf_manager _ _ _ _ Hfr) as (_ & _ & _ & _ & _ & _ & O7).
  destruct (cf_sweep _ _ _ _ Hfr) as (S1 & S2 & S3).
  split.
  - apply Hfr.
  - apply H.
  - exists cg'. split; [done|]. destruct (ri_cached _ _ _ _ _ _ H) as (cg1 & Hcg1 & Hw). rewrite Hcg in Hcg1.
    injection Hcg1 as <-. rewrite Ecg'. exact Hw.
  - apply commit_office.
  - apply commit_count.
  - apply commit_locals.
  - rewrite S3. apply H.
  - rewrite S1. apply H.
  - unfold table_ok, pending_states. rewrite O7. apply H.
  - unfold pending_states. rewrite O7. apply H.
  - apply Hfr.
  - done.
  - apply (uniform_values (states c)); [apply H|]. intros k b' Hb'.
    destruct (changes_back _ _ _ _ _ _ Hch Hb') as (b & Hb & _). exists b. split; [done|].
    destruct (commit_state k b Hb) as [E|(f & E & _)]; rewrite Hb' in E; by injection E as ->.
  - intros i s' Hs' Hu.
    destruct (cov_change g N W c c' (Some j) ls H S1 S2 (cf_grow _ _ _ _ Hfr) Hch) with (i := i) (s := s')
      as [Hg|[Hn|[Hr|[Ho|Hh]]]]; [|done|done|left; eapply fine_grow; [|exact Hg]; set_solver|by right; left
      |by right; right; left|by apply (commit_job_cell i)|by do 4 right].
    intros k s0 _ _ Hh. do 4 right. by apply commit_in_hand.
Qed.
End commit.

Lemma commit_keeps g N W c j ls :
  repair_inv g N W c (Some j) ls → N + 1 < 2 ^ 64 →
  ∃ c' d b, commit_global_job j c = Ok (c', d, b) ∧ repair_inv g (N + 1) (W ∪ beside g c j) c' None ls ∧
    (is_partial c = true → is_partial c' = false → idle c') ∧ commit_notes c j c'.
Proof.
  intros H HN. destruct (ri_cached _ _ _ _ _ _ H) as (cg & Hcg & _).
  destruct (commit_global_spec g c cg j (ri_ok _ _ _ _ _ _ H) Hcg (ri_flight _ _ _ _ _ _ H) (ri_job _ _ _ _ _ _ H j eq_refl))
    as (c' & d & b & -> & Hfr & Hcol & Hp & Hnote).
  exists c', d, b. split; [done|]. split; [|done]. by apply (commit_inv_kept g N W c c' cg j).
Qed.

(** ** Preparing a job *)

Lemma near_seed_same g sw sw' x y :
  ds_pending sw' = ds_pending sw → near_seed g sw x y → near_seed g sw' x y.
Proof. intros E. apply near_seed_grow. intros a b _. unfold seeded. by rewrite E. Qed.

Lemma settle_keeps g N W c o ls :
  repair_inv g N W c o ls →
  repair_inv g N W (settle_global c).1 o ls ∧
  (is_partial c = true → is_partial (settle_global c).1 = false → idle (settle_global c).1).
Proof.
  intros H. pose proof (settle_ok g c (ri_ok _ _ _ _ _ _ H)) as Hok.
  destruct (settle_global_spec c) as (c' & b & E & Eb & _ & Eg & Es & Ep & Ek & Eo & Er & Ec & Hb).
  rewrite E in *. cbn [fst] in *. destruct (ri_cached _ _ _ _ _ _ H) as (cg & Hcg & Hw).
  assert (local c' = local c) as El by (unfold local; rewrite Ec, Hcg; by destruct b). split.
  - eapply (repair_inv_queue g N N W c c' o ls ls (if b then mark_complete cg else cg)); try done.
    + rewrite Ec, Hcg. by destruct b.
    + by destruct b.
    + apply (office_same g c); [done..|apply H].
    + unfold counters_ok. rewrite Eg. apply H.
    + intros j Hj. apply (local_ok_same g c); [done..|by apply H].
    + by rewrite Eg.
    + by rewrite Eg.
    + rewrite Er. apply H.
    + rewrite Ek. apply H.
    + intros j Hj. apply (job_ok_grow g _ (co_sweep c)); [|by apply H]. intros a b' _. unfold seeded. by rewrite Ep.
    + intros i s _ _ [?|[?|[?|Hh]]]; right; [left; by eapply near_seed_same|right; left|by do 2 right; left|do 3 right].
      * unfold remaining. by rewrite Ek, Eo.
      * unfold in_hand in *. by rewrite Eg.
  - intros Hp Hp'. destruct b; [by apply Hb|]. unfold is_partial in *. rewrite Ec in Hp'. congruence.
Qed.

Lemma refill_keeps g N W c ls :
  repair_inv g N W c None ls →
  ∃ sw, refill (reach_of (g_acts g)) (co_sweep c) = Ok sw ∧ repair_inv g N W (with_sweep c sw) None ls ∧
    (ds_cands sw ≠ [] → ds_pos sw < zlen (ds_cands sw)).
Proof.
  intros H. destruct (ri_fits _ _ _ _ _ _ H) as ([? ?] & _ & _). pose proof (ri_ok _ _ _ _ _ _ H) as Hok.
  destruct (geo_bounds g c Hok) as ([? _] & _ & _).
  destruct (ri_cached _ _ _ _ _ _ H) as (cg & Hcg & Hw). pose proof (states_wf g c cg Hok Hcg) as Hst.
  destruct (refill_spec g (co_sweep c)) as (sw & -> & Hsw & Hnd & Er & Hcase);
    [done|apply Hok|apply H|done|]. exists sw. split; [done|]. split.
  - eapply (repair_inv_queue g N N W c (with_sweep c sw) None ls ls cg); try done.
    + by destruct Hok.
    + apply (office_same g c); [done..|apply H].
    + apply H.
    + intros j Hj. apply (local_ok_same g c); [done..|by apply H].
    + cbn. rewrite Er. by intros ? [= <-].
    + intros i s Hi _ Hcov. destruct (column_of g _ _ _ Hst Hi) as (Hxy & _). right.
      destruct Hcase as [(_ & Ep & Ek & Eo)|(Hrem & Eo & _ & Hc)].
      * destruct Hcov as [?|[?|[[]|?]]]; [left; by eapply near_seed_same|right; left|by do 3 right].
        unfold remaining. cbn. by rewrite Ek, Eo.
      * destruct Hcov as [?|[Hr|[[]|?]]]; [right; left|rewrite Hrem in Hr; by apply elem_of_nil in Hr|by do 3 right].
        unfold remaining. cbn. rewrite Eo. by apply Hc.
  - intros Hne. destruct Hcase as [(Hlt & _ & Ek & Eo)|(_ & Eo & _)]; [by rewrite Ek, Eo|].
    rewrite Eo. destruct (ds_cands sw); [done|]. unfold zlen. cbn. lia.
Qed.

(** A candidate in the window is the local worker's. *)
Lemma build_keeps g N W c cg n ls :
  repair_inv g N W c None ls → N + 1 < 2 ^ 64 → co_cached c = Some cg → ds_pos (co_sweep c) < zlen (ds_cands (co_sweep c)) →
  ∃ c' j, build_job n (reach_of (g_acts g)) (lv_base (cg_field cg)) c = Ok (c', Some j) ∧
    repair_inv g (N + 1) W c' (Some j) ls ∧ is_partial c' = is_partial c.
Proof.
  intros H HN Hcg Hpos. pose proof (ri_office _ _ _ _ _ _ H) as Hoff.
  destruct (build_job_spec g n c cg (ri_ok _ _ _ _ _ _ H) Hcg (ri_nodup _ _ _ _ _ _ H) Hpos (ri_fits _ _ _ _ _ _ H))
    as (c' & j & k & D & -> & Ec & HD & Hsw & Ep & Ek & Er & Hrem & Hjc & Hj).
  exists c', j. split; [done|]. split; [|by rewrite Ec].
  pose proof (ri_cached _ _ _ _ _ _ H) as (cg0 & Hcg0 & Hw). pose proof (ri_count _ _ _ _ _ _ H) as (C1 & C2 & C3 & C4).
  assert (states c' = states c) as Es by by rewrite Ec.
  assert (co_build c' = co_build c ∧ co_cached c' = co_cached c ∧ m_owner (co_global c') = m_owner (co_global c) ∧
    m_owned (co_global c') = m_owned (co_global c) ∧ m_deferred (co_global c') = D ∧
    m_certified (co_global c') = m_certified (co_global c) ∧ m_invalidation (co_global c') = m_invalidation (co_global c) ∧
    m_in_flight (co_global c') = Some (gj_id j) ∧ m_serial (co_global c') = m_serial (co_global c) + 1 ∧
    m_epoch (co_global c') = m_epoch (co_global c) ∧ m_local_revision (co_global c') = m_local_revision (co_global c) ∧
    m_boundary_revision (co_global c') = m_boundary_revision (co_global c) ∧
    m_local_in_flight (co_global c') = m_local_in_flight (co_global c))
    as (Ebu & Eca & Eow & Eo & Ed & Ece & Ei & Efl & Ese & Eep & Elr & Ebr & Elf).
  { rewrite Ec. cbn. rewrite u64_add_small by (unfold in_u64; lia). done. }
  clear Ec. assert (local c' = local c) as El by (unfold local; by rewrite Eca).
  split; rewrite ?Es, ?Er, ?Ek; try apply H; try done.
  - pose proof (ri_ok _ _ _ _ _ _ H) as [? ? ? ? ?]. split; rewrite ?Ebu, ?Eca; done.
  - rewrite Eca. by exists cg0.
  - apply (office_calm g c); [done| |done| |].
    + unfold claimed_cells. by rewrite Eow, El, Ebu.
    + rewrite Ed. pose proof (of_defer _ _ Hoff) as Hd0. destruct (m_certified (co_global c)); [by rewrite HD|]. set_solver.
    + rewrite Ece, Ed. intros Hc. rewrite Hc in HD. destruct (of_cert _ _ Hoff Hc) as (? & ? & _).
      split; [done|]. split; [by rewrite HD|]. split; [|done]. unfold pending_states in *. by rewrite Ei.
  - unfold counters_ok. rewrite Ese, Eep, Elr, Ebr. lia.
  - intros i Hi. apply (local_ok_calm g c); [by apply H| |done|done|done|done|].
    + unfold counters_grow. rewrite Ese, Eep, Elr, Ebr. lia.
    + unfold accepted. by rewrite Eow, Eep, Elr, Elf.
  - unfold table_ok, pending_states. rewrite Ei. apply H.
  - unfold pending_states. rewrite Ei. apply H.
  - by intros ? [= <-].
  - intros i s Hi Hu. destruct (ri_cov _ _ _ _ _ _ H i s Hi Hu) as [?|[?|[Hin|[[]|Hh]]]].
    + by left.
    + right. left. by eapply near_seed_same.
    + destruct (decide ((s_ix s, s_iy s) ∈ m_owned (co_global c))) as [Ho|Hno].
      * destruct (m_certified (co_global c)) eqn:Hc.
        -- left. left. destruct (of_cert _ _ Hoff Hc) as (_ & _ & Hg). by apply (Hg i).
        -- right. do 3 right. split; [by rewrite Eo|done].
      * right. right. rewrite Hrem. rewrite <- (take_drop k (remaining (co_sweep c))) in Hin.
        apply elem_of_app in Hin as [Hin|Hin]; [right; left; by apply Hjc|by left].
    + right. do 3 right. unfold in_hand in *. by rewrite Eo, Ece.
Qed.

Lemma sweep_reach_eq g N W c cg ls :
  repair_inv g N W c None ls → co_cached c = Some cg →
  sweep_reach (lv_base (cg_field cg)) (co_sweep c) = Ok (reach_of (g_acts g)).
Proof.
  intros H Hcg. destruct (ri_fits _ _ _ _ _ _ H) as ([? ?] & _ & _). unfold sweep_reach.
  destruct (ds_reach (co_sweep c)) as [r|] eqn:E; [by rewrite (ri_reach _ _ _ _ _ _ H r E)|].
  destruct (ck_field _ _ (ri_ok _ _ _ _ _ _ H) _ Hcg) as (_ & _ & _ & _ & Ea).
  unfold transition_reach. rewrite Ea. fold (reach_of (g_acts g)).
  unfold rassert. replace (_ && _) with true by lia. rewrite ok_bind. by rewrite as_u32_small by lia.
Qed.

Lemma repair_inv_more g N N' W c o ls : repair_inv g N W c o ls → N ≤ N' → repair_inv g N' W c o ls.
Proof. intros [] HN. split; try done. by eapply counters_more. Qed.

Lemma prepare_keeps g N W c n ls :
  repair_inv g N W c None ls → N + 1 < 2 ^ 64 →
  ∃ c' o, prepare_global_job n c = Ok (c', o) ∧ repair_inv g (N + 1) W c' o ls ∧
    (is_partial c = true → is_partial c' = false → idle c').
Proof.
  intros H HN. unfold prepare_global_job.
  destruct (drain_keeps g N W c None ls (Z.to_nat (Z.max 1 (Z.min n 5000))) H) as (c1 & b & -> & H1 & _ & Epart).
  rewrite ok_bind, <- Epart. destruct b; cbn [negb].
  2:{ exists c1, None. split; [done|]. split; [apply (repair_inv_more g N); [done|lia]|]. congruence. }
  rewrite (ri_flight _ _ _ _ _ _ H1). cbn [fmap option_fmap option_map].
  rewrite bool_decide_false by by intros [? ?]. destruct (ri_cached _ _ _ _ _ _ H1) as (cg & Hcg & Hw). rewrite Hcg.
  rewrite (sweep_reach_eq g N W c1 cg ls H1 Hcg), ok_bind.
  destruct (refill_keeps g N W c1 ls H1) as (sw & -> & H2 & Hpos). rewrite ok_bind.
  case_bool_decide as Hc.
  - destruct (settle_keeps g N W _ None ls H2) as [H3 Hq]. eexists _, None. split; [done|].
    split; [apply (repair_inv_more g N); [done|lia]|]. intros Hp Hp'. by apply Hq.
  - destruct (build_keeps g N W _ cg n ls H2 HN Hcg (Hpos Hc)) as (c' & j & -> & H3 & Ep).
    exists c', (Some j). split; [done|]. split; [done|]. rewrite Ep. intros Hp Hp'.
    unfold is_partial in *. cbn in Hp'. congruence.
Qed.

(** While a job is out another one is not made. *)
Lemma prepare_busy g N W c j n ls :
  repair_inv g N W c (Some j) ls →
  ∃ c', prepare_global_job n c = Ok (c', None) ∧ repair_inv g N W c' (Some j) ls ∧ is_partial c' = is_partial c.
Proof.
  intros H. unfold prepare_global_job.
  destruct (drain_keeps g N W c (Some j) ls (Z.to_nat (Z.max 1 (Z.min n 5000))) H) as (c1 & b & -> & H1 & _ & Ep).
  rewrite ok_bind. destruct b; cbn [negb]; [|by exists c1].
  rewrite (ri_flight _ _ _ _ _ _ H1). rewrite bool_decide_true by by eexists. by exists c1.
Qed.
