(* ===== verification/RepairInputs.v ===== *)
(** * The control tick and the repair (vi_planner/src/core/mod.rs)

    A tick changes the inputs of the window's states ([observe_scan_gated],
    [core_inflate_by_sigma]) or moves the window ([set_window]).  [touched]
    says what such a change may do; [inputs_keep] shows that
    [change_inputs] re-queues enough for the promise of the repair. *)

From Stdlib Require Import ZArith Lia.
From stdpp Require Import base gmap strings list numbers.
From S2P Require Import Prelude Floats Model Bellman Consistency Original Bitboard BitboardOps BitboardEnum Active MapSetup LocalPlanner LocalSpec LocalScan Planner Solve Core CoreSpec Invalidate GlobalJob LocalJob Repair RepairJob RepairCommit RepairPrepare LocalRun RepairInv RepairLoop.

(** ** Reading the window *)

(** The cells of the window, in the order of the loops. *)
Definition cells_of (l : ValueIteratorLocal) : list (Z * Z) :=
  rect (lv_iy_min l) (lv_iy_max l) (lv_ix_min l) (lv_ix_max l) ≫=
    fun c => if win l c.2 c.1 then [(c.2, c.1)] else [].

Lemma window_cells_eq l : window_cells l = Ok (cells_of l).
Proof.
  unfold window_cells. rewrite (for_rect _ _ _ _ (fun y x cells => inside ← in_local_area l x y;
    Ok (if (inside : bool) then cells ++ [(x, y)] else cells))).
  rewrite (for_each_append (fun c => if win l c.2 c.1 then [(c.2, c.1)] else [])); [done|].
  intros [y x] cells _. cbn [fst snd]. rewrite win_ok, ok_bind. destruct (win l x y); [done|].
  by rewrite app_nil_r.
Qed.

Lemma elem_of_cells l x y : (x, y) ∈ cells_of l ↔ win l x y = true.
Proof.
  unfold cells_of. rewrite list_elem_of_bind. split.
  - intros ([y' x'] & Hin & _). cbn in Hin. destruct (win l x' y') eqn:E; [|by apply elem_of_nil in Hin].
    apply list_elem_of_singleton in Hin. by injection Hin as -> ->.
  - intros Hw. exists (y, x). cbn. rewrite Hw. split; [by left|]. apply elem_of_window_rect.
    pose proof (win_rect _ _ _ Hw). tauto.
Qed.

(** The inputs of the column [(x, y)]. *)
Definition inputs_at (l : ValueIteratorLocal) (xy : Z * Z) : bool * Z * Z :=
  match zget (vi_states (lv_base l)) (index (vi_cell_num_x (lv_base l)) (vi_cell_num_t (lv_base l)) xy.1 xy.2 0) with
  | Some s => inputs_of s
  | None => (false, 0, 0)
  end.

Lemma window_state l x y :
  wf_vi (lv_base l) → window_in_map l → win l x y = true →
  ∃ s, zget (vi_states (lv_base l)) (index (vi_cell_num_x (lv_base l)) (vi_cell_num_t (lv_base l)) x y 0) = Some s ∧
    s_ix s = x ∧ s_iy s = y ∧ s_it s = 0 ∧
    vget (vi_states (lv_base l)) (as_u64 (to_index (lv_base l) x y 0)) = Ok s.
Proof.
  intros [Hd Hst _] Hw Hin. destruct (win_map _ _ _ Hw Hin) as [Hx Hy]. pose proof Hd as [Dx _ Dt _].
  destruct (ws_get _ _ _ _ x y 0 Hst Dx Dt Hx Hy ltac:(lia)) as (s & Hs & ? & ? & ?). exists s.
  split; [done|]. repeat (split; [done|]). unfold to_index.
  rewrite (to_index_raw_small _ _ _ _ _ _ Hd Hx Hy) by lia.
  pose proof (zget_Some_lt _ _ _ Hs) as Hi. pose proof (dims_total _ _ _ Hd). rewrite (ws_len _ _ _ _ Hst) in Hi.
  rewrite as_u64_small by (unfold in_u64; lia). by apply vget_ok.
Qed.

Lemma local_inputs_eq c l :
  local c = Some l → wf_vi (lv_base l) → window_in_map l →
  local_inputs c = Ok (inputs_at l <$> cells_of l).
Proof.
  intros Hl Hwf Hw. unfold local_inputs. rewrite Hl, window_cells_eq, ok_bind. apply map_res_pure.
  intros [x y] Hin%elem_of_cells. destruct (window_state l x y Hwf Hw Hin) as (s & Hs & _ & _ & _ & E).
  cbn [fst snd]. rewrite E, ok_bind. unfold inputs_at. cbn. by rewrite Hs.
Qed.

Lemma rises_total l cells old :
  wf_vi (lv_base l) → window_in_map l → (∀ c, c ∈ cells → win l c.1 c.2 = true) →
  ∃ up, rises l cells old = Ok up ∧ ∀ c, c ∈ up → c ∈ cells.
Proof.
  intros Hwf Hw. revert old. induction cells as [|[x y] cells IH]; intros old Hin; [by exists []|].
  destruct old as [|o old]; cbn [rises]; [exists []; split; [done|by intros c ?%elem_of_nil]|].
  destruct (window_state l x y Hwf Hw (Hin _ ltac:(left))) as (s & _ & _ & _ & _ & E).
  cbn [fst snd]. rewrite E, ok_bind. destruct (IH old) as (up & -> & Hup); [intros; apply Hin; by right|].
  rewrite ok_bind. eexists. split; [done|]. intros c. destruct (input_rose o s).
  - intros [->|?]%elem_of_cons; [left|right; auto].
  - right. auto.
Qed.

(** ** What a tick may do to the field *)

Record touched (l l' : ValueIteratorLocal) : Prop := {
  to_base : lv_base l' = with_states (lv_base l) (vi_states (lv_base l'));
  to_win : (∀ x y, win l' x y = win l x y) ∧ cells_of l' = cells_of l;
  to_map : window_in_map l';
  to_wf : wf_vi (lv_base l');
  to_state : ∀ k b, zget (vi_states (lv_base l)) k = Some b → ∃ b',
    zget (vi_states (lv_base l')) k = Some b' ∧ place b' = place b ∧
    s_total_cost b' = s_total_cost b ∧ s_optimal_action b' = s_optimal_action b ∧
    s_final_state b' = s_final_state b ∧ (win l (s_ix b) (s_iy b) = false → b' = b);
  to_uniform : uniform (vi_states (lv_base l)) → uniform (vi_states (lv_base l'))
}.

Lemma same_state b b' :
  place b' = place b → s_total_cost b' = s_total_cost b → s_optimal_action b' = s_optimal_action b →
  s_final_state b' = s_final_state b → inputs_of b' = inputs_of b → b' = b.
Proof. destruct b, b'. unfold place, inputs_of. cbn. congruence. Qed.

(** When the inputs of the window read the same, nothing changed. *)
Lemma touched_same g l l' :
  wf_states (g_nx g) (g_ny g) (g_nt g) (vi_states (lv_base l)) → wf_vi (lv_base l) → window_in_map l →
  uniform (vi_states (lv_base l)) → touched l l' →
  inputs_at l <$> cells_of l = inputs_at l' <$> cells_of l' →
  vi_states (lv_base l') = vi_states (lv_base l).
Proof.
  intros Hst Hwf Hw Hu Ht Heq. pose proof (to_uniform _ _ Ht Hu) as Hu'. rewrite (proj2 (to_win _ _ Ht)) in Heq.
  assert (zlen (vi_states (lv_base l')) = zlen (vi_states (lv_base l))) as Hlen.
  { pose proof (ws_len _ _ _ _ (wv_states _ Hwf)). pose proof (ws_len _ _ _ _ (wv_states _ (to_wf _ _ Ht))) as Hl'.
    rewrite (to_base _ _ Ht) in Hl'. cbn in Hl'. lia. }
  apply zget_ext; [done|]. intros k Hk. rewrite Hlen in Hk. destruct (zget_lt _ _ Hk) as [b Hb]. rewrite Hb.
  destruct (to_state _ _ Ht k b Hb) as (b' & Hb' & Hp & Hc & Ho & Hf & Hn). rewrite Hb'. f_equal.
  destruct (win l (s_ix b) (s_iy b)) eqn:E; [|by apply Hn]. apply same_state; [done..|].
  destruct (window_state l _ _ Hwf Hw E) as (s0 & Hs0 & X0 & Y0 & _).
  destruct (window_state l' (s_ix b) (s_iy b) (to_wf _ _ Ht) (to_map _ _ Ht)) as (s1 & Hs1 & X1 & Y1 & _);
    [by rewrite (proj1 (to_win _ _ Ht))|].
  assert (inputs_at l (s_ix b, s_iy b) = inputs_at l' (s_ix b, s_iy b)) as Hi.
  { apply elem_of_cells in E. apply list_elem_of_lookup in E as [n E]. apply (f_equal (fun m => m !! n)) in Heq.
    rewrite !list_lookup_fmap, E in Heq. by injection Heq. }
  unfold inputs_at in Hi. cbn [fst snd] in Hi. rewrite Hs0, Hs1 in Hi. unfold place in Hp.
  rewrite (Hu k _ b s0 Hb Hs0) by congruence. rewrite (Hu' k _ b' s1 Hb' Hs1) by congruence. congruence.
Qed.

(** ** Queueing what the change may have spoilt *)

(** The same claims and jobs; at most the epoch and the boundary revision move on. *)
Record same_claims (c c' : PlannerCore) : Prop := {
  sc_core : co_build c' = co_build c ∧ co_cached c' = co_cached c ∧ co_sweep c' = co_sweep c;
  sc_claims : let '(m, m') := (co_global c, co_global c') in
    m_owner m' = m_owner m ∧ m_owned m' = m_owned m ∧ m_deferred m' = m_deferred m ∧
    m_in_flight m' = m_in_flight m ∧ m_local_in_flight m' = m_local_in_flight m ∧
    m_serial m' = m_serial m ∧ m_local_revision m' = m_local_revision m;
  sc_cert : m_certified (co_global c) = false → m_certified (co_global c') = false;
  sc_count : let '(m, m') := (co_global c, co_global c') in
    m_epoch m' = m_epoch m ∧ m_boundary_revision m' = m_boundary_revision m ∨
    m_epoch m' = u64_add (m_epoch m) 1 ∧ m_boundary_revision m' = u64_add (m_boundary_revision m) 1
}.

Lemma same_claims_ok g c c' : same_claims c c' → core_ok g c → core_ok g c'.
Proof. intros [(Eb & Ec & Es) _ _ _] [? ? ? ? ?]. split; rewrite ?Eb, ?Ec, ?Es; done. Qed.

Lemma queue_increases g c cg cells :
  core_ok g c → co_cached c = Some cg → table_ok g c → (∀ m, m ∈ pending_states c → on_field g m) →
  (∀ x y, (x, y) ∈ cells → in_map (g_nx g) (g_ny g) x y) →
  ∃ c', queue_cost_increases cells c = Ok c' ∧ same_claims c c' ∧ table_ok g c' ∧
    (∀ m, m ∈ pending_states c' → on_field g m).
Proof.
  intros Hok Hc Ht Hp Hin.
  assert (queue_cost_increases cells c = Ok c ∨ cells ≠ [] ∧ pc_global_sweep (co_cfg c) = true) as [->|[Hne Hg]].
  { unfold queue_cost_increases. destruct (pc_global_sweep (co_cfg c)) eqn:E; [|rewrite orb_true_r; by left].
    case_bool_decide; [by left|by right]. }
  { exists c. split; [done|]. split; [|done]. split; [done|done|done|by left]. }
  destruct (queue_cost_increases_spec g c cg cells Hok Hc Hg Ht Hne) as (rev & Hrev & ->).
  eexists. split; [done|]. split; [split; cbn; [done|done|done|by right]|]. split; [by right|].
  intros [[x y] t]. unfold pending_states. cbn. intros [?|Hm]%elem_of_app; [by apply Hp|].
  apply elem_of_all_headings in Hm as [Hxy Ht']. split; [by apply Hin|done].
Qed.

Lemma with_local_cached c cg l :
  co_cached c = Some cg → co_cached (with_local c l) = Some (with_field cg l).
Proof. intros Hc. unfold with_local. cbn. by rewrite Hc. Qed.

Lemma restates_state (l : ValueIteratorLocal) (st : list State) : lv_base (restates l st) = with_states (lv_base l) st.
Proof. done. Qed.

Lemma table_ok_same g c c' :
  m_invalidation (co_global c') = m_invalidation (co_global c) → table_ok g c → table_ok g c'.
Proof. unfold table_ok, pending_states. by intros ->. Qed.

(** The window read the same before and after. *)
Lemma touched_window l l' : touched l l' → window_cells l' = window_cells l.
Proof. intros Ht. by rewrite !window_cells_eq, (proj2 (to_win _ _ Ht)). Qed.

Section inputs.
Context (g : geo) (N : Z) (W : gset (Z * Z)) (c : PlannerCore) (o : option GlobalJob) (ls : list LocalJob) (l l' : ValueIteratorLocal).
Context (H : repair_inv g N W c o ls) (HN : N + 1 < 2 ^ 64) (Hl : local c = Some l) (Ht : touched l l').

#[local] Abbreviation c1 := (with_local c l').

(** The core with the changed inputs in place. *)
Lemma inputs_core :
  ∃ cg, co_cached c = Some cg ∧ cg_field cg = l ∧ co_cached c1 = Some (with_field cg l') ∧ core_ok g c1 ∧
    local c1 = Some l' ∧ states c = vi_states (lv_base l) ∧ states c1 = vi_states (lv_base l') ∧
    wf_vi (lv_base l) ∧ window_in_map l ∧ claimed_cells c1 = claimed_cells c ∧
    wf_states (g_nx g) (g_ny g) (g_nt g) (vi_states (lv_base l)) ∧
    zlen (vi_states (lv_base l')) = zlen (vi_states (lv_base l)) ∧
    ∀ x y, win l' x y = true → in_map (g_nx g) (g_ny g) x y.
Proof.
  destruct (ri_cached _ _ _ _ _ _ H) as (cg & Hcg & Hw). pose proof (ri_ok _ _ _ _ _ _ H) as Hok. exists cg.
  assert (l = cg_field cg) as -> by (unfold local in Hl; rewrite Hcg in Hl; by injection Hl as <-).
  destruct (ck_field _ _ Hok _ Hcg) as (Hwf & Ex & Ey & Et & Ea). pose proof (to_base _ _ Ht) as Eb.
  pose proof (with_local_cached c cg l' Hcg) as Hc1.
  assert (core_ok g c1) as Hok1.
  { destruct Hok as [? ? ? ? ?]. split; try done. rewrite Hc1. intros ? [= <-]. cbn [cg_field with_field].
    split; [apply Ht|]. by rewrite Eb. }
  assert (local c1 = Some l') as Hl1 by (unfold local; by rewrite Hc1).
  assert (states c = vi_states (lv_base (cg_field cg))) as Est by (unfold states, local; by rewrite Hcg).
  assert (states c1 = vi_states (lv_base l')) as Es1 by (unfold states; by rewrite Hl1).
  pose proof (states_wf g c cg Hok Hcg) as Hst. pose proof (states_wf g c1 _ Hok1 Hc1) as Hst1.
  rewrite Est in Hst. rewrite Es1 in Hst1. repeat (split; [done|]). split; [|split; [done|split]].
  - by apply (claimed_same c c1 (cg_field cg) l'); [| | | |apply touched_window].
  - by rewrite (ws_len _ _ _ _ Hst1), (ws_len _ _ _ _ Hst).
  - intros x y Hin. destruct (win_map _ _ _ (to_map _ _ Ht) Hin) as [Hx Hy]. rewrite Eb in Hx, Hy. cbn in Hx, Hy.
    rewrite Ex in Hx. rewrite Ey in Hy. by split.
Qed.

(** The inputs of the window read as before. *)
Lemma inputs_same : inputs_at l <$> cells_of l = inputs_at l' <$> cells_of l' → repair_inv g (N + 1) W c1 o ls.
Proof.
  intros Heq. destruct inputs_core as (cg & Hcg & Ecg & Hc1 & Hok1 & Hl1 & Est & Es1 & Hwf & Hw & Ecl & Hst & _).
  pose proof (ri_uniform _ _ _ _ _ _ H) as Hu. rewrite Est in Hu. pose proof (touched_same g _ _ Hst Hwf Hw Hu Ht Heq) as E.
  assert (states c1 = states c) as Es by congruence. pose proof (ri_office _ _ _ _ _ _ H) as Hoff.
  eapply repair_inv_change; [exact H|done|exact Hc1|apply Ht| | | |done..|apply H|apply H|done| | |]; rewrite ?Es.
  - apply (office_calm g c); [done|done|done|apply Hoff|]. intros Hc. by destruct (of_cert _ _ Hoff Hc) as (? & ? & _).
  - apply (counters_more N); [apply H|lia].
  - intros j Hj. apply (local_ok_calm g c); [by apply H|unfold counters_grow; cbn; lia|done..].
  - apply H.
  - apply (changes_refl g).
  - intros i s _ _ Hh. do 4 right. exact Hh.
Qed.

(** They changed: what rested on them is withdrawn, and the window queued. *)
Lemma inputs_changed c3 c4 :
  same_claims (on_manager (fun m => next_local_revision (with_certified m false)) c1) c3 →
  table_ok g c3 → (∀ m, m ∈ pending_states c3 → on_field g m) → core_ok g c4 →
  queues c3 c4 (fun x y => lv_ix_min l' ≤ x ≤ lv_ix_max l' ∧ lv_iy_min l' ≤ y ≤ lv_iy_max l') g →
  repair_inv g (N + 1) W c4 o ls ∧ is_partial c4 = is_partial c.
Proof.
  intros Hs3 Ht3 Hp3 Hok4 Hq.
  destruct inputs_core as (cg & Hcg & Ecg & Hc1 & Hok1 & Hl1 & Est & Es1 & Hwf & Hw & Ecl & Hst & Elen & Hmap).
  pose proof (queues_frame _ _ _ _ Hq) as (Eb4 & _ & Ec4 & Eg4 & E1 & E2 & E3).
  destruct Hs3 as [(Eb3 & Ec3 & Es3) Hcl Hce Hcnt].
  change (co_cached _) with (co_cached c1) in Ec3 at 2. change (co_sweep _) with (co_sweep c) in Es3 at 2.
  rewrite Ec3, Hc1 in Ec4. rewrite Es3 in E1, E2, E3. destruct Hq as (_ & _ & _ & Hq). rewrite Es3 in Hq.
  assert (states c4 = vi_states (lv_base l')) as Es4 by (unfold states, local; by rewrite Ec4).
  cbn [on_manager with_global co_global co_build with_local with_cached] in Hcl, Hce, Hcnt, Eb3. rewrite <- Eg4 in Hcl, Hce, Hcnt.
  destruct Hcl as (Eow & Eo & Ed & Efl & Elf & Ese & Elr). specialize (Hce eq_refl).
  pose proof (ri_office _ _ _ _ _ _ H) as Hoff. pose proof (ri_count _ _ _ _ _ _ H) as (C1 & C2 & C3 & C4).
  cbn [next_local_revision with_certified with_local_revision m_local_revision m_epoch m_boundary_revision] in Elr, Hcnt.
  rewrite !u64_add_small in Hcnt by (unfold in_u64; lia). rewrite u64_add_small in Elr by (unfold in_u64; lia).
  assert (counters_grow c c4) as Hgrow by (unfold counters_grow; rewrite Ese, Elr; cbn; lia).
  split; [|unfold is_partial; by rewrite Ec4, Hcg].
  eapply repair_inv_change; [exact H|done|exact Ec4|apply Ht| | | |done..| | | | | | |].
  - apply (office_calm g c); [done| |done|by rewrite Ed; apply Hoff|by rewrite Hce].
    rewrite <- Ecl. unfold claimed_cells. rewrite Eow, Hl1.
    assert (local c4 = Some l') as -> by (unfold local; by rewrite Ec4). by rewrite Eb4, Eb3.
  - unfold counters_ok. rewrite Ese, Elr. cbn. lia.
  - intros j Hj. apply (local_ok_stale g c); [by apply H|done|]. intros (_ & _ & _ & Er).
    destruct (ri_local _ _ _ _ _ _ H j Hj) as [(_ & _ & Ho & _) _]. lia.
  - intros x y Hxy Hs. apply Hq; [done|by left].
  - apply (table_ok_same g c3); [by rewrite Eg4|done].
  - unfold pending_states in *. by rewrite Eg4.
  - exact Efl.
  - rewrite Es4. apply Ht. rewrite <- Est. apply H.
  - split; [by rewrite Es4, Est|]. intros k b Hb. rewrite Est in Hb.
    destruct (to_state _ _ Ht k b Hb) as (b' & Hb' & Hp & _ & _ & _ & Hn). exists b'. rewrite Es4.
    split; [done|]. split; [done|]. destruct (win l (s_ix b) (s_iy b)) eqn:E; [right|left; auto].
    rewrite <- (proj1 (to_win _ _ Ht)) in E. apply Hq; [by apply Hmap|right]. by apply win_rect.
  - intros i s _ _ [Ho _]. do 4 right. split; [by rewrite Eo|done].
Qed.

(** Changing the inputs keeps the promise. *)
Lemma inputs_keep f :
  f l = Ok l' → ∃ c', change_inputs f c = Ok c' ∧ repair_inv g (N + 1) W c' o ls ∧ is_partial c' = is_partial c.
Proof.
  intros Hf. destruct inputs_core as (cg & Hcg & Ecg & Hc1 & Hok1 & Hl1 & Est & Es1 & Hwf & Hw & Ecl & Hst & _ & Hmap).
  unfold change_inputs. rewrite (local_inputs_eq c l), ok_bind, Hl, Hf, !ok_bind by done.
  unfold invalidate_local_inputs.
  rewrite (local_inputs_eq c1 l') by first [done | apply Ht]. rewrite ok_bind. case_bool_decide as Heq.
  { exists c1. split; [done|]. split; [by apply inputs_same|unfold is_partial; by rewrite Hc1, Hcg]. }
  set (c2 := on_manager _ c1). change (local c2) with (local c1). rewrite Hl1, window_cells_eq, ok_bind.
  destruct (rises_total l' (cells_of l') (inputs_at l <$> cells_of l))
    as (up & -> & Hup); [apply Ht|apply Ht|intros [x y]; apply elem_of_cells|]. rewrite ok_bind.
  assert (core_ok g c2) as Hok2 by by destruct Hok1.
  destruct (queue_increases g c2 (with_field cg l') up) as (c3 & -> & Hs3 & Ht3 & Hp3).
  { done. } { done. } { apply (table_ok_same g c); [done|apply H]. } { apply H. }
  { intros x y Hin. by apply Hmap, elem_of_cells, Hup. }
  rewrite ok_bind. pose proof (same_claims_ok g _ _ Hs3 Hok2) as Hok3.
  destruct (enqueue_global_spec g c3 (lv_ix_min l') (lv_ix_max l') (lv_iy_min l') (lv_iy_max l') Hok3)
    as (c4 & -> & Hok4 & Hq). exists c4. split; [done|]. by apply (inputs_changed c3).
Qed.
End inputs.

(** ** The changes of a tick *)

Definition same_window (l l1 : ValueIteratorLocal) : Prop :=
  lv_base l1 = lv_base l ∧
  lv_ix_min l1 = lv_ix_min l ∧ lv_ix_max l1 = lv_ix_max l ∧ lv_iy_min l1 = lv_iy_min l ∧ lv_iy_max l1 = lv_iy_max l ∧
  ∀ x y, win l1 x y = win l x y.

Lemma same_window_cells l l1 : same_window l l1 → cells_of l1 = cells_of l.
Proof.
  intros (_ & E1 & E2 & E3 & E4 & Hw). unfold cells_of. rewrite E1, E2, E3, E4.
  generalize (rect (lv_iy_min l) (lv_iy_max l) (lv_ix_min l) (lv_ix_max l)) as cs.
  induction cs as [|c cs IH]; [done|]. rewrite !bind_cons, IH. by rewrite Hw.
Qed.

(** A repaint of the window by a function of the column. *)
Lemma touched_repaint h l l1 :
  wf_vi (lv_base l) → window_in_map l → same_window l l1 → Retouch h →
  (∀ s, s_final_state (h s) = s_final_state s) → (∀ s, in_win l s = false → h s = s) →
  (∀ s s', s_ix s = s_ix s' → s_iy s = s_iy s' → inputs_of s = inputs_of s' → inputs_of (h s) = inputs_of (h s')) →
  touched l (repaint h l1).
Proof.
  intros Hwf Hw Hs Hh Hf Hout Hcol. pose proof (same_window_cells l l1 Hs) as Hc.
  destruct Hs as (Eb & E1 & E2 & E3 & E4 & Ew). split.
  - unfold repaint, restates. cbn. by rewrite Eb.
  - split; [intros; apply Ew|exact Hc].
  - unfold window_in_map in *. cbn. by rewrite Eb, E1, E2, E3, E4.
  - apply repaint_wf; [done|]. by rewrite Eb.
  - intros k b Hb. exists (h b). unfold repaint, restates. cbn. rewrite zget_fmap, Eb, Hb.
    pose proof (rt_cell b) as Hp. pose proof (rt_cost b) as [= ? ?]. by auto 10.
  - intros Hu i i' s s'. unfold repaint, restates. cbn. rewrite !zget_fmap, Eb.
    destruct (zget _ i) as [a|] eqn:Ha; [|done]. destruct (zget _ i') as [a'|] eqn:Ha'; [|done].
    intros [= <-] [= <-]. pose proof (rt_cell a) as [= A1 A2 _]. pose proof (rt_cell a') as [= B1 B2 _].
    intros Ex Ey. apply Hcol; [congruence..|]. apply (Hu i i'); congruence.
Qed.

Lemma touched_refl l : wf_vi (lv_base l) → window_in_map l → touched l l.
Proof.
  intros. rewrite <- (repaint_id (fun s => s) l) at 2 by done.
  apply touched_repaint; [done|done|unfold same_window; tauto|apply _|by auto..].
Qed.

Lemma touched_trans l1 l2 l3 : touched l1 l2 → touched l2 l3 → touched l1 l3.
Proof.
  intros [B W M F S U] [B' [W' C'] M' F' S' U']. split; [|split; [|by rewrite C', (proj2 W)]|done|done| |auto].
  - transitivity (with_states (lv_base l2) (vi_states (lv_base l3))); [done|by rewrite B].
  - intros. by rewrite W', (proj1 W).
  - intros k b Hb. destruct (S k b Hb) as (b1 & Hb1 & P1 & A1 & O1 & F1 & N1).
    destruct (S' k b1 Hb1) as (b2 & Hb2 & P2 & A2 & O2 & F2 & N2). exists b2. split; [done|].
    split; [congruence|]. split; [congruence|]. split; [congruence|]. split; [congruence|].
    intros Hn. rewrite N2, N1; [done|done|]. rewrite (proj1 W). unfold place in P1. injection P1 as -> -> _. done.
Qed.

(** A column of the inflation. *)
Lemma inflate_touched m0 m1 pen x y l l' :
  in_u64 pen → wf_vi (lv_base l) → window_in_map l → inflate_column m0 m1 pen x y l = Ok l' → touched l l'.
Proof.
  intros Hpen Hwf Hw. unfold inflate_column. rewrite win_ok, ok_bind.
  destruct (win l x y) eqn:E; cbn [negb]; [|intros [= <-]; by apply touched_refl].
  intros (d & _ & Hd)%bind_ok. destruct ((d <=? m0) || (d >? m1)).
  { injection Hd as <-. by apply touched_refl. }
  pose proof (Retouch_raise pen Hpen) as Hr. destruct (win_map _ _ _ Hw E) as [Hx Hy].
  rewrite column_loop in Hd by done. injection Hd as <-.
  apply touched_repaint; [done|done|unfold same_window; tauto|by apply (Retouch_if _ _ (fun s => s)), _| | |].
  - intros s. by destruct (at_cell _ _).
  - intros s Hs. destruct (at_cell (x, y) s) eqn:Ec; [|done]. unfold at_cell, in_win in *. cbn in Ec.
    apply andb_true_iff in Ec as [Ex%Z.eqb_eq Ey%Z.eqb_eq]. by rewrite Ex, Ey, E in Hs.
  - intros s s' Ex Ey Ei. unfold at_cell, inputs_of in *. cbn [fst snd]. rewrite Ex, Ey. injection Ei as ? ? ?.
    destruct (_ && _); cbn; congruence.
Qed.

(** The inflation by the spread of the pose, whatever distances are cached. *)
Lemma sigma_touched l extra l' :
  wf_vi (lv_base l) → window_in_map l → inflate_by_sigma l extra = Ok l' → touched l l'.
Proof.
  intros Hwf Hw. unfold inflate_by_sigma. destruct (fle extra f0); [intros [= <-]; by apply touched_refl|].
  intros (l1 & Hl1 & Hloop)%bind_ok. cbv zeta in Hloop.
  assert (∃ d, l1 = with_obstacle_dist l d) as [d ->].
  { unfold ensure_obstacle_dist in Hl1. destruct (lv_obstacle_dist l) as [|z zs] eqn:Ed.
    - apply bind_ok in Hl1 as (d & _ & [= <-]). by exists d.
    - injection Hl1 as <-. exists (z :: zs). rewrite <- Ed. symmetry. apply with_obstacle_self. }
  rewrite for_rect in Hloop.
  refine (for_each_ok_inv (fun _ l' => touched l l') _ _ _ _ Hloop _ _).
  - rewrite <- (repaint_id (fun s => s) (with_obstacle_dist l d)) by done.
    apply touched_repaint; [done|done|by unfold same_window|apply _|by auto..].
  - intros k c a a' _ Ha Hc. eapply touched_trans; [exact Ha|].
    eapply inflate_touched; [apply f64_as_u64_range|apply Ha|apply Ha|exact Hc].
Qed.

Section libm.
Context (cos sin : f64 → f64).

#[local] Instance Retouch_clear_in cs : Retouch (clear_in cs).
Proof. apply (Retouch_if _ clear (fun s => s)); apply _. Qed.

(** A scan. *)
Lemma scan_touched fuel l map_clear radius penalty scan x y t shift l' :
  wf_vi (lv_base l) → window_in_map l →
  set_local_cost_attenuated cos sin fuel (with_scan_settings l map_clear radius penalty) scan x y t shift = Ok l' →
  touched l l'.
Proof.
  intros Hwf Hw. set (l1 := with_scan_settings _ _ _ _).
  rewrite set_local_cost_attenuated_eq by done. intros (cs & _ & [= <-])%bind_ok.
  set (v := scanned _ _ _ _ _ _ _ _).
  apply touched_repaint; [done|done|by unfold same_window| |..].
  - apply (Retouch_if _ _ (fun s => s)); [|apply _].
    assert (Retouch (fun s => with_local_penalty s (v s))) as Hr.
    { split; try done. intros s Hs. cbn. unfold v, scanned. apply beams_u64; [apply scan_inject_u64|done]. }
    apply (Retouch_compose (clear_in cs) (fun s => with_local_penalty s (v s))); [apply _|done].
  - intros s. destruct (in_win l1 s); [|done]. unfold clear_in. by case_bool_decide.
  - intros s Hs. change (in_win l1 s) with (in_win l s). by rewrite Hs.
  - intros s s' Ex Ey Ei. unfold in_win, clear_in. cbn. rewrite Ex, Ey.
    assert (v s = v s') as Ev.
    { unfold v, scanned. unfold inputs_of in Ei. injection Ei as _ _ ->.
      generalize (s_local_penalty s') as p. induction (seqZ 0 _) as [|b bs IH]; intros p; [done|]. cbn.
      rewrite (beam_penalty_cell _ _ _ _ _ _ _ _ _ s s') by done. apply IH. }
    unfold inputs_of in Ei. injection Ei as Ef Ep El.
    destruct (win l1 (s_ix s') (s_iy s')); [|unfold inputs_of; congruence].
    case_bool_decide; unfold inputs_of; cbn; congruence.
Qed.

(** ** The steps of a tick *)

Lemma local_field g N W c o ls : repair_inv g N W c o ls → ∃ l, local c = Some l ∧ wf_vi (lv_base l) ∧ window_in_map l.
Proof.
  intros H. destruct (ri_cached _ _ _ _ _ _ H) as (cg & Hcg & Hw). exists (cg_field cg). unfold local. rewrite Hcg.
  destruct (ck_field _ _ (ri_ok _ _ _ _ _ _ H) _ Hcg). done.
Qed.

(** An input change that returns keeps the promise. *)
Lemma change_keeps g N W c o ls f c' :
  repair_inv g N W c o ls → N + 1 < 2 ^ 64 →
  (∀ l l', wf_vi (lv_base l) → window_in_map l → f l = Ok l' → touched l l') →
  change_inputs f c = Ok c' → repair_inv g (N + 1) W c' o ls ∧ is_partial c' = is_partial c.
Proof.
  intros H HN Hf E. destruct (local_field g N W c o ls H) as (l & Hl & Hwf & Hw).
  assert (∃ l', f l = Ok l') as [l' Hl'].
  { unfold change_inputs in E. apply bind_ok in E as (b & _ & E). rewrite Hl in E.
    apply bind_ok in E as (c1 & E & _). apply bind_ok in E as (l' & E & _). eauto. }
  destruct (inputs_keep g N W c o ls l l' H HN Hl (Hf l l' Hwf Hw Hl') f Hl') as (c1 & E1 & ?). congruence.
Qed.

Lemma scan_keeps g N W c o ls fuel scan pose shift c' :
  repair_inv g N W c o ls → N + 1 < 2 ^ 64 → observe_scan_gated cos sin fuel scan pose shift c = Ok c' →
  repair_inv g (N + 1) W c' o ls ∧ is_partial c' = is_partial c.
Proof.
  intros H HN. apply change_keeps; [done|done|]. intros l l' Hwf Hw. by apply scan_touched.
Qed.

Lemma sigma_keeps g N W c o ls sigma c' :
  repair_inv g N W c o ls → N + 1 < 2 ^ 64 → core_inflate_by_sigma sigma c = Ok c' →
  repair_inv g (N + 1) W c' o ls ∧ is_partial c' = is_partial c.
Proof.
  intros H HN. unfold core_inflate_by_sigma. cbv zeta.
  destruct (fle _ _ || fle _ _); [intros [= <-]; split; [apply (repair_inv_more g N); [done|lia]|done]|].
  apply change_keeps; [done|done|]. intros l l' Hwf Hw. by apply sigma_touched.
Qed.
End libm.
