(* ===== verification/RepairOwner.v ===== *)
(** * The window and its owner (vi_planner/src/core/mod.rs, global/ownership.rs)

    Moving the window, claiming it for a local worker and releasing it:
    [update_local_ownership] hands the cells that leave the window back to the
    global worker, so each call keeps the invariant of RepairInv.v. *)

From Stdlib Require Import ZArith Lia.
From stdpp Require Import base gmap strings list numbers.
From S2P Require Import Prelude Floats Model Bellman Consistency Original Bitboard BitboardOps BitboardEnum Active MapSetup LocalPlanner LocalSpec Planner Solve Core CoreSpec Invalidate GlobalJob LocalJob Repair RepairJob RepairCommit RepairPrepare LocalRun RepairInv RepairLoop RepairInputs.

(** ** The cells of the window *)

(** What the owner of the core's window would hold. *)
Lemma claimed_total c : ∃ owned, claimed_cells c = Ok owned.
Proof.
  unfold claimed_cells. destruct (m_owner _); [|by eexists]. destruct (local c) as [l|]; [|by eexists].
  rewrite window_cells_eq, ok_bind. by eexists.
Qed.

Lemma claimed_spec g c cg owned :
  core_ok g c → co_cached c = Some cg → window_in_map (cg_field cg) → claimed_cells c = Ok owned →
  ∀ x y, (x, y) ∈ owned ↔ m_owner (co_global c) ≠ None ∧ win (cg_field cg) x y = true.
Proof.
  intros Hok Hcg Hw. unfold claimed_cells, local. rewrite Hcg. cbn [fmap option_fmap option_map].
  destruct (m_owner (co_global c)) as [ow|]; [|intros [= <-]; set_solver].
  rewrite window_cells_eq, ok_bind. intros [= <-] x y.
  rewrite elem_of_list_to_set, list_elem_of_filter, elem_of_cells. cbn [fst snd].
  destruct (ck_grid _ _ Hok) as [-> ->]. destruct (ck_field _ _ Hok _ Hcg) as (_ & Ex & Ey & _).
  split; [by intros [_ ?]|]. intros [_ Hwin]. split; [|done].
  destruct (win_map _ _ _ Hw Hwin) as [Hx Hy]. rewrite Ex in Hx. rewrite Ey in Hy. lia.
Qed.

(** ** Updating the ownership *)

Lemma enqueue_set g cells c :
  core_ok g c → ∃ c', enqueue_cells cells c = Ok c' ∧ core_ok g c' ∧ queues c c' (fun x y => (x, y) ∈ cells) g.
Proof.
  intros Hok. destruct (enqueue_cells_spec g (elements cells) c Hok) as (c' & E & Hok' & Hq).
  exists c'. split; [done|]. split; [done|]. eapply queues_ext; [|exact Hq]. intros. apply elem_of_elements.
Qed.

(** [c1] is [c] with another window, owner or local job, and not more certified. *)
Record reclaims (g : geo) (N : Z) (c c1 : PlannerCore) : Prop := {
  rl_cached : ∃ cg cg1, co_cached c = Some cg ∧ co_cached c1 = Some cg1 ∧
    lv_base (cg_field cg1) = lv_base (cg_field cg) ∧ window_in_map (cg_field cg1) ∧ cg_partial cg1 = cg_partial cg;
  rl_core : co_build c1 = co_build c ∧ co_sweep c1 = co_sweep c;
  rl_manager : let '(m, m') := (co_global c, co_global c1) in
    m_owned m' = m_owned m ∧ m_deferred m' = m_deferred m ∧ m_in_flight m' = m_in_flight m ∧
    m_invalidation m' = m_invalidation m ∧ m_epoch m' = m_epoch m ∧ m_local_revision m' = m_local_revision m ∧
    m_boundary_revision m' = m_boundary_revision m;
  rl_serial : m_serial (co_global c) ≤ m_serial (co_global c1) ≤ N + 1;
  rl_cert : m_certified (co_global c1) = true → m_certified (co_global c) = true;
  rl_accepted : ∀ j, accepted c1 j → accepted c j
}.

Section owner.
Context (g : geo) (N : Z) (W : gset (Z * Z)) (c c1 : PlannerCore) (o : option GlobalJob) (ls : list LocalJob).
Context (H : repair_inv g N W c o ls) (HN : N + 1 < 2 ^ 64) (Hr : reclaims g N c c1).

Lemma reclaimed_core :
  core_ok g c1 ∧ states c1 = states c ∧ ∃ cg1, co_cached c1 = Some cg1 ∧ window_in_map (cg_field cg1) ∧
    is_partial c1 = is_partial c.
Proof.
  destruct (rl_cached _ _ _ _ Hr) as (cg & cg1 & Hcg & Hcg1 & Eb & Hw & Ep). destruct (rl_core _ _ _ _ Hr) as [Ebu Es].
  split; [|split].
  - pose proof (ri_ok _ _ _ _ _ _ H) as [? ? ? ? Hf]. split; rewrite ?Ebu, ?Es; [done..|].
    rewrite Hcg1. intros ? [= <-]. rewrite Eb. by apply Hf.
  - unfold states, local. rewrite Hcg, Hcg1. cbn. by rewrite Eb.
  - exists cg1. split; [done|]. split; [done|]. unfold is_partial. by rewrite Hcg, Hcg1.
Qed.

(** A core that differs from [c1] in its queue and its claims only. *)
Lemma reclaimed_inv c' owned (released : bool) :
  claimed_cells c1 = Ok owned → core_ok g c' → co_build c' = co_build c1 → co_cached c' = co_cached c1 →
  ds_cands (co_sweep c') = ds_cands (co_sweep c) → ds_pos (co_sweep c') = ds_pos (co_sweep c) →
  ds_reach (co_sweep c') = ds_reach (co_sweep c) →
  (∀ x y, in_map (g_nx g) (g_ny g) x y → seeded (co_sweep c) x y = true → seeded (co_sweep c') x y = true) →
  (m_certified (co_global c) = false → ∀ x y, in_map (g_nx g) (g_ny g) x y → (x, y) ∈ m_owned (co_global c) → (x, y) ∉ owned →
     seeded (co_sweep c') x y = true) →
  (if released then True else owned = m_owned (co_global c)) →
  (∃ d, co_global c' = with_deferred (with_owned (if released
     then with_certified (next_local_revision (co_global c1)) false else co_global c1) owned) (d ∩ owned) ∧
     d ⊆ m_deferred (co_global c)) →
  repair_inv g (N + 1) W c' o ls ∧ is_partial c' = is_partial c.
Proof.
  intros Hcl Hok' Ebu Eca Ec Ep Er Hgrow Hseed Hsame (d & Eg & Hd).
  destruct reclaimed_core as (_ & Es1 & cg1 & Hcg1 & Hw & Epart).
  destruct (rl_manager _ _ _ _ Hr) as (M1 & M2 & M3 & M4 & M5 & M6 & M7).
  pose proof (rl_serial _ _ _ _ Hr) as Hs. pose proof (rl_cert _ _ _ _ Hr) as Hcert.
  pose proof (ri_office _ _ _ _ _ _ H) as Hoff. pose proof (ri_count _ _ _ _ _ _ H) as (C1 & C2 & C3 & C4).
  assert (states c' = states c) as Es by (rewrite <- Es1; unfold states, local; by rewrite Eca).
  assert (m_local_revision (co_global c') = m_local_revision (co_global c) + (if released then 1 else 0)) as Elr.
  { rewrite Eg. destruct released; cbn; rewrite M6; [rewrite u64_add_small by (unfold in_u64; lia)|]; lia. }
  assert (m_serial (co_global c') = m_serial (co_global c1) ∧ m_epoch (co_global c') = m_epoch (co_global c) ∧
    m_boundary_revision (co_global c') = m_boundary_revision (co_global c) ∧ m_owner (co_global c') = m_owner (co_global c1) ∧
    m_in_flight (co_global c') = m_in_flight (co_global c) ∧ m_invalidation (co_global c') = m_invalidation (co_global c) ∧
    m_local_in_flight (co_global c') = m_local_in_flight (co_global c1) ∧
    m_certified (co_global c') = (if released then false else m_certified (co_global c1)) ∧
    m_owned (co_global c') = owned ∧ m_deferred (co_global c') = d ∩ owned)
    as (Ese & Eep & Ebr & Eow & Efl & Ei & Elf & Ece & Eo & Ed) by (rewrite Eg; by destruct released).
  assert (counters_grow c c') as Hcg by (unfold counters_grow; rewrite Ese, Eep, Ebr, Elr; destruct released; lia).
  split; [|unfold is_partial in *; by rewrite Eca].
  eapply repair_inv_change; [exact H|done|by rewrite Eca|done| | | |done..| | |done| | |]; rewrite ?Es.
  - split.
    + rewrite Eo, <- Hcl. unfold claimed_cells, local. by rewrite Eow, Eca, Ebu.
    + rewrite Ed, Eo. set_solver.
    + rewrite Ece. destruct released; [done|]. intros Hc%Hcert. destruct (of_cert _ _ Hoff Hc) as (P1 & P2 & P3).
      split; [unfold pending_states in *; by rewrite Ei|]. split; [rewrite Ed; set_solver|].
      rewrite Es, Eo, Hsame. exact P3.
  - unfold counters_ok. rewrite Ese, Eep, Ebr, Elr. destruct released; lia.
  - intros j Hj. destruct released.
    + apply (local_ok_stale g c); [by apply H|done|]. intros (_ & _ & _ & Ev).
      destruct (ri_local _ _ _ _ _ _ H j Hj) as [(_ & _ & Ho & _) _]. lia.
    + apply (local_ok_calm g c); [by apply H|done|done|by rewrite Eo|done|done|].
      intros Hcur. apply (rl_accepted _ _ _ _ Hr). unfold accepted in *.
      rewrite Elf, Eep, Eow, Elr, Z.add_0_r in Hcur. by rewrite M5, M6.
  - unfold table_ok, pending_states. rewrite Ei. apply H.
  - unfold pending_states. rewrite Ei. apply H.
  - apply H.
  - apply (changes_refl g).
  - intros i s Hi _ [Ho Hc]. right. destruct (ri_cached _ _ _ _ _ _ H) as (cg & Hcg0 & _).
    destruct (column_of g _ _ _ (states_wf g c cg (ri_ok _ _ _ _ _ _ H) Hcg0) Hi) as (Hxy & _).
    destruct (decide ((s_ix s, s_iy s) ∈ owned)) as [Hin|Hno].
    + do 3 right. split; [by rewrite Eo|]. rewrite Ece. destruct released; [done|].
      destruct (m_certified (co_global c1)); [|done]. by rewrite Hcert in Hc.
    + left. apply seed_near; [done|]. by apply Hseed.
Qed.

Lemma ownership_keeps :
  ∃ c', update_local_ownership c1 = Ok c' ∧ repair_inv g (N + 1) W c' o ls ∧ is_partial c' = is_partial c.
Proof.
  destruct reclaimed_core as (Hok1 & Es1 & cg1 & Hcg1 & Hw & Epart). destruct (rl_core _ _ _ _ Hr) as [Ebu Esw].
  destruct (rl_manager _ _ _ _ Hr) as (M1 & M2 & _). destruct (claimed_total c1) as [owned Hcl].
  unfold update_local_ownership. rewrite Hcl, ok_bind.
  (* the cells that leave the window *)
  assert (∃ c2 (released : bool),
    (if bool_decide (owned = m_owned (co_global c1)) then Ok c1 else
       c ← (if m_certified (co_global c1) then Ok c1 else enqueue_cells (m_owned (co_global c1) ∖ owned) c1);
       Ok (on_manager (fun m => with_certified (next_local_revision m) false) c)) = Ok c2 ∧ core_ok g c2 ∧
    (if released then True else owned = m_owned (co_global c)) ∧
    co_global c2 = (if released then with_certified (next_local_revision (co_global c1)) false else co_global c1) ∧
    (∃ n, queues c1 (with_global c2 (co_global c1)) n g ∧
       (m_certified (co_global c) = false → ∀ x y, (x, y) ∈ m_owned (co_global c) → (x, y) ∉ owned → n x y)))
    as (c2 & released & -> & Hok2 & Hsame & Eg2 & n & Hq2 & Hn).
  { case_bool_decide as Eo.
    - exists c1, false. split; [done|]. split; [done|]. split; [congruence|]. split; [done|].
      exists (fun _ _ => False). split; [by destruct c1; apply queues_none|]. intros _ x y. rewrite Eo, M1. done.
    - destruct (m_certified (co_global c1)) eqn:Ec.
      + eexists _, true. split; [done|]. split; [by destruct Hok1|]. split; [done|]. split; [done|].
        exists (fun _ _ => False). split; [destruct c1; apply queues_none|]. rewrite (rl_cert _ _ _ _ Hr Ec). done.
      + destruct (enqueue_set g (m_owned (co_global c1) ∖ owned) c1 Hok1) as (c2 & -> & Hok2 & Hq).
        pose proof (queues_frame _ _ _ _ Hq) as (_ & _ & _ & Eg & _).
        eexists _, true. split; [done|]. split; [by destruct Hok2|]. split; [done|].
        split; [cbn; by rewrite Eg|]. exists (fun x y => (x, y) ∈ m_owned (co_global c1) ∖ owned).
        split; [|intros _ x y; rewrite <- M1; set_solver].
        destruct Hq as (p & d & E2 & Hq). exists p, d. split; [rewrite E2; done|]. exact Hq. }
  rewrite ok_bind. set (c3 := on_manager _ (on_manager _ c2)).
  assert (core_ok g c3) as Hok3 by by destruct Hok2.
  destruct (enqueue_set g (m_deferred (co_global (on_manager (fun m => with_owned m owned) c2)) ∖ owned) c3 Hok3)
    as (c4 & -> & Hok4 & Hq4). exists c4. split; [done|].
  pose proof (queues_frame _ _ _ _ Hq4) as (B4 & _ & K4 & G4 & S41 & S42 & S43).
  pose proof (queues_frame _ _ _ _ Hq2) as (B2 & _ & K2 & _ & S21 & S22 & S23).
  cbn in B2, K2, S21, S22, S23. unfold c3 in B4, K4, G4, S41, S42, S43. cbn in B4, K4, G4, S41, S42, S43.
  destruct Hq4 as (_ & _ & _ & Hs4), Hq2 as (_ & _ & _ & Hs2). change (co_sweep c3) with (co_sweep c2) in Hs4.
  cbn in Hs2. rewrite Esw in *.
  apply (reclaimed_inv c4 owned released); [done|done|congruence..| | |done|].
  - intros x y Hxy Hs. apply Hs4; [done|left]. apply Hs2; [done|by left].
  - intros Hc x y Hxy Hin Hno. apply Hs4; [done|left]. apply Hs2; [done|right]. by apply Hn.
  - exists (m_deferred (co_global c)). split; [|done]. rewrite G4, Eg2. destruct released; cbn; by rewrite M2.
Qed.
End owner.

(** ** Claims *)

Section claims.
Context (cos sin : f64 → f64).
Context (g : geo) (N : Z) (W : gset (Z * Z)) (c : PlannerCore) (o : option GlobalJob) (ls : list LocalJob).
Context (H : repair_inv g N W c o ls) (HN : N + 1 < 2 ^ 64).

Lemma window_keeps pose c' :
  set_window cos sin pose c = Ok c' → repair_inv g (N + 1) W c' o ls ∧ is_partial c' = is_partial c.
Proof.
  destruct (ri_cached _ _ _ _ _ _ H) as (cg & Hcg & Hw). unfold set_window, local. rewrite Hcg.
  cbn [fmap option_fmap option_map]. intros (l' & Hl' & E)%bind_ok.
  destruct (ck_field _ _ (ri_ok _ _ _ _ _ _ H) _ Hcg) as (_ & Ex & Ey & Et & Ea).
  destruct (geo_bounds g c (ri_ok _ _ _ _ _ _ H)) as (Bx & By & _).
  apply set_local_window_frame in Hl' as [Eb Hw']; [|lia|lia].
  destruct (ownership_keeps g N W c (with_local c l') o ls H HN) as (c1 & E1 & ?); [|congruence].
  pose proof (with_local_cached c cg l' Hcg) as Hc1. pose proof (ri_count _ _ _ _ _ _ H) as (C1 & _).
  split; cbn; try done; [|lia]. exists cg, (with_field cg l'). done.
Qed.

(** A new owner, or none, for the window as it is. *)
Lemma reclaim (f : Manager → Manager) :
  (∀ m, m_owned (f m) = m_owned m ∧ m_deferred (f m) = m_deferred m ∧ m_in_flight (f m) = m_in_flight m ∧
     m_invalidation (f m) = m_invalidation m ∧ m_epoch (f m) = m_epoch m ∧ m_local_revision (f m) = m_local_revision m ∧
     m_boundary_revision (f m) = m_boundary_revision m ∧ m_local_in_flight (f m) = None) →
  m_serial (co_global c) ≤ m_serial (f (co_global c)) ≤ N + 1 →
  (m_certified (f (co_global c)) = true → m_certified (co_global c) = true) →
  reclaims g N c (on_manager f c).
Proof.
  intros Hf Hs Hc. destruct (ri_cached _ _ _ _ _ _ H) as (cg & Hcg & Hw).
  destruct (Hf (co_global c)) as (F1 & F2 & F3 & F4 & F5 & F6 & F7 & F8). split; cbn; try done.
  - exists cg, cg. done.
  - unfold accepted. cbn. rewrite F8. by intros j (? & _).
Qed.

Lemma claim_keeps :
  ∃ c' w, claim_local c = Ok (c', w) ∧ repair_inv g (N + 1) W c' o ls ∧ is_partial c' = is_partial c.
Proof.
  unfold claim_local. set (f := fun m => with_certified _ false).
  destruct (ownership_keeps g N W c (on_manager f (on_manager next_serial c)) o ls H HN) as (c' & -> & Hc').
  - pose proof (ri_count _ _ _ _ _ _ H) as (C1 & _).
    change (on_manager f (on_manager next_serial c)) with (on_manager (fun m => f (next_serial m)) c).
    apply reclaim; [done| |done]. cbn. rewrite u64_add_small by (unfold in_u64; lia). lia.
  - rewrite ok_bind. eexists _, _. split; [done|]. exact Hc'.
Qed.

Lemma release_keeps w :
  ∃ c', release_local w c = Ok c' ∧ repair_inv g (N + 1) W c' o ls ∧ is_partial c' = is_partial c.
Proof.
  unfold release_local. case_bool_decide.
  - apply (ownership_keeps g N W c _ o ls H HN). pose proof (ri_count _ _ _ _ _ _ H) as (C1 & _).
    apply reclaim; [done|cbn; lia|done].
  - exists c. split; [done|]. split; [apply (repair_inv_more g N); [done|lia]|done].
Qed.
End claims.
