(* ===== verification/RepairLocal.v ===== *)
(** * The local worker keeps the invariant (vi_planner/src/core/global/local.rs)

    Preparing, running and committing a job over the window: none of them
    panics, and each keeps [repair_inv] of RepairInv.v.  A commit certifies the
    window only when its pass changed nothing and nothing around it moved; then
    every state of the window is consistent with the live field. *)

From Stdlib Require Import ZArith Lia.
From stdpp Require Import base gmap strings list numbers.
From S2P Require Import Prelude Floats Model Bellman Consistency Original Bitboard BitboardOps BitboardEnum Active MapSetup LocalPlanner LocalSpec Planner Solve Core CoreSpec Invalidate GlobalJob LocalJob Repair RepairJob RepairCommit RepairPrepare LocalRun RepairInv RepairLoop RepairInputs RepairOwner.

(** ** Preparing a job *)

Lemma rect_NoDup x0 x1 y0 y1 : NoDup (rect x0 x1 y0 y1).
Proof.
  unfold rect. apply NoDup_bind; [| |apply NoDup_seqZ].
  - intros x x' p _ _ Hp Hp'. apply list_elem_of_fmap in Hp as (? & -> & _), Hp' as (? & [= ->] & _). done.
  - intros x _. apply NoDup_fmap_2; [intros ?? [= ->]; done|apply NoDup_seqZ].
Qed.

(** The cells of a local job: the window's, against the corner of the snapshot. *)
Definition window_job_cells (l : ValueIteratorLocal) (owned : gset (Z * Z)) (x0 y0 : Z) : list (Z * Z) :=
  (fun c => (i32_sub c.1 x0, i32_sub c.2 y0)) <$>
    filter (fun c => win l c.1 c.2 = true ∧ c ∈ owned) (rect (lv_ix_min l) (lv_ix_max l) (lv_iy_min l) (lv_iy_max l)).

Lemma window_job_cells_eq l owned x0 y0 :
  for_incl (lv_ix_min l) (lv_ix_max l) (fun x cells =>
    for_incl (lv_iy_min l) (lv_iy_max l) (fun y cells =>
      inside ← in_local_area l x y;
      Ok (if (inside : bool) && bool_decide ((x, y) ∈ owned)
          then cells ++ [(i32_sub x x0, i32_sub y y0)] else cells)) cells) []
  = Ok (window_job_cells l owned x0 y0).
Proof.
  rewrite (for_rect _ _ _ _ (fun x y cells => inside ← in_local_area l x y;
    Ok (if (inside : bool) && bool_decide ((x, y) ∈ owned)
        then cells ++ [(i32_sub x x0, i32_sub y y0)] else cells))).
  rewrite (for_each_append (fun c => if win l c.1 c.2 && bool_decide (c ∈ owned)
    then [(i32_sub c.1 x0, i32_sub c.2 y0)] else [])).
  - cbn [app]. f_equal. unfold window_job_cells. generalize (rect (lv_ix_min l) (lv_ix_max l) (lv_iy_min l) (lv_iy_max l)) as cs.
    induction cs as [|c cs IH]; [done|]. rewrite bind_cons, list.filter_cons, IH.
    destruct (win l c.1 c.2 && bool_decide (c ∈ owned)) eqn:E.
    + apply andb_true_iff in E as [E1 E2%bool_decide_eq_true]. by rewrite decide_True.
    + rewrite decide_False; [done|]. intros [E1 E2]. rewrite E1, bool_decide_true in E; done.
  - intros [x y] cells _. cbn [fst snd]. rewrite win_ok, ok_bind. destruct (win l x y && _); [done|]. by rewrite app_nil_r.
Qed.

Section prepare.
Context (g : geo) (N : Z) (W : gset (Z * Z)) (c : PlannerCore) (o : option GlobalJob) (ls : list LocalJob) (cg : CachedGoal) (owner : Z).
Context (H : repair_inv g N W c o ls) (HN : N + 1 < 2 ^ 64) (Hcg : co_cached c = Some cg).
Context (Hown : m_owner (co_global c) = Some owner) (Hidle : m_local_in_flight (co_global c) = None)
  (Hpend : pending_states c = []) (Hne : m_owned (co_global c) ≠ ∅).

#[local] Abbreviation l := (cg_field cg).
#[local] Abbreviation m := (co_global c).
#[local] Abbreviation R := (reach_of (g_acts g)).
#[local] Abbreviation x0 := (Z.max (lv_ix_min l - R) 0).
#[local] Abbreviation y0 := (Z.max (lv_iy_min l - R) 0).
#[local] Abbreviation x1 := (Z.min (lv_ix_max l + R) (g_nx g - 1)).
#[local] Abbreviation y1 := (Z.min (lv_iy_max l + R) (g_ny g - 1)).

Lemma window_facts :
  window_in_map l ∧ lv_ix_min l ≤ lv_ix_max l ∧ lv_iy_min l ≤ lv_iy_max l ∧
  0 ≤ lv_ix_min l ∧ lv_ix_max l < g_nx g ∧ 0 ≤ lv_iy_min l ∧ lv_iy_max l < g_ny g ∧
  ∀ x y, (x, y) ∈ m_owned m ↔ win l x y = true.
Proof.
  destruct (ri_cached _ _ _ _ _ _ H) as (cg0 & Hcg0 & Hw). rewrite Hcg in Hcg0. injection Hcg0 as <-.
  destruct (ck_field _ _ (ri_ok _ _ _ _ _ _ H) _ Hcg) as (_ & Ex & Ey & _).
  assert (∀ x y, (x, y) ∈ m_owned m ↔ win l x y = true) as Ho.
  { intros x y. rewrite (claimed_spec g c cg _ (ri_ok _ _ _ _ _ _ H) Hcg Hw (of_owned _ _ (ri_office _ _ _ _ _ _ H))).
    rewrite Hown. split; [by intros [_ ?]|done]. }
  destruct (set_choose_L _ Hne) as [[x y] Hxy]. apply Ho in Hxy. pose proof (win_rect _ _ _ Hxy).
  unfold window_in_map in *. rewrite Ex, Ey in *. repeat (split; [lia|]). exact Ho.
Qed.

(** The job, against what the code reads it from. *)
Definition fresh_job (vi : ValueIterator) (cells : list (Z * Z)) : LocalJob :=
  mkLocalJob (m_epoch m) owner (m_serial m + 1) (m_local_revision m) (m_boundary_revision m)
    (repair_values vi) (x0, y0) cells 0 false.

Definition fresh_core : PlannerCore :=
  with_global c (with_local_in_flight (with_serial m (m_serial m + 1)) (Some (m_serial m + 1))).

Lemma fresh_cells x y :
  (x, y) ∈ window_job_cells l (m_owned m) x0 y0 ↔ win l (x0 + x) (y0 + y) = true.
Proof.
  destruct window_facts as (Hw & ? & ? & ? & ? & ? & ? & Ho).
  destruct (geo_bounds g c (ri_ok _ _ _ _ _ _ H)) as (Bx & By & _). pose proof (reach_nonneg (g_acts g)) as HR.
  unfold window_job_cells. rewrite list_elem_of_fmap. split.
  - intros ([a b] & [= Ea Eb] & [[Hwin _] Hin%elem_of_window_rect]%list_elem_of_filter). cbn in *.
    rewrite i32_sub_small in Ea, Eb by (unfold in_i32; lia).
    by replace (x0 + x) with a by lia; replace (y0 + y) with b by lia.
  - intros Hwin. pose proof (win_rect _ _ _ Hwin). exists (x0 + x, y0 + y). cbn.
    rewrite !i32_sub_small by (unfold in_i32; lia). split; [f_equal; lia|].
    apply list_elem_of_filter. cbn. split; [split; [done|by apply Ho]|]. apply elem_of_window_rect. lia.
Qed.

Lemma fresh_nodup : NoDup (window_job_cells l (m_owned m) x0 y0).
Proof.
  destruct window_facts as (Hw & ? & ? & ? & ? & ? & ? & Ho).
  destruct (geo_bounds g c (ri_ok _ _ _ _ _ _ H)) as (Bx & By & _). pose proof (reach_nonneg (g_acts g)) as HR.
  apply NoDup_fmap_2_strong; [|apply list.NoDup_filter, rect_NoDup].
  intros [a b] [a' b'] [_ Hin%elem_of_window_rect]%list_elem_of_filter [_ Hin'%elem_of_window_rect]%list_elem_of_filter.
  cbn. rewrite !i32_sub_small by (unfold in_i32; lia). intros [= ? ?]. f_equal; lia.
Qed.

(** The fresh job is tied to the field. *)
Lemma fresh_job_ok vi :
  wf_vi vi → vi_cell_num_x vi = x1 - x0 + 1 → vi_cell_num_y vi = y1 - y0 + 1 → vi_cell_num_t vi = g_nt g →
  vi_actions vi = g_acts g →
  (∀ x y t, in_map (x1 - x0 + 1) (y1 - y0 + 1) x y → 0 ≤ t < g_nt g → ∃ s,
      zget (vi_states (lv_base l)) (index (g_nx g) (g_nt g) (x0 + x) (y0 + y) t) = Some s ∧
      zget (vi_states vi) (index (x1 - x0 + 1) (g_nt g) x y t) = Some (shift_state s x0 y0)) →
  local_ok g fresh_core (fresh_job vi (window_job_cells l (m_owned m) x0 y0)).
Proof.
  intros Hvi Lx Ly Lt La Hget. pose proof (ri_count _ _ _ _ _ _ H) as (C1 & C2 & C3 & C4).
  destruct window_facts as (Hw & ? & ? & ? & ? & ? & ? & Ho). pose proof (reach_nonneg (g_acts g)) as HR.
  split; [unfold older; cbn; lia|].
  split.
  { intros _ x y Hwin%fresh_cells. by apply Ho. }
  exists (vi_states vi). pose proof (wv_states _ Hvi) as Hbef. rewrite Lx, Ly, Lt in Hbef. split.
  - split; cbn; rewrite ?Lx, ?Ly, ?Lt, ?La; try done.
    + destruct Hvi as [D1 D2 D3]. split; cbn; [done|apply repaired_wf; exact D2|done].
    + lia.
    + apply fresh_nodup.
    + intros x y Hwin%fresh_cells. pose proof (win_rect _ _ _ Hwin). split; [split; lia|].
      intros x' y' [? ?] [N1 N2]. split; lia.
  - intros _. split; cbn; rewrite ?Lx, ?Ly.
    + exact Hpend.
    + intros x y Hin%Ho. apply fresh_cells. by replace (x0 + (x - x0)) with x by lia; replace (y0 + (y - y0)) with y by lia.
    + intros x y t s b Hxy Ht Hs Hb. destruct (Hget x y t Hxy Ht) as (s0 & G1 & G2).
      assert (states fresh_core = vi_states (lv_base l)) as Est by (unfold states, local; cbn; by rewrite Hcg).
      rewrite Est, G1 in Hs. injection Hs as <-. rewrite G2 in Hb. injection Hb as <-. by apply unchanged_spec.
Qed.

Lemma fresh_inv j : local_ok g fresh_core j → repair_inv g (N + 1) W fresh_core o (j :: ls).
Proof.
  intros Hj. destruct (ri_cached _ _ _ _ _ _ H) as (cg0 & Hcg0 & Hw). pose proof (ri_count _ _ _ _ _ _ H) as (C1 & C2 & C3 & C4).
  pose proof (ri_office _ _ _ _ _ _ H) as Hoff.
  eapply (repair_inv_queue g N (N + 1) W c fresh_core o ls); [exact H| |exact Hcg0|exact Hw| | | |done..|apply H|apply H|apply H|].
  - by destruct (ri_ok _ _ _ _ _ _ H).
  - apply (office_calm g c); [done|done|done|apply Hoff|]. intros Hc. by destruct (of_cert _ _ Hoff Hc) as (? & ? & _).
  - unfold counters_ok. cbn. lia.
  - intros i [->|Hi]%elem_of_cons; [done|]. apply (local_ok_stale g c); [by apply H| |].
    + unfold counters_grow. cbn. lia.
    + intros [Hid _]. cbn in Hid. injection Hid as Hid. destruct (ri_local _ _ _ _ _ _ H i Hi) as [(Ho & _) _]. lia.
  - intros i s _ _ Hc. by right.
Qed.
End prepare.

Lemma prepare_local_keeps g N W c o ls :
  repair_inv g N W c o ls → N + 1 < 2 ^ 64 →
  ∃ c' r, prepare_local_job c = Ok (c', r) ∧
    repair_inv g (N + 1) W c' o (match r with Some j => j :: ls | None => ls end) ∧ is_partial c' = is_partial c.
Proof.
  intros H HN. unfold prepare_local_job. destruct (drain_keeps g N W c o ls 512 H) as (c1 & b & -> & H1 & Hb & Ep).
  rewrite ok_bind. pose proof (repair_inv_more g N (N + 1) W c1 o ls H1 ltac:(lia)) as H1'.
  destruct b; cbn [negb]; [|by exists c1, None].
  destruct (m_owner (co_global c1)) as [owner|] eqn:Hown; [|by exists c1, None].
  destruct (bool_decide _ || _) eqn:E; [by exists c1, None|].
  apply orb_false_iff in E as [E1%bool_decide_eq_false E2%bool_decide_eq_false].
  assert (m_local_in_flight (co_global c1) = None) as Hidle.
  { destruct (m_local_in_flight (co_global c1)); [destruct E1; by eexists|done]. }
  destruct (ri_cached _ _ _ _ _ _ H1) as (cg & Hcg & _). unfold local. rewrite Hcg. cbn [fmap option_fmap option_map].
  destruct (ck_field _ _ (ri_ok _ _ _ _ _ _ H1) _ Hcg) as (Hwf & Ex & Ey & Et & Ea).
  destruct (geo_bounds g c1 (ri_ok _ _ _ _ _ _ H1)) as (Bx & By & _).
  destruct (window_facts g N W c1 o ls cg owner H1 Hcg Hown E2) as (Hw & ? & ? & ? & ? & ? & ? & Ho).
  destruct (ri_fits _ _ _ _ _ _ H1) as (HR & RX & RY). unfold transition_reach. rewrite Ea, Ex, Ey.
  fold (reach_of (g_acts g)).
  rewrite !(i32_sub_small _ (reach_of _)), !(i32_add_small _ (reach_of _)), !(i32_sub_small _ 1) by (unfold in_i32; lia).
  edestruct (snapshot_spec g (lv_base (cg_field cg))) as (vi & -> & Hvi & Lx & Ly & Lt & La & Hget);
    [apply (ck_dims _ _ (ri_ok _ _ _ _ _ _ H1))|done..|lia|lia|lia|lia|lia|lia|].
  rewrite ok_bind, window_job_cells_eq, ok_bind. eexists _, (Some _). split; [done|]. split; [|exact Ep].
  pose proof (ri_count _ _ _ _ _ _ H1) as (C1 & _). unfold next_serial.
  rewrite u64_add_small by (unfold in_u64; lia).
  apply (fresh_inv g N W c1 o ls H1).
  pose proof (fresh_job_ok g N W c1 o ls cg owner) as HF.
  exact (HF H1 Hcg Hown (proj1 Hb eq_refl) E2 vi Hvi Lx Ly Lt La Hget).
Qed.

(** ** Running a job *)

Lemma ran_ok g c j st' d :
  local_ok g c j → lj_ran j = false →
  pass_result (vi_cell_num_x (lj_vi j)) (vi_cell_num_y (lj_vi j)) (vi_cell_num_t (lj_vi j)) (vi_actions (lj_vi j))
    (job_order (vi_cell_num_x (lj_vi j)) (vi_cell_num_t (lj_vi j)) (lj_cells j)) (vi_states (lj_vi j)) st' d →
  local_ok g c (lj_with j (with_states (lj_vi j) st') d).
Proof.
  intros (Ho & Hi & b & [[Wd Ws Wa] [Et Ea] Hbox Hb Hnd Hc Hst] & Hl) Hr Hp. split; [done|]. split; [done|]. exists b.
  rewrite Hr in Hst. destruct Hst as [Es _]. split.
  - split; cbn; try done.
    + split; cbn; [done|by apply Hp|done].
    + rewrite <- Et, <- Ea, <- Es. exact Hp.
  - intros Hcur. destruct (Hl Hcur). by split.
Qed.

Lemma shape_cells g b j x y :
  local_shape g b j → (x, y) ∈ lj_cells j → in_map (vi_cell_num_x (lj_vi j)) (vi_cell_num_y (lj_vi j)) x y.
Proof. intros Hs Hin. by apply (lh_cells _ _ _ Hs). Qed.

Lemma local_run_keeps g c j : local_ok g c j → ∃ j', local_run j = Ok j' ∧ local_ok g c j'.
Proof.
  intros H. destruct (lj_ran j) eqn:Hr; [exists j; unfold local_run; by rewrite Hr|].
  pose proof H as (_ & _ & b & Hs & _). pose proof (lh_states _ _ _ Hs) as Hst. rewrite Hr in Hst.
  destruct (local_run_ok j (lh_wf _ _ _ Hs) (lh_nodup _ _ _ Hs) Hr (proj2 Hst)) as (st' & d & -> & Hp); [by intros x y; apply (shape_cells g b)|].
  eexists. split; [done|]. by apply ran_ok.
Qed.

Lemma local_parallel_keeps g c j clocks threads :
  local_ok g c j → ∃ j' b, local_run_parallel clocks threads j = Ok (j', b) ∧ local_ok g c j'.
Proof.
  intros H. destruct (lj_ran j) eqn:Hr; [exists j, true; unfold local_run_parallel; by rewrite Hr|].
  pose proof H as (_ & _ & bf & Hs & _). pose proof (lh_states _ _ _ Hs) as Hst. rewrite Hr in Hst.
  destruct (local_parallel_ok j (lh_wf _ _ _ Hs) (lh_nodup _ _ _ Hs) Hr (proj2 Hst)) with (clocks := clocks) (threads := threads)
    as (j' & b & -> & Hj); [by intros x y; apply (shape_cells g bf)|].
  exists j', b. split; [done|]. destruct Hj as [[_ ->]|(_ & st' & d & -> & Hp)]; [done|by apply ran_ok].
Qed.

(** ** Committing a job *)

Section publish.
Context (g : geo) (c : PlannerCore) (cg : CachedGoal) (before : list State) (j : LocalJob).
Context (Hok : core_ok g c) (Hcg : co_cached c = Some cg) (H : local_shape g before j).

#[local] Abbreviation l := (cg_field cg).
#[local] Abbreviation ox := (lj_origin j).1.
#[local] Abbreviation oy := (lj_origin j).2.
#[local] Abbreviation lx := (vi_cell_num_x (lj_vi j)).
#[local] Abbreviation ly := (vi_cell_num_y (lj_vi j)).
#[local] Abbreviation F := (vi_states (lj_vi j)).
#[local] Abbreviation gidx x y t := (index (g_nx g) (g_nt g) (ox + x) (oy + y) t).
#[local] Abbreviation lidx x y t := (index lx (g_nt g) x y t).

(** The column holds the values of the job. *)
Definition stored (st' : list State) (x y : Z) (moved : Prop) : Prop :=
  ∀ t, 0 ≤ t < g_nt g → ∃ s f,
    zget (states c) (gidx x y t) = Some s ∧ zget F (lidx x y t) = Some f ∧
    zget st' (gidx x y t) = Some (with_value s (s_total_cost f) (s_optimal_action f)) ∧
    (s_total_cost s ≠ s_total_cost f ∨ s_optimal_action s ≠ s_optimal_action f → moved).

Record store_inv (pre : list (Z * Z)) (p : ValueIteratorLocal * list (Z * Z)) : Prop := {
  si_base : p.1 = restates l (vi_states (lv_base p.1));
  si_wf : wf_states (g_nx g) (g_ny g) (g_nt g) (vi_states (lv_base p.1));
  si_out : ∀ i, (∀ x y t, (x, y) ∈ pre → 0 ≤ t < g_nt g → i ≠ gidx x y t) →
    zget (vi_states (lv_base p.1)) i = zget (states c) i;
  si_cell : ∀ x y, (x, y) ∈ pre → stored (vi_states (lv_base p.1)) x y ((ox + x, oy + y) ∈ p.2)
}.

Lemma local_dims : dims_ok lx ly (g_nt g) ∧ wf_states lx ly (g_nt g) F.
Proof. destruct (lh_wf _ _ _ H) as [Hd Hw _]. by rewrite (proj1 (lh_nt _ _ _ H)) in Hd, Hw. Qed.

Lemma local_map x y : in_map lx ly x y → in_map (g_nx g) (g_ny g) (ox + x) (oy + y).
Proof. intros [? ?]. destruct (lh_box _ _ _ H) as (? & ? & ? & ?). split; lia. Qed.

Lemma gidx_inj x y t x' y' t' :
  in_map lx ly x y → in_map lx ly x' y' → 0 ≤ t < g_nt g → 0 ≤ t' < g_nt g → gidx x y t = gidx x' y' t' →
  x = x' ∧ y = y' ∧ t = t'.
Proof.
  intros Hxy Hxy' Ht Ht' E. destruct (local_map _ _ Hxy), (local_map _ _ Hxy').
  apply (index_inj _ (g_ny g)) in E as (? & ? & ?); [|done..]. lia.
Qed.

Lemma store_cell pre p x y :
  store_inv pre p → (∀ x' y', (x', y') ∈ pre → (x', y') ∈ lj_cells j) → (x, y) ∈ lj_cells j → (x, y) ∉ pre →
  ∃ p', local_commit_cell j (x, y) p = Ok p' ∧ store_inv (pre ++ [(x, y)]) p'.
Proof.
  intros [Hb Hwf Hout Hce] Hpre Hin Hnot. destruct (ck_field _ _ Hok _ Hcg) as (_ & Ex & _ & Et & _).
  pose proof (states_wf g c cg Hok Hcg) as Hst. destruct local_dims as [[J1 J2 J3 J4] HF].
  pose proof (ck_dims _ _ Hok) as Hd. pose proof Hd as [D1 D2 D3 D4].
  pose proof (shape_cells g before j x y H Hin) as Hxy. pose proof (local_map x y Hxy) as [Gx Gy]. pose proof Hxy as [Hx Hy].
  destruct (geo_bounds g c Hok) as (Bx & By & Bt & _). destruct (lh_box _ _ _ H) as (? & ? & ? & ?).
  unfold local_commit_cell. cbn [fst snd]. rewrite !i32_add_small by (unfold in_i32; lia).
  assert (as_u64 (to_index (lj_vi j) x y 0) = lidx x y 0) as ->.
  { unfold to_index. rewrite (proj1 (lh_nt _ _ _ H)), (to_index_raw_small _ ly) by first [done | by apply local_dims | lia].
    pose proof (index_bounds lx ly (g_nt g) x y 0 Hx Hy ltac:(lia)). apply as_u64_small. unfold in_u64. lia. }
  assert (as_u64 (to_index (lv_base p.1) (x + ox) (y + oy) 0) = gidx x y 0) as ->.
  { rewrite Hb. unfold to_index. cbn. rewrite Ex, Et, (to_index_raw_small _ (g_ny g)) by (done || lia).
    rewrite (Z.add_comm x), (Z.add_comm y).
    pose proof (index_bounds (g_nx g) (g_ny g) (g_nt g) (ox + x) (oy + y) 0 Gx Gy ltac:(lia)).
    apply as_u64_small. unfold in_u64. lia. }
  assert (∀ t, gidx x y 0 + t = gidx x y t) as Egi by (intros; unfold index; lia).
  assert (∀ t, lidx x y 0 + t = lidx x y t) as Eli by (intros; unfold index; lia).
  rewrite (proj1 (lh_nt _ _ _ H)).
  assert (∃ S, ∀ t, 0 ≤ t < g_nt g → zget (states c) (gidx x y t) = Some (S t)) as [S HS].
  { exists (fun t => default (sample_cell 0 0 false) (zget (states c) (gidx x y t))). intros t Ht.
    destruct (ws_get _ _ _ _ (ox + x) (oy + y) t Hst) as (s & -> & _); done. }
  assert (∃ Fl, ∀ t, 0 ≤ t < g_nt g → zget F (lidx x y t) = Some (Fl t)) as [Fl HFl].
  { exists (fun t => default (sample_cell 0 0 false) (zget F (lidx x y t))). intros t Ht.
    destruct (ws_get _ _ _ _ x y t HF) as (s & -> & _); done. }
  assert (∀ t, 0 ≤ t < g_nt g → zget (vi_states (lv_base p.1)) (gidx x y t) = Some (S t)) as Hcol.
  { intros t Ht. rewrite Hout; [by apply HS|]. intros x' y' t' Hc Ht' E.
    apply gidx_inj in E as (-> & -> & _); [done|done|by apply (shape_cells g before), Hpre|done|done]. }
  pose proof (index_bounds (g_nx g) (g_ny g) (g_nt g) (ox + x) (oy + y) 0 Gx Gy ltac:(lia)) as Hb0.
  destruct (publish_column_spec (lj_vi j) (g_nt g) (lidx x y 0) (gidx x y 0) p.1 S Fl)
    as (st' & mv & E & Hl & Ho & Hc & Hm); [lia|lia|..].
  { intros t Ht. rewrite Eli. by apply HFl. }
  { intros t Ht. rewrite Egi. by apply Hcol. }
  rewrite E, ok_bind. eexists. split; [done|]. rewrite !(Z.add_comm _ ox), !(Z.add_comm _ oy).
  assert (∀ x' y' t', (x', y') ∈ pre → 0 ≤ t' < g_nt g → zget st' (gidx x' y' t') = zget (vi_states (lv_base p.1)) (gidx x' y' t')) as Hother.
  { intros x' y' t' Hc' Ht'. apply Ho. intros Hr.
    assert (gidx x' y' t' = gidx x y (gidx x' y' t' - gidx x y 0)) as E2 by (rewrite <- Egi; lia).
    apply gidx_inj in E2 as (-> & -> & _); [done|by apply (shape_cells g before), Hpre|done|done|lia]. }
  split; cbn [fst snd].
  - rewrite Hb. done.
  - cbn. split; [rewrite Hl; apply (ws_len _ _ _ _ Hwf)|]. intros i s Hi.
    destruct (decide (gidx x y 0 ≤ i < gidx x y 0 + g_nt g)) as [Hr|Hr].
    + replace i with (gidx x y 0 + (i - gidx x y 0)) in Hi |- * by lia. set (t := i - gidx x y 0) in *.
      rewrite Hc in Hi by lia. injection Hi as <-. pose proof (HS t ltac:(lia)) as Hs. rewrite <- Egi in Hs.
      apply (ws_state _ _ _ _ Hst) in Hs. destruct Hs.
      pose proof (HFl t ltac:(lia)) as Hf. apply (ws_state _ _ _ _ HF) in Hf. destruct Hf. by split.
    + rewrite Ho in Hi by done. by apply (ws_state _ _ _ _ Hwf).
  - intros i Hi. cbn. rewrite Ho.
    + apply Hout. intros x' y' t' Hp. apply Hi, elem_of_app. by left.
    + intros Hr. apply (Hi x y (i - gidx x y 0)); [apply elem_of_app; right; left|lia|]. rewrite <- Egi. lia.
  - intros x' y' [Hp|[= -> ->]%list_elem_of_singleton]%elem_of_app t Ht; cbn.
    + destruct (Hce x' y' Hp t Ht) as (s & f & Es & Ef & Es' & Hmv). exists s, f.
      split; [done|]. split; [done|]. split; [by rewrite Hother|]. intros Hch%Hmv.
      destruct mv; [apply elem_of_app; by left|done].
    + exists (S t), (Fl t). split; [by apply HS|]. split; [by apply HFl|]. split; [rewrite <- Egi; by apply Hc|].
      intros Hch. destruct mv; [apply elem_of_app; right; left|]. destruct (Hm eq_refl t Ht). tauto.
Qed.

Lemma store_cells :
  ∃ st' changed, for_each (lj_cells j) (local_commit_cell j) (l, []) = Ok (restates l st', changed) ∧
    store_inv (lj_cells j) (restates l st', changed).
Proof.
  assert (∀ todo pre p, pre ++ todo = lj_cells j → store_inv pre p →
    ∃ p', for_each todo (local_commit_cell j) p = Ok p' ∧ store_inv (lj_cells j) p') as Hl.
  { induction todo as [|[x y] todo IH]; intros pre p E Hp.
    { exists p. rewrite app_nil_r in E. by subst. }
    cbn [for_each]. pose proof (lh_nodup _ _ _ H) as Hnd. rewrite <- E in Hnd.
    apply list.NoDup_app in Hnd as (_ & Hdis & _).
    destruct (store_cell pre p x y Hp) as (p1 & -> & Hp1).
    - intros x' y' Hc. rewrite <- E. apply elem_of_app. by left.
    - rewrite <- E. apply elem_of_app. right. left.
    - intros Hc. apply (Hdis _ Hc). left.
    - rewrite ok_bind. apply (IH (pre ++ [(x, y)])); [by rewrite <- app_assoc|done]. }
  assert (states c = vi_states (lv_base l)) as Est by (unfold states, local; by rewrite Hcg).
  destruct (Hl (lj_cells j) [] (l, [])) as ([l' ch] & E & Hp); [done| |].
  - split; cbn [fst snd]; [by rewrite restates_self| |by rewrite Est|by intros x y ?%elem_of_nil].
    rewrite <- Est. by apply (states_wf g c cg).
  - exists (vi_states (lv_base l')), ch. pose proof (si_base _ _ Hp) as Eb. cbn [fst] in Eb. by rewrite <- Eb.
Qed.
End publish.

(** ** The certificate *)

Section certificate.
Context (g : geo) (c : PlannerCore) (cg : CachedGoal) (before : list State) (j : LocalJob).
Context (Hok : core_ok g c) (Hcg : co_cached c = Some cg) (H : local_shape g before j).
Context (Hran : lj_ran j = true) (Hzero : lj_delta j = 0) (Hlive : live_link g c before j).
Context (st' : list State) (changed : list (Z * Z)).
Context (Hst : store_inv g c cg j (lj_cells j) (restates (cg_field cg) st', changed)).

#[local] Abbreviation ox := (lj_origin j).1.
#[local] Abbreviation oy := (lj_origin j).2.
#[local] Abbreviation lx := (vi_cell_num_x (lj_vi j)).
#[local] Abbreviation ly := (vi_cell_num_y (lj_vi j)).
#[local] Abbreviation F := (vi_states (lj_vi j)).
#[local] Abbreviation gidx x y t := (index (g_nx g) (g_nt g) (ox + x) (oy + y) t).
#[local] Abbreviation lidx x y t := (index lx (g_nt g) x y t).

Lemma final_pass :
  pass_result lx ly (g_nt g) (g_acts g) (job_order lx (g_nt g) (lj_cells j)) (repaired before) F (lj_delta j).
Proof. pose proof (lh_states _ _ _ H) as Hs. by rewrite Hran in Hs. Qed.

(** Before the commit the live column is the snapshot's. *)
Lemma snapshot_column x y t :
  in_map lx ly x y → 0 ≤ t < g_nt g → ∃ s b, zget (states c) (gidx x y t) = Some s ∧
    zget before (lidx x y t) = Some b ∧ unchanged s b = true.
Proof.
  intros Hxy Ht. destruct (local_dims g before j H) as [[J1 J2 J3 _] _]. destruct (local_map g before j H x y Hxy) as [Gx Gy].
  pose proof (ck_dims _ _ Hok) as [D1 D2 D3 _]. destruct Hxy as [Hx Hy].
  destruct (ws_get _ _ _ _ (ox + x) (oy + y) t (states_wf g c cg Hok Hcg)) as (s & Hs & _); [done..|].
  destruct (ws_get _ _ _ _ x y t (lh_before _ _ _ H)) as (b & Hb & _); [done..|].
  exists s, b. split; [done|]. split; [done|]. by apply (ll_same _ _ _ _ Hlive x y t); [split| | |].
Qed.

(** After it, the live column, repaired, agrees with the job's. *)
Lemma stored_column x y t :
  in_map lx ly x y → 0 ≤ t < g_nt g → ∃ f s, zget F (lidx x y t) = Some f ∧ zget st' (gidx x y t) = Some s ∧
    same_entry f (repair_state s) ∧
    ((x, y) ∈ lj_cells j → policy_invalidated s = false ∧ s_total_cost s = s_total_cost f ∧
       s_optimal_action s = s_optimal_action f ∧ updatable s = updatable f).
Proof.
  intros Hxy Ht. destruct (snapshot_column x y t Hxy Ht) as (s & b & Hs & Hb & Hun).
  destruct (local_dims g before j H) as [[J1 J2 J3 _] _]. destruct final_pass as [Pst _ Pout Pset _].
  destruct (decide ((x, y) ∈ lj_cells j)) as [Hin|Hno].
  - destruct (si_cell _ _ _ _ _ _ Hst x y Hin t Ht) as (s0 & f & Hs0 & Hf & Hs' & _). rewrite Hs in Hs0. injection Hs0 as <-.
    assert (policy_invalidated f = false) as Hpf.
    { eapply (Pset (lidx x y t)); [|exact Hf]. apply elem_of_job_order. by exists x, y, t. }
    pose proof (Pst (lidx x y t)) as Hstat. rewrite Hf, zget_repaired, Hb in Hstat. cbn in Hstat.
    rewrite repair_state_static in Hstat. unfold static_part in Hstat. injection Hstat as Sp Sl _ _ _ Sf Sn.
    apply unchanged_spec in Hun as (U1 & U2 & U3 & U4 & U5 & U6).
    exists f, (with_value s (s_total_cost f) (s_optimal_action f)). split; [done|]. split; [done|].
    assert (policy_invalidated (with_value s (s_total_cost f) (s_optimal_action f)) = false) as Hps.
    { unfold policy_invalidated in *. cbn. by rewrite U3, U4, <- Sf, <- Sn. }
    unfold repair_state. rewrite Hps. split; [unfold same_entry; cbn; repeat split; congruence|].
    intros _. split; [done|]. split; [done|]. split; [done|]. unfold updatable. cbn. congruence.
  - exists (repair_state b), s. split.
    { rewrite Pout, zget_repaired, Hb; [done|]. intros (x' & y' & t' & Hc & Ht' & E)%elem_of_job_order.
      destruct (shape_cells g before j x' y' H Hc). destruct Hxy. by apply (index_inj _ ly) in E as (-> & -> & _); [|lia..]. }
    split.
    { pose proof (si_out _ _ _ _ _ _ Hst (gidx x y t)) as Ho. cbn in Ho. rewrite Ho; [done|].
      intros x' y' t' Hc Ht' E. apply (gidx_inj g before j H) in E as (-> & -> & _); [done|done|by apply (shape_cells g before)|done|done]. }
    split; [symmetry; by apply unchanged_repaired|done].
Qed.

(** Every state of the window is consistent with the live field. *)
Lemma certified_good i s :
  zget st' i = Some s → updatable s = true → (s_ix s, s_iy s) ∈ m_owned (co_global c) → good g st' s.
Proof.
  intros Hi Hu Hown. pose proof (ll_cells _ _ _ _ Hlive _ _ Hown) as Hin.
  pose proof (si_wf _ _ _ _ _ _ Hst) as Hwf. cbn in Hwf.
  destruct (ws_state _ _ _ _ Hwf _ _ Hi) as [Sx Sy Sth Si _ _ _].
  set (x := s_ix s - ox) in *. set (y := s_iy s - oy) in *. set (t := s_it s) in *.
  assert (s_ix s = ox + x ∧ s_iy s = oy + y) as [Ex Ey] by lia. rewrite Ex, Ey in Si.
  pose proof (shape_cells g before j x y H Hin) as Hxy. destruct (lh_cells _ _ _ H x y Hin) as [_ Hbox].
  destruct (stored_column x y t Hxy Sth) as (f & s1 & Hf & Hs1 & _ & Hc). rewrite <- Si, Hi in Hs1. injection Hs1 as <-.
  destruct (Hc Hin) as (Hp & Ecost & Eopt & Eup). split; [done|left].
  destruct (local_dims g before j H) as [[J1 J2 J3 _] HF]. pose proof Hxy as [Hx Hy].
  destruct (ws_state _ _ _ _ HF _ _ Hf) as [Fx Fy Ft Fi _ _ _].
  apply (index_inj _ ly) in Fi as (Fx' & Fy' & Ft'); [|done..].
  destruct (pr_zero _ _ _ _ _ _ _ _ final_pass Hzero) as [_ Hcons].
  assert (consistent lx ly (g_nt g) (g_acts g) F f) as Hf'.
  { apply (Hcons (lidx x y t)); [|done|by rewrite <- Eup]. apply elem_of_job_order. by exists x, y, t. }
  unfold g_bellman. rewrite <- (sees_bellman (g_nt g) (g_acts g) lx ly (g_nx g) (g_ny g) F (repaired st') f).
  { rewrite Ecost, Eopt. exact Hf'. }
  apply (box_sees g ox oy); [apply Hok|done|done|by rewrite <- Fx'|by rewrite <- Fy'|apply (local_map g before j H)|by rewrite <- Fx', <- Fy'|].
  intros x' y' t' Hm _ Ht'. destruct (stored_column x' y' t' Hm Ht') as (f' & s2 & ? & Hs2 & ? & _).
  exists f', (repair_state s2). rewrite zget_repaired, Hs2. done.
Qed.
End certificate.

(** ** The whole commit *)

Lemma repair_inv_less g N W c o ls ls' :
  repair_inv g N W c o ls → (∀ i, i ∈ ls' → i ∈ ls) → repair_inv g N W c o ls'.
Proof. intros [] Hin. split; try done. auto. Qed.

(** The job is forgotten, the field left alone. *)
Lemma forget_keeps g N W c o ls ls' :
  repair_inv g N W c o ls → (∀ i, i ∈ ls' → i ∈ ls) →
  repair_inv g N W (on_manager (fun m => with_local_in_flight m None) c) o ls'.
Proof.
  intros H Hin. destruct (ri_cached _ _ _ _ _ _ H) as (cg & Hcg & Hw). pose proof (ri_office _ _ _ _ _ _ H) as Hoff.
  eapply (repair_inv_queue g N N W c _ o ls ls' cg); [exact H| |exact Hcg|exact Hw| |apply H| |done..|apply H|apply H|apply H|].
  - by destruct (ri_ok _ _ _ _ _ _ H).
  - apply (office_calm g c); [done|done|done|apply Hoff|]. intros Hc. by destruct (of_cert _ _ Hoff Hc) as (? & ? & _).
  - intros i Hi. apply (local_ok_calm g c); [by apply H, Hin|unfold counters_grow; cbn; lia|done..|]. by intros [? _].
  - intros i s _ _ Hc. by right.
Qed.

Section commit.
Context (g : geo) (N : Z) (W : gset (Z * Z)) (c : PlannerCore) (o : option GlobalJob) (ls ls' : list LocalJob) (cg : CachedGoal).
Context (before : list State) (j : LocalJob).
Context (H : repair_inv g N W c o ls) (Hless : ∀ i, i ∈ ls' → i ∈ ls) (Hcg : co_cached c = Some cg).
Context (Hj : local_shape g before j) (Hran : lj_ran j = true).
Context (st' : list State) (changed : list (Z * Z)).
Context (Hst : store_inv g c cg j (lj_cells j) (restates (cg_field cg) st', changed)).

#[local] Abbreviation ox := (lj_origin j).1.
#[local] Abbreviation oy := (lj_origin j).2.

(** What moved is among the cells the commit queues. *)
Lemma local_changes sw :
  (∀ x y, in_map (g_nx g) (g_ny g) x y → (x, y) ∈ changed → seeded sw x y = true) → changes_at g (states c) st' sw.
Proof.
  intros Hq. pose proof (states_wf g c cg (ri_ok _ _ _ _ _ _ H) Hcg) as Hw. pose proof (si_wf _ _ _ _ _ _ Hst) as Hw'. cbn in Hw'.
  split; [by rewrite (ws_len _ _ _ _ Hw), (ws_len _ _ _ _ Hw')|]. intros k b Hb.
  destruct (column_of g _ _ _ Hw Hb) as (Hxy & Ht & Ek).
  assert (ox + (s_ix b - ox) = s_ix b ∧ oy + (s_iy b - oy) = s_iy b) as [Ex Ey] by lia.
  destruct (decide ((s_ix b - ox, s_iy b - oy) ∈ lj_cells j)) as [Hin|Hno].
  - destruct (si_cell _ _ _ _ _ _ Hst _ _ Hin _ Ht) as (s & f & Hs & _ & Hs' & Hmv). cbn in Hs', Hmv.
    rewrite Ex, Ey in *. rewrite <- Ek in *. rewrite Hb in Hs. injection Hs as <-. eexists. split; [exact Hs'|].
    split; [done|]. destruct (decide (s_total_cost b = s_total_cost f)) as [E1|]; [|right; auto].
    destruct (decide (s_optimal_action b = s_optimal_action f)) as [E2|]; [|right; auto].
    left. rewrite <- E1, <- E2. apply with_value_self.
  - exists b. split; [|auto]. pose proof (si_out _ _ _ _ _ _ Hst k) as Ho. cbn in Ho. rewrite Ho; [done|].
    intros x y t Hin Ht' E. apply Hno. pose proof (shape_cells g before j x y Hj Hin) as Hm.
    destruct (local_map g before j Hj x y Hm), Hxy. rewrite Ek in E.
    apply (index_inj _ (g_ny g)) in E as (-> & -> & _); [|done..].
    by replace (ox + x - ox) with x by lia; replace (oy + y - oy) with y by lia.
Qed.

Lemma local_statics k b' :
  zget st' k = Some b' → ∃ b, zget (states c) k = Some b ∧ static_part b' = static_part b.
Proof.
  intros Hb'. pose proof (states_wf g c cg (ri_ok _ _ _ _ _ _ H) Hcg) as Hw. pose proof (si_wf _ _ _ _ _ _ Hst) as Hw'. cbn in Hw'.
  destruct (column_of g _ _ _ Hw' Hb') as (Hxy & Ht & Ek).
  assert (ox + (s_ix b' - ox) = s_ix b' ∧ oy + (s_iy b' - oy) = s_iy b') as [Ex Ey] by lia.
  destruct (decide ((s_ix b' - ox, s_iy b' - oy) ∈ lj_cells j)) as [Hin|Hno].
  - destruct (si_cell _ _ _ _ _ _ Hst _ _ Hin _ Ht) as (s & f & Hs & _ & Hs' & _). cbn in Hs'.
    rewrite Ex, Ey in *. rewrite <- Ek in *. rewrite Hb' in Hs'. injection Hs' as ->. by exists s.
  - exists b'. split; [|done]. rewrite <- Hb'. symmetry. pose proof (si_out _ _ _ _ _ _ Hst k) as Ho. cbn in Ho. apply Ho.
    intros x y t Hin Ht' E. apply Hno. pose proof (shape_cells g before j x y Hj Hin) as Hm.
    destruct (local_map g before j Hj x y Hm), Hxy. rewrite Ek in E.
    apply (index_inj _ (g_ny g)) in E as (-> & -> & _); [|done..].
    by replace (ox + x - ox) with x by lia; replace (oy + y - oy) with y by lia.
Qed.

(** The core after the commit, before it settles: certified or not. *)
Lemma local_commit_inv c' (cert : bool) :
  core_ok g c' → co_build c' = co_build c → co_cached c' = Some (with_field cg (restates (cg_field cg) st')) →
  ds_cands (co_sweep c') = ds_cands (co_sweep c) → ds_pos (co_sweep c') = ds_pos (co_sweep c) →
  ds_reach (co_sweep c') = ds_reach (co_sweep c) →
  (∀ x y, in_map (g_nx g) (g_ny g) x y → (seeded (co_sweep c') x y = true ↔ seeded (co_sweep c) x y = true ∨ (x, y) ∈ changed)) →
  (∃ d, co_global c' = with_deferred (with_certified (with_local_in_flight (co_global c) None) cert) d ∧
     d = if cert then ∅ else m_deferred (co_global c)) →
  (cert = true → lj_delta j = 0 ∧ live_link g c before j) →
  repair_inv g N W c' o ls' ∧ is_partial c' = is_partial c.
Proof.
  intros Hok' Ebu Ec E1 E2 E3 Hq (d & Eg & Ed) Hcert.
  destruct (ri_cached _ _ _ _ _ _ H) as (cg0 & Hcg0 & Hw). rewrite Hcg in Hcg0. injection Hcg0 as <-.
  pose proof (ri_office _ _ _ _ _ _ H) as Hoff. pose proof (ri_ok _ _ _ _ _ _ H) as Hok.
  assert (states c' = st') as Es by (unfold states, local; by rewrite Ec).
  assert (cert = true → ∀ i s, zget st' i = Some s → updatable s = true → (s_ix s, s_iy s) ∈ m_owned (co_global c) → good g st' s)
    as Hgood by (intros [Hz Hl]%Hcert i s; by apply (certified_good g c cg before j Hok Hcg Hj Hran Hz Hl st' changed Hst)).
  split; [|unfold is_partial; by rewrite Ec, Hcg].
  eapply (repair_inv_change g N N W c c' o ls'); [by apply (repair_inv_less g N W c o ls)|done|exact Ec|done| | | |done..| | | | | | |];
    rewrite ?Eg, ?Es; try done.
  - split; rewrite ?Eg, ?Es; cbn.
    + rewrite (claimed_same c c' (cg_field cg) (restates (cg_field cg) st')); [apply Hoff|done|by rewrite Eg| | |done].
      * unfold local. by rewrite Hcg.
      * unfold local. by rewrite Ec.
    + rewrite Ed. pose proof (of_defer _ _ Hoff). destruct cert; set_solver.
    + intros ->. split; [|split; [done|by apply Hgood]]. destruct (Hcert eq_refl) as [_ Hl].
      unfold pending_states. rewrite Eg. exact (ll_drained _ _ _ _ Hl).
  - unfold counters_ok. rewrite Eg. apply H.
  - intros i Hi. apply (local_ok_stale g c); [by apply H, Hless|unfold counters_grow; rewrite Eg; cbn; lia|].
    unfold accepted. rewrite Eg. by intros [? _].
  - intros x y Hxy Hs. apply Hq; [done|by left].
  - unfold table_ok, pending_states. rewrite Eg. apply H.
  - unfold pending_states. rewrite Eg. apply H.
  - apply (uniform_values (states c)); [apply H|apply local_statics].
  - apply local_changes. intros x y Hxy Hin. apply Hq; [done|by right].
  - intros i s Hi Hu [Ho _]. destruct cert; [left; left; by apply (Hgood eq_refl i)|]. do 4 right. unfold in_hand. by rewrite Eg.
Qed.
End commit.

(** A commit either leaves the field alone, or publishes the job and certifies
    the window when nothing moved. *)
Lemma commit_local_full g N W c o ls j ls' :
  repair_inv g N W c o ls → j ∈ ls → (∀ i, i ∈ ls' → i ∈ ls) →
  ∃ c' r, commit_local_job j c = Ok (c', r) ∧ repair_inv g N W c' o ls' ∧
    (is_partial c = true → is_partial c' = false → idle c') ∧
    (r = None ∧ states c' = states c
     ∨ accepted c j ∧ ∃ cg before st' changed, co_cached c = Some cg ∧ local_shape g before j ∧
         store_inv g c cg j (lj_cells j) (restates (cg_field cg) st', changed) ∧ states c' = st' ∧
         ∀ x y, in_map (g_nx g) (g_ny g) x y → (x, y) ∈ changed → seeded (co_sweep c') x y = true).
Proof.
  intros H Hin Hless. unfold commit_local_job. destruct (negb _ || _ || _) eqn:Erej.
  { eexists _, None. split; [done|]. clear Erej. case_bool_decide.
    - split; [by apply (forget_keeps g N W c o ls)|]. split; [|by left].
      intros Hp. change (is_partial c = false → idle (on_manager (fun m => with_local_in_flight m None) c)). congruence.
    - split; [by apply (repair_inv_less g N W c o ls)|]. split; [congruence|by left]. }
  rewrite !orb_false_iff, !negb_false_iff, !bool_decide_eq_true, Z.eqb_eq in Erej. destruct Erej as [[Eep Eow] Efl].
  destruct (negb (lj_ran j) || _) eqn:Estale.
  { eexists _, None. split; [done|]. split; [by apply (forget_keeps g N W c o ls)|]. split; [|by left].
    intros Hp. change (is_partial c = false → idle (on_manager (fun m => with_local_in_flight m None) c)). congruence. }
  rewrite orb_false_iff, !negb_false_iff, Z.eqb_eq in Estale. destruct Estale as [Eran Erev].
  destruct (ri_cached _ _ _ _ _ _ H) as (cg & Hcg & Hw). pose proof (ri_ok _ _ _ _ _ _ H) as Hok.
  destruct (ri_local _ _ _ _ _ _ H j Hin) as (_ & _ & before & Hj & Hlink).
  set (cA := on_manager (fun m => with_local_in_flight m None) c).
  assert (local cA = Some (cg_field cg)) as -> by (unfold local; cbn; by rewrite Hcg).
  destruct (store_cells g c cg before j Hok Hcg Hj) as (st' & changed & -> & Hst). rewrite ok_bind.
  set (cB := with_local cA (restates (cg_field cg) st')).
  assert (co_cached cB = Some (with_field cg (restates (cg_field cg) st'))) as HcB by (cbn; by rewrite Hcg).
  assert (core_ok g cB) as HokB.
  { destruct Hok as [? ? ? ? Hf]. split; try done. rewrite HcB. intros ? [= <-]. cbn.
    destruct (Hf _ Hcg) as ([Hd Hs Ha] & Ex & Ey & Et & Ea). split; [|done]. split; cbn; [done| |done].
    rewrite Ex, Ey, Et. exact (si_wf _ _ _ _ _ _ Hst). }
  destruct (enqueue_cells_spec g changed cB HokB) as (cC & -> & HokC & Hq). rewrite ok_bind.
  pose proof (queues_frame _ _ _ _ Hq) as (Ebu & _ & Ec & Eg & E1 & E2 & E3). rewrite HcB in Ec.
  destruct Hq as (_ & _ & _ & Hq). set (cert := _ && _).
  set (cD := if cert then _ else _).
  assert (co_build cD = co_build cC ∧ co_cached cD = co_cached cC ∧ co_sweep cD = co_sweep cC ∧
    co_global cD = with_deferred (with_certified (co_global cC) cert) (if cert then ∅ else m_deferred (co_global cC)))
    as (D1 & D2 & D3 & D4) by (unfold cD; by destruct cert).
  assert (repair_inv g N W cD o ls' ∧ is_partial cD = is_partial c) as [HD Ep].
  { apply (local_commit_inv g N W c o ls ls' cg before j H Hless Hcg Hj Eran st' changed Hst cD cert); rewrite ?D3; try done.
    - destruct HokC. split; rewrite ?D1, ?D2, ?D3; done.
    - by rewrite D1, Ebu.
    - by rewrite D2.
    - eexists. split; [rewrite D4, Eg; done|]. by destruct cert.
    - intros Hc. unfold cert in Hc. apply andb_true_iff in Hc as [Hz%Z.eqb_eq Hb%Z.eqb_eq]. split; [done|].
      apply Hlink. cbn in Hb. rewrite Eg in Hb. by split; [split|]. }
  destruct (settle_keeps g N W cD o ls' HD) as [HE Hidle]. eexists _, _. split; [done|]. split; [exact HE|]. split.
  { intros Hp Hp'. apply Hidle; [by rewrite Ep|done]. }
  right. split; [by split|]. exists cg, before, st', changed. split; [done|]. split; [done|]. split; [done|].
  destruct (settle_global_spec cD) as (c' & b & -> & _ & _ & _ & Es & Eseed & _). cbn [fst]. split.
  - rewrite Es. unfold states, local. by rewrite D2, Ec.
  - intros x y Hxy Hch. unfold seeded. rewrite Eseed, D3. apply Hq; [done|by right].
Qed.

Lemma commit_local_keeps g N W c o ls j ls' :
  repair_inv g N W c o ls → j ∈ ls → (∀ i, i ∈ ls' → i ∈ ls) →
  ∃ c' r, commit_local_job j c = Ok (c', r) ∧ repair_inv g N W c' o ls' ∧
    (is_partial c = true → is_partial c' = false → idle c').
Proof. intros H Hin Hl. destruct (commit_local_full g N W c o ls j ls' H Hin Hl) as (c' & r & ? & ? & ? & _). eauto. Qed.
