(* ===== verification/RepairSpec.v ===== *)
(** * When the repair says it is done, the field is a fixed point

    The core, the global job and the local jobs that are out, as one state; the
    calls of the two workers and of the control tick as its steps
    ([repair_step]), in any order; and what holds when a step declares the
    field complete.  A commit of a job of which the window has taken cells over
    can leave a cell behind; a history beside the run ([watched_step]) names the
    cells, and a run shows that it happens. *)

From Stdlib Require Import ZArith Lia.
From stdpp Require Import base gmap strings list numbers relations.
From S2P Require Import Prelude Floats Model Bellman Consistency Original Bitboard BitboardOps BitboardEnum Active MapSetup LocalPlanner LocalSpec LocalScan Planner Solve Core CoreSpec Invalidate GlobalJob LocalJob Repair RepairJob RepairCommit RepairPrepare LocalRun RepairInv RepairLoop RepairInputs RepairOwner RepairLocal.

(** ** The steps *)

(** The core, the job of the global worker, and the jobs of local workers
    (that of an old owner may come back late). *)
Record System : Type := mkSystem {
  sy_core : PlannerCore;
  sy_job : option GlobalJob;
  sy_local : list LocalJob
}.

Section steps.
Context (cos sin : f64 → f64).

(** A call on the core only. *)
Inductive core_step : PlannerCore → PlannerCore → Prop :=
  | step_restart c c' b : restart_global_check c = Ok (c', b) → core_step c c'
  | step_drain n c c' b : advance_invalidations n c = Ok (c', b) → core_step c c'
  | step_scan fuel scan pose shift c c' : observe_scan_gated cos sin fuel scan pose shift c = Ok c' → core_step c c'
  | step_sigma sigma c c' : core_inflate_by_sigma sigma c = Ok c' → core_step c c'
  | step_window pose c c' : set_window cos sin pose c = Ok c' → core_step c c'
  | step_claim c c' w : claim_local c = Ok (c', w) → core_step c c'
  | step_release w c c' : release_local w c = Ok c' → core_step c c'.

Inductive repair_step : System → System → Prop :=
  | step_core c c' o ls : core_step c c' → repair_step (mkSystem c o ls) (mkSystem c' o ls)
  | step_prepare n c o ls c' r : prepare_global_job n c = Ok (c', r) →
      repair_step (mkSystem c o ls) (mkSystem c' (match r with Some j => Some j | None => o end) ls)
  | step_run c j ls j' : job_run j = Ok j' → repair_step (mkSystem c (Some j) ls) (mkSystem c (Some j') ls)
  | step_commit c j ls c' d b : commit_global_job j c = Ok (c', d, b) →
      repair_step (mkSystem c (Some j) ls) (mkSystem c' None ls)
  | step_prepare_local c o ls c' r : prepare_local_job c = Ok (c', r) →
      repair_step (mkSystem c o ls) (mkSystem c' o (match r with Some j => j :: ls | None => ls end))
  | step_run_local c o l1 j l2 j' : local_run j = Ok j' →
      repair_step (mkSystem c o (l1 ++ j :: l2)) (mkSystem c o (l1 ++ j' :: l2))
  | step_run_parallel clocks threads c o l1 j l2 j' b : local_run_parallel clocks threads j = Ok (j', b) →
      repair_step (mkSystem c o (l1 ++ j :: l2)) (mkSystem c o (l1 ++ j' :: l2))
  | step_commit_local c o l1 j l2 c' r : commit_local_job j c = Ok (c', r) →
      repair_step (mkSystem c o (l1 ++ j :: l2)) (mkSystem c' o (l1 ++ l2)).

(** The field of the early start: not solved to the end, every cell queued,
    nobody at work, the counters at most [N]. *)
Record repair_start (g : geo) (N : Z) (c : PlannerCore) : Prop := {
  rs_ok : core_ok g c;
  rs_fits : reach_fits g;
  rs_cached : ∃ cg, co_cached c = Some cg ∧ window_in_map (cg_field cg);
  rs_free : let m := co_global c in
    m_owner m = None ∧ m_owned m = ∅ ∧ m_deferred m = ∅ ∧ m_in_flight m = None ∧ m_local_in_flight m = None;
  rs_count : counters_ok N c;
  rs_reach : ∀ r, ds_reach (co_sweep c) = Some r → r = reach_of (g_acts g);
  rs_idle : pending_states c = [] ∧ NoDup (ds_cands (co_sweep c));
  rs_table : table_ok g c;
  rs_uniform : uniform (states c);
  rs_seeded : ∀ x y, in_map (g_nx g) (g_ny g) x y → seeded (co_sweep c) x y = true
}.

Definition system_inv (g : geo) (N : Z) (W : gset (Z * Z)) (y : System) : Prop :=
  repair_inv g N W (sy_core y) (sy_job y) (sy_local y).

Lemma start_inv g N c : repair_start g N c → system_inv g N ∅ (mkSystem c None []).
Proof.
  intros [Hok Hfit (cg & Hcg & Hw) (F1 & F2 & F3 & F4 & F5) Hn Hr (Hp & Hnd) Ht Hu Hs].
  pose proof (states_wf g c cg Hok Hcg) as Hst. split; cbn; try done.
  - by exists cg.
  - split; [unfold claimed_cells; by rewrite F1, F2|by rewrite F2, F3|]. intros _. split; [done|]. split; [done|].
    rewrite F2. intros i s _ _ Hin. by apply elem_of_empty in Hin.
  - intros j Hj. by apply elem_of_nil in Hj.
  - rewrite Hp. by intros m ?%elem_of_nil.
  - intros i s Hi _. right. left. apply seed_near; [|apply Hs]; apply (column_of g _ _ _ Hst Hi).
Qed.

Lemma core_step_keeps g N W c c' o ls :
  core_step c c' → repair_inv g N W c o ls → N + 1 < 2 ^ 64 →
  repair_inv g (N + 1) W c' o ls ∧ is_partial c' = is_partial c.
Proof.
  intros [c0 c1 b E|n c0 c1 b E|fuel scan pose shift c0 c1 E|sigma c0 c1 E|pose c0 c1 E|c0 c1 w E|w c0 c1 E] H HN.
  - destruct (restart_keeps g N W c0 o ls H) as (c2 & b2 & E2 & H2 & Hp). rewrite E in E2. injection E2 as <- <-.
    split; [apply (repair_inv_more g N); [done|lia]|done].
  - destruct (drain_keeps g N W c0 o ls n H) as (c2 & b2 & E2 & H2 & _ & Hp). rewrite E in E2. injection E2 as <- <-.
    split; [apply (repair_inv_more g N); [done|lia]|done].
  - by apply (scan_keeps cos sin g N W c0 o ls fuel scan pose shift).
  - by apply (sigma_keeps g N W c0 o ls sigma).
  - by apply (window_keeps cos sin g N W c0 o ls H HN pose).
  - destruct (claim_keeps g N W c0 o ls H HN) as (c2 & w2 & E2 & H2). rewrite E in E2. by injection E2 as <- <-.
  - destruct (release_keeps g N W c0 o ls H HN w) as (c2 & E2 & H2). rewrite E in E2. by injection E2 as <-.
Qed.

(** Replacing a local job by what its run made of it. *)
Lemma replace_local g N W c o l1 j j' l2 :
  repair_inv g N W c o (l1 ++ j :: l2) → local_ok g c j' → repair_inv g N W c o (l1 ++ j' :: l2).
Proof.
  intros H Hj. assert (∀ i, i ∈ l1 ++ j' :: l2 → local_ok g c i) as Hl.
  { intros i [Hi|[->|Hi]%elem_of_cons]%elem_of_app; [|done|]; apply H, elem_of_app; [by left|by right; right]. }
  by destruct H; split.
Qed.

Lemma mid_elem {A} (l1 l2 : list A) x : x ∈ l1 ++ x :: l2.
Proof. apply elem_of_app. right. left. Qed.

(** What a step does to the invariant: only a commit of a global job adds to the
    cells left behind, and only an idle core completes the field. *)
Lemma step_effect g N W y y' :
  repair_step y y' → system_inv g N W y → N + 1 < 2 ^ 64 →
  (system_inv g (N + 1) W y' ∨ ∃ j, sy_job y = Some j ∧ sy_job y' = None ∧ system_inv g (N + 1) (W ∪ beside g (sy_core y) j) y') ∧
  (is_partial (sy_core y) = true → is_partial (sy_core y') = false → idle (sy_core y')).
Proof.
  unfold system_inv.
  intros [c c' o ls E|n c o ls c' r E|c j ls j' E|c j ls c' d b E|c o ls c' r E|c o l1 j l2 j' E
    |clocks threads c o l1 j l2 j' b E|c o l1 j l2 c' r E]; cbn [sy_core sy_job sy_local]; intros H HN.
  - destruct (core_step_keeps g N W c c' o ls E H HN) as [? ?]. split; [by left|congruence].
  - destruct o as [j|].
    + destruct (prepare_busy g N W c j n ls H) as (c1 & E1 & ? & ?). rewrite E in E1. injection E1 as <- ->.
      split; [left; apply (repair_inv_more g N); [done|lia]|congruence].
    + destruct (prepare_keeps g N W c n ls H HN) as (c1 & o & E1 & H1 & Hp). rewrite E in E1. injection E1 as <- <-.
      assert (match r with Some j => Some j | None => None end = r) as -> by by destruct r. split; [by left|done].
  - destruct (run_keeps g N W c j ls H) as (j1 & E1 & H1). rewrite E in E1. injection E1 as <-.
    split; [left; apply (repair_inv_more g N); [done|lia]|congruence].
  - destruct (commit_keeps g N W c j ls H HN) as (c1 & d1 & b1 & E1 & H1 & Hp & _). rewrite E in E1. injection E1 as <- <- <-.
    split; [right; by exists j|done].
  - destruct (prepare_local_keeps g N W c o ls H HN) as (c1 & r1 & E1 & H1 & Hp). rewrite E in E1. injection E1 as <- <-.
    split; [by left|congruence].
  - destruct (local_run_keeps g c j) as (j1 & E1 & Hj); [apply H, mid_elem|]. rewrite E in E1. injection E1 as <-.
    split; [left|congruence]. apply (repair_inv_more g N); [|lia]. by apply (replace_local g N W c o l1 j).
  - destruct (local_parallel_keeps g c j clocks threads) as (j1 & b1 & E1 & Hj); [apply H, mid_elem|].
    rewrite E in E1. injection E1 as <- <-.
    split; [left|congruence]. apply (repair_inv_more g N); [|lia]. by apply (replace_local g N W c o l1 j).
  - destruct (commit_local_keeps g N W c o _ j (l1 ++ l2) H (mid_elem l1 l2 j)) as (c1 & r1 & E1 & H1 & Hp).
    { intros i [?|?]%elem_of_app; apply elem_of_app; [by left|by right; right]. }
    rewrite E in E1. injection E1 as <- <-. split; [left; apply (repair_inv_more g N); [done|lia]|done].
Qed.

(** ** The history of a run *)

(** The cells a step may leave behind: those of a committed job beside the cells
    the window has taken over; and what is left behind after the step: a cell
    near a queued one no longer is. *)
Definition overtaken_by (g : geo) (y y' : System) : gset (Z * Z) :=
  match sy_job y, sy_job y' with Some j, None => beside g (sy_core y) j | _, _ => ∅ end.

Definition left_behind (g : geo) (W : gset (Z * Z)) (y y' : System) : gset (Z * Z) :=
  rechecked g (sy_core y') (W ∪ overtaken_by g y y').

Inductive watched_step (g : geo) : System * gset (Z * Z) → System * gset (Z * Z) → Prop :=
  | watch y y' W : repair_step y y' → watched_step g (y, W) (y', left_behind g W y y').

(** The history does not get in the way. *)
Lemma watch_steps g n y y' W :
  nsteps repair_step n y y' → ∃ W', nsteps (watched_step g) n (y, W) (y', W').
Proof.
  intros H. revert W. induction H as [y|n y1 y2 y3 Hs _ IH]; intros W; [exists W; constructor|].
  destruct (IH (left_behind g W y1 y2)) as [W' HW]. exists W'. econstructor; [by constructor|done].
Qed.

Lemma forget_steps g n p p' : nsteps (watched_step g) n p p' → nsteps repair_step n p.1 p'.1.
Proof.
  intros H. induction H as [p|n p1 p2 p3 Hs _ IH]; [constructor|]. destruct Hs as [y y' W Hs]. by econstructor.
Qed.

Lemma watched_keeps g N W y y' :
  repair_step y y' → system_inv g N W y → N + 1 < 2 ^ 64 →
  system_inv g (N + 1) (left_behind g W y y') y' ∧
  (is_partial (sy_core y) = true → is_partial (sy_core y') = false → idle (sy_core y')).
Proof.
  intros Hs H HN. destruct (step_effect g N W y y' Hs H HN) as [Hy Hidle]. split; [|done].
  apply repair_inv_recheck. destruct Hy as [Hy|(j & E & E' & Hy)].
  - apply (repair_inv_behind _ _ W); [exact Hy|apply union_subseteq_l].
  - assert (overtaken_by g y y' = beside g (sy_core y) j) as -> by (unfold overtaken_by; by rewrite E, E'). exact Hy.
Qed.

Lemma steps_keep g N n p p' :
  nsteps (watched_step g) n p p' → system_inv g N p.2 p.1 → N + Z.of_nat n < 2 ^ 64 →
  system_inv g (N + Z.of_nat n) p'.2 p'.1.
Proof.
  intros Hs. revert N. induction Hs as [p|n p1 p2 p3 Hs _ IH]; intros N H HN; [by rewrite Z.add_0_r|].
  replace (N + Z.of_nat (S n)) with (N + 1 + Z.of_nat n) by lia. apply IH; [|lia].
  destruct Hs as [y y' W Hs]. apply (watched_keeps g N W y y' Hs H). lia.
Qed.

(** ** What a complete field is *)

(** A further update of the solver at [i] would store what is there, or the
    state is unreached and reads unreached cells only. *)
Definition settled (g : geo) (vi : ValueIterator) (i : Z) : Prop :=
  value_iteration_at vi i = Ok (vi, 0) ∨ ∃ s, zget (vi_states vi) i = Some s ∧ quiet g (vi_states vi) s.

Lemma update_same nx ny nt acts st i s :
  zget st i = Some s → bellman nx ny nt acts st s = (s_total_cost s, s_optimal_action s) →
  update nx ny nt acts st i = st ∧ delta nx ny nt acts st i = 0.
Proof.
  intros Hs Hb. unfold update, delta. rewrite Hs, Hb. cbn [fst snd]. rewrite with_value_self.
  split.
  - destruct (updatable s); [|done]. apply zget_ext; [apply zlen_zset|]. intros k _.
    pose proof (zget_Some_lt _ _ _ Hs). rewrite zget_zset by done. by case_decide; subst.
  - destruct (updatable s); [|done]. by rewrite Z.sub_diag.
Qed.

Lemma complete_good g N W c cg ls :
  repair_inv g N W c None ls → idle c → co_cached c = Some cg →
  pending_states c = [] ∧ repaired (states c) = states c ∧
  ∀ i s, zget (states c) i = Some s → policy_invalidated s = false ∧ (updatable s = true → fine g W (states c) s).
Proof.
  intros H (Hq & _ & _ & Hfree & _) Hcg. unfold global_queued in Hq. apply orb_false_iff in Hq as [Hq Hboard].
  apply orb_false_iff in Hq as [Hinv Hpos].
  assert (∀ x y, in_map (g_nx g) (g_ny g) x y → ¬ covered g c None x y) as Hcov.
  { intros x y Hxy [(a & b & Hm & Hs & _)|[Hr|[[]|[Ho Hc]]]].
    - unfold seeded in Hs. destruct (ds_pending (co_sweep c)) as [bb|] eqn:Eb; [|done].
      destruct (sk_board _ _ _ (ck_sweep _ _ (ri_ok _ _ _ _ _ _ H)) bb Eb) as (Hwf & Ex & Ey).
      destruct (geo_bounds g c (ri_ok _ _ _ _ _ _ H)) as ([? _] & _).
      assert (0 < bb2_popcount bb); [|lia]. apply popcount2_pos; [done|lia|]. exists a, b.
      split; [|done]. destruct Hm. unfold in2. rewrite Ex, Ey. lia.
    - unfold remaining in Hr. rewrite drop_ge in Hr by (unfold zlen in Hpos; lia). by apply elem_of_nil in Hr.
    - destruct Hfree as [He|Hce]; [|congruence]. rewrite He in Ho. by apply elem_of_empty in Ho. }
  pose proof (states_wf g c cg (ri_ok _ _ _ _ _ _ H) Hcg) as Hst.
  assert (∀ i s, zget (states c) i = Some s → updatable s = true → fine g W (states c) s) as Hgood.
  { intros i s Hi Hu. destruct (ri_cov _ _ _ _ _ _ H i s Hi Hu) as [?|Hc]; [done|].
    destruct (Hcov _ _ (proj1 (column_of g _ _ _ Hst Hi)) Hc). }
  assert (∀ i s, zget (states c) i = Some s → policy_invalidated s = false) as Hpol.
  { intros i s Hi. destruct (updatable s) eqn:Eu; [by destruct (Hgood i s Hi Eu) as [[? _]|[_ ?]]|]. unfold policy_invalidated, updatable in *.
    by rewrite Eu. }
  split; [|split; [|by eauto]].
  - unfold invalidating in Hinv. unfold pending_states. by destruct (inv_pending _).
  - apply zget_ext; [unfold repaired; apply zlen_fmap|]. intros i _. rewrite zget_repaired.
    destruct (zget (states c) i) as [s|] eqn:E; [|done]. cbn. f_equal. unfold repair_state. by rewrite (Hpol i s E).
Qed.

(** The field of an idle core, at every state. *)
Lemma idle_settled g N W c o ls :
  repair_inv g N W c o ls → idle c →
  o = None ∧ pending_states c = [] ∧ ∃ l, local c = Some l ∧
    ∀ i s, zget (vi_states (lv_base l)) i = Some s →
      policy_invalidated s = false ∧ (settled g (lv_base l) i ∨ (s_ix s, s_iy s) ∈ W).
Proof.
  intros H Hidle. pose proof Hidle as (_ & Hfl & _). rewrite (ri_flight _ _ _ _ _ _ H) in Hfl.
  destruct o as [j|]; [done|]. split; [done|]. destruct (ri_cached _ _ _ _ _ _ H) as (cg & Hcg & Hw).
  destruct (complete_good g N W c cg ls H Hidle Hcg) as (Hpend & Hrep & Hall). split; [done|].
  exists (cg_field cg). split; [unfold local; by rewrite Hcg|].
  assert (states c = vi_states (lv_base (cg_field cg))) as Est by (unfold states, local; by rewrite Hcg).
  rewrite Est in Hall, Hrep. destruct (ck_field _ _ (ri_ok _ _ _ _ _ _ H) _ Hcg) as (Hwf & Ex & Ey & Et & Ea).
  intros i s Hi. destruct (Hall i s Hi) as [Hpol Hgood]. split; [done|].
  pose proof (zget_Some_lt _ _ _ Hi) as Hr. unfold settled. rewrite value_iteration_at_eq by done.
  destruct (updatable s) eqn:Eu.
  - destruct (Hgood eq_refl) as [[_ [Hb|Hquiet]]|[Hbh _]]; rewrite ?Hrep in *; [left; left|left; right; eauto|by right].
    unfold g_bellman in Hb. rewrite <- Ex, <- Ey, <- Et, <- Ea in Hb.
    destruct (update_same _ _ _ _ _ _ _ Hi Hb) as [-> ->]. f_equal. f_equal. by destruct (lv_base _).
  - left. left. unfold update, delta. rewrite Hi, Eu. f_equal. f_equal. by destruct (lv_base _).
Qed.
End steps.

(** ** The theorem *)

Definition returned {A} (r : res A) : bool := match r with Ok _ => true | _ => false end.

(** None of the workers' calls panics. *)
Definition workers_return (y : System) : Prop :=
  let c := sy_core y in
  (∀ n, returned (prepare_global_job n c) = true) ∧ returned (prepare_local_job c) = true ∧
  returned (claim_local c) = true ∧ (∀ w, returned (release_local w c) = true) ∧
  (∀ j, sy_job y = Some j → returned (job_run j) = true ∧ returned (commit_global_job j c) = true) ∧
  ∀ j, j ∈ sy_local y → returned (local_run j) = true ∧ returned (commit_local_job j c) = true ∧
    ∀ clocks threads, returned (local_run_parallel clocks threads j) = true.

Lemma inv_returns g N W y : system_inv g N W y → N + 1 < 2 ^ 64 → workers_return y.
Proof.
  intros H HN. split; [|split; [|split; [|split; [|split]]]].
  - intros n. destruct (sy_job y) as [j|] eqn:Ej; unfold system_inv in H; rewrite Ej in H.
    + by destruct (prepare_busy g N W (sy_core y) j n _ H) as (c' & -> & _).
    + by destruct (prepare_keeps g N W (sy_core y) n _ H HN) as (c' & r & -> & _).
  - by destruct (prepare_local_keeps g N W _ _ _ H HN) as (c' & r & -> & _).
  - by destruct (claim_keeps g N W _ _ _ H HN) as (c' & w & -> & _).
  - intros w. by destruct (release_keeps g N W _ _ _ H HN w) as (c' & -> & _).
  - intros j Ej. unfold system_inv in H. rewrite Ej in H. split.
    + by destruct (run_keeps g N W _ j _ H) as (j' & -> & _).
    + by destruct (commit_keeps g N W _ j _ H HN) as (c' & d & b & -> & _).
  - intros j Hj. pose proof (ri_local _ _ _ _ _ _ H j Hj) as Hl. split; [|split].
    + by destruct (local_run_keeps g _ j Hl) as (j' & -> & _).
    + by destruct (commit_local_keeps g N W _ _ _ j _ H Hj (fun i Hi => Hi)) as (c' & r & -> & _).
    + intros clocks threads. by destruct (local_parallel_keeps g _ j clocks threads Hl) as (j' & b & -> & _).
Qed.

(** A commit notes the cells it leaves to the window, while it is not certified:
    they go back to the global worker when the window lets them go. *)
Definition commit_defers (y : System) : Prop :=
  ∀ j c' d b, sy_job y = Some j → commit_global_job j (sy_core y) = Ok (c', d, b) → commit_notes (sy_core y) j c'.

Lemma inv_defers g N W y : system_inv g N W y → N + 1 < 2 ^ 64 → commit_defers y.
Proof.
  intros H HN j c' d b Ej E. unfold system_inv in H. rewrite Ej in H.
  destruct (commit_keeps g N W _ j _ H HN) as (c1 & d1 & b1 & E1 & _ & _ & Hn). rewrite E in E1.
  by injection E1 as <- _ _.
Qed.

Section complete.
Context (cos sin : f64 → f64).

Lemma repair_completes g N k c0 y W :
  repair_start g N c0 → N + Z.of_nat k + 1 < 2 ^ 64 →
  nsteps (watched_step cos sin g) k (mkSystem c0 None [], ∅) (y, W) →
  workers_return y ∧ commit_defers y ∧
  ∀ y', repair_step cos sin y y' → is_partial (sy_core y) = true → is_partial (sy_core y') = false →
    idle (sy_core y') ∧ sy_job y' = None ∧ pending_states (sy_core y') = [] ∧
    ∃ l, local (sy_core y') = Some l ∧ ∀ i s, zget (vi_states (lv_base l)) i = Some s →
      policy_invalidated s = false ∧ (settled g (lv_base l) i ∨ (s_ix s, s_iy s) ∈ left_behind g W y y').
Proof.
  intros H0 HN Hs. pose proof (steps_keep cos sin g N k _ _ Hs (start_inv g N c0 H0) ltac:(lia)) as H. cbn in H.
  split; [apply (inv_returns g (N + Z.of_nat k) W); [done|lia]|].
  split; [apply (inv_defers g (N + Z.of_nat k) W); [done|lia]|].
  intros y' Hst Hp Hp'. destruct (watched_keeps cos sin g _ _ _ _ Hst H ltac:(lia)) as [H' Hq].
  specialize (Hq Hp Hp'). split; [done|]. by eapply idle_settled.
Qed.

(** C4: when the background repair declares the field complete, it is a fixed
    point of the solver, except at the cells an overtaken commit left behind.
    From a field that is not solved to the end and has every cell queued
    ([repair_start], the early start), take steps in any order: global and local
    jobs prepared, run and committed (also late, also stale, also from an old
    owner, also after the window has taken cells of the job over), checks
    restarted, invalidations drained, scans observed, margins widened, the window
    moved, claimed and released.  None of the workers' calls panics on the way,
    and a commit of a global job notes for later exactly the cells it leaves to an
    uncertified window.  Whenever a step turns the mark of the unfinished field
    off, no job can publish any more, nothing is queued, deferred or in an
    uncertified window, and no invalidation is pending; no state holds a value
    whose policy was invalidated; and at each state of the field a further update
    of the solver stores exactly what is there, unless the state is unreached and
    reads unreached states only, or lies in a cell that was left behind: one that a
    commit published within the reach of a cell of the same job that the window had
    taken over with other costs than the job found for it, and that has not been
    within the reach of a queued cell since.  (Such cells exist, see
    the end of this file.)  The steps are too few for a 64-bit counter to wrap. *)
Theorem repair_complete g N k c0 y W :
  repair_start g N c0 → N + Z.of_nat k + 1 < 2 ^ 64 →
  nsteps (watched_step cos sin g) k (mkSystem c0 None [], ∅) (y, W) →
  workers_return y ∧ commit_defers y ∧
  ∀ y', repair_step cos sin y y' → is_partial (sy_core y) = true → is_partial (sy_core y') = false →
    idle (sy_core y') ∧ sy_job y' = None ∧ pending_states (sy_core y') = [] ∧
    ∃ l, local (sy_core y') = Some l ∧ ∀ i s, zget (vi_states (lv_base l)) i = Some s →
      policy_invalidated s = false ∧ (settled g (lv_base l) i ∨ (s_ix s, s_iy s) ∈ left_behind g W y y').
Proof. apply repair_completes. Qed.

(** ** Undisturbed runs *)

(** No cell of a job is in the window when the job is committed. *)
Definition undisturbed (y y' : System) : Prop :=
  ∀ j, sy_job y = Some j → sy_job y' = None → ∀ xx yy, (xx, yy) ∈ gj_cells j → window_holds (sy_core y) j xx yy = false.

Definition calm_step (y y' : System) : Prop := repair_step cos sin y y' ∧ undisturbed y y'.

Lemma undisturbed_behind g y y' : undisturbed y y' → left_behind g ∅ y y' = ∅.
Proof.
  intros H. assert (overtaken_by g y y' = ∅) as E.
  { unfold overtaken_by. destruct (sy_job y) as [j|] eqn:E1, (sy_job y') eqn:E2; [done| |done..].
    apply beside_empty. by apply H. }
  unfold left_behind, rechecked. rewrite E, union_empty_l_L. apply set_eq. set_solver.
Qed.

Lemma calm_steps g n y y' :
  nsteps calm_step n y y' → nsteps (watched_step cos sin g) n (y, ∅) (y', ∅).
Proof.
  intros H. induction H as [y|n y1 y2 y3 [Hs Hu] _ IH]; [constructor|]. econstructor; [|exact IH].
  pose proof (watch cos sin g y1 y2 ∅ Hs) as Hw. by rewrite (undisturbed_behind g y1 y2 Hu) in Hw.
Qed.

(** When the window takes no cell of a job that is out, the field is a fixed
    point without exception. *)
Corollary undisturbed_complete g N k c0 y y' :
  repair_start g N c0 → N + Z.of_nat k + 1 < 2 ^ 64 →
  nsteps calm_step k (mkSystem c0 None []) y → calm_step y y' →
  is_partial (sy_core y) = true → is_partial (sy_core y') = false →
  ∃ l, local (sy_core y') = Some l ∧
    ∀ i s, zget (vi_states (lv_base l)) i = Some s → policy_invalidated s = false ∧ settled g (lv_base l) i.
Proof.
  intros H0 HN Hs [Hst Hu] Hp Hp'.
  destruct (repair_completes g N k c0 y ∅ H0 HN (calm_steps g k _ _ Hs)) as (_ & _ & H).
  destruct (H y' Hst Hp Hp') as (_ & _ & _ & l & El & Hl). exists l. split; [done|]. intros i s Hi.
  destruct (Hl i s Hi) as [? [?|Hw]]; [done|]. rewrite (undisturbed_behind g y y' Hu) in Hw. set_solver.
Qed.
End complete.

(** ** A repair of the corridor by both workers, from nothing to the end *)

(** The early start of the corridor: only the goal is known, every cell queued. *)
Definition unsolved_states : list State := sample_cell 0 0 true :: ((fun ix => sample_cell MAX_COST ix false) <$> [1; 2; 3]).

Definition from_ok {A} (d : A) (r : res A) : A := match r with Ok a => a | _ => d end.

(** A core with every cell of the field [l] queued. *)
Definition started (l : ValueIteratorLocal) : PlannerCore :=
  let c := with_cached (sample_core unsolved_states) (Some (mkCached f0 f0 0 l true)) in
  from_ok c (seed_sweep_all c).

Definition early_core : PlannerCore := started (sample_field unsolved_states).

Lemma sample_reach_fits : reach_fits sample_geo.
Proof.
  unfold reach_fits. assert (reach_of (g_acts sample_geo) = 1) as -> by (vm_compute; reflexivity). cbn. lia.
Qed.

Lemma sample_started st l :
  lv_base l = sample_vi 4 1 1 [step_back; step_away] st → check_vi (lv_base l) = true → window_in_map l →
  uniform st → repair_start sample_geo 0 (started l).
Proof.
  intros El Hvi Hw Hu. set (c := with_cached (sample_core unsolved_states) (Some (mkCached f0 f0 0 l true))).
  assert (core_ok sample_geo c) as Hok.
  { pose proof (sample_core_ok unsolved_states eq_refl) as [? ? ? ? _]. split; try done.
    cbn. intros ? [= <-]. cbn. split; [by apply check_vi_ok|]. by rewrite El. }
  destruct (seed_sweep_all_spec sample_geo c _ Hok eq_refl) as (sw & E & Hsw & [p Ep] & Hs).
  assert (started l = with_sweep c sw) as -> by (unfold started; fold c; by rewrite E).
  split.
  - destruct Hok. by split.
  - exact sample_reach_fits.
  - eexists. split; [reflexivity|exact Hw].
  - done.
  - unfold counters_ok. cbn. lia.
  - cbn [co_sweep with_sweep]. rewrite Ep. by intros r.
  - cbn [co_sweep with_sweep]. rewrite Ep. split; [reflexivity|]. constructor.
  - left. split; reflexivity.
  - change (uniform (vi_states (lv_base l))). by rewrite El.
  - exact Hs.
Qed.

(** Columns with the same inputs everywhere. *)
Lemma plain_uniform st : (∀ s, s ∈ st → inputs_of s = (true, PROB_BASE, 0)) → uniform st.
Proof. intros Hin i i' s s' Hi Hi' _ _. apply elem_of_zget_1 in Hi, Hi'. by rewrite !Hin. Qed.

Lemma unsolved_uniform : uniform unsolved_states.
Proof.
  apply plain_uniform. unfold unsolved_states. intros a. rewrite !elem_of_cons.
  intros [->|Ha]; [done|]. apply list_elem_of_fmap in Ha as (ix & -> & _). done.
Qed.

Lemma early_start : repair_start sample_geo 0 early_core.
Proof.
  apply (sample_started unsolved_states); [reflexivity|reflexivity| |exact unsolved_uniform].
  unfold window_in_map. cbn. lia.
Qed.

(** A script of steps, executed. *)
Inductive Act : Type :=
  | Claim | Move (pose : PoseView) | Restart | PrepareUpTo (max_states : Z) | Run | Commit
  | PrepareLocal | RunLocal | CommitLocal.

Abbreviation Prepare := (PrepareUpTo 100).

Section script.
Context (cos sin : f64 → f64).

Definition perform (a : Act) (y : System) : option System :=
  let '(mkSystem c o ls) := y in
  match a with
  | Claim => match claim_local c with Ok (c', _) => Some (mkSystem c' o ls) | _ => None end
  | Move pose => match set_window cos sin pose c with Ok c' => Some (mkSystem c' o ls) | _ => None end
  | Restart => match restart_global_check c with Ok (c', _) => Some (mkSystem c' o ls) | _ => None end
  | PrepareUpTo n => match prepare_global_job n c with
               | Ok (c', r) => Some (mkSystem c' (match r with Some j => Some j | None => o end) ls) | _ => None end
  | Run => match o with Some j => match job_run j with Ok j' => Some (mkSystem c (Some j') ls) | _ => None end | None => None end
  | Commit => match o with
              | Some j => match commit_global_job j c with Ok (c', _, _) => Some (mkSystem c' None ls) | _ => None end
              | None => None end
  | PrepareLocal => match prepare_local_job c with
                    | Ok (c', r) => Some (mkSystem c' o (match r with Some j => j :: ls | None => ls end)) | _ => None end
  | RunLocal => match ls with j :: ls => match local_run j with Ok j' => Some (mkSystem c o (j' :: ls)) | _ => None end | [] => None end
  | CommitLocal => match ls with
                   | j :: ls => match commit_local_job j c with Ok (c', _) => Some (mkSystem c' o ls) | _ => None end
                   | [] => None end
  end.

(** The script, with its history. *)
Fixpoint perform_all (acts : list Act) (p : System * gset (Z * Z)) : option (System * gset (Z * Z)) :=
  match acts with
  | [] => Some p
  | a :: acts => y ← perform a p.1; perform_all acts (y, left_behind sample_geo p.2 p.1 y)
  end.

Lemma perform_step a y y' : perform a y = Some y' → repair_step cos sin y y'.
Proof.
  destruct y as [c o ls]. destruct a as [|pose| |n| | | | | ]; unfold perform.
  - destruct (claim_local c) as [[c1 w]| |] eqn:E; [intros Hy; injection Hy as <-|discriminate..]. apply step_core. by eapply step_claim.
  - destruct (set_window cos sin pose c) as [c1| |] eqn:E; [intros Hy; injection Hy as <-|discriminate..]. apply step_core. by eapply step_window.
  - destruct (restart_global_check c) as [[c1 b]| |] eqn:E; [intros Hy; injection Hy as <-|discriminate..]. apply step_core. by eapply step_restart.
  - destruct (prepare_global_job n c) as [[c' r]| |] eqn:E; [intros Hy; injection Hy as <-|discriminate..]. by eapply step_prepare.
  - destruct o as [j|]; [|discriminate]. destruct (job_run j) as [j'| |] eqn:E; [intros Hy; injection Hy as <-|discriminate..]. by apply step_run.
  - destruct o as [j|]; [|discriminate].
    destruct (commit_global_job j c) as [[[c' d] b]| |] eqn:E; [intros Hy; injection Hy as <-|discriminate..].
    eapply step_commit. exact E.
  - destruct (prepare_local_job c) as [[c' r]| |] eqn:E; [intros Hy; injection Hy as <-|discriminate..]. by apply step_prepare_local.
  - destruct ls as [|j ls]; [discriminate|]. destruct (local_run j) as [j'| |] eqn:E; [intros Hy; injection Hy as <-|discriminate..].
    by apply (step_run_local cos sin c o [] j ls).
  - destruct ls as [|j ls]; [discriminate|]. destruct (commit_local_job j c) as [[c' r]| |] eqn:E; [intros Hy; injection Hy as <-|discriminate..].
    by eapply (step_commit_local cos sin c o [] j ls).
Qed.

Lemma perform_steps acts p p' : perform_all acts p = Some p' → nsteps (watched_step cos sin sample_geo) (length acts) p p'.
Proof.
  revert p. induction acts as [|a acts IH]; intros [y W]; cbn [perform_all length]; [intros [= <-]; constructor|].
  cbn [fst snd]. destruct (perform a y) as [y1|] eqn:E; [|discriminate]. cbn [mbind option_bind]. intros H.
  econstructor; [|by apply IH]. constructor. by apply (perform_step a).
Qed.
End script.

#[local] Abbreviation flat_cos := (fun _ : f64 => f1).
#[local] Abbreviation flat_sin := (fun _ : f64 => f0).

(** The window claimed, a round of the global worker, two of the local one, and
    a last one of the global worker. *)
Definition sample_script : list Act :=
  [Claim; Prepare; Run; Commit; PrepareLocal; RunLocal; CommitLocal; PrepareLocal; RunLocal; CommitLocal; Prepare; Run].

Definition start_system : System := mkSystem early_core None [].

Definition solved_costs : list Z := [0; PROB_BASE; 2 * PROB_BASE; 3 * PROB_BASE].

(** The script [acts] and then a commit of the global job: the field is completed
    by the commit, with the costs, the window and the cells left behind as given,
    and an update of the last cell of the corridor moves its value by [d]. *)
Definition last_moves (c : PlannerCore) (d : Z) : bool :=
  match local c with
  | Some l => match value_iteration_at (lv_base l) 3 with Ok (_, d') => d' =? d | _ => false end
  | None => false
  end.

Definition completes (acts : list Act) (y0 : System) (costs : list Z) (owned behind : gset (Z * Z)) (d : Z) : bool :=
  match perform_all flat_cos flat_sin acts (y0, ∅) with
  | Some (y, W) =>
      match perform flat_cos flat_sin Commit y with
      | Some y' => is_partial (sy_core y) && negb (is_partial (sy_core y'))
          && bool_decide (m_owned (co_global (sy_core y')) = owned)
          && bool_decide (s_total_cost <$> states (sy_core y') = costs)
          && bool_decide (left_behind sample_geo W y y' = behind) && last_moves (sy_core y') d
      | None => false
      end
  | None => false
  end.

(** What [completes] has found, as steps. *)
Lemma completes_steps acts y0 costs owned behind d :
  completes acts y0 costs owned behind d = true →
  ∃ y W y', nsteps (watched_step flat_cos flat_sin sample_geo) (length acts) (y0, ∅) (y, W) ∧
    repair_step flat_cos flat_sin y y' ∧ is_partial (sy_core y) = true ∧ is_partial (sy_core y') = false ∧
    m_owned (co_global (sy_core y')) = owned ∧ s_total_cost <$> states (sy_core y') = costs ∧
    left_behind sample_geo W y y' = behind ∧ last_moves (sy_core y') d = true.
Proof.
  unfold completes. destruct (perform_all _ _ acts (y0, ∅)) as [[y W]|] eqn:E; [|discriminate].
  destruct (perform _ _ Commit y) as [y'|] eqn:E'; [|discriminate].
  rewrite !andb_true_iff, negb_true_iff, !bool_decide_eq_true. intros [[[[[H1 H2] H3] H4] H5] H6].
  exists y, W, y'. split; [by apply perform_steps|]. split; [by eapply perform_step|]. done.
Qed.

Lemma sample_completes : completes sample_script start_system solved_costs {[(2, 0); (3, 0)]} ∅ 0 = true.
Proof. vm_compute. reflexivity. Qed.

Lemma repair_complete_witness :
  ∃ y W y' l, nsteps (watched_step flat_cos flat_sin sample_geo) 12 (start_system, ∅) (y, W) ∧
    repair_step flat_cos flat_sin y y' ∧ m_owned (co_global (sy_core y')) = {[(2, 0); (3, 0)]} ∧
    is_partial (sy_core y) = true ∧ is_partial (sy_core y') = false ∧ local (sy_core y') = Some l ∧
    s_total_cost <$> vi_states (lv_base l) = solved_costs ∧ settled sample_geo (lv_base l) 3.
Proof.
  destruct (completes_steps _ _ _ _ _ _ sample_completes) as (y & W & y' & Hs & Hl & Hp & Hp' & Ho & Hv & Hb & _).
  destruct (repair_complete flat_cos flat_sin sample_geo 0 12 early_core y W early_start ltac:(lia) Hs)
    as (_ & _ & H). destruct (H y' Hl Hp Hp') as (_ & _ & _ & l & El & Hset).
  exists y, W, y', l. split; [exact Hs|]. split; [exact Hl|]. split; [exact Ho|]. split; [exact Hp|]. split; [exact Hp'|].
  split; [exact El|].
  assert (states (sy_core y') = vi_states (lv_base l)) as Es by (unfold states; by rewrite El). rewrite Es in Hv.
  split; [exact Hv|]. destruct (zget_lt (vi_states (lv_base l)) 3) as [s Hi].
  - pose proof (f_equal zlen Hv) as Hlen. rewrite zlen_fmap in Hlen. rewrite Hlen. vm_compute. split; [discriminate|done].
  - destruct (Hset 3 s Hi) as [_ [?|Hw]]; [done|]. rewrite Hb in Hw. by apply elem_of_empty in Hw.
Defined.

(** ** A commit that leaves a cell behind

    The corridor with values that are too low (as after an obstacle has gone up),
    and a window that moves on while a job of the two right cells is out. *)
Definition low_cell (ix cost : Z) : State := with_value (sample_cell 0 ix false) cost (Some 0).

Definition low_states : list State :=
  [sample_cell 0 0 true; low_cell 1 (PROB_BASE / 2); low_cell 2 (2 * PROB_BASE); low_cell 3 (2 * PROB_BASE + PROB_BASE / 2)].

Definition low_field : ValueIteratorLocal :=
  with_window (with_base (local_new [] 1) (sample_vi 4 1 1 [step_back; step_away] low_states)) 0 1 0 0.

Definition low_core : PlannerCore := started low_field.

Lemma low_start : repair_start sample_geo 0 low_core.
Proof.
  apply (sample_started low_states); [reflexivity|reflexivity| |].
  - unfold window_in_map. cbn. lia.
  - apply plain_uniform. intros s. unfold low_states. rewrite !elem_of_cons, elem_of_nil.
    intros [->|[->|[->|[->|[]]]]]; reflexivity.
Qed.

Definition second_cell : PoseView := {| pv_x := fadd f1 f0_5; pv_y := f0_5; pv_yaw_rad := f0 |}.

(** The loops of the two workers: the global one restarts the check before it
    prepares a job (here of two cells) and runs what it has prepared; between the
    run and the commit of the job of the cells 2 and 3 the window moves from
    [0, 1] to [0, 1, 2]. *)
Definition overtaking_script : list Act :=
  [Claim; Restart; PrepareUpTo 2; Run; Commit; Restart; PrepareUpTo 2; Run; Move second_cell; Commit;
   PrepareLocal; RunLocal; CommitLocal; PrepareLocal; RunLocal; CommitLocal; Restart; PrepareUpTo 2; Run; Commit;
   Restart; PrepareUpTo 2; Run].

Lemma overtaking_completes :
  completes overtaking_script (mkSystem low_core None [])
    [0; PROB_BASE; 2 * PROB_BASE; 2 * PROB_BASE + PROB_BASE / 2] {[(0, 0); (1, 0); (2, 0)]} {[(3, 0)]} (PROB_BASE / 2) = true.
Proof. vm_compute. reflexivity. Qed.

