(* ===== verification/EntrySpec.v ===== *)
(** * What the entry points of the core promise

    A solve that is handed over before it has converged has a way to the goal
    from the robot; a plan is a rollout of the cached field that reached the goal,
    and each error says what the core is left with. *)

From Stdlib Require Import ZArith Lia.
From stdpp Require Import base gmap strings list numbers.
From S2P Require Import Prelude Floats Model Bellman Observe Bridge Original Active Async MapSetup LocalPlanner.
From S2P Require Import Planner PlannerSpec Plan Clamped Padded Schedule Engine Fused FusedSolve SparseSolve Solve Answers.
From S2P Require Import LocalSpec Core CoreSpec Invalidate LocalJob Repair RepairPrepare RepairInv RepairLoop RepairSpec Entry.

(** ** The prefetcher's promise *)

(** A field from the prefetcher is the one asked for, solved to the end. *)
Class PrefetchLaws {F} `{Prefetching F} (ok : F → Prop) : Prop := {
  pl_adopt cancel n goal t f f' n' o :
    ok f → pf_adopt cancel n goal t f = Ok (f', n', o) →
    ok f' ∧ n ≤ n' ∧ ∀ g, o = Some g →
      goal_matches (cg_goal_x g, cg_goal_y g, cg_goal_t_deg g) (pv_x goal, pv_y goal, t) = true ∧ cg_partial g = false;
  pl_note goal f f' : ok f → pf_note_goal goal f = Ok f' → ok f'
}.

#[export] Instance no_prefetch_laws : PrefetchLaws (F := unit) (fun _ => True).
Proof. split; [|done]. intros cancel n goal t f f' n' o _ [= <- <- <-]. split; [done|]. split; [lia|done]. Qed.

(** A goal without a NaN is equal to itself. *)
Definition proper_goal (goal : PoseView) : Prop :=
  feq (pv_x goal) (pv_x goal) = true ∧ feq (pv_y goal) (pv_y goal) = true.

Lemma goal_matches_refl goal t : proper_goal goal → goal_matches (pv_x goal, pv_y goal, t) (pv_x goal, pv_y goal, t) = true.
Proof. intros [E1 E2]. unfold goal_matches. cbn. by rewrite E1, E2, Z.eqb_refl. Qed.

Section entry.
Context (cos sin : f64 → f64) (fuel : nat) (par nthreads : Z) (sched : Z → list Event).
Context {P : Type} (on_progress : P → ValueIterator → P) (cancel : Z → bool).
Context (compact : Z → option Z → ValueIterator → World P → res (ValueIterator * World P * SolveOutcome)).
Context (schur : Z → Z → Z → Z → ValueIterator → World P → res (ValueIterator * World P * SolveOutcome)).
Abbreviation director := (SolveDirector cos sin on_progress cancel).
Abbreviation solves := (solve_dense cos sin fuel par nthreads sched on_progress cancel compact schur).
Abbreviation prepares := (prepare_goal_with_progress cos sin fuel par nthreads sched on_progress cancel compact schur).
Abbreviation plans := (plan_with_progress cos sin fuel par nthreads sched on_progress cancel compact schur).
Abbreviation rolls := (rollout cos sin).

(** A load between the two counts returned [b]. *)
Definition loaded (lo hi : Z) : Prop := ∃ n, lo ≤ n < hi ∧ cancel n = true.

Lemma director_boundary_spec cfg from w pr w' flow :
  ob_boundary (director cfg from) w pr = (w', flow) →
  wo_loads w' = wo_loads w + 1 ∧ (wo_panicked w' = false → wo_panicked w = false) ∧
  match flow with
  | Cancel => cancel (wo_loads w) = true ∧ wo_panicked w' = wo_panicked w
  | Continue => wo_panicked w' = wo_panicked w
  | Stop => ∃ start, from = Some start ∧
      (wo_panicked w' = false → reaches_goal cos sin (p_policy pr) cfg start = Ok true)
  end.
Proof.
  cbn [ob_boundary SolveDirector]. unfold director_boundary, load_cancel. destruct (cancel (wo_loads w)) eqn:Ec; [by intros [= <- <-]|].
  cbv zeta beta iota. destruct from as [start|]; [|by intros [= <- <-]].
  destruct (reaches_goal cos sin (p_policy pr) cfg start) as [[]| |] eqn:Er; intros H; injection H as <- <-;
    cbn [wo_loads wo_panicked]; (split; [done|]); (split; [done|]); try done; exists start; (split; [done|]); by intros.
Qed.

(** What the outcome of a directed solve says. *)
Lemma director_answered cfg from w vi w' out :
  answered (director cfg from) w vi w' out →
  wo_loads w ≤ wo_loads w' ∧ (from = None → wo_panicked w' = wo_panicked w ∧ so_stopped out = false) ∧
  (so_cancelled out = true → loaded (wo_loads w) (wo_loads w')) ∧
  (wo_panicked w' = false → so_stopped out = true →
     ∃ start, from = Some start ∧ reaches_goal cos sin vi cfg start = Ok true).
Proof.
  intros H. induction H as [w vi out Hs Hc|w pr w' out E Hs Hc _|w pr vi w' out E Hs Hc _|w pr w1 vi w' out E _ IH].
  - split; [lia|]. split; [done|]. split; congruence.
  - apply director_boundary_spec in E as (El & _ & start & -> & Hr). split; [lia|]. split; [done|].
    split; [congruence|]. intros Hp _. exists start. auto.
  - apply director_boundary_spec in E as (El & _ & Ec & Ep). split; [lia|]. split; [done|].
    split; [|congruence]. intros _. exists (wo_loads w). split; [lia|done].
  - apply director_boundary_spec in E as (El & _ & Ep). destruct IH as (Hl & Hn & Hcn & Hst).
    split; [lia|]. split; [intros Hf; destruct (Hn Hf); split; congruence|]. split; [|done].
    intros Hc. destruct (Hcn Hc) as (n & Hn1 & Hn2). exists n. split; [lia|done].
Qed.



Lemma solve_dense_spec goal t from c w w' s :
  modelled (pc_solver (co_cfg c)) = true → solves goal t from c w = Ok (w', s) →
  wo_panicked w = false →
  wo_loads w ≤ wo_loads w' ∧ wo_panicked w' = false ∧
  match s with
  | inl e => e = Cancelled ∧ loaded (wo_loads w) (wo_loads w') ∨ e = NotConverged
  | inr (l, iters, partial) =>
      (from = None → partial = false) ∧
      (partial = true → ∃ start, from = Some start ∧ reaches_goal cos sin (lv_base l) (co_cfg c) start = Ok true)
  end.
Proof.
  intros Hm H Hp. unfold solve_dense, load_cancel in H. destruct (cancel (wo_loads w)) eqn:Ec.
  { injection H as <- <-. cbn. split; [lia|]. split; [done|]. left. split; [done|]. exists (wo_loads w).
    split; [lia|done]. }
  do 2 returned_step H. rename x into l. destruct x0 as [[vi w1] out]. injection H as <- <-.
  unfold directed_solve in E0. returned_step E0. destruct x as [[vi1 w2] out1]. cbn [fst snd] in E0.
  destruct (wo_panicked w2) eqn:Ep; [done|]. injection E0 as -> -> ->.
  apply solve_observed_answered in E1; [|done]. apply director_answered in E1 as (Hl & Hn & Hcn & Hst).
  cbn [wo_loads wo_panicked] in *. split; [lia|]. split; [done|].
  destruct (so_cancelled out).
  { left. split; [done|]. destruct Hcn as (n & ? & ?); [done|]. exists n. split; [lia|done]. }
  destruct (negb _ && negb _); [by right|]. split; [intros Hf; by apply Hn|]. intros Hs. by apply Hst.
Qed.
(** Queueing the whole map touches the queue only. *)
Lemma seed_all_same c c' : seed_sweep_all c = Ok c' → ∃ sw, c' = with_sweep c sw.
Proof.
  unfold seed_sweep_all. destruct (co_cached c).
  - intros H. returned_step H. injection H as <-. by eexists.
  - intros [= <-]. exists (co_sweep c). by destruct c.
Qed.

Lemma install_same g partial c c' :
  install g partial c = Ok c' →
  co_build c' = co_build c ∧ co_cfg c' = co_cfg c ∧ co_cached c' = Some g ∧ (partial = true → co_dirty c' = true).
Proof.
  unfold install. destruct partial; [|by intros [= <-]]. intros (sw & ->)%seed_all_same. done.
Qed.

Section prefetched.
Context {F : Type} `{Prefetching F} (ok : F → Prop) `{!PrefetchLaws ok}.

(** What [prepare_goal_with_progress] did to the core, by its answer. *)
Definition prepared (goal : PoseView) (from : option PoseView) (c : PlannerCore) (w : World P) (c' : PlannerCore)
    (w' : World P) (s : PlanError + SolveStats) : Prop :=
  match s with
  | inl e => co_cached c' = None ∧ (e = Cancelled ∧ loaded (wo_loads w) (wo_loads w') ∨ e = NotConverged)
  | inr st => ∃ g, co_cached c' = Some g ∧ cg_partial g = ss_partial st ∧
      (proper_goal goal → is_cached_goal goal c' = true) ∧
      (ss_solved_now st = false → c' = c ∧ is_cached_goal goal c = true) ∧
      (ss_solved_now st = true → install g (ss_partial st) (cleared_core c) = Ok c') ∧
      (ss_solved_now st = true → cg_partial g = true →
         ∃ start, from = Some start ∧ pc_early_start (co_cfg c) = true ∧ co_dirty c' = true ∧
           reaches_goal cos sin (lv_base (cg_field g)) (co_cfg c) start = Ok true)
  end.

Lemma prepare_spec goal from c w f c' w' f' s :
  ok f → modelled (pc_solver (co_cfg c)) = true → wo_panicked w = false →
  prepares goal from c w f = Ok (c', w', f', s) →
  ok f' ∧ wo_loads w ≤ wo_loads w' ∧ wo_panicked w' = false ∧ co_build c' = co_build c ∧ co_cfg c' = co_cfg c ∧
  prepared goal from c w c' w' s.
Proof.
  intros Hf Hm Hp H0. unfold prepare_goal_with_progress in H0. set (t := yaw_to_goal_theta_deg _) in H0.
  destruct (cache_matches goal t c) eqn:Ehit.
  { returned_step H0. injection H0 as <- <- <- <-. split; [by eapply pl_note|]. split; [lia|]. split; [done|].
    split; [done|]. split; [done|]. unfold prepared. cbn [ss_partial ss_solved_now].
    pose proof Ehit as Ehit'. unfold cache_matches in Ehit'. unfold is_partial.
    destruct (co_cached c) as [g|] eqn:Eg; [|done]. exists g. by split_and!. }
  returned_step H0. destruct x as [[w1 f1] s1]. unfold obtain_field in E. returned_step E.
  destruct x as [[f2 n] adopted]. destruct (pl_adopt _ _ _ _ _ _ _ _ Hf E0) as (Hf2 & Hn & Had).
  destruct adopted as [g|].
  - injection E as <- <- <-. returned_step H0. returned_step H0. injection H0 as <- <- <- <-.
    pose proof E as Ei. apply install_same in E as (-> & -> & Eg & _). destruct (Had g eq_refl) as [Hg Hgp].
    split; [by eapply pl_note|]. split; [done|]. split; [done|]. split; [done|]. split; [done|].
    exists g. split; [done|]. split; [done|]. split.
    { intros _. unfold is_cached_goal, cache_matches. by rewrite Eg. }
    split; [done|]. split; [done|]. by rewrite Hgp.
  - returned_step E. destruct x as [w2 s2]. injection E as <- <- <-.
    apply solve_dense_spec in E1 as (Hl & Hpan & Hs); [|done..]. cbn [wo_loads wo_panicked] in *.
    destruct s2 as [e|[[l iters] partial]].
    + injection H0 as <- <- <- <-. split; [done|]. split; [lia|]. split; [done|]. split; [done|]. split; [done|].
      split; [done|]. destruct Hs as [[-> (m & ? & ?)]| ->]; [left|by right]. split; [done|]. exists m.
      split; [lia|done].
    + returned_step H0. returned_step H0. injection H0 as <- <- <- <-.
      pose proof E as Ei. apply install_same in E as (-> & -> & Eg & Hd). cbn [ss_partial] in *. destruct Hs as [_ Hs].
      split; [by eapply pl_note|]. split; [lia|]. split; [done|]. split; [done|]. split; [done|].
      eexists. split; [done|]. split; [done|]. split.
      { intros Hg. unfold is_cached_goal, cache_matches. rewrite Eg. by apply goal_matches_refl. }
      split; [done|]. split; [done|]. intros _ Hpt. cbn in Hpt. destruct (Hs Hpt) as (start & Hfrom & Hr).
      change (co_cfg (cleared_core c)) with (co_cfg c) in *.
      destruct (pc_early_start (co_cfg c)); [|done]. exists start. split_and!; [exact Hfrom|done|by apply Hd|exact Hr].
Qed.

(** The rollout a plan answers with. *)
Definition plan_of (start : PoseView) (c : PlannerCore) (poses : list PathPose) (stats : PlanStats) : Prop :=
  ∃ g r, co_cached c = Some g ∧ rolls start c = Ok r ∧ ro_status r = ReachedGoal ∧
    poses = (if flt f0 (pc_path_spacing (co_cfg c)) then densify (ro_poses r) (pc_path_spacing (co_cfg c)) else ro_poses r) ∧
    ps_poses stats = zlen poses ∧ ps_partial stats = cg_partial g.

(** What the answer of a plan says of the core it leaves. *)
Definition plan_says (start : PoseView) (w : World P) (c' : PlannerCore) (w' : World P)
    (a : PlanError + list PathPose * PlanStats) : Prop :=
  match a with
  | inr (poses, stats) => plan_of start c' poses stats
  | inl Cancelled => co_cached c' = None ∧ loaded (wo_loads w) (wo_loads w')
  | inl NotConverged => co_cached c' = None
  | inl (RolloutFailed st) => is_partial c' = false ∧ st ≠ ReachedGoal ∧ ∃ r, rolls start c' = Ok r ∧ ro_status r = st
  | _ => False
  end.

Lemma plan_answer_says start (w : World P) c (w' : World P) st g r :
  co_cached c = Some g → cg_partial g = ss_partial st → rolls start c = Ok r →
  (reached_goal r = false → is_partial c = false) →
  plan_says start w c w' (plan_answer (co_cfg c) st r).
Proof.
  intros Eg Hg Er Hp. unfold plan_answer. destruct (reached_goal r) eqn:Hr; cbn [negb].
  - exists g, r. apply bool_decide_eq_true in Hr. by split_and!.
  - cbn. split; [auto|]. apply bool_decide_eq_false in Hr. split; [done|]. by exists r.
Qed.

Lemma plan_error_says start (w : World P) c' (w' w'' : World P) e :
  co_cached c' = None → wo_loads w ≤ wo_loads w' → wo_loads w' ≤ wo_loads w'' →
  e = Cancelled ∧ loaded (wo_loads w') (wo_loads w'') ∨ e = NotConverged → plan_says start w c' w'' (inl e).
Proof.
  intros Hc Hl Hl' [[-> (n & ? & ?)]| ->]; [|done]. split; [done|]. exists n. split; [lia|done].
Qed.

Lemma plan_spec start goal c w f c' w' f' a :
  ok f → modelled (pc_solver (co_cfg c)) = true → wo_panicked w = false →
  plans start goal c w f = Ok (c', w', f', a) → plan_says start w c' w' a.
Proof.
  intros Hf Hm Hp H0. unfold plan_with_progress in H0. returned_step H0. destruct x as [[[c1 w1] f1] s1].
  apply prepare_spec in E as (Hf1 & Hl1 & Hp1 & Hb1 & Hc1 & Hs1); [|done..].
  destruct s1 as [e|st].
  { injection H0 as <- <- <- <-. destruct Hs1. by eapply (plan_error_says _ _ _ w). }
  destruct Hs1 as (g & Eg & Hg & _). returned_step H0. rename x into r.
  destruct (if negb (reached_goal r) then discard_partial c1 else (c1, false)) as [c2 discarded] eqn:Ed.
  destruct discarded.
  - assert (c2 = with_cached (invalidate_global_jobs c1) None) as ->.
    { destruct (negb _); [|by injection Ed]. unfold discard_partial in Ed. destruct (is_partial c1); by injection Ed as <-. }
    returned_step H0. destruct x as [[[c3 w3] f3] s3].
    apply prepare_spec in E0 as (_ & Hl3 & _ & _ & Hc3 & Hs3); [|done|by cbn; rewrite Hc1|done].
    destruct s3 as [e|st3].
    { injection H0 as <- <- <- <-. destruct Hs3. by eapply (plan_error_says _ _ _ w1). }
    returned_step H0. injection H0 as <- <- <- <-. destruct Hs3 as (g3 & Eg3 & Hg3 & _ & Hhit & _ & Hfresh).
    eapply plan_answer_says; [exact Eg3|done|exact E0|]. intros _. unfold is_partial. rewrite Eg3.
    destruct (cg_partial g3) eqn:Ep; [|done]. destruct (ss_solved_now st3) eqn:Es.
    + by destruct (Hfresh eq_refl eq_refl) as (? & ? & _).
    + by destruct (Hhit eq_refl) as [_ ?].
  - injection H0 as <- <- <- <-.
    assert (c2 = c1 ∧ (reached_goal r = false → is_partial c1 = false)) as [-> Hn].
    { destruct (reached_goal r); cbn [negb] in Ed; [by injection Ed as <-|]. unfold discard_partial in Ed.
      destruct (is_partial c1); by injection Ed as <-. }
    by eapply plan_answer_says.
Qed.

(** The plan after an early start: its first rollout reaches the goal. *)
Lemma early_rollout goal start c w f c' w' f' st :
  ok f → modelled (pc_solver (co_cfg c)) = true → wo_panicked w = false →
  prepares goal (Some start) c w f = Ok (c', w', f', inr st) → ss_solved_now st = true → ss_partial st = true →
  is_partial c' = true ∧ co_dirty c' = true ∧ ∃ r, rolls start c' = Ok r ∧ ro_status r = ReachedGoal.
Proof.
  intros Hf Hm Hp E Hs Hpt. apply prepare_spec in E as (_ & _ & _ & _ & Hc & g & Eg & Hg & _ & _ & _ & Hr); [|done..].
  rewrite Hpt in Hg. destruct (Hr Hs Hg) as (? & [= <-] & _ & Hd & Hreach). unfold is_partial, rollout. rewrite Eg, Hc.
  split; [done|]. split; [done|]. unfold reaches_goal in Hreach. returned_step Hreach. exists x. split; [done|].
  injection Hreach as Hreach. by apply bool_decide_eq_true in Hreach.
Qed.
(** ** Plans return

    With a parallel solver whose threads are scheduled fairly, on a map that
    fits it, and a prefetcher that answers. *)

Definition parallel_solver (solver : U64Solver) : bool :=
  match solver with Frontier2DPar | Frontier2DParUnsafe | Frontier2DFused | Frontier2DSparse => true | _ => false end.

Definition solvable (goal : PoseView) (c : PlannerCore) : Prop :=
  parallel_solver (pc_solver (co_cfg c)) = true ∧ 0 ≤ pc_max_solve_iter (co_cfg c) < 2 ^ 32 - 4 ∧
  ∃ l mx my mt pen, map_field cos sin fuel par (co_build c) = Ok l ∧
    let vi := set_goal (lv_base l) (pv_x goal) (pv_y goal) (yaw_to_goal_theta_deg (pv_yaw_rad goal)) in
    wf_vi vi ∧ fused_fits vi mx my mt pen ∧ vi_cell_num_t vi ≤ 64 ∧ threads_ok nthreads sched vi ∧
    zlen (vi_actions vi) < 2 ^ 31 ∧ ∀ i s, zget (vi_states vi) i = Some s → PROB_BASE ≤ cell_pen s.

Lemma parallel_modelled solver : parallel_solver solver = true → modelled solver = true.
Proof. by destruct solver. Qed.

Lemma parallel_solver_fits solver mx my mt pen vi :
  parallel_solver solver = true → fused_fits vi mx my mt pen → vi_cell_num_t vi ≤ 64 →
  solver_fits solver mx my mt pen vi.
Proof. intros Hs Hf Ht. destruct solver; try discriminate Hs; cbn; [by destruct Hf|by destruct Hf|done|done]. Qed.

Lemma parallel_solve_of {S} (obs : SolveObserver S) solver max_iter vi o cmp sch r :
  parallel_solver solver = true → 0 ≤ max_iter < 2 ^ 32 - 4 → wf_vi vi → threads_ok nthreads sched vi →
  vi_cell_num_t vi ≤ 64 →
  solve_observed nthreads sched obs cmp sch solver max_iter vi o = Ok r → parallel_solve obs vi o r.
Proof.
  intros Hs Hm Hwf (Hn & Hw & Hf) Ht E. assert (0 ≤ max_iter < 2 ^ 32) by lia.
  assert (∀ i, fair nthreads (enough_passes vi nthreads) (sched i)) as Hf' by (apply enough_of_sparse; [done|lia|done]).
  destruct solver; try discriminate Hs; cbn [solve_observed] in E.
  - by eapply solve_par.
  - by eapply solve_par_unsafe.
  - by eapply solve_fused.
  - by eapply solve_sparse.
Qed.

Lemma solve_dense_returns goal c w :
  solvable goal c → wo_panicked w = false →
  ∃ w' s, solves goal (yaw_to_goal_theta_deg (pv_yaw_rad goal)) None c w = Ok (w', s) ∧
    match s with inl _ => True | inr (l, _, _) => PolicyLaws (lv_base l) end.
Proof.
  intros (Hs & Hm & l & mx & my & mt & pen & El & Hwf & Hfit & Ht & Hth & Hacts & Hpen) Hp.
  unfold solve_dense, load_cancel. destruct (cancel (wo_loads w)); [by eexists _, _|].
  rewrite El, ok_bind. set (vi := set_goal _ _ _ _) in *. set (w1 := mkWorld _ _ _).
  destruct (solve_contract (director (co_cfg c) None) nthreads sched compact schur (pc_solver (co_cfg c))
    (pc_max_solve_iter (co_cfg c)) vi w1 mx my mt pen) as (vi' & w' & out & E & Hwf' & _); try done.
  { by apply parallel_modelled. }
  { by apply parallel_solver_fits. }
  unfold directed_solve. rewrite E, ok_bind. cbn [fst snd].
  pose proof (solve_observed_answered _ _ _ _ _ _ _ _ _ (parallel_modelled _ Hs) _ _ _ E) as Ha.
  apply director_answered in Ha as (_ & Hn & _). destruct (Hn eq_refl) as [-> Hst]. cbn [wo_panicked w1].
  rewrite Hp, ok_bind. eexists _, _. split; [done|]. destruct (so_cancelled out) eqn:Ec; [done|].
  rewrite Hst. destruct (so_converged out) eqn:Ecv; [|done]. cbn [negb andb].
  destruct (parallel_plan_spec (director (co_cfg c) None) vi w1 mx my mt pen vi' w' out) as (_ & Hpl & _); try done.
  by eapply parallel_solve_of.
Qed.
(** The prefetcher answers, with fields that have a policy. *)
Definition serves : Prop :=
  (∀ n goal t f, ok f → ∃ f' n' o, pf_adopt cancel n goal t f = Ok (f', n', o) ∧
     ∀ g, o = Some g → PolicyLaws (lv_base (cg_field g))) ∧
  ∀ goal f, ok f → ∃ f', pf_note_goal goal f = Ok f'.

(** The field in the cache answers the queries of a rollout. *)
Definition cache_plans (c : PlannerCore) : Prop := ∀ g, co_cached c = Some g → PolicyLaws (lv_base (cg_field g)).

Lemma prepare_returns goal from c w f :
  serves → ok f → pc_early_start (co_cfg c) = false → wo_panicked w = false →
  (is_cached_goal goal c = true → cache_plans c) → (is_cached_goal goal c = false → solvable goal c) →
  ∃ c' w' f' s, prepares goal from c w f = Ok (c', w', f', s) ∧ ∀ st, s = inr st → cache_plans c'.
Proof.
  intros [Had Hno] Hf He Hp Hhit Hmiss. unfold prepare_goal_with_progress.
  change (cache_matches goal _ c) with (is_cached_goal goal c).
  destruct (is_cached_goal goal c).
  { destruct (Hno goal f Hf) as (f' & ->). rewrite ok_bind. eexists _, _, _, _. split; [done|]. auto. }
  specialize (Hmiss eq_refl). set (t := yaw_to_goal_theta_deg _). unfold obtain_field.
  destruct (Had (wo_loads w) goal t f Hf) as (f1 & n & o & E1 & Hg). rewrite E1, ok_bind.
  pose proof (pl_adopt _ _ _ _ _ _ _ _ Hf E1) as (Hf1 & _). destruct o as [g|].
  - rewrite ok_bind. cbn [ss_partial install]. rewrite ok_bind. destruct (Hno goal f1 Hf1) as (f2 & ->).
    rewrite ok_bind. eexists _, _, _, _. split; [done|]. intros _ _ g' [= <-]. by apply Hg.
  - change (co_cfg (cleared_core c)) with (co_cfg c). rewrite He. set (w1 := mkWorld _ _ _).
    destruct (solve_dense_returns goal (cleared_core c) w1 Hmiss Hp) as (w2 & s & E2 & Hs). fold t in E2.
    rewrite E2, ok_bind. cbn beta iota.
    apply solve_dense_spec in E2 as (_ & _ & Hs2); [|by apply parallel_modelled, Hmiss|done].
    destruct s as [e|[[l iters] partial]]; rewrite ok_bind.
    + eexists _, _, _, _. by split.
    + destruct Hs2 as [Hpt _]. rewrite (Hpt eq_refl). cbn [ss_partial install]. rewrite ok_bind.
      destruct (Hno goal f1 Hf1) as (f2 & ->). rewrite ok_bind. eexists _, _, _, _. split; [done|].
      intros _ _ g' [= <-]. exact Hs.
Qed.

Lemma rollout_returns start c :
  in_i32 (pc_start_tolerance_cells (co_cfg c)) → cache_plans c → ∃ r, rolls start c = Ok r.
Proof.
  intros Ht Hc. unfold rollout. unfold cache_plans in Hc. destruct (co_cached c) as [g|]; [|by eexists].
  specialize (Hc g eq_refl). destruct (rescue_start_spec (lv_base (cg_field g)) (pv_x start) (pv_y start) (pv_yaw_rad start) _ Ht) as (? & xy & _ & E & _).
  destruct (rollout_path_on_spec cos sin _ _ _ _ (pc_max_rollout_steps (co_cfg c)) _ _ E) as (? & ? & ? & ? & -> & _). by eexists.
Qed.

Lemma plan_returns start goal c w f :
  serves → ok f → pc_early_start (co_cfg c) = false → wo_panicked w = false →
  modelled (pc_solver (co_cfg c)) = true → in_i32 (pc_start_tolerance_cells (co_cfg c)) →
  (is_cached_goal goal c = true → cache_plans c) →
  (is_cached_goal goal c = false ∨ is_partial c = true → solvable goal c) →
  is_Ok (plans start goal c w f).
Proof.
  intros Hs Hf He Hp Hm Ht Hhit Hsol. unfold plan_with_progress.
  destruct (prepare_returns goal (Some start) c w f Hs Hf He Hp Hhit) as (c1 & w1 & f1 & s & E & Hpl); [auto|].
  rewrite E, ok_bind.
  apply prepare_spec in E as (Hf1 & _ & Hp1 & Hb1 & Hc1 & Hs1); [|done..]. destruct s as [e|st]; [by eexists|].
  specialize (Hpl st eq_refl). destruct (rollout_returns start c1) as (r & ->); [by rewrite Hc1|done|].
  rewrite ok_bind. destruct Hs1 as (g & Eg & Hg & _ & Hold & _ & Hnew).
  destruct (if negb (reached_goal r) then discard_partial c1 else (c1, false)) as [c2 discarded] eqn:Ed.
  destruct discarded; [|by eexists]. destruct (negb _); [|by injection Ed]. unfold discard_partial in Ed.
  destruct (is_partial c1) eqn:Epart; [|by injection Ed]. injection Ed as <-.
  assert (solvable goal c1) as Hsol1.
  { unfold is_partial in Epart. rewrite Eg in Epart. destruct (ss_solved_now st) eqn:Enow.
    - destruct (Hnew eq_refl Epart) as (_ & _ & Hx & _). congruence.
    - destruct (Hold eq_refl) as [-> _]. apply Hsol. right. unfold is_partial. by rewrite Eg. }
  destruct (prepare_returns goal None (with_cached (invalidate_global_jobs c1) None) w1 f1) as (c3 & w3 & f3 & s3 & E3 & Hpl3);
    [done|done|cbn; by rewrite Hc1|done|done|by intros _|].
  rewrite E3, ok_bind.
  apply prepare_spec in E3 as (_ & _ & _ & _ & Hc3 & _); [|done|cbn; by rewrite Hc1|done].
  destruct s3 as [e|st3]; [by eexists|]. destruct (rollout_returns start c3) as (r3 & ->); [rewrite Hc3; cbn; by rewrite Hc1|by eapply Hpl3|].
  by eexists.
Qed.
End prefetched.
End entry.

(** ** The early start and the repair *)

(** A prepared core with a field that is not solved to the end is one from which
    the repair of [RepairSpec] starts. *)
Lemma install_repair_start g N cg c :
  core_ok g (with_cached (cleared_core c) (Some cg)) → reach_fits g → window_in_map (cg_field cg) →
  uniform (vi_states (lv_base (cg_field cg))) → m_owner (co_global c) = None →
  counters_ok N c → N + 1 < 2 ^ 64 → (∀ r, ds_reach (co_sweep c) = Some r → r = reach_of (g_acts g)) →
  let rev := inv_reverse (m_invalidation (co_global c)) in
  rev = [] ∨ reverse_table (g_nt g) (g_acts g) = Ok rev →
  ∃ c', install cg true (cleared_core c) = Ok c' ∧ repair_start g (N + 1) c'.
Proof.
  intros Hok Hfit Hwin Hu Hown (N1 & N2 & N3 & N4) HN Hr rev Ht. unfold install.
  set (c1 := with_dirty (with_cached (cleared_core c) (Some cg)) true).
  assert (core_ok g c1) as Hok1 by by destruct Hok; split.
  destruct (seed_sweep_all_spec g c1 cg Hok1 eq_refl) as (sw & -> & Hsw & [p Ep] & Hs).
  eexists. split; [done|]. split; cbn.
  - destruct Hok1. by split.
  - done.
  - by exists cg.
  - by rewrite Hown.
  - unfold counters_ok. cbn. rewrite u64_add_small by (unfold in_u64; lia). lia.
  - intros r. rewrite Ep. cbn. apply Hr.
  - rewrite Ep. split; [done|constructor].
  - unfold table_ok, pending_states. cbn. destruct Ht as [E|E]; [left|right]; [by split|done].
  - exact Hu.
  - exact Hs.
Qed.

Section properties.
Context (cos sin : f64 → f64) (fuel : nat) (par nthreads : Z) (sched : Z → list Event).
Context {P : Type} (on_progress : P → ValueIterator → P) (cancel : Z → bool).
Context (compact : Z → option Z → ValueIterator → World P → res (ValueIterator * World P * SolveOutcome)).
Context (schur : Z → Z → Z → Z → ValueIterator → World P → res (ValueIterator * World P * SolveOutcome)).
Abbreviation prepares := (prepare_goal_with_progress cos sin fuel par nthreads sched on_progress cancel compact schur).
Abbreviation plans := (plan_with_progress cos sin fuel par nthreads sched on_progress cancel compact schur).

(** C14: a plan says what the core is left with.  Whatever solver, observer,
    schedule, prefetcher and cancellations: a path is the rollout of the field in
    the cache, one that reached the goal, spaced as configured; a failed rollout is
    reported only of a field that is solved to the end (an unfinished one was
    discarded and solved again, without an early start); a solve that was cancelled
    was asked to, and it and one that did not converge leave no field behind; no
    other error occurs.  And a plan returns, when the prefetcher answers and either
    the field of the goal is in the cache or a parallel solver has to solve it on a
    map that fits. *)
Theorem plan_outcome {F} `{Prefetching F} (ok : F → Prop) start goal c w f :
  PrefetchLaws ok → ok f → modelled (pc_solver (co_cfg c)) = true → wo_panicked w = false →
  (∀ c' w' f' a, plans start goal c w f = Ok (c', w', f', a) → plan_says cos sin cancel start w c' w' a) ∧
  (serves cancel ok → pc_early_start (co_cfg c) = false → in_i32 (pc_start_tolerance_cells (co_cfg c)) →
   (is_cached_goal goal c = true → cache_plans c) →
   (is_cached_goal goal c = false ∨ is_partial c = true → solvable cos sin fuel par nthreads sched goal c) →
   is_Ok (plans start goal c w f)).
Proof.
  intros Hlaws Hf Hm Hp. split.
  - intros c' w' f' a E. by eapply plan_spec.
  - intros Hserve He Ht Hhit Hsol. by eapply plan_returns.
Qed.

(** C15: an early start leads to the goal.  When preparing a goal hands over a
    field that is not solved to the end, the early start was asked for from a pose
    of the robot, and the rollout of that very field from that pose, which is the
    plan the robot drives by, reaches the goal: a plan answers at once, without a
    second solve.  The field is marked as unfinished and the repair is told. *)
Theorem early_start_reaches_goal {F} `{Prefetching F} (ok : F → Prop) goal start c w f c' w' f' st :
  PrefetchLaws ok → ok f → modelled (pc_solver (co_cfg c)) = true → wo_panicked w = false →
  prepares goal (Some start) c w f = Ok (c', w', f', inr st) → ss_solved_now st = true → ss_partial st = true →
  pc_early_start (co_cfg c) = true ∧ is_partial c' = true ∧ co_dirty c' = true ∧
  ∃ r poses stats, rollout cos sin start c' = Ok r ∧ ro_status r = ReachedGoal ∧
    plans start goal c w f = Ok (c', w', f', inr (poses, stats)) ∧ ps_partial stats = true.
Proof.
  intros Hlaws Hf Hm Hp E Hs Hpt.
  pose proof E as E1. apply early_rollout with (ok := ok) in E1 as (H1 & H2 & r & Er & Hr); [|done..].
  pose proof E as E'. apply prepare_spec with (ok := ok) in E' as (_ & _ & _ & _ & Hc & g & Eg & Hg & _ & _ & _ & Hx); [|done..].
  rewrite Hpt in Hg. destruct (Hx Hs Hg) as (_ & _ & He & _). split; [done|]. split; [done|]. split; [done|].
  unfold plan_with_progress. rewrite E, ok_bind, Er, ok_bind.
  unfold plan_answer, reached_goal. rewrite bool_decide_true by done. cbn [negb].
  eexists r, _, _. split; [done|]. split; [done|]. by split.
Qed.

(** C16: an early start is completed in the background.  Take a field that is not
    solved to the end and install it in a core that was cleared for it (nobody
    holds the window, the counters do not wrap).  The install queues every cell,
    and from then on the calls of the two workers and of the control tick can come
    in any order, commits of overtaken jobs among them: none of the workers' calls
    panics, what a commit leaves to an uncertified window is noted, and when a call
    takes the mark of the unfinished field off, a further update of the solver at
    any state would store what is there, unless the state is unreached and reads
    unreached states only, or its cell was left behind by the commit of an overtaken
    job and has not been near a queued one since ([left_behind]). *)
Theorem early_start_completes g N cg c :
  core_ok g (with_cached (cleared_core c) (Some cg)) → reach_fits g → window_in_map (cg_field cg) →
  uniform (vi_states (lv_base (cg_field cg))) → m_owner (co_global c) = None →
  counters_ok N c → N + 1 < 2 ^ 64 → (∀ r, ds_reach (co_sweep c) = Some r → r = reach_of (g_acts g)) →
  let rev := inv_reverse (m_invalidation (co_global c)) in
  rev = [] ∨ reverse_table (g_nt g) (g_acts g) = Ok rev → cg_partial cg = true →
  ∃ c', install cg true (cleared_core c) = Ok c' ∧ is_partial c' = true ∧ co_dirty c' = true ∧
    ∀ k y W, N + Z.of_nat k + 2 < 2 ^ 64 → nsteps (watched_step cos sin g) k (mkSystem c' None [], ∅) (y, W) →
      workers_return y ∧ commit_defers y ∧
      ∀ y', repair_step cos sin y y' → is_partial (sy_core y) = true → is_partial (sy_core y') = false →
        ∃ l, local (sy_core y') = Some l ∧ ∀ i s, zget (vi_states (lv_base l)) i = Some s →
          policy_invalidated s = false ∧ (settled g (lv_base l) i ∨ (s_ix s, s_iy s) ∈ left_behind g W y y').
Proof.
  intros Hok Hfit Hwin Hu Hown Hn HN Hr rev Ht Hp.
  destruct (install_repair_start g N cg c Hok Hfit Hwin Hu Hown Hn HN Hr Ht) as (c' & E & Hstart).
  exists c'. split; [done|]. pose proof (install_same _ _ _ _ E) as (_ & _ & Ec & Hd).
  split; [unfold is_partial; by rewrite Ec|]. split; [auto|]. intros k y W Hk Hs.
  destruct (repair_completes cos sin g (N + 1) k c' y W Hstart ltac:(lia) Hs) as (Hret & Hdef & Hdone).
  split; [done|]. split; [done|]. intros y' H1 H2 H3. by destruct (Hdone y' H1 H2 H3) as (_ & _ & _ & ?).
Qed.
End properties.

(** ** Samples *)

(** A map of two cells with the goal in the left one, and more headings than
    degrees: then every transition table is empty and a move costs nothing. *)
Definition tiny_build : BuildParams :=
  {| bp_grid := {| og_width := 2; og_height := 1; og_resolution := f1; og_origin_x := f0; og_origin_y := f0;
                   og_origin_quat := quat_default; og_data := [0; 0] |};
     bp_actions := [action_new "back" (fneg f1) f0 0]; bp_theta_cell_num := 361; bp_map_penalty_radius := f0;
     bp_map_penalty := f0; bp_goal_margin_radius := f1; bp_goal_margin_theta := 15; bp_local_xy_range := f1;
     bp_local_shape := shape_default; bp_patch_slack_cells := 0; bp_repair_interior_cells := 16 |}.

Definition tiny_cfg (early : bool) : PlanConfig :=
  {| pc_scan_penalty_radius := f0; pc_scan_penalty := 0; pc_solver := Reference; pc_max_solve_iter := 10;
     pc_solve_chunk := 1; pc_max_rollout_steps := 10; pc_start_tolerance_cells := 0; pc_path_spacing := f0;
     pc_action_tolerance_cells := 0; pc_follow_controller := FollowGreedy;
     pc_dwa_tick_s := f0_1; pc_dwa_horizon_s := f1; pc_dwa_n_v := 2; pc_dwa_n_w := 3; pc_dwa_lethal_penalty := f0;
     pc_mppi_samples := 2; pc_mppi_lambda := f1; pc_mppi_sigma_v := f0; pc_mppi_sigma_w_deg := f0; pc_sigma_margin_gain := f0;
     pc_map_clear_from_scan := false; pc_global_sweep := true; pc_early_start := early |}.

Definition left_pose : PoseView := {| pv_x := f0_5; pv_y := f0_5; pv_yaw_rad := f0 |}.
Definition right_pose : PoseView := {| pv_x := fadd f1 f0_5; pv_y := f0_5; pv_yaw_rad := f0 |}.

Abbreviation level_sin := (fun _ : f64 => f0).
Abbreviation level_cos := (fun _ : f64 => f1).
Abbreviation no_compact := (fun _ _ _ _ => Panic).
Abbreviation no_schur := (fun _ _ _ _ _ _ => Panic).

#[local] Abbreviation tiny_prepare early :=
  (prepare_goal_with_progress (F := unit) (P := Z) level_cos level_sin 100 2 1 (fun _ => []) (fun n _ => n + 1)
    (fun _ => false) no_compact no_schur left_pose (Some right_pose) (core_new tiny_build (tiny_cfg early))
    (mkWorld 0 0 false) ()).

Definition stats_of {A B C} (r : res (A * B * C * (PlanError + SolveStats))) : option SolveStats :=
  match r with Ok (_, _, _, inr st) => Some st | _ => None end.

Lemma stats_of_Some {A B C} (r : res (A * B * C * (PlanError + SolveStats))) st :
  stats_of r = Some st → ∃ c w f, r = Ok (c, w, f, inr st).
Proof. destruct r as [[[[c w] f] [e|s]]| |]; try done. intros [= ->]. by exists c, w, f. Qed.

Lemma early_start_reaches_goal_witness :
  ∃ c' w' st r, tiny_prepare true = Ok (c', w', (), inr st) ∧
    rollout level_cos level_sin right_pose c' = Ok r ∧ ro_status r = ReachedGoal.
Proof.
  destruct (stats_of_Some (tiny_prepare true) {| ss_solved_now := true; ss_iters := 1; ss_adopted := false; ss_partial := true |})
    as (c' & w' & [] & E).
  - vm_compute. reflexivity.
  - destruct (early_start_reaches_goal level_cos level_sin 100 2 1 (fun _ => []) (fun n _ => n + 1) (fun _ => false)
      no_compact no_schur (fun _ => True) left_pose right_pose (core_new tiny_build (tiny_cfg true)) (mkWorld 0 0 false) ()
      c' w' () _ no_prefetch_laws I eq_refl eq_refl E eq_refl eq_refl) as (_ & _ & _ & r & _ & _ & Er & Hr & _).
    exists c', w', {| ss_solved_now := true; ss_iters := 1; ss_adopted := false; ss_partial := true |}, r.
    split; [exact E|]. split; [exact Er|exact Hr].
Defined.

(** A core that has the field of the goal. *)
Definition tiny_core : PlannerCore :=
  with_cached (core_new tiny_build (tiny_cfg false))
    (Some (mkCached f0_5 f0_5 0 (with_base (local_new [] 1) sample_path) false)).

Lemma plan_outcome_witness :
  ∃ c' w' a,
    plan_with_progress (F := unit) (P := Z) level_cos level_sin 100 2 1 (fun _ => []) (fun n _ => n + 1)
      (fun _ => false) no_compact no_schur right_pose left_pose tiny_core (mkWorld 0 0 false) () = Ok (c', w', (), a) ∧
    plan_says level_cos level_sin (fun _ => false) right_pose (mkWorld 0 0 false) c' w' a.
Proof.
  destruct (plan_outcome level_cos level_sin 100 2 1 (fun _ => []) (fun n (_ : ValueIterator) => n + 1) (fun _ => false)
    no_compact no_schur (fun _ : unit => True) right_pose left_pose tiny_core (mkWorld 0 0 false) ()
    no_prefetch_laws I eq_refl eq_refl) as [Hsays Hreturns].
  destruct Hreturns as [[[[c' w'] []] a] E].
  - split; [|by intros ? [] _; exists ()]. intros n g t [] _. by exists (), n, None.
  - reflexivity.
  - cbn. unfold in_i32. lia.
  - intros _ g [= <-]. exact sample_path_laws.
  - intros [H|H]; exfalso; revert H; vm_compute; discriminate.
  - exists c', w', a. split; [exact E|]. exact (Hsays c' w' () a E).
Defined.

Lemma early_start_completes_witness :
  let cg := mkCached f0 f0 0 (sample_field unsolved_states) true in
  ∃ c', install cg true (cleared_core (sample_core sample_states)) = Ok c' ∧ is_partial c' = true ∧
    ∀ k y W, 0 + Z.of_nat k + 2 < 2 ^ 64 →
      nsteps (watched_step level_cos level_sin sample_geo) k (mkSystem c' None [], ∅) (y, W) → workers_return y.
Proof.
  intros cg. destruct (early_start_completes level_cos level_sin sample_geo 0 cg (sample_core sample_states))
    as (c' & E & Hp & _ & H).
  - pose proof (sample_core_ok unsolved_states eq_refl) as [Hd Ha Hg _ Hf].
    split; [exact Hd|exact Ha|exact Hg| |intros g [= <-]; exact (Hf _ eq_refl)].
    split; [by intros bb|by intros x y ?%elem_of_nil|]. vm_compute. split; congruence.
  - exact sample_reach_fits.
  - unfold window_in_map. cbn. lia.
  - exact unsolved_uniform.
  - reflexivity.
  - unfold counters_ok. cbn. lia.
  - lia.
  - by intros r.
  - left. reflexivity.
  - reflexivity.
  - exists c'. split; [exact E|]. split; [exact Hp|]. intros k y W Hk Hs. exact (proj1 (H k y W Hk Hs)).
Defined.
