(* ===== verification/Prefetch.v ===== *)
(** * Solving the next waypoint ahead (vi_planner/src/core/prefetch.rs)

    The prefetcher: the state its callers and its worker share under one lock,
    each critical section as a function, the worker with its spare core, and all
    of it as a step relation.  It discharges the interface [Prefetching] the core
    uses. *)

From Stdlib Require Import ZArith Lia.
From stdpp Require Import base gmap strings list numbers relations.
From S2P Require Import Prelude Floats Model Bellman Observe Bridge Async Planner LocalPlanner Solve Answers Core Entry EntrySpec.

(** ** The shared state *)

(** [State], with the flags handed to the worker: a flag is a number, [pf_raised]
    are those stored [true], [pf_fresh] is the next one. *)
Record PfState : Type := mkPf {
  pf_waypoints : list PoseView;
  pf_want : option PoseView;
  pf_solving : option PoseView;
  pf_ready : option CachedGoal;
  pf_cancel : option Z;
  pf_raised : gset Z;
  pf_fresh : Z
}.

Definition pf_new : PfState := mkPf [] None None None None ∅ 0.

Definition set_waypoints (ws : list PoseView) (st : PfState) : PfState :=
  mkPf ws (pf_want st) (pf_solving st) (pf_ready st) (pf_cancel st) (pf_raised st) (pf_fresh st).
Definition with_want (st : PfState) (o : option PoseView) : PfState :=
  mkPf (pf_waypoints st) o (pf_solving st) (pf_ready st) (pf_cancel st) (pf_raised st) (pf_fresh st).
Definition with_ready (st : PfState) (o : option CachedGoal) : PfState :=
  mkPf (pf_waypoints st) (pf_want st) (pf_solving st) o (pf_cancel st) (pf_raised st) (pf_fresh st).

(** [(goal.x, goal.y, goal_t_deg)] *)
Definition goal_key (p : PoseView) : f64 * f64 * Z := (pv_x p, pv_y p, yaw_to_goal_theta_deg (pv_yaw_rad p)).
Definition cached_key (g : CachedGoal) : f64 * f64 * Z := (cg_goal_x g, cg_goal_y g, cg_goal_t_deg g).

Definition same_goal (a : PoseView) (b : f64 * f64 * Z) : bool := goal_matches (goal_key a) b.

(** The solve in flight or ordered is one for [b]. *)
Definition awaited (st : PfState) (b : f64 * f64 * Z) : bool :=
  match pf_solving st with Some g => same_goal g b | None => false end
  || match pf_want st with Some g => same_goal g b | None => false end.

Definition cancel_in_flight (st : PfState) : PfState :=
  match pf_cancel st with
  | Some i => mkPf (pf_waypoints st) None (pf_solving st) (pf_ready st) None ({[i]} ∪ pf_raised st) (pf_fresh st)
  | None => with_want st None
  end.

(** [fn discard] *)
Definition discard_prefetch (st : PfState) : PfState := cancel_in_flight (with_want (with_ready st None) None).

Inductive Position : Type := NextIs (p : PoseView) | Last | Unknown.

(** [iter().position(..)] and the element after it *)
Fixpoint position_in (key : f64 * f64 * Z) (ws : list PoseView) : Position :=
  match ws with
  | [] => Unknown
  | w :: rest =>
      if same_goal w key then match rest with next :: _ => NextIs next | [] => Last end
      else position_in key rest
  end.

Definition position_of (st : PfState) (goal : PoseView) : Position := position_in (goal_key goal) (pf_waypoints st).

Definition request (next : PoseView) (st : PfState) : PfState :=
  let key := goal_key next in
  let have := match pf_ready st with Some g => goal_matches (cached_key g) key | None => false end in
  if have || awaited st key then st else with_want (discard_prefetch st) (Some next).

Definition note_goal (goal : PoseView) (st : PfState) : PfState :=
  match position_of st goal with
  | NextIs next => request next st
  | Last => discard_prefetch st
  | Unknown => st
  end.

(** ** Adopting a field *)

(** One turn of the loop of [adopt] under the lock: the answer, or nothing when
    it has to wait. *)
Definition adopt_look (key : f64 * f64 * Z) (st : PfState) : PfState * option (option CachedGoal) :=
  let asked := match pf_ready st with Some g => goal_matches (cached_key g) key | None => false end in
  if asked then (with_ready st None, Some (pf_ready st)) else
  let st := with_ready st None in
  if awaited st key then (st, None) else (cancel_in_flight st, Some None).

(** What the other threads do while the caller waits after its [n]-th load of
    the cancel flag is [others n]. *)
Fixpoint adopt (fuel : nat) (others : Z → PfState → PfState) (cancel : Z → bool) (n : Z) (key : f64 * f64 * Z)
    (st : PfState) : res (PfState * Z * option CachedGoal) :=
  match fuel with
  | O => OutOfFuel
  | S fuel =>
      match adopt_look key st with
      | (st, Some o) => Ok (st, n, o)
      | (st, None) => if cancel n then Ok (st, n + 1, None) else adopt fuel others cancel (n + 1) key (others n st)
      end
  end.

(** The interface of the core. *)
Definition prefetcher (fuel : nat) (others : Z → PfState → PfState) : Prefetching PfState := {|
  pf_adopt cancel n goal t st := adopt fuel others cancel n (pv_x goal, pv_y goal, t) st;
  pf_note_goal goal st := Ok (note_goal goal st)
|}.

(** ** The worker *)

(** Picking up an order: its goal and its flag. *)
Definition worker_take (st : PfState) : option (PfState * PoseView * Z) :=
  match pf_want st with
  | None => None
  | Some g =>
      let i := pf_fresh st in
      Some (mkPf (pf_waypoints st) None (Some g) (pf_ready st) (Some i) (pf_raised st) (i + 1), g, i)
  end.

(** Putting down the result: the field of the spare core after a success. *)
Definition worker_done (solved : option (option CachedGoal)) (st : PfState) : PfState :=
  mkPf (pf_waypoints st) (pf_want st) None (match solved with Some o => o | None => pf_ready st end) None
    (pf_raised st) (pf_fresh st).

Inductive PfWorker : Type := WorkerIdle | WorkerSolving (goal : PoseView) (flag : Z).

(** The shared state, the spare core and where its worker is. *)
Record Prefetcher : Type := mkPrefetcher {
  pr_state : PfState;
  pr_spare : PlannerCore;
  pr_worker : PfWorker
}.

Section worker.
Context (cos sin : f64 → f64) (fuel : nat) (par nthreads : Z) (sched : Z → list Event).
Context (compact : Z → option Z → ValueIterator → World unit → res (ValueIterator * World unit * SolveOutcome)).
Context (schur : Z → Z → Z → Z → ValueIterator → World unit → res (ValueIterator * World unit * SolveOutcome)).

(** [spare.prepare_goal]; the loads of the flag are [cancel]. *)
Definition spare_solve (cancel : Z → bool) (goal : PoseView) (spare : PlannerCore)
    : res (PlannerCore * (PlanError + SolveStats)) :=
  r ← prepare_goal (F := unit) cos sin fuel par nthreads sched cancel compact schur goal spare (mkWorld 0 () false) ();
  let '(spare, _, _, s) := r in
  Ok (spare, s).

(** The calls on the prefetcher and the moves of its worker, in any order.  The
    solve runs outside the lock: its loads see a flag that was raised before it
    ended. *)
Inductive pf_step : Prefetcher → Prefetcher → Prop :=
  | pf_step_waypoints ws st c k : pf_step (mkPrefetcher st c k) (mkPrefetcher (set_waypoints ws st) c k)
  | pf_step_note goal st c k : pf_step (mkPrefetcher st c k) (mkPrefetcher (note_goal goal st) c k)
  | pf_step_look key st c k : pf_step (mkPrefetcher st c k) (mkPrefetcher (adopt_look key st).1 c k)
  | pf_step_take st c st' goal i : worker_take st = Some (st', goal, i) →
      pf_step (mkPrefetcher st c WorkerIdle) (mkPrefetcher st' c (WorkerSolving goal i))
  | pf_step_solved st c goal i cancel c' stats :
      (∀ n, cancel n = true → i ∈ pf_raised st) → spare_solve cancel goal c = Ok (c', inr stats) →
      pf_step (mkPrefetcher st c (WorkerSolving goal i))
        (mkPrefetcher (worker_done (Some (co_cached c')) st) (with_cached c' None) WorkerIdle)
  | pf_step_failed st c goal i cancel c' e :
      (∀ n, cancel n = true → i ∈ pf_raised st) → spare_solve cancel goal c = Ok (c', inl e) →
      pf_step (mkPrefetcher st c (WorkerSolving goal i)) (mkPrefetcher (worker_done None st) c' WorkerIdle).
End worker.

(** ** The invariant *)

Record pf_inv (p : Prefetcher) : Prop := {
  (** a field that waits for adoption is solved to the end *)
  pi_ready : ∀ g, pf_ready (pr_state p) = Some g → cg_partial g = false;
  (** the spare core is empty between the orders *)
  pi_spare : co_cached (pr_spare p) = None;
  pi_solver : modelled (pc_solver (co_cfg (pr_spare p))) = true;
  (** the running solve is known, and told to stop or the one to tell *)
  pi_worker : match pr_worker p with
    | WorkerIdle => pf_solving (pr_state p) = None ∧ pf_cancel (pr_state p) = None
    | WorkerSolving goal i => pf_solving (pr_state p) = Some goal ∧ 0 ≤ i < pf_fresh (pr_state p) ∧
        (pf_cancel (pr_state p) = Some i ∧ i ∉ pf_raised (pr_state p) ∨
         pf_cancel (pr_state p) = None ∧ i ∈ pf_raised (pr_state p))
    end;
  pi_fresh : 0 ≤ pf_fresh (pr_state p) ∧ ∀ i, i ∈ pf_raised (pr_state p) → i < pf_fresh (pr_state p);
  (** an order waits for no solve but one that was told to stop *)
  pi_order : is_Some (pf_want (pr_state p)) → pf_cancel (pr_state p) = None
}.

Lemma pf_start build cfg : modelled (pc_solver cfg) = true → pf_inv (mkPrefetcher pf_new (core_new build cfg) WorkerIdle).
Proof. intros Hm. by split; cbn. Qed.

(** What the calls that cancel do to the invariant. *)
Lemma cancel_keeps st c k : pf_inv (mkPrefetcher st c k) → pf_inv (mkPrefetcher (cancel_in_flight st) c k).
Proof.
  intros [H1 H2 H3 H4 [H5 H5'] H6]. cbn in *. unfold cancel_in_flight. destruct (pf_cancel st) as [i|] eqn:Ec.
  - destruct k as [|goal j]; [by destruct H4|]. destruct H4 as (Hs & Hj & [[[= ->] Hr]|[? _]]); [|done].
    split; cbn; try done.
    + split; [done|]. split; [done|]. right. split; [done|set_solver].
    + split; [done|]. set_solver.
  - split; cbn; try done. by rewrite Ec.
Qed.

Lemma ready_keeps st c k : pf_inv (mkPrefetcher st c k) → pf_inv (mkPrefetcher (with_ready st None) c k).
Proof. intros [H1 H2 H3 H4 H5 H6]. by split. Qed.

Lemma no_want_keeps st c k : pf_inv (mkPrefetcher st c k) → pf_inv (mkPrefetcher (with_want st None) c k).
Proof. intros [H1 H2 H3 H4 H5 H6]. split; cbn; try done. Qed.

Lemma discard_keeps st c k : pf_inv (mkPrefetcher st c k) → pf_inv (mkPrefetcher (discard_prefetch st) c k).
Proof. intros H. by apply cancel_keeps, no_want_keeps, ready_keeps. Qed.

Lemma discard_cleared st : pf_cancel (discard_prefetch st) = None ∧ pf_ready (discard_prefetch st) = None ∧ pf_want (discard_prefetch st) = None.
Proof. unfold discard_prefetch, cancel_in_flight. cbn. destruct (pf_cancel st) eqn:E; cbn; by rewrite ?E. Qed.

Lemma request_keeps next st c k : pf_inv (mkPrefetcher st c k) → pf_inv (mkPrefetcher (request next st) c k).
Proof.
  intros H. unfold request. destruct (_ || _); [done|]. apply discard_keeps in H.
  destruct (discard_cleared st) as (Hc & _ & _). destruct H as [H1 H2 H3 H4 H5 H6]. split; cbn in *; done.
Qed.

Lemma note_keeps goal st c k : pf_inv (mkPrefetcher st c k) → pf_inv (mkPrefetcher (note_goal goal st) c k).
Proof.
  intros H. unfold note_goal. destruct (position_of st goal); [by apply request_keeps|by apply discard_keeps|done].
Qed.

Lemma look_keeps key st c k : pf_inv (mkPrefetcher st c k) → pf_inv (mkPrefetcher (adopt_look key st).1 c k).
Proof.
  intros H. unfold adopt_look. destruct (match pf_ready st with Some _ => _ | None => _ end); [by apply ready_keeps|].
  apply ready_keeps in H. destruct (awaited _ key); [done|]. by apply cancel_keeps.
Qed.

Section worker.
Context (cos sin : f64 → f64) (fuel : nat) (par nthreads : Z) (sched : Z → list Event).
Context (compact : Z → option Z → ValueIterator → World unit → res (ValueIterator * World unit * SolveOutcome)).
Context (schur : Z → Z → Z → Z → ValueIterator → World unit → res (ValueIterator * World unit * SolveOutcome)).
Abbreviation solve_spare := (spare_solve cos sin fuel par nthreads sched compact schur).

(** A solve of an empty spare core: a field solved to the end, or none. *)
Lemma spare_solve_spec cancel goal c c' s :
  co_cached c = None → modelled (pc_solver (co_cfg c)) = true → solve_spare cancel goal c = Ok (c', s) →
  co_cfg c' = co_cfg c ∧
  match s with
  | inl e => co_cached c' = None ∧ (e = Cancelled ∧ (∃ n, cancel n = true) ∨ e = NotConverged)
  | inr _ => ∃ g, co_cached c' = Some g ∧ cg_partial g = false ∧ (proper_goal goal → is_cached_goal goal c' = true)
  end.
Proof.
  intros Hc Hm E. unfold spare_solve in E. returned_step E. destruct x as [[[c1 w1] f1] s1]. injection E as <- <-.
  unfold prepare_goal in E0. apply prepare_spec with (ok := fun _ : unit => True) in E0
    as (_ & _ & _ & _ & Ec & Hs); [|apply no_prefetch_laws|done..].
  split; [done|]. destruct s1 as [e|st].
  - destruct Hs as [? [[-> (n & _ & Hn)]| ->]]; (split; [done|]); [left; eauto|by right].
  - destruct Hs as (g & Eg & _ & Hcache & Hold & _ & Hnew). exists g. split; [done|]. split; [|done].
    destruct (cg_partial g) eqn:Ep; [|done]. exfalso. destruct (ss_solved_now st) eqn:En.
    + by destruct (Hnew eq_refl eq_refl) as (? & ? & _).
    + destruct (Hold eq_refl) as [-> _]. congruence.
Qed.

Lemma pf_step_keeps p p' :
  pf_step cos sin fuel par nthreads sched compact schur p p' → pf_inv p → pf_inv p'.
Proof.
  intros [ws st c k|goal st c k|key st c k|st c st' goal i Et|st c goal i cancel c' stats Hl E|st c goal i cancel c' e Hl E] H.
  - destruct H as [H1 H2 H3 H4 H5 H6]. by split.
  - by apply note_keeps.
  - by apply look_keeps.
  - unfold worker_take in Et. destruct (pf_want st) as [g|] eqn:Ew; [|done]. injection Et as <- -> <-.
    destruct H as [H1 H2 H3 H4 [H5 H5'] H6]. cbn in *. split; cbn; try done.
    + split; [done|]. split; [lia|]. left. split; [done|]. intros Hi%H5'. lia.
    + split; [lia|]. intros i Hi%H5'. lia.
  - destruct H as [H1 H2 H3 H4 H5 H6]. cbn in *. apply spare_solve_spec in E as (Ec & g & Eg & Hg & _); [|done..].
    split; cbn; try done.
    + rewrite Eg. by intros ? [= <-].
    + by rewrite Ec.
  - destruct H as [H1 H2 H3 H4 H5 H6]. cbn in *. apply spare_solve_spec in E as (Ec & Eg & _); [|done..].
    split; cbn; try done. by rewrite Ec.
Qed.
End worker.

(** ** The interface *)

Definition solved_ready (st : PfState) : Prop := ∀ g, pf_ready st = Some g → cg_partial g = false.

Lemma cancel_ready st : pf_ready (cancel_in_flight st) = pf_ready st.
Proof. unfold cancel_in_flight. by destruct (pf_cancel st). Qed.

Lemma note_ready goal st : solved_ready st → solved_ready (note_goal goal st).
Proof.
  intros H. assert (solved_ready (discard_prefetch st)) as Hd.
  { intros g. by rewrite (proj1 (proj2 (discard_cleared st))). }
  unfold note_goal. destruct (position_of st goal); [|done|done]. unfold request. by destruct (_ || _).
Qed.

Lemma adopt_look_spec key st st' r :
  adopt_look key st = (st', r) → solved_ready st →
  pf_ready st' = None ∧
  match r with
  | Some (Some g) => goal_matches (cached_key g) key = true ∧ cg_partial g = false
  | Some None => pf_want st' = None ∧ pf_cancel st' = None
  | None => awaited st' key = true
  end.
Proof.
  unfold adopt_look. intros H Hs.
  destruct (match pf_ready st with Some _ => _ | None => _ end) eqn:Em.
  - injection H as <- <-. split; [done|]. destruct (pf_ready st) as [g|] eqn:Eg; [|done]. split; [done|by apply Hs].
  - destruct (awaited (with_ready st None) key) eqn:Ea; injection H as <- <-.
    + by split.
    + rewrite cancel_ready. split; [done|]. unfold cancel_in_flight. cbn. destruct (pf_cancel st) eqn:E; by cbn; rewrite ?E.
Qed.

Lemma adopt_spec fuel others cancel n key st st' n' o :
  (∀ n st, solved_ready st → solved_ready (others n st)) →
  adopt fuel others cancel n key st = Ok (st', n', o) → solved_ready st →
  pf_ready st' = None ∧ n ≤ n' ∧
  match o with
  | Some g => goal_matches (cached_key g) key = true ∧ cg_partial g = false
  | None => (pf_want st' = None ∧ pf_cancel st' = None) ∨ ∃ m, n ≤ m < n' ∧ cancel m = true
  end.
Proof.
  intros Ho. revert n st. induction fuel as [|fuel IH]; intros n st E Hs; [done|]. cbn [adopt] in E.
  destruct (adopt_look key st) as [st1 r] eqn:El. apply adopt_look_spec in El as [Hr Hc]; [|done].
  destruct r as [o1|].
  - injection E as <- <- <-. split; [done|]. split; [lia|]. destruct o1; [done|by left].
  - destruct (cancel n) eqn:Ec.
    + injection E as <- <- <-. split; [done|]. split; [lia|]. right. exists n. split; [lia|done].
    + apply IH in E as (? & ? & Hm); [|apply Ho; intros g; congruence]. split; [done|]. split; [lia|].
      destruct o; [done|]. destruct Hm as [?|(m & ? & ?)]; [by left|right]. exists m. split; [lia|done].
Qed.

Lemma prefetcher_laws fuel others :
  (∀ n st, solved_ready st → solved_ready (others n st)) →
  @PrefetchLaws PfState (prefetcher fuel others) solved_ready.
Proof.
  intros Ho. split.
  - intros cancel n goal t st st' n' o Hs E. cbn in E. apply adopt_spec in E as (Hr & Hn & Hm); [|done..].
    split; [intros g; congruence|]. split; [done|]. intros g ->. exact Hm.
  - intros goal st st' Hs [= <-]. by apply note_ready.
Qed.

(** ** Properties *)

Section properties.
Context (cos sin : f64 → f64) (fuel : nat) (par nthreads : Z) (sched : Z → list Event).
Context (compact : Z → option Z → ValueIterator → World unit → res (ValueIterator * World unit * SolveOutcome)).
Context (schur : Z → Z → Z → Z → ValueIterator → World unit → res (ValueIterator * World unit * SolveOutcome)).
Abbreviation step := (pf_step cos sin fuel par nthreads sched compact schur).

(** C18: adopting a prefetched field is safe in any interleaving.  Whatever order
    the waypoint lists, the goals, the adoptions and the moves of the worker come
    in, the prefetcher keeps its invariant: a field that waits for adoption is
    solved to the end, the spare core holds nothing between two orders, and the
    running solve is known and either has the one flag that stops it or was told to
    stop.  So a caller that looks for a field gets one of its own goal, solved to
    the end; or it waits, and then its goal is ordered or in work; or it gets
    nothing, and then no order is left and a solve in flight was told to stop. *)
Theorem prefetch_safe build cfg p key st' r :
  modelled (pc_solver cfg) = true →
  rtc step (mkPrefetcher pf_new (core_new build cfg) WorkerIdle) p →
  adopt_look key (pr_state p) = (st', r) →
  pf_inv p ∧ pf_ready st' = None ∧
  match r with
  | Some (Some g) => goal_matches (cached_key g) key = true ∧ cg_partial g = false
  | Some None => pf_want st' = None ∧ ∀ goal i, pr_worker p = WorkerSolving goal i → i ∈ pf_raised st'
  | None => awaited st' key = true
  end.
Proof.
  intros Hm Hs El. assert (pf_inv p) as Hp.
  { assert (∀ a b, rtc step a b → pf_inv a → pf_inv b) as Hi.
    { intros a b Hab. induction Hab as [a|a b c Hab _ IH]; [done|]. intros Ha. by eapply IH, pf_step_keeps. }
    by apply (Hi _ _ Hs), pf_start. }
  split; [done|]. pose proof El as El'. apply adopt_look_spec in El as [Hr Ha]; [|exact (pi_ready _ Hp)]. split; [done|].
  destruct r as [[g|]|]; [done| |done]. destruct Ha as [Hw Hc]. split; [done|]. intros goal i Hi.
  destruct p as [st c k]. cbn in *. subst k. pose proof (look_keeps key _ _ _ Hp) as Hk. rewrite El' in Hk.
  destruct Hk as [_ _ _ (_ & _ & [[? _]|[_ ?]]) _ _]; [|done]. cbn in *. congruence.
Qed.

(** A solve that ends well after it was told to stop: its field stays while the
    next order is solved. *)
Lemma told_solve_keeps_field goal i next ws c c' stats g :
  spare_solve cos sin fuel par nthreads sched compact schur (fun _ => false) goal c = Ok (c', inr stats) →
  co_cached c' = Some g →
  ∃ st, rtc step (mkPrefetcher (mkPf ws (Some next) (Some goal) None None {[i]} (i + 1)) c (WorkerSolving goal i))
          (mkPrefetcher st (with_cached c' None) (WorkerSolving next (i + 1))) ∧
        pf_ready st = Some g ∧ pf_solving st = Some next.
Proof.
  intros E Eg. eexists. split.
  - eapply rtc_l; [eapply pf_step_solved; [|exact E]; by intros n|]. apply rtc_once. by eapply pf_step_take.
  - by rewrite <- Eg.
Qed.
End properties.

(** ** Samples *)

#[local] Abbreviation tiny_spare :=
  (spare_solve level_cos level_sin 100 2 1 (fun _ => []) no_compact no_schur (fun _ => false) left_pose
    (core_new tiny_build (tiny_cfg false))).
#[local] Abbreviation tiny_step := (pf_step level_cos level_sin 100 2 1 (fun _ => []) no_compact no_schur).

Definition spare_field (r : res (PlannerCore * (PlanError + SolveStats))) : bool :=
  match r with
  | Ok (c, inr _) =>
      match co_cached c with Some g => goal_matches (cached_key g) (goal_key left_pose) | None => false end
  | _ => false
  end.

Lemma spare_field_Some r : spare_field r = true →
  ∃ c st g, r = Ok (c, inr st) ∧ co_cached c = Some g ∧ goal_matches (cached_key g) (goal_key left_pose) = true.
Proof.
  destruct r as [[c [e|st]]| |]; try done. cbn. destruct (co_cached c) as [g|] eqn:E; [|done]. by exists c, st, g.
Qed.

(** The robot drives to the right cell; the left one is solved and adopted. *)
Lemma prefetch_safe_witness :
  ∃ p g, rtc tiny_step (mkPrefetcher pf_new (core_new tiny_build (tiny_cfg false)) WorkerIdle) p ∧
    (adopt_look (goal_key left_pose) (pr_state p)).2 = Some (Some g) ∧ cg_partial g = false ∧ pf_inv p.
Proof.
  destruct (spare_field_Some tiny_spare) as (c' & stats & g & E & Eg & Hg); [vm_compute; reflexivity|].
  set (p := mkPrefetcher (mkPf [right_pose; left_pose] None None (Some g) None ∅ 1) (with_cached c' None) WorkerIdle).
  assert (rtc tiny_step (mkPrefetcher pf_new (core_new tiny_build (tiny_cfg false)) WorkerIdle) p) as Hs.
  { eapply rtc_l; [apply (pf_step_waypoints _ _ _ _ _ _ _ _ [right_pose; left_pose])|].
    eapply rtc_l; [apply (pf_step_note _ _ _ _ _ _ _ _ right_pose)|].
    eapply rtc_l; [eapply pf_step_take; vm_compute; reflexivity|].
    replace p with (mkPrefetcher (worker_done (Some (co_cached c'))
      (mkPf [right_pose; left_pose] None (Some left_pose) None (Some 0) ∅ 1)) (with_cached c' None) WorkerIdle)
      by (unfold worker_done; cbn; rewrite Eg; reflexivity).
    apply rtc_once. eapply pf_step_solved; [|exact E]. by intros n. }
  assert (adopt_look (goal_key left_pose) (pr_state p) = (with_ready (pr_state p) None, Some (Some g))) as El.
  { unfold adopt_look. cbn [pf_ready pr_state p]. rewrite Hg. reflexivity. }
  destruct (prefetch_safe level_cos level_sin 100 2 1 (fun _ => []) no_compact no_schur tiny_build (tiny_cfg false) p
    _ _ _ eq_refl Hs El) as (Hp & _ & _ & Hpart).
  exists p, g. rewrite El. split; [exact Hs|]. split; [reflexivity|]. split; [exact Hpart|exact Hp].
Defined.
