(* ===== verification/RepairApart.v ===== *)
(** * The two workers keep out of each other's cells

    What a commit may write, in every state the repair can reach: the global
    worker no cell of the window, the local worker none outside it; and every
    cell a commit changes is queued. *)

From Stdlib Require Import ZArith Lia.
From stdpp Require Import base gmap strings list numbers relations.
From S2P Require Import Prelude Floats Model Bellman Consistency Original Bitboard BitboardOps BitboardEnum Active MapSetup LocalPlanner LocalSpec LocalScan Planner Solve Core CoreSpec Invalidate GlobalJob LocalJob Repair RepairJob RepairCommit RepairPrepare LocalRun RepairInv RepairLoop RepairInputs RepairOwner RepairLocal RepairSpec.

(** From [c] to [c'] only values and actions in cells of [P] changed, and the
    changed cells are queued. *)
Definition writes_only (c c' : PlannerCore) (P : Z → Z → Prop) : Prop :=
  ∀ i s, zget (states c) i = Some s → ∃ s', zget (states c') i = Some s' ∧ static_part s' = static_part s ∧
    (s' = s ∨ P (s_ix s) (s_iy s) ∧ seeded (co_sweep c') (s_ix s) (s_iy s) = true).

Lemma writes_none c c' P : states c' = states c → writes_only c c' P.
Proof. intros E i s Hi. exists s. rewrite E. auto. Qed.

Section apart.
Context (g : geo) (N : Z) (W : gset (Z * Z)) (c : PlannerCore) (o : option GlobalJob) (ls : list LocalJob).
Context (H : repair_inv g N W c o ls).

Lemma global_apart j :
  o = Some j → ∃ c' d b, commit_global_job j c = Ok (c', d, b) ∧
    writes_only c c' (fun x y => (x, y) ∉ m_owned (co_global c)).
Proof.
  intros Ho. destruct (ri_cached _ _ _ _ _ _ H) as (cg & Hcg & _). pose proof (ri_flight _ _ _ _ _ _ H) as Hfl.
  rewrite Ho in Hfl. pose proof (ri_job _ _ _ _ _ _ H j Ho) as Hj.
  destruct (commit_global_spec g c cg j (ri_ok _ _ _ _ _ _ H) Hcg Hfl Hj) as (c' & d & b & -> & Hfr & [Hcol Hout] & _).
  exists c', d, b. split; [done|]. pose proof (states_wf g c cg (ri_ok _ _ _ _ _ _ H) Hcg) as Hst. intros i s Hi.
  destruct (column_of g _ _ _ Hst Hi) as (Hxy & Ht & Ei).
  assert ((gj_origin j).1 + (s_ix s - (gj_origin j).1) = s_ix s ∧ (gj_origin j).2 + (s_iy s - (gj_origin j).2) = s_iy s)
    as [Ex Ey] by lia.
  destruct (decide ((s_ix s - (gj_origin j).1, s_iy s - (gj_origin j).2) ∈ gj_cells j)) as [Hin|Hno].
  - destruct (Hcol _ _ Hin) as [[Hs _]|[[_ Hn] Htk]].
    + exists s. specialize (Hs _ Ht). rewrite Ex, Ey, <- Ei in Hs. rewrite Hs. auto.
    + destruct (Htk _ Ht) as (s0 & b0 & f & Hs0 & _ & _ & _ & Hs' & Hmv). unfold held in Hn.
      rewrite Ex, Ey in *. rewrite <- Ei in *. rewrite Hi in Hs0. injection Hs0 as <-.
      eexists. split; [exact Hs'|]. split; [done|].
      destruct (decide (s_total_cost s = s_total_cost f)) as [E1|]; [|right; auto].
      destruct (decide (s_optimal_action s = s_optimal_action f)) as [E2|]; [|right; auto].
      left. rewrite <- E1, <- E2. apply with_value_self.
  - exists s. split; [|auto]. rewrite Hout; [done|]. intros x y t Hin Htt E. apply Hno.
    destruct (jo_cells _ _ _ _ Hj x y Hin) as [Hm _]. destruct (box_map g _ _ j Hj x y Hm), Hxy. rewrite Ei in E.
    apply (index_inj _ (g_ny g)) in E as (-> & -> & _); [|done..].
    by replace ((gj_origin j).1 + x - (gj_origin j).1) with x by lia;
      replace ((gj_origin j).2 + y - (gj_origin j).2) with y by lia.
Qed.

Lemma local_apart j :
  j ∈ ls → ∃ c' r, commit_local_job j c = Ok (c', r) ∧
    writes_only c c' (fun x y => (x, y) ∈ m_owned (co_global c)).
Proof.
  intros Hin. pose proof (ri_ok _ _ _ _ _ _ H) as Hok.
  destruct (commit_local_full g N W c o ls j ls H Hin (fun i Hi => Hi))
    as (c' & r & -> & _ & _ & [[_ Es]|(Hacc & cg & before & st' & changed & Hcg & Hj & Hst & Es & Hq)]);
    exists c', r; (split; [done|]); [by apply writes_none|]. destruct (ri_local _ _ _ _ _ _ H j Hin) as (_ & Hown & _). specialize (Hown Hacc).
  intros i s Hi. destruct (local_changes g N W c o ls cg before j H Hcg Hj st' changed Hst (co_sweep c')) as [_ Hch]; [done|].
  destruct (Hch i s Hi) as (s' & Hs' & Hp & Heq). exists s'. rewrite Es. split; [done|].
  destruct (local_statics g N W c o ls cg before j H Hcg Hj st' changed Hst i s' Hs') as (s0 & Hs0 & Hstat).
  rewrite Hi in Hs0. injection Hs0 as <-. split; [done|].
  destruct (decide ((s_ix s - (lj_origin j).1, s_iy s - (lj_origin j).2) ∈ lj_cells j)) as [Hc|Hno].
  - destruct Heq as [?|?]; [by left|right; split; [|done]]. specialize (Hown _ _ Hc).
    by replace ((lj_origin j).1 + (s_ix s - (lj_origin j).1)) with (s_ix s) in Hown by lia;
      replace ((lj_origin j).2 + (s_iy s - (lj_origin j).2)) with (s_iy s) in Hown by lia.
  - left. pose proof (si_out _ _ _ _ _ _ Hst i) as Ho. cbn in Ho. rewrite Ho in Hs'; [congruence|].
    intros x y t Hxy Ht Ei. apply Hno. pose proof (states_wf g c cg Hok Hcg) as Hwf.
    destruct (column_of g _ _ _ Hwf Hi) as ([? ?] & ? & Ei'). rewrite Ei' in Ei.
    destruct (local_map g before j Hj x y (shape_cells g before j x y Hj Hxy)).
    apply (index_inj _ (g_ny g)) in Ei as (-> & -> & _); [|done..].
    by replace ((lj_origin j).1 + x - (lj_origin j).1) with x by lia;
      replace ((lj_origin j).2 + y - (lj_origin j).2) with y by lia.
Qed.
End apart.

(** C5: the two workers keep out of each other's cells.  Take any number of
    steps of the repair from the early start.  Whatever global job is then out,
    committing it returns and writes no cell of the window, even when the
    window was moved onto the job's cells after it was made; whatever local job
    is out, however old, committing it returns and writes cells of the window
    only.  Neither touches the inputs of a state, and every cell with a value
    or an action that changed is queued for the global worker. *)
Theorem workers_apart cos sin g N k c0 y :
  repair_start g N c0 → N + Z.of_nat k < 2 ^ 64 → nsteps (repair_step cos sin) k (mkSystem c0 None []) y →
  let c := sy_core y in
  (∀ j, sy_job y = Some j → ∃ c' d b, commit_global_job j c = Ok (c', d, b) ∧
     writes_only c c' (fun x y => (x, y) ∉ m_owned (co_global c))) ∧
  (∀ j, j ∈ sy_local y → ∃ c' r, commit_local_job j c = Ok (c', r) ∧
     writes_only c c' (fun x y => (x, y) ∈ m_owned (co_global c))).
Proof.
  intros H0 HN Hs. destruct (watch_steps cos sin g k _ _ ∅ Hs) as [W HW].
  pose proof (steps_keep cos sin g N k _ _ HW (start_inv g N c0 H0) HN) as H.
  split; [apply (global_apart g _ _ _ _ _ H)|apply (local_apart g _ _ _ _ _ H)].
Qed.

(** A job made for the whole corridor; then the window is claimed. *)
Definition overtaken : System := default start_system (fst <$> perform_all (fun _ => f1) (fun _ => f0) [Prepare; Run; Claim] (start_system, ∅)).

Lemma workers_apart_witness :
  ∃ j c' d b, sy_job overtaken = Some j ∧ (3, 0) ∈ gj_cells j ∧ (3, 0) ∈ m_owned (co_global (sy_core overtaken)) ∧
    commit_global_job j (sy_core overtaken) = Ok (c', d, b) ∧
    writes_only (sy_core overtaken) c' (fun x y => (x, y) ∉ m_owned (co_global (sy_core overtaken))) ∧
    s_total_cost <$> states c' = [0; PROB_BASE; MAX_COST; MAX_COST].
Proof.
  destruct (perform_all (fun _ => f1) (fun _ => f0) [Prepare; Run; Claim] (start_system, ∅)) as [[y W]|] eqn:E;
    [|vm_compute in E; discriminate E].
  assert (overtaken = y) as Ey by (unfold overtaken; by rewrite E).
  pose proof (forget_steps _ _ _ _ _ _ (perform_steps (fun _ => f1) (fun _ => f0) _ _ _ E)) as Hs.
  destruct (workers_apart (fun _ => f1) (fun _ => f0) sample_geo 0 3 early_core y early_start ltac:(lia) Hs) as [Hg _].
  rewrite <- Ey in Hg. clear E Hs Ey y.
  assert (match sy_job overtaken with
          | Some j => bool_decide ((3, 0) ∈ gj_cells j) && bool_decide ((3, 0) ∈ m_owned (co_global (sy_core overtaken)))
              && match commit_global_job j (sy_core overtaken) with
                 | Ok (c', _, _) => bool_decide (s_total_cost <$> states c' = [0; PROB_BASE; MAX_COST; MAX_COST]) | _ => false end
          | None => false end = true) as Hv by (vm_compute; reflexivity).
  destruct (sy_job overtaken) as [j|]; [|discriminate Hv]. destruct (Hg j eq_refl) as (c' & d & b & E & Hw).
  rewrite E in Hv. rewrite !andb_true_iff, !bool_decide_eq_true in Hv. destruct Hv as [[H1 H2] H3].
  exists j, c', d, b. auto 10.
Defined.
